(* ===== verification/_CoqProject ===== *)
-Q . S2P
Prelude.v
GoStd.v
K8s.v
PortRange.v
Addresses.v
PortPublisher.v
EndpointsWatcher.v
Addr.v
WeightedAddr.v
EndpointTranslator.v
Pipeline.v
OpaquePorts.v
EwReconciler.v
EwConvergence.v
EwController.v
ProfileTranslator.v
Profiles.v
Names.v
Mirror.v
ServiceMirror.v
MirrorSafety.v
MirrorConvergence.v
MirrorProps.v
Probe.v
LinkController.v
WorkloadWatcher.v
WorkloadProps.v
Federated.v
FederatedProps.v
Server.v
InjectData.v
InjectValues.v
Inject.v
InjectProps.v
InjectPatch.v
InjectWebhook.v
Tls.v
Identity.v
IdentityProps.v
K8sApi.v
K8sApiProps.v
Version.v
Health.v
HealthProps.v
PkgK8s.v
IssuerCerts.v
IPNet.v
HealthPure.v
HealthChecks.v
HealthSafety.v
HealthCheckProps.v
Check.v
VizApi.v
VizStat.v
VizRoutes.v
VizProps.v
Tap.v
TapProps.v
ProtoHttp.v
Top.v
TopProps.v
