(* ===== verification/Prelude.v ===== *)
(** * The Linkerd control plane

    Linkerd is a service mesh: proxies next to the workloads of a Kubernetes cluster carry
    the traffic, and a control plane written in Go tells them where to send it.  This
    library models the parts of the control plane that compute something, from the sources
    under src/, and proves what they promise.

    ** The program and the files that model it

    Destination service (src/controller/api/destination).  A proxy opens a Get stream for a
    service and receives the endpoints of the service as they change, or a GetProfile stream
    and receives the policy of the service.
    - [Addresses], [PortPublisher], [EndpointsWatcher]: watcher/endpoints_watcher.go.  The
      watcher keeps a publisher per service and, within it, one per port and host name.  The
      informers call the watcher; the publishers keep the address set of their port and call
      their listeners.
    - [WeightedAddr], [EndpointTranslator]: endpoint_translator.go, the listener behind a Get
      stream: a bounded queue, the filter for the client's zone, node and address family,
      and the messages Add, Remove and NoEndpoints.
    - [Pipeline]: the watcher and the translator together.
    - [OpaquePorts], [Profiles], [ProfileTranslator]: watcher/opaque_ports_watcher.go,
      watcher/profile_watcher.go, the listeners between them and a GetProfile stream
      (fallback, default, dedup, opaque ports) and profile_translator.go.
    - [WorkloadWatcher], [WorkloadProps]: watcher/workload_watcher.go, the indexers of
      watcher/k8s.go and endpoint_profile_translator.go: profiles of single pods and external
      workloads.  Publishers are objects in a heap, since the queues hold pointers to them,
      and the goroutines the handlers start are tasks that run in any order.
    - [Federated], [FederatedProps]: federated_service_watcher.go and
      watcher/cluster_store.go, services whose members are in several clusters.
    - [Names], [Server]: server.go, its authorities and service names, and the handlers Get
      and GetProfile as programs in a monad with Go's defer.
    - [EwReconciler], [EwConvergence], [EwController]: external-workload/, the controller
      that writes the EndpointSlices of the services that select ExternalWorkloads.

    Multicluster (src/multicluster).  The service mirror copies the exported services of a
    linked cluster into the local one.
    - [Mirror], [ServiceMirror]: service-mirror/cluster_watcher.go and
      cluster_watcher_headless.go.  [Mirror] has the two clusters, the caches, the calls of
      the client with their failures and the monad; [ServiceMirror] every event handler.
      [MirrorSafety], [MirrorConvergence] and [MirrorProps] hold the theorems.
    - [Probe]: service-mirror/probe_worker.go and the watcher's side of its channel.
    - [LinkController]: cmd/service-mirror/main.go and service-mirror/link_handlers.go, the
      loop that restarts watcher and probe for each version of the Link.

    Proxy injection (src/pkg/inject, src/controller/proxy-injector).  A webhook that adds the
    proxy to pods when they are created.
    - [InjectData], [InjectValues]: the Helm values and the annotations that override them.
    - [Inject]: reading a workload, the report that decides, the patch with its template
      (src/charts/patch), the webhook and uninjection; and how a patch applies to a document.
    - [InjectProps], [InjectPatch], [InjectWebhook]: the theorems.

    Identity (src/pkg/tls, src/pkg/identity, src/controller/identity).  The service that signs
    the certificates of the proxies.
    - [Tls]: certificates, keys and credentials, their PEM encodings and verification, and
      the certificate authority (ca.go, cred.go, codec.go, creds_watcher.go).
    - [Identity]: the trust domain, the validation of tokens, the Certify handler and the
      loading and reloading of the issuer.  [IdentityProps]: the theorems.

    Kubernetes API access (src/controller/k8s).
    - [K8sApi]: the caches behind the informers and the queries over them, owners of pods,
      pods of a workload, services of a pod, in the full and the metadata-only API.
      [K8sApiProps]: the theorems.
    - [PkgK8s]: pkg/k8s, the status, proxy and identity of pods, the pods of a workload as the
      command line finds them, resource names and access reviews.

    Health checks and the command check (src/pkg/healthcheck, src/pkg/issuercerts,
    src/pkg/version, src/cli/cmd/check.go).
    - [Health]: errors, checkers, categories and the runner with its retries, and the output
      of results as JSON and as a table.  [HealthProps]: what a run promises of any checks.
    - [HealthPure]: the checks that are functions of objects already fetched;
      [HealthChecks]: the others, as programs over the answers of a cluster, and all
      categories in their order.  [IPNet]: networks as net.IPNet has them.  [IssuerCerts]:
      issuer certificates.  [Version]: release channels and versions.
    - [HealthSafety]: rules for proving that checks do not crash, and that none does;
      [HealthCheckProps]: what single checks establish.
    - [Check]: the command, the extensions it finds and runs, and its exit code.

    Viz metrics API (src/viz/metrics-api, src/viz/pkg).  It joins what the caches know of
    objects with what Prometheus knows of their traffic.
    - [VizApi]: requests, labels, queries and how Prometheus is asked.
    - [VizStat]: statistics of workloads, services and policy resources (stat_summary.go,
      policy.go).  [VizRoutes]: the other handlers of the server.
    - [VizProps]: what a query means, and the theorems.

    Viz tap (src/viz/tap, src/viz/cmd/tap.go, src/viz/cmd/top.go, src/pkg/protohttp).
    - [Tap]: requests, the API server in front of the taps, the taps and their events, and
      the webhook that enables tap.  [TapProps]: the theorems.
    - [ProtoHttp]: framed messages and errors over HTTP, with its theorem.
    - [Top]: the output of tap and the table of top.  [TopProps]: the theorems.

    Shared packages.
    - [PortRange]: pkg/util/portrange.go and parsing.go, and the readers of the annotations
      that list ports.
    - [Addr]: pkg/addr/addr.go, IP addresses as text and as integers.
    - [K8s]: the objects of the Kubernetes API, pkg/k8s/labels.go.
    - [GoStd]: what the sources use of Go's strings, strconv, net and net/netip.
    - [Prelude] (this file): results of fallible code, machine integers, maps, lists, the
      order of [range] over a map, and the automation the other files use.

    ** How code becomes definitions

    A Go function is a function with the same name; a method takes its receiver and returns
    it updated.  A function that returns an error returns [res]: [Ok], [Err] or, for a nil
    dereference, a write to a closed channel and the like, [Panic].  A call on a listener is
    an event in a list, tagged with the listener, in the order of the code.  Maps and sets
    are [gmap] and [gset]; a loop over a map takes the order of its entries from the class
    [MapRange], so that a theorem holds for every order.  Integers are [Z], wrapped to their
    width where the source converts.  Mutexes make an operation one step; where the source
    takes none ([Profiles], the opaque ports adaptor) the steps of the operation interleave.
    Logs, metrics and the text of error messages are left out, except messages that a
    theorem needs to tell apart.

    Code that is not under src/ is a parameter with the laws its documentation gives: the
    informer caches and the API server, the work queue, the keys and the selectors of
    client-go (classes of [EwController], arguments of
    [ServiceMirror]), name resolution and the IPs the API server assigns ([ServiceMirror]),
    quantities, durations, the YAML copy of values, SHA-256 and the containers of the partial
    templates ([InjectValues], [Inject]), signatures, X.509 and PEM encodings and the reviews
    of tokens ([Tls], [Identity]), the validation of label values and direct calls of the API
    server ([K8sApi]), the answers of the cluster at each attempt, the decoding of manifests
    and the algorithms of keys ([HealthChecks]), files, processes and their output
    ([Check]), and Prometheus, the text of its labels and the dynamic client
    ([VizApi], [VizStat]), the router, access reviews and proxies ([Tap]), the endpoint slice utilities
    ([EwReconciler]), [time.ParseDuration] and the registered HTTP methods of the proxy API
    ([ProfileTranslator]).

    ** What the theorems show

    - Streams.  In every reachable state of the watcher, each subscriber's view agrees with
      the publisher it subscribed to; a Get stream whose queue is drained has sent exactly
      the endpoints its client should see; a stream loses no update without being ended, and
      a drained one terminates.
    - Publishers.  The address set of a publisher is the image of the slices reported to it.
    - Single endpoints and federated services.  An endpoint profile stream shows the current
      address in every interleaving; the federated service watcher implements its abstract
      specification, a map from services to members and streams.
    - Filters and messages.  Which endpoints a client gets, in which address family, and with
      which identity and protocol hints.
    - Profiles.  The conditions sent to a proxy accept what the ServiceProfile's conditions
      accept; the listener stack selects the right profile and merges the opaque ports.
    - External workloads.  A sync whose writes succeed leaves the slices with exactly the
      endpoints of the selected workloads; no key is lost or retried without bound; an
      update that queues no service changes no endpoint, up to the zone.
    - Service mirror.  With calls that succeed and caches that catch up, the mirrors become
      those the remote services ask for, after a bounded number of events; whatever fails,
      objects that are not the mirror's are left alone; orphans are collected; members join
      and leave federated services; the probe reports the health of the gateway, and the
      controller follows the Link.
    - Handlers.  Get and GetProfile release whatever they acquired on every path; a profile
      asked for by IP is the one asked for by name; which watcher serves which service.
    - Injection.  The webhook injects exactly the pods that are to be injected, with the
      values the annotations in effect give; its patch applies to every document it is made
      for and has the specified result; uninjection takes it back; annotations keep the
      values in their types.
    - Identity.  A certificate that Certify returns verifies against the trust anchors, is for
      the requested name only, and outlives neither the lifetime asked for nor the issuer; the
      name is that of the service account whose token was reviewed; no request crashes the
      handler; credentials survive their encoding.
    - Kubernetes API access.  The pods of a workload are the live ones it owns, at most two
      levels down; the services of a pod are those whose selector accepts it.
    - Health checks.  A run returns the verdict of the results it shows, in the order of the
      checks; read back from JSON the verdict is the same; the checks of networks, versions
      and opaque ports accept exactly or at least what they are for; linkerd check ends
      without a crash, runs or reports each installed extension once, and exits with the
      verdict of its checks and of theirs.
    - Metrics.  The table of a kind of workload has one row for each object, whose numbers are
      the aggregates over exactly the series with the labels of the object.
    - Tap.  What is tapped was reviewed for the user, belongs to the object that was reviewed
      and has tap enabled; the rate of a tap is bounded; the table of top summarises exactly
      the completed requests.
    - Round trips and bounds.  Port ranges, IP addresses, authorities, durations.
    - Deviations.  Theorems on concrete shortcomings of the code are listed as findings in
      the manifest; each is a statement about the definitions, with an example.

    ** Bounds and fuel

    Recursion that is not structural has fuel that is provably or evidently enough: eight
    groups for an IPv6 address, the length of the text for [TrimSpace], the number of
    endpoints for the loops that fill slices (each turn takes one out of the set).  A queue
    of n messages is drained by n + 1 receives.  A PEM file has at
    most as many blocks as characters; owners are followed two levels down, as the code does.  A
    check has as many attempts as fit before its deadline at one every five seconds.

    ** Not modelled

    The gRPC plumbing, informers and leader election (client libraries); Prometheus metrics;
    generated code (clients, deep copies, protobuf); the commands other than check,
    tap and top, and the dashboard, which render; Helm charts; the policy controller, which
    is in Rust. *)
From Stdlib Require Export ZArith Ascii String.
From stdpp Require Export base sorting option numbers gmap sets strings list.

Declare Scope go_scope.
Delimit Scope go_scope with go.
#[global] Open Scope Z_scope.

(** * Results of fallible Go code

    A Go function that returns [(T, error)] is a [res T]: [Ok] when the error is
    nil, [Err] with the message otherwise.  [Panic] is a run-time panic (a nil
    dereference, a send on a closed channel, a second close). *)
Inductive res (A : Type) : Type :=
  | Ok (a : A)
  | Err (e : string)
  | Panic.
Arguments Ok {A} a.
Arguments Err {A} e.
Arguments Panic {A}.

Definition res_bind {A B} (c : res A) (k : A → res B) : res B :=
  match c with Ok a => k a | Err e => Err e | Panic => Panic end.

Definition is_ok {A} (c : res A) : bool :=
  match c with Ok _ => true | _ => false end.

Definition is_err {A} (c : res A) : bool :=
  match c with Err _ => true | _ => false end.

Definition res_ok {A} (c : res A) : option A :=
  match c with Ok a => Some a | _ => None end.

Notation "'let*' x := c 'in' k" := (res_bind c (fun x => k))
  (at level 10, x name, c at level 100, k at level 200) : go_scope.

(** The loop [for _, x := range l { y, err := f(x); if err != nil { return err };
    ys = append(ys, y) }]: the first failure stops it. *)
Fixpoint res_mapM {A B} (f : A → res B) (l : list A) : res (list B) :=
  match l with
  | [] => Ok []
  | x :: l => (let* y := f x in let* ys := res_mapM f l in Ok (y :: ys))%go
  end.

#[export] Instance res_eq_dec {A} `{!EqDecision A} : EqDecision (res A).
Proof. solve_decision. Defined.

(** * Machine integers

    An integer of [w] bits is a [Z]; the conversions of the source are the
    wrap-around functions below. *)
Definition u16 (z : Z) : Z := z mod 2^16.
Definition u32 (z : Z) : Z := z mod 2^32.
Definition u64 (z : Z) : Z := z mod 2^64.
Definition i32 (z : Z) : Z := (z + 2^31) mod 2^32 - 2^31.

Definition is_u16 (z : Z) : Prop := 0 ≤ z < 2^16.
Definition is_u32 (z : Z) : Prop := 0 ≤ z < 2^32.
Definition is_i32 (z : Z) : Prop := -2^31 ≤ z < 2^31.

Lemma u16_id z : is_u16 z → u16 z = z.
Proof. intros H. apply Z.mod_small, H. Qed.
Lemma u32_id z : is_u32 z → u32 z = z.
Proof. intros H. apply Z.mod_small, H. Qed.
Lemma u32_range z : is_u32 (u32 z).
Proof. apply Z.mod_pos_bound. lia. Qed.
Lemma u16_range z : is_u16 (u16 z).
Proof. apply Z.mod_pos_bound. lia. Qed.
Lemma i32_id z : is_i32 z → i32 z = z.
Proof. unfold i32, is_i32. intros H. rewrite Z.mod_small; lia. Qed.

(** * Automation *)
Create HintDb linkerd.
Create Rewrite HintDb linkerd.
#[export] Hint Resolve u16_id u32_id i32_id u32_range u16_range : linkerd.
#[export] Hint Unfold is_u16 is_u32 is_i32 : linkerd.

(** Case analysis on the scrutinee of a [match], an [if] or a [decide] in the
    goal or the hypotheses, with the contradictory branches closed. *)
Ltac go_case :=
  repeat (case_match || case_decide || case_bool_decide); simplify_eq/=; try done.

(** Splits the components of conjunctions in the context. *)
Ltac go_split := repeat match goal with
  | H : _ ∧ _ |- _ => destruct H
  | H : ∃ _, _ |- _ => destruct H
  end.

(** Identifies the results of the same fallible call. *)
Ltac res_eq := repeat match goal with
  | H1 : ?o = Ok _, H2 : ?o = _ |- _ => rewrite H1 in H2; simplify_eq
  end.

(** Closes goals about lookups in updated maps. *)
Ltac map_solver := by (simplify_map_eq; eauto with linkerd).

(** * Results *)
Lemma res_bind_Ok {A B} (c : res A) (k : A → res B) b :
  res_bind c k = Ok b ↔ ∃ a, c = Ok a ∧ k a = Ok b.
Proof. destruct c; naive_solver. Qed.

Lemma res_ok_Some {A} (c : res A) a : res_ok c = Some a ↔ c = Ok a.
Proof. destruct c; naive_solver. Qed.

Lemma Forall2_nil_inv_iff {A B} (P : A → B → Prop) ys : Forall2 P [] ys ↔ ys = [].
Proof. split; [apply Forall2_nil_inv_l | by intros ->]. Qed.

Lemma res_mapM_Ok {A B} (f : A → res B) l ys :
  res_mapM f l = Ok ys ↔ Forall2 (λ x y, f x = Ok y) l ys.
Proof.
  revert ys. induction l as [|x l IH]; intros ys; simpl.
  - rewrite Forall2_nil_inv_iff. naive_solver.
  - rewrite res_bind_Ok. setoid_rewrite res_bind_Ok. split.
    + intros (y & Hy & ys' & Hys & [= <-]). constructor; [done | by apply IH].
    + intros (y & ys0 & Hy & Hys & ->)%Forall2_cons_inv_l. exists y. split; [done|].
      eexists; split; [by apply IH | done].
Qed.

(** * Options *)
(** A value read with a default from an option that a computation shows to be set. *)
Lemma Some_default {A} (d : A) (o : option A) :
  (if o is Some _ then true else false) = true → o = Some (default d o).
Proof. by destruct o. Qed.

Lemma Ok_default {A} (d : A) (r : res A) : is_ok r = true → r = Ok (default d (res_ok r)).
Proof. by destruct r. Qed.

(** * Finite maps *)
Section maps.
Context {K V : Type} `{Countable K}.
Implicit Types m : gmap K V.

(** [for k, v := range src { dst[k] = v }]. *)
Definition map_assign (src dst : gmap K V) : gmap K V := src ∪ dst.

(** [for k := range src { delete(dst, k) }]. *)
Definition map_remove (src dst : gmap K V) : gmap K V := dst ∖ src.

Lemma lookup_map_assign src dst k :
  map_assign src dst !! k = match src !! k with Some v => Some v | None => dst !! k end.
Proof.
  unfold map_assign. rewrite lookup_union.
  by destruct (src !! k), (dst !! k).
Qed.

Lemma lookup_map_remove src dst k :
  map_remove src dst !! k = match src !! k with Some _ => None | None => dst !! k end.
Proof.
  unfold map_remove. rewrite lookup_difference.
  by destruct (src !! k), (dst !! k).
Qed.

Lemma map_assign_empty m : map_assign m ∅ = m.
Proof. unfold map_assign. apply (right_id_L ∅ (∪)). Qed.

Lemma map_remove_self m : map_remove m m = ∅.
Proof. apply map_eq. intros k. rewrite lookup_map_remove, lookup_empty. by destruct (m !! k). Qed.

(** [len(m)] compared with 0, the way the source tests for emptiness. *)
Lemma map_size_pos m : (0 < size m)%nat ↔ m ≠ ∅.
Proof. rewrite <-map_size_non_empty_iff. lia. Qed.
End maps.
#[export] Hint Rewrite @lookup_map_assign @lookup_map_remove : linkerd.

(** * Lists *)
(** [for i, e := range l { if e == x { l[i] = l[n-1]; l = l[:n-1]; break } }]: the
    first occurrence is replaced by the last element, which is dropped from the end. *)
Definition swap_remove {A} `{!EqDecision A} (x : A) (l : list A) : list A :=
  match list_find (x =.) l, last l with
  | Some (i, _), Some z => take (length l - 1) (<[i:=z]> l)
  | _, _ => l
  end.

Lemma swap_remove_absent {A} `{!EqDecision A} (x : A) l : x ∉ l → swap_remove x l = l.
Proof.
  intros Hx. unfold swap_remove. destruct (list_find _ l) as [[i y]|] eqn:Hf; [|done].
  apply list_find_Some in Hf as (Hl & <- & _).
  destruct Hx. by apply list_elem_of_lookup_2 in Hl.
Qed.

Lemma swap_remove_perm {A} `{!EqDecision A} (x : A) l :
  x ∈ l → x :: swap_remove x l ≡ₚ l.
Proof.
  intros Hx. unfold swap_remove.
  destruct (list_find (x =.) l) as [[i y]|] eqn:Hf; last first.
  { apply list_find_None in Hf. rewrite Forall_forall in Hf. by destruct (Hf x Hx). }
  apply list_find_Some in Hf as (Hl & <- & _).
  destruct l as [|z l _] using rev_ind; [done|].
  rewrite last_snoc, length_app. simpl. replace (length l + 1 - 1)%nat with (length l) by lia.
  apply lookup_snoc_Some in Hl as [[Hi Hl]|[-> ->]].
  - rewrite insert_app_l, take_app_length' by (rewrite ?length_insert; lia).
    rewrite (Permutation_app_comm l [z]). simpl. symmetry.
    rewrite <-(take_drop_middle l i x Hl) at 1.
    rewrite insert_take_drop by done.
    rewrite <-!Permutation_middle. constructor.
  - rewrite insert_app_r_alt, take_app_length' by lia.
    by rewrite (Permutation_app_comm l [x]).
Qed.

(** On a list without duplicates it removes exactly the element. *)
Lemma swap_remove_NoDup {A} `{!EqDecision A} (x : A) l :
  NoDup l → NoDup (swap_remove x l) ∧ ∀ y, y ∈ swap_remove x l ↔ y ≠ x ∧ y ∈ l.
Proof.
  intros Hnd. destruct (decide (x ∈ l)) as [Hx|Hx].
  - pose proof (swap_remove_perm x l Hx) as Hp.
    assert (NoDup (x :: swap_remove x l)) as [Hni Hnd']%NoDup_cons by (by rewrite Hp).
    split; [done|]. intros y. split.
    + intros Hy. split; [by intros ->|]. rewrite <-Hp. set_solver.
    + intros [Hne Hy]. rewrite <-Hp in Hy. set_solver.
  - rewrite swap_remove_absent by done. split; [done|]. intros y. split; [|by intros []].
    intros Hy. split; [by intros ->|done].
Qed.

(** ** Tagged lists: the elements with a given tag, in order *)
Section tagged.
Context {K E : Type} `{!EqDecision K}.

Definition proj_at (k : K) (l : list (K * E)) : list E := (filter (λ e, e.1 = k) l).*2.

Lemma proj_at_app k (l1 l2 : list (K * E)) : proj_at k (l1 ++ l2) = proj_at k l1 ++ proj_at k l2.
Proof. unfold proj_at. by rewrite filter_app, fmap_app. Qed.

Lemma proj_at_pair k k' (l : list E) :
  proj_at k (pair k' <$> l) = if decide (k' = k) then l else [].
Proof.
  unfold proj_at. induction l as [|e l IH]; simpl; [by case_decide|].
  rewrite filter_cons. simpl in *. case_decide; [|done]. simpl. by f_equal.
Qed.

(** A loop over a list without duplicate keys that tags what it emits with the key. *)
Lemma proj_at_bind_absent {V} (l : list (K * V)) (g : K → V → list E) k :
  k ∉ l.*1 → proj_at k (l ≫= λ e, pair e.1 <$> g e.1 e.2) = [].
Proof.
  induction l as [|[k' v] l IH]; [done|]. intros Hk. rewrite bind_cons, proj_at_app, proj_at_pair.
  simpl in *. rewrite decide_False by set_solver. apply IH. set_solver.
Qed.

Lemma proj_at_bind {V} (l : list (K * V)) (g : K → V → list E) k v :
  NoDup l.*1 → (k, v) ∈ l → proj_at k (l ≫= λ e, pair e.1 <$> g e.1 e.2) = g k v.
Proof.
  induction l as [|[k' v'] l IH]; [by intros _ ?%not_elem_of_nil|].
  intros [Hk Hnd]%NoDup_cons Hin. rewrite bind_cons, proj_at_app, proj_at_pair. simpl in *.
  apply elem_of_cons in Hin as [[= -> ->]|Hin].
  - rewrite decide_True, proj_at_bind_absent, app_nil_r by done. done.
  - rewrite decide_False; [by apply IH|]. intros ->. apply Hk.
    apply list_elem_of_fmap. by exists (k, v).
Qed.
End tagged.

Lemma filter_iff_in {A} (P Q : A → Prop) `{!∀ x, Decision (P x), !∀ x, Decision (Q x)} (l : list A) :
  (∀ x, x ∈ l → P x ↔ Q x) → filter P l = filter Q l.
Proof.
  induction l as [|x l IH]; [done|]. intros Hi. rewrite !filter_cons, IH by set_solver.
  pose proof (Hi x). case_decide; case_decide; set_solver.
Qed.

Lemma filter_of_fmap {A B} (g : A → B) (P : B → Prop) `{!∀ x, Decision (P x)} (l : list A) :
  filter P (g <$> l) = g <$> filter (λ x, P (g x)) l.
Proof. induction l as [|x l IH]; [done|]. rewrite fmap_cons, !filter_cons, IH. by case_decide. Qed.

Lemma NoDup_fmap_filter {A B} (g : A → B) (Q : A → Prop) `{∀ x, Decision (Q x)} (l : list A) :
  NoDup (g <$> l) → NoDup (g <$> filter Q l).
Proof.
  induction l as [|x l IH]; [done|]. intros [Hni Hnd]%NoDup_cons. rewrite filter_cons.
  case_decide; [|by apply IH]. simpl. constructor; [|by apply IH].
  intros (y & Hy & [_ Hin]%list_elem_of_filter)%list_elem_of_fmap. apply Hni.
  apply list_elem_of_fmap. eauto.
Qed.

(** * Iteration over maps

    [for k, v := range m] visits every entry of the map once, in an order the language
    does not specify: the models take the order as a parameter. *)
Class MapRange := {
  range : ∀ {K V : Type} `{Countable K}, gmap K V → list (K * V);
  range_perm : ∀ {K V : Type} `{Countable K} (m : gmap K V), range m ≡ₚ map_to_list m }.

(** An order that exists, for the concrete evaluations. *)
Definition range_in_order : MapRange := {|
  range := λ K V _ _ m, map_to_list m; range_perm := λ K V _ _ m, Permutation_refl _ |}.

Section range.
Context `{!MapRange} {K V : Type} `{Countable K}.

Lemma elem_of_range (m : gmap K V) k v : (k, v) ∈ range m ↔ m !! k = Some v.
Proof. rewrite range_perm. apply elem_of_map_to_list. Qed.

Lemma NoDup_range_keys (m : gmap K V) : NoDup (range m).*1.
Proof. rewrite range_perm. apply NoDup_fst_map_to_list. Qed.

Lemma proj_at_range {E} (m : gmap K V) (g : K → V → list E) k :
  proj_at k (range m ≫= λ e, pair e.1 <$> g e.1 e.2)
  = match m !! k with Some v => g k v | None => [] end.
Proof.
  destruct (m !! k) as [v|] eqn:Hk.
  - apply proj_at_bind; [apply NoDup_range_keys|by apply elem_of_range].
  - apply proj_at_bind_absent. intros ([k' v] & -> & Hin)%list_elem_of_fmap.
    apply elem_of_range in Hin. simpl in *. congruence.
Qed.

Lemma length_range (m : gmap K V) : length (range m) = size m.
Proof. rewrite range_perm. apply length_map_to_list. Qed.
End range.
