(* ===== verification/GoStd.v ===== *)
(** The parts of Go's standard library that the modelled code calls: [strings],
    [strconv], [net] and [net/netip] on byte strings.  A Go string is a Rocq
    [string], one [ascii] per byte. *)
From Stdlib Require Import DecimalString DecimalN Decimal.
From S2P Require Import Prelude.

#[local] Open Scope string_scope.
#[local] Open Scope list_scope.
#[local] Open Scope Z_scope.

(** * Package strings *)
Module strings.
(** [strings.Split(s, sep)] for a separator of one byte. *)
Fixpoint Split (s : string) (sep : ascii) : list string :=
  match s with
  | EmptyString => [""]
  | String a s =>
      if Ascii.eqb a sep then "" :: Split s sep
      else match Split s sep with
           | x :: l => String a x :: l
           | [] => [String a ""]
           end
  end.

(** [strings.Join(l, sep)]. *)
Fixpoint Join (l : list string) (sep : string) : string :=
  match l with
  | [] => ""
  | [x] => x
  | x :: l => x +:+ sep +:+ Join l sep
  end.

(** [strings.Contains(s, c)] for one byte. *)
Fixpoint Contains (s : string) (c : ascii) : bool :=
  match s with
  | EmptyString => false
  | String a s => Ascii.eqb a c || Contains s c
  end.

(** [strings.TrimSuffix(s, c)] for a suffix of one byte. *)
Fixpoint TrimSuffix (s : string) (c : ascii) : string :=
  match s with
  | EmptyString => ""
  | String a EmptyString => if Ascii.eqb a c then "" else s
  | String a s => String a (TrimSuffix s c)
  end.

Definition HasPrefix (s p : string) : bool := String.prefix p s.

(** The text before a suffix, and [strings.TrimSuffix(s, suffix)] for any suffix. *)
Fixpoint cut_suffix (s suffix : string) : option string :=
  if bool_decide (s = suffix) then Some "" else
  match s with
  | EmptyString => None
  | String a s => String a <$> cut_suffix s suffix
  end.
Definition TrimSuffixString (s suffix : string) : string := default s (cut_suffix s suffix).

Definition byte (n : N) : ascii := ascii_of_N n.

(** The UTF-8 encodings of the code points [unicode.IsSpace] accepts. *)
Definition spaces : list (list ascii) :=
  map (map byte)
    ([[9]; [10]; [11]; [12]; [13]; [32]; [194;133]; [194;160]; [225;154;128];
      [226;128;168]; [226;128;169]; [226;128;175]; [226;129;159]; [227;128;128]]
     ++ map (λ k, [226;128;k]) [128;129;130;131;132;133;134;135;136;137;138])%N.

Fixpoint strip_prefix (p l : list ascii) : option (list ascii) :=
  match p, l with
  | [], _ => Some l
  | a :: p, b :: l => if Ascii.eqb a b then strip_prefix p l else None
  | _ :: _, [] => None
  end.

Definition strip_one (ps : list (list ascii)) (l : list ascii) : option (list ascii) :=
  foldr (λ p acc, match strip_prefix p l with Some l' => Some l' | None => acc end) None ps.

(** Drops code points of [ps] from the front; each step shortens the list. *)
Fixpoint trim_left (fuel : nat) (ps : list (list ascii)) (l : list ascii) : list ascii :=
  match fuel with
  | O => l
  | S fuel => match strip_one ps l with Some l' => trim_left fuel ps l' | None => l end
  end.

(** [strings.TrimSpace(s)]. *)
Definition TrimSpace (s : string) : string :=
  let l := list_ascii_of_string s in
  let l := trim_left (length l) spaces l in
  let l := rev (trim_left (length l) (map (@rev ascii) spaces) (rev l)) in
  string_of_list_ascii l.

Definition up (a : ascii) : ascii :=
  let n := N_of_ascii a in
  if ((97 <=? n) && (n <=? 122))%N then ascii_of_N (n - 32)%N else a.
Definition low (a : ascii) : ascii :=
  let n := N_of_ascii a in
  if ((65 <=? n) && (n <=? 90))%N then ascii_of_N (n + 32)%N else a.

Fixpoint smap (f : ascii → ascii) (s : string) : string :=
  match s with EmptyString => "" | String a s => String (f a) (smap f s) end.

(** [strings.ToUpper] and [strings.ToLower] on ASCII text. *)
Definition ToUpper : string → string := smap up.
Definition ToLower : string → string := smap low.

Lemma Split_not_nil s c : Split s c ≠ [].
Proof. destruct s; simpl; repeat case_match; done. Qed.

Lemma Split_absent s c : Contains s c = false → Split s c = [s].
Proof.
  induction s as [|a s IH]; simpl; [done|]. intros [Ha Hs]%orb_false_iff.
  by rewrite Ha, IH.
Qed.

Lemma append_assoc a b c : a +:+ (b +:+ c) = (a +:+ b) +:+ c.
Proof.
  induction a as [|x a IH]; [done|].
  change (String x (a +:+ (b +:+ c)) = String x ((a +:+ b) +:+ c)). by rewrite IH.
Qed.

Lemma Contains_app a b c : Contains (a +:+ b) c = Contains a c || Contains b c.
Proof. induction a as [|x a IH]; [done|]. simpl. by rewrite IH, orb_assoc. Qed.

Lemma Split_app a b c :
  Contains a c = false → Split (a +:+ String c b) c = a :: Split b c.
Proof.
  induction a as [|x a IH]; simpl; [by rewrite Ascii.eqb_refl|].
  intros [Ha Hs]%orb_false_iff. by rewrite Ha, IH.
Qed.

Lemma length_append a b : String.length (a +:+ b) = (String.length a + String.length b)%nat.
Proof. induction a as [|x a IH]; [done|]. simpl. by rewrite IH. Qed.

Lemma cut_suffix_app a b : cut_suffix (a +:+ b) b = Some a.
Proof.
  induction a as [|x a IH]; change ("" +:+ b) with b || change (String x a +:+ b) with (String x (a +:+ b)).
  - destruct b as [|y b]; [done|]. simpl. by rewrite bool_decide_true.
  - simpl. rewrite bool_decide_false.
    + by rewrite IH.
    + intros Hb. apply (f_equal String.length) in Hb. simpl in Hb. rewrite length_append in Hb. lia.
Qed.

Lemma TrimSuffixString_app a b : TrimSuffixString (a +:+ b) b = a.
Proof. unfold TrimSuffixString. by rewrite cut_suffix_app. Qed.

Lemma cut_suffix_Some s b a : cut_suffix s b = Some a → s = a +:+ b.
Proof.
  revert a. induction s as [|x s IH]; intros a; simpl; case_bool_decide as Hs.
  - by intros [= <-].
  - done.
  - by intros [= <-].
  - intros (a' & Ha & ->)%fmap_Some. change (String x a' +:+ b) with (String x (a' +:+ b)). f_equal. by apply IH.
Qed.

Lemma append_inj_l a b c : a +:+ c = b +:+ c → a = b.
Proof. intros H. apply (f_equal (λ s, cut_suffix s c)) in H. rewrite !cut_suffix_app in H. congruence. Qed.
Lemma Join_Split s c : Join (Split s c) (String c "") = s.
Proof.
  induction s as [|a s IH]; [done|]. simpl. destruct (Ascii.eqb a c) eqn:Ha.
  - apply Ascii.eqb_eq in Ha as ->. pose proof (Split_not_nil s c).
    destruct (Split s c) as [|x l]; [done|]. change (String c (Join (x :: l) (String c "")) = String c s).
    by rewrite IH.
  - pose proof (Split_not_nil s c). destruct (Split s c) as [|x l]; [done|].
    transitivity (String a (Join (x :: l) (String c ""))); [by destruct l|]. by rewrite IH.
Qed.

Lemma Split_elements s c x : x ∈ Split s c → Contains x c = false.
Proof.
  revert x. induction s as [|a s IH]; intros x; simpl; [by intros ->%list_elem_of_singleton|].
  destruct (Ascii.eqb a c) eqn:Ha.
  - intros [->|Hx]%elem_of_cons; [done|by apply IH].
  - destruct (Split s c) as [|y l]; [intros ->%list_elem_of_singleton; simpl; by rewrite Ha|].
    intros [->|Hx]%elem_of_cons; [simpl; rewrite Ha; apply IH; constructor|]. apply IH. by right.
Qed.

Lemma Join_cons x l c : l ≠ [] → Join (x :: l) c = x +:+ c +:+ Join l c.
Proof. by destruct l. Qed.

Lemma Split_Join l c :
  l ≠ [] → Forall (λ x, Contains x c = false) l → Split (Join l (String c "")) c = l.
Proof.
  induction l as [|x l IH]; [done|]. intros _ [Hx Hl]%Forall_cons.
  destruct l as [|y l]; [by apply Split_absent|].
  rewrite Join_cons by done. change (x +:+ String c "" +:+ Join (y :: l) (String c ""))
    with (x +:+ String c (Join (y :: l) (String c ""))).
  rewrite Split_app by done. by rewrite IH.
Qed.

Lemma Contains_elem l c x : x ∈ l → Contains x c = true → ∀ sep, Contains (Join l sep) c = true.
Proof.
  intros Hx Hc sep. induction l as [|y l IH]; [by apply not_elem_of_nil in Hx|].
  apply elem_of_cons in Hx as [->|Hx].
  - destruct l as [|z l]; [done|]. rewrite Join_cons by done. by rewrite Contains_app, Hc.
  - destruct l as [|z l]; [by apply not_elem_of_nil in Hx|]. rewrite Join_cons by done.
    rewrite !Contains_app, IH by done. by rewrite !orb_true_r.
Qed.
End strings.

(** * Package strconv *)
Module strconv.
(** A non-empty run of decimal digits. *)
Definition digits (s : string) : option N :=
  match s with
  | EmptyString => None
  | _ => N.of_uint <$> NilEmpty.uint_of_string s
  end.

(** [strconv.Itoa], and the ["%d"] verb of [fmt]. *)
Definition Itoa (z : Z) : string :=
  match z with
  | Zneg p => "-" +:+ NilEmpty.string_of_uint (N.to_uint (Npos p))
  | _ => NilEmpty.string_of_uint (N.to_uint (Z.to_N z))
  end.

(** [strconv.Atoi]: an optional sign, digits, and the range of [int] (64 bits). *)
Definition signed (s : string) : option Z :=
  match s with
  | EmptyString => None
  | String a s' =>
      if Ascii.eqb a "-" then (λ n, - Z.of_N n) <$> digits s'
      else if Ascii.eqb a "+" then Z.of_N <$> digits s'
      else Z.of_N <$> digits s
  end.
Definition Atoi (s : string) : option Z :=
  z ← signed s; if bool_decide (-2^63 ≤ z < 2^63) then Some z else None.

(** [strconv.ParseInt(s, 10, bits)]. *)
Definition ParseInt (s : string) (bits : Z) : option Z :=
  z ← signed s; if bool_decide (-2^(bits-1) ≤ z < 2^(bits-1)) then Some z else None.

(** [strconv.ParseUint(s, 10, bits)]. *)
Definition ParseUint (s : string) (bits : Z) : option Z :=
  n ← digits s; if bool_decide (Z.of_N n < 2^bits) then Some (Z.of_N n) else None.

Lemma uint_of_string_Itoa n :
  NilEmpty.uint_of_string (NilEmpty.string_of_uint (N.to_uint n)) = Some (N.to_uint n).
Proof. apply NilEmpty.usu. Qed.

Lemma string_of_uint_not_empty n : NilEmpty.string_of_uint (N.to_uint n) ≠ "".
Proof.
  intros H. pose proof (uint_of_string_Itoa n) as Hu. rewrite H in Hu.
  simpl in Hu. injection Hu as Hu. pose proof (Unsigned.of_to n) as Hn.
  rewrite <-Hu in Hn. simpl in Hn. subst n. discriminate Hu.
Qed.

Lemma digits_of_N n : digits (NilEmpty.string_of_uint (N.to_uint n)) = Some n.
Proof.
  unfold digits. pose proof (string_of_uint_not_empty n).
  destruct (NilEmpty.string_of_uint (N.to_uint n)) eqn:E; [done|]. rewrite <-E.
  rewrite uint_of_string_Itoa. simpl. by rewrite Unsigned.of_to.
Qed.

(** The first byte of a printed natural is a digit, never a sign. *)
Lemma string_of_uint_head u a s :
  NilEmpty.string_of_uint u = String a s → a ≠ "-"%char ∧ a ≠ "+"%char.
Proof. destruct u; intros [= <- _]; done. Qed.

Lemma Itoa_nonneg z :
  0 ≤ z → Itoa z = NilEmpty.string_of_uint (N.to_uint (Z.to_N z)).
Proof. by destruct z. Qed.

Lemma Atoi_unsigned s n a s' :
  s = String a s' → a ≠ "-"%char → a ≠ "+"%char → digits s = Some n →
  Z.of_N n < 2^63 → Atoi s = Some (Z.of_N n).
Proof.
  intros -> Hm Hp Hd Hr. unfold Atoi, signed.
  apply Ascii.eqb_neq in Hm as ->. apply Ascii.eqb_neq in Hp as ->.
  rewrite Hd. simpl. rewrite bool_decide_true by lia. done.
Qed.

(** Printing an [int] and parsing it back gives the same number. *)
Lemma Atoi_Itoa z : 0 ≤ z < 2^63 → Atoi (Itoa z) = Some z.
Proof.
  intros Hz. rewrite Itoa_nonneg by lia.
  pose proof (string_of_uint_not_empty (Z.to_N z)) as Hne.
  destruct (NilEmpty.string_of_uint (N.to_uint (Z.to_N z))) as [|a s] eqn:E; [done|].
  destruct (string_of_uint_head _ _ _ E) as [Hm Hp].
  pose proof (digits_of_N (Z.to_N z)) as Hd. rewrite E in Hd.
  erewrite Atoi_unsigned by (done || lia). f_equal. lia.
Qed.

Lemma Itoa_inj x y : 0 ≤ x → 0 ≤ y → Itoa x = Itoa y → x = y.
Proof.
  intros Hx Hy H. rewrite !Itoa_nonneg in H by done.
  pose proof (digits_of_N (Z.to_N x)) as Hd. rewrite H, digits_of_N in Hd.
  injection Hd as Hd. lia.
Qed.

Lemma string_of_uint_no_minus u : strings.Contains (NilEmpty.string_of_uint u) "-" = false.
Proof. by induction u. Qed.

Lemma Itoa_no_minus z : 0 ≤ z → strings.Contains (Itoa z) "-" = false.
Proof. intros Hz. rewrite Itoa_nonneg by done. apply string_of_uint_no_minus. Qed.

(** A printed number has no delimiter of an address. *)
Lemma Itoa_no_delimiter z c :
  0 ≤ z → c = ":"%char ∨ c = "["%char ∨ c = "]"%char → strings.Contains (Itoa z) c = false.
Proof.
  intros Hz Hc. rewrite Itoa_nonneg by done.
  destruct Hc as [->|[->| ->]]; by induction (N.to_uint (Z.to_N z)).
Qed.

Lemma ParseUint_Itoa z bits : 0 ≤ z < 2^bits → ParseUint (Itoa z) bits = Some z.
Proof.
  intros Hz. unfold ParseUint. rewrite Itoa_nonneg, digits_of_N by lia. simpl.
  rewrite Z2N.id, bool_decide_true by lia. done.
Qed.

Lemma Atoi_range s z : Atoi s = Some z → -2^63 ≤ z < 2^63.
Proof. unfold Atoi. intros (z' & _ & H)%bind_Some. go_case. Qed.
End strconv.

(** The text before and after the last colon. *)
Fixpoint cut_last_colon (s : string) : option (string * string) :=
  match s with
  | EmptyString => None
  | String a s' =>
      match cut_last_colon s' with
      | Some (l, r) => Some (String a l, r)
      | None => if Ascii.eqb a ":" then Some ("", s') else None
      end
  end.

(** The text before and after the first byte [c]. *)
Fixpoint cut_first (s : string) (c : ascii) : option (string * string) :=
  match s with
  | EmptyString => None
  | String a s' =>
      if Ascii.eqb a c then Some ("", s')
      else '(l, r) ← cut_first s' c; Some (String a l, r)
  end.

Lemma cut_last_colon_none s : strings.Contains s ":" = false → cut_last_colon s = None.
Proof.
  induction s as [|a s IH]; [done|]. simpl. intros [Ha Hs]%orb_false_iff. by rewrite IH, Ha.
Qed.

Lemma cut_last_colon_app a b :
  strings.Contains b ":" = false → cut_last_colon (a +:+ String ":" b) = Some (a, b).
Proof.
  intros Hb. induction a as [|x a IH]; simpl; [by rewrite (cut_last_colon_none b Hb)|]. by rewrite IH.
Qed.

Lemma cut_first_app a b c : strings.Contains a c = false → cut_first (a +:+ String c b) c = Some (a, b).
Proof.
  induction a as [|x a IH]; simpl; [by rewrite Ascii.eqb_refl|].
  intros [Hx Ha]%orb_false_iff. by rewrite Hx, IH.
Qed.

(** * Package net *)
Module net.
(** [net.SplitHostPort]: [host:port], [[host]:port] or [[ipv6%zone]:port]. *)
Definition SplitHostPort (hostport : string) : option (string * string) :=
  '(before, port) ← cut_last_colon hostport;
  match hostport with
  | EmptyString => None
  | String a rest =>
      if Ascii.eqb a "[" then
        '(host, after) ← cut_first rest "]";
        match after with
        | EmptyString => None
        | String b p =>
            if bool_decide (b = ":"%char ∧ strings.Contains p ":" = false
                            ∧ strings.Contains rest "[" = false ∧ strings.Contains p "]" = false)
            then Some (host, p) else None
        end
      else
        if bool_decide (strings.Contains before ":" = false ∧ strings.Contains hostport "[" = false
                        ∧ strings.Contains hostport "]" = false)
        then Some (before, port) else None
  end.

(** [net.JoinHostPort(host, port)]: a host with a colon is an IPv6 literal. *)
Definition JoinHostPort (host port : string) : string :=
  if strings.Contains host ":" then "[" +:+ host +:+ "]:" +:+ port
  else host +:+ ":" +:+ port.

(** Text without brackets, and without brackets and colons. *)
Definition no_brackets (s : string) : Prop :=
  strings.Contains s "[" = false ∧ strings.Contains s "]" = false.

Lemma SplitHostPort_JoinHostPort host port :
  no_brackets host → no_brackets port → strings.Contains port ":" = false →
  SplitHostPort (JoinHostPort host port) = Some (host, port).
Proof.
  intros [Hl Hr] [Hpl Hpr] Hp. unfold JoinHostPort. destruct (strings.Contains host ":") eqn:Hc.
  - change ("[" +:+ host +:+ "]:" +:+ port) with (String "[" (host +:+ String "]" (String ":" port))).
    assert (cut_last_colon (String "[" (host +:+ String "]" (String ":" port)))
      = Some ("[" +:+ (host +:+ "]"), port)) as Hcut.
    { rewrite <-(cut_last_colon_app ("[" +:+ (host +:+ "]")) port Hp). f_equal.
      change (String "[" (host +:+ String "]" (String ":" port)))
        with ("[" +:+ (host +:+ ("]" +:+ String ":" port))). by rewrite !strings.append_assoc. }
    unfold SplitHostPort. rewrite Hcut. simpl. rewrite cut_first_app by done. simpl.
    rewrite bool_decide_true; [done|]. split_and!; [done|done| |done].
    by rewrite strings.Contains_app, Hl.
  - change (host +:+ ":" +:+ port) with (host +:+ String ":" port). unfold SplitHostPort.
    rewrite cut_last_colon_app by done. simpl.
    destruct (host +:+ String ":" port) as [|a rest] eqn:Hs; [by destruct host|].
    assert (∀ c, strings.Contains (String a rest) c
      = strings.Contains host c || (Ascii.eqb ":" c || strings.Contains port c)) as Hcc
      by (intros c; rewrite <-Hs; apply strings.Contains_app).
    assert (Ascii.eqb a "[" = false) as ->.
    { specialize (Hcc "["%char). rewrite Hl, Hpl in Hcc. simpl in Hcc. by apply orb_false_iff in Hcc as [? _]. }
    rewrite bool_decide_true; [done|]. by rewrite !Hcc, Hl, Hr, Hpl, Hpr.
Qed.
End net.

(** * Package net/netip *)
Module netip.
(** An address is its 4 or its 16 bytes; [As16] drops the zone, so it is not kept. *)
Inductive Addr :=
  | Addr4 (b : list Z)
  | Addr6 (b : list Z).

#[export] Instance Addr_eq_dec : EqDecision Addr.
Proof. solve_decision. Defined.

Definition is_dec (a : ascii) : bool :=
  let n := N_of_ascii a in ((48 <=? n) && (n <=? 57))%N.

(** One octet: digits, no leading zero, at most 255. *)
Definition parse_octet (s : string) : option Z :=
  n ← strconv.digits s;
  if bool_decide ((n ≤ 255)%N ∧ (String.length s = 1%nat ∨ String.get 0 s ≠ Some "0"%char))
  then Some (Z.of_N n) else None.

(** [parseIPv4Fields]. *)
Definition parseIPv4Fields (s : string) : option (list Z) :=
  match strings.Split s "." with
  | [a; b; c; d] =>
      a ← parse_octet a; b ← parse_octet b; c ← parse_octet c; d ← parse_octet d;
      Some [a; b; c; d]
  | _ => None
  end.

Definition hex_digit (a : ascii) : option Z :=
  let n := Z.of_N (N_of_ascii a) in
  if (48 <=? n) && (n <=? 57) then Some (n - 48)
  else if (97 <=? n) && (n <=? 102) then Some (n - 87)
  else if (65 <=? n) && (n <=? 70) then Some (n - 55)
  else None.

(** The longest run of hexadecimal digits: its length, its value and the rest. *)
Fixpoint hex_run (s : string) (off : nat) (acc : Z) : nat * Z * string :=
  match s with
  | EmptyString => (off, acc, s)
  | String a s' =>
      match hex_digit a with
      | Some d => hex_run s' (S off) (16 * acc + d)
      | None => (off, acc, s)
      end
  end.

(** The loop of [parseIPv6] over colon-separated groups.  [ip] holds the bytes
    stored so far, [ell] the position of the ellipsis.  A round stores at least
    two bytes, so eight rounds are enough. *)
Fixpoint groups (fuel : nat) (s : string) (ip : list Z) (ell : option nat)
    : option (list Z * option nat * string) :=
  match fuel with
  | O => Some (ip, ell, s)
  | S fuel =>
      let '(off, acc, rest) := hex_run s 0 0 in
      if bool_decide (off = 0%nat ∨ (4 < off)%nat) then None else
      match rest with
      | EmptyString => Some (ip ++ [Z.shiftr acc 8; Z.land acc 255], ell, "")
      | String "." _ =>
          if bool_decide ((ell = None ∧ length ip ≠ 12%nat) ∨ (12 < length ip)%nat) then None
          else b ← parseIPv4Fields s; Some (ip ++ b, ell, "")
      | String ":" EmptyString => None
      | String ":" (String ":" rest) =>
          let ip := ip ++ [Z.shiftr acc 8; Z.land acc 255] in
          match ell, rest with
          | Some _, _ => None
          | None, EmptyString => Some (ip, Some (length ip), "")
          | None, _ => groups fuel rest ip (Some (length ip))
          end
      | String ":" rest =>
          groups fuel rest (ip ++ [Z.shiftr acc 8; Z.land acc 255]) ell
      | String _ _ => None
      end
  end.

(** Expands the ellipsis to the missing zero bytes. *)
Definition expand (ip : list Z) (ell : option nat) (s : string) : option (list Z) :=
  match s, ell with
  | String _ _, _ => None
  | _, None => if bool_decide (length ip = 16%nat) then Some ip else None
  | _, Some e =>
      if bool_decide (length ip < 16)%nat
      then Some (take e ip ++ replicate (16 - length ip) 0 ++ drop e ip) else None
  end.

Definition parseIPv6 (s : string) : option (list Z) :=
  s ← match strings.Split s "%" with
      | [s] => Some s
      | s :: z => if bool_decide (strings.Join z "%" = "") then None else Some s
      | [] => None
      end;
  match s with
  | String ":" (String ":" EmptyString) => Some (replicate 16 0)
  | String ":" (String ":" s) =>
      '(ip, ell, s) ← groups 8 s [] (Some 0%nat); expand ip ell s
  | _ => '(ip, ell, s) ← groups 8 s [] None; expand ip ell s
  end.

(** [netip.ParseAddr]: the first of the bytes [.], [:] and [%] decides the family. *)
Definition ParseAddr (s : string) : option Addr :=
  match list_find (λ a : ascii, a = "."%char ∨ a = ":"%char ∨ a = "%"%char)
          (list_ascii_of_string s) with
  | Some (_, "."%char) => Addr4 <$> parseIPv4Fields s
  | Some (_, ":"%char) => Addr6 <$> parseIPv6 s
  | _ => None
  end.

Definition Is4 (a : Addr) : bool := match a with Addr4 _ => true | Addr6 _ => false end.

(** [netip.ParseAddrPort]. *)
Definition ParseAddrPort (s : string) : option (Addr * Z) :=
  '(ip, port) ← cut_last_colon s;
  if bool_decide (ip = "" ∨ port = "") then None else
  '(ip, v6) ← match ip with
    | String "[" r =>
        if bool_decide (r ≠ "" ∧ String.get (String.length r - 1) r = Some "]"%char)
        then Some (strings.TrimSuffix r "]", true) else None
    | _ => Some (ip, false)
    end;
  p ← strconv.ParseUint port 16;
  a ← ParseAddr ip;
  if bool_decide (v6 = Is4 a) then None else Some (a, p).
End netip.
