(* ===== verification/K8s.v ===== *)
(** The Kubernetes objects the control plane reads, as records of the fields the
    modelled code uses, the constants of [pkg/k8s/labels.go], the label helpers of
    that file, and the read access to the API server ([API]) as a parameter. *)
From S2P Require Import Prelude GoStd.

#[local] Open Scope string_scope.
#[local] Open Scope list_scope.
#[local] Open Scope Z_scope.

(** Labels and annotations: a Go [map[string]string]; reading an absent key gives
    the empty string. *)
Abbreviation strmap := (gmap string string).
Definition get (m : strmap) (k : string) : string := default "" (m !! k).

(** * Constants *)
(** pkg/k8s/labels.go *)
Definition Prefix : string := "linkerd.io".
Definition ProxyConfigAnnotationsPrefix : string := "config.linkerd.io".
Definition SvcMirrorPrefix : string := "mirror.linkerd.io".
Definition ControllerNSLabel : string := Prefix +:+ "/control-plane-ns".
Definition ProxyIgnoreInboundPortsAnnotation : string :=
  ProxyConfigAnnotationsPrefix +:+ "/skip-inbound-ports".
Definition ProxyOpaquePortsAnnotation : string :=
  ProxyConfigAnnotationsPrefix +:+ "/opaque-ports".
Definition ProxyContainerName : string := "linkerd-proxy".
Definition ProxyPortName : string := "linkerd-proxy".
Definition RemoteClusterNameLabel : string := SvcMirrorPrefix +:+ "/cluster-name".
Definition RemoteServiceFqName : string := SvcMirrorPrefix +:+ "/remote-svc-fq-name".
Definition RemoteGatewayIdentity : string := SvcMirrorPrefix +:+ "/remote-gateway-identity".

(** k8s.io/api constants used by the code. *)
Definition LabelServiceName : string := "kubernetes.io/service-name".
Definition LabelManagedBy : string := "endpointslice.kubernetes.io/managed-by".
Definition IsHeadlessService : string := "service.kubernetes.io/headless".
Definition LabelTopologyZone : string := "topology.kubernetes.io/zone".
Definition DefaultDeploymentUniqueLabelKey : string := "pod-template-hash".
Definition ClusterIPNone : string := "None".
Definition IPv4Protocol : string := "IPv4".
Definition IPv6Protocol : string := "IPv6".
Definition ServiceTypeExternalName : string := "ExternalName".
Definition ServiceInternalTrafficPolicyLocal : string := "Local".
Definition PodRunning : string := "Running".
Definition PodSucceeded : string := "Succeeded".
Definition PodFailed : string := "Failed".

(** * Objects *)
(** intstr.IntOrString *)
Inductive IntOrString :=
  | FromInt (i : Z)
  | FromString (s : string).

Record OwnerReference := mkOwnerReference {
  or_Kind : string; or_Name : string; or_UID : string; or_APIVersion : string }.

Record ContainerPort := mkContainerPort {
  cp_Name : string; cp_ContainerPort : Z; cp_HostPort : Z }.

Record EnvVar := mkEnvVar { env_Name : string; env_Value : string }.

Record Container := mkContainer {
  c_Name : string; c_Ports : list ContainerPort; c_Env : list EnvVar }.

Record Pod := mkPod {
  pod_Name : string; pod_Namespace : string; pod_ResourceVersion : string;
  pod_Labels : strmap; pod_Annotations : strmap;
  pod_ServiceAccountName : string; pod_NodeName : string; pod_HostNetwork : bool;
  pod_InitContainers : list Container; pod_Containers : list Container;
  pod_Phase : string; pod_PodIP : string; pod_PodIPs : list string;
  pod_HostIP : string; pod_HostIPs : list string;
  pod_DeletionTimestamp : bool  (* whether it is set *) }.

Record ServicePort := mkServicePort {
  sp_Name : string; sp_Port : Z; sp_Protocol : string; sp_TargetPort : IntOrString }.

Record Service := mkService {
  svc_Name : string; svc_Namespace : string; svc_UID : string;
  svc_Labels : strmap; svc_Annotations : strmap;
  svc_Type : string; svc_ClusterIP : string; svc_IPFamilies : list string;
  svc_Selector : option strmap; svc_Ports : list ServicePort;
  svc_InternalTrafficPolicy : option string; svc_DeletionTimestamp : bool }.

Record ObjectReference := mkObjectReference {
  ref_Kind : string; ref_Namespace : string; ref_Name : string; ref_UID : string }.

(** corev1.Endpoints *)
Record EndpointAddress := mkEndpointAddress {
  ea_IP : string; ea_Hostname : string; ea_TargetRef : option ObjectReference }.
Record EndpointSubset := mkEndpointSubset {
  es_Addresses : list EndpointAddress; es_SubsetPorts : list (string * Z) }.
Record Endpoints := mkEndpoints {
  eps_Name : string; eps_Namespace : string; eps_Labels : strmap; eps_Annotations : strmap;
  eps_Subsets : list EndpointSubset }.

(** discovery.EndpointSlice; a slice port is taken to be set (not nil). *)
Record EndpointPort := mkEndpointPort {
  ep_Name : option string; ep_Port : Z; ep_Protocol : option string }.
Record Endpoint := mkEndpoint {
  e_Addresses : list string; e_Ready : option bool; e_Serving : option bool;
  e_Terminating : option bool; e_Hostname : option string;
  e_TargetRef : option ObjectReference; e_Zone : option string;
  e_Hints : option (list string) }.
Record EndpointSlice := mkEndpointSlice {
  sl_Name : string; sl_Namespace : string; sl_Labels : strmap; sl_Annotations : strmap;
  sl_OwnerReferences : list OwnerReference; sl_AddressType : string;
  sl_Endpoints : list Endpoint; sl_Ports : option (list EndpointPort);
  sl_DeletionTimestamp : bool; sl_UID : string; sl_Generation : Z }.

(** controller/gen/apis/externalworkload/v1beta1 *)
Record PortSpec := mkPortSpec { ps_Name : string; ps_Port : Z; ps_Protocol : string }.
Record WorkloadCondition := mkWorkloadCondition { wc_Type : string; wc_Status : string }.
Record ExternalWorkload := mkExternalWorkload {
  ew_Name : string; ew_Namespace : string; ew_UID : string; ew_ResourceVersion : string;
  ew_Labels : strmap; ew_Annotations : strmap; ew_OwnerReferences : list OwnerReference;
  ew_Identity : string; ew_ServerName : string;  (* Spec.MeshTLS *)
  ew_Ports : list PortSpec; ew_WorkloadIPs : list string;
  ew_Conditions : list WorkloadCondition;
  ew_DeletionTimestamp : option positive  (* a pointer, by its address *) }.

(** metav1.LabelSelector; its meaning is [LabelSelectorAsSelector] of [API]. *)
Record LabelSelector := mkLabelSelector {
  ls_MatchLabels : strmap; ls_MatchExpressions : list (string * string * list string) }.

(** controller/gen/apis/server/v1beta3 *)
Record Server := mkServer {
  srv_Name : string; srv_Namespace : string;
  srv_PodSelector : option LabelSelector; srv_ExternalWorkloadSelector : option LabelSelector;
  srv_Port : IntOrString; srv_ProxyProtocol : string }.

#[export] Instance IntOrString_eq_dec : EqDecision IntOrString.
Proof. solve_decision. Defined.
#[export] Instance OwnerReference_eq_dec : EqDecision OwnerReference.
Proof. solve_decision. Defined.
#[export] Instance ContainerPort_eq_dec : EqDecision ContainerPort.
Proof. solve_decision. Defined.
#[export] Instance EnvVar_eq_dec : EqDecision EnvVar.
Proof. solve_decision. Defined.
#[export] Instance Container_eq_dec : EqDecision Container.
Proof. solve_decision. Defined.
#[export] Instance Pod_eq_dec : EqDecision Pod.
Proof. solve_decision. Defined.
#[export] Instance ObjectReference_eq_dec : EqDecision ObjectReference.
Proof. solve_decision. Defined.
#[export] Instance EndpointPort_eq_dec : EqDecision EndpointPort.
Proof. solve_decision. Defined.
#[export] Instance Endpoint_eq_dec : EqDecision Endpoint.
Proof. solve_decision. Defined.
#[export] Instance PortSpec_eq_dec : EqDecision PortSpec.
Proof. solve_decision. Defined.
#[export] Instance WorkloadCondition_eq_dec : EqDecision WorkloadCondition.
Proof. solve_decision. Defined.
#[export] Instance ExternalWorkload_eq_dec : EqDecision ExternalWorkload.
Proof. solve_decision. Defined.

(** * Read access to the cluster

    The listers read informer caches; [None] is a lookup that returned an error
    (not found included).  [LabelSelectorAsSelector] is the function of
    k8s.io/apimachinery: [None] when the selector does not parse. *)
Record API := mkAPI {
  api_Service : string → string → option Service;  (* namespace, name *)
  api_Endpoints : string → string → option Endpoints;
  (* namespace, value of the service-name label *)
  api_EndpointSlices : string → string → option (list EndpointSlice);
  api_Pod : string → string → option Pod;
  api_ExternalWorkload : string → string → option ExternalWorkload;
  api_Servers : option (list Server);
  (* metadataAPI.GetOwnerKindAndName: kind and name *)
  api_OwnerKindAndName : Pod → option (string * string);
  api_LabelSelectorAsSelector : option LabelSelector → option (strmap → bool) }.

(** * Label helpers of pkg/k8s *)
Module labels.
Definition GetServiceAccountAndNS (pod : Pod) : string * string :=
  let sa := if bool_decide (pod_ServiceAccountName pod = "") then "default"
            else pod_ServiceAccountName pod in
  let ns := if bool_decide (pod_Namespace pod = "") then "default" else pod_Namespace pod in
  (sa, ns).

Definition KindToL5DLabel (k8sKind : string) : string :=
  if bool_decide (k8sKind = "job") then "k8s_job" else k8sKind.

Definition GetPodLabels (ownerKind ownerName : string) (pod : Pod) : strmap :=
  let l : strmap := {["pod" := pod_Name pod]} in
  let l := <[KindToL5DLabel ownerKind := ownerName]> l in
  let l := <["serviceaccount" := (GetServiceAccountAndNS pod).1]> l in
  let controllerNS := get (pod_Labels pod) ControllerNSLabel in
  let l := if bool_decide (controllerNS = "") then l
           else <["control_plane_ns" := controllerNS]> l in
  let pth := get (pod_Labels pod) DefaultDeploymentUniqueLabelKey in
  if bool_decide (pth = "") then l else <["pod_template_hash" := pth]> l.

Definition GetExternalWorkloadLabels (ownerKind ownerName : string) (ew : ExternalWorkload)
    : strmap :=
  let l : strmap := {["external_workload" := ew_Name ew]} in
  if bool_decide (ownerKind ≠ "" ∧ ownerName ≠ "") then <[ownerKind := ownerName]> l else l.
End labels.
