(* ===== verification/PortRange.v ===== *)
(** Port ranges and opaque-port annotations.

    [pkg/util/portrange.go] and [pkg/util/parsing.go] (parsing and printing of port
    lists), and the readers of the opaque-ports and skip-inbound-ports annotations in
    [watcher/workload_watcher.go], [watcher/opaque_ports_watcher.go] and [server.go].
    A [map[uint32]struct{}] is a [gset Z]. *)
From S2P Require Import Prelude GoStd K8s.

#[local] Open Scope string_scope.
#[local] Open Scope list_scope.
#[local] Open Scope Z_scope.

Abbreviation ports := (gset Z).

Record PortRange := mkPortRange { LowerBound : Z; UpperBound : Z }.

#[export] Instance PortRange_eq_dec : EqDecision PortRange.
Proof. solve_decision. Defined.

(** * pkg/util/portrange.go *)
Definition isPort (port : Z) : bool := (0 <=? port) && (port <=? 65535).

Definition ParsePort (port : string) : res Z :=
  match strconv.Atoi port with
  | Some i => if isPort i then Ok i else Err "not a valid TCP port"
  | None => Err "not a valid TCP port"
  end.

(** [lower, err := strconv.Atoi(b); if err != nil || !isPort(lower) { ... }] *)
Definition parseBound (msg b : string) : res Z :=
  match strconv.Atoi b with
  | Some i => if isPort i then Ok i else Err msg
  | None => Err msg
  end.

Definition ParsePortRange (portRange : string) : res PortRange :=
  let bounds := strings.Split portRange "-" in
  if bool_decide (2 < length bounds)%nat then Err "ranges expected as <lower>-<upper>" else
  let bounds := if bool_decide (length bounds = 1%nat) then bounds ++ take 1 bounds else bounds in
  match bounds with
  | [l; u] =>
      (let* lower := parseBound "not a valid lower-bound" l in
       let* upper := parseBound "not a valid upper-bound" u in
       if upper <? lower then Err "upper-bound must be greater than or equal to lower-bound"
       else Ok (mkPortRange lower upper))%go
  | _ => Panic
  end.

(** [for i := lo; i <= hi; i++] *)
Definition range_ints (lo hi : Z) : list Z := seqZ lo (hi - lo + 1).

Definition Ports (pr : PortRange) : list Z := u16 <$> range_ints (LowerBound pr) (UpperBound pr).

Definition ToString (pr : PortRange) : string :=
  if LowerBound pr =? UpperBound pr then strconv.Itoa (LowerBound pr)
  else strconv.Itoa (LowerBound pr) +:+ "-" +:+ strconv.Itoa (UpperBound pr).

(** * pkg/util/parsing.go *)
Definition GetPortRanges (override : string) : list string :=
  strings.TrimSpace <$> strings.Split (strings.TrimSuffix override ",") ",".

Definition ParsePorts (portsString : string) : ports :=
  if bool_decide (portsString = "") then ∅ else
  foldl (λ opaquePorts pr,
      match ParsePortRange pr with
      | Ok r => opaquePorts ∪ list_to_set (u32 <$> range_ints (LowerBound r) (UpperBound r))
      | _ => opaquePorts
      end) ∅ (GetPortRanges portsString).

(** One entry of an opaque-ports annotation: a named port, or a range; an entry that
    is neither is skipped. *)
Definition parseEntry (named : string → option Z) (pr : string) : list PortRange :=
  match named pr with
  | Some port => [mkPortRange port port]
  | None => match ParsePortRange pr with Ok r => [r] | _ => [] end
  end.

Definition ParseContainerOpaquePorts (override : string) (namedPorts : gmap string Z)
    : list PortRange :=
  GetPortRanges override ≫= parseEntry (λ pr, namedPorts !! pr).

Definition GetNamedPorts (containers : list Container) : gmap string Z :=
  foldl (λ namedPorts container,
      foldl (λ namedPorts p,
          if bool_decide (cp_Name p = "") then namedPorts
          else <[cp_Name p := cp_ContainerPort p]> namedPorts) namedPorts (c_Ports container))
    ∅ containers.

Fixpoint ContainsString (str : string) (collection : list string) : bool :=
  match collection with
  | [] => false
  | e :: l => if bool_decide (str = e) then true else ContainsString str l
  end.

(** * Opaque-port annotations *)
(** watcher/workload_watcher.go *)
Definition portSet (prs : list PortRange) : ports :=
  list_to_set (u32 <$> (prs ≫= Ports)).

Definition GetAnnotatedOpaquePorts (pod : option Pod) (defaultPorts : ports) : ports :=
  match pod with
  | None => defaultPorts
  | Some pod =>
      match pod_Annotations pod !! ProxyOpaquePortsAnnotation with
      | None => defaultPorts
      | Some annotation =>
          let namedPorts := GetNamedPorts (pod_Containers pod) in
          if bool_decide (annotation = "") then ∅
          else portSet (ParseContainerOpaquePorts annotation namedPorts)
      end
  end.

Definition isNamedInExternalWorkload (pr : string) (ew : ExternalWorkload) : option Z :=
  ps_Port <$> (list_find (λ p, ps_Name p = pr) (ew_Ports ew) ≫= λ r, Some r.2).

Definition parseExternalWorkloadOpaquePorts (override : string) (ew : ExternalWorkload)
    : list PortRange :=
  GetPortRanges override ≫= parseEntry (λ pr, isNamedInExternalWorkload pr ew).

Definition GetAnnotatedOpaquePortsForExternalWorkload (ew : option ExternalWorkload)
    (defaultPorts : ports) : ports :=
  match ew with
  | None => defaultPorts
  | Some ew =>
      match ew_Annotations ew !! ProxyOpaquePortsAnnotation with
      | None => defaultPorts
      | Some annotation =>
          if bool_decide (annotation = "") then ∅
          else portSet (parseExternalWorkloadOpaquePorts annotation ew)
      end
  end.

(** watcher/opaque_ports_watcher.go *)
Definition isNamed (pr : string) (sps : list ServicePort) : option Z :=
  sp_Port <$> (list_find (λ sp, sp_Name sp = pr) sps ≫= λ r, Some r.2).

Definition parseServiceOpaquePorts (annotation : string) (sps : list ServicePort) : list string :=
  GetPortRanges annotation ≫= λ pr,
    match isNamed pr sps with
    | Some port => [strconv.Itoa port]
    | None =>
        match ParsePortRange pr with
        | Ok r => strconv.Itoa <$> range_ints (LowerBound r) (UpperBound r)
        | _ => []
        end
    end.

(** The set of ports, and whether the annotation is present. *)
Definition getServiceOpaquePortsAnnotation (svc : Service) : res (ports * bool) :=
  match svc_Annotations svc !! ProxyOpaquePortsAnnotation with
  | None => Ok (∅, false)
  | Some annotation =>
      if bool_decide (annotation = "") then Ok (∅, true) else
      (let* l := res_mapM (λ portStr,
           match strconv.ParseUint portStr 32 with
           | Some p => Ok (u32 p)
           | None => Err "strconv.ParseUint"
           end) (parseServiceOpaquePorts annotation (svc_Ports svc)) in
       Ok (list_to_set l, true))%go
  end.

Definition portsEqual (x y : ports) : bool :=
  if bool_decide (size x ≠ size y) then false
  else bool_decide (set_Forall (λ port, port ∈ y) x).

(** server.go; a nil map reads as the empty one. *)
Definition getPodSkippedInboundPortsAnnotations (pod : Pod) : ports :=
  match pod_Annotations pod !! ProxyIgnoreInboundPortsAnnotation with
  | None => ∅
  | Some annotation => if bool_decide (annotation = "") then ∅ else ParsePorts annotation
  end.

(** * Lemmas *)
Lemma isPort_spec p : isPort p = true ↔ is_u16 p.
Proof. unfold isPort, is_u16. rewrite andb_true_iff, !Z.leb_le. lia. Qed.

Lemma parseBound_Ok msg b z : parseBound msg b = Ok z ↔ strconv.Atoi b = Some z ∧ is_u16 z.
Proof.
  unfold parseBound. rewrite <-isPort_spec.
  destruct (strconv.Atoi b) as [i|]; [|by split; [|intros [??]]].
  destruct (isPort i) eqn:E; split.
  - by intros [= <-].
  - by intros [[= <-] _].
  - done.
  - intros [[= <-] Hp]. congruence.
Qed.

Lemma parseBound_Itoa msg z : is_u16 z → parseBound msg (strconv.Itoa z) = Ok z.
Proof.
  intros Hz. apply parseBound_Ok. split; [|done].
  apply strconv.Atoi_Itoa. unfold is_u16 in Hz. lia.
Qed.

Lemma parseBound_not_Panic msg b : parseBound msg b ≠ Panic.
Proof. unfold parseBound. go_case. Qed.

Lemma elem_of_range_ints lo hi p : p ∈ range_ints lo hi ↔ lo ≤ p ≤ hi.
Proof. unfold range_ints. rewrite elem_of_seqZ. lia. Qed.

Lemma elem_of_u_ranges (f : Z → Z) lo hi p :
  (∀ x, lo ≤ x ≤ hi → f x = x) → p ∈ f <$> range_ints lo hi ↔ lo ≤ p ≤ hi.
Proof.
  intros Hf. rewrite list_elem_of_fmap. setoid_rewrite elem_of_range_ints. split.
  - intros (x & -> & Hx). by rewrite Hf.
  - intros Hp. exists p. by rewrite Hf.
Qed.

(** The bounds of a parsed range are TCP ports in order. *)
Lemma ParsePortRange_bounds s r :
  ParsePortRange s = Ok r → 0 ≤ LowerBound r ∧ LowerBound r ≤ UpperBound r ∧ UpperBound r ≤ 65535.
Proof.
  unfold ParsePortRange. case_bool_decide as Hlen; [done|].
  generalize (if bool_decide (length (strings.Split s "-") = 1%nat)
    then strings.Split s "-" ++ take 1 (strings.Split s "-") else strings.Split s "-").
  intros [|l [|u [|]]] H; try done.
  apply res_bind_Ok in H as (lo & [_ Hlo]%parseBound_Ok & H).
  apply res_bind_Ok in H as (hi & [_ Hhi]%parseBound_Ok & H).
  destruct (Z.ltb_spec hi lo); [done|]. injection H as <-. unfold is_u16 in *. simpl. lia.
Qed.

Lemma elem_of_ParsePorts_fold l X p :
  p ∈ foldl (λ opaquePorts pr,
      match ParsePortRange pr with
      | Ok r => opaquePorts ∪ list_to_set (u32 <$> range_ints (LowerBound r) (UpperBound r))
      | _ => opaquePorts
      end) X l ↔
  p ∈ (X : ports) ∨ ∃ s r, s ∈ l ∧ ParsePortRange s = Ok r ∧ LowerBound r ≤ p ≤ UpperBound r.
Proof.
  revert X. induction l as [|s l IH]; intros X; simpl; [set_solver|].
  rewrite IH. setoid_rewrite elem_of_cons.
  destruct (ParsePortRange s) as [r| |] eqn:E; [|split; (intros [?|(s0 & r0 & Hs & Hr & ?)]; [by left|];
     right; exists s0, r0; (destruct Hs as [->|] || idtac); first [congruence | tauto])..].
  rewrite elem_of_union, elem_of_list_to_set, elem_of_u_ranges.
  { split.
    - intros [[?|?]|(s0 & r0 & ? & ? & ?)]; [by left|right..]; [exists s, r|exists s0, r0]; tauto.
    - intros [?|(s0 & r0 & [->|?] & Hr & ?)]; [tauto|res_eq; tauto|right; eauto]. }
  intros x Hx. apply ParsePortRange_bounds in E. apply u32_id. unfold is_u32. lia.
Qed.

Lemma portSet_elem prs p :
  p ∈ portSet prs ↔ ∃ r x, r ∈ prs ∧ LowerBound r ≤ x ≤ UpperBound r ∧ p = u16 x.
Proof.
  unfold portSet, Ports. rewrite elem_of_list_to_set, list_elem_of_fmap.
  setoid_rewrite list_elem_of_bind. setoid_rewrite list_elem_of_fmap.
  setoid_rewrite elem_of_range_ints. split.
  - intros (y & -> & r & (x & -> & Hx) & Hr). exists r, x. split_and!; try done; try lia.
    apply u32_id. pose proof (u16_range x). unfold is_u16, is_u32 in *. lia.
  - intros (r & x & Hr & Hx & ->). exists (u16 x). split.
    + symmetry. apply u32_id. pose proof (u16_range x). unfold is_u16, is_u32 in *. lia.
    + exists r. eauto.
Qed.

(** The ports of the entries that parse as ranges, in order. *)
Definition rangePorts (entries : list string) : list Z :=
  entries ≫= λ e, match ParsePortRange e with
                  | Ok r => range_ints (LowerBound r) (UpperBound r)
                  | _ => []
                  end.

Lemma elem_of_rangePorts l p :
  p ∈ rangePorts l ↔ ∃ e r, e ∈ l ∧ ParsePortRange e = Ok r ∧ LowerBound r ≤ p ≤ UpperBound r.
Proof.
  unfold rangePorts. rewrite list_elem_of_bind. split.
  - intros (e & Hp & He). destruct (ParsePortRange e) as [r| |] eqn:E; [|by apply not_elem_of_nil in Hp..].
    apply elem_of_range_ints in Hp. eauto.
  - intros (e & r & He & Hr & Hp). exists e. rewrite Hr. by rewrite elem_of_range_ints.
Qed.

Lemma rangePorts_u16 l p : p ∈ rangePorts l → is_u16 p.
Proof.
  intros (e & r & _ & Hr & Hp)%elem_of_rangePorts.
  apply ParsePortRange_bounds in Hr. unfold is_u16. lia.
Qed.

Lemma ParsePorts_rangePorts s : s ≠ "" → ParsePorts s = list_to_set (rangePorts (GetPortRanges s)).
Proof.
  intros Hs. apply set_eq. intros p. unfold ParsePorts. rewrite bool_decide_false by done.
  rewrite elem_of_ParsePorts_fold, elem_of_list_to_set, elem_of_rangePorts. set_solver.
Qed.

Lemma parseServiceOpaquePorts_unnamed a sps :
  (∀ e, e ∈ GetPortRanges a → isNamed e sps = None) →
  parseServiceOpaquePorts a sps = strconv.Itoa <$> rangePorts (GetPortRanges a).
Proof.
  unfold parseServiceOpaquePorts, rangePorts. induction (GetPortRanges a) as [|e l IH]; intros Hn; [done|].
  rewrite !bind_cons, fmap_app, IH by set_solver. rewrite (Hn e) by set_solver.
  by destruct (ParsePortRange e).
Qed.

Lemma ParseContainerOpaquePorts_unnamed a named :
  (∀ e, e ∈ GetPortRanges a → named !! e = None) →
  portSet (ParseContainerOpaquePorts a named) = list_to_set (rangePorts (GetPortRanges a)).
Proof.
  intros Hn. apply set_eq. intros p.
  rewrite portSet_elem, elem_of_list_to_set, elem_of_rangePorts.
  unfold ParseContainerOpaquePorts. setoid_rewrite list_elem_of_bind. unfold parseEntry. split.
  - intros (r & x & (e & He & Hin) & Hx & ->). rewrite Hn in He by done.
    destruct (ParsePortRange e) as [r'| |] eqn:E; [|set_solver..].
    apply list_elem_of_singleton in He as ->. exists e, r'.
    rewrite u16_id; [done|]. apply ParsePortRange_bounds in E. unfold is_u16. lia.
  - intros (e & r & Hin & Hr & Hp). exists r, p. split_and!; [|lia..|].
    + exists e. rewrite Hn, Hr by done. set_solver.
    + symmetry. apply u16_id. apply ParsePortRange_bounds in Hr. unfold is_u16. lia.
Qed.

(** * Properties *)

(** printing a port range and parsing it back gives the range, for every valid
    pair of bounds; a range of one port is printed and parsed as a single number. *)
Theorem ParsePortRange_ToString lo hi :
  0 ≤ lo → lo ≤ hi → hi ≤ 65535 →
  ParsePortRange (ToString (mkPortRange lo hi)) = Ok (mkPortRange lo hi).
Proof.
  intros Hlo Hle Hhi. unfold ParsePortRange, ToString. simpl.
  destruct (Z.eqb_spec lo hi) as [->|Hne].
  - rewrite strings.Split_absent by (apply strconv.Itoa_no_minus; lia). simpl.
    rewrite !parseBound_Itoa by (unfold is_u16; lia). simpl. by rewrite Z.ltb_irrefl.
  - change (strconv.Itoa lo +:+ "-" +:+ strconv.Itoa hi)
      with (strconv.Itoa lo +:+ String "-" (strconv.Itoa hi)).
    rewrite strings.Split_app, strings.Split_absent by (apply strconv.Itoa_no_minus; lia).
    simpl. rewrite !parseBound_Itoa by (unfold is_u16; lia). simpl.
    by replace (hi <? lo) with false by lia.
Qed.

Lemma ParsePortRange_ToString_witness :
  ParsePortRange (ToString (mkPortRange 80 8080)) = Ok (mkPortRange 80 8080).
Proof. apply (ParsePortRange_ToString 80 8080); lia. Defined.

(** a port is in the set parsed from a list of ports and ranges exactly when some
    entry of the list parses to a range that contains it; invalid entries are skipped
    without affecting the others, and every port of the set is a TCP port. *)
Theorem ParsePorts_spec s p :
  (p ∈ ParsePorts s ↔
    s ≠ "" ∧ ∃ e r, e ∈ GetPortRanges s ∧ ParsePortRange e = Ok r ∧
      LowerBound r ≤ p ≤ UpperBound r)
  ∧ (p ∈ ParsePorts s → is_u16 p).
Proof.
  assert (p ∈ ParsePorts s ↔ s ≠ "" ∧ ∃ e r, e ∈ GetPortRanges s ∧
      ParsePortRange e = Ok r ∧ LowerBound r ≤ p ≤ UpperBound r) as Hspec.
  { unfold ParsePorts. case_bool_decide as Hs; [set_solver|].
    rewrite elem_of_ParsePorts_fold. set_solver. }
  split; [done|]. intros (_ & e & r & _ & Hr & Hp)%Hspec.
  apply ParsePortRange_bounds in Hr. unfold is_u16. lia.
Qed.

(** the two readers of the opaque-ports annotation, of a service and of a pod, agree
    with the plain port-list parser whenever no entry of the annotation is the name of a
    port: a service and its pods annotated alike have the same opaque ports. *)
Theorem opaque_annotations_agree a svc pod d :
  svc_Annotations svc !! ProxyOpaquePortsAnnotation = Some a →
  pod_Annotations pod !! ProxyOpaquePortsAnnotation = Some a →
  (∀ e, e ∈ GetPortRanges a →
    isNamed e (svc_Ports svc) = None ∧ GetNamedPorts (pod_Containers pod) !! e = None) →
  getServiceOpaquePortsAnnotation svc = Ok (ParsePorts a, true)
  ∧ GetAnnotatedOpaquePorts (Some pod) d = ParsePorts a.
Proof.
  intros Hs Hp Hn. unfold getServiceOpaquePortsAnnotation, GetAnnotatedOpaquePorts.
  rewrite Hs, Hp. case_bool_decide as Ha; [by subst a|]. split.
  - rewrite parseServiceOpaquePorts_unnamed, ParsePorts_rangePorts by naive_solver.
    apply res_bind_Ok. eexists. split; [|done]. apply res_mapM_Ok, Forall2_fmap_l.
    apply Forall_Forall2_diag, Forall_forall. intros p Hin%rangePorts_u16. unfold is_u16 in Hin. simpl.
    rewrite strconv.ParseUint_Itoa by lia. rewrite u32_id; [done|]. unfold is_u32. lia.
  - rewrite ParseContainerOpaquePorts_unnamed, ParsePorts_rangePorts by naive_solver. done.
Qed.

(** A pod and a service annotated with ["80,443-445"]. *)
Definition example_pod : Pod := mkPod "p" "ns" "1" ∅ {[ProxyOpaquePortsAnnotation := "80,443-445"]}
  "" "" false [] [] PodRunning "10.0.0.1" [] "" [] false.
Definition example_svc : Service := mkService "s" "ns" "u" ∅
  {[ProxyOpaquePortsAnnotation := "80,443-445"]} "ClusterIP" "10.1.0.1" [IPv4Protocol] None
  [mkServicePort "http" 80 "TCP" (FromInt 8080)] None false.

Lemma opaque_annotations_agree_witness :
  getServiceOpaquePortsAnnotation example_svc = Ok (ParsePorts "80,443-445", true)
  ∧ GetAnnotatedOpaquePorts (Some example_pod) ∅ = ParsePorts "80,443-445".
Proof.
  apply (opaque_annotations_agree "80,443-445" example_svc example_pod ∅).
  - reflexivity.
  - reflexivity.
  - intros e He. vm_compute in He. repeat (apply elem_of_cons in He as [->|He]; [done|]).
    by apply not_elem_of_nil in He.
Defined.

(** The comparison the watcher uses to skip redundant updates is equality of sets. *)
Lemma portsEqual_spec x y : portsEqual x y = true ↔ x = y.
Proof.
  unfold portsEqual. case_bool_decide as Hsz.
  - split; [done|]. by intros ->.
  - rewrite bool_decide_eq_true. split; [|intros ->; by intros ?].
    intros Hsub. apply set_subseteq_size_eq; [|lia]. intros p Hp. by apply Hsub.
Qed.
