(* ===== verification/Addresses.v ===== *)
(** Addresses and address sets of [watcher/endpoints_watcher.go] and the IDs of
    [watcher/k8s.go]: the data, the diff of two address sets, the protocol override by
    Servers, and the helpers that read services and endpoint slices. *)
From S2P Require Import Prelude GoStd K8s.

#[local] Open Scope string_scope.
#[local] Open Scope list_scope.
#[local] Open Scope Z_scope.

(** * Data *)
(** ServiceID, PodID, ProfileID and ExternalWorkloadID are aliases of ID. *)
Record ID := mkID { Namespace : string; Name : string; IPFamily : string }.

#[export] Instance ID_eq_dec : EqDecision ID.
Proof. solve_decision. Defined.
#[export] Instance ID_countable : Countable ID.
Proof.
  refine (inj_countable' (λ i, (Namespace i, Name i, IPFamily i))
    (λ t, mkID t.1.1 t.1.2 t.2) _). by intros [].
Defined.

(** The zero value [ID{}]. *)
Definition zeroID : ID := mkID "" "" "".

Record Address := mkAddress {
  IP : string; Port : Z; a_Pod : option Pod; a_ExternalWorkload : option ExternalWorkload;
  OwnerName : string; OwnerKind : string; Identity : string; AuthorityOverride : string;
  Zone : option string;
  ForZones : option (list string);  (* nil, or the names of the zones *)
  OpaqueProtocol : bool }.

#[export] Instance Address_eq_dec : EqDecision Address.
Proof. solve_decision. Defined.

Record AddressSet := mkAddressSet {
  Addresses : gmap ID Address; Labels : strmap; LocalTrafficPolicy : bool }.

(** [AddressSet{}]: nil maps read as empty ones. *)
Definition emptySet : AddressSet := mkAddressSet ∅ ∅ false.

Definition shallowCopy (addr : AddressSet) : AddressSet :=
  mkAddressSet (map_assign (Addresses addr) ∅) (map_assign (Labels addr) ∅)
    (LocalTrafficPolicy addr).

Arguments shallowCopy : simpl never.

(** A fresh address: every field but the IP and the port is zero. *)
Definition newAddress (ip : string) (port : Z) : Address :=
  mkAddress ip port None None "" "" "" "" None None false.

Definition set_OpaqueProtocol (b : bool) (a : Address) : Address :=
  mkAddress (IP a) (Port a) (a_Pod a) (a_ExternalWorkload a) (OwnerName a) (OwnerKind a)
    (Identity a) (AuthorityOverride a) (Zone a) (ForZones a) b.
Definition set_Zone (z : option string) (a : Address) : Address :=
  mkAddress (IP a) (Port a) (a_Pod a) (a_ExternalWorkload a) (OwnerName a) (OwnerKind a)
    (Identity a) (AuthorityOverride a) z (ForZones a) (OpaqueProtocol a).
Definition set_ForZones (z : option (list string)) (a : Address) : Address :=
  mkAddress (IP a) (Port a) (a_Pod a) (a_ExternalWorkload a) (OwnerName a) (OwnerKind a)
    (Identity a) (AuthorityOverride a) (Zone a) z (OpaqueProtocol a).
Definition set_Identity (i o : string) (a : Address) : Address :=
  mkAddress (IP a) (Port a) (a_Pod a) (a_ExternalWorkload a) (OwnerName a) (OwnerKind a)
    i o (Zone a) (ForZones a) (OpaqueProtocol a).

(** * Comparison of addresses *)
Definition zones (a : Address) : list string := default [] (ForZones a).

(** [sort.Slice(z, func(i, j int) bool { return z[i].Name < z[j].Name })]: a zone has
    only its name, so the sorted slice is unique. *)
Definition sortZones (z : list string) : list string := merge_sort String.le z.

(** [for k := range old { if old[k].Name != new[k].Name { return true } }] *)
Fixpoint zonesDiffer (old new : list string) : bool :=
  match old, new with
  | o :: old, n :: new => bool_decide (o ≠ n) || zonesDiffer old new
  | _, _ => false
  end.

Definition addressChanged (oldAddress newAddress : Address) : bool :=
  if bool_decide (Identity oldAddress ≠ Identity newAddress) then true
  else if bool_decide (length (zones newAddress) ≠ length (zones oldAddress)) then true
  else if zonesDiffer (sortZones (zones oldAddress)) (sortZones (zones newAddress)) then true
  else match a_Pod oldAddress, a_Pod newAddress with
       | Some o, Some n => bool_decide (pod_ResourceVersion o ≠ pod_ResourceVersion n)
       | _, _ => false
       end.

(** The state of [newAddress] after the call above: its zones have been sorted in
    place when the comparison got that far. *)
Definition afterCompare (oldAddress newAddress : Address) : Address :=
  if bool_decide (Identity oldAddress = Identity newAddress
                  ∧ length (zones newAddress) = length (zones oldAddress))
  then set_ForZones (sortZones <$> ForZones newAddress) newAddress
  else newAddress.

(** The addresses to add, those to remove, and the new set as the comparison leaves it. *)
Definition diffAddresses (oldAddresses newAddresses : AddressSet)
    : AddressSet * AddressSet * AddressSet :=
  let old := Addresses oldAddresses in
  let new := Addresses newAddresses in
  let addAddresses := map_imap (λ id n,
      match old !! id with
      | Some o => if addressChanged o n then Some (afterCompare o n) else None
      | None => Some n
      end) new in
  let removeAddresses := map_remove new old in
  let new' := map_imap (λ id n,
      Some (match old !! id with Some o => afterCompare o n | None => n end)) new in
  (mkAddressSet addAddresses (Labels newAddresses) (LocalTrafficPolicy newAddresses),
   mkAddressSet removeAddresses ∅ false,
   mkAddressSet new' (Labels newAddresses) (LocalTrafficPolicy newAddresses)).

(** * Services and slices *)
(** [intstr.FromInt(int(port))] keeps the low 32 bits. *)
Definition getTargetPort (service : option Service) (port : Z) : IntOrString :=
  let targetPort := FromInt (i32 port) in
  match service with
  | None => targetPort
  | Some svc =>
      match list_find (λ p, sp_Port p = i32 port) (svc_Ports svc) with
      | Some (_, portSpec) => FromString (sp_Name portSpec)
      | None => targetPort
      end
  end.

Definition isValidSlice (es : EndpointSlice) : bool :=
  match sl_OwnerReferences es with
  | [] =>
      match sl_Labels es !! LabelServiceName with
      | None => false
      | Some serviceName => bool_decide (serviceName ≠ "")
      end
  | _ => true
  end.

Definition getEndpointSliceServiceID (es : EndpointSlice) : res ID :=
  if negb (isValidSlice es) then Err "EndpointSlice is invalid" else
  match sl_Labels es !! LabelServiceName with
  | Some svc => Ok (mkID (sl_Namespace es) svc "")
  | None =>
      match list_find (λ ref, or_Kind ref = "Service" ∧ or_Name ref ≠ "")
              (sl_OwnerReferences es) with
      | Some (_, ref) => Ok (mkID (sl_Namespace es) (or_Name ref) "")
      | None => Err "EndpointSlice is invalid"
      end
  end.

(** [metricLabels] for an Endpoints or an EndpointSlice resource. *)
Definition metricLabels (serviceName ns : string) (resLabels resAnnotations : strmap) : strmap :=
  let labels : strmap := <["service" := serviceName]> {["namespace" := ns]} in
  match resLabels !! RemoteClusterNameLabel with
  | None => labels
  | Some remoteClusterName =>
      let labels := <["target_cluster" := remoteClusterName]> labels in
      match resAnnotations !! RemoteServiceFqName with
      | None => labels
      | Some serviceFqn =>
          match strings.Split serviceFqn "." with
          | f0 :: f1 :: _ =>
              <["target_service_namespace" := f1]> (<["target_service" := f0]> labels)
          | _ => labels
          end
      end
  end.
Definition metricLabelsEndpoints (r : Endpoints) : strmap :=
  metricLabels (eps_Name r) (eps_Namespace r) (eps_Labels r) (eps_Annotations r).
Definition metricLabelsSlice (r : EndpointSlice) : strmap :=
  metricLabels (get (sl_Labels r) LabelServiceName) (sl_Namespace r) (sl_Labels r)
    (sl_Annotations r).

(** * Servers *)
Definition opaqueProtocol : string := "opaque".

Section servers.
Context (api : API).

(** The port of the Server selects the port of the address: by number, or by the name
    of a container port with that number. *)
Definition podPortMatch (hostPorts : bool) (port : IntOrString) (pod : Pod) (p : Z) : bool :=
  match port with
  | FromInt i => bool_decide (i = i32 p)
  | FromString name =>
      existsb (λ c, existsb (λ cp,
          (bool_decide (cp_ContainerPort cp = i32 p)
           || hostPorts && bool_decide (cp_HostPort cp = i32 p))
          && bool_decide (cp_Name cp = name)) (c_Ports c)) (pod_Containers pod)
  end.

Definition workloadPortMatch (port : IntOrString) (ew : ExternalWorkload) (p : Z) : bool :=
  match port with
  | FromInt i => bool_decide (i = i32 p)
  | FromString name =>
      existsb (λ ps, bool_decide (ps_Port ps = i32 p) && bool_decide (ps_Name ps = name))
        (ew_Ports ew)
  end.

(** The loop over the Servers: the first selector that does not parse is an error, the
    first opaque Server that selects the labels and the port decides. *)
Fixpoint anyOpaqueServer (sel : Server → option LabelSelector) (lbls : strmap)
    (portMatch : IntOrString → bool) (servers : list Server) : res bool :=
  match servers with
  | [] => Ok false
  | server :: servers =>
      match api_LabelSelectorAsSelector api (sel server) with
      | None => Err "failed to create Selector"
      | Some Matches =>
          if bool_decide (srv_ProxyProtocol server = opaqueProtocol) && Matches lbls
             && portMatch (srv_Port server)
          then Ok true
          else anyOpaqueServer sel lbls portMatch servers
      end
  end.

(** The address after the call: the field is set, never cleared. *)
Definition SetToServerProtocol (address : Address) : res Address :=
  match a_Pod address with
  | None => Err "endpoint not backed by Pod"
  | Some pod =>
      match api_Servers api with
      | None => Err "failed to list Servers"
      | Some servers =>
          (let* o := anyOpaqueServer srv_PodSelector (pod_Labels pod)
                       (λ port, podPortMatch true port pod (Port address)) servers in
           Ok (if o then set_OpaqueProtocol true address else address))%go
      end
  end.

Definition SetToServerProtocolExternalWorkload (address : Address) : res Address :=
  match a_ExternalWorkload address with
  | None => Err "endpoint not backed by ExternalWorkload"
  | Some ew =>
      match api_Servers api with
      | None => Err "failed to list Servers"
      | Some servers =>
          (let* o := anyOpaqueServer srv_ExternalWorkloadSelector (ew_Labels ew)
                       (λ port, workloadPortMatch port ew (Port address)) servers in
           Ok (if o then set_OpaqueProtocol true address else address))%go
      end
  end.

(** [portPublisher.isAddressSelected]; a nil server selects nothing. *)
Definition isAddressSelected (address : Address) (server : option Server) : bool :=
  match server with
  | None => false
  | Some server =>
      match a_Pod address, a_ExternalWorkload address with
      | Some pod, _ =>
          match api_LabelSelectorAsSelector api (srv_PodSelector server) with
          | None => false
          | Some Matches =>
              Matches (pod_Labels pod) && podPortMatch false (srv_Port server) pod (Port address)
          end
      | None, Some ew =>
          match api_LabelSelectorAsSelector api (srv_ExternalWorkloadSelector server) with
          | None => false
          | Some Matches =>
              Matches (ew_Labels ew) && workloadPortMatch (srv_Port server) ew (Port address)
          end
      | None, None => false
      end
  end.
End servers.

(** * Lemmas on the comparison *)
Lemma shallowCopy_id s : shallowCopy s = s.
Proof. destruct s. unfold shallowCopy. simpl. by rewrite !map_assign_empty. Qed.

Lemma sortZones_perm z : sortZones z ≡ₚ z.
Proof. apply merge_sort_Permutation. Qed.

(** Sorting decides equality up to order. *)
Lemma sortZones_eq z1 z2 : sortZones z1 = sortZones z2 ↔ z1 ≡ₚ z2.
Proof.
  split; intros H.
  - by rewrite <-(sortZones_perm z1), H, sortZones_perm.
  - apply (StronglySorted_unique String.le).
    + apply StronglySorted_merge_sort; apply _.
    + apply StronglySorted_merge_sort; apply _.
    + by rewrite !sortZones_perm.
Qed.

Lemma zonesDiffer_spec o n : length o = length n → zonesDiffer o n = false ↔ o = n.
Proof.
  revert n. induction o as [|x o IH]; intros [|y n] Hlen; simplify_eq/=; [done|].
  rewrite orb_false_iff, bool_decide_eq_false, IH by done. split.
  - intros [Hxy ->]. f_equal. by destruct (decide (x = y)).
  - intros [= -> ->]. split; [|done]. intros Hn. by apply Hn.
Qed.

Lemma length_sortZones z : length (sortZones z) = length z.
Proof. by rewrite sortZones_perm. Qed.

(** What "unchanged" means: the identity, the zone hints up to order and, when both are
    backed by pods, the resource version of the pod. *)
Lemma addressChanged_false o n :
  addressChanged o n = false ↔
    Identity o = Identity n ∧ zones o ≡ₚ zones n ∧
    (∀ p q, a_Pod o = Some p → a_Pod n = Some q → pod_ResourceVersion p = pod_ResourceVersion q).
Proof.
  unfold addressChanged. case_bool_decide as Hid; [naive_solver|].
  case_bool_decide as Hlen.
  { split; [done|]. intros (_ & Hz & _). destruct Hlen. by rewrite Hz. }
  destruct (zonesDiffer _ _) eqn:Hz.
  - split; [done|]. intros (_ & Hp & _). apply sortZones_eq in Hp. rewrite Hp in Hz.
    by rewrite (proj2 (zonesDiffer_spec _ _ eq_refl)) in Hz.
  - apply zonesDiffer_spec, sortZones_eq in Hz; [|by rewrite !length_sortZones].
    destruct (a_Pod o), (a_Pod n); rewrite ?bool_decide_eq_false; split; try naive_solver.
    intros H. split_and!; [done..|]. intros ? ? [= <-] [= <-]. by apply dec_stable.
Qed.

Lemma afterCompare_zones o n : zones (afterCompare o n) ≡ₚ zones n.
Proof.
  unfold afterCompare. case_bool_decide; [|done]. unfold zones. simpl.
  destruct (ForZones n); simpl; [apply sortZones_perm | done].
Qed.
Lemma afterCompare_Identity o n : Identity (afterCompare o n) = Identity n.
Proof. unfold afterCompare. by case_bool_decide. Qed.
Lemma afterCompare_Pod o n : a_Pod (afterCompare o n) = a_Pod n.
Proof. unfold afterCompare. by case_bool_decide. Qed.

(** The relation between what a listener holds for an ID and what the publisher holds:
    connected by comparisons that found no change. *)
Definition unchanged (o n : Address) : Prop := addressChanged o n = false.
Definition synced : relation Address := rtc unchanged.

#[export] Instance unchanged_refl : Reflexive unchanged.
Proof. intros a. apply addressChanged_false. naive_solver. Qed.

Lemma unchanged_afterCompare o n : unchanged o n → unchanged o (afterCompare o n).
Proof.
  unfold unchanged. rewrite !addressChanged_false, afterCompare_Identity, afterCompare_Pod,
    afterCompare_zones. done.
Qed.

(** Identity and zone hints are never stale. *)
Lemma synced_Identity a b : synced a b → Identity a = Identity b ∧ zones a ≡ₚ zones b.
Proof.
  induction 1 as [|x y z Hxy _ IH]; [done|].
  apply addressChanged_false in Hxy as (Hi & Hz & _). destruct IH as [Hi' Hz'].
  split; [congruence | by rewrite Hz].
Qed.

(** * Lemmas on the diff *)
Lemma lookup_diff_add old new id :
  Addresses (diffAddresses old new).1.1 !! id =
    (n ← Addresses new !! id;
     match Addresses old !! id with
     | Some o => if addressChanged o n then Some (afterCompare o n) else None
     | None => Some n
     end).
Proof. simpl. by rewrite map_lookup_imap. Qed.

Lemma lookup_diff_remove old new id :
  Addresses (diffAddresses old new).1.2 !! id =
    match Addresses new !! id with Some _ => None | None => Addresses old !! id end.
Proof. simpl. apply lookup_map_remove. Qed.

Lemma lookup_diff_new old new id :
  Addresses (diffAddresses old new).2 !! id =
    (n ← Addresses new !! id;
     Some (match Addresses old !! id with Some o => afterCompare o n | None => n end)).
Proof. simpl. by rewrite map_lookup_imap. Qed.

#[export] Hint Rewrite lookup_diff_add lookup_diff_remove lookup_diff_new : linkerd.

Lemma diff_new_dom old new : dom (Addresses (diffAddresses old new).2) = dom (Addresses new).
Proof.
  apply set_eq. intros id. rewrite !elem_of_dom, lookup_diff_new.
  destruct (Addresses new !! id); simpl; split; intros [? ?]; by eexists.
Qed.

Lemma diff_labels old new :
  Labels (diffAddresses old new).2 = Labels new
  ∧ LocalTrafficPolicy (diffAddresses old new).2 = LocalTrafficPolicy new.
Proof. done. Qed.
