(* ===== verification/PortPublisher.v ===== *)
(** [portPublisher] of [watcher/endpoints_watcher.go]: the address set of one service
    port, and the events it sends to its listeners.

    Every operation is a function from the publisher (and the cluster caches [api] it
    reads) to the new publisher and the events it emits, in the order of the code: the
    pair [(l, e)] is a call of the method [e] on the listener [l].  Listeners are
    identified by numbers.  Prometheus metrics are not modelled. *)
From S2P Require Import Prelude GoStd K8s Addresses.

#[local] Open Scope string_scope.
#[local] Open Scope list_scope.
#[local] Open Scope Z_scope.

(** * State *)
(** The calls of the interface EndpointUpdateListener. *)
Inductive ListenerEvent :=
  | Add (set : AddressSet)
  | Remove (set : AddressSet)
  | NoEndpoints (exists_ : bool).

Record portPublisher := mkPortPublisher {
  pp_id : ID; targetPort : IntOrString; srcPort : Z; hostname : string;
  enableEndpointSlices : bool; exists_ : bool; addresses : AddressSet;
  listeners : list nat; localTrafficPolicy : bool }.

Definition set_addresses (e : bool) (a : AddressSet) (pp : portPublisher) : portPublisher :=
  mkPortPublisher (pp_id pp) (targetPort pp) (srcPort pp) (hostname pp)
    (enableEndpointSlices pp) e a (listeners pp) (localTrafficPolicy pp).
Definition set_listeners (l : list nat) (pp : portPublisher) : portPublisher :=
  mkPortPublisher (pp_id pp) (targetPort pp) (srcPort pp) (hostname pp)
    (enableEndpointSlices pp) (exists_ pp) (addresses pp) l (localTrafficPolicy pp).
Definition set_targetPort (t : IntOrString) (pp : portPublisher) : portPublisher :=
  mkPortPublisher (pp_id pp) t (srcPort pp) (hostname pp)
    (enableEndpointSlices pp) (exists_ pp) (addresses pp) (listeners pp) (localTrafficPolicy pp).
Definition set_localTrafficPolicy (b : bool) (pp : portPublisher) : portPublisher :=
  mkPortPublisher (pp_id pp) (targetPort pp) (srcPort pp) (hostname pp)
    (enableEndpointSlices pp) (exists_ pp) (addresses pp) (listeners pp) b.

Abbreviation events := (list (nat * ListenerEvent)).

(** [for _, listener := range pp.listeners { ... }] with the calls [evs] in the body. *)
Definition notify (pp : portPublisher) (evs : list ListenerEvent) : events :=
  listeners pp ≫= λ l, pair l <$> evs.

Definition len (s : AddressSet) : nat := size (Addresses s).

(** * Operations *)
Section operations.
Context (api : API).

Definition undefinedEndpointPort : Z := 0.

Definition resolveESTargetPort (pp : portPublisher) (slicePorts : option (list EndpointPort)) : Z :=
  match slicePorts with
  | None => undefinedEndpointPort
  | Some slicePorts =>
      match targetPort pp with
      | FromInt i => u32 i
      | FromString s =>
          match list_find (λ p, default "" (ep_Name p) = s) slicePorts with
          | Some (_, p) => u32 (ep_Port p)
          | None => undefinedEndpointPort
          end
      end
  end.

Definition resolveTargetPort (pp : portPublisher) (subset : EndpointSubset) : Z :=
  match targetPort pp with
  | FromInt i => u32 i
  | FromString s =>
      match list_find (λ p : string * Z, p.1 = s) (es_SubsetPorts subset) with
      | Some (_, p) => u32 p.2
      | None => undefinedEndpointPort
      end
  end.

(** The ID of an address that is a service IP: its name holds the IP and the port. *)
Definition serviceRefID (endpointPort : Z) (endpointIP serviceName serviceNamespace : string) : ID :=
  mkID serviceNamespace
    (strings.Join [serviceName; endpointIP; strconv.Itoa endpointPort] "-") "".

Definition newServiceRefAddress (endpointPort : Z) (endpointIP serviceName serviceNamespace : string)
    : Address * ID :=
  (newAddress endpointIP endpointPort,
   serviceRefID endpointPort endpointIP serviceName serviceNamespace).

Definition newPodRefAddress (endpointPort : Z) (ipFamily endpointIP podName podNamespace : string)
    : option (Address * ID) :=
  let id := mkID podNamespace podName ipFamily in
  pod ← api_Pod api (Namespace id) (Name id);
  '(ownerKind, ownerName) ← api_OwnerKindAndName api pod;
  Some (mkAddress endpointIP endpointPort (Some pod) None ownerName ownerKind "" "" None None false,
        id).

(** The source assigns the owner's name and then overwrites it with its kind. *)
Definition newExtRefAddress (endpointPort : Z) (endpointIP externalWorkloadName
    externalWorkloadNamespace : string) : option (Address * ID) :=
  let id := mkID externalWorkloadNamespace externalWorkloadName "" in
  ew ← api_ExternalWorkload api (Namespace id) (Name id);
  let ownerName :=
    match ew_OwnerReferences ew with
    | [parent] => strings.ToLower (or_Kind parent)
    | _ => ""
    end in
  Some (mkAddress endpointIP endpointPort None (Some ew) ownerName "" "" "" None None false, id).

(** [if endpoint.Hints != nil { ... }]: the copied slice is never nil. *)
Definition withHints (endpoint : Endpoint) (address : Address) : Address :=
  match e_Hints endpoint with
  | Some z => set_ForZones (Some z) address
  | None => address
  end.

(** Whether the loops skip the endpoint: another hostname, or not ready. *)
Definition skipEndpoint (pp : portPublisher) (endpoint : Endpoint) : bool :=
  match e_Hostname endpoint with
  | Some h => bool_decide (hostname pp ≠ "" ∧ hostname pp ≠ h)
  | None => false
  end || bool_decide (e_Ready endpoint = Some false).

(** The entries one endpoint of a slice contributes, in order. *)
Definition sliceEndpointAddresses (pp : portPublisher) (es : EndpointSlice) (serviceName : string)
    (resolvedPort : Z) (endpoint : Endpoint) : list (ID * Address) :=
  if skipEndpoint pp endpoint then [] else
  match e_TargetRef endpoint with
  | None =>
      (λ IPAddr,
        let authorityOverride :=
          match sl_Annotations es !! RemoteServiceFqName with
          | Some fqName => net.JoinHostPort fqName (strconv.Itoa (srcPort pp))
          | None => ""
          end in
        let identity := get (sl_Annotations es) RemoteGatewayIdentity in
        let '(address, id) := newServiceRefAddress resolvedPort IPAddr serviceName (sl_Namespace es) in
        (id, withHints endpoint (set_Identity identity authorityOverride address)))
      <$> e_Addresses endpoint
  | Some ref =>
      let mk (new : string → option (Address * ID)) (proto : Address → res Address) :=
        omap (λ IPAddr,
          '(address, id) ← new IPAddr;
          address ← res_ok (proto address);
          Some (id, withHints endpoint (set_Zone (e_Zone endpoint) address)))
          (e_Addresses endpoint) in
      if bool_decide (ref_Kind ref = "Pod") then
        mk (λ IPAddr, newPodRefAddress resolvedPort (sl_AddressType es) IPAddr
                        (ref_Name ref) (ref_Namespace ref))
           (SetToServerProtocol api)
      else if bool_decide (ref_Kind ref = "ExternalWorkload") then
        mk (λ IPAddr, newExtRefAddress resolvedPort IPAddr (ref_Name ref) (sl_Namespace es))
           (SetToServerProtocolExternalWorkload api)
      else []
  end.

(** [addresses[id] = address] for each entry: the last one wins. *)
Definition assignAll (l : list (ID * Address)) : gmap ID Address :=
  foldl (λ m e, <[e.1 := e.2]> m) ∅ l.

Definition endpointSliceToAddresses (pp : portPublisher) (es : EndpointSlice) : AddressSet :=
  let resolvedPort := resolveESTargetPort pp (sl_Ports es) in
  if bool_decide (resolvedPort = undefinedEndpointPort)
  then mkAddressSet ∅ (metricLabelsSlice es) (localTrafficPolicy pp) else
  let serviceID := default zeroID (res_ok (getEndpointSliceServiceID es)) in
  mkAddressSet
    (assignAll (sl_Endpoints es ≫=
       sliceEndpointAddresses pp es (Name serviceID) resolvedPort))
    (metricLabelsSlice es) (localTrafficPolicy pp).

Definition sliceEndpointIDs (pp : portPublisher) (es : EndpointSlice) (serviceName : string)
    (resolvedPort : Z) (endpoint : Endpoint) : list ID :=
  if skipEndpoint pp endpoint then [] else
  match e_TargetRef endpoint with
  | None =>
      (λ IPAddr, serviceRefID resolvedPort IPAddr serviceName (sl_Namespace es))
      <$> e_Addresses endpoint
  | Some ref =>
      if bool_decide (ref_Kind ref = "Pod")
      then [mkID (ref_Namespace ref) (ref_Name ref) (sl_AddressType es)]
      else if bool_decide (ref_Kind ref = "ExternalWorkload")
      then [mkID (ref_Namespace ref) (ref_Name ref) ""]
      else []
  end.

Definition endpointSliceToIDs (pp : portPublisher) (es : EndpointSlice) : list ID :=
  let resolvedPort := resolveESTargetPort pp (sl_Ports es) in
  if bool_decide (resolvedPort = undefinedEndpointPort) then [] else
  let serviceID := default zeroID (res_ok (getEndpointSliceServiceID es)) in
  sl_Endpoints es ≫= sliceEndpointIDs pp es (Name serviceID) resolvedPort.

(** The entry one address of an Endpoints subset contributes. *)
Definition subsetAddress (pp : portPublisher) (endpoints : Endpoints) (resolvedPort : Z)
    (endpoint : EndpointAddress) : option (ID * Address) :=
  if bool_decide (hostname pp ≠ "" ∧ hostname pp ≠ ea_Hostname endpoint) then None else
  match ea_TargetRef endpoint with
  | None =>
      let authorityOverride :=
        match eps_Annotations endpoints !! RemoteServiceFqName with
        | Some fqName => fqName +:+ ":" +:+ strconv.Itoa (srcPort pp)
        | None => ""
        end in
      let identity := get (eps_Annotations endpoints) RemoteGatewayIdentity in
      let '(address, id) := newServiceRefAddress resolvedPort (ea_IP endpoint)
                              (eps_Name endpoints) (eps_Namespace endpoints) in
      Some (id, set_Identity identity authorityOverride address)
  | Some ref =>
      if bool_decide (ref_Kind ref = "Pod") then
        '(address, id) ← newPodRefAddress resolvedPort "" (ea_IP endpoint)
                           (ref_Name ref) (ref_Namespace ref);
        address ← res_ok (SetToServerProtocol api address);
        Some (id, address)
      else None
  end.

Definition endpointsToAddresses (pp : portPublisher) (endpoints : Endpoints) : AddressSet :=
  mkAddressSet
    (assignAll (eps_Subsets endpoints ≫= λ subset,
       let resolvedPort := resolveTargetPort pp subset in
       if bool_decide (resolvedPort = undefinedEndpointPort) then []
       else omap (subsetAddress pp endpoints resolvedPort) (es_Addresses subset)))
    (metricLabelsEndpoints endpoints) false.

(** [if len(remove) > 0 { listener.Remove(remove) }; if len(add) > 0 { listener.Add(add) }] *)
Definition diffEvents (add remove : AddressSet) : list ListenerEvent :=
  (if bool_decide (0 < len remove)%nat then [Remove remove] else [])
  ++ (if bool_decide (0 < len add)%nat then [Add add] else []).

Definition updateEndpoints (pp : portPublisher) (endpoints : Endpoints) : portPublisher * events :=
  let newAddressSet := endpointsToAddresses pp endpoints in
  if bool_decide (len newAddressSet = 0%nat)
  then (set_addresses true newAddressSet pp, notify pp [NoEndpoints true])
  else
    let '(add, remove, newAddressSet) := diffAddresses (addresses pp) newAddressSet in
    (set_addresses true newAddressSet pp, notify pp (diffEvents add remove)).

Definition addEndpointSlice (pp : portPublisher) (slice : EndpointSlice) : portPublisher * events :=
  let newAddressSet := endpointSliceToAddresses pp slice in
  (* for id, addr := range pp.addresses { if absent { newAddressSet[id] = addr } } *)
  let newAddressSet := mkAddressSet
    (map_assign (Addresses newAddressSet) (Addresses (addresses pp)))
    (Labels newAddressSet) (LocalTrafficPolicy newAddressSet) in
  let '(add, _, newAddressSet) := diffAddresses (addresses pp) newAddressSet in
  (set_addresses true newAddressSet pp,
   if bool_decide (0 < len add)%nat then notify pp [Add add] else []).

Definition updateEndpointSlice (pp : portPublisher) (oldSlice newSlice : EndpointSlice)
    : portPublisher * events :=
  let updated := foldl (λ m id, delete id m) (Addresses (addresses pp))
                   (endpointSliceToIDs pp oldSlice) in
  let newAddressSet := endpointSliceToAddresses pp newSlice in
  let updatedAddressSet := mkAddressSet (map_assign (Addresses newAddressSet) updated)
    (Labels (addresses pp)) (localTrafficPolicy pp) in
  let '(add, remove, updatedAddressSet) := diffAddresses (addresses pp) updatedAddressSet in
  (set_addresses true updatedAddressSet pp, notify pp (diffEvents add remove)).

Definition noEndpoints (pp : portPublisher) (e : bool) : portPublisher * events :=
  (set_addresses e emptySet pp, notify pp [NoEndpoints e]).

Definition deleteEndpointSlice (pp : portPublisher) (es : EndpointSlice) : portPublisher * events :=
  let addrSet := endpointSliceToAddresses pp es in
  let pp' := set_addresses (exists_ pp)
    (mkAddressSet (map_remove (Addresses addrSet) (Addresses (addresses pp)))
       (Labels (addresses pp)) (LocalTrafficPolicy (addresses pp))) pp in
  let evs := notify pp [Remove addrSet] in
  if bool_decide (len (addresses pp') = 0%nat)
  then let '(pp'', evs') := noEndpoints pp' false in (pp'', evs ++ evs')
  else (set_addresses true (addresses pp') pp', evs).

Definition updateLocalTrafficPolicy (pp : portPublisher) (b : bool) : portPublisher * events :=
  let a := mkAddressSet (Addresses (addresses pp)) (Labels (addresses pp)) b in
  (set_localTrafficPolicy b (set_addresses (exists_ pp) a pp), notify pp [Add (shallowCopy a)]).

(** Runs [f] on each element, threading the publisher and collecting the events. *)
Fixpoint foldEvents {A} (f : portPublisher → A → portPublisher * events) (pp : portPublisher)
    (l : list A) : portPublisher * events :=
  match l with
  | [] => (pp, [])
  | x :: l => let '(pp, evs) := f pp x in
              let '(pp, evs') := foldEvents f pp l in (pp, evs ++ evs')
  end.

Definition updatePort (pp : portPublisher) (tp : IntOrString) : portPublisher * events :=
  let pp := set_targetPort tp pp in
  if enableEndpointSlices pp then
    match api_EndpointSlices api (Namespace (pp_id pp)) (Name (pp_id pp)) with
    | Some endpointSlices =>
        foldEvents addEndpointSlice (set_addresses (exists_ pp) emptySet pp) endpointSlices
    | None => (pp, [])
    end
  else
    match api_Endpoints api (Namespace (pp_id pp)) (Name (pp_id pp)) with
    | Some endpoints => updateEndpoints pp endpoints
    | None => (pp, [])
    end.

Definition subscribe (pp : portPublisher) (listener : nat) : portPublisher * events :=
  (set_listeners (listeners pp ++ [listener]) pp,
   [(listener,
     if exists_ pp then
       if bool_decide (0 < len (addresses pp))%nat then Add (shallowCopy (addresses pp))
       else NoEndpoints true
     else NoEndpoints false)]).

Definition unsubscribe (pp : portPublisher) (listener : nat) : portPublisher :=
  set_listeners (swap_remove listener (listeners pp)) pp.

(** The new value of one address when a Server goes from [oldServer] to [newServer]. *)
Definition serverAddress (oldServer newServer : option Server) (address : Address) : Address :=
  if isAddressSelected api address oldServer || isAddressSelected api address newServer then
    set_OpaqueProtocol
      (match newServer with
       | Some s => isAddressSelected api address newServer
                   && bool_decide (srv_ProxyProtocol s = opaqueProtocol)
       | None => false
       end) address
  else address.

Definition updateServer (pp : portPublisher) (oldServer newServer : option Server)
    : portPublisher * events :=
  let a := serverAddress oldServer newServer <$> Addresses (addresses pp) in
  let set := mkAddressSet a (Labels (addresses pp)) (LocalTrafficPolicy (addresses pp)) in
  if bool_decide (a = Addresses (addresses pp)) then (pp, [])
  else (set_addresses (exists_ pp) set pp, notify pp [Add (shallowCopy set)]).
End operations.

Arguments endpointsToAddresses : simpl never.
Arguments endpointSliceToAddresses : simpl never.
Arguments endpointSliceToIDs : simpl never.

(** * The view of a listener

    What a listener knows after a sequence of calls, as the interface promises it: [Add]
    inserts or replaces, [Remove] deletes, [NoEndpoints] clears. *)
Definition view_event (v : gmap ID Address) (e : ListenerEvent) : gmap ID Address :=
  match e with
  | Add s => map_assign (Addresses s) v
  | Remove s => map_remove (Addresses s) v
  | NoEndpoints _ => ∅
  end.

Definition view_events : gmap ID Address → list ListenerEvent → gmap ID Address :=
  foldl view_event.

(** ** The interface EndpointUpdateListener

    What the publishers rely on of an implementation: it knows the addresses that the
    calls made on it amount to. *)
Class EndpointUpdateListener (L : Type) := {
  listen : L → ListenerEvent → L;
  known : L → gmap ID Address;
  known_listen : ∀ l e, known (listen l e) = view_event (known l) e }.

Lemma known_listen_all `{!EndpointUpdateListener L} (l : L) evs :
  known (foldl listen l evs) = view_events (known l) evs.
Proof.
  revert l. induction evs as [|e evs IH]; intros l; [done|]. simpl. by rewrite IH, known_listen.
Qed.

(** The calls made on the listener [l]. *)
Definition events_of (l : nat) (evs : events) : list ListenerEvent := proj_at l evs.

(** A view agrees with the publisher: the same IDs, and for each of them addresses that
    no comparison of the publisher tells apart. *)
Definition agrees (v m : gmap ID Address) : Prop :=
  ∀ id, option_Forall2 synced (v !! id) (m !! id).

Definition in_sync (v : gmap ID Address) (pp : portPublisher) : Prop :=
  agrees v (Addresses (addresses pp)).

(** A publisher that does not exist has no addresses. *)
Definition pp_wf (pp : portPublisher) : Prop :=
  exists_ pp = false → Addresses (addresses pp) = ∅.

(** ** A publisher and the views of its subscribers *)
Record system := mkSystem { sys_pp : portPublisher; sys_views : gmap nat (gmap ID Address) }.

(** The events of a publisher reach every view. *)
Definition deliver (evs : events) (views : gmap nat (gmap ID Address)) :=
  map_imap (λ l v, Some (view_events v (events_of l evs))) views.

Inductive pp_op : portPublisher → portPublisher * events → Prop :=
  | op_updateEndpoints api pp eps : pp_op pp (updateEndpoints api pp eps)
  | op_addEndpointSlice api pp es : pp_op pp (addEndpointSlice api pp es)
  | op_updateEndpointSlice api pp es1 es2 : pp_op pp (updateEndpointSlice api pp es1 es2)
  | op_deleteEndpointSlice api pp es : pp_op pp (deleteEndpointSlice api pp es)
  | op_noEndpoints pp e : pp_op pp (noEndpoints pp e)
  | op_updateLocalTrafficPolicy pp b : pp_op pp (updateLocalTrafficPolicy pp b)
  | op_updateServer api pp s1 s2 : pp_op pp (updateServer api pp s1 s2)
  | op_updatePort api pp tp :
      enableEndpointSlices pp = false → pp_op pp (updatePort api pp tp).

Inductive sys_step : system → system → Prop :=
  | step_op pp views pp' evs :
      pp_op pp (pp', evs) →
      sys_step (mkSystem pp views) (mkSystem pp' (deliver evs views))
  | step_subscribe pp views l pp' evs :
      views !! l = None → subscribe pp l = (pp', evs) →
      sys_step (mkSystem pp views) (mkSystem pp' (deliver evs (<[l := ∅]> views)))
  | step_unsubscribe pp views l :
      sys_step (mkSystem pp views) (mkSystem (unsubscribe pp l) (delete l views)).

Definition sys_inv (s : system) : Prop :=
  pp_wf (sys_pp s)
  ∧ NoDup (listeners (sys_pp s))
  ∧ (∀ l, is_Some (sys_views s !! l) ↔ l ∈ listeners (sys_pp s))
  ∧ (∀ l v, sys_views s !! l = Some v → in_sync v (sys_pp s)).

(** A publisher with no subscriber yet. *)
Definition sys_init (s : system) : Prop :=
  pp_wf (sys_pp s) ∧ listeners (sys_pp s) = [] ∧ sys_views s = ∅.

(** * Lemmas *)
Lemma events_of_app l e1 e2 : events_of l (e1 ++ e2) = events_of l e1 ++ events_of l e2.
Proof. apply proj_at_app. Qed.

Lemma events_of_pair l l' evs :
  events_of l (pair l' <$> evs) = if decide (l' = l) then evs else [].
Proof. apply proj_at_pair. Qed.

Lemma events_of_notify pp evs l :
  NoDup (listeners pp) → l ∈ listeners pp → events_of l (notify pp evs) = evs.
Proof.
  unfold notify. induction (listeners pp) as [|x ls IH]; [by intros _ ?%not_elem_of_nil|].
  intros [Hx Hnd]%NoDup_cons Hl. rewrite bind_cons, events_of_app, events_of_pair.
  case_decide as Hd; [subst x|].
  - rewrite <-(app_nil_r evs) at 2. f_equal. clear IH Hl Hnd.
    induction ls as [|y ls IH]; [done|]. rewrite bind_cons, events_of_app, events_of_pair.
    rewrite decide_False by set_solver. apply IH. set_solver.
  - apply IH; set_solver.
Qed.

Lemma view_events_app v e1 e2 : view_events v (e1 ++ e2) = view_events (view_events v e1) e2.
Proof. apply foldl_app. Qed.

Lemma view_diffEvents v add remove :
  view_events v (diffEvents add remove)
  = map_assign (Addresses add) (map_remove (Addresses remove) v).
Proof.
  assert (∀ m : gmap ID Address, ¬ (0 < size m)%nat → m = ∅) as Hemp.
  { intros m Hm. apply map_size_empty_inv. lia. }
  unfold diffEvents, len. apply map_eq. intros id.
  repeat case_bool_decide; simpl; autorewrite with linkerd; try done;
    repeat match goal with H : ¬ (0 < _)%nat |- _ => apply Hemp in H; rewrite H end;
    by rewrite ?lookup_empty.
Qed.

Lemma agrees_refl m : agrees m m.
Proof. intros id. destruct (m !! id); constructor. apply rtc_refl. Qed.

Lemma agrees_empty_l v : agrees v ∅ → v = ∅.
Proof.
  intros H. apply map_eq. intros id. specialize (H id). rewrite lookup_empty in *.
  by inversion H.
Qed.

Lemma agrees_dom v m : agrees v m → dom v = dom m.
Proof.
  intros H. apply set_eq. intros id. rewrite !elem_of_dom. specialize (H id).
  split; intros [x Hx]; rewrite Hx in H; inversion H; by eexists.
Qed.

(** Sending the removed and then the added addresses keeps a view in agreement. *)
Lemma agrees_diff v old new :
  agrees v (Addresses old) →
  agrees (map_assign (Addresses (diffAddresses old new).1.1)
           (map_remove (Addresses (diffAddresses old new).1.2) v))
         (Addresses (diffAddresses old new).2).
Proof.
  intros Hv id. specialize (Hv id).
  rewrite lookup_map_assign, lookup_map_remove, lookup_diff_add, lookup_diff_remove, lookup_diff_new.
  destruct (Addresses new !! id) as [n|]; simpl.
  - destruct (Addresses old !! id) as [o|]; [|constructor; apply rtc_refl].
    destruct (addressChanged o n) eqn:Hc; [constructor; apply rtc_refl|].
    inversion Hv as [a o' Ha|]; subst. constructor.
    eapply rtc_r; [done|]. by apply unchanged_afterCompare.
  - destruct (Addresses old !! id); simpl; [constructor|]. by inversion Hv.
Qed.

Lemma agrees_remove v m s :
  agrees v m → agrees (map_remove s v) (map_remove s m).
Proof.
  intros H id. rewrite !lookup_map_remove. destruct (s !! id); [constructor | apply H].
Qed.

(** Sending a whole set over a view with the same IDs gives that set. *)
Lemma agrees_assign v m m' :
  agrees v m → (∀ id, is_Some (m !! id) → is_Some (m' !! id)) → map_assign m' v = m'.
Proof.
  intros H Hd. apply map_eq. intros id. rewrite lookup_map_assign.
  destruct (m' !! id) eqn:E; [done|]. specialize (H id). specialize (Hd id).
  destruct (m !! id); [|by inversion H]. destruct (Hd ltac:(done)). congruence.
Qed.

(** What every operation must guarantee: the subscribers are kept, a missing service
    stays without addresses, and each subscriber's view stays in agreement. *)
Definition op_ok (pp : portPublisher) (r : portPublisher * events) : Prop :=
  listeners r.1 = listeners pp
  ∧ (pp_wf pp → pp_wf r.1)
  ∧ ∀ l v, NoDup (listeners pp) → l ∈ listeners pp → in_sync v pp →
      in_sync (view_events v (events_of l r.2)) r.1.

(** The shape shared by the operations that replace the addresses and notify all. *)
Lemma op_ok_notify pp pp' evs :
  listeners pp' = listeners pp → (pp_wf pp → pp_wf pp') →
  (∀ v, in_sync v pp → in_sync (view_events v evs) pp') →
  op_ok pp (pp', notify pp evs).
Proof.
  intros Hl Hwf Hs. split_and!; [done..|]. intros l v Hnd Hin Hv. simpl.
  rewrite events_of_notify by done. by apply Hs.
Qed.

Lemma op_ok_silent pp pp' :
  listeners pp' = listeners pp → (pp_wf pp → pp_wf pp') →
  (∀ v, in_sync v pp → in_sync v pp') → op_ok pp (pp', []).
Proof. intros Hl Hwf Hs. split_and!; [done..|]. intros l v _ _ Hv. by apply Hs. Qed.

Lemma updateEndpoints_ok api pp eps : op_ok pp (updateEndpoints api pp eps).
Proof.
  unfold updateEndpoints. case_bool_decide as Hlen.
  - apply op_ok_notify; [done|done|]. intros v _. apply map_size_empty_inv in Hlen.
    unfold in_sync. change (agrees ∅ (Addresses (endpointsToAddresses api pp eps))).
    rewrite Hlen. apply agrees_refl.
  - apply op_ok_notify; [done|done|]. intros v Hv. rewrite view_diffEvents. by apply agrees_diff.
Qed.

(** An addition removes nothing: the old addresses are all kept. *)
Lemma addEndpointSlice_remove_nil old m l b :
  Addresses (diffAddresses old (mkAddressSet (map_assign m (Addresses old)) l b)).1.2 = ∅.
Proof.
  apply map_eq. intros id. rewrite lookup_diff_remove, lookup_empty. simpl.
  rewrite lookup_map_assign. destruct (m !! id); [done|]. by destruct (Addresses old !! id).
Qed.

Lemma addEndpointSlice_ok api pp es : op_ok pp (addEndpointSlice api pp es).
Proof.
  unfold addEndpointSlice.
  set (new := mkAddressSet _ _ _).
  pose proof (addEndpointSlice_remove_nil (addresses pp)
    (Addresses (endpointSliceToAddresses api pp es)) (Labels (endpointSliceToAddresses api pp es))
    (LocalTrafficPolicy (endpointSliceToAddresses api pp es))) as Hrem.
  fold new in Hrem.
  assert (∀ v, in_sync v pp → agrees (map_assign (Addresses (diffAddresses (addresses pp) new).1.1) v)
      (Addresses (diffAddresses (addresses pp) new).2)) as Hagr.
  { intros v Hv. apply (agrees_diff _ _ new) in Hv. rewrite Hrem in Hv.
    unfold map_remove in Hv. by rewrite map_difference_empty in Hv. }
  destruct (diffAddresses (addresses pp) new) as [[add rem] new'] eqn:E. simpl in *.
  case_bool_decide as Hlen.
  - apply op_ok_notify; [done|done|]. exact Hagr.
  - apply op_ok_silent; [done|done|]. intros v Hv. specialize (Hagr v Hv).
    unfold len in Hlen. replace (Addresses add) with (∅ : gmap ID Address) in Hagr.
    + unfold map_assign in Hagr. by rewrite (left_id_L ∅ (∪)) in Hagr.
    + symmetry. apply map_size_empty_inv. lia.
Qed.

Lemma updateEndpointSlice_ok api pp es1 es2 : op_ok pp (updateEndpointSlice api pp es1 es2).
Proof.
  unfold updateEndpointSlice. set (new := mkAddressSet _ _ _).
  destruct (diffAddresses (addresses pp) new) as [[add rem] new'] eqn:E.
  apply op_ok_notify; [done|done|]. intros v Hv. rewrite view_diffEvents.
  apply (agrees_diff _ _ new) in Hv. by rewrite E in Hv.
Qed.

Lemma noEndpoints_ok pp e : op_ok pp (noEndpoints pp e).
Proof. apply op_ok_notify; [done|done|]. intros v _. apply agrees_refl. Qed.

Lemma deleteEndpointSlice_ok api pp es : op_ok pp (deleteEndpointSlice api pp es).
Proof.
  unfold deleteEndpointSlice. case_bool_decide as Hlen.
  - simpl. split_and!; [done|done|]. intros l v Hnd Hin Hv. simpl.
    rewrite events_of_app, !events_of_notify by done. apply agrees_refl.
  - apply op_ok_notify; [done|done|]. intros v Hv. by apply agrees_remove.
Qed.

(** Sending the whole set brings every view back in line. *)
Lemma op_ok_resend pp pp' a :
  listeners pp' = listeners pp → (pp_wf pp → pp_wf pp') →
  Addresses (addresses pp') = Addresses a →
  (∀ id, is_Some (Addresses (addresses pp) !! id) → is_Some (Addresses a !! id)) →
  op_ok pp (pp', notify pp [Add (shallowCopy a)]).
Proof.
  intros Hl Hwf Ha Hdom. apply op_ok_notify; [done..|]. intros v Hv.
  unfold in_sync. rewrite Ha. rewrite shallowCopy_id. simpl.
  rewrite (agrees_assign v _ _ Hv Hdom). apply agrees_refl.
Qed.

Lemma updateLocalTrafficPolicy_ok pp b : op_ok pp (updateLocalTrafficPolicy pp b).
Proof. by apply op_ok_resend. Qed.

Lemma updateServer_ok api pp s1 s2 : op_ok pp (updateServer api pp s1 s2).
Proof.
  unfold updateServer. case_bool_decide; [by apply op_ok_silent|].
  apply op_ok_resend; [done| |done|].
  - unfold pp_wf. simpl. intros Hwf He. by rewrite (Hwf He), fmap_empty.
  - intros id. simpl. rewrite lookup_fmap, fmap_is_Some. done.
Qed.

Lemma updatePort_endpoints_ok api pp tp :
  enableEndpointSlices pp = false → op_ok pp (updatePort api pp tp).
Proof.
  intros He. unfold updatePort. simpl. rewrite He.
  destruct (api_Endpoints api _ _); [|by apply op_ok_silent].
  apply (updateEndpoints_ok api (set_targetPort tp pp)).
Qed.

#[export] Hint Resolve updateEndpoints_ok addEndpointSlice_ok updateEndpointSlice_ok
  noEndpoints_ok deleteEndpointSlice_ok updateLocalTrafficPolicy_ok updateServer_ok
  updatePort_endpoints_ok : linkerd.

Lemma pp_op_ok pp r : pp_op pp r → op_ok pp r.
Proof. destruct 1; auto with linkerd. Qed.

Lemma sys_inv_op pp views pp' evs :
  sys_inv (mkSystem pp views) → op_ok pp (pp', evs) → sys_inv (mkSystem pp' (deliver evs views)).
Proof.
  intros (Hwf & Hnd & Hdom & Hs) (Hl & Hwf' & Hs'). unfold sys_inv in *; simpl in *.
  rewrite Hl. split_and!; [by apply Hwf'|done| |].
  - intros l. unfold deliver. rewrite map_lookup_imap, <-Hdom.
    destruct (views !! l); simpl; split; intros [? ?]; by eexists.
  - intros l v. unfold deliver. rewrite map_lookup_imap.
    destruct (views !! l) as [v0|] eqn:Hv; [|done]. intros [= <-].
    apply Hs'; [done|apply Hdom; by eexists|by eapply Hs].
Qed.

Lemma sys_inv_unsubscribe pp views l :
  sys_inv (mkSystem pp views) → sys_inv (mkSystem (unsubscribe pp l) (delete l views)).
Proof.
  intros (Hwf & Hnd & Hdom & Hs). unfold sys_inv in *; simpl in *.
  destruct (swap_remove_NoDup l (listeners pp) Hnd) as [Hnd' Hel]. split_and!; [done|done| |].
  - intros l'. rewrite lookup_delete_is_Some, Hdom, Hel. naive_solver.
  - intros l' v. rewrite lookup_delete_Some. intros [_ Hv]. by eapply Hs.
Qed.

Lemma subscribe_view pp l :
  pp_wf pp → in_sync (view_events ∅ (events_of l (subscribe pp l).2)) (subscribe pp l).1.
Proof.
  intros Hwf. unfold in_sync, subscribe, events_of, proj_at. cbn [fst snd].
  rewrite filter_cons_True by done. simpl. destruct (exists_ pp) eqn:He.
  - case_bool_decide as Hlen; simpl; [rewrite !map_assign_empty; apply agrees_refl|].
    replace (Addresses (addresses pp)) with (∅ : gmap ID Address); [apply agrees_refl|].
    symmetry. apply map_size_empty_inv. unfold len in Hlen. lia.
  - rewrite (Hwf He). apply agrees_refl.
Qed.

Lemma subscribe_others pp l l' : l' ≠ l → events_of l' (subscribe pp l).2 = [].
Proof.
  intros Hne. unfold subscribe, events_of, proj_at. cbn [snd].
  by rewrite filter_cons_False by (simpl; congruence).
Qed.

Lemma sys_inv_subscribe pp views l pp' evs :
  sys_inv (mkSystem pp views) → views !! l = None → subscribe pp l = (pp', evs) →
  sys_inv (mkSystem pp' (deliver evs (<[l := ∅]> views))).
Proof.
  intros (Hwf & Hnd & Hdom & Hs) Hl Hsub. unfold sys_inv in *; simpl in *.
  pose proof (subscribe_view pp l Hwf) as Hv. pose proof (λ l', subscribe_others pp l l') as Ho.
  rewrite Hsub in Hv, Ho. simpl in *. injection Hsub as <- _. simpl.
  assert (l ∉ listeners pp) as Hni. { rewrite <-Hdom, Hl. by intros [? ?]. }
  split_and!.
  - done.
  - apply NoDup_app. split_and!; [done|set_solver|apply NoDup_singleton].
  - intros l'. unfold deliver. rewrite map_lookup_imap, elem_of_app, list_elem_of_singleton, <-Hdom.
    destruct (decide (l' = l)) as [->|].
    + rewrite lookup_insert_eq. naive_solver.
    + rewrite lookup_insert_ne by done.
      destruct (views !! l'); simpl; split; try naive_solver; intros [[? ?]|]; naive_solver.
  - intros l' v. unfold deliver. rewrite map_lookup_imap. destruct (decide (l' = l)) as [->|].
    + rewrite lookup_insert_eq. by intros [= <-].
    + rewrite lookup_insert_ne by done. destruct (views !! l') eqn:Hv'; [|done]. simpl.
      rewrite Ho by done. intros [= <-]. by eapply Hs.
Qed.

Lemma sys_step_inv s s' : sys_inv s → sys_step s s' → sys_inv s'.
Proof.
  intros Hinv Hstep. destruct Hstep as [pp views pp' evs Hop|pp views l pp' evs Hl Hsub|pp views l].
  - eapply sys_inv_op; [done|by apply pp_op_ok].
  - by eapply sys_inv_subscribe.
  - by apply sys_inv_unsubscribe.
Qed.

Lemma sys_init_inv s : sys_init s → sys_inv s.
Proof.
  destruct s as [pp views]. intros (Hwf & Hl & Hv). simpl in *. subst views.
  unfold sys_inv; simpl. rewrite Hl. split_and!; [done|constructor| |].
  - intros l. rewrite lookup_empty. split; [by intros [? ?]|by intros ?%not_elem_of_nil].
  - intros l v. by rewrite lookup_empty.
Qed.

(** * Lemmas on the conversion of slices *)
Lemma elem_of_assignAll l id a : assignAll l !! id = Some a → (id, a) ∈ l.
Proof.
  unfold assignAll.
  assert (∀ m : gmap ID Address, foldl (λ m e, <[e.1 := e.2]> m) m l !! id = Some a →
    (id, a) ∈ l ∨ m !! id = Some a) as H.
  { induction l as [|[i b] l IH]; intros m; simpl; [by right|]. intros [?|Hm]%IH; [set_solver|].
    rewrite lookup_insert in Hm. case_decide as Hd; [|by right].
    injection Hm as ->. left. rewrite Hd. set_solver. }
  intros [?|Hm]%H; [done|]. by rewrite lookup_empty in Hm.
Qed.

(** The references of a slice to external workloads stay in its namespace. *)
Definition local_refs (es : EndpointSlice) : Prop :=
  ∀ e ref, e ∈ sl_Endpoints es → e_TargetRef e = Some ref →
    ref_Kind ref = "ExternalWorkload" → ref_Namespace ref = sl_Namespace es.

Lemma newPodRefAddress_ID api p fam ip n ns a id :
  newPodRefAddress api p fam ip n ns = Some (a, id) → id = mkID ns n fam.
Proof.
  unfold newPodRefAddress. intros (pod & _ & H)%bind_Some.
  apply bind_Some in H as ([k o] & _ & [= _ <-]). done.
Qed.

Lemma newExtRefAddress_ID api p ip n ns a id :
  newExtRefAddress api p ip n ns = Some (a, id) → id = mkID ns n "".
Proof. unfold newExtRefAddress. intros (ew & _ & [= _ <-])%bind_Some. done. Qed.

(** Every entry of an endpoint has one of the IDs that [endpointSliceToIDs] lists. *)
Lemma sliceEndpoint_IDs api pp es sn port e id a :
  local_refs es → e ∈ sl_Endpoints es →
  (id, a) ∈ sliceEndpointAddresses api pp es sn port e →
  id ∈ sliceEndpointIDs pp es sn port e.
Proof.
  intros Hloc He. unfold sliceEndpointAddresses, sliceEndpointIDs.
  destruct (skipEndpoint pp e); [by intros ?%not_elem_of_nil|]. destruct (e_TargetRef e) as [ref|] eqn:Href.
  - repeat case_bool_decide; [| |by intros ?%not_elem_of_nil];
      intros (ip & _ & Hip)%list_elem_of_omap;
      apply bind_Some in Hip as ([a' id'] & Hnew & Hip);
      apply bind_Some in Hip as (a'' & _ & [= <- <-]).
    + apply newPodRefAddress_ID in Hnew as ->. set_solver.
    + apply newExtRefAddress_ID in Hnew as ->. rewrite (Hloc e ref) by done. set_solver.
  - intros (ip & [= -> ->] & Hip)%list_elem_of_fmap. apply list_elem_of_fmap. eauto.
Qed.

Lemma lookup_deleteAll (ids : list ID) (m : gmap ID Address) id :
  foldl (λ m id, delete id m) m ids !! id = if decide (id ∈ ids) then None else m !! id.
Proof.
  revert m. induction ids as [|i ids IH]; intros m; [done|]. simpl. rewrite IH.
  destruct (decide (id ∈ ids)).
  - by rewrite decide_True by set_solver.
  - destruct (decide (i = id)) as [->|].
    + rewrite lookup_delete_eq, decide_True by set_solver. done.
    + rewrite lookup_delete_ne, decide_False by set_solver. done.
Qed.

(** * Properties *)

(** every subscriber of a port publisher is kept up to date.  After any sequence of
    endpoint, slice, service and server events, subscriptions and unsubscriptions, the
    address set a subscriber has accumulated from the calls it received has exactly the
    IDs of the publisher, and for each ID the same identity and zone hints; what is held
    for an ID differs from the publisher's address only by comparisons that reported no
    change. *)
Theorem publisher_views_in_sync s0 s l v :
  sys_init s0 → rtc sys_step s0 s → sys_views s !! l = Some v →
  dom v = dom (Addresses (addresses (sys_pp s))) ∧
  ∀ id a b, v !! id = Some a → Addresses (addresses (sys_pp s)) !! id = Some b →
    synced a b ∧ Identity a = Identity b ∧ zones a ≡ₚ zones b.
Proof.
  intros Hinit%sys_init_inv Hsteps Hv.
  assert (sys_inv s) as (_ & _ & _ & Hs) by (induction Hsteps; eauto using sys_step_inv).
  specialize (Hs l v Hv). split.
  - by apply agrees_dom.
  - intros id a b Ha Hb. specialize (Hs id). rewrite Ha, Hb in Hs. inversion Hs; subst.
    split; [done|by apply synced_Identity].
Qed.

(** A publisher for port 80 and a slice with two addresses and no target. *)
Definition ex_api : API := mkAPI (λ _ _, None) (λ _ _, None) (λ _ _, Some []) (λ _ _, None)
  (λ _ _, None) (Some []) (λ _, None) (λ _, None).
Definition ex_pp : portPublisher :=
  mkPortPublisher zeroID (FromInt 80) 80 "" true false emptySet [] false.
Definition ex_slice : EndpointSlice := mkEndpointSlice "s1" "ns" {[LabelServiceName := "svc"]} ∅ []
  "IPv4" [mkEndpoint ["10.0.0.1"; "10.0.0.2"] None None None None None None None]
  (Some []) false "" 0.
Definition ex_sys0 : system := mkSystem ex_pp ∅.
Definition ex_sys1 : system :=
  mkSystem (subscribe ex_pp 7).1 (deliver (subscribe ex_pp 7).2 {[7%nat := ∅]}).
Definition ex_sys2 : system :=
  mkSystem (addEndpointSlice ex_api (sys_pp ex_sys1) ex_slice).1
    (deliver (addEndpointSlice ex_api (sys_pp ex_sys1) ex_slice).2 (sys_views ex_sys1)).

Lemma publisher_views_in_sync_witness :
  size (default ∅ (sys_views ex_sys2 !! 7%nat)) = 2%nat ∧
  dom (default ∅ (sys_views ex_sys2 !! 7%nat)) = dom (Addresses (addresses (sys_pp ex_sys2))).
Proof.
  split; [vm_compute; reflexivity|].
  refine (proj1 (publisher_views_in_sync ex_sys0 ex_sys2 7 _ _ _ _)).
  - split_and!; [done|reflexivity|reflexivity].
  - eapply rtc_l; [|eapply rtc_once].
    + apply (step_subscribe ex_pp ∅ 7); [apply lookup_empty|reflexivity].
    + apply (step_op (sys_pp ex_sys1) (sys_views ex_sys1)).
      rewrite <-surjective_pairing. apply op_addEndpointSlice.
  - apply Some_default. vm_compute. reflexivity.
Defined.

(** A slice all of whose endpoints refer to pods that the cache does not know. *)
Definition pods_gone (api : API) (es : EndpointSlice) : Prop :=
  ∀ e, e ∈ sl_Endpoints es → ∃ ref, e_TargetRef e = Some ref ∧ ref_Kind ref = "Pod"
    ∧ api_Pod api (ref_Namespace ref) (ref_Name ref) = None.

Lemma endpointSliceToAddresses_gone api pp es :
  pods_gone api es → Addresses (endpointSliceToAddresses api pp es) = ∅.
Proof.
  intros Hgone. apply map_eq. intros id. rewrite lookup_empty. apply eq_None_not_Some.
  intros [a Ha]. unfold endpointSliceToAddresses in Ha.
  case_bool_decide; simpl in Ha; [by rewrite lookup_empty in Ha|].
  apply elem_of_assignAll, list_elem_of_bind in Ha as (e & Hin & He).
  destruct (Hgone e He) as (ref & Hr & Hk & Hp). unfold sliceEndpointAddresses in Hin.
  destruct (skipEndpoint pp e); [by apply not_elem_of_nil in Hin|].
  rewrite Hr, bool_decide_true in Hin by done.
  apply list_elem_of_omap in Hin as (ip & _ & Hip). unfold newPodRefAddress in Hip.
  simpl in Hip. by rewrite Hp in Hip.
Qed.

(** the deletion of a slice removes the addresses recomputed from the pod cache, not
    the ones recorded for it: when the pods of the slice have already left the cache, the
    publisher keeps every address it had (here: a publisher that has at least one). *)
Theorem deleteEndpointSlice_keeps_gone api pp es :
  pods_gone api es → Addresses (addresses pp) ≠ ∅ →
  Addresses (addresses (deleteEndpointSlice api pp es).1) = Addresses (addresses pp).
Proof.
  intros Hgone Hne. unfold deleteEndpointSlice.
  rewrite (endpointSliceToAddresses_gone _ _ _ Hgone). unfold map_remove. simpl.
  rewrite map_difference_empty. case_bool_decide as Hl; [|done].
  unfold len in Hl. simpl in Hl. by apply map_size_empty_inv in Hl.
Qed.

Definition ex_podref (n : string) : ObjectReference := mkObjectReference "Pod" "ns" n "".
Definition ex_pod_slice : EndpointSlice := mkEndpointSlice "s2" "ns" {[LabelServiceName := "svc"]} ∅ []
  "IPv4" [mkEndpoint ["10.0.0.9"] None None None None (Some (ex_podref "p1")) None None]
  (Some []) false "" 0.
Definition ex_pod (n rv : string) : Pod := mkPod n "ns" rv ∅ ∅ "" "" false [] [] PodRunning
  "10.0.0.9" [] "" [] false.
(** The caches before the pod [p1] is deleted. *)
Definition ex_api_pod : API := mkAPI (λ _ _, None) (λ _ _, None) (λ _ _, Some [])
  (λ _ n, if bool_decide (n = "p1") then Some (ex_pod n "1") else None)
  (λ _ _, None) (Some []) (λ _, Some ("deployment", "web")) (λ _, None).

Lemma deleteEndpointSlice_keeps_gone_witness :
  let pp := (addEndpointSlice ex_api_pod ex_pp ex_pod_slice).1 in
  size (Addresses (addresses (deleteEndpointSlice ex_api_pod pp ex_pod_slice).1)) = 0%nat ∧
  size (Addresses (addresses (deleteEndpointSlice ex_api pp ex_pod_slice).1)) = 1%nat.
Proof.
  split; [vm_compute; reflexivity|].
  rewrite deleteEndpointSlice_keeps_gone; [vm_compute; reflexivity| |].
  - intros e ->%list_elem_of_singleton. exists (ex_podref "p1"). done.
  - apply map_size_non_empty_iff. vm_compute. discriminate.
Defined.

(** * The slices of a service and the addresses of its publisher

    The abstract state is the set of slices the informer has reported, by name. *)
Abbreviation slices := (gmap string EndpointSlice).

(** Slices of one service do not list the same endpoint twice. *)
Definition slices_wf (pp : portPublisher) (ss : slices) : Prop :=
  (∀ n es, ss !! n = Some es → local_refs es) ∧
  (∀ n1 n2 es1 es2 id, n1 ≠ n2 → ss !! n1 = Some es1 → ss !! n2 = Some es2 →
     id ∈ endpointSliceToIDs pp es1 → id ∉ endpointSliceToIDs pp es2).

(** The publisher has the addresses of the slices and no others. *)
Definition represents (api : API) (pp : portPublisher) (ss : slices) : Prop :=
  ∀ id, is_Some (Addresses (addresses pp) !! id) ↔
    ∃ n es, ss !! n = Some es ∧ is_Some (Addresses (endpointSliceToAddresses api pp es) !! id).

Inductive slice_step (api : API) : portPublisher * slices → portPublisher * slices → Prop :=
  | slice_add pp ss n es :
      ss !! n = None → slices_wf pp (<[n := es]> ss) →
      slice_step api (pp, ss) ((addEndpointSlice api pp es).1, <[n := es]> ss)
  | slice_update pp ss n es es' :
      ss !! n = Some es → slices_wf pp (<[n := es']> ss) →
      slice_step api (pp, ss) ((updateEndpointSlice api pp es es').1, <[n := es']> ss)
  | slice_delete pp ss n es :
      ss !! n = Some es →
      slice_step api (pp, ss) ((deleteEndpointSlice api pp es).1, delete n ss).

(** The conversion of slices reads only the configuration of the publisher. *)
Definition pp_config (pp : portPublisher) : IntOrString * Z * string * bool :=
  (targetPort pp, srcPort pp, hostname pp, localTrafficPolicy pp).

Lemma endpointSliceToAddresses_config api pp pp' es :
  pp_config pp' = pp_config pp → endpointSliceToAddresses api pp' es = endpointSliceToAddresses api pp es.
Proof. destruct pp, pp'. intros [= -> -> -> ->]. reflexivity. Qed.

Lemma endpointSliceToIDs_config pp pp' es :
  pp_config pp' = pp_config pp → endpointSliceToIDs pp' es = endpointSliceToIDs pp es.
Proof. destruct pp, pp'. intros [= -> -> -> ->]. reflexivity. Qed.

Lemma slices_wf_config pp pp' ss : pp_config pp' = pp_config pp → slices_wf pp ss → slices_wf pp' ss.
Proof.
  intros Hc [Hl Hd]. split; [done|]. intros n1 n2 es1 es2 id.
  rewrite !(endpointSliceToIDs_config pp pp') by done. apply Hd.
Qed.

Lemma represents_config api pp pp' ss :
  pp_config pp' = pp_config pp →
  (∀ id, is_Some (Addresses (addresses pp') !! id) ↔ ∃ n es, ss !! n = Some es ∧
     is_Some (Addresses (endpointSliceToAddresses api pp es) !! id)) → represents api pp' ss.
Proof.
  intros Hc H id. rewrite H. by setoid_rewrite (endpointSliceToAddresses_config api pp pp' _ Hc).
Qed.

Lemma slice_IDs_complete api pp es id :
  local_refs es → is_Some (Addresses (endpointSliceToAddresses api pp es) !! id) →
  id ∈ endpointSliceToIDs pp es.
Proof.
  intros Hloc [a Ha]. unfold endpointSliceToAddresses in Ha. unfold endpointSliceToIDs.
  case_bool_decide; simpl in Ha; [by rewrite lookup_empty in Ha|].
  apply elem_of_assignAll, list_elem_of_bind in Ha as (e & He & Hin).
  apply list_elem_of_bind. exists e. split; [|done]. by eapply sliceEndpoint_IDs.
Qed.

Lemma addEndpointSlice_lookup api pp es id :
  is_Some (Addresses (addresses (addEndpointSlice api pp es).1) !! id) ↔
    is_Some (Addresses (endpointSliceToAddresses api pp es) !! id)
    ∨ is_Some (Addresses (addresses pp) !! id).
Proof.
  unfold addEndpointSlice. set (u := mkAddressSet _ _ _).
  pose proof (diff_new_dom (addresses pp) u) as Hd.
  destruct (diffAddresses (addresses pp) u) as [[add rem] new']. simpl in *.
  rewrite <-elem_of_dom, Hd, elem_of_dom. unfold u. simpl. rewrite lookup_map_assign.
  destruct (Addresses (endpointSliceToAddresses api pp es) !! id); [naive_solver|].
  split; [by right|]. by intros [[? ?]|?].
Qed.

Lemma updateEndpointSlice_lookup api pp old new id :
  is_Some (Addresses (addresses (updateEndpointSlice api pp old new).1) !! id) ↔
    is_Some (Addresses (endpointSliceToAddresses api pp new) !! id)
    ∨ (is_Some (Addresses (addresses pp) !! id) ∧ id ∉ endpointSliceToIDs pp old).
Proof.
  unfold updateEndpointSlice. set (u := mkAddressSet _ _ _).
  pose proof (diff_new_dom (addresses pp) u) as Hd.
  destruct (diffAddresses (addresses pp) u) as [[add rem] new']. simpl in *.
  rewrite <-elem_of_dom, Hd, elem_of_dom. unfold u. simpl.
  rewrite lookup_map_assign, lookup_deleteAll.
  destruct (Addresses (endpointSliceToAddresses api pp new) !! id); [naive_solver|].
  case_decide; naive_solver eauto using is_Some_None.
Qed.

Lemma deleteEndpointSlice_lookup api pp es id :
  is_Some (Addresses (addresses (deleteEndpointSlice api pp es).1) !! id) ↔
    is_Some (Addresses (addresses pp) !! id)
    ∧ ¬ is_Some (Addresses (endpointSliceToAddresses api pp es) !! id).
Proof.
  assert (∀ m s : gmap ID Address, is_Some (map_remove s m !! id) ↔
    is_Some (m !! id) ∧ ¬ is_Some (s !! id)) as H.
  { intros m s. rewrite lookup_map_remove. destruct (s !! id); [|naive_solver].
    split; [by intros [? ?]|]. intros [_ []]. by eexists. }
  rewrite <-H. unfold deleteEndpointSlice. case_bool_decide as Hl; [|done].
  unfold len in Hl. apply map_size_empty_inv in Hl. simpl in *. rewrite Hl. by rewrite lookup_empty.
Qed.

Lemma slice_step_config api s s' : slice_step api s s' → pp_config s'.1 = pp_config s.1.
Proof.
  destruct 1; simpl; try done. unfold deleteEndpointSlice. by case_bool_decide.
Qed.

Arguments addEndpointSlice : simpl never.
Arguments updateEndpointSlice : simpl never.
Arguments deleteEndpointSlice : simpl never.

Lemma slice_step_represents api s s' :
  slices_wf s.1 s.2 → represents api s.1 s.2 → slice_step api s s' →
  slices_wf s'.1 s'.2 ∧ represents api s'.1 s'.2.
Proof.
  intros Hwf Hrep Hstep. pose proof (slice_step_config _ _ _ Hstep) as Hc.
  destruct Hstep as [pp ss n es Hn Hwf'|pp ss n es es' Hn Hwf'|pp ss n es Hn];
    cbn [fst snd] in *;
    (split; [apply (slices_wf_config pp); [done|]|apply (represents_config api pp); [done|]]).
  - done.
  - intros id. rewrite addEndpointSlice_lookup, (Hrep id). split.
    + intros [?|(n' & es' & ? & ?)]; [exists n, es; by rewrite lookup_insert_eq|].
      exists n', es'. rewrite lookup_insert_ne by congruence. done.
    + intros (n' & es' & Hl & ?). apply lookup_insert_Some in Hl as [[<- <-]|[? ?]]; [by left|].
      right. eauto.
  - done.
  - intros id. rewrite updateEndpointSlice_lookup, (Hrep id). destruct Hwf as [Hloc Hdis]. split.
    + intros [?|[(n' & es1 & Hn' & Ha) Hni]]; [exists n, es'; by rewrite lookup_insert_eq|].
      exists n', es1. rewrite lookup_insert_ne; [done|]. intros <-.
      rewrite Hn in Hn'. injection Hn' as <-. destruct Hni. by eapply slice_IDs_complete; eauto.
    + intros (n' & es1 & Hl & Ha). apply lookup_insert_Some in Hl as [[<- <-]|[Hne Hl]]; [by left|].
      right. split; [by eauto|]. apply (Hdis n' n es1); try done.
      by eapply slice_IDs_complete; eauto.
  - destruct Hwf as [Hloc Hdis]. split.
    + intros n' es' [_ ?]%lookup_delete_Some. eauto.
    + intros n1 n2 es1 es2 id ? [_ ?]%lookup_delete_Some [_ ?]%lookup_delete_Some. by eapply Hdis.
  - intros id. rewrite deleteEndpointSlice_lookup, (Hrep id). destruct Hwf as [Hloc Hdis]. split.
    + intros [(n' & es1 & Hn' & Ha) Hni]. exists n', es1. rewrite lookup_delete_ne; [done|].
      intros <-. rewrite Hn in Hn'. by injection Hn' as <-.
    + intros (n' & es1 & [Hne Hl]%lookup_delete_Some & Ha). split; [by eauto|]. intros Ha'.
      apply (Hdis n' n es1 es id); try done; eapply slice_IDs_complete; eauto.
Qed.

(** an update of a slice replaces exactly the addresses of the old slice by those of
    the new one: afterwards the publisher has the IDs it had, less every ID the old slice
    lists, plus the addresses of the new slice.  For a slice whose workload references are
    local, the IDs listed for it include those of all addresses it can produce, whatever
    the state of the pod cache. *)
Theorem updateEndpointSlice_replaces api pp old new :
  dom (Addresses (addresses (updateEndpointSlice api pp old new).1))
    = (dom (Addresses (addresses pp)) ∖ list_to_set (endpointSliceToIDs pp old))
      ∪ dom (Addresses (endpointSliceToAddresses api pp new))
  ∧ (∀ api', local_refs old →
       dom (Addresses (endpointSliceToAddresses api' pp old))
         ⊆ (list_to_set (endpointSliceToIDs pp old) : gset ID)).
Proof.
  split.
  - apply set_eq. intros id. rewrite elem_of_union, elem_of_difference, elem_of_list_to_set,
      !elem_of_dom, updateEndpointSlice_lookup. tauto.
  - intros api' Hloc id ?%elem_of_dom. rewrite elem_of_list_to_set. by eapply slice_IDs_complete.
Qed.


Definition ex_pp1 : portPublisher := (addEndpointSlice ex_api ex_pp ex_slice).1.

