(* ===== verification/EndpointsWatcher.v ===== *)
(** [EndpointsWatcher] and [servicePublisher] of [watcher/endpoints_watcher.go]: the
    registry of the port publishers of all watched services, and the informer handlers
    that drive them.

    An event of the watcher is a call on the listener [l] of one subscription, tagged
    with the service, the port and hostname it subscribed to. *)
From S2P Require Import Prelude GoStd K8s Addresses PortPublisher.

#[local] Open Scope string_scope.
#[local] Open Scope list_scope.
#[local] Open Scope Z_scope.

(** * State *)
(** [portAndHostname] *)
Abbreviation portAndHostname := (Z * string)%type.

Record servicePublisher := mkServicePublisher {
  sp_id : ID; sp_enableEndpointSlices : bool; sp_localTrafficPolicy : bool;
  ports : gmap portAndHostname portPublisher }.

Record EndpointsWatcher := mkEndpointsWatcher {
  publishers : gmap ID servicePublisher; ew_enableEndpointSlices : bool }.

Definition set_ports (p : gmap portAndHostname portPublisher) (sp : servicePublisher) :=
  mkServicePublisher (sp_id sp) (sp_enableEndpointSlices sp) (sp_localTrafficPolicy sp) p.
Definition set_publishers (p : gmap ID servicePublisher) (ew : EndpointsWatcher) :=
  mkEndpointsWatcher p (ew_enableEndpointSlices ew).

Definition NewEndpointsWatcher (enableEndpointSlices : bool) : EndpointsWatcher :=
  mkEndpointsWatcher ∅ enableEndpointSlices.

(** The calls on the listeners of a service publisher, and of the watcher. *)
Abbreviation sp_events := (list (portAndHostname * (nat * ListenerEvent))).
Abbreviation ew_events := (list (ID * (portAndHostname * (nat * ListenerEvent)))).

(** The object of a deletion handler: the resource, a [DeletedFinalStateUnknown] that
    holds it or something else, or another type. *)
Inductive deletedObj (A : Type) :=
  | DeletedObj (a : A)
  | DeletedFinalStateUnknown (Obj : option A)
  | DeletedOther.
Arguments DeletedObj {A} a.
Arguments DeletedFinalStateUnknown {A} Obj.
Arguments DeletedOther {A}.

Definition deleted {A} (obj : deletedObj A) : option A :=
  match obj with
  | DeletedObj a => Some a
  | DeletedFinalStateUnknown o => o
  | DeletedOther => None
  end.

(** * Operations of servicePublisher *)
(** [for key, port := range sp.ports { ... }]: each port publisher is updated by [f]. *)
Definition for_ports `{!MapRange} (f : portAndHostname → portPublisher → portPublisher * events)
    (sp : servicePublisher) : servicePublisher * sp_events :=
  (set_ports (map_imap (λ k pp, Some (f k pp).1) (ports sp)) sp,
   range (ports sp) ≫= λ e, pair e.1 <$> (f e.1 e.2).2).

Module ServicePublisher.
Section operations.
Context (api : API) `{!MapRange}.

Definition updateEndpoints (sp : servicePublisher) (newEndpoints : Endpoints) :=
  for_ports (λ _ port, updateEndpoints api port newEndpoints) sp.

Definition deleteEndpoints (sp : servicePublisher) :=
  for_ports (λ _ port, noEndpoints port false) sp.

Definition addEndpointSlice (sp : servicePublisher) (newSlice : EndpointSlice) :=
  for_ports (λ _ port, addEndpointSlice api port newSlice) sp.

Definition updateEndpointSlice (sp : servicePublisher) (oldSlice newSlice : EndpointSlice) :=
  for_ports (λ _ port, updateEndpointSlice api port oldSlice newSlice) sp.

Definition deleteEndpointSlice (sp : servicePublisher) (es : EndpointSlice) :=
  for_ports (λ _ port, deleteEndpointSlice api port es) sp.

Definition updateServer (sp : servicePublisher) (oldServer newServer : option Server) :=
  for_ports (λ _ port, updateServer api port oldServer newServer) sp.

(** The body of the loop of [updateService]. *)
Definition updateServicePort (newService : Service) (policy : bool) (key : portAndHostname)
    (port : portPublisher) : portPublisher * events :=
  let newTargetPort := getTargetPort (Some newService) key.1 in
  let '(port, evs) :=
    if bool_decide (newTargetPort ≠ targetPort port) then updatePort api port newTargetPort
    else (port, []) in
  let '(port, evs') :=
    if bool_decide (localTrafficPolicy port ≠ policy) then updateLocalTrafficPolicy port policy
    else (port, []) in
  (port, evs ++ evs').

Definition updateService (sp : servicePublisher) (newService : Service) :=
  let policy := match svc_InternalTrafficPolicy newService with
                | Some p => bool_decide (p = ServiceInternalTrafficPolicyLocal)
                | None => false
                end in
  for_ports (updateServicePort newService policy)
    (mkServicePublisher (sp_id sp) (sp_enableEndpointSlices sp) policy (ports sp)).

(** The new publisher has no listener yet: what its initial updates would send goes to
    nobody.  The source leaves its [id] at the zero value. *)
Definition newPortPublisher (sp : servicePublisher) (srcPort : Z) (hostname : string)
    : portPublisher :=
  let svc := api_Service api (Namespace (sp_id sp)) (Name (sp_id sp)) in
  let '(targetPort, exists_) :=
    match svc with
    | Some svc => (getTargetPort (Some svc) srcPort, true)
    | None => (FromInt (i32 srcPort), false)
    end in
  let port := mkPortPublisher zeroID targetPort srcPort hostname (sp_enableEndpointSlices sp)
                exists_ emptySet [] (sp_localTrafficPolicy sp) in
  if enableEndpointSlices port then
    match api_EndpointSlices api (Namespace (sp_id sp)) (Name (sp_id sp)) with
    | Some sliceList => (foldEvents (PortPublisher.addEndpointSlice api) port sliceList).1
    | None => port
    end
  else
    match api_Endpoints api (Namespace (sp_id sp)) (Name (sp_id sp)) with
    | Some endpoints => (PortPublisher.updateEndpoints api port endpoints).1
    | None => port
    end.

Definition subscribe (sp : servicePublisher) (srcPort : Z) (hostname : string) (listener : nat)
    : servicePublisher * sp_events :=
  let key := (srcPort, hostname) in
  let port := match ports sp !! key with
              | Some port => port
              | None => newPortPublisher sp srcPort hostname
              end in
  let '(port, evs) := PortPublisher.subscribe port listener in
  (set_ports (<[key := port]> (ports sp)) sp, pair key <$> evs).

Definition unsubscribe (sp : servicePublisher) (srcPort : Z) (hostname : string) (listener : nat)
    : servicePublisher :=
  let key := (srcPort, hostname) in
  match ports sp !! key with
  | None => sp
  | Some port =>
      let port := PortPublisher.unsubscribe port listener in
      if bool_decide (length (listeners port) = 0%nat) then set_ports (delete key (ports sp)) sp
      else set_ports (<[key := port]> (ports sp)) sp
  end.
End operations.
End ServicePublisher.

(** * Operations of EndpointsWatcher *)
Module Watcher.
Section operations.
Context (api : API) `{!MapRange}.

(** The publisher of a service, created empty the first time. *)
Definition getOrNewServicePublisher (ew : EndpointsWatcher) (id : ID) : servicePublisher :=
  match publishers ew !! id with
  | Some sp => sp
  | None => mkServicePublisher id (ew_enableEndpointSlices ew) false ∅
  end.

(** Stores the result of a method of the publisher of [id]. *)
Definition put (ew : EndpointsWatcher) (id : ID) (r : servicePublisher * sp_events)
    : EndpointsWatcher * ew_events :=
  (set_publishers (<[id := r.1]> (publishers ew)) ew, pair id <$> r.2).

(** The handlers that do nothing for a service without a publisher. *)
Definition on_existing (ew : EndpointsWatcher) (id : ID)
    (f : servicePublisher → servicePublisher * sp_events) : EndpointsWatcher * ew_events :=
  match publishers ew !! id with
  | Some sp => put ew id (f sp)
  | None => (ew, [])
  end.

Definition invalidService (id : ID) : string :=
  "Invalid k8s service " +:+ Namespace id +:+ "/" +:+ Name id.

Definition Subscribe (ew : EndpointsWatcher) (id : ID) (port : Z) (hostname : string)
    (listener : nat) : res (EndpointsWatcher * ew_events) :=
  if (if api_Service api (Namespace id) (Name id) is Some svc
      then bool_decide (svc_Type svc = ServiceTypeExternalName) else false)
  then Err (invalidService id)
  else
    let sp := getOrNewServicePublisher ew id in
    Ok (put ew id (ServicePublisher.subscribe api sp port hostname listener)).

Definition Unsubscribe (ew : EndpointsWatcher) (id : ID) (port : Z) (hostname : string)
    (listener : nat) : EndpointsWatcher :=
  match publishers ew !! id with
  | None => ew
  | Some sp =>
      set_publishers (<[id := ServicePublisher.unsubscribe sp port hostname listener]>
                        (publishers ew)) ew
  end.

Definition addService (ew : EndpointsWatcher) (service : Service) :=
  let id := mkID (svc_Namespace service) (svc_Name service) "" in
  put ew id (ServicePublisher.updateService api (getOrNewServicePublisher ew id) service).

Definition updateService (ew : EndpointsWatcher) (oldService newService : Service) :=
  addService ew newService.

Definition deleteService (ew : EndpointsWatcher) (obj : deletedObj Service) :=
  match deleted obj with
  | None => (ew, [])
  | Some service =>
      on_existing ew (mkID (svc_Namespace service) (svc_Name service) "")
        ServicePublisher.deleteEndpoints
  end.

Definition addEndpoints (ew : EndpointsWatcher) (endpoints : Endpoints) :=
  let id := mkID (eps_Namespace endpoints) (eps_Name endpoints) "" in
  put ew id (ServicePublisher.updateEndpoints api (getOrNewServicePublisher ew id) endpoints).

Definition updateEndpoints (ew : EndpointsWatcher) (oldEndpoints newEndpoints : Endpoints) :=
  let id := mkID (eps_Namespace newEndpoints) (eps_Name newEndpoints) "" in
  put ew id (ServicePublisher.updateEndpoints api (getOrNewServicePublisher ew id) newEndpoints).

Definition deleteEndpoints (ew : EndpointsWatcher) (obj : deletedObj Endpoints) :=
  match deleted obj with
  | None => (ew, [])
  | Some endpoints =>
      on_existing ew (mkID (eps_Namespace endpoints) (eps_Name endpoints) "")
        ServicePublisher.deleteEndpoints
  end.

Definition addEndpointSlice (ew : EndpointsWatcher) (newSlice : EndpointSlice) :=
  match getEndpointSliceServiceID newSlice with
  | Ok id =>
      put ew id (ServicePublisher.addEndpointSlice api (getOrNewServicePublisher ew id) newSlice)
  | _ => (ew, [])
  end.

Definition updateEndpointSlice (ew : EndpointsWatcher) (oldSlice newSlice : EndpointSlice) :=
  match getEndpointSliceServiceID newSlice with
  | Ok id =>
      on_existing ew id (λ sp, ServicePublisher.updateEndpointSlice api sp oldSlice newSlice)
  | _ => (ew, [])
  end.

(** An invalid slice is logged and then handled as one of the zero service ID. *)
Definition deleteEndpointSlice (ew : EndpointsWatcher) (obj : deletedObj EndpointSlice) :=
  match deleted obj with
  | None => (ew, [])
  | Some es =>
      let id := default zeroID (res_ok (getEndpointSliceServiceID es)) in
      on_existing ew id (λ sp, ServicePublisher.deleteEndpointSlice api sp es)
  end.

(** [for id, sp := range ew.publishers { if sel(id) { sp.updateServer(old, new) } }] *)
Definition for_publishers (sel : ID → bool) (oldServer newServer : option Server)
    (ew : EndpointsWatcher) : EndpointsWatcher * ew_events :=
  let f id sp := if sel id then ServicePublisher.updateServer api sp oldServer newServer
                 else (sp, []) in
  (set_publishers (map_imap (λ id sp, Some (f id sp).1) (publishers ew)) ew,
   range (publishers ew) ≫= λ e, pair e.1 <$> (f e.1 e.2).2).

Definition addServer (ew : EndpointsWatcher) (server : Server) :=
  for_publishers (λ _, true) None (Some server) ew.

Definition updateServer (ew : EndpointsWatcher) (oldServer newServer : Server) :=
  for_publishers (λ id, bool_decide (Namespace id = srv_Namespace newServer))
    (Some oldServer) (Some newServer) ew.

Definition deleteServer (ew : EndpointsWatcher) (server : Server) :=
  for_publishers (λ _, true) (Some server) None ew.
End operations.
End Watcher.

(** * The subscriptions of the watcher *)
(** The publisher of a service, port and hostname. *)
Definition port_at (ew : EndpointsWatcher) (id : ID) (key : portAndHostname)
    : option portPublisher :=
  sp ← publishers ew !! id; ports sp !! key.

(** The calls made on one subscription. *)
Definition ew_events_of (id : ID) (key : portAndHostname) (l : nat) (evs : ew_events)
    : list ListenerEvent := events_of l (proj_at key (proj_at id evs)).

(** The calls each subscription has received, in order. *)
Abbreviation ew_views := (gmap (ID * portAndHostname * nat) (list ListenerEvent)).
Definition ew_deliver (evs : ew_events) (views : ew_views) : ew_views :=
  map_imap (λ k h, Some (h ++ ew_events_of k.1.1 k.1.2 k.2 evs)) views.

(** In slices mode, the service does not move a watched port to another target port. *)
Definition ports_stable (ew : EndpointsWatcher) (service : Service) : Prop :=
  ew_enableEndpointSlices ew = true → ∀ key pp,
    port_at ew (mkID (svc_Namespace service) (svc_Name service) "") key = Some pp →
    getTargetPort (Some service) key.1 = targetPort pp.

Inductive ew_op (api : API) `{!MapRange} (ew : EndpointsWatcher)
    : EndpointsWatcher * ew_events → Prop :=
  | ew_addService s : ports_stable ew s → ew_op api ew (Watcher.addService api ew s)
  | ew_updateService s s' : ports_stable ew s' → ew_op api ew (Watcher.updateService api ew s s')
  | ew_deleteService o : ew_op api ew (Watcher.deleteService ew o)
  | ew_addEndpoints e : ew_op api ew (Watcher.addEndpoints api ew e)
  | ew_updateEndpoints e e' : ew_op api ew (Watcher.updateEndpoints api ew e e')
  | ew_deleteEndpoints o : ew_op api ew (Watcher.deleteEndpoints ew o)
  | ew_addEndpointSlice s : ew_op api ew (Watcher.addEndpointSlice api ew s)
  | ew_updateEndpointSlice s s' : ew_op api ew (Watcher.updateEndpointSlice api ew s s')
  | ew_deleteEndpointSlice o : ew_op api ew (Watcher.deleteEndpointSlice api ew o)
  | ew_addServer s : ew_op api ew (Watcher.addServer api ew s)
  | ew_updateServer s s' : ew_op api ew (Watcher.updateServer api ew s s')
  | ew_deleteServer s : ew_op api ew (Watcher.deleteServer api ew s).

Inductive ew_step `{!MapRange} : EndpointsWatcher * ew_views → EndpointsWatcher * ew_views → Prop :=
  | ew_step_op api ew views ew' evs :
      ew_op api ew (ew', evs) → ew_step (ew, views) (ew', ew_deliver evs views)
  | ew_step_subscribe api ew views id port hostname l ew' evs :
      views !! (id, (port, hostname), l) = None →
      Watcher.Subscribe api ew id port hostname l = Ok (ew', evs) →
      ew_step (ew, views) (ew', ew_deliver evs (<[(id, (port, hostname), l) := []]> views))
  | ew_step_unsubscribe ew views id port hostname l :
      ew_step (ew, views)
        (Watcher.Unsubscribe ew id port hostname l, delete (id, (port, hostname), l) views).

(** A port publisher belongs to its key, has subscribers, and has no addresses when its
    service does not exist.  Its own [id] is the zero ID. *)
Definition port_inv (slices_mode : bool) (key : portAndHostname) (pp : portPublisher) : Prop :=
  (srcPort pp, hostname pp) = key ∧ pp_id pp = zeroID ∧ enableEndpointSlices pp = slices_mode
  ∧ pp_wf pp ∧ NoDup (listeners pp) ∧ listeners pp ≠ [].

Definition ew_inv (s : EndpointsWatcher * ew_views) : Prop :=
  (∀ id sp, publishers s.1 !! id = Some sp →
     sp_id sp = id ∧ sp_enableEndpointSlices sp = ew_enableEndpointSlices s.1)
  ∧ (∀ id key pp, port_at s.1 id key = Some pp → port_inv (ew_enableEndpointSlices s.1) key pp)
  ∧ (∀ id key l, is_Some (s.2 !! (id, key, l)) ↔
       ∃ pp, port_at s.1 id key = Some pp ∧ l ∈ listeners pp)
  ∧ (∀ id key l h pp, s.2 !! (id, key, l) = Some h → port_at s.1 id key = Some pp →
       in_sync (view_events ∅ h) pp).

(** ** Lemmas *)
(** What an operation may do to one port publisher. *)
Definition ident (pp : portPublisher) : ID * portAndHostname * bool :=
  (pp_id pp, (srcPort pp, hostname pp), enableEndpointSlices pp).
Definition port_ok (pp : portPublisher) (r : portPublisher * events) : Prop :=
  op_ok pp r ∧ ident r.1 = ident pp.

Lemma op_ok_seq pp pp1 evs1 pp2 evs2 :
  op_ok pp (pp1, evs1) → op_ok pp1 (pp2, evs2) → op_ok pp (pp2, evs1 ++ evs2).
Proof.
  intros (Hl1 & Hw1 & Hs1) (Hl2 & Hw2 & Hs2). simpl in *. split_and!; simpl.
  - by rewrite Hl2.
  - auto.
  - intros l v Hnd Hin Hv. rewrite events_of_app. unfold view_events. rewrite foldl_app.
    apply Hs2; [by rewrite Hl1|by rewrite Hl1|]. by apply Hs1.
Qed.

Lemma op_ok_refl pp : op_ok pp (pp, []).
Proof. by apply op_ok_silent. Qed.
#[export] Hint Resolve op_ok_refl : linkerd.

(** An operation acts on each port publisher on its own, and each subscription receives
    exactly the calls of its publisher. *)
Definition pointwise (ew : EndpointsWatcher) (r : EndpointsWatcher * ew_events) : Prop :=
  ew_enableEndpointSlices r.1 = ew_enableEndpointSlices ew
  ∧ (∀ id sp, publishers r.1 !! id = Some sp →
       (∃ sp0, publishers ew !! id = Some sp0 ∧ sp_id sp = sp_id sp0
          ∧ sp_enableEndpointSlices sp = sp_enableEndpointSlices sp0)
       ∨ (sp_id sp = id ∧ sp_enableEndpointSlices sp = ew_enableEndpointSlices ew))
  ∧ ∀ id key, match port_at ew id key with
      | None => port_at r.1 id key = None
      | Some pp => ∃ rp, port_at r.1 id key = Some rp.1 ∧ port_ok pp rp
          ∧ proj_at key (proj_at id r.2) = rp.2
      end.

Lemma pointwise_refl ew : pointwise ew (ew, []).
Proof.
  split_and!; [done| |].
  - intros id sp Hsp. left. by exists sp.
  - intros id key. destruct (port_at ew id key) as [pp|] eqn:Hpp; [|done].
    exists (pp, []). split; [done|]. split; [|done]. split; [apply op_ok_refl|done].
Qed.

Lemma port_at_put ew id r id' key :
  port_at (Watcher.put ew id r).1 id' key
  = if decide (id' = id) then ports r.1 !! key else port_at ew id' key.
Proof.
  unfold port_at. simpl. case_decide as Hd.
  - subst. by rewrite lookup_insert_eq.
  - by rewrite lookup_insert_ne.
Qed.

Lemma ports_getOrNew ew id key :
  ports (Watcher.getOrNewServicePublisher ew id) !! key = port_at ew id key.
Proof.
  unfold Watcher.getOrNewServicePublisher, port_at.
  destruct (publishers ew !! id); simpl; [done|]. apply lookup_empty.
Qed.

Section pointwise.
Context `{!MapRange}.

Lemma lookup_for_ports f sp key : ports (for_ports f sp).1 !! key = (λ pp, (f key pp).1) <$> ports sp !! key.
Proof. simpl. rewrite map_lookup_imap. by destruct (ports sp !! key). Qed.

Lemma proj_for_ports f sp key :
  proj_at key (for_ports f sp).2 = match ports sp !! key with Some pp => (f key pp).2 | None => [] end.
Proof. unfold for_ports. simpl. apply (proj_at_range (ports sp) (λ k pp, (f k pp).2)). Qed.

(** The handlers that update the publisher of one service. *)
Lemma pointwise_put ew id sp f :
  sp_id sp = sp_id (Watcher.getOrNewServicePublisher ew id) →
  sp_enableEndpointSlices sp = sp_enableEndpointSlices (Watcher.getOrNewServicePublisher ew id) →
  ports sp = ports (Watcher.getOrNewServicePublisher ew id) →
  (∀ key pp, port_at ew id key = Some pp → port_ok pp (f key pp)) →
  pointwise ew (Watcher.put ew id (for_ports f sp)).
Proof.
  intros Hid Hen Hports Hf. split_and!; [done| |].
  - intros id' sp'. simpl. intros [[<- <-]|[_ Hl]]%lookup_insert_Some; [|left; by exists sp'].
    simpl. rewrite Hid, Hen. unfold Watcher.getOrNewServicePublisher.
    destruct (publishers ew !! id) as [sp0|] eqn:Hsp; [left; by exists sp0|by right].
  - intros id' key. rewrite port_at_put. unfold Watcher.put. cbn [snd]. rewrite proj_at_pair.
    case_decide as Hd; [subst id'; rewrite decide_True by done|rewrite decide_False by congruence].
    + rewrite lookup_for_ports, proj_for_ports, Hports, ports_getOrNew.
      destruct (port_at ew id key) as [pp|] eqn:Hpp; [|done].
      exists (f key pp). split; [done|]. split; [by apply Hf|done].
    + pose proof (pointwise_refl ew) as (_ & _ & Hpw). exact (Hpw id' key).
Qed.

Lemma pointwise_on_existing ew id f :
  (∀ key pp, port_at ew id key = Some pp → port_ok pp (f key pp)) →
  pointwise ew (Watcher.on_existing ew id (for_ports f)).
Proof.
  intros Hf. unfold Watcher.on_existing. destruct (publishers ew !! id) as [sp|] eqn:Hsp;
    [|apply pointwise_refl].
  apply pointwise_put; [..|done]; unfold Watcher.getOrNewServicePublisher; by rewrite Hsp.
Qed.

Lemma pointwise_for_publishers api sel s1 s2 ew :
  (∀ pp, port_ok pp (updateServer api pp s1 s2)) →
  pointwise ew (Watcher.for_publishers api sel s1 s2 ew).
Proof.
  intros Hf. split_and!; [done| |].
  - intros id sp. simpl. rewrite map_lookup_imap. intros (sp0 & Hsp & [= <-])%bind_Some.
    left. exists sp0. split; [done|]. by destruct (sel id).
  - intros id key. unfold Watcher.for_publishers. cbn [fst snd].
    rewrite (proj_at_range (publishers ew) (λ id sp,
      (if sel id then ServicePublisher.updateServer api sp s1 s2 else (sp, [])).2)).
    unfold port_at. simpl. rewrite map_lookup_imap.
    destruct (publishers ew !! id) as [sp|]; simpl; [|done]. destruct (sel id).
    + unfold ServicePublisher.updateServer. rewrite lookup_for_ports, proj_for_ports.
      destruct (ports sp !! key) as [pp|]; simpl; [|done]. by eexists.
    + simpl. destruct (ports sp !! key) as [pp|]; [|done].
      exists (pp, []). split; [done|]. split; [|done]. split; [apply op_ok_refl|done].
Qed.

(** *** Every handler *)
Lemma port_ok_updateEndpoints api pp e : port_ok pp (updateEndpoints api pp e).
Proof. split; [apply updateEndpoints_ok|]. unfold updateEndpoints. by case_bool_decide. Qed.
Lemma port_ok_addEndpointSlice api pp s : port_ok pp (addEndpointSlice api pp s).
Proof. split; [apply addEndpointSlice_ok|done]. Qed.
Lemma port_ok_updateEndpointSlice api pp s s' : port_ok pp (updateEndpointSlice api pp s s').
Proof. split; [apply updateEndpointSlice_ok|done]. Qed.
Lemma port_ok_deleteEndpointSlice api pp s : port_ok pp (deleteEndpointSlice api pp s).
Proof. split; [apply deleteEndpointSlice_ok|]. unfold deleteEndpointSlice. by case_bool_decide. Qed.
Lemma port_ok_noEndpoints pp b : port_ok pp (noEndpoints pp b).
Proof. split; [apply noEndpoints_ok|done]. Qed.
Lemma port_ok_updateServer api pp s s' : port_ok pp (updateServer api pp s s').
Proof. split; [apply updateServer_ok|]. unfold updateServer. by case_bool_decide. Qed.

Lemma port_ok_updatePort api pp tp :
  enableEndpointSlices pp = false → port_ok pp (updatePort api pp tp).
Proof.
  intros He. split; [by apply updatePort_endpoints_ok|]. unfold updatePort.
  destruct (enableEndpointSlices (set_targetPort tp pp)) eqn:E; [simpl in E; congruence|].
  destruct (api_Endpoints api _ _) as [e|]; [|done].
  apply (port_ok_updateEndpoints api (set_targetPort tp pp) e).
Qed.

Lemma port_ok_updateServicePort api s policy key pp :
  (enableEndpointSlices pp = true → getTargetPort (Some s) key.1 = targetPort pp) →
  port_ok pp (ServicePublisher.updateServicePort api s policy key pp).
Proof.
  intros Hst. unfold ServicePublisher.updateServicePort.
  set (r1 := if bool_decide (getTargetPort (Some s) key.1 ≠ targetPort pp) then _ else _).
  assert (port_ok pp r1) as [Hr1 Hc1].
  { unfold r1. case_bool_decide as Hd; [|split; [apply op_ok_refl|done]].
    assert (enableEndpointSlices pp = false) as He.
    { apply not_true_is_false. intros He. by apply Hd, Hst. }
    by apply port_ok_updatePort. }
  destruct r1 as [pp1 evs1]. clear Hst.
  set (r2 := if bool_decide (localTrafficPolicy pp1 ≠ policy) then _ else _).
  assert (port_ok pp1 r2) as [Hr2 Hc2].
  { unfold r2. case_bool_decide; (split; [auto with linkerd|done]). }
  destruct r2 as [pp2 evs2]. simpl in *. split; [by eapply op_ok_seq|].
  simpl. by rewrite Hc2.
Qed.
End pointwise.

#[export] Hint Resolve pointwise_refl port_ok_updateEndpoints port_ok_addEndpointSlice
  port_ok_updateEndpointSlice port_ok_deleteEndpointSlice port_ok_noEndpoints
  port_ok_updateServer : linkerd.

Section invariant.
Context `{!MapRange}.

Lemma ew_op_pointwise api ew r views :
  ew_inv (ew, views) → ew_op api ew r → pointwise ew r.
Proof.
  intros (_ & Hports & _) Hop.
  assert (∀ s, ports_stable ew s → pointwise ew (Watcher.addService api ew s)) as Hsvc.
  { intros s Hst. apply pointwise_put; [done..|]. intros key pp Hpp.
    apply port_ok_updateServicePort. intros He. apply Hst; [|done].
    destruct (Hports _ _ _ Hpp) as (_ & _ & Hen & _). simpl in Hen. congruence. }
  destruct Hop; [by apply Hsvc|by apply Hsvc|..].
  - unfold Watcher.deleteService. destruct (deleted o); [|apply pointwise_refl].
    apply pointwise_on_existing. auto with linkerd.
  - apply pointwise_put; auto with linkerd.
  - apply pointwise_put; auto with linkerd.
  - unfold Watcher.deleteEndpoints. destruct (deleted o); [|apply pointwise_refl].
    apply pointwise_on_existing. auto with linkerd.
  - unfold Watcher.addEndpointSlice. destruct (getEndpointSliceServiceID s); [|apply pointwise_refl..].
    apply pointwise_put; auto with linkerd.
  - unfold Watcher.updateEndpointSlice.
    destruct (getEndpointSliceServiceID s'); [|apply pointwise_refl..].
    apply pointwise_on_existing. auto with linkerd.
  - unfold Watcher.deleteEndpointSlice. destruct (deleted o); [|apply pointwise_refl].
    apply pointwise_on_existing. auto with linkerd.
  - apply pointwise_for_publishers. auto with linkerd.
  - apply pointwise_for_publishers. auto with linkerd.
  - apply pointwise_for_publishers. auto with linkerd.
Qed.

Lemma ew_inv_pointwise ew views ew' evs :
  ew_inv (ew, views) → pointwise ew (ew', evs) → ew_inv (ew', ew_deliver evs views).
Proof.
  intros (Hsp & Hports & Hdom & Hsync) (Hen & Hsp' & Hpt). unfold ew_inv. simpl in *.
  split_and!.
  - intros id sp [(sp0 & H0 & -> & ->)|[-> ->]]%Hsp'; [|done].
    destruct (Hsp id sp0 H0) as [-> ->]. done.
  - intros id key pp' Hpp'. specialize (Hpt id key).
    destruct (port_at ew id key) as [pp|] eqn:Hpp; [|congruence].
    destruct Hpt as (rp & Hrp & ((Hl & Hwf & _) & Hc) & _). injection Hc as Hc1 Hc2 Hc3 Hc4.
    rewrite Hrp in Hpp'. injection Hpp' as <-.
    destruct (Hports id key pp Hpp) as (Hk & Hz & He & Hw & Hnd & Hne).
    unfold port_inv. rewrite Hc1, Hc2, Hc3, Hc4, Hl, Hen. split_and!; auto.
  - intros id key l. unfold ew_deliver. rewrite map_lookup_imap. specialize (Hdom id key l).
    specialize (Hpt id key).
    assert (is_Some (views !! (id, key, l) ≫= λ h,
      Some (h ++ ew_events_of id key l evs)) ↔ is_Some (views !! (id, key, l))) as ->.
    { destruct (views !! (id, key, l)); simpl; split; intros [? ?]; by eexists. }
    rewrite Hdom. destruct (port_at ew id key) as [pp|].
    + destruct Hpt as (rp & -> & ((Hl & _) & _) & _).
      split; [intros (? & [= <-] & ?)|intros (? & [= <-] & ?)]; eexists; split; [done| |done|];
        by rewrite Hl in *.
    + rewrite Hpt. done.
  - intros id key l v pp'. unfold ew_deliver. rewrite map_lookup_imap.
    intros (v0 & Hv0 & [= <-])%bind_Some Hpp'. specialize (Hpt id key).
    destruct (port_at ew id key) as [pp|] eqn:Hpp; [|congruence].
    destruct Hpt as (rp & Hrp & ((Hl & _ & Hs) & _) & Hev). rewrite Hrp in Hpp'. injection Hpp' as <-.
    simpl. rewrite view_events_app. unfold ew_events_of. rewrite Hev.
    destruct (Hports id key pp Hpp) as (_ & _ & _ & _ & Hnd & _).
    destruct (Hdom id key l) as [Hd _]. destruct Hd as (pp0 & [= <-]%(eq_trans (eq_sym Hpp)) & Hin);
      [by eexists|].
    apply Hs; [done|done|]. by eapply Hsync.
Qed.
End invariant.

Lemma foldEvents_ok {A} (f : portPublisher → A → portPublisher * events) pp l :
  (∀ pp x, port_ok pp (f pp x)) → port_ok pp (foldEvents f pp l).
Proof.
  intros Hf. revert pp. induction l as [|x l IH]; intros pp; simpl.
  { split; [apply op_ok_refl|done]. }
  specialize (Hf pp x). destruct (f pp x) as [pp1 evs1]. specialize (IH pp1).
  destruct (foldEvents f pp1 l) as [pp2 evs2]. destruct Hf as (Ho1 & H1), IH as (Ho2 & H2).
  simpl in *. split; [by eapply op_ok_seq|]. simpl. by rewrite H2.
Qed.

(** A new publisher has the key it was made for, no listener, and is well formed. *)
Lemma newPortPublisher_inv api sp port hostname0 pp :
  ServicePublisher.newPortPublisher api sp port hostname0 = pp →
  ident pp = (zeroID, (port, hostname0), sp_enableEndpointSlices sp) ∧ listeners pp = [] ∧ pp_wf pp.
Proof.
  intros <-. unfold ServicePublisher.newPortPublisher.
  set (te := match api_Service api _ _ with Some _ => _ | None => _ end).
  destruct te as [tp ex].
  set (p := mkPortPublisher _ _ _ _ _ _ _ _ _).
  assert (∀ r, port_ok p r → ident r.1 = (zeroID, (port, hostname0), sp_enableEndpointSlices sp)
    ∧ listeners r.1 = [] ∧ pp_wf r.1) as H.
  { intros r ((Hl & Hwf & _) & ->). split_and!; [done..|]. by apply Hwf. }
  destruct (enableEndpointSlices p).
  - destruct (api_EndpointSlices api _ _); [|done]. apply H, foldEvents_ok. auto with linkerd.
  - destruct (api_Endpoints api _ _); [|done]. apply H. auto with linkerd.
Qed.

(** The publisher a subscription joins. *)
Lemma subscribe_port api ew views id port hostname0 pp :
  ew_inv (ew, views) →
  match port_at ew id (port, hostname0) with
  | Some pp => pp
  | None => ServicePublisher.newPortPublisher api (Watcher.getOrNewServicePublisher ew id) port hostname0
  end = pp →
  ident pp = (zeroID, (port, hostname0), ew_enableEndpointSlices ew) ∧ pp_wf pp ∧ NoDup (listeners pp)
  ∧ (port_at ew id (port, hostname0) = None → listeners pp = []).
Proof.
  intros (Hsp & Hports & _). destruct (port_at ew id (port, hostname0)) as [pp0|] eqn:Hp.
  - intros <-. destruct (Hports _ _ _ Hp) as ([= H1 H2] & Hz & He & ? & ? & ?).
    split_and!; try done. unfold ident. by rewrite H1, H2, Hz, He.
  - intros Hn. apply newPortPublisher_inv in Hn as (Hi & Hl & ?).
    split_and!; try done; [|by rewrite Hl; constructor].
    rewrite Hi. f_equal. unfold Watcher.getOrNewServicePublisher.
    destruct (publishers ew !! id) as [sp|] eqn:E; [|done]. by destruct (Hsp id sp E).
Qed.

Lemma Subscribe_Ok api ew id port hostname0 l r :
  Watcher.Subscribe api ew id port hostname0 l = Ok r →
  let pp := match port_at ew id (port, hostname0) with
    | Some pp => pp
    | None => ServicePublisher.newPortPublisher api
                (Watcher.getOrNewServicePublisher ew id) port hostname0
    end in
  r = Watcher.put ew id (set_ports (<[(port, hostname0) := (subscribe pp l).1]>
        (ports (Watcher.getOrNewServicePublisher ew id)))
        (Watcher.getOrNewServicePublisher ew id),
      pair (port, hostname0) <$> (subscribe pp l).2).
Proof.
  unfold Watcher.Subscribe.
  destruct (match api_Service api _ _ with Some _ => _ | None => _ end); [done|]. intros [= <-].
  unfold ServicePublisher.subscribe. rewrite ports_getOrNew. reflexivity.
Qed.

(** The watcher after [r] replaced the publisher at [key] of the service [id]. *)
Lemma port_at_put_key ew id key pp evs id' key' :
  port_at (Watcher.put ew id (set_ports (<[key := pp]>
    (ports (Watcher.getOrNewServicePublisher ew id))) (Watcher.getOrNewServicePublisher ew id),
    evs)).1 id' key'
  = if decide (id' = id ∧ key' = key) then Some pp else port_at ew id' key'.
Proof.
  rewrite port_at_put. simpl. case_decide as Hd.
  - subst id'. rewrite lookup_insert. case_decide as Hk.
    + subst key'. by rewrite decide_True.
    + rewrite decide_False by naive_solver. apply ports_getOrNew.
  - by rewrite decide_False by naive_solver.
Qed.

Lemma ew_events_of_pair id key evs id' key' l :
  ew_events_of id' key' l (pair id <$> (pair key <$> evs))
  = if decide (id' = id ∧ key' = key) then events_of l evs else [].
Proof.
  unfold ew_events_of. rewrite proj_at_pair. destruct (decide (id = id')) as [<-|].
  - rewrite proj_at_pair. destruct (decide (key = key')) as [<-|].
    + by rewrite decide_True.
    + by rewrite decide_False by naive_solver.
  - by rewrite decide_False by naive_solver.
Qed.

Lemma publishers_put_inv ew views id p evs :
  ew_inv (ew, views) → ∀ id' sp,
  publishers (Watcher.put ew id (set_ports p (Watcher.getOrNewServicePublisher ew id), evs)).1
    !! id' = Some sp → sp_id sp = id' ∧ sp_enableEndpointSlices sp = ew_enableEndpointSlices ew.
Proof.
  intros (Hsp & _) id' sp. simpl. intros [[<- <-]|[_ Hl]]%lookup_insert_Some; [|by apply Hsp].
  simpl. unfold Watcher.getOrNewServicePublisher.
  destruct (publishers ew !! id) as [sp0|] eqn:E; [by apply Hsp|done].
Qed.

Lemma lookup_ew_deliver evs views k :
  ew_deliver evs views !! k = (λ h, h ++ ew_events_of k.1.1 k.1.2 k.2 evs) <$> views !! k.
Proof. unfold ew_deliver. rewrite map_lookup_imap. by destruct (views !! k). Qed.

Lemma ew_inv_subscribe api ew views id port hostname0 l ew' evs :
  ew_inv (ew, views) → views !! (id, (port, hostname0), l) = None →
  Watcher.Subscribe api ew id port hostname0 l = Ok (ew', evs) →
  ew_inv (ew', ew_deliver evs (<[(id, (port, hostname0), l) := []]> views)).
Proof.
  intros Hinv Hfresh Hsub%Subscribe_Ok. revert Hsub.
  set (pp := match port_at ew id (port, hostname0) with Some _ => _ | None => _ end).
  pose proof (subscribe_port api ew views id port hostname0 pp Hinv eq_refl)
    as ([= Hz Hsrc Hhost Hen] & Hwf & Hnd & Hnil).
  pose proof (subscribe_view pp l Hwf) as Hv. pose proof (λ l', subscribe_others pp l l') as Ho.
  assert (port_at ew id (port, hostname0) = Some pp ∨ port_at ew id (port, hostname0) = None) as Hcase.
  { unfold pp. destruct (port_at ew id (port, hostname0)); auto. }
  assert (port_inv (ew_enableEndpointSlices ew) (port, hostname0) (subscribe pp l).1
    ∨ l ∈ listeners pp) as Hpi.
  { destruct (decide (l ∈ listeners pp)) as [|Hni]; [by right|left]. unfold port_inv. simpl.
    rewrite Hsrc, Hhost, Hen. split_and!; [done|done|done|done| |by destruct (listeners pp)].
    apply NoDup_app. split_and!; [done|set_solver|apply NoDup_singleton]. }
  assert (listeners (subscribe pp l).1 = listeners pp ++ [l]) as Hls by done.
  assert (∀ v, in_sync v pp → in_sync v (subscribe pp l).1) as Hkeep by done.
  destruct (subscribe pp l) as [pp1 evs1]. cbn [fst snd] in *.
  clearbody pp. set (key := (port, hostname0)) in *.
  pose proof Hinv as Hinv0. destruct Hinv as (_ & Hports & Hdom & Hsync). simpl in *.
  assert (l ∉ listeners pp) as Hni.
  { destruct Hcase as [Hc|Hc]; [|rewrite Hnil by done; apply not_elem_of_nil]. intros Hin.
    destruct (proj2 (Hdom id key l)) as [? Hx]; [by exists pp|]. by rewrite Hfresh in Hx. }
  intros [= -> ->].
  pose proof (port_at_put_key ew id key pp1 (pair key <$> evs1)) as Hat.
  cbn [Watcher.put fst snd] in Hat.
  split_and!; cbn [fst snd].
  - exact (publishers_put_inv ew views id _ [] Hinv0).
  - intros id' key' pp'. rewrite Hat. case_decide as Hd; [|by apply Hports].
    destruct Hd as [-> ->]. intros [= <-]. by destruct Hpi.
  - intros id' key' l'. rewrite Hat. rewrite lookup_ew_deliver, lookup_insert.
    cbn [fst snd]. destruct (decide ((id, key, l) = (id', key', l'))) as [[= <- <- <-]|Hne].
    + rewrite decide_True by done. simpl. split; [|done]. intros _.
      eexists. split; [done|]. rewrite Hls. set_solver.
    + rewrite fmap_is_Some.
      rewrite Hdom. case_decide as Hd; [|done]. destruct Hd as [-> ->].
      split.
      * intros (pp0 & Hpp0 & Hin). eexists. split; [done|]. rewrite Hls.
        destruct Hcase as [Hc|Hc]; [|congruence]. rewrite Hc in Hpp0. injection Hpp0 as <-. set_solver.
      * intros (pp0 & [= <-] & Hin). rewrite Hls in Hin. apply elem_of_app in Hin as [Hin|Hin].
        -- exists pp. split; [|done]. destruct Hcase as [Hc|Hc]; [done|].
           rewrite Hnil in Hin by done. by apply not_elem_of_nil in Hin.
        -- apply list_elem_of_singleton in Hin as ->. done.
  - intros id' key' l' v pp'. rewrite Hat. rewrite lookup_ew_deliver, lookup_insert.
    cbn [fst snd]. rewrite ew_events_of_pair.
    destruct (decide ((id, key, l) = (id', key', l'))) as [[= <- <- <-]|Hne].
    + rewrite !decide_True by done. simpl. intros [= <-] [= <-]. exact Hv.
    + intros (v0 & Hv0 & ->)%fmap_Some. case_decide as Hd.
      * destruct Hd as [-> ->]. intros [= <-]. rewrite Ho, app_nil_r by congruence.
        destruct Hcase as [Hc|Hc]; [exact (Hkeep _ (Hsync id key l' v0 pp Hv0 Hc))|].
        destruct (proj1 (Hdom id key l')) as (? & ? & _); [by eexists|congruence].
      * intros Hpp'. rewrite app_nil_r. by eapply Hsync.
Qed.

Lemma port_at_Unsubscribe ew id port hostname0 l id' key' :
  port_at (Watcher.Unsubscribe ew id port hostname0 l) id' key'
  = if decide (id' = id ∧ key' = (port, hostname0)) then
      pp ← port_at ew id key';
      if bool_decide (listeners (unsubscribe pp l) = []) then None else Some (unsubscribe pp l)
    else port_at ew id' key'.
Proof.
  unfold Watcher.Unsubscribe. destruct (publishers ew !! id) as [sp|] eqn:Hsp.
  - transitivity (port_at (Watcher.put ew id (ServicePublisher.unsubscribe sp port hostname0 l, [])).1
      id' key'); [done|]. rewrite port_at_put. simpl. unfold ServicePublisher.unsubscribe.
    destruct (decide (id' = id)) as [->|]; [|by rewrite decide_False by naive_solver].
    unfold port_at. rewrite Hsp. simpl.
    destruct (ports sp !! (port, hostname0)) as [pp|] eqn:Hpp; last first.
    { case_decide as Hd; [|done]. destruct Hd as [_ ->]. by rewrite Hpp. }
    rewrite (bool_decide_ext (length (listeners (unsubscribe pp l)) = 0%nat)
      (listeners (unsubscribe pp l) = [])) by apply length_zero_iff_nil.
    destruct (decide (key' = (port, hostname0))) as [->|].
    + rewrite decide_True, Hpp by done. simpl. case_bool_decide; simpl.
      * by rewrite lookup_delete_eq.
      * by rewrite lookup_insert_eq.
    + rewrite decide_False by naive_solver. case_bool_decide; simpl.
      * by rewrite lookup_delete_ne.
      * by rewrite lookup_insert_ne.
  - case_decide as Hd; [|done]. destruct Hd as [-> ->]. unfold port_at. by rewrite Hsp.
Qed.

Lemma publishers_Unsubscribe ew id port hostname0 l id' sp :
  publishers (Watcher.Unsubscribe ew id port hostname0 l) !! id' = Some sp →
  ∃ sp0, publishers ew !! id' = Some sp0 ∧ sp_id sp = sp_id sp0
    ∧ sp_enableEndpointSlices sp = sp_enableEndpointSlices sp0.
Proof.
  unfold Watcher.Unsubscribe. destruct (publishers ew !! id) as [sp0|] eqn:E; [|by eauto].
  simpl. intros [[<- <-]|[_ Hl]]%lookup_insert_Some; [|by eauto]. exists sp0. split; [done|].
  unfold ServicePublisher.unsubscribe. destruct (ports sp0 !! _); [|done]. by case_bool_decide.
Qed.

Lemma ew_inv_unsubscribe ew views id port hostname0 l :
  ew_inv (ew, views) →
  ew_inv (Watcher.Unsubscribe ew id port hostname0 l, delete (id, (port, hostname0), l) views).
Proof.
  intros (Hsp & Hports & Hdom & Hsync). unfold ew_inv. simpl in *.
  assert (ew_enableEndpointSlices (Watcher.Unsubscribe ew id port hostname0 l)
    = ew_enableEndpointSlices ew) as ->.
  { unfold Watcher.Unsubscribe. by destruct (publishers ew !! id). }
  split_and!.
  - intros id' sp (sp0 & H0 & -> & ->)%publishers_Unsubscribe. by apply Hsp.
  - intros id' key' pp'. rewrite port_at_Unsubscribe. case_decide as Hd; [|by apply Hports].
    destruct Hd as [-> ->]. intros (pp & Hpp & Hif)%bind_Some. revert Hif.
    case_bool_decide as Hne; [done|]. intros [= <-].
    destruct (Hports _ _ _ Hpp) as (Hk & Hz & He & Hw & Hnd & _). split_and!; try done.
    by apply swap_remove_NoDup.
  - intros id' key' l'. rewrite port_at_Unsubscribe, lookup_delete_is_Some, Hdom.
    case_decide as Hd; [|naive_solver]. destruct Hd as [-> ->].
    destruct (port_at ew id (port, hostname0)) as [pp|] eqn:Hpp; [|naive_solver]. simpl.
    destruct (Hports _ _ _ Hpp) as (_ & _ & _ & _ & Hnd & _).
    destruct (swap_remove_NoDup l (listeners pp) Hnd) as [_ Hel].
    case_bool_decide as Hnil; simpl in Hnil.
    + split; [|by intros (? & ? & _)]. intros (Hne & ? & [= <-] & Hin).
      assert (l' ∈ swap_remove l (listeners pp)) as Hx; [apply Hel; split; [congruence|done]|].
      rewrite Hnil in Hx. by apply not_elem_of_nil in Hx.
    + split.
      * intros (Hne & ? & [= <-] & Hin). eexists. split; [done|]. simpl. apply Hel.
        split; [congruence|done].
      * intros (? & [= <-] & [Hne Hin]%Hel). split; [congruence|]. eauto.
  - intros id' key' l' v pp'. rewrite port_at_Unsubscribe, lookup_delete_Some.
    intros [Hne Hv]. case_decide as Hd; [|by eauto]. destruct Hd as [-> ->].
    intros (pp & Hpp & Hif)%bind_Some. revert Hif. case_bool_decide; [done|]. intros [= <-].
    exact (Hsync _ _ _ _ _ Hv Hpp).
Qed.

Lemma ew_step_inv `{!MapRange} s s' : ew_inv s → ew_step s s' → ew_inv s'.
Proof.
  intros Hinv Hstep. destruct Hstep.
  - eapply ew_inv_pointwise; [done|by eapply ew_op_pointwise].
  - by eapply ew_inv_subscribe.
  - by apply ew_inv_unsubscribe.
Qed.

Lemma ew_inv_init b : ew_inv (NewEndpointsWatcher b, ∅).
Proof.
  unfold ew_inv, port_at. simpl. split_and!.
  - intros id sp. by rewrite lookup_empty.
  - intros id key pp. by rewrite lookup_empty.
  - intros id key l. rewrite !lookup_empty. split; [by intros [? ?]|by intros (? & ? & _)].
  - intros id key l v pp. by rewrite lookup_empty.
Qed.

Lemma ew_reachable_inv `{!MapRange} b s : rtc ew_step (NewEndpointsWatcher b, ∅) s → ew_inv s.
Proof.
  intros Hsteps. pose proof (ew_inv_init b) as Hi. revert Hi.
  induction Hsteps; eauto using ew_step_inv.
Qed.

Lemma ew_reachable_mode `{!MapRange} b s :
  rtc ew_step (NewEndpointsWatcher b, ∅) s → ew_enableEndpointSlices s.1 = b.
Proof.
  intros Hsteps. remember (NewEndpointsWatcher b, ∅ : ew_views) as s0 eqn:Hs0.
  assert (ew_inv s0 ∧ ew_enableEndpointSlices s0.1 = b) as H0.
  { subst s0. split; [apply ew_inv_init|done]. }
  clear Hs0. induction Hsteps as [|x y z Hxy _ IH]; [apply H0|]. apply IH. destruct H0 as [Hi <-].
  split; [by eapply ew_step_inv|]. destruct Hxy as [api ew views ew' evs Hop| |]; simpl.
  - by apply (ew_op_pointwise api ew _ views) in Hop as (? & _).
  - match goal with Hs : Watcher.Subscribe _ _ _ _ _ _ = _ |- _ =>
      apply Subscribe_Ok in Hs; injection Hs as -> _ end. done.
  - unfold Watcher.Unsubscribe. by destruct (publishers ew !! id).
Qed.

Lemma watcher_port_inv `{!MapRange} b ew views id key pp :
  rtc ew_step (NewEndpointsWatcher b, ∅) (ew, views) → port_at ew id key = Some pp → port_inv b key pp.
Proof.
  intros Hr. pose proof (ew_reachable_mode b (ew, views) Hr) as <-.
  apply ew_reachable_inv in Hr as (_ & Hports & _). apply Hports.
Qed.

(** * Properties *)


(** C22: port publishers do not leak.  In every reachable state a publisher exists for a
    service, port and hostname exactly when somebody is subscribed to it; it has the key
    it is stored under, no listener twice, and no addresses when its service does not
    exist. *)
Theorem watcher_publishers_iff_subscribed `{!MapRange} b ew views id key :
  rtc ew_step (NewEndpointsWatcher b, ∅) (ew, views) →
  (is_Some (port_at ew id key) ↔ ∃ l, is_Some (views !! (id, key, l)))
  ∧ ∀ pp, port_at ew id key = Some pp → port_inv b key pp.
Proof.
  intros Hr. pose proof Hr as (_ & Hports & Hdom & _)%ew_reachable_inv. simpl in *.
  split; [split|].
  - intros [pp Hpp]. destruct (Hports _ _ _ Hpp) as (_ & _ & _ & _ & _ & Hne).
    destruct (listeners pp) as [|l ls] eqn:Hl; [done|]. exists l. apply Hdom. exists pp.
    split; [done|]. rewrite Hl. set_solver.
  - intros [l Hl]. apply Hdom in Hl as (pp & Hpp & _). by eexists.
  - intros pp. by eapply watcher_port_inv.
Qed.

(** The service [ns/svc] watched on port 80 by listener 7, then a slice of it arrives. *)
Definition ex_id : ID := mkID "ns" "svc" "".
Definition ex_ew0 : EndpointsWatcher * ew_views := (NewEndpointsWatcher true, ∅).
Definition ex_sub : EndpointsWatcher * ew_events :=
  Watcher.put ex_ew0.1 ex_id (ServicePublisher.subscribe ex_api
    (Watcher.getOrNewServicePublisher ex_ew0.1 ex_id) 80 "" 7).
Definition ex_ew1 : EndpointsWatcher * ew_views :=
  (ex_sub.1, ew_deliver ex_sub.2 {[(ex_id, (80, ""), 7%nat) := []]}).
Definition ex_added : EndpointsWatcher * ew_events :=
  Watcher.addEndpointSlice ex_api (H := range_in_order) ex_ew1.1 ex_slice.
Definition ex_ew2 : EndpointsWatcher * ew_views :=
  (ex_added.1, ew_deliver ex_added.2 ex_ew1.2).

Lemma ex_ew2_reachable : rtc (ew_step (H := range_in_order)) ex_ew0 ex_ew2.
Proof.
  eapply rtc_l; [|eapply rtc_once].
  - by apply (ew_step_subscribe ex_api _ ∅ ex_id 80 "" 7).
  - apply (ew_step_op ex_api ex_ew1.1 ex_ew1.2). rewrite <-surjective_pairing.
    apply ew_addEndpointSlice.
Qed.


Lemma watcher_publishers_iff_subscribed_witness :
  is_Some (port_at ex_ew2.1 ex_id (80, "")) ∧
  ∀ pp, port_at ex_ew2.1 ex_id (80, "") = Some pp → port_inv true (80, "") pp.
Proof.
  pose proof (@watcher_publishers_iff_subscribed range_in_order true ex_ew2.1 ex_ew2.2
    ex_id (80, "") ex_ew2_reachable) as [Hiff Hinv].
  split; [|exact Hinv]. apply Hiff. exists 7%nat.
  eexists. apply (Some_default []). vm_compute. reflexivity.
Defined.

(** a change of the target port is lost in slices mode.  The publishers the watcher
    creates have the zero service ID, under which no slice is found, so when a service
    moves a watched port to another target port the publisher drops all its addresses and
    tells its subscribers nothing. *)
Theorem target_port_change_lost `{!MapRange} api ew views service key pp :
  let id := mkID (svc_Namespace service) (svc_Name service) "" in
  rtc ew_step (NewEndpointsWatcher true, ∅) (ew, views) → port_at ew id key = Some pp →
  getTargetPort (Some service) key.1 ≠ targetPort pp →
  svc_InternalTrafficPolicy service = None → localTrafficPolicy pp = false →
  api_EndpointSlices api "" "" = Some [] →
  ∃ pp', port_at (Watcher.addService api ew service).1 id key = Some pp'
    ∧ Addresses (addresses pp') = ∅
    ∧ ∀ l, ew_events_of id key l (Watcher.addService api ew service).2 = [].
Proof.
  intros id Hr Hpp Htp Hpol Hl Hes.
  destruct (watcher_port_inv true ew views id key pp Hr Hpp) as (_ & Hz & Hen & _).
  assert (ServicePublisher.updateServicePort api service false key pp
    = (set_addresses (exists_ pp) emptySet (set_targetPort (getTargetPort (Some service) key.1) pp), []))
    as Hu.
  { unfold ServicePublisher.updateServicePort, updatePort.
    rewrite bool_decide_true by done. cbn [enableEndpointSlices set_targetPort pp_id].
    rewrite Hen, Hz. cbn [Namespace Name zeroID]. rewrite Hes. cbn [foldEvents localTrafficPolicy].
    simpl. rewrite Hl. by rewrite bool_decide_false by auto. }
  unfold Watcher.addService, ServicePublisher.updateService. rewrite Hpol. fold id.
  exists (set_addresses (exists_ pp) emptySet (set_targetPort (getTargetPort (Some service) key.1) pp)).
  split_and!; [|done|].
  - rewrite port_at_put, decide_True, lookup_for_ports by done. cbn [ports].
    rewrite ports_getOrNew, Hpp. simpl. by rewrite Hu.
  - intros l. unfold Watcher.put, ew_events_of. cbn [snd]. rewrite proj_at_pair, decide_True by done.
    rewrite proj_for_ports. cbn [ports]. by rewrite ports_getOrNew, Hpp, Hu.
Qed.

Definition ex_svc : Service := mkService "svc" "ns" "" ∅ ∅ "ClusterIP" "10.9.9.9" [] None
  [mkServicePort "http" 80 "TCP" (FromInt 8080)] None false.

Lemma target_port_change_lost_witness :
  size (view_events ∅ (default [] (ex_ew2.2 !! (ex_id, (80, ""), 7%nat)))) = 2%nat ∧
  ∃ pp', port_at (Watcher.addService ex_api (H := range_in_order) ex_ew2.1 ex_svc).1
      ex_id (80, "") = Some pp'
    ∧ Addresses (addresses pp') = ∅
    ∧ ∀ l, ew_events_of ex_id (80, "") l
        (Watcher.addService ex_api (H := range_in_order) ex_ew2.1 ex_svc).2 = [].
Proof.
  split; [vm_compute; reflexivity|].
  apply (@target_port_change_lost range_in_order ex_api ex_ew2.1 ex_ew2.2 ex_svc (80, "")
    (default ex_pp (port_at ex_ew2.1 ex_id (80, "")))).
  - exact ex_ew2_reachable.
  - apply Some_default. vm_compute. reflexivity.
  - vm_compute. discriminate.
  - reflexivity.
  - vm_compute. reflexivity.
  - reflexivity.
Defined.
