(* ===== verification/Addr.v ===== *)
(** [pkg/addr/addr.go]: the conversions between IP addresses as text, as the proxy API's
    integers and as the viz API's integers. *)
From S2P Require Import Prelude GoStd.

#[local] Open Scope string_scope.
#[local] Open Scope list_scope.
#[local] Open Scope Z_scope.

(** * Data *)
(** The oneof of the IPAddress messages of linkerd2-proxy-api's net package and of
    controller/gen/common/net, which have the same fields. *)
Inductive IPAddress :=
  | Ipv4 (n : Z)
  | Ipv6 (First Last : Z).

#[export] Instance IPAddress_eq_dec : EqDecision IPAddress.
Proof. solve_decision. Defined.
#[export] Instance IPAddress_countable : Countable IPAddress.
Proof.
  refine (inj_countable' (λ a, match a with Ipv4 n => inl n | Ipv6 f l => inr (f, l) end)
    (λ t, match t with inl n => Ipv4 n | inr (f, l) => Ipv6 f l end) _). by intros [].
Defined.

(** The TcpAddress messages; [None] is an address without an IP. *)
Record TcpAddress := mkTcpAddress { Ip : option IPAddress; tcp_Port : Z }.

#[export] Instance TcpAddress_eq_dec : EqDecision TcpAddress.
Proof. solve_decision. Defined.
#[export] Instance TcpAddress_countable : Countable TcpAddress.
Proof.
  refine (inj_countable' (λ a, (Ip a, tcp_Port a)) (λ t, mkTcpAddress t.1 t.2) _). by intros [].
Defined.

(** * encoding/binary *)
(** [binary.BigEndian.Uint32] and [Uint64] on 4 and 8 bytes. *)
Definition BigEndian_Uint (b : list Z) : Z := foldl (λ acc x, Z.lor (Z.shiftl acc 8) x) 0 b.

(** [binary.BigEndian.PutUint32] and [PutUint64]: the [n] low bytes, high byte first. *)
Fixpoint BigEndian_PutUint (n : nat) (v : Z) : list Z :=
  match n with
  | O => []
  | S n => BigEndian_PutUint n (Z.shiftr v 8) ++ [Z.land v 255]
  end.

(** * Package net *)
(** The hexadecimal digits of a group, without leading zeros. *)
Definition hex_char (d : Z) : ascii :=
  ascii_of_N (Z.to_N (if d <? 10 then d + 48 else d + 87)).
Definition hex_group (g : Z) : string :=
  let ds := [Z.land (Z.shiftr g 12) 15; Z.land (Z.shiftr g 8) 15; Z.land (Z.shiftr g 4) 15;
             Z.land g 15] in
  let fix trim (ds : list Z) :=
    match ds with
    | [d] => [d]
    | 0 :: ds => trim ds
    | ds => ds
    end in
  string_of_list_ascii (hex_char <$> trim ds).

(** The length of the run of zero groups at the front. *)
Fixpoint zero_run (gs : list Z) : nat :=
  match gs with 0 :: gs => S (zero_run gs) | _ => O end.

(** The first longest run of at least two zero groups: its start and its end. *)
Fixpoint best_run (i : nat) (gs : list Z) (best : option (nat * nat)) : option (nat * nat) :=
  match gs with
  | [] => best
  | _ :: gs' =>
      let r := zero_run gs in
      let best :=
        if bool_decide (1 < r ∧ match best with Some (s, e) => e - s | None => 0 end < r)%nat
        then Some (i, i + r)%nat else best in
      best_run (S i) gs' best
  end.

Fixpoint group_words (b : list Z) : list Z :=
  match b with
  | x :: y :: b => Z.lor (Z.shiftl x 8) y :: group_words b
  | _ => []
  end.

(** The prefix of an IPv4 address in 16 bytes. *)
Definition v4InV6Prefix : list Z := replicate 10 0 ++ [255; 255].

(** [net.IP.String] on 4 or 16 bytes; an IPv4-mapped address prints as IPv4. *)
Definition IP_String (ip : list Z) : string :=
  if bool_decide (length ip = 4%nat) then strings.Join (strconv.Itoa <$> ip) "."
  else if bool_decide (take 12 ip = v4InV6Prefix)
  then strings.Join (strconv.Itoa <$> drop 12 ip) "."
  else
    let gs := group_words ip in
    match best_run 0 gs None with
    | Some (s, e) => strings.Join (hex_group <$> take s gs) ":" +:+ "::"
                     +:+ strings.Join (hex_group <$> drop e gs) ":"
    | None => strings.Join (hex_group <$> gs) ":"
    end.

(** * The conversions *)
Definition ParseProxyIP (ip : string) : res IPAddress :=
  match netip.ParseAddr ip with
  | None => Err ("invalid IP address: " +:+ ip)
  | Some (netip.Addr4 ipBytes) => Ok (Ipv4 (BigEndian_Uint ipBytes))
  | Some (netip.Addr6 ipBytes) =>
      Ok (Ipv6 (BigEndian_Uint (take 8 ipBytes)) (BigEndian_Uint (drop 8 ipBytes)))
  end.

Definition FromProxyAPI (net : option IPAddress) : option IPAddress :=
  match net with
  | Some (Ipv6 First Last) => Some (Ipv6 First Last)
  | Some (Ipv4 n) => Some (Ipv4 n)
  | None => None
  end.

Definition ParsePublicIP (ip : string) : res (option IPAddress) :=
  (let* addr := ParseProxyIP ip in Ok (FromProxyAPI (Some addr)))%go.

Definition NetToPublic (net : TcpAddress) : TcpAddress :=
  mkTcpAddress (FromProxyAPI (Ip net)) (tcp_Port net).

(** big.Int values are the [Z]s. *)
Definition IPToInt (ip : list Z) : Z := BigEndian_Uint ip.
Definition IntToIPv4 (intip : Z) : list Z := BigEndian_PutUint 4 (u32 (u64 intip)).
Definition decodeIPv4ToNetIP (ip : Z) : list Z := IntToIPv4 ip.

(** [ip.GetIpv4()] is 0 when the oneof holds no IPv4 address. *)
Definition PublicIPToString (ip : option IPAddress) : string :=
  match ip with
  | Some (Ipv6 First Last) => IP_String (BigEndian_PutUint 8 First ++ BigEndian_PutUint 8 Last)
  | Some (Ipv4 n) => if bool_decide (n ≠ 0) then IP_String (decodeIPv4ToNetIP n) else ""
  | None => ""
  end.

Definition PublicAddressToString (addr : TcpAddress) : string :=
  net.JoinHostPort (PublicIPToString (Ip addr)) (strconv.Itoa (tcp_Port addr)).

Definition ProxyAddressToString (addr : TcpAddress) : string :=
  match FromProxyAPI (Ip addr) with
  | None => ""
  | vizIP => net.JoinHostPort (PublicIPToString vizIP) (strconv.Itoa (tcp_Port addr))
  end.

Example print_v6 : (λ s, PublicIPToString <$> res_ok (ParsePublicIP s)) <$>
  ["2001:db8::1"; "::"; "1:0:0:2:0:0:0:3"; "::ffff:1.2.3.4"; "fe80::1%eth0"; "1::2:3:4:5:6:7"]
  = [Some "2001:db8::1"; Some "::"; Some "1:0:0:2::3"; Some "1.2.3.4"; Some "fe80::1";
     Some "1:0:2:3:4:5:6:7"].
Proof. vm_compute. reflexivity. Qed.

(** * Lemmas *)
Definition is_byte (b : Z) : Prop := 0 ≤ b < 256.

Lemma land_shiftl_byte a b : is_byte b → Z.land (Z.shiftl a 8) b = 0.
Proof.
  intros Hb. apply Z.bits_inj'. intros i Hi. rewrite Z.land_spec, Z.bits_0.
  destruct (decide (i < 8)).
  - by rewrite Z.shiftl_spec_low.
  - assert (Z.testbit b i = false) as ->; [|apply andb_false_r].
    apply Z.testbit_false; [done|]. rewrite Z.div_small; [done|].
    split; [apply Hb|]. eapply Z.lt_le_trans; [apply Hb|].
    change 256 with (2^8). apply Z.pow_le_mono_r; lia.
Qed.

Lemma lor_byte a b : is_byte b → Z.lor (Z.shiftl a 8) b = 256 * a + b.
Proof.
  intros Hb. rewrite <-Z.lxor_lor, <-Z.add_nocarry_lxor by (by apply land_shiftl_byte).
  rewrite Z.shiftl_mul_pow2 by lia. change (2^8) with 256. lia.
Qed.

Lemma BigEndian_snoc l b : BigEndian_Uint (l ++ [b]) = Z.lor (Z.shiftl (BigEndian_Uint l) 8) b.
Proof. unfold BigEndian_Uint. by rewrite foldl_app. Qed.

Lemma pow256_S n : 256 ^ Z.of_nat (S n) = 256 * 256 ^ Z.of_nat n.
Proof. rewrite Nat2Z.inj_succ, Z.pow_succ_r by lia. done. Qed.

(** [n] bytes make an integer of [8 * n] bits. *)
Lemma BigEndian_range l : Forall is_byte l → 0 ≤ BigEndian_Uint l < 256 ^ Z.of_nat (length l).
Proof.
  induction l as [|b l IH] using rev_ind; intros Hl; [by compute|].
  apply Forall_app in Hl as [Hl Hb]. apply (proj1 (Forall_singleton is_byte b)) in Hb.
  rewrite BigEndian_snoc, length_app. rewrite (lor_byte _ b Hb). simpl length.
  replace (length l + 1)%nat with (S (length l)) by lia. rewrite pow256_S.
  specialize (IH Hl). unfold is_byte in Hb. lia.
Qed.

Lemma land_255 v : Z.land v 255 = v mod 256.
Proof. change 255 with (Z.ones 8). by rewrite Z.land_ones. Qed.
Lemma shiftr_8 v : Z.shiftr v 8 = v / 256.
Proof. by rewrite Z.shiftr_div_pow2. Qed.

Lemma PutUint_bytes n v : Forall is_byte (BigEndian_PutUint n v) ∧ length (BigEndian_PutUint n v) = n.
Proof.
  revert v. induction n as [|n IH]; intros v; simpl; [done|].
  destruct (IH (Z.shiftr v 8)) as [Hf Hlen]. split.
  - apply Forall_app. split; [done|]. apply Forall_singleton. rewrite land_255.
    apply Z.mod_pos_bound. lia.
  - rewrite length_app, Hlen. simpl. lia.
Qed.

(** Writing an integer of [8 * n] bits and reading it gives it back. *)
Lemma Uint_PutUint n v : 0 ≤ v < 256 ^ Z.of_nat n → BigEndian_Uint (BigEndian_PutUint n v) = v.
Proof.
  revert v. induction n as [|n IH]; intros v Hv.
  { simpl. change (256 ^ Z.of_nat 0) with 1 in Hv. unfold BigEndian_Uint. simpl. lia. }
  simpl. rewrite pow256_S in Hv. rewrite BigEndian_snoc, land_255, shiftr_8.
  rewrite lor_byte by (apply Z.mod_pos_bound; lia).
  rewrite IH; [symmetry; apply Z.div_mod; lia|].
  split; [apply Z.div_pos; lia|apply Z.div_lt_upper_bound; lia].
Qed.

(** ** Text of octets *)
Definition octets : list Z := seqZ 0 256.

Lemma octet_facts b : is_byte b →
  netip.parse_octet (strconv.Itoa b) = Some b
  ∧ Forall (λ a : ascii, netip.is_dec a = true) (list_ascii_of_string (strconv.Itoa b)).
Proof.
  intros Hb.
  assert (Forall (λ b, netip.parse_octet (strconv.Itoa b) = Some b
    ∧ forallb netip.is_dec (list_ascii_of_string (strconv.Itoa b)) = true) octets) as Hall.
  { apply Forall_forall. intros x Hx. revert x Hx.
    assert (forallb (λ b, bool_decide (netip.parse_octet (strconv.Itoa b) = Some b)
      && forallb netip.is_dec (list_ascii_of_string (strconv.Itoa b))) octets = true) as Hc
      by (vm_compute; reflexivity).
    intros x Hx. rewrite forallb_forall in Hc.
    specialize (Hc x (proj1 (list_elem_of_In _ _) Hx)). apply andb_true_iff in Hc as [H1 H2].
    split; [by apply bool_decide_eq_true in H1|done]. }
  rewrite Forall_forall in Hall.
  destruct (Hall b) as [H1 H2]. { apply elem_of_seqZ. unfold is_byte in Hb. lia. }
  split; [done|]. apply Forall_forall. intros a Ha. rewrite forallb_forall in H2.
  by apply H2, list_elem_of_In.
Qed.

Lemma is_dec_not_special a : netip.is_dec a = true → a ≠ "."%char ∧ a ≠ ":"%char ∧ a ≠ "%"%char.
Proof. intros H. split_and!; intros ->; by vm_compute in H. Qed.

Lemma dec_Contains s c : Forall (λ a : ascii, netip.is_dec a = true) (list_ascii_of_string s) →
  netip.is_dec c = false → strings.Contains s c = false.
Proof.
  intros Hs Hc. induction s as [|a s IH]; [done|]. simpl in *.
  apply Forall_cons in Hs as [Ha Hs]. rewrite IH by done.
  destruct (Ascii.eqb a c) eqn:E; [|done]. apply Ascii.eqb_eq in E as ->. congruence.
Qed.

(** ** Parsed addresses *)
Lemma parse_octet_range s b : netip.parse_octet s = Some b → is_byte b.
Proof.
  unfold netip.parse_octet. intros (n & _ & H)%bind_Some. case_bool_decide as Hd; [|done].
  injection H as <-. unfold is_byte. lia.
Qed.

Lemma parseIPv4_range s l : netip.parseIPv4Fields s = Some l → Forall is_byte l ∧ length l = 4%nat.
Proof.
  unfold netip.parseIPv4Fields. repeat case_match; try done.
  intros (a & Ha & Hr)%bind_Some. apply bind_Some in Hr as (b & Hb & Hr).
  apply bind_Some in Hr as (c & Hc & Hr). apply bind_Some in Hr as (d & Hd & [= <-]).
  split; [|done]. repeat constructor; eauto using parse_octet_range; by eapply parse_octet_range.
Qed.

Lemma hex_digit_range a d : netip.hex_digit a = Some d → 0 ≤ d < 16.
Proof.
  unfold netip.hex_digit. repeat case_match; intros; simplify_eq;
    repeat match goal with H : (_ && _) = true |- _ => apply andb_true_iff in H as [? ?] end; lia.
Qed.

(** A run of [k] digits adds at most [4 * k] bits. *)
Lemma hex_run_range s off acc : 0 ≤ acc < 16 ^ Z.of_nat off →
  let '(off', acc', _) := netip.hex_run s off acc in 0 ≤ acc' < 16 ^ Z.of_nat off'.
Proof.
  revert off acc. induction s as [|a s IH]; intros off acc Hacc; simpl; [done|].
  destruct (netip.hex_digit a) as [d|] eqn:Hd; [|done]. apply IH.
  apply hex_digit_range in Hd. rewrite Nat2Z.inj_succ, Z.pow_succ_r by lia. lia.
Qed.

Lemma group_bytes s off acc rest :
  netip.hex_run s 0 0 = (off, acc, rest) → (off ≤ 4)%nat →
  Forall is_byte [Z.shiftr acc 8; Z.land acc 255].
Proof.
  intros Hr Hoff. pose proof (hex_run_range s 0 0 ltac:(done)) as H. rewrite Hr in H.
  assert (acc < 65536).
  { eapply Z.lt_le_trans; [apply H|]. change 65536 with (16 ^ 4). apply Z.pow_le_mono_r; lia. }
  rewrite shiftr_8, land_255. repeat constructor.
  - apply Z.div_pos; lia.
  - apply Z.div_lt_upper_bound; lia.
  - apply Z.mod_pos_bound. lia.
  - apply Z.mod_pos_bound. lia.
Qed.

Lemma groups_range fuel s ip ell ip' ell' s' :
  Forall is_byte ip → netip.groups fuel s ip ell = Some (ip', ell', s') → Forall is_byte ip'.
Proof.
  revert s ip ell. induction fuel as [|fuel IH]; intros s ip ell Hip; simpl; [by intros [= <- _ _]|].
  destruct (netip.hex_run s 0 0) as [[off acc] rest] eqn:Hr. case_bool_decide as Hoff; [done|].
  assert (Forall is_byte (ip ++ [Z.shiftr acc 8; Z.land acc 255])) as Hnew.
  { apply Forall_app. split; [done|]. eapply group_bytes; [done|lia]. }
  repeat case_match; try done; intros Hg; simplify_eq; eauto.
  apply bind_Some in Hg as (b & Hb & [= <- _ _]). apply Forall_app. split; [done|].
  by apply parseIPv4_range in Hb as [].
Qed.

Lemma expand_range ip ell s l :
  Forall is_byte ip → netip.expand ip ell s = Some l → Forall is_byte l ∧ length l = 16%nat.
Proof.
  intros Hip. unfold netip.expand. destruct s; [|done]. destruct ell as [e|].
  - case_bool_decide as Hlen; [|done]. intros [= <-]. split.
    + rewrite !Forall_app. split_and!; [by apply Forall_take| |by apply Forall_drop].
      apply Forall_replicate. done.
    + rewrite !length_app, length_replicate, length_take, length_drop. lia.
  - case_bool_decide; [|done]. by intros [= <-].
Qed.

Lemma parseIPv6_range s l : netip.parseIPv6 s = Some l → Forall is_byte l ∧ length l = 16%nat.
Proof.
  unfold netip.parseIPv6. intros (s' & _ & Hp)%bind_Some.
  repeat case_match; simplify_eq; try (split; [by repeat constructor|done]);
    apply bind_Some in Hp as ([[ip ell] r] & Hg & He);
    exact (expand_range ip ell r l (groups_range _ _ [] _ _ _ _ (Forall_nil_2 _) Hg) He).
Qed.

Lemma Split_dot a b :
  strings.Contains a "." = false → strings.Split (a +:+ "." +:+ b) "." = a :: strings.Split b ".".
Proof. apply strings.Split_app. Qed.

Lemma list_ascii_of_string_app a b :
  list_ascii_of_string (a +:+ b) = list_ascii_of_string a ++ list_ascii_of_string b.
Proof. induction a as [|x a IH]; simpl; [done|]. by f_equal. Qed.

(** The dotted text of four octets parses to them. *)
Lemma ParseAddr_dotted a b c d :
  is_byte a → is_byte b → is_byte c → is_byte d →
  netip.ParseAddr (strings.Join (strconv.Itoa <$> [a; b; c; d]) ".") = Some (netip.Addr4 [a; b; c; d]).
Proof.
  intros [Ha Fa]%octet_facts [Hb Fb]%octet_facts [Hc Fc]%octet_facts [Hd Fd]%octet_facts.
  simpl. set (rest := strconv.Itoa b +:+ _).
  assert (netip.parseIPv4Fields (strconv.Itoa a +:+ String "." rest) = Some [a; b; c; d]) as Hp.
  { unfold netip.parseIPv4Fields, rest. simpl.
    rewrite strings.Split_app by (by apply dec_Contains).
    rewrite !Split_dot by (by apply dec_Contains).
    rewrite strings.Split_absent by (by apply dec_Contains).
    by rewrite Ha, Hb, Hc, Hd. }
  unfold netip.ParseAddr. change ("." +:+ rest) with (String "." rest).
  replace (list_find _ _) with (Some (length (list_ascii_of_string (strconv.Itoa a)), "."%char)).
  { by rewrite Hp. }
  symmetry. rewrite list_ascii_of_string_app. simpl. apply list_find_Some. split_and!.
  - rewrite lookup_app_r by done. by rewrite Nat.sub_diag.
  - by left.
  - intros j y Hj Hlt. rewrite lookup_app_l in Hj by done. rewrite Forall_lookup in Fa.
    apply Fa, is_dec_not_special in Hj. naive_solver.
Qed.

(** * Properties *)

(** every IP address that parses fits the integers of the API: an IPv4 address is a
    32-bit and each half of an IPv6 address a 64-bit unsigned integer. *)
Theorem ParseProxyIP_range s a : ParseProxyIP s = Ok a →
  match a with
  | Ipv4 n => 0 ≤ n < 2^32
  | Ipv6 First Last => 0 ≤ First < 2^64 ∧ 0 ≤ Last < 2^64
  end.
Proof.
  unfold ParseProxyIP, netip.ParseAddr. intros H.
  assert (∀ l (n : nat), Forall is_byte l → length l = n →
    0 ≤ BigEndian_Uint l < 256 ^ Z.of_nat n) as Hr.
  { intros l n Hl <-. by apply BigEndian_range. }
  destruct (match list_find _ _ with Some _ => _ | None => _ end) as [[l|l]|] eqn:E in H; [..|done];
    injection H as <-.
  - assert (netip.parseIPv4Fields s = Some l) as [Hl Hlen]%parseIPv4_range by (repeat case_match;
      try done; by apply fmap_Some in E as (? & ? & [= ->])).
    exact (Hr l 4%nat Hl Hlen).
  - assert (netip.parseIPv6 s = Some l) as [Hl Hlen]%parseIPv6_range by (repeat case_match;
      try done; by apply fmap_Some in E as (? & ? & [= ->])).
    split; apply (Hr _ 8%nat).
    + by apply Forall_take.
    + rewrite length_take. lia.
    + by apply Forall_drop.
    + rewrite length_drop. lia.
Qed.

Lemma ParseProxyIP_range_witness :
  ParseProxyIP "2001:db8::ff" = Ok (Ipv6 0x20010db800000000 255) ∧ 0 ≤ 255 < 2^64.
Proof.
  split; [vm_compute; reflexivity|].
  apply (ParseProxyIP_range "2001:db8::ff" (Ipv6 0x20010db800000000 255)).
  vm_compute. reflexivity.
Defined.

(** an IPv4 address other than 0.0.0.0 survives the trip through its text: printing
    the viz API's integer and parsing the text as a proxy or viz address gives it back. *)
Theorem ParseProxyIP_PublicIPToString n :
  0 < n < 2^32 →
  ParseProxyIP (PublicIPToString (Some (Ipv4 n))) = Ok (Ipv4 n)
  ∧ ParsePublicIP (PublicIPToString (Some (Ipv4 n))) = Ok (Some (Ipv4 n)).
Proof.
  intros Hn. unfold ParsePublicIP. cut (ParseProxyIP (PublicIPToString (Some (Ipv4 n))) = Ok (Ipv4 n)).
  { by intros ->. }
  unfold PublicIPToString. rewrite bool_decide_true by lia.
  unfold decodeIPv4ToNetIP, IntToIPv4, u32, u64. rewrite (Z.mod_small n (2^64)), Z.mod_small by lia.
  pose proof (Uint_PutUint 4 n) as Hrt. destruct (PutUint_bytes 4 n) as [Hb Hl].
  destruct (BigEndian_PutUint 4 n) as [|a [|b [|c [|d [|? ?]]]]]; try done.
  rewrite !Forall_cons in Hb. destruct Hb as (Ha & Hb & Hc & Hd & _).
  unfold ParseProxyIP, IP_String. rewrite bool_decide_true by done.
  rewrite ParseAddr_dotted by done.
  rewrite Hrt; [done|]. change (256 ^ Z.of_nat 4) with (2^32). lia.
Qed.

Lemma ParseProxyIP_PublicIPToString_witness :
  PublicIPToString (Some (Ipv4 167772417)) = "10.0.1.1" ∧
  ParseProxyIP "10.0.1.1" = Ok (Ipv4 167772417).
Proof.
  split; [vm_compute; reflexivity|].
  apply (ParseProxyIP_PublicIPToString 167772417). lia.
Defined.
