(* ===== verification/WeightedAddr.v ===== *)
(** The translation of one address into a message of the Destination API: [toAddr],
    [createWeightedAddr], [createWeightedAddrForExternalWorkload], the inbound ports, and
    the bodies of the loops of [sendClientAdd] and [sendClientRemove] of
    [endpoint_translator.go]. *)
From S2P Require Import Prelude GoStd K8s PortRange Addresses Addr.

#[local] Open Scope string_scope.
#[local] Open Scope list_scope.
#[local] Open Scope Z_scope.

(** * Messages of linkerd2-proxy-api's destination package *)
Inductive Protocol := H2 | Opaque.
Record ProtocolHint := mkProtocolHint {
  ph_Protocol : option Protocol;
  ph_OpaqueTransport : option Z  (* the inbound port *) }.

Inductive IdentityStrategy :=
  | DnsLikeIdentity (Name : string)
  | UriLikeIdentity (Uri : string).
Record TlsIdentity := mkTlsIdentity {
  ti_Strategy : IdentityStrategy; ti_ServerName : option string }.

(** The HTTP/2 parameters are passed on as they are: a type of the third-party API. *)
Record WeightedAddr (Http2ClientParams : Type) := mkWeightedAddr {
  wa_Addr : TcpAddress; wa_Weight : Z; wa_MetricLabels : strmap;
  wa_TlsIdentity : option TlsIdentity; wa_ProtocolHint : option ProtocolHint;
  wa_AuthorityOverride : option string; wa_Http2 : option Http2ClientParams }.
Arguments mkWeightedAddr {_}.
Arguments wa_Addr {_}.
Arguments wa_Weight {_}.
Arguments wa_MetricLabels {_}.
Arguments wa_TlsIdentity {_}.
Arguments wa_ProtocolHint {_}.
Arguments wa_AuthorityOverride {_}.
Arguments wa_Http2 {_}.

(** * Operations *)
Definition defaultWeight : Z := 10000.
Definition envInboundListenAddr : string := "LINKERD2_PROXY_INBOUND_LISTEN_ADDR".

Definition toAddr (address : Address) : res TcpAddress :=
  (let* ip := ParseProxyIP (IP address) in Ok (mkTcpAddress (Some ip) (Port address)))%go.

(** The first matching environment variable of the proxy containers decides. *)
Definition getInboundPort (pod : Pod) : res Z :=
  let envs := (pod_InitContainers pod ++ pod_Containers pod) ≫= λ containerSpec,
    if bool_decide (c_Name containerSpec = ProxyContainerName) then c_Env containerSpec else [] in
  match list_find (λ envVar, env_Name envVar = envInboundListenAddr) envs with
  | Some (_, envVar) =>
      match netip.ParseAddrPort (env_Value envVar) with
      | Some (_, port) => Ok (u32 port)
      | None => Err "failed to parse inbound port for proxy container"
      end
  | None => Err "failed to find environment variable in any container for given pod spec"
  end.

Definition getInboundPortFromExternalWorkload (ew : ExternalWorkload) : res Z :=
  match list_find (λ p, ps_Name p = ProxyPortName) (ew_Ports ew) with
  | Some (_, p) => Ok (u32 (ps_Port p))
  | None => Err "failed to find port for given ExternalWorkloadSpec"
  end.

Section operations.
Context {Http2ClientParams : Type}.
Abbreviation WA := (WeightedAddr Http2ClientParams).

Definition createWeightedAddrForExternalWorkload (address : Address) (opaquePorts : ports)
    (http2 : option Http2ClientParams) : res WA :=
  (let* tcpAddr := toAddr address in
   match a_ExternalWorkload address with
   (* GetExternalWorkloadLabels dereferences the workload before the nil check *)
   | None => Panic
   | Some ew =>
       let* hint :=
         if OpaqueProtocol address || bool_decide (Port address ∈ opaquePorts) then
           let* port := getInboundPortFromExternalWorkload ew in
           Ok (mkProtocolHint (Some Opaque) (Some port))
         else Ok (mkProtocolHint (Some H2) None) in
       Ok (mkWeightedAddr tcpAddr defaultWeight
             (<["zone" := default "" (Zone address)]>
                (labels.GetExternalWorkloadLabels (OwnerKind address) (OwnerName address) ew))
             (Some (mkTlsIdentity (UriLikeIdentity (ew_Identity ew)) (Some (ew_ServerName ew))))
             (Some hint) None http2)
   end)%go.

(** The name of a pod's identity. *)
Definition podIdentity (sa ns controllerNS trustDomain : string) : string :=
  sa +:+ "." +:+ ns +:+ ".serviceaccount.identity." +:+ controllerNS +:+ "." +:+ trustDomain.

Definition createWeightedAddr (address : Address) (opaquePorts : ports) (enableH2Upgrade : bool)
    (identityTrustDomain controllerNS : string) (meshedHttp2 : option Http2ClientParams) : res WA :=
  (let* tcpAddr := toAddr address in
   match a_Pod address with
   | None => Ok (mkWeightedAddr tcpAddr defaultWeight ∅ None None None None)
   | Some pod =>
       let skippedInboundPorts := getPodSkippedInboundPortsAnnotations pod in
       let controllerNSLabel := get (pod_Labels pod) ControllerNSLabel in
       let '(sa, ns) := labels.GetServiceAccountAndNS pod in
       let metricLabels := <["zone" := default "" (Zone address)]>
         (labels.GetPodLabels (OwnerKind address) (OwnerName address) pod) in
       let isSkippedInboundPort := bool_decide (Port address ∈ skippedInboundPorts) in
       let* hint_http2 :=
         if bool_decide (controllerNSLabel ≠ "") && negb isSkippedInboundPort then
           let* hint :=
             if OpaqueProtocol address || bool_decide (Port address ∈ opaquePorts) then
               let* port := getInboundPort pod in
               Ok (mkProtocolHint (Some Opaque) (Some port))
             else if enableH2Upgrade then Ok (mkProtocolHint (Some H2) None)
             else Ok (mkProtocolHint None None) in
           Ok (Some hint, meshedHttp2)
         else Ok (None, None) in
       let tls :=
         if bool_decide (identityTrustDomain ≠ "") && bool_decide (controllerNSLabel = controllerNS)
            && negb isSkippedInboundPort
         then let id := podIdentity sa ns controllerNSLabel identityTrustDomain in
              Some (mkTlsIdentity (DnsLikeIdentity id) (Some id))
         else None in
       Ok (mkWeightedAddr tcpAddr defaultWeight metricLabels tls hint_http2.1 None hint_http2.2)
   end)%go.

(** What the translator's fields decide about a message. *)
Record config := mkConfig {
  controllerNS : string; identityTrustDomain : string; nodeTopologyZone : string;
  nodeName : string; defaultOpaquePorts : ports;
  enableH2Upgrade : bool; enableEndpointFiltering : bool; enableIPv6 : bool;
  extEndpointZoneWeights : bool; meshedHTTP2ClientParams : option Http2ClientParams }.

(** An address with neither a pod nor a workload, as for a remote gateway. *)
Definition createRemoteAddr (et : config) (address : Address) : res WA :=
  (let* addr := toAddr address in
   let authOverride := if bool_decide (AuthorityOverride address ≠ "")
                       then Some (AuthorityOverride address) else None in
   Ok (if bool_decide (Identity address ≠ "") then
         mkWeightedAddr addr defaultWeight ∅
           (Some (mkTlsIdentity (DnsLikeIdentity (Identity address)) None))
           (if enableH2Upgrade et then Some (mkProtocolHint (Some H2) None) else None)
           authOverride (meshedHTTP2ClientParams et)
       else mkWeightedAddr addr defaultWeight ∅ None None authOverride None))%go.

(** The locality label and the weight of an endpoint in the zone of the node. *)
Definition withZone (et : config) (address : Address) (wa : WA) : WA :=
  let set w l := mkWeightedAddr (wa_Addr wa) w (<["zone_locality" := l]> (wa_MetricLabels wa))
                   (wa_TlsIdentity wa) (wa_ProtocolHint wa) (wa_AuthorityOverride wa)
                   (wa_Http2 wa) in
  match Zone address with
  | Some zone =>
      if bool_decide (nodeTopologyZone et = "") then set (wa_Weight wa) "unknown"
      else if bool_decide (zone = nodeTopologyZone et) then
        set (if extEndpointZoneWeights et then u32 (wa_Weight wa * 10) else wa_Weight wa) "local"
      else set (wa_Weight wa) "remote"
  | None => set (wa_Weight wa) "unknown"
  end.

(** The body of the loop of [sendClientAdd]: [None] when the address is skipped. *)
Definition translate (et : config) (address : Address) : option WA :=
  wa ← res_ok
    match a_Pod address, a_ExternalWorkload address with
    | Some pod, _ =>
        createWeightedAddr address (GetAnnotatedOpaquePorts (Some pod) (defaultOpaquePorts et))
          (enableH2Upgrade et) (identityTrustDomain et) (controllerNS et)
          (meshedHTTP2ClientParams et)
    | None, Some ew =>
        createWeightedAddrForExternalWorkload address
          (GetAnnotatedOpaquePortsForExternalWorkload (Some ew) (defaultOpaquePorts et))
          (meshedHTTP2ClientParams et)
    | None, None => createRemoteAddr et address
    end;
  Some (withZone et address wa).
End operations.
Arguments config : clear implicits.

(** * Lemmas *)
Lemma cut_last_colon_port s ip p :
  netip.ParseAddrPort s = Some (ip, p) → is_u16 p.
Proof.
  unfold netip.ParseAddrPort. intros ([i ps] & _ & Hr)%bind_Some. case_bool_decide; [done|].
  apply bind_Some in Hr as ([i' v6] & _ & Hr). apply bind_Some in Hr as (q & Hq & Hr).
  apply bind_Some in Hr as (a & _ & Hr). case_bool_decide; [done|]. injection Hr as <- <-.
  unfold strconv.ParseUint in Hq. apply bind_Some in Hq as (n & _ & Hq).
  case_bool_decide as Hn; [|done]. injection Hq as <-. unfold is_u16. lia.
Qed.

Lemma getInboundPort_range pod p : getInboundPort pod = Ok p → is_u16 p.
Proof.
  unfold getInboundPort. destruct (list_find _ _) as [[i envVar]|]; [|done].
  destruct (netip.ParseAddrPort (env_Value envVar)) as [[ip q]|] eqn:Hq; [|done].
  intros [= <-]. apply cut_last_colon_port in Hq. unfold is_u16 in *. rewrite u32_id; [done|].
  unfold is_u32. lia.
Qed.

Section lemmas.
Context {Http2ClientParams : Type}.
Implicit Types wa : WeightedAddr Http2ClientParams.
Implicit Types et : config Http2ClientParams.

Lemma createWeightedAddr_addr address op h2 td ns m wa :
  createWeightedAddr address op h2 td ns m = Ok wa →
  toAddr address = Ok (wa_Addr wa) ∧ wa_Weight wa = defaultWeight.
Proof.
  unfold createWeightedAddr. intros (t & -> & H)%res_bind_Ok.
  destruct (a_Pod address) as [pod|]; [|by injection H as <-].
  destruct (labels.GetServiceAccountAndNS pod).
  apply res_bind_Ok in H as (hh & _ & [= <-]). done.
Qed.

Lemma createWeightedAddrForExternalWorkload_addr address op m wa :
  createWeightedAddrForExternalWorkload address op m = Ok wa →
  toAddr address = Ok (wa_Addr wa) ∧ wa_Weight wa = defaultWeight.
Proof.
  unfold createWeightedAddrForExternalWorkload. intros (t & -> & H)%res_bind_Ok.
  destruct (a_ExternalWorkload address); [|done].
  apply res_bind_Ok in H as (hh & _ & [= <-]). done.
Qed.

Lemma createRemoteAddr_addr et address wa :
  createRemoteAddr et address = Ok wa →
  toAddr address = Ok (wa_Addr wa) ∧ wa_Weight wa = defaultWeight.
Proof.
  unfold createRemoteAddr. intros (t & -> & [= <-])%res_bind_Ok. by case_bool_decide.
Qed.

Lemma withZone_addr et address wa : wa_Addr (withZone et address wa) = wa_Addr wa.
Proof. unfold withZone. repeat case_match; done. Qed.

(** A message carries the IP and port of the address, whatever it is backed by. *)
Lemma translate_addr et address wa :
  translate et address = Some wa → toAddr address = Ok (wa_Addr wa).
Proof.
  unfold translate. intros (w & Hw & [= <-])%bind_Some. rewrite withZone_addr.
  destruct (a_Pod address), (a_ExternalWorkload address); apply res_ok_Some in Hw;
    first [by eapply createWeightedAddr_addr | by eapply createWeightedAddrForExternalWorkload_addr
          | by eapply createRemoteAddr_addr].
Qed.
End lemmas.

(** * Properties *)

(** what the proxy is told about a pod.  The weight is the default one; a TLS identity
    is given exactly when the pod belongs to this control plane, the mesh has a trust
    domain and the port is not a skipped inbound port; a protocol hint exactly when the pod
    belongs to any control plane and the port is not skipped; the hint is "opaque" exactly
    when a Server or the opaque ports say so, and only then it names the proxy's inbound
    port, a 16-bit port. *)
Theorem createWeightedAddr_spec {Http2} address pod op h2 td ns (m : option Http2) wa :
  a_Pod address = Some pod → createWeightedAddr address op h2 td ns m = Ok wa →
  let label := get (pod_Labels pod) ControllerNSLabel in
  let skipped := getPodSkippedInboundPortsAnnotations pod in
  wa_Weight wa = 10000
  ∧ (is_Some (wa_TlsIdentity wa) ↔ td ≠ "" ∧ label = ns ∧ Port address ∉ skipped)
  ∧ (is_Some (wa_ProtocolHint wa) ↔ label ≠ "" ∧ Port address ∉ skipped)
  ∧ (∀ hint, wa_ProtocolHint wa = Some hint →
       (ph_Protocol hint = Some Opaque ↔ OpaqueProtocol address = true ∨ Port address ∈ op)
       ∧ (ph_Protocol hint = Some Opaque ↔ is_Some (ph_OpaqueTransport hint))
       ∧ (∀ p, ph_OpaqueTransport hint = Some p → is_u16 p)).
Proof.
  intros Hpod. unfold createWeightedAddr. intros (t & _ & H)%res_bind_Ok. rewrite Hpod in H.
  destruct (labels.GetServiceAccountAndNS pod) as [sa sns].
  apply res_bind_Ok in H as (hh & Hh & [= <-]). simpl. split_and!; [done|..].
  - repeat case_bool_decide; simpl; split; try (intros [? ?]; done); naive_solver.
  - destruct (bool_decide _ && _) eqn:Hc in Hh.
    + apply andb_true_iff in Hc as [H1 H2]. apply bool_decide_eq_true in H1.
      apply negb_true_iff, bool_decide_eq_false in H2.
      apply res_bind_Ok in Hh as (hint & _ & [= <-]). simpl. split; [done|by eexists].
    + injection Hh as <-. simpl. split; [by intros [? ?]|]. intros [H1 H2].
      rewrite bool_decide_true, bool_decide_false in Hc by done. done.
  - intros hint Hhint. destruct (bool_decide _ && _) in Hh; [|injection Hh as <-; done].
    apply res_bind_Ok in Hh as (hint' & Hp & [= <-]). injection Hhint as <-.
    destruct (OpaqueProtocol address || _) eqn:Ho in Hp.
    + apply orb_true_iff in Ho. rewrite bool_decide_eq_true in Ho.
      apply res_bind_Ok in Hp as (p & Hp & [= <-]). simpl. split_and!; [done|done|].
      intros ? [= <-]. by eapply getInboundPort_range.
    + apply orb_false_iff in Ho as [H1 H2]. apply bool_decide_eq_false in H2. rewrite H1.
      destruct h2; injection Hp as <-; simpl; split_and!; try done; split; try done;
        try (by intros [? ?]); naive_solver.
Qed.

Definition ex_meshed_pod : Pod := mkPod "web-1" "emojivoto" "7" {[ControllerNSLabel := "linkerd"]} ∅
  "web" "node-a" false []
  [mkContainer ProxyContainerName [] [mkEnvVar envInboundListenAddr "0.0.0.0:4143"]]
  PodRunning "10.0.0.1" [] "" [] false.
Definition ex_address : Address :=
  mkAddress "10.0.0.1" 8080 (Some ex_meshed_pod) None "web" "deployment" "" "" None None true.
Definition ex_wa : WeightedAddr unit :=
  mkWeightedAddr (mkTcpAddress (Some (Ipv4 167772161)) 8080) 10000
    (<["zone" := ""]> (labels.GetPodLabels "deployment" "web" ex_meshed_pod))
    (Some (mkTlsIdentity (DnsLikeIdentity "web.emojivoto.serviceaccount.identity.linkerd.cluster.local")
       (Some "web.emojivoto.serviceaccount.identity.linkerd.cluster.local")))
    (Some (mkProtocolHint (Some Opaque) (Some 4143))) None (Some tt).

Lemma createWeightedAddr_spec_witness :
  createWeightedAddr ex_address ∅ true "cluster.local" "linkerd" (Some tt) = Ok ex_wa ∧
  (is_Some (wa_TlsIdentity ex_wa) ↔ "cluster.local" ≠ "" ∧
     get (pod_Labels ex_meshed_pod) ControllerNSLabel = "linkerd" ∧
     Port ex_address ∉ getPodSkippedInboundPortsAnnotations ex_meshed_pod).
Proof.
  split; [reflexivity|].
  apply (createWeightedAddr_spec ex_address ex_meshed_pod ∅ true "cluster.local" "linkerd" (Some tt));
    reflexivity.
Defined.
