(* ===== verification/EndpointTranslator.v ===== *)
(** [endpointTranslator] of [endpoint_translator.go]: the listener that filters the
    addresses of a service for one client, diffs them against what it sent before, and
    streams the difference, behind a bounded queue.

    The address sets are keyed by [ID]; [reflect.DeepEqual] compares the modelled fields.
    A failed [stream.Send] is only logged by the source, so the messages are those passed
    to [Send]. *)
From S2P Require Import Prelude GoStd K8s PortRange Addresses Addr WeightedAddr PortPublisher.

#[local] Open Scope string_scope.
#[local] Open Scope list_scope.
#[local] Open Scope Z_scope.

(** * State *)
Inductive Update (Http2 : Type) :=
  | Update_Add (Addrs : list (WeightedAddr Http2)) (MetricLabels : strmap)
  | Update_Remove (Addrs : list TcpAddress).
Arguments Update_Add {_}.
Arguments Update_Remove {_}.

Record endpointTranslator (Http2 : Type) := mkEndpointTranslator {
  et_config : config Http2; availableEndpoints : AddressSet; filteredSnapshot : AddressSet }.
Arguments mkEndpointTranslator {_}.
Arguments et_config {_}.
Arguments availableEndpoints {_}.
Arguments filteredSnapshot {_}.

Definition newEmptyAddressSet : AddressSet := mkAddressSet ∅ ∅ false.

(** The zone of the client's node; [nodeLabels] is the label map of the node, [None] when
    the node is not found. *)
Definition getNodeTopologyZone (nodeLabels : option strmap) : res string :=
  match nodeLabels with
  | None => Err "node not found"
  | Some l => Ok (get l LabelTopologyZone)
  end.

Definition newEndpointTranslator {Http2} (c : config Http2) (nodeLabels : option strmap)
    : endpointTranslator Http2 :=
  let zone := default "" (res_ok (getNodeTopologyZone nodeLabels)) in
  mkEndpointTranslator
    (mkConfig (controllerNS c) (identityTrustDomain c) zone (nodeName c) (defaultOpaquePorts c)
       (enableH2Upgrade c) (enableEndpointFiltering c) (enableIPv6 c) (extEndpointZoneWeights c)
       (meshedHTTP2ClientParams c))
    newEmptyAddressSet newEmptyAddressSet.

(** * Filtering *)
Section filtering.
Context {Http2 : Type} (et : config Http2).

Definition filterAddresses (available : AddressSet) : AddressSet :=
  let addrs := Addresses available in
  if negb (enableEndpointFiltering et) then mkAddressSet addrs (Labels available) false
  else if LocalTrafficPolicy available then
    mkAddressSet
      (filter (λ e, pod_NodeName <$> a_Pod e.2 = Some (nodeName et)) addrs)
      (Labels available) (LocalTrafficPolicy available)
  else if bool_decide (map_Exists (λ _ address, zones address = []) addrs) then
    mkAddressSet addrs (Labels available) (LocalTrafficPolicy available)
  else
    let filtered := filter (λ e, nodeTopologyZone et ∈ zones e.2) addrs in
    mkAddressSet (if bool_decide (0 < size filtered)%nat then filtered else addrs)
      (Labels available) (LocalTrafficPolicy available).

(** The ID of the same workload in the other family. *)
Definition altID (id : ID) : ID := mkID (Namespace id) (Name id) IPv6Protocol.

Definition selectAddressFamily (addresses : AddressSet) : AddressSet :=
  mkAddressSet
    (filter (λ e,
        ¬ (IPFamily e.1 = IPv6Protocol ∧ enableIPv6 et = false)
        ∧ ¬ (IPFamily e.1 = IPv4Protocol ∧ enableIPv6 et = true
             ∧ is_Some (Addresses addresses !! altID e.1)))
       (Addresses addresses))
    (Labels addresses) (LocalTrafficPolicy addresses).

(** What the client should see of the available endpoints. *)
Definition visible (available : AddressSet) : AddressSet :=
  selectAddressFamily (filterAddresses available).
End filtering.

(** * Operations *)
Section operations.
Context {Http2 : Type} `{!MapRange}.
Abbreviation translator := (endpointTranslator Http2).

Definition diffEndpoints (et : translator) (filtered : AddressSet) : AddressSet * AddressSet :=
  let snapshot := Addresses (filteredSnapshot et) in
  let add := map_imap (λ id new,
      match snapshot !! id with
      | Some old => if bool_decide (old = new) then None else Some new
      | None => Some new
      end) (Addresses filtered) in
  let remove := map_remove (Addresses filtered) snapshot in
  (mkAddressSet add (Labels filtered) false, mkAddressSet remove (Labels filtered) false).

Definition sendClientAdd (et : translator) (set : AddressSet) : Update Http2 :=
  Update_Add (omap (λ e, translate (et_config et) e.2) (range (Addresses set))) (Labels set).

Definition sendClientRemove (set : AddressSet) : Update Http2 :=
  Update_Remove (omap (λ e, res_ok (toAddr e.2)) (range (Addresses set))).

Definition sendFilteredUpdate (et : translator) : translator * list (Update Http2) :=
  let filtered := filterAddresses (et_config et) (availableEndpoints et) in
  let filtered := selectAddressFamily (et_config et) filtered in
  let '(diffAdd, diffRemove) := diffEndpoints et filtered in
  (mkEndpointTranslator (et_config et) (availableEndpoints et) filtered,
   (if bool_decide (0 < len diffAdd)%nat then [sendClientAdd et diffAdd] else [])
   ++ (if bool_decide (0 < len diffRemove)%nat then [sendClientRemove diffRemove] else [])).

Definition set_available (a : AddressSet) (et : translator) : translator :=
  mkEndpointTranslator (et_config et) a (filteredSnapshot et).

Definition add (et : translator) (set : AddressSet) : translator * list (Update Http2) :=
  sendFilteredUpdate (set_available
    (mkAddressSet (map_assign (Addresses set) (Addresses (availableEndpoints et)))
       (Labels set) (LocalTrafficPolicy set)) et).

Definition remove (et : translator) (set : AddressSet) : translator * list (Update Http2) :=
  sendFilteredUpdate (set_available
    (mkAddressSet (map_remove (Addresses set) (Addresses (availableEndpoints et)))
       (Labels (availableEndpoints et)) (LocalTrafficPolicy (availableEndpoints et))) et).

Definition noEndpoints (et : translator) (exists_ : bool) : translator * list (Update Http2) :=
  sendFilteredUpdate (set_available
    (mkAddressSet ∅ (Labels (availableEndpoints et)) (LocalTrafficPolicy (availableEndpoints et))) et).

(** The queued updates are the listener's events. *)
Definition processUpdate (et : translator) (update : ListenerEvent)
    : translator * list (Update Http2) :=
  match update with
  | Add set => add et set
  | Remove set => remove et set
  | NoEndpoints exists_ => noEndpoints et exists_
  end.

Fixpoint processAll (et : translator) (updates : list ListenerEvent)
    : translator * list (Update Http2) :=
  match updates with
  | [] => (et, [])
  | u :: updates => let '(et, m) := processUpdate et u in
                    let '(et, m') := processAll et updates in (et, m ++ m')
  end.
End operations.

(** * The client of the stream

    What a proxy knows after the messages it received: an address added again replaces
    the earlier entry of the same IP and port. *)
Abbreviation client Http2 := (gmap TcpAddress (WeightedAddr Http2)).

Definition client_update {Http2} (c : client Http2) (u : Update Http2) : client Http2 :=
  match u with
  | Update_Add addrs _ => foldl (λ c wa, <[wa_Addr wa := wa]> c) c addrs
  | Update_Remove addrs => foldl (λ c t, delete t c) c addrs
  end.
Definition client_updates {Http2} : client Http2 → list (Update Http2) → client Http2 :=
  foldl client_update.

(** Each ID has its own location: the assumption under which IDs and addresses agree. *)
Definition located (loc : ID → TcpAddress) (s : AddressSet) : Prop :=
  ∀ id a, Addresses s !! id = Some a → toAddr a = Ok (loc id).
Definition event_located (loc : ID → TcpAddress) (e : ListenerEvent) : Prop :=
  match e with Add s => located loc s | _ => True end.

(** * Lemmas *)
Section filter_lemmas.
Context {Http2 : Type} (et : config Http2).

Lemma filterAddresses_sub available : Addresses (filterAddresses et available) ⊆ Addresses available.
Proof. unfold filterAddresses. repeat case_match; simpl; try done; apply map_filter_subseteq. Qed.

Lemma selectAddressFamily_sub s : Addresses (selectAddressFamily et s) ⊆ Addresses s.
Proof. apply map_filter_subseteq. Qed.

Lemma visible_sub s : Addresses (visible et s) ⊆ Addresses s.
Proof. etrans; [apply selectAddressFamily_sub|apply filterAddresses_sub]. Qed.

Lemma visible_empty : visible et newEmptyAddressSet = newEmptyAddressSet.
Proof.
  assert (filterAddresses et newEmptyAddressSet = newEmptyAddressSet) as Hf.
  { unfold filterAddresses. destruct (enableEndpointFiltering et); simpl; [|done].
    case_bool_decide as He; [done|]. by rewrite !map_filter_empty. }
  unfold visible. rewrite Hf. unfold selectAddressFamily. simpl. by rewrite map_filter_empty.
Qed.

Lemma lookup_selectAddressFamily s id a :
  Addresses (selectAddressFamily et s) !! id = Some a ↔
    Addresses s !! id = Some a
    ∧ ¬ (IPFamily id = IPv6Protocol ∧ enableIPv6 et = false)
    ∧ ¬ (IPFamily id = IPv4Protocol ∧ enableIPv6 et = true ∧ is_Some (Addresses s !! altID id)).
Proof. unfold selectAddressFamily. simpl. rewrite map_lookup_filter_Some. done. Qed.
End filter_lemmas.

Section client_lemmas.
Context {Http2 : Type}.
Implicit Types c : client Http2.

Lemma lookup_client_add c addrs t :
  (∀ w1 w2, w1 ∈ addrs → w2 ∈ addrs → wa_Addr w1 = wa_Addr w2 → w1 = w2) →
  ∀ w, foldl (λ c wa, <[wa_Addr wa := wa]> c) c addrs !! t = Some w ↔
    (w ∈ addrs ∧ wa_Addr w = t) ∨ ((∀ w', w' ∈ addrs → wa_Addr w' ≠ t) ∧ c !! t = Some w).
Proof.
  induction addrs as [|x addrs IH] using rev_ind; intros Hinj w.
  { simpl. split; [intros; right; split; [by intros ? ?%not_elem_of_nil|done]|].
    intros [[?%not_elem_of_nil _]|[_ ?]]; done. }
  rewrite foldl_app. simpl. destruct (decide (wa_Addr x = t)) as [<-|Hne].
  - rewrite lookup_insert_eq. split.
    + intros [= <-]. left. set_solver.
    + intros [[Hw Heq]|[Hno _]]; [|destruct (Hno x); set_solver].
      f_equal. apply Hinj; set_solver.
  - rewrite lookup_insert_ne by done. rewrite IH by set_solver. set_solver.
Qed.

Lemma lookup_client_remove c (ts : list TcpAddress) t :
  foldl (λ c t, delete t c) c ts !! t = if decide (t ∈ ts) then None else c !! t.
Proof.
  revert c. induction ts as [|x ts IH]; intros c; simpl; [done|]. rewrite IH.
  destruct (decide (t ∈ ts)); [by rewrite decide_True by set_solver|].
  destruct (decide (x = t)) as [->|].
  - by rewrite lookup_delete_eq, decide_True by set_solver.
  - by rewrite lookup_delete_ne, decide_False by set_solver.
Qed.
End client_lemmas.

Section translator.
Context {Http2 : Type} `{!MapRange}.
Implicit Types et : endpointTranslator Http2.

Lemma lookup_diffEndpoints_add et f id :
  Addresses (diffEndpoints et f).1 !! id =
    (new ← Addresses f !! id;
     match Addresses (filteredSnapshot et) !! id with
     | Some old => if bool_decide (old = new) then None else Some new
     | None => Some new
     end).
Proof. simpl. by rewrite map_lookup_imap. Qed.

Lemma lookup_diffEndpoints_remove et f id :
  Addresses (diffEndpoints et f).2 !! id =
    match Addresses f !! id with
    | Some _ => None
    | None => Addresses (filteredSnapshot et) !! id
    end.
Proof. simpl. apply lookup_map_remove. Qed.

Lemma elem_of_sendClientAdd et s w :
  w ∈ omap (λ e, translate (et_config et) e.2) (range (Addresses s)) ↔
    ∃ id a, Addresses s !! id = Some a ∧ translate (et_config et) a = Some w.
Proof.
  rewrite list_elem_of_omap. split.
  - intros ([id a] & Hin%elem_of_range & Ht). eauto.
  - intros (id & a & Hin & Ht). exists (id, a). split; [by apply elem_of_range|done].
Qed.

Lemma elem_of_sendClientRemove loc s t :
  located loc s →
  t ∈ omap (λ e : ID * Address, res_ok (toAddr e.2)) (range (Addresses s)) ↔
    ∃ id, is_Some (Addresses s !! id) ∧ t = loc id.
Proof.
  intros Hloc. rewrite list_elem_of_omap. split.
  - intros ([id a] & Hin%elem_of_range & Ht). simpl in Ht. rewrite (Hloc _ _ Hin) in Ht.
    injection Ht as <-. eauto.
  - intros (id & [a Ha] & ->). exists (id, a). split; [by apply elem_of_range|].
    simpl. by rewrite (Hloc _ _ Ha).
Qed.

(** The client agrees with a snapshot: it has the message of every address that
    translates, and nothing at a location that is not of the snapshot. *)
Definition client_agrees (et : config Http2) (loc : ID → TcpAddress) (c : client Http2)
    (snap : gmap ID Address) : Prop :=
  (∀ id a w, snap !! id = Some a → translate et a = Some w → c !! loc id = Some w)
  ∧ (∀ t w, c !! t = Some w → ∃ id, is_Some (snap !! id) ∧ t = loc id).

Lemma range_len_0 (s : AddressSet) : ¬ (0 < len s)%nat → range (Addresses s) = [].
Proof.
  unfold len. intros Hn. apply nil_length_inv. rewrite length_range. lia.
Qed.

(** The two guards on empty sets do not change what the client sees. *)
Lemma client_sendFilteredUpdate et c :
  client_updates c (sendFilteredUpdate et).2
  = let d := diffEndpoints et (visible (et_config et) (availableEndpoints et)) in
    client_update (client_update c (sendClientAdd et d.1)) (sendClientRemove d.2).
Proof.
  unfold sendFilteredUpdate. change (selectAddressFamily _ _) with
    (visible (et_config et) (availableEndpoints et)).
  destruct (diffEndpoints et _) as [a r]. cbn [fst snd].
  repeat case_bool_decide; cbn [client_updates foldl app]; try done;
    repeat match goal with Hl : ¬ (0 < len _)%nat |- _ => apply range_len_0 in Hl end;
    unfold sendClientAdd, sendClientRemove;
    repeat match goal with Hl : range _ = [] |- _ => rewrite Hl end; done.
Qed.

Lemma client_add_step et loc c f :
  Inj (=) (=) loc → located loc (filteredSnapshot et) → located loc f →
  let c' := client_update c (sendClientAdd et (diffEndpoints et f).1) in
  ∀ t w, c' !! t = Some w ↔
    (∃ id a, Addresses (diffEndpoints et f).1 !! id = Some a
       ∧ translate (et_config et) a = Some w ∧ t = loc id)
    ∨ ((∀ id a w', Addresses (diffEndpoints et f).1 !! id = Some a →
          translate (et_config et) a = Some w' → t ≠ loc id) ∧ c !! t = Some w).
Proof.
  intros Hinj Hls Hlf c' t w. unfold c', sendClientAdd, client_update.
  assert (∀ id a w', Addresses (diffEndpoints et f).1 !! id = Some a →
    translate (et_config et) a = Some w' → wa_Addr w' = loc id) as Haddr.
  { intros id a w' Ha Ht%translate_addr. rewrite lookup_diffEndpoints_add in Ha.
    apply bind_Some in Ha as (n & Hn & Ha).
    assert (n = a) as -> by (repeat case_match; congruence).
    rewrite (Hlf _ _ Hn) in Ht. congruence. }
  rewrite lookup_client_add.
  - setoid_rewrite elem_of_sendClientAdd. split.
    + intros [((id & a & Ha & Ht) & <-)|[Hno Hc]]; [left|right].
      * exists id, a. split_and!; [done|done|]. by eapply Haddr.
      * split; [|done]. intros id a w' Ha Ht ->. apply (Hno w'); [by eauto|]. by eapply Haddr.
    + intros [(id & a & Ha & Ht & ->)|[Hno Hc]]; [left|right].
      * split; [by eauto|]. by eapply Haddr.
      * split; [|done]. intros w' (id & a & Ha & Ht) <-. eapply Hno; [done|done|]. by eapply Haddr.
  - intros w1 w2. rewrite !elem_of_sendClientAdd.
    intros (id1 & a1 & Ha1 & Ht1) (id2 & a2 & Ha2 & Ht2).
    rewrite (Haddr _ _ _ Ha1 Ht1), (Haddr _ _ _ Ha2 Ht2). intros ->%(inj loc). congruence.
Qed.

Lemma client_agrees_step et loc c f :
  Inj (=) (=) loc → located loc (filteredSnapshot et) → located loc f →
  client_agrees (et_config et) loc c (Addresses (filteredSnapshot et)) →
  client_agrees (et_config et) loc
    (client_update (client_update c (sendClientAdd et (diffEndpoints et f).1))
       (sendClientRemove (diffEndpoints et f).2)) (Addresses f).
Proof.
  intros Hinj Hls Hlf [Hcomp Hsound].
  pose proof (client_add_step et loc c f Hinj Hls Hlf) as Hadd. cbv zeta in Hadd.
  set (c' := client_update c _) in *.
  assert (located loc (diffEndpoints et f).2) as Hlr.
  { intros id a. rewrite lookup_diffEndpoints_remove. case_match; [done|]. apply Hls. }
  assert (∀ t w, client_update c' (sendClientRemove (diffEndpoints et f).2) !! t = Some w ↔
    ¬ (∃ id, is_Some (Addresses (diffEndpoints et f).2 !! id) ∧ t = loc id) ∧ c' !! t = Some w) as Hrem.
  { intros t w. unfold sendClientRemove, client_update at 1. rewrite lookup_client_remove.
    rewrite <-(elem_of_sendClientRemove loc) by done. case_decide; naive_solver. }
  split.
  - intros id a w Ha Ht. apply Hrem. split; last first.
    + apply Hadd. destruct (Addresses (diffEndpoints et f).1 !! id) as [a'|] eqn:Hd.
      * left. exists id, a'. split_and!; [done| |done]. rewrite lookup_diffEndpoints_add, Ha in Hd. simpl in Hd.
        repeat case_match; congruence.
      * right. split; [intros id' a' w' Hd' _ ->%(inj loc); congruence|].
        rewrite lookup_diffEndpoints_add, Ha in Hd. simpl in Hd.
        destruct (Addresses (filteredSnapshot et) !! id) as [o|] eqn:Ho; [|done].
        case_bool_decide; [|done]. subst o. by eapply Hcomp.
    + intros (id' & [a' Ha'] & ->%(inj loc)). rewrite lookup_diffEndpoints_remove, Ha in Ha'. done.
  - intros t w [Hd [Hl|[_ Hc]]%Hadd]%Hrem.
    + destruct Hl as (id & a & Ha & _ & ->). exists id. split; [|done]. rewrite lookup_diffEndpoints_add in Ha.
      destruct (Addresses f !! id); [by eexists|done].
    + destruct (Hsound t w Hc) as (id & [o Ho] & ->). exists id. split; [|done].
      destruct (Addresses f !! id) eqn:Hf; [by eexists|]. destruct Hd. exists id. split; [|done].
      rewrite lookup_diffEndpoints_remove, Hf. by eexists.
Qed.

(** The state of a translator whose messages [c] is the client's view of. *)
Definition tr_inv (loc : ID → TcpAddress) (et : endpointTranslator Http2) (c : client Http2) : Prop :=
  filteredSnapshot et = visible (et_config et) (availableEndpoints et)
  ∧ located loc (availableEndpoints et)
  ∧ client_agrees (et_config et) loc c (Addresses (filteredSnapshot et)).

Lemma located_sub loc s s' : Addresses s' ⊆ Addresses s → located loc s → located loc s'.
Proof. intros Hsub Hl id a Ha. apply Hl. by eapply lookup_weaken. Qed.

Lemma sendFilteredUpdate_snapshot et :
  filteredSnapshot (sendFilteredUpdate et).1 = visible (et_config et) (availableEndpoints et)
  ∧ availableEndpoints (sendFilteredUpdate et).1 = availableEndpoints et
  ∧ et_config (sendFilteredUpdate et).1 = et_config et.
Proof. done. Qed.

Lemma sendFilteredUpdate_inv loc et a c :
  Inj (=) (=) loc → tr_inv loc et c → located loc a →
  tr_inv loc (sendFilteredUpdate (set_available a et)).1
    (client_updates c (sendFilteredUpdate (set_available a et)).2).
Proof.
  intros Hinj (Hsnap & Hloc & Hag) Ha.
  destruct (sendFilteredUpdate_snapshot (set_available a et)) as (H1 & H2 & H3).
  unfold tr_inv. rewrite H1, H2, H3. split_and!; [done|done|]. rewrite client_sendFilteredUpdate.
  cbv zeta. apply (client_agrees_step (set_available a et)); [done| | |done].
  - simpl. rewrite Hsnap. eapply located_sub; [apply visible_sub|done].
  - eapply located_sub; [apply visible_sub|done].
Qed.

(** What the listener knows is what the calls on it amount to. *)
Lemma processUpdate_available et u :
  Addresses (availableEndpoints (processUpdate et u).1) = view_event (Addresses (availableEndpoints et)) u
  ∧ et_config (processUpdate et u).1 = et_config et
  ∧ filteredSnapshot (processUpdate et u).1
    = visible (et_config et) (availableEndpoints (processUpdate et u).1).
Proof. by destruct u. Qed.

Lemma processUpdate_inv loc et u c :
  Inj (=) (=) loc → event_located loc u → tr_inv loc et c →
  tr_inv loc (processUpdate et u).1 (client_updates c (processUpdate et u).2).
Proof.
  intros Hinj Hu Hinv. pose proof Hinv as (_ & Hloc & _).
  destruct u as [s|s|e]; apply sendFilteredUpdate_inv; try done.
  - intros id a. simpl. rewrite lookup_map_assign. destruct (Addresses s !! id) eqn:E; [|apply Hloc].
    intros [= <-]. by apply Hu.
  - intros id a. simpl. rewrite lookup_map_remove. destruct (Addresses s !! id); [done|apply Hloc].
Qed.

Lemma processAll_app et us1 us2 :
  processAll et (us1 ++ us2)
  = let '(et1, m1) := processAll et us1 in
    let '(et2, m2) := processAll et1 us2 in (et2, m1 ++ m2).
Proof.
  revert et. induction us1 as [|u us IH]; intros et; simpl.
  { by destruct (processAll et us2). }
  destruct (processUpdate et u) as [et1 m1]. rewrite IH. destruct (processAll et1 us) as [et2 m2].
  destruct (processAll et2 us2) as [et3 m3]. by rewrite app_assoc.
Qed.

Lemma processAll_inv loc et us c :
  Inj (=) (=) loc → Forall (event_located loc) us → tr_inv loc et c →
  tr_inv loc (processAll et us).1 (client_updates c (processAll et us).2).
Proof.
  intros Hinj Hus. revert et c. induction Hus as [|u us Hu _ IH]; intros et c Hinv; [done|]. simpl.
  apply (processUpdate_inv loc et u c) in Hinv; [|done..].
  destruct (processUpdate et u) as [et1 m1]. specialize (IH et1 _ Hinv).
  destruct (processAll et1 us) as [et2 m2]. simpl in *. unfold client_updates. rewrite foldl_app. done.
Qed.

Lemma processAll_available et us :
  Addresses (availableEndpoints (processAll et us).1) = view_events (Addresses (availableEndpoints et)) us
  ∧ et_config (processAll et us).1 = et_config et.
Proof.
  revert et. induction us as [|u us IH]; intros et; simpl; [done|].
  destruct (processUpdate_available et u) as (Ha & Hc & _).
  destruct (processUpdate et u) as [et1 m1]. simpl in *. specialize (IH et1).
  destruct (processAll et1 us) as [et2 m2]. simpl in *. rewrite Ha, Hc in IH. done.
Qed.

Lemma processAll_snapshot et us :
  filteredSnapshot et = visible (et_config et) (availableEndpoints et) →
  filteredSnapshot (processAll et us).1
    = visible (et_config et) (availableEndpoints (processAll et us).1).
Proof.
  revert et. induction us as [|u us IH]; intros et Hs; simpl; [done|].
  destruct (processUpdate_available et u) as (_ & Hc & Hf).
  destruct (processUpdate et u) as [et1 m1]. simpl in *. rewrite <-Hc in Hf. specialize (IH et1 Hf).
  destruct (processAll et1 us) as [et2 m2]. simpl in *. by rewrite <-Hc.
Qed.

Lemma new_inv loc (c : config Http2) nl : tr_inv loc (newEndpointTranslator c nl) ∅.
Proof.
  split_and!.
  - simpl. by rewrite visible_empty.
  - intros id a. simpl. by rewrite lookup_empty.
  - split; [intros id a w|intros t w]; simpl; by rewrite lookup_empty.
Qed.
End translator.

(** The translator is an EndpointUpdateListener that knows its available endpoints. *)
#[export] Instance endpointTranslator_listener {Http2} `{!MapRange} :
  EndpointUpdateListener (endpointTranslator Http2) := {|
  listen et u := (processUpdate et u).1;
  known et := Addresses (availableEndpoints et);
  known_listen et u := proj1 (processUpdate_available et u) |}.

(** * The update queue

    [Add], [Remove] and [NoEndpoints] only enqueue; the goroutine of [Start] takes the
    updates off the queue.  The channels are modelled by their contents and whether they
    are closed: a send on a closed channel and a second close panic. *)
Definition updateQueueCapacity : nat := 100.

Record queue (Http2 : Type) := mkQueue {
  q_et : endpointTranslator Http2;
  updates : list ListenerEvent; updates_closed : bool;
  endStream_closed : bool; stop_closed : bool; running : bool;
  sent : list (Update Http2) }.
Arguments mkQueue {_}.
Arguments q_et {_}.
Arguments updates {_}.
Arguments updates_closed {_}.
Arguments endStream_closed {_}.
Arguments stop_closed {_}.
Arguments running {_}.
Arguments sent {_}.

Section queue.
Context {Http2 : Type} `{!MapRange}.

(** A new translator after [Start]. *)
Definition newQueue (et : endpointTranslator Http2) : queue Http2 :=
  mkQueue et [] false false false true [].

Definition enqueueUpdate (q : queue Http2) (update : ListenerEvent) : res (queue Http2) :=
  if updates_closed q then Panic
  else if bool_decide (length (updates q) < updateQueueCapacity)%nat then
    Ok (mkQueue (q_et q) (updates q ++ [update]) (updates_closed q) (endStream_closed q)
          (stop_closed q) (running q) (sent q))
  else if endStream_closed q then Ok q
  else Ok (mkQueue (q_et q) (updates q) (updates_closed q) true (stop_closed q) (running q) (sent q)).

Definition Stop (q : queue Http2) : res (queue Http2) :=
  if stop_closed q then Panic
  else Ok (mkQueue (q_et q) (updates q) (updates_closed q) (endStream_closed q) true
             (running q) (sent q)).

Definition DrainAndStop (q : queue Http2) : res (queue Http2) :=
  if updates_closed q then Panic
  else Ok (mkQueue (q_et q) (updates q) true (endStream_closed q) (stop_closed q)
             (running q) (sent q)).

(** One receive of the goroutine: the next update, or the end of a drained queue. *)
Definition receive (q : queue Http2) : option (queue Http2) :=
  if negb (running q) then None else
  match updates q with
  | u :: rest =>
      let '(et, m) := processUpdate (q_et q) u in
      Some (mkQueue et rest (updates_closed q) (endStream_closed q) (stop_closed q) true (sent q ++ m))
  | [] =>
      if updates_closed q
      then Some (mkQueue (q_et q) [] true (endStream_closed q) (stop_closed q) false (sent q))
      else None
  end.

(** The queue and the updates passed to [enqueueUpdate] so far.  The goroutine chooses
    freely between the queue and the stop channel; the stream may be ended by others. *)
Inductive q_step : queue Http2 * list ListenerEvent → queue Http2 * list ListenerEvent → Prop :=
  | q_enqueue q h u q' : enqueueUpdate q u = Ok q' → q_step (q, h) (q', h ++ [u])
  | q_receive q h q' : receive q = Some q' → q_step (q, h) (q', h)
  | q_stopped q h : running q = true → stop_closed q = true →
      q_step (q, h) (mkQueue (q_et q) (updates q) (updates_closed q) (endStream_closed q) true
                       false (sent q), h)
  | q_Stop q h q' : Stop q = Ok q' → q_step (q, h) (q', h)
  | q_DrainAndStop q h q' : DrainAndStop q = Ok q' → q_step (q, h) (q', h)
  | q_endStream q h :
      q_step (q, h) (mkQueue (q_et q) (updates q) (updates_closed q) true (stop_closed q)
                       (running q) (sent q), h).

(** The updates processed so far are a prefix of what was accepted, in order; nothing is
    missing unless the stream has been ended. *)
Definition q_inv (et0 : endpointTranslator Http2) (s : queue Http2 * list ListenerEvent) : Prop :=
  let '(q, h) := s in
  (length (updates q) ≤ updateQueueCapacity)%nat
  ∧ ∃ processed, (q_et q, sent q) = processAll et0 processed
      ∧ sublist (processed ++ updates q) h
      ∧ (endStream_closed q = false → processed ++ updates q = h).

Lemma q_step_inv et0 s s' : q_inv et0 s → q_step s s' → q_inv et0 s'.
Proof.
  intros Hinv Hstep.
  destruct Hstep as [q h u q' He|q h q' Hr|q h _ _|q h q' Hs|q h q' Hd|q h];
    destruct Hinv as (Hlen & pr & Hpr & Hsub & Hall); unfold q_inv.
  - unfold enqueueUpdate in He. destruct (updates_closed q); [done|].
    case_bool_decide as Hl; [|destruct (endStream_closed q) eqn:Hes]; injection He as <-; simpl.
    + split; [rewrite length_app; simpl; lia|]. exists pr. rewrite app_assoc. split_and!; [done| |].
      * by apply sublist_app.
      * intros Hes. by rewrite Hall.
    + split; [done|]. exists pr. split_and!; [done| |congruence]. by apply sublist_inserts_r.
    + split; [done|]. exists pr. split_and!; [done| |done]. by apply sublist_inserts_r.
  - unfold receive in Hr. destruct (running q); [|done]. simpl in Hr.
    destruct (updates q) as [|u rest] eqn:Hu.
    + destruct (updates_closed q); [|done]. injection Hr as <-. simpl.
      split; [lia|]. exists pr. split_and!; done.
    + destruct (processUpdate (q_et q) u) as [et1 m] eqn:Hp. injection Hr as <-. simpl in *.
      split; [lia|]. exists (pr ++ [u]). rewrite <-app_assoc. split_and!; [|done|done].
      rewrite processAll_app, <-Hpr. simpl. rewrite Hp. by rewrite app_nil_r.
  - split; [done|]. by exists pr.
  - unfold Stop in Hs. destruct (stop_closed q); [done|]. injection Hs as <-.
    split; [done|]. by exists pr.
  - unfold DrainAndStop in Hd. destruct (updates_closed q); [done|]. injection Hd as <-.
    split; [done|]. by exists pr.
  - split; [done|]. exists pr. split_and!; done.
Qed.

Lemma q_reachable_inv et0 s : rtc q_step (newQueue et0, []) s → q_inv et0 s.
Proof.
  intros Hs. assert (q_inv et0 (newQueue et0, [])) as Hi.
  { split; [simpl; lia|]. exists []. split_and!; [done|constructor|done]. }
  revert Hi. induction Hs; eauto using q_step_inv.
Qed.
End queue.

(** * Properties *)


(** one address per workload.  With IPv6 off no IPv6 endpoint is selected and all others
    are; with IPv6 on, every IPv6 endpoint is selected, an IPv4 endpoint exactly when its
    workload has no IPv6 one, so that no workload is selected in both families and none
    is lost. *)
Theorem selectAddressFamily_spec {Http2} (et : config Http2) s :
  let sel := Addresses (selectAddressFamily et s) in
  (enableIPv6 et = false → ∀ id a, sel !! id = Some a ↔
     Addresses s !! id = Some a ∧ IPFamily id ≠ IPv6Protocol)
  ∧ (enableIPv6 et = true →
       (∀ id a, IPFamily id ≠ IPv4Protocol → sel !! id = Some a ↔ Addresses s !! id = Some a)
       ∧ (∀ id, IPFamily id = IPv4Protocol → is_Some (sel !! id) → sel !! altID id = None)
       ∧ (∀ id, is_Some (Addresses s !! id) → is_Some (sel !! id) ∨ is_Some (sel !! altID id))).
Proof.
  intros sel. unfold sel. split.
  - intros He id a. rewrite lookup_selectAddressFamily, He. naive_solver.
  - intros He. split_and!.
    + intros id a Hf. rewrite lookup_selectAddressFamily, He. naive_solver.
    + intros id Hf [a Ha]. apply eq_None_not_Some. intros [b Hb].
      rewrite lookup_selectAddressFamily, He in Ha, Hb. naive_solver.
    + intros id [a Ha]. destruct (decide (is_Some (Addresses s !! altID id))) as [[b Hb]|Hn].
      * right. exists b. apply lookup_selectAddressFamily. rewrite He. simpl.
        split_and!; [done|naive_solver|]. intros (Hx & _ & _). done.
      * left. exists a. apply lookup_selectAddressFamily. rewrite He. split_and!; naive_solver.
Qed.


Definition ex_config : config unit :=
  mkConfig "linkerd" "cluster.local" "" "node-a" ∅ true true true false None.
(** The location of the address of the example, and distinct ones for the other IDs. *)
Definition ex_loc (id : ID) : TcpAddress :=
  if bool_decide (id = mkID "emojivoto" "web-1" IPv4Protocol)
  then mkTcpAddress (Some (Ipv4 167772161)) 8080
  else mkTcpAddress None (Z.pos (encode id)).
#[local] Instance ex_loc_inj : Inj (=) (=) ex_loc.
Proof.
  intros x y. unfold ex_loc. repeat case_bool_decide; intros Heq; simplify_eq; try done.
Qed.
Definition ex_updates : list ListenerEvent :=
  [NoEndpoints false;
   Add (mkAddressSet {[mkID "emojivoto" "web-1" IPv4Protocol := ex_address]} ∅ false)].


(** C21: the queue loses nothing silently.  In every reachable state at most 100 updates wait,
    the updates processed and waiting are, in order, among those passed to the listener,
    and all of them unless the stream has been told to end; the messages sent are those of
    processing them one after the other. *)
Theorem queue_no_silent_loss {Http2} `{!MapRange} (et0 : endpointTranslator Http2) q history :
  rtc q_step (newQueue et0, []) (q, history) →
  (length (updates q) ≤ 100)%nat
  ∧ ∃ processed, (q_et q, sent q) = processAll et0 processed
      ∧ sublist (processed ++ updates q) history
      ∧ (endStream_closed q = false → processed ++ updates q = history).
Proof. intros Hr. exact (q_reachable_inv et0 (q, history) Hr). Qed.

Lemma queue_no_silent_loss_witness :
  ∃ q : queue unit, updates q = [NoEndpoints true] ∧ (length (updates q) ≤ 100)%nat.
Proof.
  exists (mkQueue (newEndpointTranslator ex_config None) [NoEndpoints true] false false false true []).
  split; [reflexivity|].
  apply (@queue_no_silent_loss unit range_in_order (newEndpointTranslator ex_config None) _
    [NoEndpoints true]).
  apply rtc_once, (q_enqueue _ []). reflexivity.
Defined.

(** [n] receives of the goroutine. *)
Fixpoint receives {Http2} `{!MapRange} (n : nat) (q : queue Http2) : queue Http2 :=
  match n with
  | O => q
  | S n => match receive q with Some q' => receives n q' | None => q end
  end.

Lemma receives_drain {Http2} `{!MapRange} (et : endpointTranslator Http2) us es sc snt :
  receives (S (length us)) (mkQueue et us true es sc true snt)
  = mkQueue (processAll et us).1 [] true es sc false (snt ++ (processAll et us).2).
Proof.
  revert et snt. induction us as [|u us IH]; intros et snt; [simpl; by rewrite app_nil_r|].
  simpl length. remember (S (length us)) as n. cbn [receives processAll]. unfold receive. cbn [running updates negb q_et].
  destruct (processUpdate et u) as [et1 m1]. cbn [updates_closed endStream_closed stop_closed sent]. rewrite IH.
  destruct (processAll et1 us) as [et2 m2]. simpl. by rewrite app_assoc.
Qed.

(** C36: after [DrainAndStop] the goroutine ends once it has processed every waiting update:
    a receive for each of them and one more reach a state that is not running, with an
    empty queue and exactly the messages of those updates added. *)
Theorem DrainAndStop_terminates {Http2} `{!MapRange} (q q1 : queue Http2) :
  running q = true → DrainAndStop q = Ok q1 →
  let q' := receives (S (length (updates q))) q1 in
  running q' = false ∧ updates q' = []
  ∧ q_et q' = (processAll (q_et q) (updates q)).1
  ∧ sent q' = sent q ++ (processAll (q_et q) (updates q)).2.
Proof.
  intros Hrun. unfold DrainAndStop. destruct (updates_closed q); [done|]. intros [= <-].
  destruct q as [et us uc es sc run snt]. cbn [running] in Hrun. subst run.
  cbn [updates q_et endStream_closed stop_closed sent running]. by rewrite receives_drain.
Qed.

Lemma DrainAndStop_terminates_witness :
  let q := mkQueue (newEndpointTranslator ex_config None) ex_updates false false false true [] in
  running (receives (H := range_in_order) 3 (default q (res_ok (DrainAndStop q)))) = false.
Proof.
  intros q. apply (@DrainAndStop_terminates unit range_in_order q); reflexivity.
Defined.

(** additions are sent before removals, so an address that leaves under one ID and
    comes back under another in the same update is lost: a location of an ID that is no
    longer visible is absent from the client's view after the update, even when another
    visible ID has it. *)
Theorem shared_location_lost {Http2} `{!MapRange} (et : endpointTranslator Http2) c id1 a1 t :
  Addresses (filteredSnapshot et) !! id1 = Some a1 → toAddr a1 = Ok t →
  Addresses (visible (et_config et) (availableEndpoints et)) !! id1 = None →
  client_updates c (sendFilteredUpdate et).2 !! t = None.
Proof.
  intros Hold Ht Hgone. rewrite client_sendFilteredUpdate. cbv zeta.
  unfold sendClientRemove, client_update at 1. rewrite lookup_client_remove, decide_True; [done|].
  apply list_elem_of_omap. exists (id1, a1). split; [|simpl; by rewrite Ht].
  apply elem_of_range. by rewrite lookup_diffEndpoints_remove, Hgone.
Qed.

(** Two pods of the same IP and port, the second replacing the first. *)
Definition ex_shared : endpointTranslator unit :=
  let s id := mkAddressSet {[mkID "emojivoto" id IPv4Protocol := ex_address]} ∅ false in
  mkEndpointTranslator ex_config (s "web-2") (s "web-1").

Lemma shared_location_lost_witness :
  (toAddr <$> (map_to_list (Addresses (filteredSnapshot
     (sendFilteredUpdate (H := range_in_order) ex_shared).1))).*2)
    = [Ok (mkTcpAddress (Some (Ipv4 167772161)) 8080)] ∧
  client_updates ∅ (sendFilteredUpdate (H := range_in_order) ex_shared).2
    !! mkTcpAddress (Some (Ipv4 167772161)) 8080 = None.
Proof.
  split; [vm_compute; reflexivity|].
  apply (@shared_location_lost unit range_in_order ex_shared ∅ (mkID "emojivoto" "web-1" IPv4Protocol)
    ex_address); vm_compute; reflexivity.
Defined.
