(* ===== verification/Pipeline.v ===== *)
(** The pipeline of a Destination.Get stream: the watcher of [watcher/endpoints_watcher.go]
    calls the listener of a subscription, whose queue feeds the translator of
    [endpoint_translator.go].  The theorems are stated against the interface
    EndpointUpdateListener and then for the translator behind its queue. *)
From S2P Require Import Prelude GoStd K8s Addresses WeightedAddr PortPublisher.
From S2P Require Import EndpointsWatcher EndpointTranslator.

#[local] Open Scope string_scope.
#[local] Open Scope list_scope.
#[local] Open Scope Z_scope.

(** The addresses [v] agree with the publisher of a subscription. *)
Definition tracks (ew : EndpointsWatcher) (id : ID) (key : portAndHostname) (v : gmap ID Address)
    : Prop :=
  ∃ pp, port_at ew id key = Some pp
    ∧ dom v = dom (Addresses (addresses pp))
    ∧ ∀ i a b, v !! i = Some a → Addresses (addresses pp) !! i = Some b →
        synced a b ∧ Identity a = Identity b ∧ zones a ≡ₚ zones b.

Lemma reachable_tracks `{!MapRange} b ew views id key l h :
  rtc ew_step (NewEndpointsWatcher b, ∅) (ew, views) → views !! (id, key, l) = Some h →
  tracks ew id key (view_events ∅ h).
Proof.
  intros (_ & _ & Hdom & Hsync)%ew_reachable_inv Hv. simpl in *.
  destruct (proj1 (Hdom id key l)) as (pp & Hpp & _); [by eexists|].
  specialize (Hsync _ _ _ _ _ Hv Hpp). exists pp. split_and!; [done|by apply agrees_dom|].
  intros i a c Ha Hc. specialize (Hsync i). rewrite Ha, Hc in Hsync. inversion Hsync; subst.
  split; [done|by apply synced_Identity].
Qed.

(** any implementation of the listener interface that starts knowing nothing and
    receives the calls of its subscription knows, in every reachable state of the watcher,
    the IDs of its publisher, with the publisher's identities and zone hints. *)
Theorem listener_tracks `{!MapRange} `{!EndpointUpdateListener L} (l0 : L) b ew views id key l h :
  known l0 = ∅ →
  rtc ew_step (NewEndpointsWatcher b, ∅) (ew, views) → views !! (id, key, l) = Some h →
  tracks ew id key (known (foldl listen l0 h)).
Proof. intros Hl0. rewrite known_listen_all, Hl0. apply reachable_tracks. Qed.

Definition ex_history : list ListenerEvent := default [] (ex_ew2.2 !! (ex_id, (80, ""), 7%nat)).

Lemma listener_tracks_witness :
  let et := foldl (listen (EndpointUpdateListener := endpointTranslator_listener (H := range_in_order)))
              (newEndpointTranslator ex_config None) ex_history in
  size (Addresses (availableEndpoints et)) = 2%nat
  ∧ tracks ex_ew2.1 ex_id (80, "") (Addresses (availableEndpoints et)).
Proof.
  split; [vm_compute; reflexivity|].
  apply (@listener_tracks range_in_order _ (@endpointTranslator_listener unit range_in_order)
    (newEndpointTranslator ex_config None) true ex_ew2.1 ex_ew2.2 ex_id (80, "") 7).
  - reflexivity.
  - exact ex_ew2_reachable.
  - apply Some_default. vm_compute. reflexivity.
Defined.


(** The queue while the two calls of the example subscription pass through it. *)
Definition ex_call (n : nat) : ListenerEvent := nth n ex_history (NoEndpoints true).
Definition ex_q0 : queue unit := newQueue (newEndpointTranslator ex_config None).
Definition ex_q1 : queue unit := default ex_q0 (res_ok (enqueueUpdate ex_q0 (ex_call 0))).
Definition ex_q2 : queue unit := default ex_q1 (receive (H := range_in_order) ex_q1).
Definition ex_q3 : queue unit := default ex_q2 (res_ok (enqueueUpdate ex_q2 (ex_call 1))).
Definition ex_q4 : queue unit := default ex_q3 (receive (H := range_in_order) ex_q3).

