(* ===== verification/OpaquePorts.v ===== *)
(** [OpaquePortsWatcher] of [watcher/opaque_ports_watcher.go]: the opaque ports of every
    service, and the listeners told when they change.  An event [(id, (l, ports))] is a call
    [UpdateService(ports)] on the listener [l] of the service [id]. *)
From S2P Require Import Prelude GoStd K8s PortRange Addresses.

#[local] Open Scope string_scope.
#[local] Open Scope list_scope.
#[local] Open Scope Z_scope.

(** * State *)
Record svcSubscriptions := mkSvcSubscriptions { opaquePorts : ports; ss_listeners : list nat }.

Record OpaquePortsWatcher := mkOpaquePortsWatcher {
  subscriptions : gmap ID svcSubscriptions; defaultOpaquePorts : ports }.

Abbreviation op_events := (list (ID * (nat * ports))).

Definition NewOpaquePortsWatcher (opaquePorts : ports) : OpaquePortsWatcher :=
  mkOpaquePortsWatcher ∅ opaquePorts.

Definition set_subscription (id : ID) (ss : svcSubscriptions) (opw : OpaquePortsWatcher) :=
  mkOpaquePortsWatcher (<[id := ss]> (subscriptions opw)) (defaultOpaquePorts opw).

(** * Operations *)
(** [for i, l := range ss.listeners { if l == listener { ... } }] without a break: the
    bound is the original length, and a slot past the shortened slice is nil. *)
Definition removeListener (listener : nat) (listeners : list nat) : list nat :=
  foldl (λ ls i,
      if bool_decide (ls !! i = Some listener) then
        match last ls with
        | Some z => take (length ls - 1) (<[i := z]> ls)
        | None => ls
        end
      else ls) listeners (seq 0 (length listeners)).

(** Replaces the ports of a subscription, telling its listeners when they changed. *)
Definition setPorts (opw : OpaquePortsWatcher) (id : ID) (ss : svcSubscriptions) (new : ports)
    : OpaquePortsWatcher * op_events :=
  if portsEqual (opaquePorts ss) new then (opw, [])
  else (set_subscription id (mkSvcSubscriptions new (ss_listeners ss)) opw,
        (λ l, (id, (l, new))) <$> ss_listeners ss).

Section operations.
Context (api : API).

Definition Subscribe (opw : OpaquePortsWatcher) (id : ID) (listener : nat)
    : res (OpaquePortsWatcher * op_events) :=
  if (if api_Service api (Namespace id) (Name id) is Some svc
      then bool_decide (svc_Type svc = ServiceTypeExternalName) else false)
  then Err ("Invalid k8s service " +:+ Namespace id +:+ "/" +:+ Name id)
  else
    match subscriptions opw !! id with
    | None => Ok (set_subscription id (mkSvcSubscriptions (defaultOpaquePorts opw) [listener]) opw, [])
    | Some ss =>
        Ok (set_subscription id
              (mkSvcSubscriptions (opaquePorts ss) (ss_listeners ss ++ [listener])) opw,
            [(id, (listener, opaquePorts ss))])
    end.
End operations.

Definition Unsubscribe (opw : OpaquePortsWatcher) (id : ID) (listener : nat) : OpaquePortsWatcher :=
  match subscriptions opw !! id with
  | None => opw
  | Some ss =>
      let ls := removeListener listener (ss_listeners ss) in
      if bool_decide (0 < length ls)%nat
      then set_subscription id (mkSvcSubscriptions (opaquePorts ss) ls) opw
      else mkOpaquePortsWatcher (delete id (subscriptions opw)) (defaultOpaquePorts opw)
  end.

Definition serviceID (svc : Service) : ID := mkID (svc_Namespace svc) (svc_Name svc) "".

(** The ports a service asks for: its annotation, or the default. *)
Definition wantedPorts (opw : OpaquePortsWatcher) (svc : Service) : res ports :=
  (let* a := getServiceOpaquePortsAnnotation svc in
   Ok (if a.2 then a.1 else defaultOpaquePorts opw))%go.

Definition addService (opw : OpaquePortsWatcher) (svc : Service) : OpaquePortsWatcher * op_events :=
  match wantedPorts opw svc with
  | Ok new =>
      match subscriptions opw !! serviceID svc with
      | None => (set_subscription (serviceID svc) (mkSvcSubscriptions new []) opw, [])
      | Some ss => setPorts opw (serviceID svc) ss new
      end
  | _ => (opw, [])
  end.

Definition updateService (opw : OpaquePortsWatcher) (oldSvc newSvc : Service) :=
  addService opw newSvc.

(** [None]: the object of the event is not a Service. *)
Definition deleteService (opw : OpaquePortsWatcher) (obj : option Service)
    : OpaquePortsWatcher * op_events :=
  match obj with
  | None => (opw, [])
  | Some svc =>
      match subscriptions opw !! serviceID svc with
      | None => (opw, [])
      | Some ss => setPorts opw (serviceID svc) ss (defaultOpaquePorts opw)
      end
  end.

(** * Subscriptions over time *)
(** The last ports each subscription was told, [None] when it was told nothing yet. *)
Abbreviation told := (gmap (ID * nat) (option ports)).

Definition tell (evs : op_events) (t : told) : told :=
  map_imap (λ k p, Some match last (proj_at k.2 (proj_at k.1 evs)) with
                        | Some p' => Some p'
                        | None => p
                        end) t.

Inductive op_step : OpaquePortsWatcher * told → OpaquePortsWatcher * told → Prop :=
  | op_add opw t svc :
      op_step (opw, t) ((addService opw svc).1, tell (addService opw svc).2 t)
  | op_update opw t old svc :
      op_step (opw, t) ((updateService opw old svc).1, tell (updateService opw old svc).2 t)
  | op_delete opw t obj :
      op_step (opw, t) ((deleteService opw obj).1, tell (deleteService opw obj).2 t)
  | op_subscribe api opw t id l opw' evs :
      t !! (id, l) = None → Subscribe api opw id l = Ok (opw', evs) →
      op_step (opw, t) (opw', tell evs (<[(id, l) := None]> t))
  | op_unsubscribe opw t id l :
      op_step (opw, t) (Unsubscribe opw id l, delete (id, l) t).

Definition op_inv (d : ports) (s : OpaquePortsWatcher * told) : Prop :=
  defaultOpaquePorts s.1 = d
  ∧ (∀ id ss, subscriptions s.1 !! id = Some ss → NoDup (ss_listeners ss))
  ∧ (∀ id l, is_Some (s.2 !! (id, l)) ↔
       ∃ ss, subscriptions s.1 !! id = Some ss ∧ l ∈ ss_listeners ss)
  ∧ (∀ id l p ss, s.2 !! (id, l) = Some p → subscriptions s.1 !! id = Some ss →
       default d p = opaquePorts ss).

(** * Lemmas *)
Lemma removeListener_absent (x : nat) ls idx :
  x ∉ ls →
  foldl (λ ls i, if bool_decide (ls !! i = Some x) then
      match last ls with Some z => take (length ls - 1) (<[i := z]> ls) | None => ls end else ls)
    ls idx = ls.
Proof.
  intros Hx. induction idx as [|i idx IH]; [done|]. simpl.
  rewrite bool_decide_false; [done|]. intros Hi. by apply list_elem_of_lookup_2 in Hi.
Qed.

Lemma removeListener_before (x : nat) ls n :
  (∀ i, (i < n)%nat → ls !! i ≠ Some x) →
  foldl (λ ls i, if bool_decide (ls !! i = Some x) then
      match last ls with Some z => take (length ls - 1) (<[i := z]> ls) | None => ls end else ls)
    ls (seq 0 n) = ls.
Proof.
  induction n as [|n IH]; intros Hn; [done|]. rewrite seq_S, foldl_app, IH by (intros; apply Hn; lia).
  simpl. rewrite bool_decide_false by (apply Hn; lia). done.
Qed.

(** Without duplicates the loop removes the listener as a loop with a break would. *)
Lemma removeListener_swap x ls : NoDup ls → removeListener x ls = swap_remove x ls.
Proof.
  intros Hnd. destruct (decide (x ∈ ls)) as [Hx|Hx]; last first.
  { rewrite swap_remove_absent by done. by apply removeListener_absent. }
  pose proof (swap_remove_NoDup x ls Hnd) as [_ Hel].
  assert (x ∉ swap_remove x ls) as Hni by (rewrite Hel; naive_solver).
  unfold swap_remove in *. destruct (list_find (x =.) ls) as [[k y]|] eqn:Hf; last first.
  { apply list_find_None in Hf. rewrite Forall_forall in Hf. by destruct (Hf x Hx). }
  apply list_find_Some in Hf as (Hk & <- & Hb).
  destruct (last ls) as [z|] eqn:Hz; [|by apply last_None in Hz; subst; destruct k].
  assert (k < length ls)%nat as Hlt by (by eapply lookup_lt_Some).
  unfold removeListener. replace (length ls) with (k + S (length ls - S k))%nat at 1 by lia.
  rewrite seq_app, foldl_app, removeListener_before.
  - simpl. rewrite bool_decide_true, Hz by done. by apply removeListener_absent.
  - intros i Hi Heq. by apply (Hb i x).
Qed.

Lemma removeListener_NoDup x ls :
  NoDup ls → NoDup (removeListener x ls) ∧ ∀ y, y ∈ removeListener x ls ↔ y ≠ x ∧ y ∈ ls.
Proof. intros Hnd. rewrite removeListener_swap by done. by apply swap_remove_NoDup. Qed.

Lemma lookup_tell evs t k :
  tell evs t !! k = (λ p, match last (proj_at k.2 (proj_at k.1 evs)) with
                          | Some p' => Some p' | None => p end) <$> t !! k.
Proof. unfold tell. rewrite map_lookup_imap. by destruct (t !! k). Qed.

Lemma tell_nil t : tell [] t = t.
Proof. apply map_eq. intros k. rewrite lookup_tell. simpl. by destruct (t !! k). Qed.

(** Every listener of a service is told once. *)
Lemma proj_notify (id : ID) (ls : list nat) (new : ports) id' l :
  NoDup ls →
  last (proj_at l (proj_at id' ((λ l, (id, (l, new))) <$> ls)))
  = if decide (id' = id ∧ l ∈ ls) then Some new else None.
Proof.
  intros Hnd.
  replace ((λ l, (id, (l, new))) <$> ls) with (pair id <$> ((λ l, (l, new)) <$> ls))
    by (by rewrite <-list_fmap_compose).
  rewrite proj_at_pair. destruct (decide (id = id')) as [<-|Hne]; last first.
  { by rewrite decide_False by naive_solver. }
  induction ls as [|x ls IH] using rev_ind; [by rewrite decide_False by set_solver|].
  rewrite fmap_app, proj_at_app. simpl. unfold proj_at at 2. rewrite filter_cons. simpl.
  apply NoDup_app in Hnd as (Hnd & Hx & _). destruct (decide (x = l)) as [->|Hd].
  - simpl. rewrite last_snoc, decide_True by set_solver. done.
  - rewrite filter_nil. simpl. rewrite app_nil_r, IH by done. apply decide_ext. set_solver.
Qed.

Lemma op_inv_setPorts d opw t id ss new :
  op_inv d (opw, t) → subscriptions opw !! id = Some ss →
  op_inv d ((setPorts opw id ss new).1, tell (setPorts opw id ss new).2 t).
Proof.
  intros (Hd & Hnd & Hdom & Hval) Hss. unfold op_inv in *. simpl in *. unfold setPorts.
  destruct (portsEqual (opaquePorts ss) new) eqn:Heq; cbn [fst snd].
  { by rewrite tell_nil. }
  assert (∀ id' l', tell ((λ l, (id, (l, new))) <$> ss_listeners ss) t !! (id', l')
    = (λ p, if decide (id' = id ∧ l' ∈ ss_listeners ss) then Some new else p) <$> t !! (id', l')) as Ht.
  { intros id' l'. rewrite lookup_tell. cbn [fst snd]. rewrite proj_notify by (by eapply Hnd).
    destruct (t !! (id', l')); simpl; [|done]. f_equal. by destruct (decide _). }
  split_and!; [done| | |].
  - intros id' ss'. simpl. intros [[<- <-]|[_ Hl]]%lookup_insert_Some; [exact (Hnd _ _ Hss)|by eapply Hnd].
  - intros id' l'. rewrite Ht, fmap_is_Some, Hdom. simpl. setoid_rewrite lookup_insert_Some.
    destruct (decide (id = id')) as [<-|]; [|naive_solver]. split.
    + intros (? & Hx & Hin). rewrite Hss in Hx. injection Hx as <-. eexists. split; [by left|done].
    + intros (? & [[_ <-]|[? _]] & Hin); [|done]. by exists ss.
  - intros id' l' p ss'. rewrite Ht. intros (p0 & Hp0 & ->)%fmap_Some Hl. simpl in Hl.
    apply lookup_insert_Some in Hl as [[<- <-]|[Hne Hl]].
    + rewrite decide_True; [done|]. split; [done|].
      destruct (proj1 (Hdom id l')) as (ss0 & Hs0 & Hin); [by eexists|].
      rewrite Hss in Hs0. by injection Hs0 as <-.
    + rewrite decide_False by naive_solver. by eapply Hval.
Qed.

(** Replacing a subscription by one with the same ports and other listeners. *)
Lemma op_inv_new_entry d opw t svc new :
  op_inv d (opw, t) → subscriptions opw !! serviceID svc = None →
  op_inv d (set_subscription (serviceID svc) (mkSvcSubscriptions new []) opw, tell [] t).
Proof.
  intros (Hd & Hnd & Hdom & Hval) Hss. unfold op_inv in *. simpl in *.
  rewrite tell_nil.
  split_and!; [done| | |].
  - intros id ss [[<- <-]|[_ Hl]]%lookup_insert_Some; [constructor|by eapply Hnd].
  - intros id l. rewrite Hdom. setoid_rewrite lookup_insert_Some. split.
    + intros (ss & Hs & Hin). exists ss. split; [|done]. right. split; [congruence|done].
    + intros (ss & [[_ <-]|[_ Hs]] & Hin); [by apply not_elem_of_nil in Hin|by eauto].
  - intros id l p ss Hp [[<- <-]|[_ Hl]]%lookup_insert_Some; [|by eapply Hval].
    destruct (proj1 (Hdom (serviceID svc) l)) as (? & ? & _); [by eexists|congruence].
Qed.

Lemma op_inv_addService d opw t svc :
  op_inv d (opw, t) → op_inv d ((addService opw svc).1, tell (addService opw svc).2 t).
Proof.
  intros Hinv. unfold addService.
  destruct (wantedPorts opw svc) as [new| |]; simpl; [|by rewrite tell_nil..].
  destruct (subscriptions opw !! serviceID svc) as [ss|] eqn:E.
  - by apply op_inv_setPorts.
  - by apply op_inv_new_entry.
Qed.

Lemma op_inv_deleteService d opw t obj :
  op_inv d (opw, t) → op_inv d ((deleteService opw obj).1, tell (deleteService opw obj).2 t).
Proof.
  intros Hinv. unfold deleteService.
  destruct obj as [svc|]; simpl; [|by rewrite tell_nil].
  destruct (subscriptions opw !! serviceID svc) as [ss|] eqn:E; simpl; [|by rewrite tell_nil].
  by apply op_inv_setPorts.
Qed.

Lemma opSubscribe_Ok api opw id l opw' evs :
  Subscribe api opw id l = Ok (opw', evs) →
  opw' = set_subscription id
    match subscriptions opw !! id with
    | Some ss => mkSvcSubscriptions (opaquePorts ss) (ss_listeners ss ++ [l])
    | None => mkSvcSubscriptions (defaultOpaquePorts opw) [l]
    end opw
  ∧ evs = match subscriptions opw !! id with
          | Some ss => [(id, (l, opaquePorts ss))] | None => [] end.
Proof.
  unfold Subscribe.
  destruct (match api_Service api _ _ with Some _ => _ | None => _ end); [done|].
  destruct (subscriptions opw !! id); by intros [= <- <-].
Qed.

Lemma proj_one (id : ID) (l : nat) (p : ports) id' l' :
  last (proj_at l' (proj_at id' [(id, (l, p))])) = if decide (id = id' ∧ l = l') then Some p else None.
Proof.
  unfold proj_at. rewrite filter_cons. simpl. destruct (decide (id = id')) as [<-|].
  - simpl. rewrite filter_cons. simpl. destruct (decide (l = l')) as [<-|].
    + by rewrite decide_True.
    + by rewrite decide_False by naive_solver.
  - by rewrite decide_False by naive_solver.
Qed.

Lemma op_inv_subscribe d api opw t id l opw' evs :
  op_inv d (opw, t) → t !! (id, l) = None → Subscribe api opw id l = Ok (opw', evs) →
  op_inv d (opw', tell evs (<[(id, l) := None]> t)).
Proof.
  intros (Hd & Hnd & Hdom & Hval) Hfresh [-> ->]%opSubscribe_Ok. unfold op_inv in *. simpl in *.
  set (ss1 := match subscriptions opw !! id with Some _ => _ | None => _ end).
  set (evs := match subscriptions opw !! id with Some _ => _ | None => _ end).
  assert (∀ ss, subscriptions opw !! id = Some ss → l ∉ ss_listeners ss) as Hni.
  { intros ss Hss Hin. destruct (proj2 (Hdom id l)) as [? Hx]; [by exists ss|].
    by rewrite Hfresh in Hx. }
  assert (∀ k, is_Some (tell evs (<[(id, l) := None]> t) !! k) ↔ k = (id, l) ∨ is_Some (t !! k)) as Hsome.
  { intros k. rewrite lookup_tell, fmap_is_Some, lookup_insert_is_Some. naive_solver. }
  split_and!; [done| | |].
  - intros id' ss [[<- <-]|[_ Hl]]%lookup_insert_Some; [|by eapply Hnd].
    unfold ss1. destruct (subscriptions opw !! id) as [ss|] eqn:E; simpl; [|apply NoDup_singleton].
    apply NoDup_app. split_and!; [by eapply Hnd| |apply NoDup_singleton].
    intros x Hx ->%list_elem_of_singleton. by eapply Hni.
  - intros id' l'. rewrite Hsome, Hdom. setoid_rewrite lookup_insert_Some. unfold ss1. split.
    + intros [[= -> ->]|(ss & Hss & Hin)].
      * eexists. split; [by left|]. destruct (subscriptions opw !! id); simpl; set_solver.
      * destruct (decide (id = id')) as [<-|]; [|by eauto].
        eexists. split; [by left|]. rewrite Hss. simpl. set_solver.
    + intros (ss & [[<- <-]|[_ Hss]] & Hin); [|by eauto].
      destruct (subscriptions opw !! id) as [ss|] eqn:E; simpl in Hin; [|set_solver].
      apply elem_of_app in Hin as [Hin|Hin]; [|set_solver]. right. by exists ss.
  - intros id' l' p ss. rewrite lookup_tell. cbn [fst snd].
    intros (p0 & Hp0 & ->)%fmap_Some Hl. apply lookup_insert_Some in Hl as [[<- <-]|[Hne Hl]].
    + unfold evs, ss1. apply lookup_insert_Some in Hp0 as [[[= <-] <-]|[Hk Hp0]].
      * destruct (subscriptions opw !! id) as [ss|]; [rewrite proj_one, decide_True by done|]; done.
      * destruct (proj1 (Hdom id l')) as (ss & Hss & _); [by eexists|]. rewrite Hss.
        rewrite proj_one, decide_False by (intros [_ ->]; by apply Hk).
        simpl. by eapply Hval.
    + assert (last (proj_at l' (proj_at id' evs)) = None) as ->.
      { unfold evs. destruct (subscriptions opw !! id); [|done].
        by rewrite proj_one, decide_False by naive_solver. }
      rewrite lookup_insert_ne in Hp0 by congruence. by eapply Hval.
Qed.

Lemma op_inv_unsubscribe d opw t id l :
  op_inv d (opw, t) → op_inv d (Unsubscribe opw id l, delete (id, l) t).
Proof.
  intros (Hd & Hnd & Hdom & Hval). unfold op_inv, Unsubscribe in *. simpl in *.
  destruct (subscriptions opw !! id) as [ss|] eqn:E; last first.
  { assert (t !! (id, l) = None) as Hn.
    { apply eq_None_not_Some. rewrite Hdom. intros (? & ? & _). congruence. }
    rewrite delete_id by done. done. }
  destruct (removeListener_NoDup l (ss_listeners ss) (Hnd _ _ E)) as [Hnd' Hel].
  assert (∀ l', is_Some (delete (id, l) t !! (id, l')) ↔ l' ∈ removeListener l (ss_listeners ss)) as Hid.
  { intros l'. rewrite lookup_delete_is_Some, Hdom, Hel. split.
    - intros (Hne & ? & Hs & Hin). rewrite E in Hs. injection Hs as <-. split; [congruence|done].
    - intros [Hne Hin]. split; [congruence|]. by exists ss. }
  assert (∀ id' l', id' ≠ id → delete (id, l) t !! (id', l') = t !! (id', l')) as Hother.
  { intros id' l' Hne. apply lookup_delete_ne. congruence. }
  case_bool_decide as Hlen; simpl; split_and!; try done.
  - intros id' ss' [[<- <-]|[_ Hl]]%lookup_insert_Some; [done|by eapply Hnd].
  - intros id' l'. setoid_rewrite lookup_insert_Some. destruct (decide (id' = id)) as [->|Hne].
    + rewrite Hid. split; [intros; eexists; split; [by left|done]|].
      by intros (? & [[_ <-]|[? _]] & ?).
    + rewrite Hother, Hdom by done. naive_solver.
  - intros id' l' p ss' [_ Hp]%lookup_delete_Some [[<- <-]|[_ Hl]]%lookup_insert_Some;
      [exact (Hval _ _ _ _ Hp E)|by eapply Hval].
  - intros id' ss' [_ Hl]%lookup_delete_Some. by eapply Hnd.
  - intros id' l'. setoid_rewrite lookup_delete_Some. destruct (decide (id' = id)) as [->|Hne].
    + rewrite Hid. destruct (removeListener l (ss_listeners ss)) eqn:Er; [|simpl in Hlen; lia].
      split; [by intros ?%not_elem_of_nil|naive_solver].
    + rewrite Hother, Hdom by done. naive_solver.
  - intros id' l' p ss' [_ Hp]%lookup_delete_Some [_ Hl]%lookup_delete_Some. by eapply Hval.
Qed.

Lemma op_step_inv d s s' : op_inv d s → op_step s s' → op_inv d s'.
Proof.
  intros Hinv Hstep. destruct Hstep.
  - by apply op_inv_addService.
  - by apply op_inv_addService.
  - by apply op_inv_deleteService.
  - by eapply op_inv_subscribe.
  - by apply op_inv_unsubscribe.
Qed.

Lemma op_reachable_inv d s : rtc op_step (NewOpaquePortsWatcher d, ∅) s → op_inv d s.
Proof.
  intros Hs. assert (op_inv d (NewOpaquePortsWatcher d, ∅)) as Hi.
  { split_and!; [done| | |]; simpl.
    - intros id ss. by rewrite lookup_empty.
    - intros id l. rewrite lookup_empty. split; [by intros [? ?]|]. intros (ss & Hss & _).
      by rewrite lookup_empty in Hss.
    - intros id l p ss. by rewrite lookup_empty. }
  revert Hi. induction Hs; eauto using op_step_inv.
Qed.

(** * Properties *)

(** listeners are never behind.  After any sequence of service events, subscriptions and
    unsubscriptions, the last ports a subscribed listener was told, or the default ports
    if it was told nothing, are the ports the watcher has on record for the service; no
    listener is registered twice. *)
Theorem opaque_ports_listeners_current d opw t id l p :
  rtc op_step (NewOpaquePortsWatcher d, ∅) (opw, t) → t !! (id, l) = Some p →
  ∃ ss, subscriptions opw !! id = Some ss ∧ l ∈ ss_listeners ss ∧ NoDup (ss_listeners ss)
    ∧ default d p = opaquePorts ss.
Proof.
  intros (_ & Hnd & Hdom & Hval)%op_reachable_inv Hp. simpl in *.
  destruct (proj1 (Hdom id l)) as (ss & Hss & Hin); [by eexists|]. exists ss. split_and!; eauto.
Qed.

Definition ex_annotated : Service := mkService "db" "ns" "" ∅ {[ProxyOpaquePortsAnnotation := "3306"]}
  "ClusterIP" "10.0.0.7" [] None [] None false.
Definition ex_noapi : API := mkAPI (λ _ _, None) (λ _ _, None) (λ _ _, None) (λ _ _, None)
  (λ _ _, None) None (λ _, None) (λ _, None).
(** The watcher after the service was added and listener 1 subscribed. *)
Definition ex_opw1 : OpaquePortsWatcher := (addService (NewOpaquePortsWatcher {[25; 443]}) ex_annotated).1.
Definition ex_opw2 : OpaquePortsWatcher :=
  (default (ex_opw1, []) (res_ok (Subscribe ex_noapi ex_opw1 (serviceID ex_annotated) 1))).1.

Lemma opaque_ports_listeners_current_witness :
  ∃ ss, subscriptions ex_opw2 !! serviceID ex_annotated = Some ss ∧ 1%nat ∈ ss_listeners ss
    ∧ NoDup (ss_listeners ss) ∧ default ({[25; 443]} : ports) (Some {[3306]}) = opaquePorts ss.
Proof.
  apply (opaque_ports_listeners_current {[25; 443]} ex_opw2
    (tell [(serviceID ex_annotated, (1%nat, {[3306]}))] {[(serviceID ex_annotated, 1%nat) := None]})
    (serviceID ex_annotated) 1 (Some {[3306]})); [|vm_compute; reflexivity].
  apply rtc_l with (ex_opw1, tell [] ∅).
  { exact (op_add (NewOpaquePortsWatcher {[25; 443]}) ∅ ex_annotated). }
  apply rtc_once. rewrite tell_nil.
  apply (op_subscribe ex_noapi ex_opw1 ∅ (serviceID ex_annotated) 1); [apply lookup_empty|].
  vm_compute. reflexivity.
Defined.

(** updates are sent exactly on change: adding or updating a service records the ports
    of its annotation, or the default, and tells every listener of the service, and nobody
    else, exactly when they differ from those on record; doing it again sends nothing. *)
Theorem addService_spec opw svc new ss :
  wantedPorts opw svc = Ok new → subscriptions opw !! serviceID svc = Some ss →
  let '(opw', evs) := addService opw svc in
  subscriptions opw' !! serviceID svc = Some (mkSvcSubscriptions new (ss_listeners ss))
  ∧ evs = (if decide (opaquePorts ss = new) then []
           else (λ l, (serviceID svc, (l, new))) <$> ss_listeners ss)
  ∧ (addService opw' svc).2 = [].
Proof.
  intros Hw Hss. unfold addService at 1. rewrite Hw, Hss. unfold setPorts.
  assert (∀ opw' ls, subscriptions opw' !! serviceID svc = Some (mkSvcSubscriptions new ls) →
    defaultOpaquePorts opw' = defaultOpaquePorts opw → (addService opw' svc).2 = []) as Hagain.
  { intros opw' ls Hs Hd. unfold addService. unfold wantedPorts in *. rewrite Hd, Hw, Hs.
    unfold setPorts. simpl. by rewrite (proj2 (portsEqual_spec new new)). }
  destruct (portsEqual (opaquePorts ss) new) eqn:Heq.
  - apply portsEqual_spec in Heq as <-. rewrite decide_True by done.
    assert (subscriptions opw !! serviceID svc
      = Some (mkSvcSubscriptions (opaquePorts ss) (ss_listeners ss))) as Hs by (by rewrite Hss; destruct ss).
    split_and!; [done|done|]. by eapply Hagain.
  - rewrite decide_False by (intros Hx; apply portsEqual_spec in Hx; congruence).
    split_and!; [apply lookup_insert_eq|done|].
    apply (Hagain _ (ss_listeners ss)); [apply lookup_insert_eq|done].
Qed.

Lemma addService_spec_witness :
  subscriptions (addService ex_opw2 ex_annotated).1 !! serviceID ex_annotated
    = Some (mkSvcSubscriptions {[3306]} [1%nat]).
Proof.
  apply (addService_spec ex_opw2 ex_annotated {[3306]} (mkSvcSubscriptions {[3306]} [1%nat]));
    vm_compute; reflexivity.
Defined.

(** the record of a service does not survive its last listener: whoever subscribes
    next is told nothing and gets the default ports on record, whatever the annotation of
    the service says, until the next event of the service. *)
Theorem resubscribe_forgets api opw id l l' ss r :
  subscriptions opw !! id = Some ss → ss_listeners ss = [l] →
  Subscribe api (Unsubscribe opw id l) id l' = Ok r →
  r.2 = [] ∧ subscriptions r.1 !! id = Some (mkSvcSubscriptions (defaultOpaquePorts opw) [l']).
Proof.
  intros Hss Hl. unfold Unsubscribe. rewrite Hss, Hl.
  rewrite removeListener_swap by apply NoDup_singleton. unfold swap_remove. simpl.
  rewrite decide_True by done. simpl. destruct r as [opw' evs]. intros [-> ->]%opSubscribe_Ok.
  simpl. rewrite lookup_delete_eq, lookup_insert_eq. done.
Qed.

Lemma resubscribe_forgets_witness :
  ∃ r, Subscribe ex_noapi (Unsubscribe ex_opw2 (serviceID ex_annotated) 1) (serviceID ex_annotated) 2
      = Ok r ∧ r.2 = [] ∧ subscriptions r.1 !! serviceID ex_annotated
        = Some (mkSvcSubscriptions {[25; 443]} [2%nat]).
Proof.
  eexists. split; [reflexivity|].
  apply (resubscribe_forgets ex_noapi ex_opw2 (serviceID ex_annotated) 1 2
    (mkSvcSubscriptions {[3306]} [1%nat])); vm_compute; reflexivity.
Defined.
