(* ===== verification/EwReconciler.v ===== *)
(** [external-workload/endpoints_reconciler.go]: the reconciler that keeps the
    EndpointSlices of a service in line with the ExternalWorkloads it selects.

    The package k8s.io/endpointslice/util is a parameter: the hash under which an
    [EndpointSet] stores an endpoint, the comparison of the fields the hash leaves out and
    the key of a list of ports.  An [EndpointSet] is the map from hashes to endpoints that
    package documents; [PopAny] takes the entry a [range] visits first.  The
    [GenerateName] of a new slice, which only the API server reads, is not modelled: a new
    slice has an empty name. *)
From S2P Require Import Prelude GoStd K8s.

#[local] Open Scope string_scope.
#[local] Open Scope list_scope.
#[local] Open Scope Z_scope.

(** * Labels, ports and endpoints *)
Definition WorkloadReady : string := "Ready".
Definition ConditionTrue : string := "True".

(** controller_util.go *)
Definition IsEwReady (ew : ExternalWorkload) : bool :=
  existsb (λ cond, bool_decide (wc_Type cond = WorkloadReady)
                   && bool_decide (wc_Status cond = ConditionTrue)) (ew_Conditions ew).

Definition isReserved (label : string) : bool :=
  bool_decide (label = LabelServiceName) || bool_decide (label = LabelManagedBy)
  || bool_decide (label = IsHeadlessService).

Definition unreserved (m : strmap) : strmap := filter (λ e, isReserved e.1 = false) m.

Definition setEndpointSliceLabels (es : EndpointSlice) (service : Service) (controllerName : string)
    : strmap * bool :=
  let epLabels := unreserved (sl_Labels es) in
  let svcLabels := unreserved (svc_Labels service) in
  (* some service label is missing or different *)
  let updated := bool_decide (map_Exists (λ k v, epLabels !! k ≠ Some v) svcLabels) in
  let svcLabels :=
    if bool_decide (svc_ClusterIP service = ClusterIPNone)
    then <[IsHeadlessService := ""]> svcLabels else delete IsHeadlessService svcLabels in
  (<[LabelManagedBy := controllerName]> (<[LabelServiceName := svc_Name service]> svcLabels), updated).

Definition ownedBy (slice : EndpointSlice) (svc : Service) : bool :=
  existsb (λ o, bool_decide (or_UID o = svc_UID svc) && bool_decide (or_Kind o = "Service")
                && bool_decide (or_APIVersion o = "v1")) (sl_OwnerReferences slice).

(** [targetPort.IntValue()] of a numeric port is its value. *)
Definition findWorkloadPort (ew : ExternalWorkload) (svcPort : ServicePort) : res Z :=
  let found :=
    match sp_TargetPort svcPort with
    | FromString name =>
        list_find (λ p, ps_Name p = name ∧ ps_Protocol p = sp_Protocol svcPort) (ew_Ports ew)
    | FromInt i =>
        list_find (λ p, ps_Port p = i32 i ∧ ps_Protocol p = sp_Protocol svcPort) (ew_Ports ew)
    end in
  match found with
  | Some (_, p) => Ok (ps_Port p)
  | None => Err "no suitable port for targetPort"
  end.

(** [&s], or nil for the empty string. *)
Definition ptr_nonempty (s : string) : option string := if bool_decide (s = "") then None else Some s.

Definition findEndpointPorts (svc : Service) (ew : ExternalWorkload) : list EndpointPort :=
  if bool_decide (svc_Ports svc = [] ∧ svc_ClusterIP svc = ClusterIPNone) then [] else
  omap (λ svcPort,
    portNum ← res_ok (findWorkloadPort ew svcPort);
    Some (mkEndpointPort (ptr_nonempty (sp_Name svcPort)) portNum
            (ptr_nonempty (sp_Protocol svcPort)))) (svc_Ports svc).

Definition getSupportedAddressTypes (svc : Service) : gset string :=
  let afs : gset string :=
    list_to_set (filter (λ af, af = IPv4Protocol ∨ af = IPv6Protocol) (svc_IPFamilies svc)) in
  if bool_decide (0 < size afs)%nat then afs else {[IPv4Protocol; IPv6Protocol]}.

Record endpointMeta := mkEndpointMeta { meta_ports : list EndpointPort; meta_addressType : string }.

Definition newEndpointSlice (svc : Service) (meta : endpointMeta) (controllerName : string)
    : EndpointSlice :=
  let ownerRef := mkOwnerReference "Service" (svc_Name svc) (svc_UID svc) "v1" in
  let slice := mkEndpointSlice "" (svc_Namespace svc) ∅ ∅ [ownerRef] (meta_addressType meta) []
                 (Some (meta_ports meta)) false "" 0 in
  let '(labels, _) := setEndpointSliceLabels slice svc controllerName in
  mkEndpointSlice "" (svc_Namespace svc) labels ∅ [ownerRef] (meta_addressType meta) []
    (Some (meta_ports meta)) false "" 0.

Definition set_slice (labels : strmap) (eps : list Endpoint) (s : EndpointSlice) : EndpointSlice :=
  mkEndpointSlice (sl_Name s) (sl_Namespace s) labels (sl_Annotations s) (sl_OwnerReferences s)
    (sl_AddressType s) eps (sl_Ports s) (sl_DeletionTimestamp s)
    (sl_UID s) (sl_Generation s).
Definition set_endpoints (eps : list Endpoint) (s : EndpointSlice) : EndpointSlice :=
  set_slice (sl_Labels s) eps s.
Definition set_name (n : string) (s : EndpointSlice) : EndpointSlice :=
  mkEndpointSlice n (sl_Namespace s) (sl_Labels s) (sl_Annotations s) (sl_OwnerReferences s)
    (sl_AddressType s) (sl_Endpoints s) (sl_Ports s) (sl_DeletionTimestamp s)
    (sl_UID s) (sl_Generation s).

(** The loop of [getSliceToFill], with the best candidate so far. *)
Fixpoint closest (slices : list EndpointSlice) (numEndpoints maxEndpoints closestDiff : Z)
    (closestSlice : option EndpointSlice) : option EndpointSlice :=
  match slices with
  | [] => closestSlice
  | slice :: slices =>
      let diff := maxEndpoints - (numEndpoints + Z.of_nat (length (sl_Endpoints slice))) in
      if (0 <=? diff) && (diff <? closestDiff) then
        if diff =? 0 then Some slice
        else closest slices numEndpoints maxEndpoints diff (Some slice)
      else closest slices numEndpoints maxEndpoints closestDiff closestSlice
  end.
Definition getSliceToFill (slices : list EndpointSlice) (numEndpoints maxEndpoints : Z)
    : option EndpointSlice := closest slices numEndpoints maxEndpoints maxEndpoints None.

(** * The reconciler *)
Abbreviation EndpointSet := (gmap string Endpoint).

Section reconciler.
Context (hash : Endpoint → string) (EndpointsEqualBeyondHash : Endpoint → Endpoint → bool).
Context (NewPortMapKey : list EndpointPort → string) (IsIPv6String : string → bool).
Context (controllerName : string) (maxEndpoints : nat) `{!MapRange}.

Definition externalWorkloadToEndpoint (addrType : string) (ew : ExternalWorkload) (svc : Service)
    : Endpoint :=
  let serving := IsEwReady ew in
  let addresses := filter (λ ip, addrType = if IsIPv6String ip then IPv6Protocol else IPv4Protocol)
                     (ew_WorkloadIPs ew) in
  mkEndpoint addresses (Some serving) (Some serving) (Some false)
    (if bool_decide (svc_ClusterIP svc = ClusterIPNone ∧ ew_Namespace ew = svc_Namespace svc)
     then Some (ew_Name ew) else None)
    (Some (mkObjectReference "ExternalWorkload" (ew_Namespace ew) (ew_Name ew) (ew_UID ew)))
    (ew_Labels ew !! LabelTopologyZone) None.

(** [PopAny] *)
Definition PopAny (s : EndpointSet) : option (Endpoint * EndpointSet) :=
  match range s with
  | (k, e) :: _ => Some (e, delete k s)
  | [] => None
  end.

(** [for desiredEps.Len() > 0 && len(slice.Endpoints) < r.maxEndpoints { ... }]; every
    round takes one endpoint off the set, so its size bounds the rounds. *)
Fixpoint fill (fuel : nat) (desired : EndpointSet) (eps : list Endpoint)
    : EndpointSet * list Endpoint :=
  match fuel with
  | O => (desired, eps)
  | S fuel =>
      if bool_decide (length eps < maxEndpoints)%nat then
        match PopAny desired with
        | Some (e, desired) => fill fuel desired (eps ++ [e])
        | None => (desired, eps)
        end
      else (desired, eps)
  end.
Definition fillSlice (desired : EndpointSet) (s : EndpointSlice) : EndpointSet * EndpointSlice :=
  let '(desired, eps) := fill (size desired) desired (sl_Endpoints s) in
  (desired, set_endpoints eps s).

(** The endpoints of a slice that are still desired, whether one of them changed, and the
    desired endpoints that are left. *)
Fixpoint keepEndpoints (eps : list Endpoint) (desired : EndpointSet)
    : list Endpoint * bool * EndpointSet :=
  match eps with
  | [] => ([], false, desired)
  | endpoint :: eps =>
      match desired !! hash endpoint with
      | Some found =>
          let '(keep, upd, desired) := keepEndpoints eps (delete (hash endpoint) desired) in
          (found :: keep, negb (EndpointsEqualBeyondHash found endpoint) || upd, desired)
      | None => keepEndpoints eps desired
      end
  end.

Record diffState := mkDiff {
  slicesByName : gmap string EndpointSlice; sliceNamesUnchanged : gset string;
  sliceNamesToUpdate : gset string; sliceNamesToDelete : gset string; desiredEps : EndpointSet }.

(** One round of the first loop. *)
Definition diffSlice (svc : Service) (st : diffState) (existingSlice : EndpointSlice) : diffState :=
  let name := sl_Name existingSlice in
  let '(keep, epUpdated, desired) := keepEndpoints (sl_Endpoints existingSlice) (desiredEps st) in
  let '(labels, labelsChanged) := setEndpointSliceLabels existingSlice svc controllerName in
  let put s := <[name := s]> (slicesByName st) in
  if epUpdated || bool_decide (length (sl_Endpoints existingSlice) ≠ length keep) then
    if bool_decide (length keep = 0%nat) then
      mkDiff (put existingSlice) (sliceNamesUnchanged st) (sliceNamesToUpdate st)
        ({[name]} ∪ sliceNamesToDelete st) desired
    else
      mkDiff (put (set_slice labels keep existingSlice)) (sliceNamesUnchanged st)
        ({[name]} ∪ sliceNamesToUpdate st) (sliceNamesToDelete st) desired
  else if labelsChanged then
    mkDiff (put (set_slice labels (sl_Endpoints existingSlice) existingSlice))
      (sliceNamesUnchanged st) ({[name]} ∪ sliceNamesToUpdate st) (sliceNamesToDelete st) desired
  else
    mkDiff (put existingSlice) ({[name]} ∪ sliceNamesUnchanged st) (sliceNamesToUpdate st)
      (sliceNamesToDelete st) desired.

(** The order in which a [range] over a set of names visits them. *)
Definition range_set (s : gset string) : list string := (range (gset_to_gmap () s)).*1.

(** The slices of a set of names. *)
Definition lookup_names (m : gmap string EndpointSlice) (names : list string) : list EndpointSlice :=
  omap (λ n, m !! n) names.

(** Fullest first. *)
Definition fullest (s1 s2 : EndpointSlice) : Prop :=
  (length (sl_Endpoints s2) ≤ length (sl_Endpoints s1))%nat.
#[local] Instance fullest_dec s1 s2 : Decision (fullest s1 s2).
Proof. unfold fullest. apply _. Defined.

(** The second phase: the slices to update are filled, fullest first. *)
Definition fillUpdates (st : diffState) : diffState :=
  if bool_decide (0 < size (desiredEps st) ∧ 0 < size (sliceNamesToUpdate st))%nat then
    let slices := merge_sort fullest
                    (lookup_names (slicesByName st) (range_set (sliceNamesToUpdate st))) in
    foldl (λ st s,
        let '(desired, s) := fillSlice (desiredEps st) s in
        mkDiff (<[sl_Name s := s]> (slicesByName st)) (sliceNamesUnchanged st)
          (sliceNamesToUpdate st) (sliceNamesToDelete st) desired) st slices
  else st.

(** The third phase: what is left goes to an unchanged slice it fits in, or to new ones. *)
Fixpoint fillRest (fuel : nat) (svc : Service) (meta : endpointMeta) (st : diffState)
    (slicesToCreate : list EndpointSlice) : diffState * list EndpointSlice :=
  match fuel with
  | O => (st, slicesToCreate)
  | S fuel =>
      if bool_decide (size (desiredEps st) = 0%nat) then (st, slicesToCreate) else
      let sliceToFill :=
        if bool_decide (size (desiredEps st) < maxEndpoints ∧ 0 < size (sliceNamesUnchanged st))%nat
        then getSliceToFill (lookup_names (slicesByName st) (range_set (sliceNamesUnchanged st)))
               (Z.of_nat (size (desiredEps st))) (Z.of_nat maxEndpoints)
        else None in
      let '(desired, s) := fillSlice (desiredEps st)
        match sliceToFill with Some s => s | None => newEndpointSlice svc meta controllerName end in
      let byName := match sliceToFill with
                    | Some _ => <[sl_Name s := s]> (slicesByName st)
                    | None => slicesByName st
                    end in
      if bool_decide (sl_Name s ≠ "") then
        fillRest fuel svc meta
          (mkDiff byName (sliceNamesUnchanged st ∖ {[sl_Name s]})
             ({[sl_Name s]} ∪ sliceNamesToUpdate st) (sliceNamesToDelete st) desired) slicesToCreate
      else
        fillRest fuel svc meta
          (mkDiff byName (sliceNamesUnchanged st) (sliceNamesToUpdate st)
             (sliceNamesToDelete st) desired) (slicesToCreate ++ [s])
  end.

(** The slices to create, to update and to delete. *)
Definition reconcileEndpointsByPortMap (svc : Service) (existingSlices : list EndpointSlice)
    (desired : EndpointSet) (meta : endpointMeta)
    : list EndpointSlice * list EndpointSlice * list EndpointSlice :=
  let st := foldl (diffSlice svc) (mkDiff ∅ ∅ ∅ ∅ desired) existingSlices in
  let st := fillUpdates st in
  let '(st, slicesToCreate) := fillRest (size (desiredEps st)) svc meta st [] in
  (slicesToCreate,
   lookup_names (slicesByName st) (range_set (sliceNamesToUpdate st)),
   lookup_names (slicesByName st) (range_set (sliceNamesToDelete st))).
End reconciler.


(** ** Writing the result *)
(** A write to the API server in the namespace of the service. *)
Inductive Write :=
  | Create (slice : EndpointSlice)
  | Update (slice : EndpointSlice)
  | Delete (slice : EndpointSlice)  (* by its name *).
Inductive WriteError := NamespaceTerminating | OtherError (msg : string).

(** The first loop of [finalize]: a slice to create takes the place of one to delete. *)
Fixpoint pairDeletes (svc : Service) (deletes create update kept : list EndpointSlice)
    : list EndpointSlice * list EndpointSlice * list EndpointSlice :=
  match deletes with
  | [] => (create, update, kept)
  | sliceToDelete :: deletes' =>
      match last create with
      | None => (create, update, kept ++ deletes)
      | Some slice =>
          if bool_decide (sl_AddressType sliceToDelete = sl_AddressType slice)
             && ownedBy sliceToDelete svc
          then pairDeletes svc deletes' (removelast create)
                 (update ++ [set_name (sl_Name sliceToDelete) slice]) kept
          else pairDeletes svc deletes' create update (kept ++ [sliceToDelete])
      end
  end.

(** The [EndpointSliceTracker] of k8s.io/endpointslice/util: what the controller expects its
    cache of slices to hold after its own writes. *)
Class EndpointSliceTracker (T : Type) := {
  NewEndpointSliceTracker : T;
  trackerUpdate : EndpointSlice → T → T;
  ExpectDeletion : EndpointSlice → T → T;
  DeleteService : string → string → T → T;
  StaleSlices : Service → list EndpointSlice → T → bool;
  ShouldSync : EndpointSlice → T → bool;
  Has : EndpointSlice → T → bool;
  HandleDeletion : EndpointSlice → T → bool * T }.

(** What the tracker is told of a write that succeeded: the slice the server returned, or
    the deletion to expect. *)
Definition track {T} `{!EndpointSliceTracker T} (stored : EndpointSlice → EndpointSlice)
    (t : T) (w : Write) : T :=
  match w with
  | Create s | Update s => trackerUpdate (stored s) t
  | Delete s => ExpectDeletion s t
  end.

(** The writes in order, up to the first failure; [api] answers each write.  A create in a
    namespace that is going away ends the reconciliation without an error.  The result has
    the writes that succeeded; each of them is followed by the call of the tracker that
    [track] gives, which nothing reads before the reconciliation ends. *)
Fixpoint runWrites (api : Write → option WriteError) (ws : list Write) : res () * list Write :=
  match ws with
  | [] => (Ok (), [])
  | w :: ws =>
      match api w, w with
      | None, _ => let '(r, done) := runWrites api ws in (r, w :: done)
      | Some NamespaceTerminating, Create _ => (Ok (), [])
      | Some NamespaceTerminating, _ => (Err "namespace is being terminated", [])
      | Some (OtherError msg), _ => (Err msg, [])
      end
  end.

Definition finalize (api : Write → option WriteError) (svc : Service)
    (slicesToCreate slicesToUpdate slicesToDelete : list EndpointSlice) : res () * list Write :=
  let '(slicesToCreate, slicesToUpdate, slicesToDelete) :=
    pairDeletes svc slicesToDelete slicesToCreate slicesToUpdate [] in
  runWrites api
    ((if svc_DeletionTimestamp svc then [] else Create <$> slicesToCreate)
     ++ (Update <$> slicesToUpdate) ++ (Delete <$> slicesToDelete)).

(** ** All the slices of a service *)
Section reconcile.
Context (hash : Endpoint → string) (EndpointsEqualBeyondHash : Endpoint → Endpoint → bool).
Context (NewPortMapKey : list EndpointPort → string) (IsIPv6String : string → bool).
Context (controllerName : string) (maxEndpoints : nat) `{!MapRange}.
Context (api : Write → option WriteError) (stored : EndpointSlice → EndpointSlice).
Context {T : Type} `{!EndpointSliceTracker T}.

(** The slices owned by the service, by the key of their ports. *)
Definition slicesByPorts (svc : Service) (existingSlices : list EndpointSlice)
    : gmap string (list EndpointSlice) :=
  foldl (λ m slice,
      if ownedBy slice svc then
        let key := NewPortMapKey (default [] (sl_Ports slice)) in
        <[key := default [] (m !! key) ++ [slice]]> m
      else m) ∅ existingSlices.

(** The desired endpoints and the metadata, by the key of the ports. *)
Definition desiredByPorts (svc : Service) (addrType : string) (extWorkloads : list ExternalWorkload)
    : gmap string (EndpointSet * endpointMeta) :=
  foldl (λ m extWorkload,
      if bool_decide (ew_WorkloadIPs extWorkload = []) then m else
      let ports := findEndpointPorts svc extWorkload in
      let key := NewPortMapKey ports in
      let '(eps, meta) := default (∅, mkEndpointMeta ports addrType) (m !! key) in
      let ep := externalWorkloadToEndpoint IsIPv6String addrType extWorkload svc in
      let eps := if bool_decide (e_Addresses ep = []) then eps else <[hash ep := ep]> eps in
      <[key := (eps, meta)]> m) ∅ extWorkloads.

(** The slices to create, update and delete for one address type. *)
Definition diffByAddressType (svc : Service) (extWorkloads : list ExternalWorkload)
    (existingSlices : list EndpointSlice) (addrType : string)
    : list EndpointSlice * list EndpointSlice * list EndpointSlice :=
  let existing := slicesByPorts svc existingSlices in
  let desired := desiredByPorts svc addrType extWorkloads in
  let foreign := filter (λ s, ownedBy s svc = false) existingSlices in
  let diffs := (λ e, reconcileEndpointsByPortMap hash EndpointsEqualBeyondHash controllerName
                       maxEndpoints svc (default [] (existing !! e.1)) e.2.1 e.2.2)
               <$> range desired in
  (diffs ≫= (λ d, d.1.1), diffs ≫= (λ d, d.1.2),
   foreign ++ (diffs ≫= (λ d, d.2))
   ++ (range existing ≫= λ e, if desired !! e.1 is Some _ then [] else e.2)).

Definition reconcileByAddressType (svc : Service) (extWorkloads : list ExternalWorkload)
    (existingSlices : list EndpointSlice) (addrType : string) : res () * list Write :=
  let '(create, update, delete) := diffByAddressType svc extWorkloads existingSlices addrType in
  finalize api svc create update delete.

(** The errors that were aggregated, the writes that succeeded and the tracker after them.
    The deletions of slices of an unsupported address type are not reported to it. *)
Definition reconcile (svc : Service) (ews : list ExternalWorkload)
    (existingSlices : list EndpointSlice) (tracker : T) : list string * list Write * T :=
  let supported := getSupportedAddressTypes svc in
  let toDelete := filter (λ s, sl_AddressType s ∉ supported) existingSlices in
  let results := (λ addrType, reconcileByAddressType svc ews
                    (filter (λ s, sl_AddressType s = addrType) existingSlices) addrType)
                 <$> range_set supported in
  let deletes := (λ s, runWrites api [Delete s]) <$> toDelete in
  ((results ++ deletes) ≫= (λ r, match r.1 with Err e => [e] | _ => [] end),
   (results ++ deletes) ≫= snd, foldl (track stored) tracker (results ≫= snd)).
End reconcile.

(** * Lemmas *)
Section lemmas.
Context (hash : Endpoint → string) (max : nat) `{!MapRange}.

(** The set stores every endpoint under its hash. *)
Definition hashed (d : EndpointSet) : Prop := ∀ k e, d !! k = Some e → hash e = k.
Definition keys (d : EndpointSet) : list string := (map_to_list d).*1.
Definition hashes (ss : list EndpointSlice) : list string := ss ≫= λ s, hash <$> sl_Endpoints s.

Lemma keys_delete d k e : d !! k = Some e → keys d ≡ₚ k :: keys (delete k d).
Proof. intros Hk. unfold keys. by rewrite <-(map_to_list_delete d k e). Qed.

Lemma hashed_delete d k : hashed d → hashed (delete k d).
Proof. intros Hd i e [_ Hi]%lookup_delete_Some. by apply Hd. Qed.

Lemma hashes_app ss1 ss2 : hashes (ss1 ++ ss2) = hashes ss1 ++ hashes ss2.
Proof. apply bind_app. Qed.

Lemma hashes_perm ss1 ss2 : ss1 ≡ₚ ss2 → hashes ss1 ≡ₚ hashes ss2.
Proof. intros Hp. unfold hashes. by rewrite Hp. Qed.

(** Keeping endpoints moves them from the desired set, and keeps the hash of each. *)
Lemma keepEndpoints_spec (eqb : Endpoint → Endpoint → bool) eps d keep upd d' :
  hashed d → keepEndpoints hash eqb eps d = (keep, upd, d') →
  (hash <$> keep) ++ keys d' ≡ₚ keys d
  ∧ hashed d' ∧ (length keep ≤ length eps)%nat
  ∧ (length eps = length keep → hash <$> keep = hash <$> eps)
  ∧ (∀ e, e ∈ keep → d !! hash e = Some e).
Proof.
  revert d keep upd d'. induction eps as [|e eps IH]; intros d keep upd d' Hd; simpl.
  { intros [= <- <- <-]. split_and!; try done. by intros ? ?%not_elem_of_nil. }
  destruct (d !! hash e) as [found|] eqn:Hf.
  - destruct (keepEndpoints hash eqb eps (delete (hash e) d)) as [[k u] d1] eqn:Hk.
    intros [= <- <- <-].
    destruct (IH _ _ _ _ (hashed_delete d (hash e) Hd) Hk) as (Hp & Hd1 & Hlen & Heq & Hin).
    pose proof (Hd _ _ Hf) as Hhash. split_and!.
    + simpl. rewrite Hp, Hhash. symmetry. by eapply keys_delete.
    + done.
    + simpl. lia.
    + simpl. intros [= Hl]. rewrite Hhash. f_equal. auto.
    + intros x [->|Hx]%elem_of_cons; [by rewrite Hhash|].
      apply Hin in Hx as Hx'. by apply lookup_delete_Some in Hx' as [_ ?].
  - intros Hk. destruct (IH _ _ _ _ Hd Hk) as (Hp & Hd1 & Hlen & Heq & Hin).
    split_and!; try done; simpl; [lia|]. intros Hl. lia.
Qed.

Lemma PopAny_Some d e d' :
  hashed d → PopAny d = Some (e, d') →
  keys d ≡ₚ hash e :: keys d' ∧ hashed d' ∧ size d = S (size d').
Proof.
  intros Hd. unfold PopAny. destruct (range d) as [|[k x] l] eqn:Hr; [done|]. intros [= <- <-].
  assert (d !! k = Some x) as Hk. { apply elem_of_range. rewrite Hr. set_solver. }
  split_and!.
  - rewrite (Hd _ _ Hk). by eapply keys_delete.
  - by apply hashed_delete.
  - rewrite map_size_delete, Hk. assert (size d ≠ 0%nat); [|simpl; lia].
    intros Hs. apply map_size_empty_inv in Hs. by rewrite Hs, lookup_empty in Hk.
Qed.

Lemma PopAny_None d : PopAny d = None → d = ∅.
Proof.
  unfold PopAny. destruct (range d) as [|[k x] l] eqn:Hr; [|done]. intros _.
  apply map_size_empty_inv. by rewrite <-length_range, Hr.
Qed.

Lemma fill_spec fuel d eps d' eps' :
  hashed d → fill max fuel d eps = (d', eps') →
  (hash <$> eps') ++ keys d' ≡ₚ (hash <$> eps) ++ keys d
  ∧ hashed d' ∧ (length eps' ≤ Nat.max max (length eps))%nat
  ∧ (length eps' + size d' = length eps + size d)%nat
  ∧ (size d ≤ fuel → d' = ∅ ∨ max ≤ length eps')%nat.
Proof.
  revert d eps d' eps'. induction fuel as [|fuel IH]; intros d eps d' eps' Hd; simpl.
  { intros [= <- <-]. split_and!; try done; [lia|]. intros Hs. left. apply map_size_empty_inv. lia. }
  case_bool_decide as Hl; last first.
  { intros [= <- <-]. split_and!; try done; [lia|]. intros _. right. lia. }
  destruct (PopAny d) as [[e d1]|] eqn:Hp; last first.
  { intros [= <- <-]. split_and!; try done; [lia|]. intros _. left. by apply PopAny_None. }
  intros Hf. destruct (PopAny_Some _ _ _ Hd Hp) as (Hk & Hd1 & Hs).
  destruct (IH _ _ _ _ Hd1 Hf) as (Hperm & Hd' & Hlen & Hsum & Hend). rewrite length_app in *.
  simpl in *. split_and!; try done; [|lia|lia|].
  - rewrite Hperm, Hk, fmap_app. simpl. by rewrite <-app_assoc.
  - intros Hsz. apply Hend. lia.
Qed.

Lemma fillSlice_spec d s d' s' :
  hashed d → fillSlice max d s = (d', s') →
  hashes [s'] ++ keys d' ≡ₚ hashes [s] ++ keys d
  ∧ hashed d' ∧ sl_Name s' = sl_Name s
  ∧ (length (sl_Endpoints s') ≤ Nat.max max (length (sl_Endpoints s)))%nat
  ∧ (length (sl_Endpoints s') + size d' = length (sl_Endpoints s) + size d)%nat
  ∧ (d' = ∅ ∨ max ≤ length (sl_Endpoints s'))%nat.
Proof.
  intros Hd. unfold fillSlice. destruct (fill max (size d) d (sl_Endpoints s)) as [d1 eps] eqn:Hf.
  intros [= <- <-]. destruct (fill_spec _ _ _ _ _ Hd Hf) as (Hp & Hd1 & Hlen & Hsum & Hend).
  simpl. rewrite !app_nil_r. split_and!; try done. by apply Hend.
Qed.
End lemmas.

(** ** The state of the diff *)
Section diff.
Context (hash : Endpoint → string) (eqb : Endpoint → Endpoint → bool).
Context (controllerName : string) (max : nat) `{!MapRange}.
Context (svc : Service) (desired0 : EndpointSet).

Definition live_names (st : diffState) : gset string := sliceNamesUnchanged st ∪ sliceNamesToUpdate st.
Definition live (st : diffState) : gmap string EndpointSlice :=
  filter (λ e, e.1 ∈ live_names st) (slicesByName st).
Definition live_slices (st : diffState) : list EndpointSlice := (map_to_list (live st)).*2.

Record diff_inv (st : diffState) (created : list EndpointSlice) : Prop := {
  inv_name n s : slicesByName st !! n = Some s → sl_Name s = n ∧ n ≠ "";
  inv_dom : dom (slicesByName st)
            = sliceNamesUnchanged st ∪ sliceNamesToUpdate st ∪ sliceNamesToDelete st;
  inv_disj1 : sliceNamesUnchanged st ## sliceNamesToUpdate st;
  inv_disj2 : live_names st ## sliceNamesToDelete st;
  inv_hashed : hashed hash (desiredEps st);
  inv_quota n s : slicesByName st !! n = Some s → (length (sl_Endpoints s) ≤ max)%nat;
  inv_quota_created s : s ∈ created → (length (sl_Endpoints s) ≤ max)%nat;
  inv_perm : hashes hash (live_slices st ++ created) ++ keys (desiredEps st) ≡ₚ keys desired0 }.

Lemma lookup_live st n s :
  live st !! n = Some s ↔ slicesByName st !! n = Some s ∧ n ∈ live_names st.
Proof. unfold live. rewrite map_lookup_filter_Some. done. Qed.

(** A slice is put under a name that was not live before, or replaces the live one. *)
Lemma live_slices_insert st st' n s :
  slicesByName st' = <[n := s]> (slicesByName st) → live_names st' = {[n]} ∪ live_names st →
  live st !! n = None → live_slices st' ≡ₚ s :: live_slices st.
Proof.
  intros Hm Hn Hfresh. unfold live_slices.
  assert (live st' = <[n := s]> (live st)) as ->.
  { apply map_eq. intros i. destruct (decide (i = n)) as [->|Hne].
    - rewrite lookup_insert_eq. apply lookup_live. rewrite Hm, Hn, lookup_insert_eq. set_solver.
    - rewrite lookup_insert_ne by done. apply option_eq. intros x.
      rewrite !lookup_live, Hm, Hn, lookup_insert_ne by done. set_solver. }
  by rewrite map_to_list_insert by done.
Qed.

Lemma live_slices_replace st st' n s0 s :
  slicesByName st' = <[n := s]> (slicesByName st) → live_names st' = live_names st →
  live st !! n = Some s0 →
  ∃ rest, live_slices st ≡ₚ s0 :: rest ∧ live_slices st' ≡ₚ s :: rest.
Proof.
  intros Hm Hn Hl. pose proof Hl as [_ Hin]%lookup_live.
  assert (live st' = <[n := s]> (live st)) as Heq.
  { apply map_eq. intros i. destruct (decide (i = n)) as [->|Hne].
    - rewrite lookup_insert_eq. apply lookup_live. rewrite Hm, Hn, lookup_insert_eq. done.
    - rewrite lookup_insert_ne by done. apply option_eq. intros x.
      rewrite !lookup_live, Hm, Hn, lookup_insert_ne by done. done. }
  exists (map_to_list (delete n (live st))).*2. unfold live_slices. rewrite Heq. split.
  - by rewrite <-(map_to_list_delete (live st) n s0).
  - rewrite <-insert_delete_eq, map_to_list_insert by apply lookup_delete_eq. done.
Qed.

Lemma live_slices_same st st' n s :
  slicesByName st' = <[n := s]> (slicesByName st) → live_names st' = live_names st →
  n ∉ live_names st → live_slices st' = live_slices st.
Proof.
  intros Hm Hn Hni. unfold live_slices. do 2 f_equal. apply map_eq. intros i. apply option_eq.
  intros x. rewrite !lookup_live, Hm, Hn, lookup_insert_Some.
  destruct (decide (n = i)) as [<-|]; naive_solver.
Qed.

(** ** The first phase *)
(** A slice with the endpoints it keeps becomes unchanged or to be updated. *)
Lemma diff_inv_keep st st' x :
  diff_inv st [] → (length (sl_Endpoints x) ≤ max)%nat → sl_Name x ≠ "" → sl_Name x ∉ dom (slicesByName st) →
  slicesByName st' = <[sl_Name x := x]> (slicesByName st) →
  (sliceNamesUnchanged st' = {[sl_Name x]} ∪ sliceNamesUnchanged st
     ∧ sliceNamesToUpdate st' = sliceNamesToUpdate st
   ∨ sliceNamesUnchanged st' = sliceNamesUnchanged st
     ∧ sliceNamesToUpdate st' = {[sl_Name x]} ∪ sliceNamesToUpdate st) →
  sliceNamesToDelete st' = sliceNamesToDelete st → hashed hash (desiredEps st') →
  (hash <$> sl_Endpoints x) ++ keys (desiredEps st') ≡ₚ keys (desiredEps st) → diff_inv st' [].
Proof.
  intros [Hname Hdom Hd1 Hd2 Hh Hq Hqc Hp] Hlen Hne Hfresh Hm Hsets Hdel Hh' Hperm.
  assert (live_names st' = {[sl_Name x]} ∪ live_names st) as Hn.
  { unfold live_names. destruct Hsets as [[-> ->]|[-> ->]]; set_solver. }
  assert (live st !! sl_Name x = None) as Hnl.
  { apply eq_None_not_Some. intros [y [Hy _]%lookup_live]. apply Hfresh, elem_of_dom. by eexists. }
  assert ((sl_Name x ∉ sliceNamesUnchanged st) ∧ (sl_Name x ∉ sliceNamesToUpdate st)
    ∧ (sl_Name x ∉ sliceNamesToDelete st)) as (Hu & Hup & Hde) by (rewrite Hdom in Hfresh; set_solver).
  split.
  - intros i y. rewrite Hm. intros [[<- <-]|[_ Hy]]%lookup_insert_Some; [done|by apply Hname].
  - rewrite Hm, dom_insert_L, Hdom, Hdel. destruct Hsets as [[-> ->]|[-> ->]]; set_solver.
  - destruct Hsets as [[-> ->]|[-> ->]]; set_solver.
  - rewrite Hn, Hdel. set_solver.
  - done.
  - intros i y. rewrite Hm. intros [[<- <-]|[_ Hy]]%lookup_insert_Some; [done|by eapply Hq].
  - done.
  - rewrite app_nil_r in *.
    rewrite (hashes_perm hash _ _ (live_slices_insert st st' _ x Hm Hn Hnl)). unfold hashes at 1.
    rewrite bind_cons. fold (hashes hash (live_slices st)). rewrite <-Hp, <-Hperm.
    rewrite !app_assoc. f_equiv. apply Permutation_app_comm.
Qed.

(** A slice that keeps no endpoint is deleted. *)
Lemma diff_inv_drop st st' x :
  diff_inv st [] → (length (sl_Endpoints x) ≤ max)%nat → sl_Name x ≠ "" → sl_Name x ∉ dom (slicesByName st) →
  slicesByName st' = <[sl_Name x := x]> (slicesByName st) →
  sliceNamesUnchanged st' = sliceNamesUnchanged st →
  sliceNamesToUpdate st' = sliceNamesToUpdate st →
  sliceNamesToDelete st' = {[sl_Name x]} ∪ sliceNamesToDelete st → hashed hash (desiredEps st') →
  keys (desiredEps st') ≡ₚ keys (desiredEps st) → diff_inv st' [].
Proof.
  intros [Hname Hdom Hd1 Hd2 Hh Hq Hqc Hp] Hlen Hne Hfresh Hm Hu Hup Hdel Hh' Hperm.
  assert (live_names st' = live_names st) as Hn by (unfold live_names; by rewrite Hu, Hup).
  assert (sl_Name x ∉ live_names st) as Hni by (unfold live_names; rewrite Hdom in Hfresh; set_solver).
  split.
  - intros i y. rewrite Hm. intros [[<- <-]|[_ Hy]]%lookup_insert_Some; [done|by apply Hname].
  - rewrite Hm, dom_insert_L, Hdom, Hdel, Hu, Hup. set_solver.
  - by rewrite Hu, Hup.
  - rewrite Hn, Hdel. set_solver.
  - done.
  - intros i y. rewrite Hm. intros [[<- <-]|[_ Hy]]%lookup_insert_Some; [done|by eapply Hq].
  - done.
  - by rewrite (live_slices_same st st' _ x Hm Hn Hni), Hperm.
Qed.

Lemma diffSlice_inv st s :
  diff_inv st [] → (length (sl_Endpoints s) ≤ max)%nat → sl_Name s ≠ "" → sl_Name s ∉ dom (slicesByName st) →
  diff_inv (diffSlice hash eqb controllerName svc st s) [].
Proof.
  intros Hinv Hlen Hne Hfresh. unfold diffSlice.
  destruct (keepEndpoints hash eqb (sl_Endpoints s) (desiredEps st)) as [[keep upd] d'] eqn:Hk.
  destruct (setEndpointSliceLabels s svc controllerName) as [labels changed].
  destruct (keepEndpoints_spec hash eqb _ _ _ _ _ (inv_hashed _ _ Hinv) Hk)
    as (Hperm & Hh' & Hkl & Hsame & _).
  destruct (upd || bool_decide (length (sl_Endpoints s) ≠ length keep)) eqn:Hchg.
  - destruct (bool_decide (length keep = 0%nat)) eqn:Hk0.
    + apply bool_decide_eq_true, nil_length_inv in Hk0 as ->. by eapply (diff_inv_drop st _ s).
    + eapply (diff_inv_keep st _ (set_slice labels keep s)); try done; [simpl; lia|by right].
  - apply orb_false_iff in Hchg as [_ Hl]. apply bool_decide_eq_false, dec_stable in Hl.
    rewrite (Hsame Hl) in Hperm. destruct changed.
    + eapply (diff_inv_keep st _ (set_slice labels (sl_Endpoints s) s)); try done. by right.
    + eapply (diff_inv_keep st _ s); try done. by left.
Qed.

(** The names seen, and the originals of the unchanged slices. *)
Lemma diffSlice_names st s :
  dom (slicesByName (diffSlice hash eqb controllerName svc st s)) = {[sl_Name s]} ∪ dom (slicesByName st)
  ∧ (sl_Name s ∉ dom (slicesByName st) →
     ∀ P : EndpointSlice → Prop, P s →
     (∀ n x, n ∈ sliceNamesUnchanged st → slicesByName st !! n = Some x → P x) →
     (∀ n, n ∈ sliceNamesUnchanged st → n ∈ dom (slicesByName st)) →
     ∀ n x, n ∈ sliceNamesUnchanged (diffSlice hash eqb controllerName svc st s) →
       slicesByName (diffSlice hash eqb controllerName svc st s) !! n = Some x → P x).
Proof.
  unfold diffSlice.
  destruct (keepEndpoints hash eqb (sl_Endpoints s) (desiredEps st)) as [[keep upd] d'].
  destruct (setEndpointSliceLabels s svc controllerName) as [labels changed].
  repeat case_match; simpl; (split; [by rewrite dom_insert_L|]);
    intros Hfresh P Hs Hold Hsub n x Hn Hx; apply lookup_insert_Some in Hx as [[<- <-]|[Hne Hx]];
    try done; try (by destruct Hfresh; apply Hsub); try (by eapply Hold).
  eapply Hold; [|done]. set_solver.
Qed.

Lemma diffAll_inv existing st :
  diff_inv st [] → NoDup (sl_Name <$> existing) →
  (∀ s, s ∈ existing → (length (sl_Endpoints s) ≤ max)%nat ∧ sl_Name s ≠ ""
     ∧ sl_Name s ∉ dom (slicesByName st)) →
  let st' := foldl (diffSlice hash eqb controllerName svc) st existing in
  diff_inv st' [] ∧ dom (slicesByName st') = list_to_set (sl_Name <$> existing) ∪ dom (slicesByName st).
Proof.
  revert st. induction existing as [|s existing IH]; intros st Hinv Hnd Hok; simpl.
  { split; [done|]. set_solver. }
  apply NoDup_cons in Hnd as [Hni Hnd].
  destruct (Hok s) as (Hlen & Hne & Hfresh); [set_solver|]. destruct (diffSlice_names st s) as [Hdom _].
  destruct (IH (diffSlice hash eqb controllerName svc st s)) as [Hi Hd].
  - by apply diffSlice_inv.
  - done.
  - intros x Hx. split_and!; [apply Hok; set_solver|apply Hok; set_solver|].
    rewrite Hdom. intros [Heq|Hin]%elem_of_union.
    + apply Hni. apply list_elem_of_fmap. exists x. set_solver.
    + apply (Hok x); [set_solver|done].
  - split; [done|]. rewrite Hd, Hdom. set_solver.
Qed.

(** ** Filling slices *)
Lemma elem_of_range_set n (X : gset string) : n ∈ range_set X ↔ n ∈ X.
Proof.
  unfold range_set. rewrite list_elem_of_fmap. split.
  - intros ([k []] & -> & Hin). apply elem_of_range, lookup_gset_to_gmap_Some in Hin as [Hin _]. done.
  - intros Hn. exists (n, ()). split; [done|]. apply elem_of_range. by apply lookup_gset_to_gmap_Some.
Qed.

Lemma NoDup_range_set (X : gset string) : NoDup (range_set X).
Proof. apply NoDup_range_keys. Qed.

Lemma elem_of_lookup_names m ns s : s ∈ lookup_names m ns ↔ ∃ n, n ∈ ns ∧ m !! n = Some s.
Proof. unfold lookup_names. by rewrite list_elem_of_omap. Qed.

Lemma lookup_names_NoDup (m : gmap string EndpointSlice) ns :
  (∀ n s, m !! n = Some s → sl_Name s = n) → NoDup ns → NoDup (sl_Name <$> lookup_names m ns).
Proof.
  intros Hm. unfold lookup_names. induction ns as [|n ns IH]; [constructor|].
  intros [Hni Hnd]%NoDup_cons. simpl. destruct (m !! n) as [s|] eqn:Hs; [|by apply IH].
  simpl. constructor; [|by apply IH]. rewrite (Hm _ _ Hs), list_elem_of_fmap.
  intros (x & -> & (k & Hk & Hx)%list_elem_of_omap). rewrite (Hm _ _ Hx) in Hni. done.
Qed.

(** Filling a live slice from the desired set. *)
Lemma diff_inv_fill st st' created s d' s' :
  diff_inv st created → live st !! sl_Name s = Some s →
  fillSlice max (desiredEps st) s = (d', s') →
  slicesByName st' = <[sl_Name s' := s']> (slicesByName st) → live_names st' = live_names st →
  sliceNamesUnchanged st' ## sliceNamesToUpdate st' →
  sliceNamesToDelete st' = sliceNamesToDelete st → desiredEps st' = d' → diff_inv st' created.
Proof.
  intros [Hname Hdom Hd1 Hd2 Hh Hq Hqc Hp] Hl Hf Hm Hn Hd1' Hdel Hdes.
  destruct (fillSlice_spec hash max _ _ _ _ Hh Hf) as (Hperm & Hh' & Hnm & Hlen & _). rewrite Hnm in Hm.
  pose proof Hl as [Hs Hin]%lookup_live.
  destruct (live_slices_replace st st' _ s s' Hm Hn Hl) as (rest & Hr & Hr').
  split.
  - intros i y. rewrite Hm. intros [[<- <-]|[_ Hy]]%lookup_insert_Some; [|by apply Hname].
    split; [done|]. by apply (Hname _ _ Hs).
  - unfold live_names in Hn. rewrite Hm, dom_insert_L, Hn, Hdel, <-Hdom.
    apply elem_of_dom_2 in Hs. set_solver.
  - done.
  - by rewrite Hn, Hdel.
  - by rewrite Hdes.
  - intros i y. rewrite Hm. intros [[<- <-]|[_ Hy]]%lookup_insert_Some; [|by eapply Hq].
    apply Hq in Hs. lia.
  - done.
  - rewrite Hdes. rewrite hashes_app in *. rewrite (hashes_perm hash _ _ Hr') .
    rewrite (hashes_perm hash _ _ Hr) in Hp. change (s' :: rest) with ([s'] ++ rest).
    change (s :: rest) with ([s] ++ rest) in Hp. rewrite hashes_app in *. rewrite <-Hp.
    rewrite <-!app_assoc. rewrite (Permutation_app_comm (hashes hash rest)).
    rewrite (Permutation_app_comm (hashes hash rest) (hashes hash created ++ keys (desiredEps st))).
    rewrite <-!app_assoc. rewrite (Permutation_app_comm (hashes hash created)).
    rewrite (Permutation_app_comm (hashes hash created)).
    rewrite !app_assoc. f_equiv. f_equiv. exact Hperm.
Qed.

Lemma fillUpdates_fold slices st :
  diff_inv st [] → NoDup (sl_Name <$> slices) →
  (∀ s, s ∈ slices → slicesByName st !! sl_Name s = Some s ∧ sl_Name s ∈ sliceNamesToUpdate st) →
  let st' := foldl (λ st s,
      let '(desired, s) := fillSlice max (desiredEps st) s in
      mkDiff (<[sl_Name s := s]> (slicesByName st)) (sliceNamesUnchanged st)
        (sliceNamesToUpdate st) (sliceNamesToDelete st) desired) st slices in
  diff_inv st' [] ∧ sliceNamesUnchanged st' = sliceNamesUnchanged st
  ∧ dom (slicesByName st') = dom (slicesByName st)
  ∧ (∀ n, n ∈ sliceNamesUnchanged st → slicesByName st' !! n = slicesByName st !! n).
Proof.
  revert st. induction slices as [|s slices IH]; intros st Hinv Hnd Hok; simpl; [done|].
  apply NoDup_cons in Hnd as [Hni Hnd]. destruct (Hok s) as [Hs Hin]; [set_solver|].
  destruct (fillSlice max (desiredEps st) s) as [d' s'] eqn:Hf.
  destruct (fillSlice_spec hash max _ _ _ _ (inv_hashed _ _ Hinv) Hf) as (_ & _ & Hnm & _).
  set (st1 := mkDiff (<[sl_Name s' := s']> (slicesByName st)) (sliceNamesUnchanged st)
    (sliceNamesToUpdate st) (sliceNamesToDelete st) d').
  destruct (IH st1) as (Hi & Hu & Hdm & Hsame).
  - eapply (diff_inv_fill st st1 [] s d' s'); try done; [|by destruct Hinv].
    apply lookup_live. split; [done|]. unfold live_names. set_solver.
  - done.
  - intros x Hx. destruct (Hok x) as [Hsx Hinx]; [set_solver|]. split; [|done]. unfold st1. simpl.
    rewrite lookup_insert_ne; [done|]. rewrite Hnm. intros Heq. apply Hni. rewrite Heq.
    apply list_elem_of_fmap. by exists x.
  - split_and!; [done|done| |].
    { rewrite Hdm. unfold st1. simpl. rewrite dom_insert_L, Hnm. apply elem_of_dom_2 in Hs. set_solver. }
    intros n Hn. rewrite Hsame by done. unfold st1. simpl.
    rewrite lookup_insert_ne; [done|]. rewrite Hnm. intros Heq. subst n. destruct Hinv as [_ _ Hd _ _ _ _ _].
    set_solver.
Qed.

Lemma fillUpdates_inv st :
  diff_inv st [] →
  let st' := fillUpdates max st in
  diff_inv st' [] ∧ sliceNamesUnchanged st' = sliceNamesUnchanged st
  ∧ dom (slicesByName st') = dom (slicesByName st)
  ∧ (∀ n, n ∈ sliceNamesUnchanged st → slicesByName st' !! n = slicesByName st !! n).
Proof.
  intros Hinv. unfold fillUpdates. case_bool_decide; [|done].
  apply fillUpdates_fold; [done| |].
  - rewrite merge_sort_Permutation. apply lookup_names_NoDup; [|apply NoDup_range_set].
    intros n s Hs. by apply (inv_name _ _ Hinv).
  - intros s. rewrite merge_sort_Permutation. intros (n & Hn & Hs)%elem_of_lookup_names.
    apply elem_of_range_set in Hn. destruct (inv_name _ _ Hinv _ _ Hs) as [-> _]. done.
Qed.

(** ** The third phase *)
Lemma closest_spec slices num mx diff0 best s :
  closest slices num mx diff0 best = Some s →
  best = Some s ∨ (s ∈ slices ∧ num + Z.of_nat (length (sl_Endpoints s)) ≤ mx).
Proof.
  revert diff0 best. induction slices as [|x slices IH]; intros diff0 best; simpl; [by left|].
  destruct ((0 <=? _) && _) eqn:Hc.
  - apply andb_true_iff in Hc as [Hc _]. apply Z.leb_le in Hc. case_match.
    + intros [= <-]. right. split; [set_solver|lia].
    + intros [[= <-]|[? ?]]%IH; right; (split; [set_solver|lia]).
  - intros [?|[? ?]]%IH; [by left|right]. split; [set_solver|lia].
Qed.

(** The slice a round fills, and what the round leaves. *)
Lemma fillRest_round st created s d' s' :
  (1 ≤ max)%nat → diff_inv st created → desiredEps st ≠ ∅ →
  (sl_Name s = "" ∧ sl_Endpoints s = []
   ∨ (sl_Name s ∈ sliceNamesUnchanged st) ∧ slicesByName st !! sl_Name s = Some s
     ∧ (length (sl_Endpoints s) + size (desiredEps st) ≤ max)%nat) →
  fillSlice max (desiredEps st) s = (d', s') →
  (size d' < size (desiredEps st))%nat ∧ sl_Name s' = sl_Name s
  ∧ (sl_Name s = "" → diff_inv (mkDiff (slicesByName st) (sliceNamesUnchanged st)
       (sliceNamesToUpdate st) (sliceNamesToDelete st) d') (created ++ [s']))
  ∧ (sl_Name s ≠ "" → diff_inv (mkDiff (<[sl_Name s' := s']> (slicesByName st))
       (sliceNamesUnchanged st ∖ {[sl_Name s']}) ({[sl_Name s']} ∪ sliceNamesToUpdate st)
       (sliceNamesToDelete st) d') created).
Proof.
  intros Hmax Hinv Hne Hs Hf.
  destruct (fillSlice_spec hash max _ _ _ _ (inv_hashed _ _ Hinv) Hf)
    as (Hperm & Hh' & Hnm & Hlen & Hsum & Hend).
  assert (0 < size (desiredEps st))%nat as Hpos by (by apply map_size_pos).
  assert (size d' < size (desiredEps st))%nat as Hlt.
  { destruct Hend as [->|Hend]; [by rewrite map_size_empty|].
    destruct Hs as [[_ He]|(_ & _ & Hfit)]; [rewrite He in Hsum; simpl in Hsum|]; lia. }
  split_and!; [done|done| |].
  - intros Hn. destruct Hs as [[_ He]|(Hin & Hl & _)]; last first.
    { destruct (inv_name _ _ Hinv _ _ Hl) as [_ Hx]. done. }
    destruct Hinv as [Hname Hdom Hd1 Hd2 Hh Hq Hqc Hp]. split; simpl; try done.
    { intros x [Hx| ->%list_elem_of_singleton]%elem_of_app; [by apply Hqc|].
      rewrite He in Hlen. simpl in Hlen. lia. }
    change (live_slices (mkDiff _ _ _ _ d')) with (live_slices st).
    rewrite app_assoc, hashes_app, <-app_assoc, Hperm. unfold hashes at 2. simpl. rewrite He. simpl.
    done.
  - intros Hn. destruct Hs as [[? _]|(Hin & Hl & _)]; [done|].
    eapply (diff_inv_fill st _ created s d' s'); try done; simpl.
    + apply lookup_live. split; [done|]. unfold live_names. set_solver.
    + unfold live_names. simpl. rewrite Hnm. apply set_eq. intros x.
      destruct (decide (x = sl_Name s)) as [->|]; set_solver.
    + destruct Hinv as [_ _ Hd1 _ _ _ _ _]. set_solver.
Qed.

Lemma fillRest_inv fuel meta st created st' created' :
  (1 ≤ max)%nat → diff_inv st created → (size (desiredEps st) ≤ fuel)%nat →
  fillRest controllerName max fuel svc meta st created = (st', created') →
  diff_inv st' created' ∧ desiredEps st' = ∅
  ∧ sliceNamesUnchanged st' ⊆ sliceNamesUnchanged st
  ∧ dom (slicesByName st') = dom (slicesByName st)
  ∧ (∀ n, n ∈ sliceNamesUnchanged st' → slicesByName st' !! n = slicesByName st !! n).
Proof.
  intros Hmax. revert st created. induction fuel as [|fuel IH]; intros st created Hinv Hsz; simpl.
  { intros [= <- <-]. split_and!; try done. apply map_size_empty_inv. lia. }
  case_bool_decide as H0.
  { intros [= <- <-]. split_and!; try done. by apply map_size_empty_inv. }
  assert (desiredEps st ≠ ∅) as Hne by (intros He; by rewrite He, map_size_empty in H0).
  set (pick := if bool_decide _ then getSliceToFill _ _ _ else None).
  set (s := match pick with Some s => s | None => newEndpointSlice svc meta controllerName end).
  assert ((pick = None → sl_Name s = "") ∧
    (sl_Name s = "" ∧ sl_Endpoints s = []
     ∨ (sl_Name s ∈ sliceNamesUnchanged st) ∧ slicesByName st !! sl_Name s = Some s
       ∧ (length (sl_Endpoints s) + size (desiredEps st) ≤ max)%nat)) as [Hnone Hs].
  { destruct pick as [x|] eqn:Hp; [|split; [done|by left]]. split; [done|]. right. unfold s, pick in *.
    case_bool_decide; [|done]. apply closest_spec in Hp as [?|[Hin Hfit]]; [done|].
    apply elem_of_lookup_names in Hin as (n & Hn%elem_of_range_set & Hx).
    destruct (inv_name _ _ Hinv _ _ Hx) as [-> _]. split_and!; [done|done|lia]. }
  destruct (fillSlice max (desiredEps st) s) as [d' s'] eqn:Hf.
  destruct (fillRest_round st created s d' s' Hmax Hinv Hne Hs Hf) as (Hlt & Hnm & Hnew & Hold).
  case_bool_decide as Hname.
  - destruct pick as [x|] eqn:Hpk; [|rewrite Hnm in Hname; by destruct Hname; apply Hnone].
    intros Hr. apply IH in Hr as (Hi & He & Hsub & Hdm & Hsame).
    + split_and!; [done|done|simpl in Hsub; set_solver| |].
      { rewrite Hdm. simpl. rewrite dom_insert_L, Hnm. destruct Hs as [[Hx _]|(_ & Hl & _)].
        - by rewrite Hnm, Hx in Hname.
        - apply elem_of_dom_2 in Hl. set_solver. }
      intros n Hn. rewrite Hsame by done. simpl.
      apply lookup_insert_ne. apply Hsub in Hn. simpl in Hn. set_solver.
    + apply Hold. by rewrite <-Hnm.
    + simpl. lia.
  - rewrite Hnm in Hname.
    destruct pick as [x|] eqn:Hpk.
    { destruct Hs as [[_ He]|(_ & Hl & _)]; [|by destruct (inv_name _ _ Hinv _ _ Hl)].
      exfalso. unfold s, pick in *. revert Hpk. case_bool_decide; [|done].
      intros [?|[Hin _]]%closest_spec; [done|]. apply elem_of_lookup_names in Hin as (n & _ & Hx).
      by destruct (inv_name _ _ Hinv _ _ Hx) as [<- Hn]. }
    intros Hr. apply IH in Hr as (Hi & He & Hsub & Hdm & Hsame); [split_and!; done| |simpl; lia].
    by apply Hnew.
Qed.

(** ** The result *)
Lemma diffAll_unchanged (P : EndpointSlice → Prop) existing st :
  NoDup (sl_Name <$> existing) → (∀ s, s ∈ existing → P s ∧ sl_Name s ∉ dom (slicesByName st)) →
  diff_inv st [] → (∀ s, s ∈ existing → (length (sl_Endpoints s) ≤ max)%nat ∧ sl_Name s ≠ "") →
  (∀ n x, n ∈ sliceNamesUnchanged st → slicesByName st !! n = Some x → P x) →
  let st' := foldl (diffSlice hash eqb controllerName svc) st existing in
  ∀ n x, n ∈ sliceNamesUnchanged st' → slicesByName st' !! n = Some x → P x.
Proof.
  revert st. induction existing as [|s existing IH]; intros st Hnd Hok Hinv Hne Hold; simpl; [done|].
  apply NoDup_cons in Hnd as [Hni Hnd]. destruct (Hok s) as [HPs Hfresh]; [set_solver|].
  destruct (diffSlice_names st s) as [Hdom Hun]. apply IH; [done| | | |].
  - intros x Hx. split; [apply Hok; set_solver|]. rewrite Hdom. intros [Heq|Hin]%elem_of_union.
    + apply Hni. apply list_elem_of_fmap. exists x. set_solver.
    + apply (Hok x); [set_solver|done].
  - apply diffSlice_inv; [done|apply Hne; set_solver|apply Hne; set_solver|done].
  - intros x Hx. apply Hne. set_solver.
  - apply Hun; [done|done|done|]. intros n Hn. rewrite (inv_dom _ _ Hinv). set_solver.
Qed.

(** The slices the result does not mention. *)
Definition leftAlone (existing update delete : list EndpointSlice) : list EndpointSlice :=
  filter (λ s, (sl_Name s ∉ sl_Name <$> update) ∧ (sl_Name s ∉ sl_Name <$> delete)) existing.

Lemma NoDup_by_name (l : list EndpointSlice) : NoDup (sl_Name <$> l) → NoDup l.
Proof. apply NoDup_fmap_1. Qed.

Lemma same_name (l : list EndpointSlice) s x :
  NoDup (sl_Name <$> l) → s ∈ l → x ∈ l → sl_Name s = sl_Name x → s = x.
Proof.
  intros Hnd Hs Hx Heq. apply list_elem_of_lookup in Hs as [i Hi], Hx as [j Hj].
  assert (i = j) as ->; [|congruence].
  eapply NoDup_lookup; [done|rewrite list_lookup_fmap, Hi; done|].
  rewrite list_lookup_fmap, Hj. simpl. by rewrite Heq.
Qed.

Lemma live_slices_perm st created :
  diff_inv st created →
  live_slices st ≡ₚ lookup_names (slicesByName st) (range_set (sliceNamesUnchanged st))
    ++ lookup_names (slicesByName st) (range_set (sliceNamesToUpdate st)).
Proof.
  intros [Hname Hdom Hd1 Hd2 Hh _ _ Hp].
  assert (∀ n x, slicesByName st !! n = Some x → sl_Name x = n) as Hnm by (intros; by apply Hname).
  assert (∀ X x, x ∈ lookup_names (slicesByName st) (range_set X) ↔
    sl_Name x ∈ X ∧ slicesByName st !! sl_Name x = Some x) as Hel.
  { intros X x. rewrite elem_of_lookup_names. setoid_rewrite elem_of_range_set. split.
    - intros (n & Hn & Hx). by rewrite (Hnm _ _ Hx).
    - intros [? ?]. eauto. }
  apply NoDup_Permutation.
  - apply NoDup_by_name. unfold live_slices.
    replace (sl_Name <$> (map_to_list (live st)).*2) with (map_to_list (live st)).*1;
      [apply NoDup_fst_map_to_list|]. rewrite <-list_fmap_compose. apply list_fmap_ext.
    intros i [n x] Hi%list_elem_of_lookup_2. apply elem_of_map_to_list, lookup_live in Hi as [Hx _].
    simpl. symmetry. by apply Hnm.
  - apply NoDup_app. split_and!.
    + apply NoDup_by_name, lookup_names_NoDup; [done|apply NoDup_range_set].
    + intros x [Hx _]%Hel [Hx' _]%Hel. set_solver.
    + apply NoDup_by_name, lookup_names_NoDup; [done|apply NoDup_range_set].
  - intros x. rewrite elem_of_app, !Hel. unfold live_slices. rewrite list_elem_of_fmap. split.
    + intros ([n y] & -> & Hy%elem_of_map_to_list). apply lookup_live in Hy as [Hy Hin]. simpl.
      rewrite (Hnm _ _ Hy). unfold live_names in Hin. set_solver.
    + intros Hx. exists (sl_Name x, x). split; [done|]. apply elem_of_map_to_list, lookup_live.
      unfold live_names. set_solver.
Qed.

Lemma leftAlone_perm existing st created :
  diff_inv st created → NoDup (sl_Name <$> existing) →
  dom (slicesByName st) = list_to_set (sl_Name <$> existing) →
  (∀ n x, n ∈ sliceNamesUnchanged st → slicesByName st !! n = Some x → x ∈ existing) →
  leftAlone existing (lookup_names (slicesByName st) (range_set (sliceNamesToUpdate st)))
    (lookup_names (slicesByName st) (range_set (sliceNamesToDelete st)))
  ≡ₚ lookup_names (slicesByName st) (range_set (sliceNamesUnchanged st)).
Proof.
  intros [Hname Hdom Hd1 Hd2 Hh _ _ Hp] Hnd Hall Hun.
  assert (∀ X n, n ∈ sl_Name <$> lookup_names (slicesByName st) (range_set X) ↔
    n ∈ X ∧ is_Some (slicesByName st !! n)) as Hnames.
  { intros X n. rewrite list_elem_of_fmap. setoid_rewrite elem_of_lookup_names.
    setoid_rewrite elem_of_range_set. split.
    - intros (x & -> & k & Hk & Hx). destruct (Hname _ _ Hx) as [-> _]. by split; [|eexists].
    - intros [Hn [x Hx]]. exists x. destruct (Hname _ _ Hx) as [-> _]. eauto. }
  apply NoDup_Permutation.
  - apply NoDup_filter, NoDup_by_name, Hnd.
  - apply NoDup_by_name, lookup_names_NoDup; [|apply NoDup_range_set]. intros n x Hx. by apply Hname.
  - intros s. unfold leftAlone. rewrite list_elem_of_filter, !Hnames, elem_of_lookup_names.
    setoid_rewrite elem_of_range_set. split.
    + intros [[Hu Hd] Hs]. assert (sl_Name s ∈ dom (slicesByName st)) as Hin.
      { rewrite Hall. apply elem_of_list_to_set, list_elem_of_fmap. by exists s. }
      pose proof Hin as [x Hx]%elem_of_dom. rewrite Hdom in Hin. exists (sl_Name s).
      assert (sl_Name s ∈ sliceNamesUnchanged st) as Hn by set_solver. split; [done|].
      rewrite Hx. f_equal. apply (same_name existing); [done|by eapply Hun|done|].
      by destruct (Hname _ _ Hx).
    + intros (n & Hn & Hs). destruct (Hname _ _ Hs) as [-> _]. unfold live_names in Hd2.
      split; [set_solver|]. by eapply Hun.
Qed.

Lemma diff_inv_start : hashed hash desired0 → diff_inv (mkDiff ∅ ∅ ∅ ∅ desired0) [].
Proof.
  intros Hh. split; simpl; try done. by intros s ?%not_elem_of_nil.
Qed.

(** All phases together. *)
Lemma reconcile_state existing meta :
  (1 ≤ max)%nat → hashed hash desired0 → NoDup (sl_Name <$> existing) →
  (∀ s, s ∈ existing → (length (sl_Endpoints s) ≤ max)%nat ∧ sl_Name s ≠ "") →
  let st2 := fillUpdates max (foldl (diffSlice hash eqb controllerName svc)
                                (mkDiff ∅ ∅ ∅ ∅ desired0) existing) in
  ∃ st create, reconcileEndpointsByPortMap hash eqb controllerName max svc existing desired0 meta
      = (create, lookup_names (slicesByName st) (range_set (sliceNamesToUpdate st)),
         lookup_names (slicesByName st) (range_set (sliceNamesToDelete st)))
    ∧ fillRest controllerName max (size (desiredEps st2)) svc meta st2 [] = (st, create)
    ∧ diff_inv st create ∧ desiredEps st = ∅
    ∧ dom (slicesByName st) = list_to_set (sl_Name <$> existing)
    ∧ leftAlone existing (lookup_names (slicesByName st) (range_set (sliceNamesToUpdate st)))
        (lookup_names (slicesByName st) (range_set (sliceNamesToDelete st)))
      ≡ₚ lookup_names (slicesByName st) (range_set (sliceNamesUnchanged st)).
Proof.
  intros Hmax Hh Hnd Hne st2'. unfold reconcileEndpointsByPortMap, st2'.
  set (st0 := mkDiff ∅ ∅ ∅ ∅ desired0). pose proof (diff_inv_start Hh) as H0. fold st0 in H0.
  destruct (diffAll_inv existing st0 H0 Hnd) as [H1 Hdom1].
  { intros s Hs. split_and!; [by apply Hne|by apply Hne|]. simpl. rewrite dom_empty_L. set_solver. }
  assert (∀ n x, n ∈ sliceNamesUnchanged (foldl (diffSlice hash eqb controllerName svc) st0 existing) →
    slicesByName (foldl (diffSlice hash eqb controllerName svc) st0 existing) !! n = Some x →
    x ∈ existing) as Hun1.
  { by apply (diffAll_unchanged (λ x, x ∈ existing)). }
  set (st1 := foldl _ st0 existing) in *.
  destruct (fillUpdates_inv st1 H1) as (H2 & Hu2 & Hd2 & Hs2). set (st2 := fillUpdates max st1) in *.
  destruct (fillRest controllerName max (size (desiredEps st2)) svc meta st2 []) as [st3 create] eqn:Hr.
  destruct (fillRest_inv _ meta st2 [] st3 create Hmax H2 (Nat.le_refl _) Hr) as (H3 & He & Hsub & Hd3 & Hs3).
  assert (dom (slicesByName st3) = list_to_set (sl_Name <$> existing)) as Hdom3.
  { rewrite Hd3, Hd2, Hdom1. simpl. rewrite dom_empty_L. set_solver. }
  exists st3, create. split_and!; [done..|]. apply (leftAlone_perm existing st3 create H3 Hnd Hdom3).
  intros n x Hn Hx. rewrite Hs3, Hs2 in Hx by set_solver. eapply Hun1; [|done]. set_solver.
Qed.
End diff.

(** * Properties *)

(** C34: reconciling a group of slices is exact.  For a service with any existing slices of
    distinct names within the quota, the slices left alone, updated and created together
    hold every desired endpoint exactly once and no other: their hashes are a permutation
    of the desired ones.  No slice exceeds the quota, only existing slices are updated or
    deleted, and none of them is both. *)
Theorem reconcile_exact hash eqb controllerName max `{!MapRange} svc existing desired meta :
  (1 ≤ max)%nat → hashed hash desired → NoDup (sl_Name <$> existing) →
  (∀ s, s ∈ existing → (length (sl_Endpoints s) ≤ max)%nat ∧ sl_Name s ≠ "") →
  let '(create, update, delete) :=
    reconcileEndpointsByPortMap hash eqb controllerName max svc existing desired meta in
  hashes hash (leftAlone existing update delete ++ update ++ create) ≡ₚ keys desired
  ∧ (∀ s, s ∈ update ++ create → (length (sl_Endpoints s) ≤ max)%nat)
  ∧ (∀ n, n ∈ sl_Name <$> update → n ∉ sl_Name <$> delete)
  ∧ NoDup (sl_Name <$> update) ∧ NoDup (sl_Name <$> delete).
Proof.
  intros Hmax Hh Hnd Hok.
  destruct (reconcile_state hash eqb controllerName max svc desired existing meta Hmax Hh Hnd Hok)
    as (st & create & -> & _ & Hinv & He & _ & Hleft).
  pose proof (live_slices_perm hash max desired st create Hinv) as Hlive.
  destruct Hinv as [Hname Hdom Hd1 Hd2 _ Hq Hqc Hp].
  assert (∀ n s, slicesByName st !! n = Some s → sl_Name s = n) as Hnm by (intros; by apply Hname).
  split_and!.
  - rewrite He in Hp. unfold keys at 1 in Hp. rewrite map_to_list_empty in Hp. simpl in Hp.
    rewrite app_nil_r in Hp. rewrite <-Hp. apply hashes_perm. by rewrite Hleft, Hlive, app_assoc.
  - intros s [Hs|Hs]%elem_of_app; [|by apply Hqc]. apply elem_of_lookup_names in Hs as (n & _ & Hs).
    by eapply Hq.
  - intros n (s & -> & (k & Hk & Hs)%elem_of_lookup_names)%list_elem_of_fmap.
    rewrite (Hnm _ _ Hs). intros (x & Heq & (j & Hj & Hx)%elem_of_lookup_names)%list_elem_of_fmap.
    rewrite (Hnm _ _ Hx) in Heq. subst j. apply elem_of_range_set in Hk, Hj.
    unfold live_names in Hd2. set_solver.
  - apply lookup_names_NoDup; [done|apply NoDup_range_set].
  - apply lookup_names_NoDup; [done|apply NoDup_range_set].
Qed.

(** A hash by the name of the target, for the concrete evaluations. *)
Definition ex_hash (e : Endpoint) : string := match e_TargetRef e with Some r => ref_Name r | None => "" end.
Definition ex_endpoint (n : string) : Endpoint :=
  mkEndpoint ["192.0.2.1"] (Some true) (Some true) (Some false) None
    (Some (mkObjectReference "ExternalWorkload" "ns" n "")) None None.
Definition ex_service : Service := mkService "svc" "ns" "uid" ∅ ∅ "ClusterIP" "10.0.0.1" [] None [] None false.
Definition ex_owned (n : string) (eps : list string) : EndpointSlice :=
  mkEndpointSlice n "ns" ∅ ∅ [mkOwnerReference "Service" "svc" "uid" "v1"] "IPv4"
    (ex_endpoint <$> eps) (Some []) false "" 0.
Definition ex_desired : EndpointSet := list_to_map ((λ n, (n, ex_endpoint n)) <$> ["a"; "b"; "c"; "d"]).
Definition ex_existing : list EndpointSlice := [ex_owned "s1" ["a"; "z"]; ex_owned "s2" ["y"]].
Definition ex_result := reconcileEndpointsByPortMap ex_hash (λ _ _, true) "ctl" 2
  (H := range_in_order) ex_service ex_existing ex_desired (mkEndpointMeta [] "IPv4").

Lemma reconcile_exact_witness :
  length ex_result.1.1 = 1%nat ∧ length ex_result.1.2 = 1%nat ∧ length ex_result.2 = 1%nat ∧
  hashes ex_hash (leftAlone ex_existing ex_result.1.2 ex_result.2 ++ ex_result.1.2 ++ ex_result.1.1)
    ≡ₚ keys ex_desired.
Proof.
  split_and!; [vm_compute; reflexivity..|].
  assert (let '(create, update, delete) := ex_result in
    hashes ex_hash (leftAlone ex_existing update delete ++ update ++ create) ≡ₚ keys ex_desired) as Hres.
  { pose proof (@reconcile_exact ex_hash (λ _ _, true) "ctl" 2 range_in_order ex_service ex_existing
      ex_desired (mkEndpointMeta [] "IPv4")) as Hex. fold ex_result in Hex.
    destruct ex_result as [[create update] delete]. apply Hex.
    - lia.
    - intros k e. unfold ex_desired. intros Hk%elem_of_list_to_map_2.
      apply list_elem_of_fmap in Hk as (n & [= -> ->] & _). reflexivity.
    - apply (bool_decide_unpack _). vm_compute. exact I.
    - intros s Hs. unfold ex_existing in Hs. rewrite !elem_of_cons in Hs.
      destruct Hs as [->|[->|Hs]]; [simpl; split; [lia|done]..|by apply not_elem_of_nil in Hs]. }
  destruct ex_result as [[create update] delete]. exact Hres.
Defined.

(** ** Labels *)
Lemma lookup_unreserved m k v : unreserved m !! k = Some v ↔ m !! k = Some v ∧ isReserved k = false.
Proof. unfold unreserved. by rewrite map_lookup_filter_Some. Qed.

(** the labels of a slice are those of the service, except for the three reserved ones,
    which are set from the service's name, the controller's name and the headless service.
    The update is reported exactly when a service label is missing or different on the
    slice: a label that was removed from the service is not noticed. *)
Theorem setEndpointSliceLabels_spec es svc controllerName :
  let '(l, updated) := setEndpointSliceLabels es svc controllerName in
  l !! LabelServiceName = Some (svc_Name svc) ∧ l !! LabelManagedBy = Some controllerName
  ∧ l !! IsHeadlessService = (if decide (svc_ClusterIP svc = ClusterIPNone) then Some "" else None)
  ∧ (∀ k, isReserved k = false → l !! k = svc_Labels svc !! k)
  ∧ (updated = false ↔ ∀ k v, isReserved k = false → svc_Labels svc !! k = Some v →
       sl_Labels es !! k = Some v).
Proof.
  unfold setEndpointSliceLabels. split_and!.
  - rewrite lookup_insert_ne, lookup_insert_eq by done. done.
  - by rewrite lookup_insert_eq.
  - rewrite !lookup_insert_ne by done. case_bool_decide as Hc.
    + by rewrite lookup_insert_eq, decide_True.
    + by rewrite lookup_delete_eq, decide_False.
  - intros k Hk. assert (k ≠ LabelServiceName ∧ k ≠ LabelManagedBy ∧ k ≠ IsHeadlessService)
      as (H1 & H2 & H3) by (split_and!; intros ->; by vm_compute in Hk).
    rewrite !lookup_insert_ne by done.
    assert (unreserved (svc_Labels svc) !! k = svc_Labels svc !! k) as Hu.
    { apply option_eq. intros v. rewrite lookup_unreserved. naive_solver. }
    case_bool_decide; [rewrite lookup_insert_ne by done|rewrite lookup_delete_ne by done]; done.
  - rewrite bool_decide_eq_false. unfold map_Exists. split.
    + intros Hn k v Hk Hv. destruct (decide (sl_Labels es !! k = Some v)) as [|Hne]; [done|].
      destruct Hn. exists k, v. split; [by apply lookup_unreserved|].
      rewrite lookup_unreserved. naive_solver.
    + intros Hall (k & v & [Hv Hk]%lookup_unreserved & Hne). apply Hne, lookup_unreserved. auto.
Qed.

(** ** Choosing a slice to fill *)
Lemma closest_best slices num mx diff0 best :
  0 ≤ num → (∀ s, best = Some s → mx - (num + Z.of_nat (length (sl_Endpoints s))) = diff0) →
  match closest slices num mx diff0 best with
  | Some s => mx - (num + Z.of_nat (length (sl_Endpoints s))) ≤ diff0
      ∧ ∀ x, x ∈ slices → num + Z.of_nat (length (sl_Endpoints x)) ≤ mx →
          (length (sl_Endpoints x) ≤ length (sl_Endpoints s))%nat
  | None => best = None ∧ ∀ x, x ∈ slices → num + Z.of_nat (length (sl_Endpoints x)) ≤ mx →
      diff0 ≤ mx - (num + Z.of_nat (length (sl_Endpoints x)))
  end.
Proof.
  intros Hnum. revert diff0 best. induction slices as [|x slices IH]; intros diff0 best Hb; simpl.
  { destruct best as [s|]; [|split; [done|by intros ? ?%not_elem_of_nil]].
    rewrite (Hb s) by done. split; [lia|by intros ? ?%not_elem_of_nil]. }
  set (dx := mx - (num + Z.of_nat (length (sl_Endpoints x)))).
  destruct ((0 <=? dx) && (dx <? diff0)) eqn:Hc.
  - apply andb_true_iff in Hc as [H1 H2]. apply Z.leb_le in H1. apply Z.ltb_lt in H2.
    destruct (dx =? 0) eqn:Hz.
    + apply Z.eqb_eq in Hz. split; [lia|]. intros y Hy Hfit. lia.
    + specialize (IH dx (Some x)). destruct (closest slices num mx dx (Some x)) as [s|].
      * destruct IH as [Hs Hall]; [by intros ? [= <-]|]. split; [lia|].
        intros y [->|Hy]%elem_of_cons Hfit; [lia|by apply Hall].
      * destruct IH as [Hx _]; [by intros ? [= <-]|done].
  - specialize (IH diff0 best Hb). destruct (closest slices num mx diff0 best) as [s|].
    + destruct IH as [Hs Hall]. split; [done|]. intros y [->|Hy]%elem_of_cons Hfit; [|by apply Hall].
      apply andb_false_iff in Hc. rewrite Z.leb_gt, Z.ltb_ge in Hc. lia.
    + destruct IH as [Hn Hall]. split; [done|]. intros y [->|Hy]%elem_of_cons Hfit; [|by apply Hall].
      apply andb_false_iff in Hc. rewrite Z.leb_gt, Z.ltb_ge in Hc. lia.
Qed.

(** [getSliceToFill] finds the fullest slice that can take all the endpoints, and a slice
    whenever one can. *)
Theorem getSliceToFill_spec slices num mx :
  0 < num →
  match getSliceToFill slices num mx with
  | Some s => s ∈ slices ∧ num + Z.of_nat (length (sl_Endpoints s)) ≤ mx
      ∧ ∀ x, x ∈ slices → num + Z.of_nat (length (sl_Endpoints x)) ≤ mx →
          (length (sl_Endpoints x) ≤ length (sl_Endpoints s))%nat
  | None => ∀ x, x ∈ slices → mx < num + Z.of_nat (length (sl_Endpoints x))
  end.
Proof.
  intros Hnum. unfold getSliceToFill.
  pose proof (closest_best slices num mx mx None ltac:(lia) ltac:(done)) as Hb.
  destruct (closest slices num mx mx None) as [s|] eqn:Hc.
  - apply closest_spec in Hc as [?|[Hin Hfit]]; [done|]. split_and!; [done|done|apply Hb].
  - intros x Hx. destruct Hb as [_ Hb]. specialize (Hb x Hx). lia.
Qed.

Lemma getSliceToFill_spec_witness :
  getSliceToFill ex_existing 1 3 = Some (ex_owned "s1" ["a"; "z"]) ∧
  ∀ x, x ∈ ex_existing → 1 + Z.of_nat (length (sl_Endpoints x)) ≤ 3 →
    (length (sl_Endpoints x) ≤ length (sl_Endpoints (ex_owned "s1" ["a"; "z"])))%nat.
Proof.
  split; [reflexivity|]. apply (getSliceToFill_spec ex_existing 1 3). lia.
Defined.

(** ** Writing *)
(** What the pairing of creations with deletions keeps. *)
Lemma pairDeletes_spec hash svc deletes create update kept :
  let '(create', update', delete') := pairDeletes svc deletes create update kept in
  hashes hash (update' ++ create') ≡ₚ hashes hash (update ++ create)
  ∧ (∃ reused, kept ++ deletes ≡ₚ delete' ++ reused
       ∧ sl_Name <$> update' = (sl_Name <$> update) ++ (sl_Name <$> reused)
       ∧ Forall (λ s, ownedBy s svc = true) reused
       ∧ (length create' + length reused = length create)%nat)
  ∧ create' `prefix_of` create.
Proof.
  revert create update kept. induction deletes as [|d deletes IH]; intros create update kept; simpl.
  { split_and!; [done| |done]. exists []. rewrite !app_nil_r. split_and!; [done|done|done|simpl; lia]. }
  destruct (last create) as [slice|] eqn:Hl; last first.
  { split_and!; [done| |done]. exists []. rewrite !app_nil_r. split_and!; [done|done|done|simpl; lia]. }
  apply last_Some in Hl as [create0 ->]. rewrite removelast_last.
  destruct (bool_decide _ && ownedBy d svc) eqn:Hown.
  - specialize (IH create0 (update ++ [set_name (sl_Name d) slice]) kept).
    destruct (pairDeletes svc deletes create0 _ kept) as [[c u] k].
    destruct IH as (Hh & (reused & Hp & Hn & Hf & Hlen) & Hpre). split_and!.
    + rewrite Hh, !hashes_app. change (hashes hash [set_name (sl_Name d) slice])
        with (hashes hash [slice]). rewrite <-!app_assoc. f_equiv. apply Permutation_app_comm.
    + exists (d :: reused). apply andb_true_iff in Hown as [_ Hown]. split_and!.
      * rewrite <-!Permutation_middle. by rewrite Hp.
      * rewrite Hn, fmap_app, <-app_assoc. done.
      * by constructor.
      * rewrite length_app. simpl. lia.
    + etrans; [exact Hpre|]. by apply prefix_app_r.
  - specialize (IH (create0 ++ [slice]) update (kept ++ [d])).
    destruct (pairDeletes svc deletes (create0 ++ [slice]) update (kept ++ [d])) as [[c u] k].
    destruct IH as (Hh & (reused & Hp & Hn & Hf & Hlen) & Hpre). split_and!; [done| |done].
    exists reused. split_and!; [|done..]. by rewrite <-Hp, <-app_assoc.
Qed.

Lemma runWrites_sub api ws w : w ∈ (runWrites api ws).2 → w ∈ ws ∧ api w = None.
Proof.
  induction ws as [|x ws IH]; simpl; [by intros ?%not_elem_of_nil|].
  destruct (api x) as [[]|] eqn:Hx; [destruct x; by intros ?%not_elem_of_nil|
    by intros ?%not_elem_of_nil|].
  destruct (runWrites api ws) as [r done']. simpl in *. rewrite !elem_of_cons.
  intros [->|Hin]; [by split; [left|]|]. destruct (IH Hin). by split; [right|].
Qed.

Lemma runWrites_all api ws : (∀ w, w ∈ ws → api w = None) → runWrites api ws = (Ok (), ws).
Proof.
  induction ws as [|x ws IH]; simpl; intros Hok; [done|]. rewrite Hok by set_solver.
  rewrite IH by set_solver. done.
Qed.

(** what reaches the API server.  Creations that take the place of deletions keep their
    endpoints and the deleted slice's name, and only slices owned by the service are
    reused, so that every endpoint of the diff is written and nothing else; a service that
    is being deleted gets no new slice; and when the server accepts everything, all of it
    is written. *)
Theorem finalize_spec hash api svc create update delete :
  ∃ create' update' delete' reused,
    hashes hash (update' ++ create') ≡ₚ hashes hash (update ++ create)
    ∧ delete ≡ₚ delete' ++ reused ∧ Forall (λ s, ownedBy s svc = true) reused
    ∧ sl_Name <$> update' = (sl_Name <$> update) ++ (sl_Name <$> reused)
    ∧ (∀ w, w ∈ (finalize api svc create update delete).2 →
         api w = None ∧
         (w ∈ Create <$> create' ∧ svc_DeletionTimestamp svc = false
          ∨ w ∈ Update <$> update' ∨ w ∈ Delete <$> delete'))
    ∧ ((∀ w, api w = None) → finalize api svc create update delete =
         (Ok (), (if svc_DeletionTimestamp svc then [] else Create <$> create')
                 ++ (Update <$> update') ++ (Delete <$> delete'))).
Proof.
  pose proof (pairDeletes_spec hash svc delete create update []) as Hp. unfold finalize.
  destruct (pairDeletes svc delete create update []) as [[c u] d].
  destruct Hp as (Hh & (reused & Hd & Hn & Hf & _) & _). exists c, u, d, reused.
  split_and!; try done.
  - intros w [Hw Hok]%runWrites_sub. split; [done|]. rewrite !elem_of_app in Hw.
    destruct Hw as [Hw|[Hw|Hw]]; [left|right; by left|right; by right].
    destruct (svc_DeletionTimestamp svc); [by apply not_elem_of_nil in Hw|done].
  - intros Hok. apply runWrites_all. intros w _. apply Hok.
Qed.
