(* ===== verification/EwConvergence.v ===== *)
(** The reconciler as a whole: after the writes of [reconcileByAddressType], the slices of a
    service hold exactly one up to date endpoint for every workload it selects.

    The API server is abstracted to a list of slices that the writes change. *)
From S2P Require Import Prelude GoStd K8s EwReconciler.

#[local] Open Scope string_scope.
#[local] Open Scope list_scope.
#[local] Open Scope Z_scope.

(** What a write does to the slices of the service. *)
Definition replaced (s x : EndpointSlice) : EndpointSlice :=
  if bool_decide (sl_Name x = sl_Name s) then s else x.
Definition applyWrite (slices : list EndpointSlice) (w : Write) : list EndpointSlice :=
  match w with
  | Create s => slices ++ [s]
  | Update s => replaced s <$> slices
  | Delete s => filter (λ x, sl_Name x ≠ sl_Name s) slices
  end.

(** * What the diff keeps of the slices *)
Section shape.
Context (hash : Endpoint → string) (eqb : Endpoint → Endpoint → bool).
Context (controllerName : string) (max : nat) `{!MapRange}.
Context (svc : Service) (desired0 : EndpointSet).

(** An endpoint that is the desired one, or equal to it in all that matters. *)
Definition fresh (e : Endpoint) : Prop :=
  ∃ d, desired0 !! hash e = Some d ∧ (d = e ∨ eqb d e = true).

(** A property of slices that does not depend on labels and endpoints. *)
Context (P : EndpointSlice → Prop) (HP : ∀ l eps s, P s → P (set_slice l eps s)).

Record shape_inv (st : diffState) (created : list EndpointSlice) : Prop := {
  shape_desired : desiredEps st ⊆ desired0;
  shape_P n x : slicesByName st !! n = Some x → P x;
  shape_fresh n x : n ∈ live_names st → slicesByName st !! n = Some x → Forall fresh (sl_Endpoints x);
  shape_created x : x ∈ created → P x ∧ Forall fresh (sl_Endpoints x) ∧ sl_Name x = "" }.

Lemma hashed_fresh d k e : hashed hash d → d ⊆ desired0 → d !! k = Some e → fresh e.
Proof.
  intros Hh Hd Hk. exists e. split; [|by left]. rewrite (Hh _ _ Hk). by eapply lookup_weaken.
Qed.

Lemma keepEndpoints_fresh eps d keep upd d' :
  hashed hash d → d ⊆ desired0 → keepEndpoints hash eqb eps d = (keep, upd, d') →
  Forall fresh keep ∧ d' ⊆ d ∧ (length eps = length keep → upd = false → Forall fresh eps).
Proof.
  revert d keep upd d'. induction eps as [|e eps IH]; intros d keep upd d' Hh Hd; simpl.
  { intros [= <- <- <-]. by split_and!. }
  destruct (d !! hash e) as [found|] eqn:Hf.
  - destruct (keepEndpoints hash eqb eps (delete (hash e) d)) as [[k u] d1] eqn:Hk.
    intros [= <- <- <-]. destruct (IH _ _ _ _ (hashed_delete hash d (hash e) Hh)
      ltac:(etrans; [apply delete_subseteq|done]) Hk) as (Hfr & Hsub & Hall). split_and!.
    + constructor; [by eapply hashed_fresh|done].
    + etrans; [exact Hsub|apply delete_subseteq].
    + intros [= Hl] [Hu Hu']%orb_false_iff. constructor; [|by apply Hall].
      exists found. split; [by eapply lookup_weaken|right]. by apply negb_false_iff.
  - intros Hk. destruct (IH _ _ _ _ Hh Hd Hk) as (Hfr & Hsub & Hall). split_and!; [done..|].
    destruct (keepEndpoints_spec hash eqb _ _ _ _ _ Hh Hk) as (_ & _ & Hlen & _). simpl. lia.
Qed.

Lemma fill_fresh fuel d eps d' eps' :
  hashed hash d → d ⊆ desired0 → Forall fresh eps → fill max fuel d eps = (d', eps') →
  d' ⊆ d ∧ Forall fresh eps'.
Proof.
  revert d eps. induction fuel as [|fuel IH]; intros d eps Hh Hd Hf; simpl.
  { by intros [= <- <-]. }
  case_bool_decide; [|by intros [= <- <-]].
  destruct (PopAny d) as [[e d1]|] eqn:Hp; [|by intros [= <- <-]].
  destruct (PopAny_Some hash _ _ _ Hh Hp) as (_ & Hh1 & _).
  unfold PopAny in Hp. destruct (range d) as [|[k x] l] eqn:Hr; simplify_eq.
  assert (d !! k = Some e) as Hk by (apply elem_of_range; rewrite Hr; constructor).
  intros Hfill. apply IH in Hfill as [Hsub Hfr]; [|done| |].
  - split; [|done]. etrans; [exact Hsub|apply delete_subseteq].
  - etrans; [apply delete_subseteq|done].
  - apply Forall_app. split; [done|]. constructor; [|done]. by eapply (hashed_fresh d k).
Qed.

Lemma fillSlice_shape d s d' s' :
  hashed hash d → d ⊆ desired0 → P s → Forall fresh (sl_Endpoints s) → fillSlice max d s = (d', s') →
  d' ⊆ d ∧ P s' ∧ Forall fresh (sl_Endpoints s').
Proof.
  intros Hh Hd Hs Hf. unfold fillSlice.
  destruct (fill max (size d) d (sl_Endpoints s)) as [d1 eps] eqn:Hfill. intros [= <- <-].
  destruct (fill_fresh _ _ _ _ _ Hh Hd Hf Hfill) as [Hsub Hfr]. split_and!; [done| |done].
  by apply HP.
Qed.

(** A slice put under a name keeps the invariant when it satisfies it. *)
Lemma shape_inv_put st st' created x :
  shape_inv st created → slicesByName st' = <[sl_Name x := x]> (slicesByName st) →
  (∀ n, n ∈ live_names st' → n = sl_Name x ∨ n ∈ live_names st) →
  P x → (sl_Name x ∈ live_names st' → Forall fresh (sl_Endpoints x)) →
  desiredEps st' ⊆ desiredEps st → shape_inv st' created.
Proof.
  intros [Hd HPs Hfr Hc] Hm Hlive Hx Hfx Hsub. split; [by etrans| | |done].
  - intros n y. rewrite Hm. intros [[<- <-]|[_ Hy]]%lookup_insert_Some; [done|by eapply HPs].
  - intros n y Hn. rewrite Hm. intros [[<- <-]|[Hne Hy]]%lookup_insert_Some; [by apply Hfx|].
    destruct (Hlive n Hn) as [->|Hl]; [done|by eapply Hfr].
Qed.

Lemma diffSlice_shape st s :
  diff_inv hash max desired0 st [] → shape_inv st [] → P s → sl_Name s ∉ dom (slicesByName st) →
  shape_inv (diffSlice hash eqb controllerName svc st s) [].
Proof.
  intros Hdi Hsi Hs Hfr. unfold diffSlice.
  destruct (keepEndpoints hash eqb (sl_Endpoints s) (desiredEps st)) as [[keep upd] d'] eqn:Hk.
  destruct (setEndpointSliceLabels s svc controllerName) as [labels changed].
  destruct (keepEndpoints_fresh _ _ _ _ _ (inv_hashed _ _ _ _ _ Hdi) (shape_desired _ _ Hsi) Hk)
    as (Hkeep & Hsub & Hall).
  assert (sl_Name s ∉ live_names st) as Hni.
  { rewrite (inv_dom _ _ _ _ _ Hdi) in Hfr. unfold live_names. set_solver. }
  destruct (upd || bool_decide (length (sl_Endpoints s) ≠ length keep)) eqn:Hchg.
  - destruct (bool_decide (length keep = 0%nat)).
    + eapply (shape_inv_put st _ [] s); try done. by right.
    + eapply (shape_inv_put st _ [] (set_slice labels keep s)); try done; [|by apply HP].
      unfold live_names. simpl. set_solver.
  - apply orb_false_iff in Hchg as [-> Hl]. apply bool_decide_eq_false, dec_stable in Hl.
    destruct changed.
    + eapply (shape_inv_put st _ [] (set_slice labels (sl_Endpoints s) s)); try done;
        [unfold live_names; simpl; set_solver|by apply HP|intros _; by apply Hall].
    + eapply (shape_inv_put st _ [] s); try done;
        [unfold live_names; simpl; set_solver|intros _; by apply Hall].
Qed.

Lemma diffAll_shape existing st :
  diff_inv hash max desired0 st [] → shape_inv st [] → NoDup (sl_Name <$> existing) →
  (∀ s, s ∈ existing → P s ∧ (length (sl_Endpoints s) ≤ max)%nat ∧ sl_Name s ≠ ""
     ∧ sl_Name s ∉ dom (slicesByName st)) →
  shape_inv (foldl (diffSlice hash eqb controllerName svc) st existing) [].
Proof.
  revert st. induction existing as [|s existing IH]; intros st Hdi Hsi Hnd Hok; simpl; [done|].
  apply NoDup_cons in Hnd as [Hni Hnd].
  destruct (Hok s) as (HPs & Hlen & Hne & Hfr); [set_solver|].
  destruct (diffSlice_names hash eqb controllerName svc st s) as [Hdom _]. apply IH; [| |done|].
  - by apply diffSlice_inv.
  - by apply diffSlice_shape.
  - intros x Hx. destruct (Hok x) as (? & ? & ? & Hx'); [set_solver|]. split_and!; [done..|].
    rewrite Hdom. intros [Heq|Hin]%elem_of_union; [|done].
    apply Hni. apply list_elem_of_fmap. exists x. set_solver.
Qed.

(** One slice of the second phase. *)
Definition fillOne (st : diffState) (s : EndpointSlice) : diffState :=
  let '(desired, s) := fillSlice max (desiredEps st) s in
  mkDiff (<[sl_Name s := s]> (slicesByName st)) (sliceNamesUnchanged st)
    (sliceNamesToUpdate st) (sliceNamesToDelete st) desired.

Lemma fillOne_shape st s :
  hashed hash (desiredEps st) → shape_inv st [] → slicesByName st !! sl_Name s = Some s →
  sl_Name s ∈ live_names st →
  shape_inv (fillOne st s) [] ∧ hashed hash (desiredEps (fillOne st s))
  ∧ live_names (fillOne st s) = live_names st
  ∧ ∀ n, n ≠ sl_Name s → slicesByName (fillOne st s) !! n = slicesByName st !! n.
Proof.
  intros Hh Hsi Hs Hl. unfold fillOne.
  destruct (fillSlice max (desiredEps st) s) as [d' s'] eqn:Hf.
  destruct (fillSlice_shape _ _ _ _ Hh (shape_desired _ _ Hsi) (shape_P _ _ Hsi _ _ Hs)
    (shape_fresh _ _ Hsi _ _ Hl Hs) Hf) as (Hsub & HP' & Hfr).
  destruct (fillSlice_spec hash max _ _ _ _ Hh Hf) as (_ & Hh' & Hnm & _). split_and!; [|done|done|].
  - eapply (shape_inv_put st _ [] s'); try done. by right.
  - intros n Hn. simpl. rewrite Hnm. by apply lookup_insert_ne.
Qed.

Lemma fillAll_shape slices st :
  hashed hash (desiredEps st) → shape_inv st [] → NoDup (sl_Name <$> slices) →
  (∀ s, s ∈ slices → slicesByName st !! sl_Name s = Some s ∧ sl_Name s ∈ live_names st) →
  shape_inv (foldl fillOne st slices) [].
Proof.
  revert st. induction slices as [|s slices IH]; intros st Hh Hsi Hnd Hok; simpl; [done|].
  apply NoDup_cons in Hnd as [Hni Hnd]. destruct (Hok s) as [Hs Hl]; [set_solver|].
  destruct (fillOne_shape st s Hh Hsi Hs Hl) as (Hsi' & Hh' & Hln & Hsame).
  apply IH; [done..|]. intros x Hx. destruct (Hok x) as [Hx' Hlx]; [set_solver|].
  rewrite Hln, Hsame; [done|]. intros Heq. apply Hni. apply list_elem_of_fmap. exists x. done.
Qed.

Lemma fillUpdates_shape st :
  diff_inv hash max desired0 st [] → shape_inv st [] → shape_inv (fillUpdates max st) [].
Proof.
  intros Hdi Hsi. unfold fillUpdates. case_bool_decide; [|done].
  apply (fillAll_shape _ st); [by apply (inv_hashed _ _ _ _ _ Hdi)|done| |].
  - rewrite merge_sort_Permutation. apply lookup_names_NoDup; [|apply NoDup_range_set].
    intros n s Hs. by apply (inv_name _ _ _ _ _ Hdi).
  - intros s. rewrite merge_sort_Permutation. intros (n & Hn & Hs)%elem_of_lookup_names.
    apply elem_of_range_set in Hn. destruct (inv_name _ _ _ _ _ Hdi _ _ Hs) as [-> _].
    split; [done|]. unfold live_names. set_solver.
Qed.

Lemma fillRest_shape fuel meta st created st' created' :
  P (newEndpointSlice svc meta controllerName) →
  hashed hash (desiredEps st) → (∀ n s, slicesByName st !! n = Some s → sl_Name s = n ∧ n ≠ "") →
  shape_inv st created →
  fillRest controllerName max fuel svc meta st created = (st', created') → shape_inv st' created'.
Proof.
  intros Hnew. revert st created. induction fuel as [|fuel IH]; intros st created Hh Hname Hsi; simpl.
  { by intros [= <- <-]. }
  case_bool_decide; [by intros [= <- <-]|].
  set (pick := if bool_decide _ then getSliceToFill _ _ _ else None).
  assert (∀ s, pick = Some s → slicesByName st !! sl_Name s = Some s ∧ sl_Name s ∈ live_names st
    ∧ sl_Name s ≠ "") as Hpick.
  { intros s. unfold pick. case_bool_decide; [|done]. intros [?|[Hin _]]%closest_spec; [done|].
    apply elem_of_lookup_names in Hin as (n & Hn%elem_of_range_set & Hx).
    destruct (Hname _ _ Hx) as [-> ?]. split_and!; [done| |done]. unfold live_names. set_solver. }
  destruct pick as [s|].
  - destruct (Hpick s eq_refl) as (Hs & Hl & Hne).
    destruct (fillSlice max (desiredEps st) s) as [d' s'] eqn:Hf.
    destruct (fillSlice_shape _ _ _ _ Hh (shape_desired _ _ Hsi) (shape_P _ _ Hsi _ _ Hs)
      (shape_fresh _ _ Hsi _ _ Hl Hs) Hf) as (Hsub & HP' & Hfr).
    destruct (fillSlice_spec hash max _ _ _ _ Hh Hf) as (_ & Hh' & Hnm & _).
    rewrite bool_decide_true by (by rewrite Hnm). apply IH; [done| |].
    + intros n x. simpl. intros [[<- <-]|[_ Hx]]%lookup_insert_Some; [by rewrite Hnm|by apply Hname].
    + eapply (shape_inv_put st _ created s'); try done. unfold live_names. simpl. set_solver.
  - destruct (fillSlice max (desiredEps st) (newEndpointSlice svc meta controllerName))
      as [d' s'] eqn:Hf.
    destruct (fillSlice_shape _ _ _ _ Hh (shape_desired _ _ Hsi) Hnew (Forall_nil_2 _) Hf)
      as (Hsub & HP' & Hfr).
    destruct (fillSlice_spec hash max _ _ _ _ Hh Hf) as (_ & Hh' & Hnm & _).
    rewrite bool_decide_false by (rewrite Hnm; simpl; tauto). apply IH; [done..|].
    destruct Hsi as [Hd HPs Hfs Hc]. split; simpl; [by etrans|done|done|].
    intros x [Hx| ->%list_elem_of_singleton]%elem_of_app; [by apply Hc|]. by rewrite Hnm.
Qed.
End shape.

(** * One group of slices *)
Section group.
Context (hash : Endpoint → string) (eqb : Endpoint → Endpoint → bool).
Context (controllerName : string) (max : nat) `{!MapRange}.
Context (svc : Service) (P : EndpointSlice → Prop) (HP : ∀ l eps s, P s → P (set_slice l eps s)).

(** What the diff of a group of slices promises. *)
Record group_ok (existing : list EndpointSlice) (desired : EndpointSet)
    (create update delete : list EndpointSlice) : Prop := {
  group_hashes : hashes hash (leftAlone existing update delete ++ update ++ create) ≡ₚ keys desired;
  group_fresh s : s ∈ leftAlone existing update delete ++ update ++ create →
    Forall (fresh hash eqb desired) (sl_Endpoints s);
  group_P s : s ∈ update ++ create → P s ∧ (length (sl_Endpoints s) ≤ max)%nat;
  group_update_names n : n ∈ sl_Name <$> update → n ∈ sl_Name <$> existing;
  group_delete_names n : n ∈ sl_Name <$> delete → n ∈ sl_Name <$> existing;
  group_disjoint n : n ∈ sl_Name <$> update → n ∉ sl_Name <$> delete;
  group_NoDup : NoDup (sl_Name <$> update);
  group_NoDup_delete : NoDup (sl_Name <$> delete);
  group_create s : s ∈ create → sl_Name s = "" }.

Lemma reconcile_group existing desired meta :
  (1 ≤ max)%nat → hashed hash desired → NoDup (sl_Name <$> existing) →
  (∀ s, s ∈ existing → P s ∧ (length (sl_Endpoints s) ≤ max)%nat ∧ sl_Name s ≠ "") →
  P (newEndpointSlice svc meta controllerName) →
  let d := reconcileEndpointsByPortMap hash eqb controllerName max svc existing desired meta in
  group_ok existing desired d.1.1 d.1.2 d.2.
Proof.
  intros Hmax Hh Hnd Hok Hnew.
  assert (∀ s, s ∈ existing → (length (sl_Endpoints s) ≤ max)%nat ∧ sl_Name s ≠ "") as Hok'
    by (intros s Hs; by destruct (Hok s Hs) as (_ & ? & ?)).
  destruct (reconcile_state hash eqb controllerName max svc desired existing meta Hmax Hh Hnd Hok')
    as (st & create & -> & Hrest & Hinv & He & Hdom & Hleft). simpl.
  set (st0 := mkDiff ∅ ∅ ∅ ∅ desired) in *.
  assert (shape_inv hash eqb desired P st0 []) as H0.
  { split; [done|..|by intros ? ?%not_elem_of_nil].
    - intros n x Hx. simpl in Hx. by rewrite lookup_empty in Hx.
    - intros n x _ Hx. simpl in Hx. by rewrite lookup_empty in Hx. }
  destruct (diffAll_inv hash eqb controllerName max svc desired existing st0) as [Hd1 _];
    [by apply diff_inv_start|done| |].
  { intros s Hs. split_and!; [by apply Hok'..|]. simpl. rewrite dom_empty_L. set_solver. }
  assert (shape_inv hash eqb desired P (foldl (diffSlice hash eqb controllerName svc) st0 existing) [])
    as H1.
  { apply (diffAll_shape hash eqb controllerName max); [done|by apply diff_inv_start|done|done|].
    intros s Hs. split_and!; [by apply Hok..|]. simpl. rewrite dom_empty_L. set_solver. }
  pose proof (fillUpdates_shape hash eqb max desired P HP _ Hd1 H1) as H2.
  destruct (fillUpdates_inv hash max desired _ Hd1) as [Hd2 _].
  apply (fillRest_shape hash eqb controllerName max svc desired P HP) in Hrest as [_ HPs Hfr Hc];
    [|done|by apply (inv_hashed _ _ _ _ _ Hd2)|by apply (inv_name _ _ _ _ _ Hd2)|done].
  pose proof (live_slices_perm hash max desired st create Hinv) as Hlive.
  destruct Hinv as [Hname Hdomi Hj1 Hj2 _ Hq Hqc Hp].
  assert (∀ n s, slicesByName st !! n = Some s → sl_Name s = n) as Hnm by (intros; by apply Hname).
  assert (∀ X n, n ∈ sl_Name <$> lookup_names (slicesByName st) (range_set X) →
    n ∈ X ∧ n ∈ sl_Name <$> existing) as Hnames.
  { intros X n (s & -> & (k & Hk%elem_of_range_set & Hs)%elem_of_lookup_names)%list_elem_of_fmap.
    rewrite (Hnm _ _ Hs). split; [done|]. apply elem_of_dom_2 in Hs. rewrite Hdom in Hs.
    by apply elem_of_list_to_set in Hs. }
  split.
  - rewrite He in Hp. unfold keys at 1 in Hp. rewrite map_to_list_empty, app_nil_r in Hp.
    rewrite <-Hp. apply hashes_perm. by rewrite Hleft, Hlive, app_assoc.
  - intros s. rewrite Hleft, !elem_of_app, !elem_of_lookup_names. setoid_rewrite elem_of_range_set.
    unfold live_names in Hfr.
    intros [(n & Hn & Hs)|[(n & Hn & Hs)|Hs]]; [eapply Hfr; [|done]; set_solver..|by apply Hc].
  - intros s [(n & _ & Hs)%elem_of_lookup_names|Hs]%elem_of_app; [eauto|]. split; [by apply Hc|by apply Hqc].
  - intros n Hn. by apply Hnames in Hn as [_ ?].
  - intros n Hn. by apply Hnames in Hn as [_ ?].
  - intros n [Hn _]%Hnames [Hn' _]%Hnames. unfold live_names in Hj2. set_solver.
  - apply lookup_names_NoDup; [done|apply NoDup_range_set].
  - apply lookup_names_NoDup; [done|apply NoDup_range_set].
  - intros s Hs. by apply Hc.
Qed.
End group.

(** * Writing *)
(** Everything of a slice but its name. *)
Definition unnamed (l : list EndpointSlice) : list EndpointSlice := set_name "" <$> l.

Lemma pairDeletes_renamed svc deletes create update kept :
  let '(create', update', delete') := pairDeletes svc deletes create update kept in
  ∃ reused renamed, kept ++ deletes ≡ₚ delete' ++ reused ∧ update' = update ++ renamed
    ∧ sl_Name <$> renamed = sl_Name <$> reused
    ∧ unnamed (renamed ++ create') ≡ₚ unnamed create
    ∧ (∀ s, s ∈ create' → s ∈ create).
Proof.
  revert create update kept. induction deletes as [|d deletes IH]; intros create update kept; simpl.
  { exists [], []. by rewrite !app_nil_r. }
  destruct (last create) as [slice|] eqn:Hl; last first.
  { exists [], []. by rewrite !app_nil_r. }
  apply last_Some in Hl as [create0 ->]. rewrite removelast_last.
  destruct (bool_decide _ && ownedBy d svc).
  - specialize (IH create0 (update ++ [set_name (sl_Name d) slice]) kept).
    destruct (pairDeletes svc deletes create0 _ kept) as [[c u] k].
    destruct IH as (reused & renamed & Hk & -> & Hn & Hp & Hsub).
    exists (d :: reused), (set_name (sl_Name d) slice :: renamed). split_and!.
    + rewrite <-!Permutation_middle. by rewrite Hk.
    + by rewrite <-app_assoc.
    + simpl. f_equal. exact Hn.
    + unfold unnamed in *. simpl. rewrite Hp, fmap_app. simpl.
      by rewrite (Permutation_app_comm _ [set_name "" slice]).
    + set_solver.
  - specialize (IH (create0 ++ [slice]) update (kept ++ [d])).
    destruct (pairDeletes svc deletes (create0 ++ [slice]) update (kept ++ [d])) as [[c u] k].
    destruct IH as (reused & renamed & Hk & -> & Hn & Hp & Hsub). exists reused, renamed.
    split_and!; try done. by rewrite <-Hk, <-app_assoc.
Qed.

Lemma replaced_names (E : list EndpointSlice) s : sl_Name <$> (replaced s <$> E) = sl_Name <$> E.
Proof.
  rewrite <-list_fmap_compose. apply list_fmap_ext. intros i x _. unfold replaced. simpl.
  by case_bool_decide.
Qed.

Lemma apply_creates (E C : list EndpointSlice) : foldl applyWrite E (Create <$> C) = E ++ C.
Proof.
  revert E. induction C as [|c C IH]; intros E; simpl; [by rewrite app_nil_r|].
  by rewrite IH, <-app_assoc.
Qed.

Lemma filter_id {A} (Q : A → Prop) `{∀ x, Decision (Q x)} (l : list A) :
  (∀ x, x ∈ l → Q x) → filter Q l = l.
Proof.
  induction l as [|x l IH]; intros HQ; [done|].
  rewrite filter_cons_True by (apply HQ; constructor). f_equal. apply IH. set_solver.
Qed.

Lemma filter_none {A} (Q : A → Prop) `{∀ x, Decision (Q x)} (l : list A) :
  (∀ x, x ∈ l → ¬ Q x) → filter Q l = [].
Proof.
  induction l as [|x l IH]; intros HQ; [done|].
  rewrite filter_cons_False by (apply HQ; constructor). apply IH. set_solver.
Qed.

Lemma apply_deletes (E D : list EndpointSlice) :
  foldl applyWrite E (Delete <$> D) = filter (λ x, sl_Name x ∉ sl_Name <$> D) E.
Proof.
  revert E. induction D as [|d D IH]; intros E; simpl.
  { rewrite filter_id; [done|]. intros x _. apply not_elem_of_nil. }
  rewrite IH, list_filter_filter. apply list_filter_iff. intros x. set_solver.
Qed.

Lemma apply_updates_app (E C U : list EndpointSlice) :
  (∀ c u, c ∈ C → u ∈ U → sl_Name c ≠ sl_Name u) →
  foldl applyWrite (E ++ C) (Update <$> U) = foldl applyWrite E (Update <$> U) ++ C.
Proof.
  revert E. induction U as [|u U IH]; intros E Hne; simpl; [done|].
  rewrite fmap_app. rewrite <-(IH _); [|set_solver]. do 2 f_equal.
  rewrite <-(list_fmap_id C) at 2. apply list_fmap_ext. intros i c Hc%list_elem_of_lookup_2. simpl.
  unfold replaced. rewrite bool_decide_false; [done|]. apply Hne; [done|constructor].
Qed.

(** An update replaces the slice of its name. *)
Lemma replaced_perm (E : list EndpointSlice) u :
  NoDup (sl_Name <$> E) → sl_Name u ∈ sl_Name <$> E →
  replaced u <$> E ≡ₚ u :: filter (λ x, sl_Name x ≠ sl_Name u) E.
Proof.
  induction E as [|x E IH]; [by intros _ ?%not_elem_of_nil|].
  intros [Hni Hnd]%NoDup_cons Hin. rewrite fmap_cons. unfold replaced at 1.
  destruct (decide (sl_Name x = sl_Name u)) as [Heq|Hne].
  - rewrite bool_decide_true, filter_cons_False by tauto. f_equiv.
    assert (∀ y, y ∈ E → sl_Name y ≠ sl_Name u) as Hy.
    { intros y Hy Hyu. apply Hni. apply list_elem_of_fmap. exists y. by rewrite Hyu. }
    rewrite filter_id by done. rewrite <-(list_fmap_id E) at 2.
    erewrite list_fmap_ext; [done|]. intros i y Hi%list_elem_of_lookup_2. unfold replaced.
    by rewrite bool_decide_false by (by apply Hy).
  - rewrite bool_decide_false, filter_cons_True by done. rewrite IH; [constructor|done|set_solver].
Qed.

Lemma apply_updates (E U : list EndpointSlice) :
  NoDup (sl_Name <$> E) → NoDup (sl_Name <$> U) → (∀ n, n ∈ sl_Name <$> U → n ∈ sl_Name <$> E) →
  foldl applyWrite E (Update <$> U) ≡ₚ filter (λ x, sl_Name x ∉ sl_Name <$> U) E ++ U.
Proof.
  revert E. induction U as [|u U IH]; intros E HE HU Hsub; simpl.
  { rewrite app_nil_r, filter_id; [done|]. intros x _. apply not_elem_of_nil. }
  apply NoDup_cons in HU as [Hni HU].
  rewrite IH; [|by rewrite replaced_names|done|intros n Hn; rewrite replaced_names; set_solver].
  rewrite replaced_perm by (done || set_solver). rewrite filter_cons_True by done. simpl.
  rewrite <-Permutation_middle. f_equiv. f_equiv. rewrite list_filter_filter.
  erewrite list_filter_iff; [done|]. intros x. set_solver.
Qed.

(** All the writes of one [finalize]. *)
Lemma apply_all (E C U D : list EndpointSlice) :
  NoDup (sl_Name <$> E) → (∀ s, s ∈ E → sl_Name s ≠ "") → (∀ s, s ∈ C → sl_Name s = "") →
  NoDup (sl_Name <$> U) → (∀ n, n ∈ sl_Name <$> U → n ∈ sl_Name <$> E) →
  (∀ n, n ∈ sl_Name <$> D → n ∈ sl_Name <$> E) →
  (∀ n, n ∈ sl_Name <$> U → n ∉ sl_Name <$> D) →
  foldl applyWrite E ((Create <$> C) ++ (Update <$> U) ++ (Delete <$> D)) ≡ₚ leftAlone E U D ++ U ++ C.
Proof.
  intros HE Hne HC HU HUE HDE HUD.
  assert (∀ c n, c ∈ C → n ∈ sl_Name <$> E → sl_Name c ≠ n) as Hdiff.
  { intros c n Hc (s & -> & Hs)%list_elem_of_fmap. rewrite (HC c Hc). intros Heq. by apply (Hne s). }
  rewrite !foldl_app, apply_creates, apply_updates_app, apply_deletes; last first.
  { intros c u Hc Hu. apply (Hdiff c); [done|]. apply HUE. by apply list_elem_of_fmap_2. }
  rewrite apply_updates by done. rewrite !filter_app, <-app_assoc. f_equiv; [|f_equiv].
  - unfold leftAlone. rewrite list_filter_filter. apply reflexive_eq, list_filter_iff.
    intros x. tauto.
  - rewrite filter_id; [done|]. intros u Hu. apply HUD. by apply list_elem_of_fmap_2.
  - rewrite filter_id; [done|]. intros c Hc Hn. by apply (Hdiff c _ Hc (HDE _ Hn)).
Qed.

Lemma unnamed_elem l1 l2 s :
  unnamed l1 ≡ₚ unnamed l2 → s ∈ l1 → ∃ s', s' ∈ l2 ∧ set_name "" s = set_name "" s'.
Proof.
  intros Hp Hs. assert (set_name "" s ∈ unnamed l2) as Hin.
  { rewrite <-Hp. by apply list_elem_of_fmap_2. }
  apply list_elem_of_fmap in Hin as (s' & ? & ?). eauto.
Qed.

(** A write that concerns slices of one address type: it creates one, or names one. *)
Definition about (t : string) (names : list string) (w : Write) : Prop :=
  match w with
  | Create s => sl_AddressType s = t ∧ sl_Name s = ""
  | Update s => sl_AddressType s = t ∧ sl_Name s ∈ names
  | Delete s => sl_Name s ∈ names
  end.

(** * All groups of an address type *)
Lemma filter_ext_in {A} (Q R : A → Prop) `{∀ x, Decision (Q x), ∀ x, Decision (R x)} (l : list A) :
  (∀ x, x ∈ l → Q x ↔ R x) → filter Q l = filter R l.
Proof.
  induction l as [|x l IH]; intros HQ; [done|]. rewrite !filter_cons.
  rewrite (IH ltac:(set_solver)). destruct (HQ x ltac:(constructor)).
  repeat case_decide; tauto.
Qed.

Lemma fmap_of_bind {A B C} (g : B → C) (f : A → list B) (l : list A) :
  g <$> (l ≫= f) = l ≫= λ x, g <$> f x.
Proof. induction l as [|x l IH]; [done|]. by rewrite !bind_cons, fmap_app, IH. Qed.

Section converge.
Context (hash : Endpoint → string) (eqb : Endpoint → Endpoint → bool).
Context (NewPortMapKey : list EndpointPort → string) (IsIPv6String : string → bool).
Context (controllerName : string) (max : nat) `{!MapRange}.
Context (svc : Service) (a : string).

Definition portKey (s : EndpointSlice) : string := NewPortMapKey (default [] (sl_Ports s)).

(** The endpoint of a workload, and the group it belongs to. *)
Definition endpointOf (ew : ExternalWorkload) : Endpoint :=
  externalWorkloadToEndpoint IsIPv6String a ew svc.
Definition groupOf (ew : ExternalWorkload) : string := NewPortMapKey (findEndpointPorts svc ew).

Abbreviation existingOf := (slicesByPorts NewPortMapKey svc).
Abbreviation desiredOf := (desiredByPorts hash NewPortMapKey IsIPv6String svc a).

Lemma slicesByPorts_lookup E k :
  default [] (existingOf E !! k) = filter (λ s, ownedBy s svc = true ∧ portKey s = k) E.
Proof.
  unfold slicesByPorts. induction E as [|s E IH] using rev_ind; [done|].
  rewrite foldl_app, filter_app. simpl. destruct (ownedBy s svc) eqn:Ho.
  - fold (portKey s). destruct (decide (portKey s = k)) as [<-|Hne].
    + rewrite lookup_insert_eq. simpl. rewrite IH. f_equal. by rewrite filter_cons_True.
    + rewrite lookup_insert_ne by done. rewrite IH, filter_cons_False, app_nil_r; [done|]. naive_solver.
  - rewrite IH, filter_cons_False, app_nil_r; [done|]. rewrite Ho. naive_solver.
Qed.

Lemma slicesByPorts_nonempty E k ss : existingOf E !! k = Some ss → ss = default [] (existingOf E !! k).
Proof. by intros ->. Qed.

(** The desired endpoints of a group are those of its workloads. *)
Definition desired_ok (ews : list ExternalWorkload) (D : gmap string (EndpointSet * endpointMeta)) : Prop :=
  (∀ k eps meta, D !! k = Some (eps, meta) →
     meta_addressType meta = a ∧ NewPortMapKey (meta_ports meta) = k
     ∧ hashed hash eps
     ∧ ∀ h d, eps !! h = Some d → ∃ ew, ew ∈ ews ∧ groupOf ew = k ∧ d = endpointOf ew ∧ e_Addresses d ≠ [])
  ∧ (∀ ew, ew ∈ ews → e_Addresses (endpointOf ew) ≠ [] →
       ∃ eps meta, D !! groupOf ew = Some (eps, meta) ∧ is_Some (eps !! hash (endpointOf ew))).

Lemma desiredByPorts_ok ews : desired_ok ews (desiredOf ews).
Proof.
  unfold desiredByPorts. induction ews as [|ew ews [IH1 IH2]] using rev_ind.
  { split; [intros k eps meta; simpl; by rewrite lookup_empty|by intros ew ?%not_elem_of_nil]. }
  rewrite foldl_app. simpl. set (D := foldl _ ∅ ews) in *. fold (groupOf ew) (endpointOf ew).
  case_bool_decide as Hips.
  { split.
    - intros k eps meta Hk. destruct (IH1 _ _ _ Hk) as (? & ? & ? & Hd). split_and!; [done..|].
      intros h d Hh. destruct (Hd h d Hh) as (ew' & ? & ? & ? & ?). exists ew'. set_solver.
    - intros ew' [Hin| ->%list_elem_of_singleton]%elem_of_app; [by apply IH2|].
      intros Hne. destruct Hne. unfold endpointOf, externalWorkloadToEndpoint. simpl. by rewrite Hips. }
  destruct (default (∅, mkEndpointMeta (findEndpointPorts svc ew) a) (D !! groupOf ew))
    as [eps0 meta0] eqn:Hdef.
  assert (meta_addressType meta0 = a ∧ NewPortMapKey (meta_ports meta0) = groupOf ew
    ∧ hashed hash eps0 ∧ (∀ h d, eps0 !! h = Some d → ∃ ew', ew' ∈ ews ∧ groupOf ew' = groupOf ew
        ∧ d = endpointOf ew' ∧ e_Addresses d ≠ [])
    ∧ ∀ eps meta, D !! groupOf ew = Some (eps, meta) → eps = eps0) as (Ha & Hk & Hh & He & Hsame).
  { destruct (D !! groupOf ew) as [[eps meta]|] eqn:HD; simpl in Hdef; simplify_eq.
    - destruct (IH1 _ _ _ HD) as (? & ? & ? & ?). split_and!; try done. naive_solver.
    - split_and!; try done. }
  set (ep := endpointOf ew) in *.
  set (eps1 := if bool_decide (e_Addresses ep = []) then eps0 else <[hash ep := ep]> eps0).
  assert (hashed hash eps1 ∧ (∀ h d, eps1 !! h = Some d → ∃ ew', ew' ∈ ews ++ [ew]
      ∧ groupOf ew' = groupOf ew ∧ d = endpointOf ew' ∧ e_Addresses d ≠ [])
    ∧ (∀ h, is_Some (eps0 !! h) → is_Some (eps1 !! h))
    ∧ (e_Addresses ep ≠ [] → is_Some (eps1 !! hash ep))) as (Hh1 & He1 & Hm1 & Hn1).
  { assert (∀ h d, eps0 !! h = Some d → ∃ ew', ew' ∈ ews ++ [ew] ∧ groupOf ew' = groupOf ew
      ∧ d = endpointOf ew' ∧ e_Addresses d ≠ []) as He'.
    { intros h d Hd. destruct (He h d Hd) as (ew' & ? & ? & ? & ?). exists ew'. set_solver. }
    unfold eps1. case_bool_decide as Haddr; [by split_and!|]. split_and!.
    - intros h d [[<- <-]|[_ Hd]]%lookup_insert_Some; [done|by apply Hh].
    - intros h d [[<- <-]|[_ Hd]]%lookup_insert_Some; [|by eapply He'].
      exists ew. split_and!; [set_solver|done..].
    - intros h Hd. destruct (decide (h = hash ep)) as [->|];
        [by rewrite lookup_insert_eq; eexists|by rewrite lookup_insert_ne].
    - intros _. rewrite lookup_insert_eq. by eexists. }
  split.
  - intros k eps meta [[<- [= <- <-]]|[Hne HD]]%lookup_insert_Some; [by split_and!|].
    destruct (IH1 _ _ _ HD) as (? & ? & ? & Hd). split_and!; [done..|].
    intros h d Hhd. destruct (Hd h d Hhd) as (ew' & ? & ? & ? & ?). exists ew'. set_solver.
  - intros ew' [Hin| ->%list_elem_of_singleton]%elem_of_app Haddr; last first.
    { exists eps1, meta0. rewrite lookup_insert_eq. split; [done|]. by apply Hn1. }
    destruct (IH2 ew' Hin Haddr) as (eps & meta & HD & Hs).
    destruct (decide (groupOf ew' = groupOf ew)) as [Heq|Hne].
    + exists eps1, meta0. rewrite Heq, lookup_insert_eq. split; [done|]. apply Hm1.
      rewrite Heq in HD. by rewrite <-(Hsame _ _ HD).
    + exists eps, meta. by rewrite lookup_insert_ne.
Qed.

(** The slices that exist, and their diff. *)
Context (E : list EndpointSlice) (ews : list ExternalWorkload).
Context (Hmax : (1 ≤ max)%nat) (HE : NoDup (sl_Name <$> E)).
Context (HEok : ∀ s, s ∈ E → (length (sl_Endpoints s) ≤ max)%nat ∧ sl_Name s ≠ "" ∧ sl_AddressType s = a).

Definition inGroup (k : string) (s : EndpointSlice) : Prop := ownedBy s svc = true ∧ portKey s = k.
#[local] Instance inGroup_dec k s : Decision (inGroup k s).
Proof. unfold inGroup. apply _. Defined.
Definition groupSlice (k : string) (s : EndpointSlice) : Prop := inGroup k s ∧ sl_AddressType s = a.

Definition diffOf (e : string * (EndpointSet * endpointMeta)) :=
  reconcileEndpointsByPortMap hash eqb controllerName max svc (filter (inGroup e.1) E) e.2.1 e.2.2.

Lemma groupSlice_new k meta :
  meta_addressType meta = a → NewPortMapKey (meta_ports meta) = k →
  groupSlice k (newEndpointSlice svc meta controllerName).
Proof.
  intros Ha Hk. unfold groupSlice, inGroup, portKey, ownedBy. simpl.
  by rewrite !bool_decide_true by done.
Qed.

Lemma diffOf_ok k eps meta :
  desiredOf ews !! k = Some (eps, meta) →
  let d := diffOf (k, (eps, meta)) in
  group_ok hash eqb max (groupSlice k) (filter (inGroup k) E) eps d.1.1 d.1.2 d.2.
Proof.
  intros Hk. destruct (desiredByPorts_ok ews) as [Hd _]. destruct (Hd _ _ _ Hk) as (Ha & Hkey & Hh & _).
  apply reconcile_group; [by intros l e s [[? ?] ?]|done|done| | |by apply groupSlice_new].
  - by apply NoDup_fmap_filter.
  - intros s [Hg Hs]%list_elem_of_filter. destruct (HEok s Hs) as (? & ? & ?). by split_and!.
Qed.

Definition allCreate : list EndpointSlice := range (desiredOf ews) ≫= λ e, (diffOf e).1.1.
Definition allUpdate : list EndpointSlice := range (desiredOf ews) ≫= λ e, (diffOf e).1.2.
Definition groupless : list EndpointSlice :=
  range (existingOf E) ≫= λ e, if desiredOf ews !! e.1 is Some _ then [] else e.2.
Definition allDelete : list EndpointSlice :=
  filter (λ s, ownedBy s svc = false) E ++ (range (desiredOf ews) ≫= λ e, (diffOf e).2) ++ groupless.

Lemma elem_of_groupless s :
  s ∈ groupless ↔ s ∈ E ∧ ownedBy s svc = true ∧ desiredOf ews !! portKey s = None.
Proof.
  unfold groupless. rewrite list_elem_of_bind. split.
  - intros ([k ss] & Hs & Hin%elem_of_range). simpl in Hs.
    destruct (desiredOf ews !! k) eqn:HD; [by apply not_elem_of_nil in Hs|].
    rewrite (slicesByPorts_nonempty _ _ _ Hin), slicesByPorts_lookup in Hs.
    by apply list_elem_of_filter in Hs as [[Ho <-] Hs].
  - intros (Hs & Ho & HD). assert (s ∈ default [] (existingOf E !! portKey s)) as Hin.
    { rewrite slicesByPorts_lookup. by apply list_elem_of_filter. }
    destruct (existingOf E !! portKey s) as [ss|] eqn:Hx; [|by apply not_elem_of_nil in Hin].
    exists (portKey s, ss). split; [simpl; by rewrite HD|]. by apply elem_of_range.
Qed.

Lemma groupless_NoDup : NoDup (sl_Name <$> groupless).
Proof.
  apply NoDup_fmap_2_strong.
  { intros x y (Hx & _)%elem_of_groupless (Hy & _)%elem_of_groupless. by apply (same_name E). }
  apply NoDup_bind; [|intros [k ss] Hk%elem_of_range; simpl|by eapply NoDup_fmap_1, NoDup_range_keys].
  - intros [k ss] [j ss'] s Hk%elem_of_range Hj%elem_of_range. simpl.
    assert (∀ i l, existingOf E !! i = Some l → s ∈ (if desiredOf ews !! i is Some _ then [] else l) →
      portKey s = i) as Hkey.
    { intros i l Hi. case_match; [by intros ?%not_elem_of_nil|].
      rewrite (slicesByPorts_nonempty _ _ _ Hi), slicesByPorts_lookup.
      by intros [[_ ?] _]%list_elem_of_filter. }
    intros H1%Hkey H2%Hkey; [|done..]. assert (k = j) as -> by congruence. congruence.
  - case_match; [constructor|]. rewrite (slicesByPorts_nonempty _ _ _ Hk), slicesByPorts_lookup.
    by apply NoDup_filter, NoDup_by_name.
Qed.

Lemma diffByAddressType_all :
  diffByAddressType hash eqb NewPortMapKey IsIPv6String controllerName max svc ews E a
  = (allCreate, allUpdate, allDelete).
Proof.
  unfold diffByAddressType, allCreate, allUpdate, allDelete, groupless, diffOf.
  f_equal; [f_equal|f_equal; f_equal]; rewrite list_fmap_bind; apply list_bind_ext; try done;
    intros e; simpl; by rewrite slicesByPorts_lookup.
Qed.

(** The slice a group's update or deletion names is one of the group's. *)
Lemma update_mine k eps meta n :
  desiredOf ews !! k = Some (eps, meta) → n ∈ sl_Name <$> (diffOf (k, (eps, meta))).1.2 →
  ∃ s, s ∈ E ∧ sl_Name s = n ∧ inGroup k s.
Proof.
  intros Hk Hn. pose proof (diffOf_ok k eps meta Hk) as G. apply (group_update_names _ _ _ _ _ _ _ _ _ G) in Hn.
  apply list_elem_of_fmap in Hn as (s & -> & [Hg Hs]%list_elem_of_filter). eauto.
Qed.
Lemma delete_mine k eps meta n :
  desiredOf ews !! k = Some (eps, meta) → n ∈ sl_Name <$> (diffOf (k, (eps, meta))).2 →
  ∃ s, s ∈ E ∧ sl_Name s = n ∧ inGroup k s.
Proof.
  intros Hk Hn. pose proof (diffOf_ok k eps meta Hk) as G. apply (group_delete_names _ _ _ _ _ _ _ _ _ G) in Hn.
  apply list_elem_of_fmap in Hn as (s & -> & [Hg Hs]%list_elem_of_filter). eauto.
Qed.

Lemma elem_of_groups n (g : string * (EndpointSet * endpointMeta) → list EndpointSlice) :
  n ∈ sl_Name <$> (range (desiredOf ews) ≫= g) ↔
  ∃ k eps meta, desiredOf ews !! k = Some (eps, meta) ∧ n ∈ sl_Name <$> g (k, (eps, meta)).
Proof.
  rewrite list_elem_of_fmap. split.
  - intros (s & -> & ([k [eps meta]] & Hs & Hin%elem_of_range)%list_elem_of_bind).
    exists k, eps, meta. split; [done|]. by apply list_elem_of_fmap_2.
  - intros (k & eps & meta & Hk & (s & -> & Hs)%list_elem_of_fmap). exists s. split; [done|].
    apply list_elem_of_bind. exists (k, (eps, meta)). split; [done|]. by apply elem_of_range.
Qed.

(** Names are distinct when they are in every group, each naming slices of the group. *)
Lemma NoDup_groups (g : string * (EndpointSet * endpointMeta) → list EndpointSlice) :
  (∀ k eps meta, desiredOf ews !! k = Some (eps, meta) → NoDup (sl_Name <$> g (k, (eps, meta)))
     ∧ ∀ n, n ∈ sl_Name <$> g (k, (eps, meta)) → ∃ s, s ∈ E ∧ sl_Name s = n ∧ inGroup k s) →
  NoDup (sl_Name <$> (range (desiredOf ews) ≫= g)).
Proof.
  intros Hg. rewrite fmap_of_bind. apply NoDup_bind.
  - intros [k [eps meta]] [j [eps' meta']] n Hk%elem_of_range Hj%elem_of_range Hn Hn'.
    destruct (Hg _ _ _ Hk) as [_ Hk']. destruct (Hg _ _ _ Hj) as [_ Hj'].
    destruct (Hk' n Hn) as (s & Hs & Hsn & Hsg). destruct (Hj' n Hn') as (x & Hx & Hxn & Hxg).
    assert (s = x) as -> by (eapply same_name; try done; congruence).
    destruct Hsg as [_ Hsg], Hxg as [_ Hxg]. assert (k = j) as -> by congruence. congruence.
  - intros [k [eps meta]] Hk%elem_of_range. by apply Hg.
  - eapply NoDup_fmap_1, NoDup_range_keys.
Qed.

Lemma elem_of_allUpdate n :
  n ∈ sl_Name <$> allUpdate ↔
  ∃ k eps meta, desiredOf ews !! k = Some (eps, meta) ∧ n ∈ sl_Name <$> (diffOf (k, (eps, meta))).1.2.
Proof.
  apply elem_of_groups.
Qed.

Lemma elem_of_allDelete n :
  n ∈ sl_Name <$> allDelete ↔
  (∃ s, s ∈ E ∧ sl_Name s = n ∧ ownedBy s svc = false)
  ∨ (∃ k eps meta, desiredOf ews !! k = Some (eps, meta) ∧ n ∈ sl_Name <$> (diffOf (k, (eps, meta))).2)
  ∨ (∃ s, s ∈ E ∧ sl_Name s = n ∧ ownedBy s svc = true ∧ desiredOf ews !! portKey s = None).
Proof.
  unfold allDelete. rewrite !fmap_app, !elem_of_app, !list_elem_of_fmap. f_equiv; [|f_equiv].
  - setoid_rewrite list_elem_of_filter. naive_solver.
  - rewrite <-list_elem_of_fmap. apply (elem_of_groups n (λ e, (diffOf e).2)).
  - setoid_rewrite elem_of_groupless. naive_solver.
Qed.

(** A slice is in one group. *)
Lemma one_group s s' k k' :
  s ∈ E → s' ∈ E → sl_Name s = sl_Name s' → inGroup k s → inGroup k' s' → k = k' ∧ s = s'.
Proof.
  intros Hs Hs' Hn [_ <-] [_ <-]. assert (s = s') as -> by (by eapply same_name). done.
Qed.

Lemma allUpdate_names n : n ∈ sl_Name <$> allUpdate → n ∈ sl_Name <$> E.
Proof.
  intros (k & eps & meta & Hk & Hn)%elem_of_allUpdate.
  destruct (update_mine _ _ _ _ Hk Hn) as (s & Hs & <- & _). by apply list_elem_of_fmap_2.
Qed.
Lemma allDelete_names n : n ∈ sl_Name <$> allDelete → n ∈ sl_Name <$> E.
Proof.
  intros [(s & Hs & <- & _)|[(k & eps & meta & Hk & Hn)|(s & Hs & <- & _)]]%elem_of_allDelete;
    [by apply list_elem_of_fmap_2| |by apply list_elem_of_fmap_2].
  destruct (delete_mine _ _ _ _ Hk Hn) as (s & Hs & <- & _). by apply list_elem_of_fmap_2.
Qed.

Lemma all_disjoint n : n ∈ sl_Name <$> allUpdate → n ∉ sl_Name <$> allDelete.
Proof.
  intros (k & eps & meta & Hk & Hn)%elem_of_allUpdate.
  destruct (update_mine _ _ _ _ Hk Hn) as (s & Hs & Hsn & Hg).
  intros [(x & Hx & Hxn & Ho)|[(j & eps' & meta' & Hj & Hd)|(x & Hx & Hxn & Ho & HD)]]%elem_of_allDelete.
  - assert (x = s) as -> by (eapply same_name; try done; congruence). destruct Hg. congruence.
  - destruct (delete_mine _ _ _ _ Hj Hd) as (x & Hx & Hxn & Hg').
    destruct (one_group x s j k) as [-> ->]; [done|done|congruence|done|done|].
    rewrite Hk in Hj. simplify_eq. by eapply (group_disjoint _ _ _ _ _ _ _ _ _ (diffOf_ok _ _ _ Hk)).
  - assert (x = s) as -> by (eapply same_name; try done; congruence). destruct Hg as [_ <-]. congruence.
Qed.

Lemma allUpdate_NoDup : NoDup (sl_Name <$> allUpdate).
Proof.
  apply NoDup_groups. intros k eps meta Hk. split; [|by intros n; apply update_mine].
  apply (group_NoDup _ _ _ _ _ _ _ _ _ (diffOf_ok _ _ _ Hk)).
Qed.

Lemma allDelete_NoDup : NoDup (sl_Name <$> allDelete).
Proof.
  unfold allDelete. rewrite !fmap_app. apply NoDup_app. split_and!; [by apply NoDup_fmap_filter| |].
  - intros n (s & -> & [Ho Hs]%list_elem_of_filter)%list_elem_of_fmap.
    intros [Hn|Hn]%elem_of_app.
    + apply elem_of_groups in Hn as (k & eps & meta & Hk & Hn).
      destruct (delete_mine _ _ _ _ Hk Hn) as (x & Hx & Hxn & [Hox _]).
      assert (x = s) as -> by (eapply same_name; try done; congruence). congruence.
    + apply list_elem_of_fmap in Hn as (x & Heq & (Hx & Hox & _)%elem_of_groupless).
      assert (x = s) as -> by (by eapply same_name). congruence.
  - apply NoDup_app. split_and!; [| |apply groupless_NoDup].
    + apply NoDup_groups. intros k eps meta Hk. split; [|by intros n; apply delete_mine].
      apply (group_NoDup_delete _ _ _ _ _ _ _ _ _ (diffOf_ok _ _ _ Hk)).
    + intros n (k & eps & meta & Hk & Hn)%elem_of_groups.
      destruct (delete_mine _ _ _ _ Hk Hn) as (x & Hx & Hxn & [_ Hkx]).
      intros (s & -> & (Hs & _ & HD)%elem_of_groupless)%list_elem_of_fmap.
      assert (x = s) as -> by (by eapply same_name). congruence.
Qed.

(** The slices of a group among those that are left alone. *)
Lemma leftAlone_group k eps meta :
  desiredOf ews !! k = Some (eps, meta) →
  filter (λ s, portKey s = k) (leftAlone E allUpdate allDelete)
  = leftAlone (filter (inGroup k) E) (diffOf (k, (eps, meta))).1.2 (diffOf (k, (eps, meta))).2.
Proof.
  intros Hk. unfold leftAlone. rewrite !list_filter_filter. apply filter_ext_in. intros s Hs.
  rewrite elem_of_allUpdate, elem_of_allDelete. split.
  - intros (Hkey & Hu & Hd). assert (ownedBy s svc = true) as Ho.
    { destruct (ownedBy s svc) eqn:Ho; [done|]. destruct Hd. left. by exists s. }
    split; [|done]. split; intros Hn; [destruct Hu|destruct Hd; right; left]; by exists k, eps, meta.
  - intros [[Hu Hd] Hg]. pose proof Hg as [Ho Hkey]. split_and!; [done| |].
    + intros (j & eps' & meta' & Hj & Hn). destruct (update_mine _ _ _ _ Hj Hn) as (x & Hx & Hxn & Hgx).
      destruct (one_group x s j k) as [-> _]; [done..|]. rewrite Hk in Hj. by simplify_eq.
    + intros [(x & Hx & Hxn & Hox)|[(j & eps' & meta' & Hj & Hn)|(x & Hx & Hxn & _ & HD)]].
      * assert (x = s) as -> by (by eapply same_name). congruence.
      * destruct (delete_mine _ _ _ _ Hj Hn) as (x & Hx & Hxn & Hgx).
        destruct (one_group x s j k) as [-> _]; [done..|]. rewrite Hk in Hj. by simplify_eq.
      * assert (x = s) as -> by (by eapply same_name). congruence.
Qed.

Lemma leftAlone_owned s : s ∈ leftAlone E allUpdate allDelete →
  s ∈ E ∧ ownedBy s svc = true ∧ is_Some (desiredOf ews !! portKey s).
Proof.
  unfold leftAlone. rewrite list_elem_of_filter, elem_of_allDelete. intros [[_ Hd] Hs].
  assert (ownedBy s svc = true) as Ho.
  { destruct (ownedBy s svc) eqn:Ho; [done|]. destruct Hd. left. by exists s. }
  split_and!; [done..|]. destruct (desiredOf ews !! portKey s) eqn:HD; [by eexists|].
  destruct Hd. right. right. by exists s.
Qed.

(** The slices of a group among those of all groups. *)
Lemma filter_groups (g : string * (EndpointSet * endpointMeta) → list EndpointSlice) k :
  (∀ k eps meta, desiredOf ews !! k = Some (eps, meta) → ∀ s, s ∈ g (k, (eps, meta)) → portKey s = k) →
  filter (λ s, portKey s = k) (range (desiredOf ews) ≫= g)
  = match desiredOf ews !! k with Some em => g (k, em) | None => [] end.
Proof.
  intros Hg. rewrite <-(proj_at_range (desiredOf ews) (λ k em, g (k, em)) k).
  assert (∀ l, (∀ e, e ∈ l → desiredOf ews !! e.1 = Some e.2) →
    filter (λ s, portKey s = k) (l ≫= g) = proj_at k (l ≫= λ e, pair e.1 <$> g (e.1, e.2))) as Hl.
  { induction l as [|[j [eps meta]] l IH]; intros Hin; [done|].
    rewrite !bind_cons, filter_app, proj_at_app, proj_at_pair, IH by set_solver. f_equal. simpl.
    assert (∀ s, s ∈ g (j, (eps, meta)) → portKey s = j) as Hj.
    { apply Hg. by apply (Hin (j, (eps, meta))); constructor. }
    case_decide as Hjk.
    - subst j. by apply filter_id.
    - apply filter_none. intros s Hs. by rewrite (Hj s Hs). }
  apply Hl. intros [j em]. by rewrite elem_of_range.
Qed.

Lemma group_update_key k eps meta s :
  desiredOf ews !! k = Some (eps, meta) → s ∈ (diffOf (k, (eps, meta))).1.2 → portKey s = k.
Proof.
  intros Hk Hs. destruct (group_P _ _ _ _ _ _ _ _ _ (diffOf_ok _ _ _ Hk) s) as [[[_ ?] _] _]; [set_solver|done].
Qed.
Lemma group_create_key k eps meta s :
  desiredOf ews !! k = Some (eps, meta) → s ∈ (diffOf (k, (eps, meta))).1.1 → portKey s = k.
Proof.
  intros Hk Hs. destruct (group_P _ _ _ _ _ _ _ _ _ (diffOf_ok _ _ _ Hk) s) as [[[_ ?] _] _]; [set_solver|done].
Qed.

Lemma elem_of_all (g : string * (EndpointSet * endpointMeta) → list EndpointSlice) s :
  s ∈ range (desiredOf ews) ≫= g →
  ∃ k eps meta, desiredOf ews !! k = Some (eps, meta) ∧ s ∈ g (k, (eps, meta)).
Proof. intros ([k [eps meta]] & Hs & Hin%elem_of_range)%list_elem_of_bind. eauto. Qed.

(** The slices after the writes, up to the names of the new ones. *)
Definition slicesAfter : list EndpointSlice := leftAlone E allUpdate allDelete ++ allUpdate ++ allCreate.

Lemma filter_slicesAfter k :
  filter (λ s, portKey s = k) slicesAfter =
  match desiredOf ews !! k with
  | Some em => let d := diffOf (k, em) in leftAlone (filter (inGroup k) E) d.1.2 d.2 ++ d.1.2 ++ d.1.1
  | None => []
  end.
Proof.
  unfold slicesAfter. rewrite !filter_app.
  assert (filter (λ s, portKey s = k) allUpdate = _) as ->
    by (apply (filter_groups (λ e, (diffOf e).1.2)); intros; by eapply group_update_key).
  assert (filter (λ s, portKey s = k) allCreate = _) as ->
    by (apply (filter_groups (λ e, (diffOf e).1.1)); intros; by eapply group_create_key).
  destruct (desiredOf ews !! k) as [[eps meta]|] eqn:Hk.
  - by rewrite (leftAlone_group _ _ _ Hk).
  - rewrite filter_none; [done|]. intros s (_ & _ & [? HD])%leftAlone_owned <-. congruence.
Qed.

Lemma slicesAfter_owned s : s ∈ slicesAfter →
  ownedBy s svc = true ∧ sl_AddressType s = a ∧ (length (sl_Endpoints s) ≤ max)%nat.
Proof.
  unfold slicesAfter. rewrite !elem_of_app.
  intros [(Hs & Ho & _)%leftAlone_owned|[Hs|Hs]].
  - destruct (HEok s Hs) as (? & _ & ?). done.
  - apply elem_of_all in Hs as (k & eps & meta & Hk & Hs).
    destruct (group_P _ _ _ _ _ _ _ _ _ (diffOf_ok _ _ _ Hk) s) as [[[? _] ?] ?]; [set_solver|done].
  - apply elem_of_all in Hs as (k & eps & meta & Hk & Hs).
    destruct (group_P _ _ _ _ _ _ _ _ _ (diffOf_ok _ _ _ Hk) s) as [[[? _] ?] ?]; [set_solver|done].
Qed.

(** Every group of them is exactly what its workloads ask for. *)
Lemma slicesAfter_exact k :
  NoDup (hashes hash (filter (λ s, portKey s = k) slicesAfter))
  ∧ (∀ ew, ew ∈ ews → groupOf ew = k → e_Addresses (endpointOf ew) ≠ [] →
       hash (endpointOf ew) ∈ hashes hash (filter (λ s, portKey s = k) slicesAfter))
  ∧ (∀ s e, s ∈ slicesAfter → portKey s = k → e ∈ sl_Endpoints s →
       ∃ ew, ew ∈ ews ∧ groupOf ew = k ∧ hash (endpointOf ew) = hash e
         ∧ (endpointOf ew = e ∨ eqb (endpointOf ew) e = true)).
Proof.
  destruct (desiredByPorts_ok ews) as [Hd1 Hd2]. pose proof (filter_slicesAfter k) as Hf.
  destruct (desiredOf ews !! k) as [[eps meta]|] eqn:Hk; last first.
  { rewrite Hf. split_and!; [constructor| |].
    - intros ew Hew <- Hne. destruct (Hd2 ew Hew Hne) as (? & ? & ? & _). congruence.
    - intros s e Hs Hks _. assert (s ∈ filter (λ s, portKey s = k) slicesAfter) as Hin
        by (by apply list_elem_of_filter). rewrite Hf in Hin. by apply not_elem_of_nil in Hin. }
  pose proof (diffOf_ok k eps meta Hk) as G. simpl in Hf.
  rewrite Hf. pose proof (group_hashes _ _ _ _ _ _ _ _ _ G) as Hh. split_and!.
  - rewrite Hh. apply NoDup_fst_map_to_list.
  - intros ew Hew <- Hne. destruct (Hd2 ew Hew Hne) as (eps' & meta' & Hk' & [d Hd]). simplify_eq.
    rewrite Hh. unfold keys. apply list_elem_of_fmap. exists (hash (endpointOf ew), d).
    split; [done|]. by apply elem_of_map_to_list.
  - intros s e Hs Hks He. assert (s ∈ filter (λ s, portKey s = k) slicesAfter) as Hin
      by (by apply list_elem_of_filter). rewrite Hf in Hin.
    pose proof (group_fresh _ _ _ _ _ _ _ _ _ G s Hin) as Hfr. rewrite Forall_forall in Hfr.
    destruct (Hfr e He) as (d & Hd & Heq). destruct (Hd1 _ _ _ Hk) as (_ & _ & Hhd & Hall).
    destruct (Hall _ _ Hd) as (ew & Hew & Hg & -> & _). exists ew. split_and!; [done..|by apply (Hhd _ _ Hd)|done].
Qed.

Lemma allUpdate_type s : s ∈ allUpdate → sl_AddressType s = a.
Proof.
  intros Hs. assert (s ∈ slicesAfter) as Hin by (unfold slicesAfter; set_solver).
  by apply slicesAfter_owned in Hin as (_ & ? & _).
Qed.
Lemma allCreate_about s : s ∈ allCreate → sl_AddressType s = a ∧ sl_Name s = "".
Proof.
  intros Hs. assert (s ∈ slicesAfter) as Hin by (unfold slicesAfter; set_solver).
  apply slicesAfter_owned in Hin as (_ & ? & _). split; [done|].
  apply elem_of_all in Hs as (k & eps & meta & Hk & Hs).
  by apply (group_create _ _ _ _ _ _ _ _ _ (diffOf_ok _ _ _ Hk)).
Qed.

Lemma leftAlone_names E0 U D U' D' :
  (∀ n, n ∈ sl_Name <$> U ∨ n ∈ sl_Name <$> D ↔ n ∈ sl_Name <$> U' ∨ n ∈ sl_Name <$> D') →
  leftAlone E0 U D = leftAlone E0 U' D'.
Proof. intros Hn. apply filter_ext_in. intros s _. specialize (Hn (sl_Name s)). tauto. Qed.

(** What the writes leave is [slicesAfter], except that a new slice may have taken the name
    of a deleted one. *)
Lemma finalize_after api :
  svc_DeletionTimestamp svc = false → (∀ w, api w = None) →
  ∃ ws, finalize api svc allCreate allUpdate allDelete = (Ok (), ws)
    ∧ unnamed (foldl applyWrite E ws) ≡ₚ unnamed slicesAfter
    ∧ ∀ w, w ∈ ws → about a (sl_Name <$> E) w.
Proof.
  intros Hdel Hapi. unfold finalize. rewrite Hdel.
  pose proof (pairDeletes_renamed svc allDelete allCreate allUpdate []) as Hp.
  destruct (pairDeletes svc allDelete allCreate allUpdate []) as [[C U] D].
  destruct Hp as (reused & renamed & HD & -> & Hn & Hun & Hsub). simpl in HD.
  pose proof allDelete_NoDup as HndD. rewrite HD, fmap_app in HndD.
  apply NoDup_app in HndD as (HndD & Hdr & Hndr).
  assert (∀ n, n ∈ sl_Name <$> allDelete ↔ n ∈ sl_Name <$> D ∨ n ∈ sl_Name <$> reused) as HDn
    by (intros n; by rewrite HD, fmap_app, elem_of_app).
  eexists. split; [apply runWrites_all; by intros|]. split; last first.
  { intros w. rewrite !elem_of_app, !list_elem_of_fmap.
    intros [(s & -> & Hs)|[(s & -> & Hs)|(s & -> & Hs)]]; simpl.
    - apply allCreate_about. by apply Hsub.
    - apply elem_of_app in Hs as [Hs|Hs].
      + split; [by apply allUpdate_type|]. apply allUpdate_names. by apply list_elem_of_fmap_2.
      + split.
        * destruct (unnamed_elem _ _ s Hun ltac:(set_solver)) as (x & Hx & [= _ _ _ _ -> _]).
          by apply allCreate_about.
        * apply allDelete_names, HDn. right. rewrite <-Hn. by apply list_elem_of_fmap_2.
    - apply allDelete_names, HDn. left. by apply list_elem_of_fmap_2. }
  unfold unnamed at 1. rewrite apply_all; try done.
  - rewrite (leftAlone_names E (allUpdate ++ renamed) D allUpdate allDelete).
    + unfold slicesAfter, unnamed in *. rewrite !fmap_app in *. rewrite <-!app_assoc, Hun. done.
    + intros n. rewrite HDn, fmap_app, elem_of_app, Hn. tauto.
  - intros s Hs. by apply HEok.
  - intros s Hs%Hsub. by apply allCreate_about.
  - rewrite fmap_app, Hn. apply NoDup_app. split_and!; [apply allUpdate_NoDup| |done].
    intros n Hu Hr. apply (all_disjoint n Hu), HDn. by right.
  - intros n. rewrite fmap_app, Hn, elem_of_app.
    intros [Hu|Hr]; [by apply allUpdate_names|apply allDelete_names, HDn; by right].
  - intros n Hd. apply allDelete_names, HDn. by left.
  - intros n. rewrite fmap_app, Hn, elem_of_app. intros [Hu|Hr] Hd.
    + apply (all_disjoint n Hu), HDn. by left.
    + by apply (Hdr n).
Qed.
End converge.

(** ** Slices up to their names *)
Lemma hashes_filter_unnamed hash NewPortMapKey k l :
  hashes hash (filter (λ s, portKey NewPortMapKey s = k) (unnamed l))
  = hashes hash (filter (λ s, portKey NewPortMapKey s = k) l).
Proof.
  induction l as [|s l IH]; [done|]. unfold unnamed. rewrite fmap_cons, !filter_cons.
  change (portKey NewPortMapKey (set_name "" s)) with (portKey NewPortMapKey s).
  case_decide; [|exact IH]. unfold hashes in *. rewrite !bind_cons. f_equal. exact IH.
Qed.


(** Slices that, group by group, hold exactly one up to date endpoint for each workload with
    an address of the type. *)
Definition converged (hash : Endpoint → string) (eqb : Endpoint → Endpoint → bool)
    (NewPortMapKey : list EndpointPort → string) (IsIPv6String : string → bool) (svc : Service)
    (addrType : string) (ews : list ExternalWorkload) (slices : list EndpointSlice) : Prop :=
  let endpoint ew := externalWorkloadToEndpoint IsIPv6String addrType ew svc in
  let ports ew := NewPortMapKey (findEndpointPorts svc ew) in
  (∀ s, s ∈ slices → ownedBy s svc = true)
  ∧ ∀ k, let group := filter (λ s, portKey NewPortMapKey s = k) slices in
      NoDup (hashes hash group)
      ∧ (∀ ew, ew ∈ ews → ports ew = k → e_Addresses (endpoint ew) ≠ [] →
           hash (endpoint ew) ∈ hashes hash group)
      ∧ (∀ s e, s ∈ group → e ∈ sl_Endpoints s →
           ∃ ew, ew ∈ ews ∧ ports ew = k ∧ hash (endpoint ew) = hash e
             ∧ (endpoint ew = e ∨ eqb (endpoint ew) e = true)).

Lemma reconcileByAddressType_converges hash eqb NewPortMapKey IsIPv6String controllerName max
    `{!MapRange} api svc ews existing addrType :
  (1 ≤ max)%nat → NoDup (sl_Name <$> existing) →
  (∀ s, s ∈ existing → (length (sl_Endpoints s) ≤ max)%nat ∧ sl_Name s ≠ ""
     ∧ sl_AddressType s = addrType) →
  svc_DeletionTimestamp svc = false → (∀ w, api w = None) →
  ∃ ws, reconcileByAddressType hash eqb NewPortMapKey IsIPv6String controllerName max
          api svc ews existing addrType = (Ok (), ws)
    ∧ (∀ w, w ∈ ws → about addrType (sl_Name <$> existing) w)
    ∧ let final := foldl applyWrite existing ws in
      (∀ s, s ∈ final → sl_AddressType s = addrType ∧ (length (sl_Endpoints s) ≤ max)%nat)
      ∧ converged hash eqb NewPortMapKey IsIPv6String svc addrType ews final.
Proof.
  intros Hmax HE HEok Hdel Hapi. unfold reconcileByAddressType. rewrite diffByAddressType_all.
  destruct (finalize_after hash eqb NewPortMapKey IsIPv6String controllerName max svc addrType
    existing ews Hmax HE HEok api Hdel Hapi) as (ws & -> & Hp & Habout).
  exists ws. split; [done|]. split; [done|].
  set (after := slicesAfter hash eqb NewPortMapKey IsIPv6String controllerName max svc addrType
    existing ews) in *. simpl.
  assert (∀ s, s ∈ foldl applyWrite existing ws → ownedBy s svc = true
    ∧ sl_AddressType s = addrType ∧ (length (sl_Endpoints s) ≤ max)%nat) as Hown.
  { intros s Hs. destruct (unnamed_elem _ _ s Hp Hs) as (s' & Hs' & [= _ _ _ Ho Ha He _]).
    unfold ownedBy. rewrite Ho, Ha, He. by eapply slicesAfter_owned. }
  split; [intros s Hs; by apply Hown|]. split; [intros s Hs; by apply Hown|]. intros k.
  destruct (slicesAfter_exact hash eqb NewPortMapKey IsIPv6String controllerName max svc addrType
    existing ews Hmax HE HEok k) as (Hnd & Hin & Hall). fold after in Hnd, Hin, Hall.
  assert (hashes hash (filter (λ s, portKey NewPortMapKey s = k) (foldl applyWrite existing ws))
    ≡ₚ hashes hash (filter (λ s, portKey NewPortMapKey s = k) after)) as Hh.
  { rewrite <-(hashes_filter_unnamed hash NewPortMapKey k after).
    rewrite <-(hashes_filter_unnamed hash NewPortMapKey k (foldl applyWrite existing ws)).
    apply hashes_perm. by rewrite Hp. }
  split_and!; [by rewrite Hh|intros ew; rewrite Hh; apply Hin|].
  intros s e [Hk Hs]%list_elem_of_filter He.
  destruct (unnamed_elem _ _ s Hp Hs) as (s' & Hs' & [= _ _ _ _ _ Hes Hports]).
  assert (portKey NewPortMapKey s' = k) as Hk' by (unfold portKey in *; by rewrite <-Hports).
  rewrite Hes in He. exact (Hall s' e Hs' Hk' He).
Qed.

(** * All address types *)
Section types.
Context (E : list EndpointSlice) (HE : NoDup (sl_Name <$> E)) (Hne : ∀ s, s ∈ E → sl_Name s ≠ "").

Definition ofType (t : string) (l : list EndpointSlice) : list EndpointSlice :=
  filter (λ s, sl_AddressType s = t) l.

(** The named slices keep the address type they had. *)
Definition typed (l : list EndpointSlice) : Prop :=
  ∀ x, x ∈ l → sl_Name x = "" ∨ ∃ e, e ∈ E ∧ sl_Name e = sl_Name x ∧ sl_AddressType e = sl_AddressType x.

Lemma typed_name l x t :
  typed l → x ∈ l → sl_Name x ∈ sl_Name <$> ofType t E → sl_AddressType x = t.
Proof.
  intros Hl Hx (e & He & [Ht Hin]%list_elem_of_filter)%list_elem_of_fmap.
  destruct (Hl x Hx) as [Hn|(e' & Hin' & Hn & <-)]; [by apply Hne in Hin; congruence|].
  assert (e = e') as -> by (eapply same_name; try done; congruence). done.
Qed.

Lemma applyWrite_about l w t :
  typed l → about t (sl_Name <$> ofType t E) w →
  typed (applyWrite l w) ∧ ofType t (applyWrite l w) = applyWrite (ofType t l) w
  ∧ ∀ a, a ≠ t → ofType a (applyWrite l w) = ofType a l.
Proof.
  intros Hl Hw. destruct w as [s|s|s]; simpl in Hw.
  - destruct Hw as [Ht Hn]. simpl. unfold ofType. split_and!.
    + intros x [Hx| ->%list_elem_of_singleton]%elem_of_app; [by apply Hl|by left].
    + rewrite filter_app. by rewrite filter_cons_True.
    + intros a Ha. rewrite filter_app, filter_cons_False by congruence. simpl. by rewrite app_nil_r.
  - destruct Hw as [Ht Hn].
    assert (∀ x, x ∈ l → sl_AddressType (replaced s x) = sl_AddressType x
      ∧ (sl_AddressType x ≠ t → replaced s x = x)) as Hr.
    { intros x Hx. unfold replaced. case_bool_decide as Heq; [|done].
      rewrite <-Heq in Hn. pose proof (typed_name l x t Hl Hx Hn). split; [congruence|done]. }
    simpl. split_and!.
    + intros y (x & -> & Hx)%list_elem_of_fmap. rewrite (proj1 (Hr x Hx)).
      assert (sl_Name (replaced s x) = sl_Name x) as -> by (unfold replaced; by case_bool_decide).
      by apply Hl.
    + clear Hl. unfold ofType. induction l as [|x l IH]; [done|]. rewrite fmap_cons, !filter_cons.
      rewrite (proj1 (Hr x ltac:(constructor))), IH by set_solver. by case_decide.
    + intros a Ha. clear Hl. unfold ofType. induction l as [|x l IH]; [done|].
      destruct (Hr x ltac:(constructor)) as [Hty Hid].
      rewrite fmap_cons, !filter_cons, Hty, IH by set_solver. case_decide; [|done].
      rewrite Hid by congruence. done.
  - simpl. unfold ofType. split_and!.
    + intros x [_ Hx]%list_elem_of_filter. by apply Hl.
    + rewrite !list_filter_filter. apply list_filter_iff. intros x. tauto.
    + intros a Ha. rewrite list_filter_filter. apply filter_ext_in. intros x Hx. split; [tauto|].
      intros Hta. split; [done|]. intros Heq. rewrite <-Heq in Hw.
      pose proof (typed_name l x t Hl Hx Hw). congruence.
Qed.

Lemma applyAll_about l ws t :
  typed l → (∀ w, w ∈ ws → about t (sl_Name <$> ofType t E) w) →
  typed (foldl applyWrite l ws) ∧ ofType t (foldl applyWrite l ws) = foldl applyWrite (ofType t l) ws
  ∧ ∀ a, a ≠ t → ofType a (foldl applyWrite l ws) = ofType a l.
Proof.
  revert l. induction ws as [|w ws IH]; intros l Hl Hws; simpl; [done|].
  destruct (applyWrite_about l w t Hl) as (Hl' & Ht & Ho); [apply Hws; constructor|].
  destruct (IH _ Hl') as (Hl2 & Ht2 & Ho2); [set_solver|]. split_and!; [done|by rewrite Ht2, Ht|].
  intros a Ha. by rewrite Ho2, Ho.
Qed.

(** The writes of one address type after the other. *)
Lemma applyTypes l (ts : list string) (f : string → list Write) :
  typed l → NoDup ts → (∀ t w, t ∈ ts → w ∈ f t → about t (sl_Name <$> ofType t E) w) →
  typed (foldl applyWrite l (ts ≫= f))
  ∧ ∀ a, ofType a (foldl applyWrite l (ts ≫= f))
         = if decide (a ∈ ts) then foldl applyWrite (ofType a l) (f a) else ofType a l.
Proof.
  revert l. induction ts as [|t ts IH]; intros l Hl Hnd Hf.
  { split; [done|]. intros a. by rewrite decide_False by apply not_elem_of_nil. }
  apply NoDup_cons in Hnd as [Hni Hnd]. rewrite bind_cons, foldl_app.
  destruct (applyAll_about l (f t) t Hl) as (Hl' & Ht & Ho); [set_solver|].
  destruct (IH _ Hl' Hnd) as [Hl2 Ha2]; [set_solver|]. split; [done|]. intros a. rewrite Ha2.
  destruct (decide (a = t)) as [->|Hat].
  - rewrite (decide_False (P := t ∈ ts)), decide_True by set_solver. done.
  - rewrite Ho by done. by destruct (decide (a ∈ ts)), (decide (a ∈ t :: ts)); set_solver.
Qed.

(** All writes of a reconciliation: the supported types, then the deletions of the others. *)
Lemma applyReconcile (supported : gset string) ts (f : string → list Write) :
  NoDup ts → (∀ t, t ∈ ts ↔ t ∈ supported) →
  (∀ t w, t ∈ ts → w ∈ f t → about t (sl_Name <$> ofType t E) w) →
  let final := foldl applyWrite E
    ((ts ≫= f) ++ (Delete <$> filter (λ s, sl_AddressType s ∉ supported) E)) in
  (∀ s, s ∈ final → sl_AddressType s ∈ supported)
  ∧ ∀ a, a ∈ supported → ofType a final = foldl applyWrite (ofType a E) (f a).
Proof.
  intros Hnd Hts Hf. assert (typed E) as HtE by (intros x Hx; right; by exists x).
  destruct (applyTypes E ts f HtE Hnd Hf) as [Hl Ha]. simpl. rewrite foldl_app, apply_deletes.
  set (l := foldl applyWrite E (ts ≫= f)) in *. split.
  - intros s [Hn Hs]%list_elem_of_filter. apply dec_stable. intros Hsup. apply Hn.
    assert (s ∈ ofType (sl_AddressType s) l) as Hin by (by apply list_elem_of_filter).
    rewrite Ha, decide_False in Hin by (by rewrite Hts).
    apply list_elem_of_filter in Hin as [_ Hin]. apply list_elem_of_fmap_2. by apply list_elem_of_filter.
  - intros a Hsup. pose proof (Ha a) as Hl'. rewrite decide_True in Hl' by (by apply Hts). rewrite <-Hl'.
    unfold ofType. rewrite list_filter_filter. apply filter_ext_in. intros x Hx. split; [tauto|].
    intros <-. split; [done|]. intros (e & Heq & [Hu He]%list_elem_of_filter)%list_elem_of_fmap.
    apply Hu. erewrite <-(typed_name l x (sl_AddressType e)); [done|done|done|].
    rewrite Heq. apply list_elem_of_fmap_2. by apply list_elem_of_filter.
Qed.
End types.

(** What [reconcile] leaves, for all address types. *)
Lemma reconcile_converges hash eqb NewPortMapKey IsIPv6String controllerName max `{!MapRange}
    api stored {T} `{!EndpointSliceTracker T} svc ews existing (tracker : T) :
  (1 ≤ max)%nat → NoDup (sl_Name <$> existing) →
  (∀ s, s ∈ existing → (length (sl_Endpoints s) ≤ max)%nat ∧ sl_Name s ≠ "") →
  svc_DeletionTimestamp svc = false → (∀ w, api w = None) →
  ∃ ws tracker', reconcile hash eqb NewPortMapKey IsIPv6String controllerName max api stored svc ews
                   existing tracker = ([], ws, tracker')
    ∧ let final := foldl applyWrite existing ws in
      (∀ s, s ∈ final → sl_AddressType s ∈ getSupportedAddressTypes svc
                        ∧ (length (sl_Endpoints s) ≤ max)%nat)
      ∧ ∀ addrType, addrType ∈ getSupportedAddressTypes svc →
          converged hash eqb NewPortMapKey IsIPv6String svc addrType ews (ofType addrType final).
Proof.
  intros Hmax HE HEok Hdel Hapi. unfold reconcile.
  set (supported := getSupportedAddressTypes svc).
  set (run t := reconcileByAddressType hash eqb NewPortMapKey IsIPv6String controllerName max api svc
                  ews (ofType t existing) t).
  assert (∀ t, (run t).1 = Ok () ∧ (∀ w, w ∈ (run t).2 → about t (sl_Name <$> ofType t existing) w)
    ∧ let final := foldl applyWrite (ofType t existing) (run t).2 in
      (∀ s, s ∈ final → sl_AddressType s = t ∧ (length (sl_Endpoints s) ≤ max)%nat)
      ∧ converged hash eqb NewPortMapKey IsIPv6String svc t ews final) as Hrun.
  { intros t. destruct (reconcileByAddressType_converges hash eqb NewPortMapKey IsIPv6String
      controllerName max api svc ews (ofType t existing) t Hmax) as (ws & Heq & Hrest); try done.
    - by apply NoDup_fmap_filter.
    - intros s [Ht Hs]%list_elem_of_filter. destruct (HEok s Hs). done.
    - unfold run. by rewrite Heq. }
  set (toDelete := filter (λ s, sl_AddressType s ∉ supported) existing).
  assert (((λ s, runWrites api [Delete s]) <$> toDelete) = (λ s, (Ok (), [Delete s])) <$> toDelete) as ->.
  { apply list_fmap_ext. intros i s _. simpl. by rewrite Hapi. }
  rewrite !bind_app, !list_fmap_bind. eexists _, _. split; [f_equal; f_equal|].
  - assert (∀ (l : list string), (l ≫= (λ r : res () * list Write, match r.1 with Err e => [e] | _ => [] end) ∘ run)
      = []) as Hnil by (induction l as [|t l IH]; [done|]; rewrite bind_cons, IH; simpl;
                        by rewrite (proj1 (Hrun t))).
    unfold run in Hnil. unfold ofType in Hnil. rewrite Hnil. simpl.
    by induction toDelete.
  - assert ((toDelete ≫= snd ∘ (λ s, (Ok (), [Delete s]))) = Delete <$> toDelete) as ->
      by (clear; by induction toDelete; f_equal/=).
    destruct (applyReconcile existing HE (λ s Hs, proj2 (HEok s Hs)) supported (range_set supported)
      (snd ∘ run)) as [Hsup Hof].
    + apply NoDup_range_set.
    + intros t. apply elem_of_range_set.
    + intros t w _ Hw. by apply Hrun.
    + cbv zeta. fold toDelete in Hsup, Hof. split.
      * intros s Hs. split; [by apply Hsup|]. specialize (Hof _ (Hsup s Hs)).
        destruct (Hrun (sl_AddressType s)) as (_ & _ & Hq & _). apply Hq.
        change ((run (sl_AddressType s)).2) with ((snd ∘ run) (sl_AddressType s)).
        rewrite <-Hof. by apply list_elem_of_filter.
      * intros a Ha. rewrite Hof by done. apply Hrun.
Qed.
