(* ===== verification/EwController.v ===== *)
(** [external-workload/endpoints_controller.go] and [external-workload/controller_util.go]:
    the controller that watches services, EndpointSlices and ExternalWorkloads, queues the
    services whose slices may have to change, and reconciles them one by one.

    The work queue, the keys and the label selectors of client-go and apimachinery are
    classes: operations with their documented laws.  The informer caches are a parameter of
    every handler.  Leader election, which only adds and removes the handlers, is not
    modelled. *)
From S2P Require Import Prelude GoStd K8s EwReconciler EwConvergence.

#[local] Open Scope string_scope.
#[local] Open Scope list_scope.
#[local] Open Scope Z_scope.

Definition managedBy : string := "linkerd-external-workloads-controller".
Definition maxEndpointsQuota : nat := 100.
Definition maxRetryBudget : Z := 15.

(** * What the controller uses of client-go *)
(** An object handed to an event handler.  A deletion the informer missed arrives as a
    tombstone around the last known state. *)
Inductive Object :=
  | ServiceObj (svc : Service)
  | EndpointSliceObj (es : option EndpointSlice)
  | ExternalWorkloadObj (ew : ExternalWorkload)
  | DeletedFinalStateUnknown (obj : Object)
  | OtherObj.

(** The keys of the cache, [<namespace>/<name>], and the label selectors made from a set. *)
Class ClientGo := {
  metaKey : string → string → string;
  MetaNamespaceKeyFunc : Object → res string;
  SplitMetaNamespaceKey : string → res (string * string);
  ServiceControllerKey : EndpointSlice → res string;
  Matches : strmap → strmap → bool;  (* selector, labels *)
  MetaNamespaceKeyFunc_service svc :
    MetaNamespaceKeyFunc (ServiceObj svc) = Ok (metaKey (svc_Namespace svc) (svc_Name svc));
  SplitMetaNamespaceKey_metaKey ns name :
    ns ≠ "" → name ≠ "" → strings.Contains ns "/" = false → strings.Contains name "/" = false →
    SplitMetaNamespaceKey (metaKey ns name) = Ok (ns, name);
  Matches_subseteq sel ls : Matches sel ls = true ↔ sel ⊆ ls }.

(** The rate-limited work queue: [pending] are the keys that [Get] will return at some
    point, now or after a delay. *)
Class RateLimitingQueue (Q : Type) := {
  pending : Q → gset string;
  NumRequeues : Q → string → Z;
  queueAdd : string → Q → Q;
  AddRateLimited : string → Q → Q;
  Forget : string → Q → Q;
  queueGet : Q → option (string * Q);  (* [None]: shutting down *)
  queueDone : string → Q → Q;
  pending_Add k q : pending (queueAdd k q) = {[k]} ∪ pending q;
  pending_AddRateLimited k q : pending (AddRateLimited k q) = {[k]} ∪ pending q;
  pending_Forget k q : pending (Forget k q) = pending q;
  pending_Get k q q' : queueGet q = Some (k, q') → k ∈ pending q ∧ pending q' = pending q ∖ {[k]};
  pending_Done k q : pending (queueDone k q) = pending q;
  NumRequeues_Add k q k' : NumRequeues (queueAdd k q) k' = NumRequeues q k';
  NumRequeues_AddRateLimited k q k' :
    NumRequeues (AddRateLimited k q) k' = NumRequeues q k' + if bool_decide (k = k') then 1 else 0;
  NumRequeues_Forget k q k' :
    NumRequeues (Forget k q) k' = if bool_decide (k = k') then 0 else NumRequeues q k';
  NumRequeues_Get k q q' k' : queueGet q = Some (k, q') → NumRequeues q' k' = NumRequeues q k';
  NumRequeues_Done k q k' : NumRequeues (queueDone k q) k' = NumRequeues q k' }.

(** The result of [Lister().Services(ns).Get(name)]. *)
Inductive GetResult := Found (svc : Service) | NotFound | GetError (msg : string).

(** The informer caches: the services of a namespace, and the ExternalWorkloads and
    EndpointSlices of all namespaces, which [List] filters with a selector. *)
Record Cache := mkCache {
  cache_Service : string → string → GetResult;
  cache_Services : string → res (list Service);
  cache_ExternalWorkloads : res (list ExternalWorkload);
  cache_EndpointSlices : res (list EndpointSlice) }.

(** * controller_util.go *)
Definition determineNeededServiceUpdates (oldServices services : gset string) (specChanged : bool)
    : gset string :=
  if specChanged then services ∪ oldServices
  else (services ∖ oldServices) ∪ (oldServices ∖ services).

Definition getEndpointSliceFromDeleteAction (obj : Object) : option EndpointSlice :=
  match obj with
  | EndpointSliceObj es => es
  | DeletedFinalStateUnknown (EndpointSliceObj es) => es
  | _ => None
  end.

Definition getExternalWorkloadFromDeleteAction (obj : Object) : option ExternalWorkload :=
  match obj with
  | ExternalWorkloadObj ew => Some ew
  | DeletedFinalStateUnknown (ExternalWorkloadObj ew) => Some ew
  | _ => None
  end.

(** [portSet]: the ports by number, the last one of a number winning. *)
Definition portSet (ports : list PortSpec) : gmap Z PortSpec :=
  foldl (λ m ps, <[ps_Port ps := ps]> m) ∅ ports.

(** Deletion timestamps are compared as pointers. *)
Definition ewEndpointsChanged (oldEw newEw : ExternalWorkload) : bool * bool :=
  let labelsChanged := bool_decide (ew_Labels newEw ≠ ew_Labels oldEw) in
  let changed :=
    if bool_decide (ew_DeletionTimestamp newEw ≠ ew_DeletionTimestamp oldEw) then true
    else if negb (eqb (IsEwReady oldEw) (IsEwReady newEw)) then true
    else if bool_decide (length (ew_WorkloadIPs oldEw) ≠ length (ew_WorkloadIPs newEw)) then true
    else if existsb (λ ips, bool_decide (ips.1 ≠ ips.2))
              (zip (ew_WorkloadIPs oldEw) (ew_WorkloadIPs newEw)) then true
    else if bool_decide (length (ew_Ports oldEw) ≠ length (ew_Ports newEw)) then true
    else existsb (λ oldPs,
           match portSet (ew_Ports newEw) !! ps_Port oldPs with
           | None => true
           | Some newPs => bool_decide (ps_Name newPs ≠ ps_Name oldPs ∨
                                        ps_Protocol newPs ≠ ps_Protocol oldPs)
           end) (ew_Ports oldEw) in
  (changed, labelsChanged).

Definition managedByController (es : EndpointSlice) : bool :=
  bool_decide (managedBy = get (sl_Labels es) LabelManagedBy).

Definition managedByChanged (es1 es2 : EndpointSlice) : bool :=
  negb (eqb (managedByController es1) (managedByController es2)).

Section membership.
Context `{!ClientGo}.

(** The loop of [getExternalWorkloadSvcMembership]. *)
Fixpoint membership (services : list Service) (ls : strmap) (keys : gset string)
    : res (gset string) :=
  match services with
  | [] => Ok keys
  | svc :: services =>
      match svc_Selector svc with
      | None => membership services ls keys
      | Some selector =>
          (let* key := MetaNamespaceKeyFunc (ServiceObj svc) in
           membership services ls (if Matches selector ls then {[key]} ∪ keys else keys))%go
      end
  end.
Definition getExternalWorkloadSvcMembership (c : Cache) (workload : ExternalWorkload)
    : res (gset string) :=
  (let* services := cache_Services c (ew_Namespace workload) in
   membership services (ew_Labels workload) ∅)%go.

Definition getServicesToUpdateOnExternalWorkloadChange (c : Cache) (old cur : Object) : gset string :=
  match old, cur with
  | ExternalWorkloadObj oldEw, ExternalWorkloadObj newEw =>
      if bool_decide (ew_ResourceVersion newEw = ew_ResourceVersion oldEw) then ∅ else
      let '(ewChanged, labelsChanged) := ewEndpointsChanged oldEw newEw in
      if negb ewChanged && negb labelsChanged then ∅ else
      match getExternalWorkloadSvcMembership c newEw with
      | Ok services =>
          if labelsChanged then
            determineNeededServiceUpdates
              (default ∅ (res_ok (getExternalWorkloadSvcMembership c oldEw))) services ewChanged
          else services
      | _ => ∅
      end
  | _, _ => ∅
  end.
End membership.

(** * endpoints_controller.go *)
Record EndpointsController (T Q : Type) := mkController {
  endpointTracker : T; queue : Q; dropsMetric : Z }.
Arguments mkController {_ _} _ _ _.
Arguments endpointTracker {_ _} _.
Arguments queue {_ _} _.
Arguments dropsMetric {_ _} _.

Definition dropEndpointSlicesPendingDeletion (slices : list EndpointSlice) : list EndpointSlice :=
  filter (λ s, sl_DeletionTimestamp s = false) slices.

Section controller.
Context {T Q : Type} `{!EndpointSliceTracker T} `{!RateLimitingQueue Q} `{!ClientGo} `{!MapRange}.
Context (hash : Endpoint → string) (EndpointsEqualBeyondHash : Endpoint → Endpoint → bool).
Context (NewPortMapKey : list EndpointPort → string) (IsIPv6String : string → bool).
Implicit Types (ec : EndpointsController T Q) (c : Cache).

Definition set_tracker (t : T) ec : EndpointsController T Q := mkController t (queue ec) (dropsMetric ec).
Definition set_queue (q : Q) ec : EndpointsController T Q :=
  mkController (endpointTracker ec) q (dropsMetric ec).
Definition enqueue (key : string) ec : EndpointsController T Q := set_queue (queueAdd key (queue ec)) ec.

(** [for svc := range services { ec.queue.Add(svc) }] *)
Definition enqueueAll (keys : gset string) ec : EndpointsController T Q :=
  foldr enqueue ec (range_set keys).

Definition queueServiceForEndpointSlice (es : EndpointSlice) ec : EndpointsController T Q :=
  match ServiceControllerKey es with Ok key => enqueue key ec | _ => ec end.

Definition onServiceUpdate (obj : Object) ec : EndpointsController T Q :=
  match MetaNamespaceKeyFunc obj with
  | Ok key =>
      let namespace := match SplitMetaNamespaceKey key with Ok (ns, _) => ns | _ => "" end in
      if bool_decide (namespace = "kube-system") then ec else enqueue key ec
  | _ => ec
  end.

(** A type assertion that does not hold panics. *)
Definition onEndpointSliceAdd (obj : Object) ec : res (EndpointsController T Q) :=
  match obj with
  | EndpointSliceObj None => Ok ec
  | EndpointSliceObj (Some es) =>
      Ok (if managedByController es && ShouldSync es (endpointTracker ec)
          then queueServiceForEndpointSlice es ec else ec)
  | _ => Panic
  end.

Definition onEndpointSliceUpdate (prevObj obj : Object) ec : res (EndpointsController T Q) :=
  match prevObj, obj with
  | EndpointSliceObj prev, EndpointSliceObj cur =>
      match prev, cur with
      | Some prev, Some es =>
          let svcName := get (sl_Labels es) LabelServiceName in
          let prevSvcName := get (sl_Labels prev) LabelServiceName in
          Ok (if bool_decide (svcName ≠ prevSvcName) then
                queueServiceForEndpointSlice prev (queueServiceForEndpointSlice es ec)
              else if managedByChanged prev es
                      || (managedByController es && ShouldSync es (endpointTracker ec))
              then queueServiceForEndpointSlice es ec else ec)
      | _, _ => Ok ec
      end
  | _, _ => Panic
  end.

Definition onEndpointSliceDelete (obj : Object) ec : EndpointsController T Q :=
  match getEndpointSliceFromDeleteAction obj with
  | Some es =>
      if managedByController es && Has es (endpointTracker ec) then
        let '(expected, t) := HandleDeletion es (endpointTracker ec) in
        let ec := set_tracker t ec in
        if expected then ec else queueServiceForEndpointSlice es ec
      else ec
  | None => ec
  end.

Definition onAddExternalWorkload c (obj : Object) ec : EndpointsController T Q :=
  match obj with
  | ExternalWorkloadObj ew =>
      match getExternalWorkloadSvcMembership c ew with
      | Ok services => enqueueAll services ec
      | _ => ec
      end
  | _ => ec
  end.

Definition onUpdateExternalWorkload c (old cur : Object) ec : EndpointsController T Q :=
  enqueueAll (getServicesToUpdateOnExternalWorkloadChange c old cur) ec.

Definition onDeleteExternalWorkload c (obj : Object) ec : EndpointsController T Q :=
  match getExternalWorkloadFromDeleteAction obj with
  | Some ew => onAddExternalWorkload c (ExternalWorkloadObj ew) ec
  | None => ec
  end.

Definition handleError (err : res ()) (key : string) ec : EndpointsController T Q :=
  match err with
  | Ok _ => set_queue (Forget key (queue ec)) ec
  | _ =>
      if NumRequeues (queue ec) key <? maxRetryBudget
      then set_queue (AddRateLimited key (queue ec)) ec
      else mkController (endpointTracker ec) (Forget key (queue ec)) (dropsMetric ec + 1)
  end.

(** The labels by which the controller selects its slices of a service. *)
Definition sliceSelector (svc : Service) : strmap :=
  <[LabelServiceName := svc_Name svc]> {[LabelManagedBy := managedBy]}.

Section sync.
Context (api : Write → option WriteError) (stored : EndpointSlice → EndpointSlice).

(** The error, the writes that succeeded and the state after them. *)
Definition syncService c (update : string) ec : res () * list Write * EndpointsController T Q :=
  match SplitMetaNamespaceKey update with
  | Err e => (Err e, [], ec)
  | Panic => (Panic, [], ec)
  | Ok (namespace, name) =>
      match cache_Service c namespace name with
      | GetError msg => (Err msg, [], ec)
      | NotFound => (Ok (), [], set_tracker (DeleteService namespace name (endpointTracker ec)) ec)
      | Found svc =>
          if bool_decide (svc_Type svc = ServiceTypeExternalName) then (Ok (), [], ec) else
          match svc_Selector svc with
          | None => (Ok (), [], ec)
          | Some selector =>
              match cache_ExternalWorkloads c, cache_EndpointSlices c with
              | Ok ews, Ok slices =>
                  let ews := filter (λ ew, Matches selector (ew_Labels ew) = true) ews in
                  let slices := filter (λ s, Matches (sliceSelector svc) (sl_Labels s) = true) slices in
                  let slices := dropEndpointSlicesPendingDeletion slices in
                  if StaleSlices svc slices (endpointTracker ec)
                  then (Err "EndpointSlice informer cache is out of date", [], ec)
                  else
                    let '(errs, done, t) :=
                      reconcile hash EndpointsEqualBeyondHash NewPortMapKey IsIPv6String managedBy
                        maxEndpointsQuota api stored svc ews slices (endpointTracker ec) in
                    (match errs with [] => Ok () | _ => Err (strings.Join errs ", ") end,
                     done, set_tracker t ec)
              | Err e, _ => (Err e, [], ec)
              | Ok _, Err e => (Err e, [], ec)
              | _, _ => (Panic, [], ec)
              end
          end
      end
  end.

(** One round of [processQueue]; [None] when the queue is shutting down. *)
Definition processQueue c ec : option (list Write * EndpointsController T Q) :=
  match queueGet (queue ec) with
  | None => None
  | Some (key, q) =>
      let '(err, done, ec) := syncService c key (set_queue q ec) in
      let ec := handleError err key ec in
      Some (done, set_queue (queueDone key (queue ec)) ec)
  end.
End sync.
End controller.

(** * Which services an ExternalWorkload update concerns *)
(** [new] is a later version of the object [old]: one resource version is one version. *)
Definition laterVersion (old new : ExternalWorkload) : Prop :=
  ew_Namespace old = ew_Namespace new ∧ ew_Name old = ew_Name new ∧ ew_UID old = ew_UID new
  ∧ (ew_ResourceVersion old = ew_ResourceVersion new → old = new).

(** No port is listed twice, and a name belongs to one port. *)
Definition portsWf (ports : list PortSpec) : Prop :=
  NoDup ports ∧ ∀ p q, p ∈ ports → q ∈ ports → ps_Name p = ps_Name q → ps_Name p ≠ "" → p = q.

(** ** Lemmas *)
(** A search for an element that only one can be finds it in any order. *)
Lemma list_find_unique {A} (P : A → Prop) `{∀ x, Decision (P x)} (l1 l2 : list A) :
  l1 ≡ₚ l2 → (∀ x y, x ∈ l1 → y ∈ l1 → P x → P y → x = y) →
  snd <$> list_find P l1 = snd <$> list_find P l2.
Proof.
  intros Hp Hu. destruct (list_find P l1) as [[i x]|] eqn:H1, (list_find P l2) as [[j y]|] eqn:H2;
    simpl; [|exfalso..|done].
  - apply list_find_Some in H1 as (H1 & Px & _), H2 as (H2 & Py & _).
    apply list_elem_of_lookup_2 in H1, H2. f_equal. apply Hu; try done. by rewrite Hp.
  - apply list_find_Some in H1 as (H1 & Px & _). apply list_elem_of_lookup_2 in H1.
    apply list_find_None in H2. rewrite Forall_forall in H2. apply (H2 x); [by rewrite <-Hp|done].
  - apply list_find_Some in H2 as (H2 & Py & _). apply list_elem_of_lookup_2 in H2.
    apply list_find_None in H1. rewrite Forall_forall in H1. apply (H1 y); [by rewrite Hp|done].
Qed.

Lemma portSet_lookup ports n p :
  portSet ports !! n = Some p → p ∈ ports ∧ ps_Port p = n.
Proof.
  unfold portSet. induction ports as [|q ports IH] using rev_ind; [done|].
  rewrite foldl_app. simpl. intros [[<- <-]|[Hne Hp]]%lookup_insert_Some; [set_solver|].
  apply IH in Hp as [? ?]. set_solver.
Qed.

Lemma portSet_complete ports p :
  NoDup (ps_Port <$> ports) → p ∈ ports → portSet ports !! ps_Port p = Some p.
Proof.
  unfold portSet. induction ports as [|q ports IH] using rev_ind; [by intros _ ?%not_elem_of_nil|].
  rewrite fmap_app, foldl_app. simpl. intros (Hnd & Hd & _)%NoDup_app Hp.
  apply elem_of_app in Hp as [Hp|Hp%list_elem_of_singleton].
  - rewrite lookup_insert_ne; [by apply IH|]. intros Heq. apply (Hd (ps_Port p)).
    + by apply list_elem_of_fmap_2.
    + rewrite Heq. set_solver.
  - subst q. by rewrite lookup_insert_eq.
Qed.

(** What it means that nothing an endpoint depends on has changed. *)
Lemma ewEndpointsChanged_false old new labelsChanged :
  ewEndpointsChanged old new = (false, labelsChanged) →
  IsEwReady old = IsEwReady new ∧ ew_WorkloadIPs old = ew_WorkloadIPs new
  ∧ length (ew_Ports old) = length (ew_Ports new)
  ∧ ∀ p, p ∈ ew_Ports old → portSet (ew_Ports new) !! ps_Port p = Some p.
Proof.
  unfold ewEndpointsChanged. intros [= Hc _].
  destruct (bool_decide (ew_DeletionTimestamp new ≠ _)); [done|].
  destruct (eqb (IsEwReady old) (IsEwReady new)) eqn:Hr; [|done]. apply eqb_prop in Hr.
  simpl in Hc. destruct (bool_decide (length (ew_WorkloadIPs old) ≠ _)) eqn:Hl; [done|].
  apply bool_decide_eq_false in Hl. apply dec_stable in Hl.
  destruct (existsb _ (zip _ _)) eqn:Hips; [done|].
  destruct (bool_decide (length (ew_Ports old) ≠ _)) eqn:Hlp; [done|].
  apply bool_decide_eq_false in Hlp. apply dec_stable in Hlp. split_and!; [done| |done|].
  - revert Hl Hips. generalize (ew_WorkloadIPs old) as l1, (ew_WorkloadIPs new) as l2.
    induction l1 as [|x l1 IH]; intros [|y l2] Hl He; try done. simpl in He.
    apply orb_false_iff in He as [Hxy%bool_decide_eq_false He].
    apply dec_stable in Hxy as ->. f_equal. apply IH; [by injection Hl|done].
  - intros p Hp. destruct (portSet (ew_Ports new) !! ps_Port p) as [q|] eqn:Hq; last first.
    { exfalso. apply not_true_iff_false in Hc. apply Hc, existsb_exists. exists p.
      rewrite <-list_elem_of_In, Hq. by split. }
    f_equal. apply not_true_iff_false in Hc.
    destruct (decide (ps_Name q ≠ ps_Name p ∨ ps_Protocol q ≠ ps_Protocol p)) as [Hne|Hne].
    { destruct Hc. apply existsb_exists. exists p. rewrite <-list_elem_of_In, Hq. split; [done|].
      by apply bool_decide_true. }
    apply portSet_lookup in Hq as [_ Hport]. destruct p as [pn pp pr], q as [qn qp qr]. simpl in *.
    assert (qn = pn) as -> by (apply dec_stable; tauto).
    assert (qr = pr) as -> by (apply dec_stable; tauto). by subst.
Qed.

(** The ports are then the same up to their order, and have distinct numbers. *)
Lemma unchanged_ports_perm old new :
  NoDup (ew_Ports old) → length (ew_Ports old) = length (ew_Ports new) →
  (∀ p, p ∈ ew_Ports old → portSet (ew_Ports new) !! ps_Port p = Some p) →
  ew_Ports old ≡ₚ ew_Ports new
  ∧ ∀ p q, p ∈ ew_Ports old → q ∈ ew_Ports old → ps_Port p = ps_Port q → p = q.
Proof.
  intros Hnd Hl Hp. split.
  - apply submseteq_length_Permutation; [|lia]. apply NoDup_submseteq; [done|].
    intros p Hin. by apply Hp, portSet_lookup in Hin as [? _].
  - intros p q Hpp Hq Heq. apply Hp in Hpp. apply Hp in Hq. rewrite Heq in Hpp. congruence.
Qed.

Lemma findWorkloadPort_perm old new svcPort :
  ew_Ports old ≡ₚ ew_Ports new → portsWf (ew_Ports old) →
  (∀ p q, p ∈ ew_Ports old → q ∈ ew_Ports old → ps_Port p = ps_Port q → p = q) →
  sp_TargetPort svcPort ≠ FromString "" →
  findWorkloadPort old svcPort = findWorkloadPort new svcPort.
Proof.
  intros Hp [Hnd Hname] Hport Hne. unfold findWorkloadPort.
  match goal with |- match ?f1 with _ => _ end = match ?f2 with _ => _ end =>
    assert (snd <$> f1 = snd <$> f2) as He end.
  { destruct (sp_TargetPort svcPort) as [i|name]; apply list_find_unique; try done.
    - intros x y Hx Hy [Hxn _] [Hyn _]. apply Hport; congruence.
    - intros x y Hx Hy [Hxn _] [Hyn _]. apply Hname; try done; [congruence|].
      intros He. apply Hne. congruence. }
  repeat case_match; simplify_eq/=; done.
Qed.

Section update.
Context `{!ClientGo}.

Definition svcKey (svc : Service) : string := metaKey (svc_Namespace svc) (svc_Name svc).

Lemma membership_spec services ls keys :
  ∃ ks, membership services ls keys = Ok ks ∧
    ∀ k, k ∈ ks ↔ k ∈ keys ∨ ∃ svc sel, svc ∈ services ∧ svc_Selector svc = Some sel ∧ sel ⊆ ls
                              ∧ k = svcKey svc.
Proof.
  revert keys. induction services as [|svc services IH]; intros keys; simpl.
  { exists keys. split; [done|]. intros k. set_solver. }
  destruct (svc_Selector svc) as [sel|] eqn:Hs.
  - rewrite MetaNamespaceKeyFunc_service. simpl. fold (svcKey svc).
    destruct (IH (if Matches sel ls then {[svcKey svc]} ∪ keys else keys)) as (ks & -> & Hks).
    exists ks. split; [done|]. intros k. rewrite Hks.
    destruct (Matches sel ls) eqn:Hm.
    + apply Matches_subseteq in Hm. setoid_rewrite elem_of_cons. set_solver.
    + assert (¬ sel ⊆ ls) as Hn by (rewrite <-Matches_subseteq, Hm; done).
      setoid_rewrite elem_of_cons. split; [naive_solver|].
      intros [?|(s & se & [->|?] & ? & ? & ?)]; naive_solver.
  - destruct (IH keys) as (ks & -> & Hks). exists ks. split; [done|]. intros k. rewrite Hks.
    setoid_rewrite elem_of_cons. naive_solver.
Qed.

(** The services of the namespace that select a workload. *)
Lemma getExternalWorkloadSvcMembership_spec c ew services :
  cache_Services c (ew_Namespace ew) = Ok services →
  ∃ ks, getExternalWorkloadSvcMembership c ew = Ok ks ∧
    ∀ k, k ∈ ks ↔ ∃ svc sel, svc ∈ services ∧ svc_Selector svc = Some sel
                     ∧ sel ⊆ ew_Labels ew ∧ k = svcKey svc.
Proof.
  intros Hc. unfold getExternalWorkloadSvcMembership. rewrite Hc. simpl.
  destruct (membership_spec services (ew_Labels ew) ∅) as (ks & -> & Hks).
  exists ks. split; [done|]. intros k. rewrite Hks. set_solver.
Qed.
End update.

(** The client library, for the concrete evaluations. *)
Definition simpleMetaKey (ns name : string) : string := ns +:+ "/" +:+ name.
Definition simpleSplit (key : string) : res (string * string) :=
  match strings.Split key "/" with
  | [name] => Ok ("", name)
  | [ns; name] => Ok (ns, name)
  | _ => Err "unexpected key format"
  end.
Definition simpleKeyFunc (obj : Object) : res string :=
  match obj with
  | ServiceObj svc => Ok (simpleMetaKey (svc_Namespace svc) (svc_Name svc))
  | _ => Err "object has no meta"
  end.
Definition simpleControllerKey (es : EndpointSlice) : res string :=
  match sl_Labels es !! LabelServiceName with
  | Some name => Ok (simpleMetaKey (sl_Namespace es) name)
  | None => Err "endpoint slice has no service name label"
  end.
Definition simpleMatches (sel ls : strmap) : bool := bool_decide (sel ⊆ ls).

Lemma simpleSplit_metaKey ns name :
  ns ≠ "" → name ≠ "" → strings.Contains ns "/" = false → strings.Contains name "/" = false →
  simpleSplit (simpleMetaKey ns name) = Ok (ns, name).
Proof.
  intros _ _ Hns Hname. unfold simpleSplit, simpleMetaKey.
  change (ns +:+ "/" +:+ name) with (ns +:+ String "/" name).
  by rewrite strings.Split_app, strings.Split_absent.
Qed.
Lemma simpleMatches_subseteq sel ls : simpleMatches sel ls = true ↔ sel ⊆ ls.
Proof. apply bool_decide_eq_true. Qed.

#[export] Instance simpleClientGo : ClientGo := {|
  metaKey := simpleMetaKey; MetaNamespaceKeyFunc := simpleKeyFunc;
  SplitMetaNamespaceKey := simpleSplit; ServiceControllerKey := simpleControllerKey;
  Matches := simpleMatches; MetaNamespaceKeyFunc_service := λ svc, eq_refl;
  SplitMetaNamespaceKey_metaKey := simpleSplit_metaKey;
  Matches_subseteq := simpleMatches_subseteq |}.

(** What an endpoint is made of, unchanged. *)
Lemma unchanged_endpoint IsIPv6String addrType old new svc labelsChanged :
  laterVersion old new → portsWf (ew_Ports old) →
  ew_Labels old !! LabelTopologyZone = ew_Labels new !! LabelTopologyZone →
  (∀ sp, sp ∈ svc_Ports svc → sp_TargetPort sp ≠ FromString "") →
  ewEndpointsChanged old new = (false, labelsChanged) →
  externalWorkloadToEndpoint IsIPv6String addrType old svc
    = externalWorkloadToEndpoint IsIPv6String addrType new svc
  ∧ findEndpointPorts svc old = findEndpointPorts svc new.
Proof.
  intros (Hns & Hnm & Huid & _) Hwf Hzone Htp Hch.
  apply ewEndpointsChanged_false in Hch as (Hr & Hips & Hl & Hp).
  destruct (unchanged_ports_perm old new (proj1 Hwf) Hl Hp) as [Hperm Huniq]. split.
  - unfold externalWorkloadToEndpoint. by rewrite Hr, Hips, Hns, Hnm, Huid, Hzone.
  - unfold findEndpointPorts. destruct (bool_decide _); [done|].
    apply list_omap_ext, Forall_Forall2_diag, Forall_forall. intros sp Hsp.
    by rewrite (findWorkloadPort_perm old new sp) by (done || by apply Htp).
Qed.

Section complete.
Context `{!ClientGo}.

(** A key of the membership stands for one service. *)
Lemma membership_unique c ew services ks svc sel :
  NoDup (svcKey <$> services) → cache_Services c (ew_Namespace ew) = Ok services →
  getExternalWorkloadSvcMembership c ew = Ok ks → svc ∈ services → svc_Selector svc = Some sel →
  svcKey svc ∈ ks ↔ sel ⊆ ew_Labels ew.
Proof.
  intros Hnd Hc Hks Hsvc Hsel.
  destruct (getExternalWorkloadSvcMembership_spec c ew services Hc) as (ks' & Hks' & Hin).
  rewrite Hks in Hks'. injection Hks' as <-. rewrite Hin. split; [|eauto 6].
  intros (s & se & Hs & Hse & Hsub & Heq).
  assert (s = svc) as ->; [|by simplify_eq].
  apply list_elem_of_lookup in Hs as [i Hi], Hsvc as [j Hj].
  assert (i = j) as ->; [|congruence].
  apply (NoDup_lookup (svcKey <$> services) i j (svcKey svc)); [done| |];
    rewrite list_lookup_fmap; [rewrite Hi, Heq|rewrite Hj]; done.
Qed.

(** no update is missed.  When an ExternalWorkload changes, a service of its namespace that
    is not queued selects the new version exactly when it selected the old one, and what
    the reconciler writes for it (the endpoint for every address type, and the ports it is
    grouped by) is the same, provided the topology zone label, which is no part of the
    comparison, did not change. *)
Theorem ew_update_complete IsIPv6String addrType c old new services svc sel :
  laterVersion old new → portsWf (ew_Ports old) →
  ew_Labels old !! LabelTopologyZone = ew_Labels new !! LabelTopologyZone →
  cache_Services c (ew_Namespace new) = Ok services → NoDup (svcKey <$> services) →
  svc ∈ services → svc_Selector svc = Some sel →
  (∀ sp, sp ∈ svc_Ports svc → sp_TargetPort sp ≠ FromString "") →
  svcKey svc ∉ getServicesToUpdateOnExternalWorkloadChange c
                 (ExternalWorkloadObj old) (ExternalWorkloadObj new) →
  (sel ⊆ ew_Labels old ↔ sel ⊆ ew_Labels new) ∧
  (sel ⊆ ew_Labels new →
     externalWorkloadToEndpoint IsIPv6String addrType old svc
       = externalWorkloadToEndpoint IsIPv6String addrType new svc
     ∧ findEndpointPorts svc old = findEndpointPorts svc new).
Proof.
  intros Hlater Hwf Hzone Hc Hnd Hsvc Hsel Htp.
  unfold getServicesToUpdateOnExternalWorkloadChange.
  destruct (bool_decide (ew_ResourceVersion new = _)) eqn:Hv.
  { apply bool_decide_eq_true in Hv. destruct Hlater as (_ & _ & _ & Hrv). by rewrite Hrv. }
  assert (cache_Services c (ew_Namespace old) = Ok services) as Hco
    by (destruct Hlater as [-> _]; done).
  destruct (getExternalWorkloadSvcMembership_spec c new services Hc) as (ks & Hks & _).
  destruct (getExternalWorkloadSvcMembership_spec c old services Hco) as (ko & Hko & _).
  pose proof (membership_unique c new services ks svc sel Hnd Hc Hks Hsvc Hsel) as Hn.
  pose proof (membership_unique c old services ko svc sel Hnd Hco Hko Hsvc Hsel) as Ho.
  destruct (ewEndpointsChanged old new) as [changed labelsChanged] eqn:Hch.
  assert (labelsChanged = false → ew_Labels new = ew_Labels old) as Hlab.
  { unfold ewEndpointsChanged in Hch. injection Hch as _ <-.
    intros Hd%bool_decide_eq_false. by apply dec_stable in Hd. }
  assert (changed = false → sel ⊆ ew_Labels new → _) as Hun
    by (intros -> _; exact (unchanged_endpoint IsIPv6String addrType old new svc _ Hlater Hwf
                              Hzone Htp Hch)).
  rewrite Hks, Hko. simpl. unfold determineNeededServiceUpdates.
  destruct changed, labelsChanged; simpl; intros Hnot.
  - rewrite not_elem_of_union, Hn, Ho in Hnot. tauto.
  - rewrite Hn in Hnot. rewrite Hlab in * by done. tauto.
  - rewrite elem_of_union, !elem_of_difference, Hn, Ho in Hnot.
    destruct (decide (sel ⊆ ew_Labels old)), (decide (sel ⊆ ew_Labels new)); tauto.
  - rewrite Hlab in * by done. tauto.
Qed.
End complete.

Section missed.
Context `{!ClientGo}.

Lemma ewEndpointsChanged_ports_kept old new :
  NoDup (ps_Port <$> ew_Ports old) → ew_Ports new = ew_Ports old →
  ew_WorkloadIPs new = ew_WorkloadIPs old → ew_Conditions new = ew_Conditions old →
  ew_DeletionTimestamp new = ew_DeletionTimestamp old →
  (ewEndpointsChanged old new).1 = false.
Proof.
  intros Hnd Hp Hips Hcond Hdt. unfold ewEndpointsChanged, IsEwReady. simpl.
  rewrite Hp, Hips, Hcond, Hdt, eqb_reflx. rewrite !bool_decide_false by tauto. simpl.
  assert (existsb (λ ips : string * string, bool_decide (ips.1 ≠ ips.2))
            (zip (ew_WorkloadIPs old) (ew_WorkloadIPs old)) = false) as ->.
  { clear Hips. induction (ew_WorkloadIPs old) as [|ip ips IH]; [done|]. simpl.
    by rewrite bool_decide_false by tauto. }
  apply not_true_iff_false. intros (p & Hin%list_elem_of_In & Hf)%existsb_exists.
  rewrite portSet_complete in Hf by done. apply bool_decide_eq_true in Hf. tauto.
Qed.

(** a change of topology zone is missed.  When the zone label of an ExternalWorkload is set
    to a new value and no service of its namespace selects on that label, no service is
    queued at all, although the endpoint of every service that selects the workload has
    changed: its zone is read from the label. *)
Theorem zone_change_missed IsIPv6String c old new services z :
  cache_Services c (ew_Namespace old) = Ok services →
  (∀ svc sel, svc ∈ services → svc_Selector svc = Some sel → sel !! LabelTopologyZone = None) →
  NoDup (ps_Port <$> ew_Ports old) → laterVersion old new →
  ew_Ports new = ew_Ports old → ew_WorkloadIPs new = ew_WorkloadIPs old →
  ew_Conditions new = ew_Conditions old → ew_DeletionTimestamp new = ew_DeletionTimestamp old →
  ew_Labels new = <[LabelTopologyZone := z]> (ew_Labels old) →
  ew_Labels old !! LabelTopologyZone ≠ Some z →
  getServicesToUpdateOnExternalWorkloadChange c (ExternalWorkloadObj old) (ExternalWorkloadObj new) = ∅
  ∧ ∀ addrType svc, externalWorkloadToEndpoint IsIPv6String addrType old svc
                    ≠ externalWorkloadToEndpoint IsIPv6String addrType new svc.
Proof.
  intros Hc Hsel Hnd (Hns & _ & _ & _) Hp Hips Hcond Hdt Hlab Hz. split.
  - unfold getServicesToUpdateOnExternalWorkloadChange.
    destruct (bool_decide (ew_ResourceVersion new = _)); [done|].
    pose proof (ewEndpointsChanged_ports_kept old new Hnd Hp Hips Hcond Hdt) as Hch.
    destruct (ewEndpointsChanged old new) as [changed labelsChanged]. simpl in Hch. subst changed.
    destruct labelsChanged; [|done]. simpl.
    destruct (getExternalWorkloadSvcMembership_spec c old services Hc) as (ko & Hko & Hino).
    rewrite Hns in Hc.
    destruct (getExternalWorkloadSvcMembership_spec c new services Hc) as (ks & Hks & Hin).
    rewrite Hks, Hko. simpl. unfold determineNeededServiceUpdates.
    assert (ks = ko) as ->; [|set_solver]. apply set_eq. intros k. rewrite Hin, Hino.
    split; intros (svc & sel & Hsvc & Hs & Hsub & ->); exists svc, sel; split_and!; try done.
    + rewrite Hlab in Hsub. rewrite <-(delete_id sel LabelTopologyZone) by eauto.
      apply (delete_mono _ _ LabelTopologyZone) in Hsub. rewrite delete_insert_eq in Hsub.
      etrans; [exact Hsub|apply delete_subseteq].
    + rewrite Hlab. apply insert_subseteq_r; eauto.
  - intros addrType svc Heq. apply (f_equal e_Zone) in Heq. simpl in Heq.
    rewrite Hlab, lookup_insert_eq in Heq. done.
Qed.
End missed.

(** A workload, the services of its namespace, and two later versions of the workload. *)
Definition ex_workload (rv : string) (ls : strmap) (ip : string) : ExternalWorkload :=
  mkExternalWorkload "vm" "ns" "uid1" rv ls ∅ [] "" "" [mkPortSpec "http" 80 "TCP"] [ip]
    [mkWorkloadCondition "Ready" "True"] None.
Definition ex_selecting (name app : string) : Service :=
  mkService name "ns" name ∅ ∅ "ClusterIP" "10.0.0.1" ["IPv4"] (Some {["app" := app]})
    [mkServicePort "" 80 "TCP" (FromString "http")] None false.
Definition ex_services : list Service := [ex_selecting "a" "a"; ex_selecting "b" "b"].
Definition ex_cache : Cache := mkCache
  (λ ns name, match list_find (λ s, svc_Namespace s = ns ∧ svc_Name s = name) ex_services with
              | Some (_, s) => Found s | None => NotFound end)
  (λ ns, Ok (filter (λ s, svc_Namespace s = ns) ex_services)) (Ok []) (Ok []).

Lemma ex_portsWf ls ip rv : portsWf (ew_Ports (ex_workload rv ls ip)).
Proof. split; [apply NoDup_singleton|]. simpl. intros p q ->%list_elem_of_singleton ->%list_elem_of_singleton. done. Qed.

Lemma ew_update_complete_witness :
  let old := ex_workload "1" {["app" := "a"]} "192.0.2.1" in
  let new := ex_workload "2" {["app" := "a"; "tier" := "x"]} "192.0.2.1" in
  externalWorkloadToEndpoint (λ _, false) "IPv4" old (ex_selecting "a" "a")
    = externalWorkloadToEndpoint (λ _, false) "IPv4" new (ex_selecting "a" "a").
Proof.
  intros old new.
  apply (ew_update_complete (λ _, false) "IPv4" ex_cache old new ex_services (ex_selecting "a" "a")
           {["app" := "a"]}).
  - split_and!; [reflexivity..|]. discriminate.
  - apply ex_portsWf.
  - reflexivity.
  - reflexivity.
  - apply (bool_decide_unpack _). vm_compute. exact I.
  - constructor.
  - reflexivity.
  - intros sp ->%list_elem_of_singleton. discriminate.
  - apply (bool_decide_unpack _). vm_compute. exact I.
  - apply (bool_decide_unpack _). vm_compute. exact I.
Defined.

Lemma zone_change_missed_witness :
  let old := ex_workload "1" {["app" := "a"]} "192.0.2.1" in
  let new := ex_workload "2" (<[LabelTopologyZone := "z1"]> {["app" := "a"]}) "192.0.2.1" in
  getServicesToUpdateOnExternalWorkloadChange ex_cache (ExternalWorkloadObj old)
    (ExternalWorkloadObj new) = ∅
  ∧ externalWorkloadToEndpoint (λ _, false) "IPv4" old (ex_selecting "a" "a")
      ≠ externalWorkloadToEndpoint (λ _, false) "IPv4" new (ex_selecting "a" "a").
Proof.
  intros old new.
  destruct (zone_change_missed (λ _, false) ex_cache old new ex_services "z1") as [He Hne];
    [reflexivity| |..]; [|apply (bool_decide_unpack _); vm_compute; exact I
                         |split_and!; [reflexivity..|discriminate]|reflexivity..|discriminate|].
  - intros svc sel Hsvc Hsel. unfold ex_services in Hsvc. rewrite !elem_of_cons in Hsvc.
    destruct Hsvc as [->|[->|Hsvc]]; [..|by apply not_elem_of_nil in Hsvc];
      injection Hsel as <-; reflexivity.
  - split; [exact He|apply Hne].
Defined.

(** * The queue *)
Section queue.
Context {T Q : Type} `{!EndpointSliceTracker T} `{!RateLimitingQueue Q} `{!ClientGo} `{!MapRange}.
Context (hash : Endpoint → string) (EndpointsEqualBeyondHash : Endpoint → Endpoint → bool).
Context (NewPortMapKey : list EndpointPort → string) (IsIPv6String : string → bool).
Implicit Types (ec : EndpointsController T Q).

(** What an event handler may do to the queue: add keys. *)
Definition grows ec ec' : Prop :=
  pending (queue ec) ⊆ pending (queue ec')
  ∧ ∀ k, NumRequeues (queue ec') k = NumRequeues (queue ec) k.
#[local] Instance grows_preorder : PreOrder grows.
Proof.
  split; [by intros ec|]. intros e1 e2 e3 [Hp1 Hn1] [Hp2 Hn2].
  split; [set_solver|]. intros k. by rewrite Hn2, Hn1.
Qed.

Lemma enqueue_grows key ec : grows ec (enqueue key ec).
Proof.
  split; simpl; [rewrite pending_Add; set_solver|]. intros k. apply NumRequeues_Add.
Qed.
Lemma enqueueAll_grows keys ec : grows ec (enqueueAll keys ec).
Proof.
  unfold enqueueAll. induction (range_set keys) as [|k l IH]; [done|]. simpl.
  etrans; [exact IH|apply enqueue_grows].
Qed.
Lemma queueServiceForEndpointSlice_grows es ec : grows ec (queueServiceForEndpointSlice es ec).
Proof. unfold queueServiceForEndpointSlice. case_match; [apply enqueue_grows|done..]. Qed.
Lemma set_tracker_grows t ec : grows ec (set_tracker t ec).
Proof. by split. Qed.
#[local] Hint Resolve enqueue_grows enqueueAll_grows queueServiceForEndpointSlice_grows
  set_tracker_grows : linkerd.
#[local] Hint Extern 0 (grows ?e ?e) => reflexivity : linkerd.

(** The event handlers. *)
Inductive handlerStep ec : EndpointsController T Q → Prop :=
  | HService obj : handlerStep ec (onServiceUpdate obj ec)
  | HSliceAdd obj ec' : onEndpointSliceAdd obj ec = Ok ec' → handlerStep ec ec'
  | HSliceUpdate prev obj ec' : onEndpointSliceUpdate prev obj ec = Ok ec' → handlerStep ec ec'
  | HSliceDelete obj : handlerStep ec (onEndpointSliceDelete obj ec)
  | HWorkloadAdd c obj : handlerStep ec (onAddExternalWorkload c obj ec)
  | HWorkloadUpdate c old cur : handlerStep ec (onUpdateExternalWorkload c old cur ec)
  | HWorkloadDelete c obj : handlerStep ec (onDeleteExternalWorkload c obj ec).

Lemma onAddExternalWorkload_grows c obj ec : grows ec (onAddExternalWorkload c obj ec).
Proof. unfold onAddExternalWorkload. repeat case_match; eauto with linkerd. Qed.
#[local] Hint Resolve onAddExternalWorkload_grows : linkerd.

Lemma handlerStep_grows ec ec' : handlerStep ec ec' → grows ec ec'.
Proof.
  intros [obj|obj e He|prev obj e He|obj|c obj|c old cur|c obj].
  - unfold onServiceUpdate. repeat case_match; eauto with linkerd.
  - unfold onEndpointSliceAdd in He. destruct obj as [|[es|]| | |]; simplify_eq; [|done].
    case_match; eauto with linkerd.
  - unfold onEndpointSliceUpdate in He. destruct prev as [|[p|]| | |], obj as [|[es|]| | |]; simplify_eq; try done.
    repeat case_match; eauto with linkerd.
    etrans; [apply (queueServiceForEndpointSlice_grows es)|eauto with linkerd].
  - unfold onEndpointSliceDelete. repeat case_match; eauto with linkerd.
    etrans; [apply (set_tracker_grows t)|eauto with linkerd].
  - apply onAddExternalWorkload_grows.
  - apply enqueueAll_grows.
  - unfold onDeleteExternalWorkload. case_match; eauto with linkerd.
Qed.

(** The processing of a key does not touch the queue before its result is known. *)
Lemma syncService_queue api stored c key ec :
  queue (syncService hash EndpointsEqualBeyondHash NewPortMapKey IsIPv6String api stored c key ec).2
  = queue ec.
Proof. unfold syncService. repeat case_match; simplify_eq/=; done. Qed.

Lemma syncService_drops api stored c key ec :
  dropsMetric (syncService hash EndpointsEqualBeyondHash NewPortMapKey IsIPv6String api stored c
                 key ec).2 = dropsMetric ec.
Proof. unfold syncService. repeat case_match; simplify_eq/=; done. Qed.

(** The controller running: event handlers, and rounds of [processQueue] with the key each
    round processed and whether it succeeded.  The caches and the API server may change
    from round to round. *)
Inductive run ec : list (string * bool) → EndpointsController T Q → Prop :=
  | RunStart : run ec [] ec
  | RunHandler tr ec1 ec2 : run ec tr ec1 → handlerStep ec1 ec2 → run ec tr ec2
  | RunRound tr ec1 api stored c key q writes ec2 :
      run ec tr ec1 → queueGet (queue ec1) = Some (key, q) →
      processQueue hash EndpointsEqualBeyondHash NewPortMapKey IsIPv6String api stored c ec1
        = Some (writes, ec2) →
      run ec (tr ++ [(key, is_ok (syncService hash EndpointsEqualBeyondHash NewPortMapKey
                                    IsIPv6String api stored c key (set_queue q ec1)).1.1)]) ec2.

(** The failures of a key since its last success. *)
Definition failures (key : string) (tr : list (string * bool)) : nat :=
  foldl (λ n (a : string * bool), if bool_decide (a.1 = key) then if a.2 then 0%nat else S n else n) 0%nat tr.

Lemma failures_snoc key tr k ok :
  failures key (tr ++ [(k, ok)])
  = if bool_decide (k = key) then if ok then 0%nat else S (failures key tr) else failures key tr.
Proof. unfold failures. by rewrite foldl_app. Qed.

(** What a round does to the queue. *)
Lemma processQueue_round api stored c ec key q writes ec' :
  queueGet (queue ec) = Some (key, q) →
  processQueue hash EndpointsEqualBeyondHash NewPortMapKey IsIPv6String api stored c ec
    = Some (writes, ec') →
  let ok := is_ok (syncService hash EndpointsEqualBeyondHash NewPortMapKey IsIPv6String api stored
                     c key (set_queue q ec)).1.1 in
  let retry := negb ok && (NumRequeues (queue ec) key <? maxRetryBudget) in
  (∀ k, NumRequeues (queue ec') k =
     if bool_decide (key = k) then if retry then NumRequeues (queue ec) k + 1 else 0
     else NumRequeues (queue ec) k)
  ∧ pending (queue ec') = (pending (queue ec) ∖ {[key]}) ∪ (if retry then {[key]} else ∅)
  ∧ dropsMetric ec' = dropsMetric ec + (if ok || retry then 0 else 1).
Proof.
  intros Hget. unfold processQueue. rewrite Hget.
  pose proof (syncService_queue api stored c key (set_queue q ec)) as Hq.
  pose proof (syncService_drops api stored c key (set_queue q ec)) as Hd.
  destruct (syncService _ _ _ _ api stored c key (set_queue q ec)) as [[err w] ec1].
  simpl in Hq, Hd. intros [= <- <-]. simpl.
  assert (∀ k, NumRequeues q k = NumRequeues (queue ec) k) as Hn
    by (intros k; by eapply NumRequeues_Get).
  destruct (pending_Get key (queue ec) q Hget) as [_ Hp].
  unfold handleError. rewrite Hq, Hn.
  assert (∀ q' k, NumRequeues (queueDone key (Forget key q')) k
     = if bool_decide (key = k) then 0 else NumRequeues q' k) as Hf
    by (intros; by rewrite NumRequeues_Done, NumRequeues_Forget).
  assert (∀ q' k, NumRequeues (queueDone key (AddRateLimited key q')) k
     = if bool_decide (key = k) then NumRequeues q' k + 1 else NumRequeues q' k) as Ha.
  { intros. rewrite NumRequeues_Done, NumRequeues_AddRateLimited. destruct (bool_decide _); lia. }
  destruct err; simpl; [|destruct (NumRequeues (queue ec) key <? maxRetryBudget)..]; simpl;
    rewrite pending_Done, ?pending_Forget, ?pending_AddRateLimited, ?Hp, ?Hd;
    (split_and!; [intros k; rewrite ?Hf, ?Ha, ?Hn; done|set_solver|lia]).
Qed.

Lemma next_mod_16 n :
  Z.of_nat (S n) mod 16 = if Z.of_nat n mod 16 <? 15 then Z.of_nat n mod 16 + 1 else 0.
Proof. destruct (_ <? 15) eqn:?; Z.to_euclidean_division_equations; lia. Qed.

End queue.

(** A queue and a tracker, for the concrete evaluations: the waiting keys, the key that is
    taken first, and the failure counts; a tracker that is never stale. *)
Record simpleQueue := mkQueue { q_pending : gset string; q_failures : gmap string Z }.
Definition simpleNum (q : simpleQueue) (k : string) : Z := default 0 (q_failures q !! k).
Definition simpleAdd (k : string) (q : simpleQueue) : simpleQueue :=
  mkQueue ({[k]} ∪ q_pending q) (q_failures q).
Definition simpleAddRateLimited (k : string) (q : simpleQueue) : simpleQueue :=
  mkQueue ({[k]} ∪ q_pending q) (<[k := simpleNum q k + 1]> (q_failures q)).
Definition simpleForget (k : string) (q : simpleQueue) : simpleQueue :=
  mkQueue (q_pending q) (delete k (q_failures q)).
Definition simpleGet (q : simpleQueue) : option (string * simpleQueue) :=
  match elements (q_pending q) with
  | k :: _ => Some (k, mkQueue (q_pending q ∖ {[k]}) (q_failures q))
  | [] => None
  end.

Lemma simpleGet_pending k q q' :
  simpleGet q = Some (k, q') → k ∈ q_pending q ∧ q_pending q' = q_pending q ∖ {[k]}.
Proof.
  unfold simpleGet. destruct (elements (q_pending q)) as [|x l] eqn:He; [done|]. intros [= -> <-].
  split; [|done]. apply elem_of_elements. rewrite He. constructor.
Qed.
Lemma simpleGet_num k q q' k' : simpleGet q = Some (k, q') → simpleNum q' k' = simpleNum q k'.
Proof. unfold simpleGet. case_match; [done|]. by intros [= -> <-]. Qed.
Lemma simpleNum_AddRateLimited k q k' :
  simpleNum (simpleAddRateLimited k q) k' = simpleNum q k' + if bool_decide (k = k') then 1 else 0.
Proof.
  unfold simpleNum, simpleAddRateLimited. simpl. case_bool_decide as Hk.
  - subst. by rewrite lookup_insert_eq.
  - rewrite lookup_insert_ne by done. unfold simpleNum. lia.
Qed.
Lemma simpleNum_Forget k q k' :
  simpleNum (simpleForget k q) k' = if bool_decide (k = k') then 0 else simpleNum q k'.
Proof.
  unfold simpleNum, simpleForget. simpl. case_bool_decide as Hk.
  - subst. by rewrite lookup_delete_eq.
  - by rewrite lookup_delete_ne.
Qed.

#[export] Instance simpleQueue_queue : RateLimitingQueue simpleQueue := {|
  pending := q_pending; NumRequeues := simpleNum; queueAdd := simpleAdd;
  AddRateLimited := simpleAddRateLimited; Forget := simpleForget; queueGet := simpleGet;
  queueDone := λ _ q, q;
  pending_Add := λ k q, eq_refl; pending_AddRateLimited := λ k q, eq_refl;
  pending_Forget := λ k q, eq_refl; pending_Get := simpleGet_pending;
  pending_Done := λ k q, eq_refl; NumRequeues_Add := λ k q k', eq_refl;
  NumRequeues_AddRateLimited := simpleNum_AddRateLimited; NumRequeues_Forget := simpleNum_Forget;
  NumRequeues_Get := simpleGet_num; NumRequeues_Done := λ k q k', eq_refl |}.

#[export] Instance unitTracker : EndpointSliceTracker unit := {|
  NewEndpointSliceTracker := (); trackerUpdate := λ _ _, (); ExpectDeletion := λ _ _, ();
  DeleteService := λ _ _ _, (); StaleSlices := λ _ _ _, false; ShouldSync := λ _ _, true;
  Has := λ _ _, true; HandleDeletion := λ _ _, (true, ()) |}.

(** A cache whose service lookups fail, and the controller with one key waiting. *)
Definition ex_failing : Cache :=
  mkCache (λ _ _, GetError "unavailable") (λ _, Ok []) (Ok []) (Ok []).
Definition ex_ec : EndpointsController unit simpleQueue := mkController () (mkQueue {["ns/a"]} ∅) 0.

Definition ex_ec' : EndpointsController unit simpleQueue :=
  mkController () (mkQueue {["ns/a"]} {["ns/a" := 1]}) 0.


(** * Synchronising a service *)
Section sync_service.
Context {T Q : Type} `{!EndpointSliceTracker T} `{!RateLimitingQueue Q} `{!ClientGo} `{!MapRange}.
Context (hash : Endpoint → string) (EndpointsEqualBeyondHash : Endpoint → Endpoint → bool).
Context (NewPortMapKey : list EndpointPort → string) (IsIPv6String : string → bool).
Context (api : Write → option WriteError) (stored : EndpointSlice → EndpointSlice).
Implicit Types (ec : EndpointsController T Q) (c : Cache).

(** The workloads a service selects, and the slices of the controller for it. *)
Definition selected (sel : strmap) (ews : list ExternalWorkload) : list ExternalWorkload :=
  filter (λ ew, Matches sel (ew_Labels ew) = true) ews.
Definition managed (svc : Service) (slices : list EndpointSlice) : list EndpointSlice :=
  dropEndpointSlicesPendingDeletion (filter (λ s, Matches (sliceSelector svc) (sl_Labels s) = true) slices).

(** The key is that of a service which gets slices, with an up to date cache of slices within
    the quota. *)
Record syncable c key ec svc sel ews slices : Prop := {
  sync_key : ∃ namespace name, SplitMetaNamespaceKey key = Ok (namespace, name)
                               ∧ cache_Service c namespace name = Found svc;
  sync_type : svc_Type svc ≠ ServiceTypeExternalName;
  sync_selector : svc_Selector svc = Some sel;
  sync_alive : svc_DeletionTimestamp svc = false;
  sync_workloads : cache_ExternalWorkloads c = Ok ews;
  sync_slices : cache_EndpointSlices c = Ok slices;
  sync_fresh : StaleSlices svc (managed svc slices) (endpointTracker ec) = false;
  sync_names : NoDup (sl_Name <$> managed svc slices);
  sync_quota s : s ∈ managed svc slices →
    (length (sl_Endpoints s) ≤ maxEndpointsQuota)%nat ∧ sl_Name s ≠ "" }.

Lemma syncService_converges c key ec svc sel ews slices :
  syncable c key ec svc sel ews slices → (∀ w, api w = None) →
  ∃ ws ec', syncService hash EndpointsEqualBeyondHash NewPortMapKey IsIPv6String api stored c key ec
      = (Ok (), ws, ec')
    ∧ let final := foldl applyWrite (managed svc slices) ws in
      (∀ s, s ∈ final → sl_AddressType s ∈ getSupportedAddressTypes svc
                        ∧ (length (sl_Endpoints s) ≤ maxEndpointsQuota)%nat)
      ∧ ∀ addrType, addrType ∈ getSupportedAddressTypes svc →
          converged hash EndpointsEqualBeyondHash NewPortMapKey IsIPv6String svc addrType
            (selected sel ews) (ofType addrType final).
Proof.
  intros [(ns & name & Hkey & Hsvc) Htype Hsel Halive Hews Hslices Hstale Hnames Hquota] Hapi.
  destruct (reconcile_converges hash EndpointsEqualBeyondHash NewPortMapKey IsIPv6String managedBy
    maxEndpointsQuota api stored svc (selected sel ews) (managed svc slices) (endpointTracker ec))
    as (ws & t & Heq & Hrest); [unfold maxEndpointsQuota; lia|done..|].
  exists ws, (set_tracker t ec). split; [|exact Hrest]. unfold syncService.
  rewrite Hkey, Hsvc, bool_decide_false, Hsel, Hews, Hslices by done.
  unfold managed, selected in *. by rewrite Hstale, Heq.
Qed.
End sync_service.

Section sync_theorems.
Context {T Q : Type} `{!EndpointSliceTracker T} `{!RateLimitingQueue Q} `{!ClientGo} `{!MapRange}.

(** C5: a synchronisation converges.  For a service that gets slices and is not being deleted,
    with an up to date cache of slices of distinct names within the quota, and an API server
    that accepts the writes, [syncService] succeeds, and the slices it leaves are of the
    service's address types, within the quota, owned by the service, and hold, for every
    address type and combination of ports, exactly one endpoint for each selected workload
    with an address of the type, and none but those. *)
Theorem sync_converges hash eqb NewPortMapKey IsIPv6String api stored c key
    (ec : EndpointsController T Q) svc sel ews slices :
  syncable c key ec svc sel ews slices → (∀ w, api w = None) →
  ∃ ws ec', syncService hash eqb NewPortMapKey IsIPv6String api stored c key ec = (Ok (), ws, ec')
    ∧ let final := foldl applyWrite (managed svc slices) ws in
      (∀ s, s ∈ final → sl_AddressType s ∈ getSupportedAddressTypes svc
                        ∧ (length (sl_Endpoints s) ≤ maxEndpointsQuota)%nat)
      ∧ ∀ addrType, addrType ∈ getSupportedAddressTypes svc →
          converged hash eqb NewPortMapKey IsIPv6String svc addrType
            (selected sel ews) (ofType addrType final).
Proof. apply syncService_converges. Qed.

(** workloads cross namespaces.  Any ExternalWorkload of the cache whose labels match the
    selector of the service gets an endpoint in the slices of the service, although it is
    in another namespace, when it has an address of a supported type. *)
Theorem foreign_workload_joins hash eqb NewPortMapKey IsIPv6String api stored c key
    (ec : EndpointsController T Q) svc sel ews slices ew addrType :
  syncable c key ec svc sel ews slices → (∀ w, api w = None) →
  ew ∈ ews → ew_Namespace ew ≠ svc_Namespace svc → sel ⊆ ew_Labels ew →
  addrType ∈ getSupportedAddressTypes svc →
  e_Addresses (externalWorkloadToEndpoint IsIPv6String addrType ew svc) ≠ [] →
  ∃ s e, s ∈ foldl applyWrite (managed svc slices)
               (syncService hash eqb NewPortMapKey IsIPv6String api stored c key ec).1.2
    ∧ e ∈ sl_Endpoints s ∧ hash e = hash (externalWorkloadToEndpoint IsIPv6String addrType ew svc).
Proof.
  intros Hsync Hapi Hew _ Hsel Hsup Haddr.
  destruct (syncService_converges hash eqb NewPortMapKey IsIPv6String api stored _ _ _ _ _ _ _
    Hsync Hapi) as (ws & ec' & -> & _ & Hc). destruct (Hc addrType Hsup) as [_ Hgroup].
  destruct (Hgroup (NewPortMapKey (findEndpointPorts svc ew))) as (_ & Hin & _).
  assert (ew ∈ selected sel ews) as Hsew by (apply list_elem_of_filter; by rewrite Matches_subseteq).
  specialize (Hin ew Hsew eq_refl Haddr). unfold hashes in Hin.
  apply list_elem_of_bind in Hin as (s & (e & Heq & He)%list_elem_of_fmap & [_ Hs]%list_elem_of_filter).
  apply list_elem_of_filter in Hs as [_ Hs]. by exists s, e.
Qed.
End sync_theorems.

(** A service, and a workload of another namespace that it selects. *)
Definition ex_foreign : ExternalWorkload :=
  mkExternalWorkload "vm2" "other" "uid2" "1" {["app" := "a"]} ∅ [] "" "" [mkPortSpec "http" 80 "TCP"]
    ["192.0.2.2"] [mkWorkloadCondition "Ready" "True"] None.
Definition ex_cluster : Cache := mkCache (cache_Service ex_cache) (cache_Services ex_cache)
  (Ok [ex_workload "1" {["app" := "a"]} "192.0.2.1"; ex_foreign]) (Ok []).

Lemma ex_syncable : syncable ex_cluster "ns/a" ex_ec (ex_selecting "a" "a") {["app" := "a"]}
  [ex_workload "1" {["app" := "a"]} "192.0.2.1"; ex_foreign] [].
Proof.
  split; try reflexivity; [|discriminate|constructor|by intros s ?%not_elem_of_nil].
  exists "ns", "a". by split.
Qed.

Lemma sync_converges_witness :
  ∃ ws ec', syncService (H0 := range_in_order) ex_hash (λ _ _, true) (λ _, "") (λ _, false) (λ _, None)
      (λ s, s) ex_cluster "ns/a" ex_ec = (Ok (), ws, ec')
    ∧ converged ex_hash (λ _ _, true) (λ _, "") (λ _, false) (ex_selecting "a" "a") "IPv4"
        [ex_workload "1" {["app" := "a"]} "192.0.2.1"; ex_foreign]
        (ofType "IPv4" (foldl applyWrite [] ws)).
Proof.
  destruct (sync_converges (H0 := range_in_order) ex_hash (λ _ _, true) (λ _, "") (λ _, false)
    (λ _, None) (λ s, s) ex_cluster "ns/a" ex_ec _ _ _ _ ex_syncable (λ _, eq_refl))
    as (ws & ec' & Heq & _ & Hc).
  exists ws, ec'. split; [exact Heq|]. apply (Hc "IPv4"). apply (bool_decide_unpack _). vm_compute. exact I.
Defined.

Lemma foreign_workload_joins_witness :
  ∃ s e, s ∈ foldl applyWrite []
      (syncService (H0 := range_in_order) ex_hash (λ _ _, true) (λ _, "") (λ _, false) (λ _, None)
         (λ s, s) ex_cluster "ns/a" ex_ec).1.2
    ∧ e ∈ sl_Endpoints s ∧ ex_hash e = "vm2".
Proof.
  apply (foreign_workload_joins (H0 := range_in_order) ex_hash (λ _ _, true) (λ _, "") (λ _, false)
    (λ _, None) (λ s, s) ex_cluster "ns/a" ex_ec (ex_selecting "a" "a") {["app" := "a"]} _ []
    ex_foreign "IPv4" ex_syncable (λ _, eq_refl)).
  - set_solver.
  - discriminate.
  - done.
  - apply (bool_decide_unpack _). vm_compute. exact I.
  - discriminate.
Defined.
