(* ===== verification/ProfileTranslator.v ===== *)
(** [profile_translator.go] and the match validation of [pkg/profiles/profiles.go]: the
    translation of a ServiceProfile into the DestinationProfile messages of a GetProfile
    stream.

    Parameters: [time.ParseDuration] (in nanoseconds), whose fractions are computed in
    floating point, and the table of registered HTTP methods of the proxy API.  A retry ratio is the bit pattern of its float32, and
    the weight of an override its [MilliValue]. *)
From S2P Require Import Prelude GoStd K8s PortRange.

#[local] Set Warnings "-register-all".
#[local] Open Scope string_scope.
#[local] Open Scope list_scope.
#[local] Open Scope Z_scope.

(** * controller/gen/apis/serviceprofile/v1alpha2 *)
(** A slice of pointers is [None] when it is nil; its elements may be nil. *)
Inductive RequestMatch := mkRequestMatch {
  rm_All : option (list (option RequestMatch));
  rm_Not : option RequestMatch;
  rm_Any : option (list (option RequestMatch));
  rm_PathRegex : string; rm_Method : string }.

Record Range := mkRange { rg_Min : Z; rg_Max : Z }.
Inductive ResponseMatch := mkResponseMatch {
  rs_All : option (list (option ResponseMatch));
  rs_Not : option ResponseMatch;
  rs_Any : option (list (option ResponseMatch));
  rs_Status : option Range }.

Record ResponseClass := mkResponseClass {
  rc_Condition : option ResponseMatch; rc_IsFailure : bool }.
Record RouteSpec := mkRouteSpec {
  rt_Name : string; rt_Condition : option RequestMatch; rt_ResponseClasses : list ResponseClass;
  rt_IsRetryable : bool; rt_Timeout : string }.
Record RetryBudgetSpec := mkRetryBudgetSpec {
  rb_RetryRatio : Z; rb_MinRetriesPerSecond : Z; rb_TTL : string }.
Record WeightedDstSpec := mkWeightedDstSpec { wd_Authority : string; wd_MilliWeight : Z }.
Record ServiceProfile := mkServiceProfile {
  sp_Kind : string; sp_ProfileName : string; sp_ProfileNamespace : string;
  sp_Routes : list RouteSpec; sp_RetryBudget : option RetryBudgetSpec;
  sp_DstOverrides : list WeightedDstSpec; sp_OpaquePorts : option ports }.

(** * linkerd2-proxy-api *)
Inductive HttpMethod := Registered (v : Z) | Unregistered (s : string).
Module pb.
Inductive RequestMatch :=
  | RequestMatch_All (matches : list RequestMatch)
  | RequestMatch_Any (matches : list RequestMatch)
  | RequestMatch_Not (m : RequestMatch)
  | RequestMatch_Path (regex : string)
  | RequestMatch_Method (method : HttpMethod).
Inductive ResponseMatch :=
  | ResponseMatch_All (matches : list ResponseMatch)
  | ResponseMatch_Any (matches : list ResponseMatch)
  | ResponseMatch_Not (m : ResponseMatch)
  | ResponseMatch_Status (max min : Z).
Record ResponseClass := mkResponseClass { rc_Condition : ResponseMatch; rc_IsFailure : bool }.
Record Duration := mkDuration { Seconds : Z; Nanos : Z }.
Record Route := mkRoute {
  rt_Condition : RequestMatch; rt_ResponseClasses : list ResponseClass; rt_MetricsLabels : strmap;
  rt_IsRetryable : bool; rt_Timeout : option Duration }.
Record RetryBudget := mkRetryBudget {
  rb_RetryRatio : Z; rb_MinRetriesPerSecond : Z; rb_Ttl : option Duration }.
Record WeightedDst := mkWeightedDst { wd_Authority : string; wd_Weight : Z }.
Record Resource := mkResource {
  res_Group : string; res_Kind : string; res_Name : string; res_Namespace : string; res_Port : Z }.
Record DestinationProfile := mkDestinationProfile {
  dp_ParentRef : option Resource; dp_ProfileRef : option Resource; dp_Routes : list Route;
  dp_RetryBudget : RetryBudget; dp_DstOverrides : list WeightedDst;
  dp_FullyQualifiedName : string; dp_OpaqueProtocol : bool }.
End pb.

(** * pkg/profiles/profiles.go *)
Definition minStatus : Z := 100.
Definition maxStatus : Z := 599.

(** [for _, child := range children { err := validate(child) ... }]: the validation of a nil
    child is a nil dereference. *)
Definition validateAll {A} (validate : A → res ()) : list (option A) → res () :=
  fix go children :=
    match children with
    | [] => Ok ()
    | None :: _ => Panic
    | Some child :: children => (let* _ := validate child in go children)%go
    end.

Fixpoint ValidateRequestMatch (reqMatch : RequestMatch) : res () :=
  (let* _ := match rm_All reqMatch with Some l => validateAll ValidateRequestMatch l | None => Ok () end in
   let* _ := match rm_Any reqMatch with Some l => validateAll ValidateRequestMatch l | None => Ok () end in
   let* _ := match rm_Not reqMatch with Some m => ValidateRequestMatch m | None => Ok () end in
   if bool_decide (rm_All reqMatch = None) && bool_decide (rm_Any reqMatch = None)
      && bool_decide (rm_Method reqMatch = "") && bool_decide (rm_Not reqMatch = None)
      && bool_decide (rm_PathRegex reqMatch = "")
   then Err "A request match must have a field set" else Ok ())%go.

Definition validateStatus (r : Range) : res () :=
  let min := rg_Min r in let max := rg_Max r in
  if bool_decide (min ≠ 0 ∧ (min < minStatus ∨ maxStatus < min))
  then Err "Range minimum must be between 100 and 599, inclusive"
  else if bool_decide (max ≠ 0 ∧ (max < minStatus ∨ maxStatus < max))
  then Err "Range maximum must be between 100 and 599, inclusive"
  else if bool_decide (max ≠ 0 ∧ min ≠ 0 ∧ max < min)
  then Err "Range maximum cannot be smaller than minimum"
  else Ok ().

Fixpoint ValidateResponseMatch (rspMatch : ResponseMatch) : res () :=
  (let* _ := match rs_All rspMatch with Some l => validateAll ValidateResponseMatch l | None => Ok () end in
   let* _ := match rs_Any rspMatch with Some l => validateAll ValidateResponseMatch l | None => Ok () end in
   let* _ := match rs_Status rspMatch with Some r => validateStatus r | None => Ok () end in
   let* _ := match rs_Not rspMatch with Some m => ValidateResponseMatch m | None => Ok () end in
   if bool_decide (rs_All rspMatch = None) && bool_decide (rs_Any rspMatch = None)
      && bool_decide (rs_Status rspMatch = None) && bool_decide (rs_Not rspMatch = None)
   then Err "A response match must have a field set" else Ok ())%go.

(** * profile_translator.go *)
(** The loop that translates the children of a match: a nil child is an error. *)
Definition translateAll {A B} (translate : A → res B) (missing : string) : list (option A) → res (list B) :=
  fix go children :=
    match children with
    | [] => Ok []
    | None :: _ => Err missing
    | Some child :: children =>
        (let* m := translate child in let* ms := go children in Ok (m :: ms))%go
    end.

(** One match stands for itself, several for their conjunction. *)
Definition combine {B} (conj : list B → B) (empty : string) (matches : list B) : res B :=
  match matches with
  | [] => Err empty
  | [m] => Ok m
  | _ => Ok (conj matches)
  end.

Section translator.
Context (HttpMethod_Registered_value : string → option Z) (ParseDuration : string → res Z).

(** pkg/util/http.go *)
Definition ParseMethod (method : string) : HttpMethod :=
  match HttpMethod_Registered_value (strings.ToUpper method) with
  | Some v => Registered v
  | None => Unregistered (strings.ToUpper method)
  end.

(** [toRequestMatch] of a pointer that is not nil. *)
Fixpoint translateRequestMatch (reqMatch : RequestMatch) : res pb.RequestMatch :=
  (let* _ := ValidateRequestMatch reqMatch in
   let* all := match rm_All reqMatch with
     | Some l => let* ms := translateAll translateRequestMatch "missing request match" l in
                 Ok [pb.RequestMatch_All ms]
     | None => Ok [] end in
   let* any := match rm_Any reqMatch with
     | Some l => let* ms := translateAll translateRequestMatch "missing request match" l in
                 Ok [pb.RequestMatch_Any ms]
     | None => Ok [] end in
   let method := if bool_decide (rm_Method reqMatch = "") then []
                 else [pb.RequestMatch_Method (ParseMethod (rm_Method reqMatch))] in
   let* not := match rm_Not reqMatch with
     | Some m => let* m := translateRequestMatch m in Ok [pb.RequestMatch_Not m]
     | None => Ok [] end in
   let path := if bool_decide (rm_PathRegex reqMatch = "") then []
               else [pb.RequestMatch_Path (rm_PathRegex reqMatch)] in
   combine pb.RequestMatch_All "a request match must have a field set"
     (all ++ any ++ method ++ not ++ path))%go.
Definition toRequestMatch (reqMatch : option RequestMatch) : res pb.RequestMatch :=
  match reqMatch with Some m => translateRequestMatch m | None => Err "missing request match" end.

Fixpoint translateResponseMatch (rspMatch : ResponseMatch) : res pb.ResponseMatch :=
  (let* _ := ValidateResponseMatch rspMatch in
   let* all := match rs_All rspMatch with
     | Some l => let* ms := translateAll translateResponseMatch "missing response match" l in
                 Ok [pb.ResponseMatch_All ms]
     | None => Ok [] end in
   let* any := match rs_Any rspMatch with
     | Some l => let* ms := translateAll translateResponseMatch "missing response match" l in
                 Ok [pb.ResponseMatch_Any ms]
     | None => Ok [] end in
   let status := match rs_Status rspMatch with
     | Some r => [pb.ResponseMatch_Status (rg_Max r) (rg_Min r)]
     | None => [] end in
   let* not := match rs_Not rspMatch with
     | Some m => let* m := translateResponseMatch m in Ok [pb.ResponseMatch_Not m]
     | None => Ok [] end in
   combine pb.ResponseMatch_All "a response match must have a field set"
     (all ++ any ++ status ++ not))%go.
Definition toResponseMatch (rspMatch : option ResponseMatch) : res pb.ResponseMatch :=
  match rspMatch with Some m => translateResponseMatch m | None => Err "missing response match" end.

Definition toResponseClass (rc : ResponseClass) : res pb.ResponseClass :=
  (let* cond := toResponseMatch (rc_Condition rc) in
   Ok (pb.mkResponseClass cond (rc_IsFailure rc)))%go.

(** Nanoseconds per second; Go's division truncates towards zero. *)
Definition Second : Z := 1000000000.
Definition toDuration (d : Z) : option pb.Duration :=
  if bool_decide (d = 0) then None
  else Some (pb.mkDuration (d ÷ Second) (i32 (Z.rem d Second))).

(** A timeout that does not parse is logged and left out. *)
Definition toRoute (route : RouteSpec) : res pb.Route :=
  (let* cond := toRequestMatch (rt_Condition route) in
   let* rcs := res_mapM toResponseClass (rt_ResponseClasses route) in
   let timeout := if bool_decide (rt_Timeout route = "") then 0
                  else default 0 (res_ok (ParseDuration (rt_Timeout route))) in
   Ok (pb.mkRoute cond rcs {["route" := rt_Name route]} (rt_IsRetryable route) (toDuration timeout)))%go.

Definition millisPerDecimilli : Z := 10.

Definition toDstOverrides (dsts : list WeightedDstSpec) (port : Z) : list pb.WeightedDst :=
  (λ dst,
     let authority := match net.SplitHostPort (wd_Authority dst) with
                      | Some _ => wd_Authority dst
                      | None => net.JoinHostPort (wd_Authority dst) (strconv.Itoa port)
                      end in
     pb.mkWeightedDst authority (u32 (wd_MilliWeight dst * millisPerDecimilli))) <$> dsts.

(** 0.2 as a float32. *)
Definition defaultRetryBudget : pb.RetryBudget :=
  pb.mkRetryBudget 0x3E4CCCCD 10 (Some (pb.mkDuration 10 0)).

Record profileTranslator := mkProfileTranslator {
  fullyQualifiedName : string; port : Z; parentRef : pb.Resource;
  updates : list (option ServiceProfile); endStream : bool; overflows : Z;
  sent : list pb.DestinationProfile }.

Definition newProfileTranslator (ns name fqn : string) (port : Z) : profileTranslator :=
  mkProfileTranslator fqn port (pb.mkResource "core" "Service" name ns port) [] false 0 [].

Definition defaultServiceProfile (pt : profileTranslator) : pb.DestinationProfile :=
  pb.mkDestinationProfile None None [] defaultRetryBudget [] (fullyQualifiedName pt) false.

Definition createDestinationProfile (pt : profileTranslator) (profile : ServiceProfile)
    : res pb.DestinationProfile :=
  let profileRef := pb.mkResource "linkerd.io" (sp_Kind profile) (sp_ProfileName profile)
                      (sp_ProfileNamespace profile) 0 in
  (let* routes := res_mapM toRoute (sp_Routes profile) in
   let* budget := match sp_RetryBudget profile with
     | None => Ok defaultRetryBudget
     | Some b => let* ttl := ParseDuration (rb_TTL b) in
                 Ok (pb.mkRetryBudget (rb_RetryRatio b) (rb_MinRetriesPerSecond b) (toDuration ttl))
     end in
   let opaqueProtocol := match sp_OpaquePorts profile with
     | Some ps => bool_decide (port pt ∈ ps)
     | None => false end in
   Ok (pb.mkDestinationProfile (Some (parentRef pt)) (Some profileRef) routes budget
         (toDstOverrides (sp_DstOverrides profile) (port pt)) (fullyQualifiedName pt) opaqueProtocol))%go.

Definition set_sent (l : list pb.DestinationProfile) (pt : profileTranslator) : profileTranslator :=
  mkProfileTranslator (fullyQualifiedName pt) (port pt) (parentRef pt) (updates pt) (endStream pt)
    (overflows pt) l.
Definition set_updates (l : list (option ServiceProfile)) (pt : profileTranslator) : profileTranslator :=
  mkProfileTranslator (fullyQualifiedName pt) (port pt) (parentRef pt) l (endStream pt)
    (overflows pt) (sent pt).

(** [update]: a message is sent, or the profile does not translate and nothing is. *)
Definition update (pt : profileTranslator) (profile : option ServiceProfile) : res profileTranslator :=
  match profile with
  | None => Ok (set_sent (sent pt ++ [defaultServiceProfile pt]) pt)
  | Some p =>
      match createDestinationProfile pt p with
      | Ok d => Ok (set_sent (sent pt ++ [d]) pt)
      | Err _ => Ok pt
      | Panic => Panic
      end
  end.

(** [Update]: the profile is queued, or the stream is ended. *)
Definition updateQueueCapacity : nat := 100.
Definition Update (pt : profileTranslator) (profile : option ServiceProfile) : profileTranslator :=
  if bool_decide (length (updates pt) < updateQueueCapacity)%nat
  then set_updates (updates pt ++ [profile]) pt
  else mkProfileTranslator (fullyQualifiedName pt) (port pt) (parentRef pt) (updates pt) true
         (overflows pt + 1) (sent pt).

(** One receive of the goroutine of [Start]. *)
Definition receive (pt : profileTranslator) : option (res profileTranslator) :=
  match updates pt with
  | [] => None
  | u :: us => Some (update (set_updates us pt) u)
  end.
End translator.

(** * What matches mean

    A match with several fields set holds when all of them do. *)
Section meaning.
Context (methodMatches : HttpMethod → bool) (pathMatches : string → bool).
Context (statusMatches : Z → Z → bool).  (* min, max *)
Context (HttpMethod_Registered_value : string → option Z).

Definition forallMatches {A} (f : A → bool) : list (option A) → bool :=
  fix go l := match l with [] => true | None :: l => go l | Some m :: l => f m && go l end.
Definition existsMatches {A} (f : A → bool) : list (option A) → bool :=
  fix go l := match l with [] => false | None :: l => go l | Some m :: l => f m || go l end.

Fixpoint requestMatches (m : RequestMatch) : bool :=
  match rm_All m with Some l => forallMatches requestMatches l | None => true end
  && match rm_Any m with Some l => existsMatches requestMatches l | None => true end
  && (bool_decide (rm_Method m = "") || methodMatches (ParseMethod HttpMethod_Registered_value (rm_Method m)))
  && match rm_Not m with Some n => negb (requestMatches n) | None => true end
  && (bool_decide (rm_PathRegex m = "") || pathMatches (rm_PathRegex m)).

Fixpoint responseMatches (m : ResponseMatch) : bool :=
  match rs_All m with Some l => forallMatches responseMatches l | None => true end
  && match rs_Any m with Some l => existsMatches responseMatches l | None => true end
  && match rs_Status m with Some r => statusMatches (rg_Min r) (rg_Max r) | None => true end
  && match rs_Not m with Some n => negb (responseMatches n) | None => true end.

(** The same for the messages of the proxy API. *)
Fixpoint pbRequestMatches (m : pb.RequestMatch) : bool :=
  match m with
  | pb.RequestMatch_All ms => forallb pbRequestMatches ms
  | pb.RequestMatch_Any ms => existsb pbRequestMatches ms
  | pb.RequestMatch_Not m => negb (pbRequestMatches m)
  | pb.RequestMatch_Path regex => pathMatches regex
  | pb.RequestMatch_Method method => methodMatches method
  end.
Fixpoint pbResponseMatches (m : pb.ResponseMatch) : bool :=
  match m with
  | pb.ResponseMatch_All ms => forallb pbResponseMatches ms
  | pb.ResponseMatch_Any ms => existsb pbResponseMatches ms
  | pb.ResponseMatch_Not m => negb (pbResponseMatches m)
  | pb.ResponseMatch_Status max min => statusMatches min max
  end.
End meaning.

(** ** Induction on matches *)
Definition sumAll {A} (f : A → nat) : list (option A) → nat :=
  fix go l := match l with [] => 0%nat | None :: l => go l | Some m :: l => (f m + go l)%nat end.
Fixpoint requestSize (m : RequestMatch) : nat :=
  S (match rm_All m with Some l => sumAll requestSize l | None => 0 end
     + match rm_Any m with Some l => sumAll requestSize l | None => 0 end
     + match rm_Not m with Some n => requestSize n | None => 0 end)%nat.
Fixpoint responseSize (m : ResponseMatch) : nat :=
  S (match rs_All m with Some l => sumAll responseSize l | None => 0 end
     + match rs_Any m with Some l => sumAll responseSize l | None => 0 end
     + match rs_Not m with Some n => responseSize n | None => 0 end)%nat.

Lemma sumAll_elem {A} (f : A → nat) l m : Some m ∈ l → (f m ≤ sumAll f l)%nat.
Proof.
  induction l as [|[x|] l IH]; [by intros ?%not_elem_of_nil|..]; simpl.
  - intros [[= ->]|Hin]%elem_of_cons; [lia|]. apply IH in Hin. lia.
  - intros [?|Hin]%elem_of_cons; [done|by apply IH].
Qed.

Lemma size_induction {A} (size : A → nat) (P : A → Prop) :
  (∀ m, (∀ c, (size c < size m)%nat → P c) → P m) → ∀ m, P m.
Proof.
  intros Hstep m. assert (∀ n c, (size c < n)%nat → P c) as Hn; [|by apply (Hn (S (size m))); lia].
  induction n as [|n IH]; intros c Hc; [lia|]. apply Hstep. intros d Hd. apply IH. lia.
Qed.

Lemma requestSize_child m c :
  (∃ l, (rm_All m = Some l ∨ rm_Any m = Some l) ∧ Some c ∈ l) ∨ rm_Not m = Some c →
  (requestSize c < requestSize m)%nat.
Proof.
  destruct m as [all not any path method]. simpl.
  intros [(l & [->| ->] & Hin%(sumAll_elem requestSize))| ->]; lia.
Qed.
Lemma responseSize_child m c :
  (∃ l, (rs_All m = Some l ∨ rs_Any m = Some l) ∧ Some c ∈ l) ∨ rs_Not m = Some c →
  (responseSize c < responseSize m)%nat.
Proof.
  destruct m as [all not any status]. simpl.
  intros [(l & [->| ->] & Hin%(sumAll_elem responseSize))| ->]; lia.
Qed.

(** ** Translating the children *)
Section children.
Context {A B : Type} (validate : A → res ()) (translate : A → res B) (missing : string).
Context (mean : A → bool) (pbMean : B → bool).

(** A translation that succeeds on what is valid, and keeps its meaning. *)
Definition translates (m : A) : Prop :=
  validate m = Ok () → ∃ p, translate m = Ok p ∧ pbMean p = mean m.

Lemma translateAll_ok l :
  (∀ c, Some c ∈ l → translates c) → validateAll validate l = Ok () →
  ∃ ps, translateAll translate missing l = Ok ps
    ∧ forallb pbMean ps = forallMatches mean l ∧ existsb pbMean ps = existsMatches mean l.
Proof.
  induction l as [|[c|] l IH]; intros Hc; simpl; [by exists []| |done].
  intros (? & Hv & Hl)%res_bind_Ok. destruct x.
  destruct (Hc c ltac:(constructor) Hv) as (p & Hp & Hm).
  destruct (IH ltac:(set_solver) Hl) as (ps & Hps & Hf & He).
  exists (p :: ps). rewrite Hp. simpl. rewrite Hps. simpl. by rewrite Hm, Hf, He.
Qed.

(** An optional list of children becomes no match or one match. *)
Lemma optional_children_ok (mk : list B → B) (meanOf : list (option A) → bool) o :
  (∀ l ps, forallb pbMean ps = forallMatches mean l → existsb pbMean ps = existsMatches mean l →
     pbMean (mk ps) = meanOf l) →
  (∀ l c, o = Some l → Some c ∈ l → translates c) →
  match o with Some l => validateAll validate l | None => Ok () end = Ok () →
  ∃ ms, match o with
        | Some l => res_bind (translateAll translate missing l) (λ ms, Ok [mk ms])
        | None => Ok [] end = Ok ms
    ∧ forallb pbMean ms = match o with Some l => meanOf l | None => true end
    ∧ (ms = [] → o = None).
Proof.
  intros Hmk. destruct o as [l|]; intros Hc Hv; [|by exists []].
  destruct (translateAll_ok l (λ c Hin, Hc l c eq_refl Hin) Hv) as (ps & Hps & Hf & He).
  exists [mk ps]. rewrite Hps. split_and!; [done| |done]. simpl. by rewrite andb_true_r, (Hmk l).
Qed.

(** An optional child is negated. *)
Lemma optional_not_ok (mk : B → B) (o : option A) :
  (∀ p, pbMean (mk p) = negb (pbMean p)) → (∀ c, o = Some c → translates c) →
  match o with Some m => validate m | None => Ok () end = Ok () →
  ∃ ms, match o with Some m => res_bind (translate m) (λ m, Ok [mk m]) | None => Ok [] end = Ok ms
    ∧ forallb pbMean ms = match o with Some m => negb (mean m) | None => true end
    ∧ (ms = [] → o = None).
Proof.
  intros Hmk. destruct o as [m|]; intros Hc Hv; [|by exists []].
  destruct (Hc m eq_refl Hv) as (p & Hp & Hm). exists [mk p]. rewrite Hp. split_and!; [done| |done].
  simpl. by rewrite andb_true_r, Hmk, Hm.
Qed.

Lemma combine_ok (conj : list B → B) empty ms :
  (∀ ps, pbMean (conj ps) = forallb pbMean ps) → ms ≠ [] →
  ∃ p, combine conj empty ms = Ok p ∧ pbMean p = forallb pbMean ms.
Proof.
  intros Hconj Hne. destruct ms as [|m [|m' ms]]; [done|exists m; simpl; by rewrite andb_true_r|].
  exists (conj (m :: m' :: ms)). by rewrite Hconj.
Qed.
End children.

Section match_translation.
Context (methodMatches : HttpMethod → bool) (pathMatches : string → bool).
Context (statusMatches : Z → Z → bool) (registered : string → option Z).

Abbreviation reqMeans := (requestMatches methodMatches pathMatches registered).
Abbreviation pbReqMeans := (pbRequestMatches methodMatches pathMatches).
Abbreviation rspMeans := (responseMatches statusMatches).
Abbreviation pbRspMeans := (pbResponseMatches statusMatches).

(** The translation of a match from those of its fields. *)
Definition requestParts (m : RequestMatch) (all any not : list pb.RequestMatch) : list pb.RequestMatch :=
  all ++ any
  ++ (if bool_decide (rm_Method m = "") then []
      else [pb.RequestMatch_Method (ParseMethod registered (rm_Method m))])
  ++ not ++ (if bool_decide (rm_PathRegex m = "") then [] else [pb.RequestMatch_Path (rm_PathRegex m)]).
Lemma translateRequestMatch_eq m :
  translateRequestMatch registered m =
  (let* _ := ValidateRequestMatch m in
   let* all := match rm_All m with
     | Some l => let* ms := translateAll (translateRequestMatch registered) "missing request match" l in
                 Ok [pb.RequestMatch_All ms]
     | None => Ok [] end in
   let* any := match rm_Any m with
     | Some l => let* ms := translateAll (translateRequestMatch registered) "missing request match" l in
                 Ok [pb.RequestMatch_Any ms]
     | None => Ok [] end in
   let* not := match rm_Not m with
     | Some m => let* m := translateRequestMatch registered m in Ok [pb.RequestMatch_Not m]
     | None => Ok [] end in
   combine pb.RequestMatch_All "a request match must have a field set" (requestParts m all any not))%go.
Proof. by destruct m. Qed.

Definition responseParts (m : ResponseMatch) (all any not : list pb.ResponseMatch) : list pb.ResponseMatch :=
  all ++ any
  ++ match rs_Status m with Some r => [pb.ResponseMatch_Status (rg_Max r) (rg_Min r)] | None => [] end
  ++ not.
Lemma translateResponseMatch_eq m :
  translateResponseMatch m =
  (let* _ := ValidateResponseMatch m in
   let* all := match rs_All m with
     | Some l => let* ms := translateAll translateResponseMatch "missing response match" l in
                 Ok [pb.ResponseMatch_All ms]
     | None => Ok [] end in
   let* any := match rs_Any m with
     | Some l => let* ms := translateAll translateResponseMatch "missing response match" l in
                 Ok [pb.ResponseMatch_Any ms]
     | None => Ok [] end in
   let* not := match rs_Not m with
     | Some m => let* m := translateResponseMatch m in Ok [pb.ResponseMatch_Not m]
     | None => Ok [] end in
   combine pb.ResponseMatch_All "a response match must have a field set" (responseParts m all any not))%go.
Proof. by destruct m. Qed.

(** What a valid match satisfies, field by field. *)
Lemma ValidateRequestMatch_Ok m :
  ValidateRequestMatch m = Ok () →
  match rm_All m with Some l => validateAll ValidateRequestMatch l | None => Ok () end = Ok ()
  ∧ match rm_Any m with Some l => validateAll ValidateRequestMatch l | None => Ok () end = Ok ()
  ∧ match rm_Not m with Some n => ValidateRequestMatch n | None => Ok () end = Ok ()
  ∧ ∀ all any not, (all = [] → rm_All m = None) → (any = [] → rm_Any m = None) →
      (not = [] → rm_Not m = None) → requestParts m all any not ≠ [].
Proof.
  destruct m as [all not any path method]. simpl.
  intros ([] & Hall & ([] & Hany & ([] & Hnot & Hset)%res_bind_Ok)%res_bind_Ok)%res_bind_Ok.
  split_and!; [done..|]. unfold requestParts. simpl. intros lall lany lnot Nall Nany Nnot.
  intros (-> & (-> & (Emm & (-> & Emp)%app_nil)%app_nil)%app_nil)%app_nil.
  rewrite (Nall eq_refl), (Nany eq_refl), (Nnot eq_refl) in Hset.
  repeat case_bool_decide; simplify_eq/=.
Qed.
Lemma ValidateResponseMatch_Ok m :
  ValidateResponseMatch m = Ok () →
  match rs_All m with Some l => validateAll ValidateResponseMatch l | None => Ok () end = Ok ()
  ∧ match rs_Any m with Some l => validateAll ValidateResponseMatch l | None => Ok () end = Ok ()
  ∧ match rs_Not m with Some n => ValidateResponseMatch n | None => Ok () end = Ok ()
  ∧ ∀ all any not, (all = [] → rs_All m = None) → (any = [] → rs_Any m = None) →
      (not = [] → rs_Not m = None) → responseParts m all any not ≠ [].
Proof.
  destruct m as [all not any status]. simpl.
  intros ([] & Hall & ([] & Hany & ([] & _ & ([] & Hnot & Hset)%res_bind_Ok)%res_bind_Ok)%res_bind_Ok)%res_bind_Ok.
  split_and!; [done..|]. unfold responseParts. simpl. intros lall lany lnot Nall Nany Nnot.
  intros (-> & (-> & (Emm & ->)%app_nil)%app_nil)%app_nil.
  rewrite (Nall eq_refl), (Nany eq_refl), (Nnot eq_refl) in Hset. by destruct status.
Qed.

Lemma translateRequestMatch_ok m :
  translates ValidateRequestMatch (translateRequestMatch registered) reqMeans pbReqMeans m.
Proof.
  induction m as [m IH] using (size_induction requestSize). intros Hv.
  destruct (ValidateRequestMatch_Ok m Hv) as (Hall & Hany & Hnot & Hset).
  destruct (optional_children_ok ValidateRequestMatch (translateRequestMatch registered)
    "missing request match" reqMeans pbReqMeans pb.RequestMatch_All (forallMatches reqMeans) (rm_All m))
    as (mall & Emall & Fmall & Nall); [done| |done|].
  { intros l c Hl Hin. apply IH, requestSize_child. left. eauto. }
  destruct (optional_children_ok ValidateRequestMatch (translateRequestMatch registered)
    "missing request match" reqMeans pbReqMeans pb.RequestMatch_Any (existsMatches reqMeans) (rm_Any m))
    as (many & Emany & Fmany & Nany); [done| |done|].
  { intros l c Hl Hin. apply IH, requestSize_child. left. eauto. }
  destruct (optional_not_ok ValidateRequestMatch (translateRequestMatch registered) reqMeans pbReqMeans
    pb.RequestMatch_Not (rm_Not m)) as (mnot & Emnot & Fmnot & Nnot); [done| |done|].
  { intros c Hc. apply IH, requestSize_child. by right. }
  destruct (combine_ok pbReqMeans pb.RequestMatch_All "a request match must have a field set"
    (requestParts m mall many mnot)) as (p & Hp & Hm); [done|by apply Hset|].
  exists p. split.
  - rewrite translateRequestMatch_eq, Hv. unfold res_bind in *. by rewrite Emall, Emany, Emnot.
  - rewrite Hm. unfold requestParts. rewrite !forallb_app, Fmall, Fmany, Fmnot, !andb_assoc.
    destruct m as [all not any path method]. simpl.
    repeat case_bool_decide; simpl; by rewrite ?andb_true_r.
Qed.

Lemma translateResponseMatch_ok m :
  translates ValidateResponseMatch translateResponseMatch rspMeans pbRspMeans m.
Proof.
  induction m as [m IH] using (size_induction responseSize). intros Hv.
  destruct (ValidateResponseMatch_Ok m Hv) as (Hall & Hany & Hnot & Hset).
  destruct (optional_children_ok ValidateResponseMatch translateResponseMatch
    "missing response match" rspMeans pbRspMeans pb.ResponseMatch_All (forallMatches rspMeans) (rs_All m))
    as (mall & Emall & Fmall & Nall); [done| |done|].
  { intros l c Hl Hin. apply IH, responseSize_child. left. eauto. }
  destruct (optional_children_ok ValidateResponseMatch translateResponseMatch
    "missing response match" rspMeans pbRspMeans pb.ResponseMatch_Any (existsMatches rspMeans) (rs_Any m))
    as (many & Emany & Fmany & Nany); [done| |done|].
  { intros l c Hl Hin. apply IH, responseSize_child. left. eauto. }
  destruct (optional_not_ok ValidateResponseMatch translateResponseMatch rspMeans pbRspMeans
    pb.ResponseMatch_Not (rs_Not m)) as (mnot & Emnot & Fmnot & Nnot); [done| |done|].
  { intros c Hc. apply IH, responseSize_child. by right. }
  destruct (combine_ok pbRspMeans pb.ResponseMatch_All "a response match must have a field set"
    (responseParts m mall many mnot)) as (p & Hp & Hm); [done|by apply Hset|].
  exists p. split.
  - rewrite translateResponseMatch_eq, Hv. unfold res_bind in *. by rewrite Emall, Emany, Emnot.
  - rewrite Hm. unfold responseParts. rewrite !forallb_app, Fmall, Fmany, Fmnot, !andb_assoc.
    destruct m as [all not any status]. simpl. destruct status; simpl; by rewrite ?andb_true_r.
Qed.
End match_translation.

(** * Properties *)
(** C33: the request matches of a ServiceProfile keep their meaning.  A condition translates
    exactly when it is valid, and the message then matches the same requests: a match with
    several fields set stands for their conjunction, whatever the proxy takes methods and
    path expressions to match. *)
Theorem request_match_meaning methodMatches pathMatches registered m :
  is_ok (toRequestMatch registered (Some m)) = is_ok (ValidateRequestMatch m)
  ∧ ∀ p, toRequestMatch registered (Some m) = Ok p →
      pbRequestMatches methodMatches pathMatches p
      = requestMatches methodMatches pathMatches registered m.
Proof.
  pose proof (translateRequestMatch_ok methodMatches pathMatches registered m) as Hm. simpl.
  rewrite translateRequestMatch_eq in *. unfold translates in Hm. rewrite translateRequestMatch_eq in Hm.
  destruct (ValidateRequestMatch m) as [[]| |]; [|done..].
  destruct (Hm eq_refl) as (p & Hp & Hmean). rewrite Hp. split; [done|]. by intros q [= <-].
Qed.

(** the response matches of a ServiceProfile keep their meaning, like the request matches. *)
Theorem response_match_meaning statusMatches m :
  is_ok (toResponseMatch (Some m)) = is_ok (ValidateResponseMatch m)
  ∧ ∀ p, toResponseMatch (Some m) = Ok p →
      pbResponseMatches statusMatches p = responseMatches statusMatches m.
Proof.
  pose proof (translateResponseMatch_ok statusMatches m) as Hm. simpl.
  rewrite translateResponseMatch_eq in *. unfold translates in Hm. rewrite translateResponseMatch_eq in Hm.
  destruct (ValidateResponseMatch m) as [[]| |]; [|done..].
  destruct (Hm eq_refl) as (p & Hp & Hmean). rewrite Hp. split; [done|]. by intros q [= <-].
Qed.

(** a nil child of a match crashes the translator.  A profile whose first route has a
    condition with a nil element in its [all] list makes the goroutine that serves the
    stream panic, although a nil condition by itself is reported as an error. *)
Theorem nil_match_panics registered ParseDuration pt profile route routes m l :
  sp_Routes profile = route :: routes → rt_Condition route = Some m → rm_All m = Some (None :: l) →
  update registered ParseDuration pt (Some profile) = Panic
  ∧ is_err (toRequestMatch registered None) = true.
Proof.
  intros Hr Hc Hm. split; [|done]. unfold update, createDestinationProfile. rewrite Hr. simpl.
  unfold toRoute at 1. rewrite Hc. simpl. rewrite translateRequestMatch_eq.
  destruct m as [all not any path method]. simpl in *. by subst all.
Qed.

Lemma nil_match_panics_witness :
  let m := mkRequestMatch (Some [None]) None None "" "" in
  let profile := mkServiceProfile "ServiceProfile" "p" "ns" [mkRouteSpec "r" (Some m) [] false ""]
                   None [] None in
  update (λ _, None) (λ _, Err "") (newProfileTranslator "ns" "svc" "svc.ns" 80) (Some profile) = Panic.
Proof.
  intros m profile.
  apply (nil_match_panics (λ _, None) (λ _, Err "") (newProfileTranslator "ns" "svc" "svc.ns" 80)
    profile (mkRouteSpec "r" (Some m) [] false "") [] m []); reflexivity.
Defined.

(** durations are exact.  A 64-bit number of nanoseconds other than zero is split into
    seconds and nanoseconds of the same sign that fit the fields of the message. *)
Theorem toDuration_spec d :
  -2^63 ≤ d < 2^63 →
  match toDuration d with
  | None => d = 0
  | Some r => pb.Seconds r * Second + pb.Nanos r = d ∧ Z.abs (pb.Nanos r) < Second
              ∧ 0 ≤ pb.Seconds r * d ∧ 0 ≤ pb.Nanos r * d ∧ is_i32 (pb.Nanos r)
  end.
Proof.
  intros Hd. unfold toDuration. case_bool_decide as H0; [done|]. simpl. unfold Second.
  pose proof (Z.quot_rem' d 1000000000) as Hqr.
  pose proof (Z.rem_bound_abs d 1000000000 ltac:(lia)) as Hb. rewrite (Z.abs_eq 1000000000) in Hb by lia.
  rewrite i32_id by (unfold is_i32; lia). unfold is_i32.
  pose proof (Z.rem_sign_mul d 1000000000 ltac:(lia)) as Hs.
  assert (0 ≤ (d ÷ 1000000000) * d) as Hq.
  { destruct (Z.le_ge_cases 0 d).
    - apply Z.mul_nonneg_nonneg; [apply Z.quot_pos|]; lia.
    - rewrite <-(Z.opp_involutive d) at 1. rewrite Z.quot_opp_l by lia.
      pose proof (Z.quot_pos (- d) 1000000000 ltac:(lia) ltac:(lia)). nia. }
  split_and!; nia || lia.
Qed.

Lemma toDuration_spec_witness :
  toDuration (-1500000000) = Some (pb.mkDuration (-1) (-500000000)) ∧ (-1) * Second + -500000000 = -1500000000.
Proof.
  split; [reflexivity|].
  apply (toDuration_spec (-1500000000)). lia.
Defined.

(** the overrides of a profile keep their order and, up to 42,949,672 times the whole
    traffic, their weight in ten thousandths; an authority that has a port is kept, and
    one without brackets that has none gets the port of the request. *)
Theorem toDstOverrides_spec dsts port i dst :
  is_u16 port → dsts !! i = Some dst →
  ∃ o, toDstOverrides dsts port !! i = Some o
    ∧ (0 ≤ wd_MilliWeight dst ≤ 429496729 → pb.wd_Weight o = 10 * wd_MilliWeight dst)
    ∧ (net.SplitHostPort (wd_Authority dst) ≠ None → pb.wd_Authority o = wd_Authority dst)
    ∧ (net.SplitHostPort (wd_Authority dst) = None → net.no_brackets (wd_Authority dst) →
       net.SplitHostPort (pb.wd_Authority o) = Some (wd_Authority dst, strconv.Itoa port)).
Proof.
  intros Hport Hi. unfold toDstOverrides. rewrite list_lookup_fmap, Hi. simpl. eexists. split; [done|].
  split_and!; simpl.
  - intros Hw. unfold millisPerDecimilli. rewrite u32_id by (unfold is_u32; lia). lia.
  - by destruct (net.SplitHostPort (wd_Authority dst)).
  - intros -> Hb. apply net.SplitHostPort_JoinHostPort; [done|split|];
      apply strconv.Itoa_no_delimiter; try apply Hport; tauto.
Qed.

Lemma toDstOverrides_spec_witness :
  ∃ o, toDstOverrides [mkWeightedDstSpec "web.ns.svc.cluster.local" 500] 8080 !! 0%nat = Some o
    ∧ pb.wd_Weight o = 5000
    ∧ net.SplitHostPort (pb.wd_Authority o) = Some ("web.ns.svc.cluster.local", "8080").
Proof.
  destruct (toDstOverrides_spec [mkWeightedDstSpec "web.ns.svc.cluster.local" 500] 8080 0
    (mkWeightedDstSpec "web.ns.svc.cluster.local" 500)) as (o & Ho & Hw & _ & Ha);
    [split; lia|reflexivity|].
  exists o. split_and!; [exact Ho|apply Hw; simpl; lia|apply Ha; [reflexivity|split; reflexivity]].
Defined.

(** ** The stream *)
Section stream.
Context (registered : string → option Z) (ParseDuration : string → res Z).

(** The message of an update: none when the profile does not translate. *)
Definition message (pt : profileTranslator) (u : option ServiceProfile) : option pb.DestinationProfile :=
  match u with
  | None => Some (defaultServiceProfile pt)
  | Some p => res_ok (createDestinationProfile registered ParseDuration pt p)
  end.

(** The translator running: updates arrive and are processed.  The first list has all the
    updates that arrived. *)
Inductive pt_run (pt : profileTranslator) : list (option ServiceProfile) → profileTranslator → Prop :=
  | PtStart : pt_run pt [] pt
  | PtUpdate us pt1 u : pt_run pt us pt1 → pt_run pt (us ++ [u]) (Update pt1 u)
  | PtReceive us pt1 pt2 : pt_run pt us pt1 →
      receive registered ParseDuration pt1 = Some (Ok pt2) → pt_run pt us pt2.

(** Messages depend on the parameters of the translator only. *)
Definition same_target (pt pt' : profileTranslator) : Prop :=
  fullyQualifiedName pt = fullyQualifiedName pt' ∧ port pt = port pt' ∧ parentRef pt = parentRef pt'.
Lemma message_same pt pt' u : same_target pt pt' → message pt u = message pt' u.
Proof.
  intros (Hf & Hp & Hr). destruct u as [p|]; simpl.
  - unfold createDestinationProfile. by rewrite Hf, Hp, Hr.
  - unfold defaultServiceProfile. by rewrite Hf.
Qed.

Lemma receive_step pt pt' :
  receive registered ParseDuration pt = Some (Ok pt') →
  ∃ u, updates pt = u :: updates pt' ∧ sent pt' = sent pt ++ option_list (message pt u)
    ∧ same_target pt pt' ∧ endStream pt' = endStream pt.
Proof.
  unfold receive. destruct (updates pt) as [|u us] eqn:Hu; [done|]. intros [= Hup]. exists u.
  destruct u as [p|]; simpl in *.
  - change (createDestinationProfile registered ParseDuration pt p)
      with (createDestinationProfile registered ParseDuration (set_updates us pt) p).
    destruct (createDestinationProfile _ _ (set_updates us pt) p) as [d| |]; simplify_eq/=; [done|].
    by rewrite app_nil_r.
  - simplify_eq/=. done.
Qed.

(** nothing is lost silently.  Whatever the interleaving of updates and processing, the
    queue never exceeds 100; as long as the stream has not been ended, the updates that
    arrived are those processed followed by those waiting, in order, and the messages sent
    are those of the processed updates, where a profile that does not translate sends none. *)
Theorem profile_stream_in_order ns name fqn prt us pt :
  pt_run (newProfileTranslator ns name fqn prt) us pt →
  (length (updates pt) ≤ updateQueueCapacity)%nat
  ∧ (endStream pt = false → ∃ processed, us = processed ++ updates pt
       ∧ sent pt = omap (message (newProfileTranslator ns name fqn prt)) processed).
Proof.
  set (pt0 := newProfileTranslator ns name fqn prt). intros Hrun.
  enough (same_target pt0 pt ∧ (length (updates pt) ≤ updateQueueCapacity)%nat
    ∧ (endStream pt = false → ∃ processed, us = processed ++ updates pt
         ∧ sent pt = omap (message pt0) processed)) by tauto.
  induction Hrun as [|us pt1 u _ (Hs & Hl & IH)|us pt1 pt2 _ (Hs & Hl & IH) Hr].
  - split_and!; [done|simpl; lia|]. intros _. by exists [].
  - unfold Update. case_bool_decide as Hc; [|by split_and!].
    split_and!; [done|simpl; rewrite length_app; simpl; lia|]. simpl. intros He.
    destruct (IH He) as (processed & -> & Hsent). exists processed. by rewrite app_assoc.
  - apply receive_step in Hr as (u & Hu & Hsent & Hs' & He). rewrite Hu in Hl, IH. simpl in Hl.
    destruct Hs as (? & ? & ?), Hs' as (? & ? & ?).
    split_and!; [split_and!; congruence|lia|]. rewrite He. intros Hend.
    destruct (IH Hend) as (processed & -> & Hp). exists (processed ++ [u]).
    rewrite <-app_assoc. split; [done|]. rewrite Hsent, Hp, omap_app.
    rewrite (message_same pt1 pt0 u) by (split_and!; congruence).
    change (omap (message pt0) [u]) with (match message pt0 u with Some m => [m] | None => [] end).
    by destruct (message pt0 u).
Qed.
End stream.

Lemma profile_stream_in_order_witness :
  let pt0 := newProfileTranslator "ns" "svc" "svc.ns" 80 in
  ∃ pt, pt_run (λ _, None) (λ _, Err "") pt0 [None] pt ∧ sent pt = [defaultServiceProfile pt0].
Proof.
  intros pt0. set (pt1 := Update pt0 None).
  assert (pt_run (λ _, None) (λ _, Err "") pt0 [None]
    (set_sent [defaultServiceProfile pt0] pt0)) as Hrun.
  { apply (PtReceive _ _ _ _ pt1); [|reflexivity]. apply (PtUpdate _ _ pt0 [] pt0 None (PtStart _ _ _)). }
  eexists. split; [exact Hrun|].
  destruct (profile_stream_in_order (λ _, None) (λ _, Err "") "ns" "svc" "svc.ns" 80 _ _ Hrun)
    as [_ Hin]. destruct (Hin eq_refl) as (processed & Heq & Hsent). simpl in Heq, Hsent.
  rewrite app_nil_r in Heq. subst processed. exact Hsent.
Defined.
