(* ===== verification/Profiles.v ===== *)
(** [watcher/profile_watcher.go] and the listeners a GetProfile stream puts between the
    watchers and its translator: [fallback_profile_listener.go],
    [default_profile_listener.go], [dedup_profile_listener.go] and
    [opaque_ports_adaptor.go], composed as in [subscribeToServiceProfile] of [server.go].

    A [*ServiceProfile] is an address, [None] when it is nil; the objects of the informer
    cache are not modified, so what the addresses hold is a parameter. *)
From S2P Require Import Prelude GoStd K8s PortRange Addresses ProfileTranslator.

#[local] Open Scope string_scope.
#[local] Open Scope list_scope.
#[local] Open Scope Z_scope.

Abbreviation ptr := positive.

(** * ProfileWatcher *)
Record profilePublisher := mkProfilePublisher {
  pp_profile : option ptr; pp_listeners : list nat }.
Abbreviation ProfileWatcher := (gmap ID profilePublisher).  (* the map [profiles] *)

(** The calls of [Update]: the publisher, the listener and the profile. *)
Abbreviation profile_events := (list (ID * (nat * option ptr))).

Module ProfilePublisher.
Definition subscribe (id : ID) (pp : profilePublisher) (listener : nat)
    : profilePublisher * profile_events :=
  (mkProfilePublisher (pp_profile pp) (pp_listeners pp ++ [listener]),
   [(id, (listener, pp_profile pp))]).

Definition unsubscribe (pp : profilePublisher) (listener : nat) : profilePublisher :=
  mkProfilePublisher (pp_profile pp) (swap_remove listener (pp_listeners pp)).

Definition update (id : ID) (pp : profilePublisher) (profile : option ptr)
    : profilePublisher * profile_events :=
  (mkProfilePublisher profile (pp_listeners pp), (λ l, (id, (l, profile))) <$> pp_listeners pp).
End ProfilePublisher.

(** The publisher of a profile; [lister] is the read of the cache. *)
Definition getOrNewProfilePublisher (lister : ID → option ptr) (pw : ProfileWatcher) (id : ID)
    (profile : option ptr) : profilePublisher :=
  match pw !! id with
  | Some pp => pp
  | None => mkProfilePublisher match profile with Some p => Some p | None => lister id end []
  end.

Definition Subscribe (lister : ID → option ptr) (pw : ProfileWatcher) (id : ID) (listener : nat)
    : ProfileWatcher * profile_events :=
  let '(pp, evs) :=
    ProfilePublisher.subscribe id (getOrNewProfilePublisher lister pw id None) listener in
  (<[id := pp]> pw, evs).

(** An unknown profile is logged, and the nil publisher dereferenced. *)
Definition Unsubscribe (pw : ProfileWatcher) (id : ID) (listener : nat) : res ProfileWatcher :=
  match pw !! id with
  | Some pp => Ok (<[id := ProfilePublisher.unsubscribe pp listener]> pw)
  | None => Panic
  end.

Definition addProfile (lister : ID → option ptr) (pw : ProfileWatcher) (id : ID) (profile : ptr)
    : ProfileWatcher * profile_events :=
  let '(pp, evs) :=
    ProfilePublisher.update id (getOrNewProfilePublisher lister pw id (Some profile)) (Some profile) in
  (<[id := pp]> pw, evs).

(** Apart from a metric, an update is an addition. *)
Definition updateProfile (lister : ID → option ptr) (pw : ProfileWatcher) (id : ID) (old new : ptr)
    : ProfileWatcher * profile_events := addProfile lister pw id new.

Definition deleteProfile (pw : ProfileWatcher) (id : ID) : ProfileWatcher * profile_events :=
  match pw !! id with
  | Some pp => let '(pp, evs) := ProfilePublisher.update id pp None in (<[id := pp]> pw, evs)
  | None => (pw, [])
  end.

(** ** The watcher over time *)
(** What each subscription was told last. *)
Abbreviation profiles_told := (gmap (ID * nat) (option ptr)).
Definition tellProfile (t : profiles_told) (e : ID * (nat * option ptr)) : profiles_told :=
  if decide (is_Some (t !! (e.1, e.2.1))) then <[(e.1, e.2.1) := e.2.2]> t else t.

(** The profiles of the cluster, the watcher, and what it told. *)
Definition pw_state : Type := gmap ID ptr * ProfileWatcher * profiles_told.

Inductive pw_step : pw_state → pw_state → Prop :=
  | PwAdd cl pw t id p :
      let r := addProfile (λ i, <[id := p]> cl !! i) pw id p in
      pw_step (cl, pw, t) (<[id := p]> cl, r.1, foldl tellProfile t r.2)
  | PwUpdate cl pw t id old p :
      let r := updateProfile (λ i, <[id := p]> cl !! i) pw id old p in
      pw_step (cl, pw, t) (<[id := p]> cl, r.1, foldl tellProfile t r.2)
  | PwDelete cl pw t id :
      let r := deleteProfile pw id in
      pw_step (cl, pw, t) (delete id cl, r.1, foldl tellProfile t r.2)
  | PwSubscribe cl pw t id l :
      t !! (id, l) = None →
      let r := Subscribe (λ i, cl !! i) pw id l in
      pw_step (cl, pw, t) (cl, r.1, foldl tellProfile (<[(id, l) := None]> t) r.2)
  | PwUnsubscribe cl pw t id l pw' :
      Unsubscribe pw id l = Ok pw' → pw_step (cl, pw, t) (cl, pw', delete (id, l) t).

(** Publishers have the profile of the cluster, and subscribers that of their publisher. *)
Definition pw_inv (s : pw_state) : Prop :=
  let '(cl, pw, t) := s in
  (∀ id pp, pw !! id = Some pp → NoDup (pp_listeners pp) ∧ pp_profile pp = cl !! id)
  ∧ (∀ id l p, t !! (id, l) = Some p →
       p = cl !! id ∧ ∃ pp, pw !! id = Some pp ∧ l ∈ pp_listeners pp)
  ∧ (∀ id l pp, pw !! id = Some pp → l ∈ pp_listeners pp → is_Some (t !! (id, l))).

(** A publisher's update reaches its subscribers and nobody else. *)
Lemma lookup_tell_update id ls (p : option ptr) t id' l :
  foldl tellProfile t ((λ l, (id, (l, p))) <$> ls) !! (id', l)
  = if decide (id' = id ∧ l ∈ ls) then (λ _, p) <$> t !! (id', l) else t !! (id', l).
Proof.
  revert t. induction ls as [|x ls IH]; intros t; simpl; [by rewrite decide_False by set_solver|].
  rewrite IH. unfold tellProfile. simpl.
  assert ((if decide (is_Some (t !! (id, x))) then <[(id, x):=p]> t else t) !! (id', l)
    = if decide (id' = id ∧ l = x) then (λ _, p) <$> t !! (id', l) else t !! (id', l)) as ->.
  { destruct (decide (id' = id ∧ l = x)) as [[-> ->]|Hne].
    - destruct (decide (is_Some (t !! (id, x)))) as [[q Hq]|Hs].
      + by rewrite lookup_insert_eq, Hq.
      + apply eq_None_not_Some in Hs. by rewrite Hs.
    - destruct (decide (is_Some _)); [rewrite lookup_insert_ne by naive_solver|]; done. }
  destruct (decide (id' = id ∧ l ∈ ls)), (decide (id' = id ∧ l ∈ x :: ls)),
    (decide (id' = id ∧ l = x)); try set_solver.
  by destruct (t !! (id', l)).
Qed.

(** Setting the profile of a publisher to the new one of the cluster. *)
Lemma pw_inv_set cl cl' pw t id p ls :
  pw_inv (cl, pw, t) → cl' !! id = p → (∀ id', id' ≠ id → cl' !! id' = cl !! id') →
  ls = match pw !! id with Some pp => pp_listeners pp | None => [] end →
  pw_inv (cl', <[id := mkProfilePublisher p ls]> pw, foldl tellProfile t ((λ l, (id, (l, p))) <$> ls)).
Proof.
  intros (H1 & H2 & H3) Hp Hcl Hls. unfold pw_inv. split_and!.
  - intros id' pp [[<- <-]|[Hne Hpp]]%lookup_insert_Some; simpl.
    + split; [|done]. subst ls. destruct (pw !! id) as [pp|] eqn:E; [by apply H1 in E as []|constructor].
    + rewrite Hcl by done. by apply H1.
  - intros id' l q. rewrite lookup_tell_update. destruct (decide (id' = id)) as [->|Hne].
    + destruct (t !! (id, l)) as [q0|] eqn:Ht; [|by case_decide].
      destruct (H2 _ _ _ Ht) as (_ & pp & Hpp & Hin). rewrite Hpp in Hls. subst ls.
      rewrite decide_True by done. simpl. intros [= <-]. split; [done|].
      eexists. by rewrite lookup_insert_eq.
    + rewrite decide_False by naive_solver. intros Ht. rewrite Hcl by done.
      destruct (H2 _ _ _ Ht) as (? & pp & Hpp & Hin). split; [done|]. exists pp.
      by rewrite lookup_insert_ne.
  - intros id' l pp Hl Hin. rewrite lookup_tell_update.
    apply lookup_insert_Some in Hl as [[<- <-]|[Hne Hpp]]; simpl in *.
    + rewrite decide_True by done. subst ls. destruct (pw !! id) as [pp|] eqn:E; [|by apply not_elem_of_nil in Hin].
      destruct (H3 _ _ _ E Hin) as [q ->]. by eexists.
    + rewrite decide_False by naive_solver. by eapply H3.
Qed.

Lemma pw_inv_subscribe cl pw t id l :
  pw_inv (cl, pw, t) → t !! (id, l) = None →
  let r := Subscribe (λ i, cl !! i) pw id l in
  pw_inv (cl, r.1, foldl tellProfile (<[(id, l) := None]> t) r.2).
Proof.
  intros Hinv Hfresh r.
  destruct Hinv as (H1 & H2 & H3). unfold r, Subscribe, getOrNewProfilePublisher. simpl.
  set (pp := match pw !! id with Some pp => pp | None => _ end).
  assert (NoDup (pp_listeners pp) ∧ pp_profile pp = cl !! id ∧ l ∉ pp_listeners pp) as (Hnd & Hpr & Hni).
  { unfold pp. destruct (pw !! id) as [q|] eqn:Hq; [|by split_and!; [constructor| |apply not_elem_of_nil]].
    destruct (H1 _ _ Hq). split_and!; [done..|]. intros Hin. destruct (H3 _ _ _ Hq Hin). congruence. }
  unfold tellProfile. simpl. rewrite lookup_insert_eq, decide_True, insert_insert_eq by eauto.
  split_and!.
  + intros id' q [[<- <-]|[_ Hq]]%lookup_insert_Some; [|by apply H1]. simpl. split; [|done].
    apply NoDup_app. split_and!; [done|set_solver|apply NoDup_singleton].
  + intros id' l' q [[[= <- <-] <-]|[Hne Hq]]%lookup_insert_Some.
    * split; [done|]. eexists. rewrite lookup_insert_eq. split; [done|]. simpl. set_solver.
    * destruct (H2 _ _ _ Hq) as (? & q' & Hq' & Hin). split; [done|].
      destruct (decide (id' = id)) as [->|]; [|exists q'; by rewrite lookup_insert_ne].
      eexists. rewrite lookup_insert_eq. split; [done|]. simpl. unfold pp. rewrite Hq'. set_solver.
  + intros id' l' q Hl Hin. destruct (decide ((id, l) = (id', l'))) as [<-|Hne];
      [by rewrite lookup_insert_eq|rewrite lookup_insert_ne by done].
    apply lookup_insert_Some in Hl as [[<- <-]|[Hne' Hl]]; [|by eapply H3]. simpl in Hin.
    apply elem_of_app in Hin as [Hin| ->%list_elem_of_singleton]; [|done].
    unfold pp in Hin. destruct (pw !! id) eqn:Hq; [by eapply H3|by apply not_elem_of_nil in Hin].
Qed.

Lemma pw_inv_unsubscribe cl pw t id l pw' :
  pw_inv (cl, pw, t) → Unsubscribe pw id l = Ok pw' → pw_inv (cl, pw', delete (id, l) t).
Proof.
  intros Hinv Hu.
  destruct Hinv as (H1 & H2 & H3). unfold Unsubscribe in Hu.
  destruct (pw !! id) as [pp|] eqn:Hpp; simplify_eq. destruct (H1 _ _ Hpp) as [Hnd Hpr].
  destruct (swap_remove_NoDup l (pp_listeners pp) Hnd) as [Hnd' Hel]. split_and!.
  + intros id' q [[<- <-]|[_ Hq]]%lookup_insert_Some; [done|by apply H1].
  + intros id' l' q [Hne Hq]%lookup_delete_Some. destruct (H2 _ _ _ Hq) as (? & q' & Hq' & Hin).
    split; [done|]. destruct (decide (id' = id)) as [->|]; [|exists q'; by rewrite lookup_insert_ne].
    eexists. rewrite lookup_insert_eq. split; [done|]. simpl. apply Hel. simplify_eq.
    split; [congruence|done].
  + intros id' l' q Hl Hin. apply lookup_insert_Some in Hl as [[<- <-]|[Hne Hl]].
    * simpl in Hin. apply Hel in Hin as [Hne Hin]. rewrite lookup_delete_ne by congruence. by eapply H3.
    * rewrite lookup_delete_ne by congruence. by eapply H3.
Qed.

Lemma pw_step_inv s s' : pw_step s s' → pw_inv s → pw_inv s'.
Proof.
  destruct 1 as [cl pw t id p r|cl pw t id old p r|cl pw t id r|cl pw t id l Hfresh r|cl pw t id l pw' Hu];
    intros Hinv.
  - unfold r, addProfile, getOrNewProfilePublisher, ProfilePublisher.update. simpl.
    apply (pw_inv_set cl); [done|by rewrite lookup_insert_eq|by intros; rewrite lookup_insert_ne|].
    by destruct (pw !! id).
  - unfold r, updateProfile, addProfile, getOrNewProfilePublisher, ProfilePublisher.update. simpl.
    apply (pw_inv_set cl); [done|by rewrite lookup_insert_eq|by intros; rewrite lookup_insert_ne|].
    by destruct (pw !! id).
  - unfold r, deleteProfile. destruct (pw !! id) as [pp|] eqn:Hpp.
    + unfold ProfilePublisher.update. simpl. apply (pw_inv_set cl);
        [done|by rewrite lookup_delete_eq|by intros; rewrite lookup_delete_ne|by rewrite Hpp].
    + simpl. destruct Hinv as (H1 & H2 & H3). split_and!; [| |done].
      * intros id' pp Hl. assert (id' ≠ id) by congruence. rewrite lookup_delete_ne by done. by apply H1.
      * intros id' l q Hl. destruct (H2 _ _ _ Hl) as (-> & pp & Hp & Hin).
        assert (id' ≠ id) by congruence. rewrite lookup_delete_ne by done. eauto.
  - by apply pw_inv_subscribe.
  - by eapply pw_inv_unsubscribe.
Qed.

(** profile subscribers are never behind.  After any sequence of profile events,
    subscriptions and unsubscriptions, what each subscriber was told last is the profile the
    cluster has now, or nil when it has none. *)
Theorem profile_listeners_current s id l p :
  rtc pw_step (∅, ∅, ∅) s → s.2 !! (id, l) = Some p → p = s.1.1 !! id.
Proof.
  intros Hr. assert (pw_inv s) as Hinv.
  { remember (∅, ∅, ∅) as s0 eqn:Hs0. assert (pw_inv s0) as H0.
    { rewrite Hs0. split_and!; intros *; by rewrite lookup_empty. }
    clear Hs0. induction Hr as [|s0 s1 s2 Hstep _ IH]; [done|]. apply IH. by eapply pw_step_inv. }
  destruct s as [[cl pw] t]. destruct Hinv as (_ & H2 & _). simpl. intros Hp. by apply (H2 _ _ _ Hp).
Qed.

Definition ex_profile_id : ID := mkID "ns" "web.ns.svc.cluster.local" "".
Definition ex_pw1 : pw_state :=
  let r := Subscribe (λ i, (∅ : gmap ID ptr) !! i) ∅ ex_profile_id 1 in
  (∅, r.1, foldl tellProfile (<[(ex_profile_id, 1%nat) := None]> ∅) r.2).
Definition ex_pw2 : pw_state :=
  let r := addProfile (λ i, <[ex_profile_id := 7%positive]> ex_pw1.1.1 !! i) ex_pw1.1.2 ex_profile_id 7 in
  (<[ex_profile_id := 7%positive]> ex_pw1.1.1, r.1, foldl tellProfile ex_pw1.2 r.2).

Lemma profile_listeners_current_witness :
  ex_pw2.2 !! (ex_profile_id, 1%nat) = Some (Some 7%positive)
  ∧ Some 7%positive = ex_pw2.1.1 !! ex_profile_id.
Proof.
  assert (ex_pw2.2 !! (ex_profile_id, 1%nat) = Some (Some 7%positive)) as Ht by (vm_compute; reflexivity).
  split; [exact Ht|]. apply (profile_listeners_current ex_pw2 ex_profile_id 1); [|exact Ht].
  eapply rtc_l; [apply (PwSubscribe ∅ ∅ ∅ ex_profile_id 1); apply lookup_empty|].
  eapply rtc_l; [apply (PwAdd ∅ _ _ ex_profile_id 7)|]. apply rtc_refl.
Defined.

(** * The listeners of a stream *)
(** fallback_profile_listener.go *)
Record childListener := mkChild { cl_state : option ptr; cl_initialized : bool }.
Record fallbackProfileListener := mkFallback { primary : childListener; backup : childListener }.
Definition newFallbackProfileListener : fallbackProfileListener :=
  mkFallback (mkChild None false) (mkChild None false).

(** [publish]: the call of the parent's [Update], if any. *)
Definition fallbackPublish (f : fallbackProfileListener) : option (option ptr) :=
  if negb (cl_initialized (primary f)) then None
  else if negb (cl_initialized (backup f)) then None
  else if bool_decide (cl_state (primary f) = None ∧ cl_state (backup f) ≠ None)
  then Some (cl_state (backup f))
  else Some (cl_state (primary f)).

Inductive child := Primary | Backup.
Definition childUpdate (f : fallbackProfileListener) (c : child) (profile : option ptr)
    : fallbackProfileListener * option (option ptr) :=
  let f := match c with
           | Primary => mkFallback (mkChild profile true) (backup f)
           | Backup => mkFallback (primary f) (mkChild profile true)
           end in
  (f, fallbackPublish f).

(** default_profile_listener.go *)
Definition defaultUpdate (default : ptr) (profile : option ptr) : option ptr :=
  match profile with None => Some default | Some p => Some p end.

(** dedup_profile_listener.go *)
Record dedupProfileListener := mkDedup { dd_state : option ptr; dd_initialized : bool }.
Definition newDedupProfileListener : dedupProfileListener := mkDedup None false.
Definition dedupUpdate (d : dedupProfileListener) (profile : option ptr)
    : dedupProfileListener * option (option ptr) :=
  if dd_initialized d && bool_decide (profile = dd_state d) then (d, None)
  else (mkDedup profile true, Some profile).

(** opaque_ports_adaptor.go *)
Record opaquePortsAdaptor := mkAdaptor { oa_profile : option ptr; oa_opaquePorts : option ports }.
Definition newOpaquePortsAdaptor : opaquePortsAdaptor := mkAdaptor None None.

Section stack.
Context (heap : ptr → ServiceProfile) (dflt : ptr).

(** [p := *opa.profile; p.Spec.OpaquePorts = opa.opaquePorts] *)
Definition withOpaquePorts (p : ptr) (ps : option ports) : ServiceProfile :=
  let v := heap p in
  mkServiceProfile (sp_Kind v) (sp_ProfileName v) (sp_ProfileNamespace v) (sp_Routes v)
    (sp_RetryBudget v) (sp_DstOverrides v) ps.

Definition adaptorPublish (opa : opaquePortsAdaptor) : option ServiceProfile :=
  p ← oa_profile opa; Some (withOpaquePorts p (oa_opaquePorts opa)).
Definition adaptorUpdate (opa : opaquePortsAdaptor) (profile : option ptr)
    : opaquePortsAdaptor * option ServiceProfile :=
  let opa := mkAdaptor profile (oa_opaquePorts opa) in (opa, adaptorPublish opa).
Definition adaptorUpdateService (opa : opaquePortsAdaptor) (ps : ports)
    : opaquePortsAdaptor * option ServiceProfile :=
  let opa := mkAdaptor (oa_profile opa) (Some ps) in (opa, adaptorPublish opa).

(** The listeners as [subscribeToServiceProfile] and [subscribeToServicesWithContext] put
    them together, and the profiles handed to the translator. *)
Record stack := mkStack {
  st_fallback : fallbackProfileListener; st_dedup : dedupProfileListener;
  st_adaptor : opaquePortsAdaptor; st_out : list ServiceProfile }.
Definition newStack : stack :=
  mkStack newFallbackProfileListener newDedupProfileListener newOpaquePortsAdaptor [].

Inductive stack_event := ProfileEvent (c : child) (p : option ptr) | PortsEvent (ps : ports).
Definition stackStep (s : stack) (e : stack_event) : stack :=
  match e with
  | ProfileEvent c p =>
      let '(f, out) := childUpdate (st_fallback s) c p in
      match out with
      | None => mkStack f (st_dedup s) (st_adaptor s) (st_out s)
      | Some p =>
          let '(d, out) := dedupUpdate (st_dedup s) (defaultUpdate dflt p) in
          match out with
          | None => mkStack f d (st_adaptor s) (st_out s)
          | Some p =>
              let '(a, out) := adaptorUpdate (st_adaptor s) p in
              mkStack f d a (st_out s ++ option_list out)
          end
      end
  | PortsEvent ps =>
      let '(a, out) := adaptorUpdateService (st_adaptor s) ps in
      mkStack (st_fallback s) (st_dedup s) a (st_out s ++ option_list out)
  end.

(** The last profile of a child, [None] before it has one, and the last ports. *)
Definition lastProfile (c : child) (evs : list stack_event) : option (option ptr) :=
  foldl (λ acc e, match e, c with
                  | ProfileEvent Primary p, Primary | ProfileEvent Backup p, Backup => Some p
                  | _, _ => acc
                  end) None evs.
Definition lastPorts (evs : list stack_event) : option ports :=
  foldl (λ acc e, match e with PortsEvent ps => Some ps | _ => acc end) None evs.

(** The profile of the client's namespace, else that of the service's, else the default. *)
Definition selectedProfile (primary backup : option ptr) : ptr :=
  match primary, backup with Some p, _ => p | None, Some p => p | None, None => dflt end.

Definition childOf (o : option (option ptr)) : childListener :=
  match o with Some p => mkChild p true | None => mkChild None false end.

Definition stack_inv (evs : list stack_event) (s : stack) : Prop :=
  st_fallback s = mkFallback (childOf (lastProfile Primary evs)) (childOf (lastProfile Backup evs))
  ∧ oa_opaquePorts (st_adaptor s) = lastPorts evs
  ∧ match lastProfile Primary evs, lastProfile Backup evs with
    | Some p, Some b =>
        let sel := selectedProfile p b in
        st_dedup s = mkDedup (Some sel) true ∧ oa_profile (st_adaptor s) = Some sel
        ∧ last (st_out s) = Some (withOpaquePorts sel (lastPorts evs))
    | _, _ => st_dedup s = newDedupProfileListener ∧ oa_profile (st_adaptor s) = None ∧ st_out s = []
    end.

Lemma fallbackPublish_childOf p b :
  fallbackPublish (mkFallback (childOf p) (childOf b))
  = match p, b with
    | Some p, Some b => Some match p, b with None, Some b => Some b | _, _ => p end
    | _, _ => None
    end.
Proof.
  unfold fallbackPublish. destruct p as [[p|]|], b as [[b|]|]; simpl; try done.
Qed.

(** What the dedup listener and the adaptor have after a profile is delivered. *)
Definition holds (d : dedupProfileListener) (a : opaquePortsAdaptor) (out : list ServiceProfile)
    (o : option ptr) (ps : option ports) : Prop :=
  oa_opaquePorts a = ps
  ∧ match o with
    | Some sel => d = mkDedup (Some sel) true ∧ oa_profile a = Some sel
                  ∧ last out = Some (withOpaquePorts sel ps)
    | None => d = newDedupProfileListener ∧ oa_profile a = None ∧ out = []
    end.

Definition selection (p b : option (option ptr)) : option ptr :=
  match p, b with Some p, Some b => Some (selectedProfile p b) | _, _ => None end.

Lemma stack_inv_holds evs s :
  stack_inv evs s ↔
  st_fallback s = mkFallback (childOf (lastProfile Primary evs)) (childOf (lastProfile Backup evs))
  ∧ holds (st_dedup s) (st_adaptor s) (st_out s)
      (selection (lastProfile Primary evs) (lastProfile Backup evs)) (lastPorts evs).
Proof.
  unfold stack_inv, holds, selection.
  destruct (lastProfile Primary evs), (lastProfile Backup evs); simpl; tauto.
Qed.

Lemma deliver_holds f s o sel ps :
  holds (st_dedup s) (st_adaptor s) (st_out s) o ps →
  let s' := let '(d, out) := dedupUpdate (st_dedup s) (Some sel) in
            match out with
            | None => mkStack f d (st_adaptor s) (st_out s)
            | Some p => let '(a, out) := adaptorUpdate (st_adaptor s) p in
                        mkStack f d a (st_out s ++ option_list out)
            end in
  st_fallback s' = f ∧ holds (st_dedup s') (st_adaptor s') (st_out s') (Some sel) ps.
Proof.
  intros [Hps Ho]. unfold holds. destruct o as [sel0|]; destruct Ho as (-> & Hp & Hout);
    unfold dedupUpdate; simpl.
  - case_bool_decide as Heq; simpl.
    + injection Heq as ->. by split_and!.
    + split_and!; try done. by rewrite last_snoc, Hps.
  - rewrite Hout. split_and!; try done. simpl. by rewrite Hps.
Qed.

Lemma ports_holds d a out o ps ps' :
  holds d a out o ps →
  let r := adaptorUpdateService a ps' in holds d r.1 (out ++ option_list r.2) o (Some ps').
Proof.
  intros [Hps Ho]. unfold holds, adaptorUpdateService, adaptorPublish. simpl.
  destruct o as [sel|]; destruct Ho as (-> & -> & Hout); simpl; (split_and!; [done..|]).
  - by rewrite last_snoc.
  - by rewrite Hout.
Qed.

#[local] Arguments defaultUpdate : simpl never.
#[local] Arguments dedupUpdate : simpl never.
#[local] Arguments adaptorUpdate : simpl never.

Lemma childUpdate_childOf P B c p :
  childUpdate (mkFallback (childOf P) (childOf B)) c p =
  let P' := match c with Primary => Some p | Backup => P end in
  let B' := match c with Primary => B | Backup => Some p end in
  (mkFallback (childOf P') (childOf B'),
   match P', B' with
   | Some p, Some b => Some match p, b with None, Some b => Some b | _, _ => p end
   | _, _ => None
   end).
Proof. unfold childUpdate. destruct c; simpl; f_equal; apply (fallbackPublish_childOf (Some _)) || apply (fallbackPublish_childOf _ (Some _)). Qed.

Lemma stackStep_inv evs s e : stack_inv evs s → stack_inv (evs ++ [e]) (stackStep s e).
Proof.
  rewrite !stack_inv_holds. intros [Hf Hh]. unfold lastProfile, lastPorts. rewrite !foldl_app.
  fold (lastProfile Primary evs) (lastProfile Backup evs) (lastPorts evs).
  generalize dependent (lastProfile Backup evs). generalize dependent (lastProfile Primary evs).
  intros P B Hf Hh. destruct e as [c p|ps']; cbn [foldl].
  - unfold stackStep. rewrite Hf, childUpdate_childOf. cbv zeta.
    destruct c, P as [P|], B as [B|]; simpl; try (split; [done|exact Hh]);
      match goal with |- context [defaultUpdate dflt ?q] =>
        first [assert (defaultUpdate dflt q = Some (selectedProfile p B)) as -> by (by destruct p, B)
              |assert (defaultUpdate dflt q = Some (selectedProfile P p)) as -> by (by destruct p, P)] end;
      exact (deliver_holds _ s _ _ _ Hh).
  - simpl. split; [done|]. by apply (ports_holds _ _ _ _ (lastPorts evs)).
Qed.

End stack.

(** * The adaptor without a lock

    The adaptor has no mutex: [Update] is called under the lock of the profile publisher and
    [UpdateService] under that of the opaque ports watcher, from the goroutines of two
    informers.  One call is a sequence of steps on the shared fields. *)
Section race.
Context (heap : ptr → ServiceProfile).

Inductive task := TaskUpdate (p : option ptr) | TaskUpdateService (ps : ports).
Inductive pc :=
  | Started                        (* before the assignment *)
  | Assigned                       (* before the test of [opa.profile] *)
  | Tested                         (* before the copy of [*opa.profile] *)
  | Copied (p : ptr)               (* before the read of [opa.opaquePorts] *)
  | Merged (v : ServiceProfile)    (* before the call of the listener *)
  | Returned.

(** One step of a call: the shared adaptor, the call, and what the listener gets. *)
Inductive call_step : opaquePortsAdaptor → task → pc → opaquePortsAdaptor → pc → list ServiceProfile → Prop :=
  | StepUpdate a p : call_step a (TaskUpdate p) Started (mkAdaptor p (oa_opaquePorts a)) Assigned []
  | StepUpdateService a ps :
      call_step a (TaskUpdateService ps) Started (mkAdaptor (oa_profile a) (Some ps)) Assigned []
  | StepNil a t : oa_profile a = None → call_step a t Assigned a Returned []
  | StepTest a t p : oa_profile a = Some p → call_step a t Assigned a Tested []
  | StepCopy a t p : oa_profile a = Some p → call_step a t Tested a (Copied p) []
  | StepMerge a t p :
      call_step a t (Copied p) a (Merged (withOpaquePorts heap p (oa_opaquePorts a))) []
  | StepListener a t v : call_step a t (Merged v) a Returned [v].

(** Two calls at the same time. *)
Record race := mkRace {
  ra_adaptor : opaquePortsAdaptor; ra_out : list ServiceProfile; ra_left : pc; ra_right : pc }.
Inductive race_step (left right : task) : race → race → Prop :=
  | StepLeft a out l r a' l' o :
      call_step a left l a' l' o → race_step left right (mkRace a out l r) (mkRace a' (out ++ o) l' r)
  | StepRight a out l r a' r' o :
      call_step a right r a' r' o → race_step left right (mkRace a out l r) (mkRace a' (out ++ o) l r').

(** concurrent updates can leave the client with outdated opaque ports.  For any profile
    update and port update that run at the same time there is an interleaving in which both
    calls return, the adaptor has the new profile and the new ports, and yet the last
    profile handed to the translator has the old ports. *)
Theorem adaptor_race_stale p0 p (old new : option ports) ps :
  new = Some ps →
  ∃ out, rtc (race_step (TaskUpdate (Some p)) (TaskUpdateService ps))
           (mkRace (mkAdaptor p0 old) [] Started Started)
           (mkRace (mkAdaptor (Some p) new) out Returned Returned)
    ∧ last out = Some (withOpaquePorts heap p old)
    ∧ sp_OpaquePorts (withOpaquePorts heap p old) = old.
Proof.
  intros ->. eexists. split; [|split; [|done]].
  - do 4 (eapply rtc_l; [apply StepLeft; by econstructor|]; simpl).
    do 5 (eapply rtc_l; [apply StepRight; by econstructor|]; simpl).
    eapply rtc_l; [apply StepLeft; by econstructor|]. simpl. apply rtc_refl.
  - done.
Qed.
End race.

Lemma adaptor_race_stale_witness :
  let heap (_ : ptr) := mkServiceProfile "" "" "" [] None [] None in
  ∃ out, rtc (race_step heap (TaskUpdate (Some 2%positive)) (TaskUpdateService {[3306]}))
           (mkRace (mkAdaptor (Some 1%positive) (Some ∅)) [] Started Started)
           (mkRace (mkAdaptor (Some 2%positive) (Some {[3306]})) out Returned Returned)
    ∧ sp_OpaquePorts <$> last out = Some (Some ∅).
Proof.
  intros heap.
  destruct (adaptor_race_stale heap (Some 1%positive) 2 (Some ∅) (Some {[3306]}) {[3306]} eq_refl)
    as (out & Hr & Hl & Ho). exists out. split; [exact Hr|]. rewrite Hl. reflexivity.
Defined.
