(* ===== verification/Names.v ===== *)
(** The names of [server.go]: authorities, service names and profile IDs. *)
From S2P Require Import Prelude GoStd K8s PortRange Addresses.

#[local] Open Scope string_scope.
#[local] Open Scope list_scope.
#[local] Open Scope Z_scope.

Record contextToken := mkContextToken { tok_Ns : string; tok_NodeName : string; tok_Pod : string }.

Definition getHostAndPort (authority : string) : res (string * Z) :=
  if negb (strings.Contains authority ":") then Ok (authority, 80) else
  match net.SplitHostPort authority with
  | None => Err "invalid destination"
  | Some (host, sport) =>
      match strconv.Atoi sport with
      | None => Err "invalid port"
      | Some port =>
          if bool_decide (port ≤ 0 ∨ 65535 < port) then Err "invalid port" else Ok (host, u32 port)
      end
  end.

(** [slice[len(slice)-len(suffix):]] compared element by element. *)
Definition hasSuffix (slice suffix : list string) : bool :=
  if bool_decide (length slice < length suffix)%nat then false
  else forallb (λ p, bool_decide (p.1 = p.2)) (zip (drop (length slice - length suffix) slice) suffix).

Definition parseK8sServiceName (fqdn clusterDomain : string) : res (ID * string) :=
  let labels := strings.Split fqdn "." in
  let suffix := "svc" :: strings.Split clusterDomain "." in
  if negb (hasSuffix labels suffix) then Err "name does not match cluster domain" else
  if bool_decide (length labels = 2 + length suffix)%nat then
    match labels with
    | name :: ns :: _ => Ok (mkID ns name "", "")
    | _ => Panic
    end
  else if bool_decide (length labels = 3 + length suffix)%nat then
    match labels with
    | instanceID :: name :: ns :: _ => Ok (mkID ns name "", instanceID)
    | _ => Panic
    end
  else Err "invalid k8s service".

Definition profileID (authority : string) (ctxToken : contextToken) (clusterDomain : string) : res ID :=
  (let* hp := getHostAndPort authority in
   let* si := parseK8sServiceName hp.1 clusterDomain in
   let service := si.1 in
   Ok (mkID (if bool_decide (tok_Ns ctxToken = "") then Namespace service else tok_Ns ctxToken)
         (Name service +:+ "." +:+ Namespace service +:+ ".svc." +:+ clusterDomain) ""))%go.

(** * Lemmas *)
Definition dotless (s : string) : Prop := strings.Contains s "." = false.

Lemma hasSuffix_spec slice suffix : hasSuffix slice suffix = true ↔ ∃ pre, slice = pre ++ suffix.
Proof.
  unfold hasSuffix. case_bool_decide as Hl.
  { split; [done|]. intros [pre ->]. rewrite length_app in Hl. lia. }
  assert (∀ l1 l2 : list string, length l1 = length l2 →
    forallb (λ p, bool_decide (p.1 = p.2)) (zip l1 l2) = true ↔ l1 = l2) as Hz.
  { induction l1 as [|x l1 IH]; intros [|y l2] Hlen; try done. simpl.
    rewrite andb_true_iff, bool_decide_eq_true, IH by (by injection Hlen). naive_solver. }
  rewrite Hz by (rewrite length_drop; lia). split.
  - intros Hd. exists (take (length slice - length suffix) slice). 
    rewrite <-(take_drop (length slice - length suffix) slice) at 1. by rewrite Hd.
  - intros [pre ->]. rewrite length_app, drop_app_length' by lia. done.
Qed.

(** The labels of a service name. *)
Lemma Split_service name ns cd :
  dotless name → dotless ns →
  strings.Split (name +:+ "." +:+ ns +:+ ".svc." +:+ cd) "." = [name; ns] ++ "svc" :: strings.Split cd ".".
Proof.
  intros Hname Hns.
  change (name +:+ "." +:+ ns +:+ ".svc." +:+ cd) with (name +:+ String "." (ns +:+ String "." ("svc" +:+ String "." cd))).
  rewrite strings.Split_app by done. rewrite strings.Split_app by done.
  rewrite (strings.Split_app "svc") by done. done.
Qed.

Lemma Join_service name ns cd :
  strings.Join ([name; ns] ++ "svc" :: strings.Split cd ".") "." = name +:+ "." +:+ ns +:+ ".svc." +:+ cd.
Proof.
  simpl app. rewrite !strings.Join_cons by (done || apply strings.Split_not_nil). by rewrite (strings.Join_Split cd ".").
Qed.

(** The labels of the two forms of names. *)
Lemma Split_forms fqdn name ns inst cd :
  dotless name → dotless ns → dotless inst →
  let svc := name +:+ "." +:+ ns +:+ ".svc." +:+ cd in
  (fqdn = svc → strings.Split fqdn "." = [name; ns] ++ "svc" :: strings.Split cd ".")
  ∧ (fqdn = inst +:+ "." +:+ svc → strings.Split fqdn "." = [inst; name; ns] ++ "svc" :: strings.Split cd ".").
Proof.
  intros Hname Hns Hinst svc. split; intros ->; [by apply Split_service|].
  change (inst +:+ "." +:+ svc) with (inst +:+ String "." svc). rewrite strings.Split_app by done.
  unfold svc. by rewrite Split_service.
Qed.

(** * Properties *)
(** service names are parsed exactly.  A name parses to a service and an instance when it
    is the name of the service in the cluster domain, with a pod's host name in front when
    the instance is given; names of the service and of the namespace have no dot, and
    everything else is refused without a panic. *)
Theorem parseK8sServiceName_spec fqdn cd :
  match parseK8sServiceName fqdn cd with
  | Ok (id, inst) =>
      dotless (Name id) ∧ dotless (Namespace id) ∧ dotless inst ∧ IPFamily id = "" ∧
      let svc := Name id +:+ "." +:+ Namespace id +:+ ".svc." +:+ cd in
      (fqdn = svc ∧ inst = "" ∨ fqdn = inst +:+ "." +:+ svc)
  | Err _ => ∀ name ns inst, dotless name → dotless ns → dotless inst →
      let svc := name +:+ "." +:+ ns +:+ ".svc." +:+ cd in
      fqdn ≠ svc ∧ fqdn ≠ inst +:+ "." +:+ svc
  | Panic => False
  end.
Proof.
  unfold parseK8sServiceName. set (suffix := "svc" :: strings.Split cd ".").
  destruct (hasSuffix (strings.Split fqdn ".") suffix) eqn:Hs; simpl negb; cbv iota; last first.
  { intros name ns inst Hname Hns Hinst. destruct (Split_forms fqdn name ns inst cd Hname Hns Hinst) as [H1 H2].
    apply not_true_iff_false in Hs. split; intros Heq; apply Hs, hasSuffix_spec;
      [rewrite (H1 Heq); by eexists|rewrite (H2 Heq); by eexists]. }
  apply hasSuffix_spec in Hs as [pre Hpre]. pose proof (strings.Join_Split fqdn ".") as Hj.
  pose proof (strings.Split_elements fqdn ".") as He. rewrite Hpre in *.
  rewrite length_app. repeat case_bool_decide.
  - destruct pre as [|name [|ns [|? ?]]]; simpl in *; try lia. simpl.
    split_and!; [apply He; set_solver..|done|done|]. left. split; [|done].
    rewrite <-Hj. apply Join_service.
  - destruct pre as [|inst [|name [|ns [|? ?]]]]; simpl in *; try lia. simpl.
    split_and!; [apply He; set_solver..|done|]. right. rewrite <-Hj.
    transitivity (inst +:+ "." +:+ strings.Join ([name; ns] ++ suffix) "."); [done|]. unfold suffix; by rewrite Join_service.
  - intros name ns inst Hname Hns Hinst. destruct (Split_forms fqdn name ns inst cd Hname Hns Hinst) as [H1 H2].
    split; intros Heq; [apply H1 in Heq|apply H2 in Heq]; rewrite Hpre in Heq;
      apply (f_equal length) in Heq; rewrite !length_app in Heq; simpl in *; lia.
Qed.

Lemma getHostAndPort_Join host port :
  net.no_brackets host → 1 ≤ port ≤ 65535 →
  getHostAndPort (net.JoinHostPort host (strconv.Itoa port)) = Ok (host, port).
Proof.
  intros Hh Hp. unfold getHostAndPort.
  assert (strings.Contains (net.JoinHostPort host (strconv.Itoa port)) ":" = true) as ->.
  { unfold net.JoinHostPort. case_match;
      [change ("[" +:+ host +:+ "]:" +:+ strconv.Itoa port) with (String "[" (host +:+ String "]" (String ":" (strconv.Itoa port)))); simpl|];
      rewrite strings.Contains_app; simpl; apply orb_true_r. }
  simpl negb. cbv iota.
  rewrite net.SplitHostPort_JoinHostPort;
    [|done|split; apply strconv.Itoa_no_delimiter; auto; lia|apply strconv.Itoa_no_delimiter; auto; lia].
  rewrite strconv.Atoi_Itoa by lia. rewrite bool_decide_false by lia.
  by rewrite u32_id by (unfold is_u32; lia).
Qed.

(** Which ports an authority can have. *)
Lemma getHostAndPort_range authority h p : getHostAndPort authority = Ok (h, p) → 1 ≤ p ≤ 65535.
Proof.
  unfold getHostAndPort. destruct (strings.Contains authority ":"); simpl; [|intros [= <- <-]; lia].
  intros Hg. destruct (net.SplitHostPort authority) as [[h' s]|]; [|done].
  destruct (strconv.Atoi s) as [z|]; [|done]. case_bool_decide; [done|].
  injection Hg as <- <-. rewrite u32_id; unfold is_u32; lia.
Qed.

(** the name of a ServiceProfile.  The authority of a service, with or without a port
    between 1 and 65535 and with or without the host name of a pod in front, asks for the
    ServiceProfile that has the service's full name, in the namespace of the client when its
    context token has one and in the namespace of the service otherwise. *)
Theorem profileID_spec name ns inst cd port tok :
  dotless name → dotless ns → dotless inst →
  let svc := name +:+ "." +:+ ns +:+ ".svc." +:+ cd in
  strings.Contains svc ":" = false → strings.Contains inst ":" = false →
  net.no_brackets svc → net.no_brackets inst → 1 ≤ port ≤ 65535 →
  let id := mkID (if bool_decide (tok_Ns tok = "") then ns else tok_Ns tok) svc "" in
  ∀ host, host = svc ∨ host = inst +:+ "." +:+ svc →
  profileID host tok cd = Ok id
  ∧ profileID (net.JoinHostPort host (strconv.Itoa port)) tok cd = Ok id.
Proof.
  intros Hname Hns Hinst svc Hc Hci [Hb1 Hb2] [Hi1 Hi2] Hp id host Hhost.
  destruct (Split_forms host name ns inst cd Hname Hns Hinst) as [Hs1 Hs2].
  assert (strings.Contains host ":" = false ∧ net.no_brackets host) as [Hhc Hhb].
  { unfold net.no_brackets. destruct Hhost as [->| ->]; [done|]. change (inst +:+ "." +:+ svc) with (inst +:+ String "." svc).
    rewrite !strings.Contains_app. simpl. by rewrite Hci, Hi1, Hi2, Hc, Hb1, Hb2. }
  assert (∃ i, parseK8sServiceName host cd = Ok (mkID ns name "", i)) as [i Hparse].
  { unfold parseK8sServiceName. destruct Hhost as [Hh|Hh]; [rewrite (Hs1 Hh)|rewrite (Hs2 Hh)];
      (destruct (hasSuffix _ _) eqn:Hsf; [|apply not_true_iff_false in Hsf; destruct Hsf; apply hasSuffix_spec; by eexists]);
      simpl negb; cbv iota; rewrite !length_app; simpl length;
      repeat (case_bool_decide; try lia); eauto. }
  unfold profileID. rewrite getHostAndPort_Join by done.
  assert (getHostAndPort host = Ok (host, 80)) as -> by (unfold getHostAndPort; by rewrite Hhc).
  simpl. rewrite Hparse. done.
Qed.

Lemma profileID_spec_witness :
  profileID "web.emojivoto.svc.cluster.local:8080" (mkContextToken "" "" "") "cluster.local"
  = Ok (mkID "emojivoto" "web.emojivoto.svc.cluster.local" "").
Proof.
  apply (profileID_spec "web" "emojivoto" "pod-0" "cluster.local" 8080 (mkContextToken "" "" "") ltac:(reflexivity)
    ltac:(reflexivity) ltac:(reflexivity) ltac:(reflexivity) ltac:(reflexivity) ltac:(split; reflexivity)
    ltac:(split; reflexivity) ltac:(lia) "web.emojivoto.svc.cluster.local"). left. reflexivity.
Defined.
