(* ===== verification/Mirror.v ===== *)
(** The state of the service mirror ([multicluster/service-mirror/cluster_watcher.go] and
    [cluster_watcher_headless.go]): the objects it reads and writes, the two clusters, the
    calls of the Kubernetes client, and the monad in which the handlers run.

    A handler runs on a [World]: the local cluster as the API server stores it, the
    informer caches of the local cluster, the caches of the remote cluster and the queue of
    events.  The objects of the local caches are pointers into a heap, because some
    handlers modify them in place.  The texts of errors are not kept; an error is either a
    RetryableError or another one. *)
From S2P Require Import Prelude GoStd K8s.

#[local] Open Scope string_scope.
#[local] Open Scope list_scope.
#[local] Open Scope Z_scope.

(** * Objects *)
(** The fields of Kubernetes objects the service mirror uses. *)
Module corev1.
Record ServicePort := mkServicePort {
  sp_Name : string; sp_Protocol : string; sp_Port : Z; sp_TargetPort : IntOrString;
  sp_NodePort : Z }.
Record Service := mkService {
  svc_Name : string; svc_Namespace : string; svc_Labels : strmap;
  svc_Annotations : option strmap;  (* [None] is a nil map *)
  svc_ResourceVersion : string; svc_ClusterIP : string; svc_Ports : list ServicePort }.
Record EndpointAddress := mkEndpointAddress {
  ea_IP : string; ea_Hostname : string; ea_TargetRef : option string  (* its name *) }.
Record EndpointPort := mkEndpointPort { ep_Name : string; ep_Protocol : string; ep_Port : Z }.
Record EndpointSubset := mkEndpointSubset {
  es_Addresses : list EndpointAddress; es_NotReadyAddresses : list EndpointAddress;
  es_Ports : list EndpointPort }.
Record Endpoints := mkEndpoints {
  eps_Name : string; eps_Namespace : string; eps_Labels : strmap;
  eps_Annotations : option strmap; eps_ResourceVersion : string;
  eps_Subsets : list EndpointSubset }.
End corev1.
Export corev1.

(** Reading a map that may be nil. *)
Definition annotations (a : option strmap) : strmap := default ∅ a.

Definition set_svc_Annotations (a : option strmap) (s : Service) : Service :=
  mkService (svc_Name s) (svc_Namespace s) (svc_Labels s) a (svc_ResourceVersion s)
    (svc_ClusterIP s) (svc_Ports s).
Definition set_svc_ClusterIP (ip : string) (s : Service) : Service :=
  mkService (svc_Name s) (svc_Namespace s) (svc_Labels s) (svc_Annotations s)
    (svc_ResourceVersion s) ip (svc_Ports s).
Definition set_eps_Annotations (a : option strmap) (e : Endpoints) : Endpoints :=
  mkEndpoints (eps_Name e) (eps_Namespace e) (eps_Labels e) a (eps_ResourceVersion e)
    (eps_Subsets e).
Definition set_eps_Subsets (l : list EndpointSubset) (e : Endpoints) : Endpoints :=
  mkEndpoints (eps_Name e) (eps_Namespace e) (eps_Labels e) (eps_Annotations e)
    (eps_ResourceVersion e) l.

(** pkg/k8s/labels.go *)
Definition MulticlusterPrefix : string := "multicluster.linkerd.io".
Definition MirroredResourceLabel : string := SvcMirrorPrefix +:+ "/mirrored-service".
Definition MirroredHeadlessSvcNameLabel : string := SvcMirrorPrefix +:+ "/headless-mirror-svc-name".
Definition RemoteDiscoveryLabel : string := MulticlusterPrefix +:+ "/remote-discovery".
Definition RemoteServiceLabel : string := MulticlusterPrefix +:+ "/remote-service".
Definition RemoteDiscoveryAnnotation : string := MulticlusterPrefix +:+ "/remote-discovery".
Definition LocalDiscoveryAnnotation : string := MulticlusterPrefix +:+ "/local-discovery".
Definition RemoteResourceVersionAnnotation : string := SvcMirrorPrefix +:+ "/remote-resource-version".

(** controller/gen/apis/link/v1alpha2 *)
Record ProbeSpec := mkProbeSpec {
  pr_Path : string; pr_Port : string; pr_Period : string; pr_Timeout : string;
  pr_FailureThreshold : string }.
Record LinkSpec := mkLinkSpec {
  TargetClusterName : string; TargetClusterDomain : string; GatewayAddress : string;
  GatewayPort : string; GatewayIdentity : string; lk_ProbeSpec : ProbeSpec;
  Selector : option LabelSelector; RemoteDiscoverySelector : option LabelSelector;
  FederatedServiceSelector : option LabelSelector }.
Record ObjectRef := mkObjectRef {
  or_Group : string; or_Kind : string; or_Name : string; or_Namespace : string }.
(** The time of a condition is left out. *)
Record LinkCondition := mkLinkCondition {
  lc_Type : string; lc_Status : bool; lc_Reason : string; lc_Message : string;
  lc_LocalRef : option ObjectRef }.
Record ServiceStatus := mkServiceStatus {
  ss_Conditions : list LinkCondition; ss_ControllerName : string; ss_RemoteRef : ObjectRef }.
Record LinkStatus := mkLinkStatus {
  MirrorServices : list ServiceStatus; FederatedServices : list ServiceStatus }.

(** * Events *)
Abbreviation ptr := positive.
Inductive event :=
  | RemoteServiceExported (service : Service)
  | CreateFederatedService (service : Service)
  | RemoteExportedServiceUpdated (localService : ptr) (localEndpoints : option ptr)
      (remoteUpdate : Service)
  | RemoteServiceJoinsFederatedService (localService : ptr) (remoteUpdate : Service)
  | RemoteServiceUnexported (Name Namespace : string)
  | RemoteServiceLeavesFederatedService (Name Namespace : string)
  | ClusterUnregistered
  | OrphanedServicesGcTriggered
  | OnAddCalled (svc : Service)
  | OnAddEndpointsCalled (ep : Endpoints)
  | OnUpdateCalled (svc : Service)
  | OnUpdateEndpointsCalled (ep : Endpoints)
  | OnDeleteCalled (svc : Service)
  | RepairEndpoints
  | OnLocalNamespaceAdded (ns : string).

(** * The clusters *)
Abbreviation key := (string * string)%type.  (* namespace, name *)

(** The errors of the client that the code tells apart. *)
Inductive apiError := NotFound | AlreadyExists | OtherError.

(** A call can fail for reasons of its own, before or after it took effect. *)
Record fault := mkFault { f_error : apiError; f_applied : bool }.

Record World := mkWorld {
  lc_svcs : gmap key Service; lc_eps : gmap key Endpoints; lc_nss : gmap string strmap;
  cache_svcs : gmap key ptr; svc_heap : gmap ptr Service;
  cache_eps : gmap key ptr; ep_heap : gmap ptr Endpoints; cache_nss : gset string;
  rem_svcs : gmap key Service; rem_eps : gmap key Endpoints;
  link_status : LinkStatus; queue : list event; shutdown : bool;
  faults : list (option fault) }.

Definition set_lc_svcs m w : World := mkWorld m (lc_eps w) (lc_nss w) (cache_svcs w) (svc_heap w)
  (cache_eps w) (ep_heap w) (cache_nss w) (rem_svcs w) (rem_eps w) (link_status w) (queue w)
  (shutdown w) (faults w).
Definition set_lc_eps m w : World := mkWorld (lc_svcs w) m (lc_nss w) (cache_svcs w) (svc_heap w)
  (cache_eps w) (ep_heap w) (cache_nss w) (rem_svcs w) (rem_eps w) (link_status w) (queue w)
  (shutdown w) (faults w).
Definition set_lc_nss m w : World := mkWorld (lc_svcs w) (lc_eps w) m (cache_svcs w) (svc_heap w)
  (cache_eps w) (ep_heap w) (cache_nss w) (rem_svcs w) (rem_eps w) (link_status w) (queue w)
  (shutdown w) (faults w).
Definition set_svc_heap m w : World := mkWorld (lc_svcs w) (lc_eps w) (lc_nss w) (cache_svcs w) m
  (cache_eps w) (ep_heap w) (cache_nss w) (rem_svcs w) (rem_eps w) (link_status w) (queue w)
  (shutdown w) (faults w).
Definition set_ep_heap m w : World := mkWorld (lc_svcs w) (lc_eps w) (lc_nss w) (cache_svcs w)
  (svc_heap w) (cache_eps w) m (cache_nss w) (rem_svcs w) (rem_eps w) (link_status w) (queue w)
  (shutdown w) (faults w).
Definition set_link_status l w : World := mkWorld (lc_svcs w) (lc_eps w) (lc_nss w) (cache_svcs w)
  (svc_heap w) (cache_eps w) (ep_heap w) (cache_nss w) (rem_svcs w) (rem_eps w) l (queue w)
  (shutdown w) (faults w).
Definition set_queue q w : World := mkWorld (lc_svcs w) (lc_eps w) (lc_nss w) (cache_svcs w)
  (svc_heap w) (cache_eps w) (ep_heap w) (cache_nss w) (rem_svcs w) (rem_eps w) (link_status w) q
  (shutdown w) (faults w).
Definition set_shutdown b w : World := mkWorld (lc_svcs w) (lc_eps w) (lc_nss w) (cache_svcs w)
  (svc_heap w) (cache_eps w) (ep_heap w) (cache_nss w) (rem_svcs w) (rem_eps w) (link_status w)
  (queue w) b (faults w).
Definition set_faults l w : World := mkWorld (lc_svcs w) (lc_eps w) (lc_nss w) (cache_svcs w)
  (svc_heap w) (cache_eps w) (ep_heap w) (cache_nss w) (rem_svcs w) (rem_eps w) (link_status w)
  (queue w) (shutdown w) l.

(** * The monad *)
(** How a handler ends: normally, with an error that is retryable or not, or by a panic. *)
Inductive result (A : Type) :=
  | Ret (a : A)
  | Fail (retryable : bool)
  | Crash.
Arguments Ret {A} a.
Arguments Fail {A} retryable.
Arguments Crash {A}.

Definition M (A : Type) : Type := World → result A * World.

#[export] Instance M_ret : MRet M := λ A a w, (Ret a, w).
#[export] Instance M_bind : MBind M := λ A B k m w,
  match m w with
  | (Ret a, w) => k a w
  | (Fail b, w) => (Fail b, w)
  | (Crash, w) => (Crash, w)
  end.

(** [fail_as true] returns a RetryableError. *)
Definition fail_as {A} (retryable : bool) : M A := λ w, (Fail retryable, w).
Definition crash {A} : M A := λ w, (Crash, w).
Definition modify (f : World → World) : M () := λ w, (Ret (), f w).

Fixpoint forM {A} (l : list A) (f : A → M ()) : M () :=
  match l with [] => mret () | x :: l => f x;; forM l f end.

(** A loop that collects errors in a slice: whether the slice is not empty at the end. *)
Fixpoint forErrors {A} (l : list A) (f : A → M bool) : M bool :=
  match l with
  | [] => mret false
  | x :: l => e ← f x; es ← forErrors l f; mret (e || es)
  end.

(** A loop that appends an optional result of its body to a slice. *)
Fixpoint forCollect {A B} (l : list A) (f : A → M (option B)) : M (list B) :=
  match l with
  | [] => mret []
  | x :: l => y ← f x; ys ← forCollect l f; mret (option_list y ++ ys)
  end.

(** [v, err := f()] where the code looks at [err] itself: an error becomes a value, a
    panic does not. *)
Definition attempt {A} (m : M A) : M (bool + A) := λ w,
  match m w with
  | (Ret a, w) => (Ret (inr a), w)
  | (Fail b, w) => (Ret (inl b), w)
  | (Crash, w) => (Crash, w)
  end.

(** * Calls of the clients

    A call first takes its fault, if it has one. *)
Definition call {A} (f : World → (apiError + A) * World) : M (apiError + A) := λ w,
  let w' := set_faults (tail (faults w)) w in
  match head (faults w) with
  | Some (Some ft) => (Ret (inl (f_error ft)), if f_applied ft then (f w').2 else w')
  | _ => let '(r, w'') := f w' in (Ret r, w'')
  end.

Section client.
(** The cluster IP the API server gives a service that asks for none. *)
Context (assignIP : key → string).

Definition stored (s : Service) : Service :=
  if bool_decide (svc_ClusterIP s = "")
  then set_svc_ClusterIP (assignIP (svc_Namespace s, svc_Name s)) s else s.

(** [Services(ns).Create]: the namespace has to exist and the name to be free. *)
Definition svcCreate (ns : string) (s : Service) : M (apiError + Service) := call (λ w,
  if bool_decide (lc_nss w !! ns = None) then (inl NotFound, w) else
  if bool_decide (is_Some (lc_svcs w !! (ns, svc_Name s))) then (inl AlreadyExists, w) else
  (inr (stored s), set_lc_svcs (<[(ns, svc_Name s) := stored s]> (lc_svcs w)) w)).
End client.

Definition svcUpdate (ns : string) (s : Service) : M (apiError + ()) := call (λ w,
  if bool_decide (is_Some (lc_svcs w !! (ns, svc_Name s)))
  then (inr (), set_lc_svcs (<[(ns, svc_Name s) := s]> (lc_svcs w)) w)
  else (inl NotFound, w)).

Definition svcDelete (ns name : string) : M (apiError + ()) := call (λ w,
  if bool_decide (is_Some (lc_svcs w !! (ns, name)))
  then (inr (), set_lc_svcs (delete (ns, name) (lc_svcs w)) w)
  else (inl NotFound, w)).

Definition epsCreate (ns : string) (e : Endpoints) : M (apiError + ()) := call (λ w,
  if bool_decide (lc_nss w !! ns = None) then (inl NotFound, w) else
  if bool_decide (is_Some (lc_eps w !! (ns, eps_Name e))) then (inl AlreadyExists, w) else
  (inr (), set_lc_eps (<[(ns, eps_Name e) := e]> (lc_eps w)) w)).

Definition epsUpdate (ns : string) (e : Endpoints) : M (apiError + ()) := call (λ w,
  if bool_decide (is_Some (lc_eps w !! (ns, eps_Name e)))
  then (inr (), set_lc_eps (<[(ns, eps_Name e) := e]> (lc_eps w)) w)
  else (inl NotFound, w)).

Definition epsDelete (ns name : string) : M (apiError + ()) := call (λ w,
  if bool_decide (is_Some (lc_eps w !! (ns, name)))
  then (inr (), set_lc_eps (delete (ns, name) (lc_eps w)) w)
  else (inl NotFound, w)).

Definition found {A} (o : option A) (w : World) : (apiError + A) * World :=
  (match o with Some a => inr a | None => inl NotFound end, w).

(** [Endpoints(ns).Get] of the client: a copy. *)
Definition epsGet (ns name : string) : M (apiError + Endpoints) :=
  call (λ w, found (lc_eps w !! (ns, name)) w).
Definition nsGet (ns : string) : M (apiError + ()) :=
  call (λ w, found (const () <$> lc_nss w !! ns) w).
Definition nsCreate (ns : string) (labels : strmap) : M (apiError + ()) := call (λ w,
  if bool_decide (is_Some (lc_nss w !! ns)) then (inl AlreadyExists, w)
  else (inr (), set_lc_nss (<[ns := labels]> (lc_nss w)) w)).

(** The listers of the local cluster: pointers to the objects of the caches. *)
Definition svcLister (ns name : string) : M (apiError + ptr) :=
  call (λ w, found (cache_svcs w !! (ns, name)) w).
Definition epsLister (ns name : string) : M (apiError + ptr) :=
  call (λ w, found (cache_eps w !! (ns, name)) w).
Definition nsLister (ns : string) : M (apiError + ()) :=
  call (λ w, found (if bool_decide (ns ∈ cache_nss w) then Some () else None) w).

(** Dereferencing a pointer, and writing the object it points to. *)
Definition getSvc (p : ptr) : M Service :=
  λ w, match svc_heap w !! p with Some s => (Ret s, w) | None => (Crash, w) end.
Definition getEps (p : ptr) : M Endpoints :=
  λ w, match ep_heap w !! p with Some e => (Ret e, w) | None => (Crash, w) end.
Definition putSvc (p : ptr) (s : Service) : M () :=
  modify (λ w, set_svc_heap (<[p := s]> (svc_heap w)) w).
Definition putEps (p : ptr) (e : Endpoints) : M () :=
  modify (λ w, set_ep_heap (<[p := e]> (ep_heap w)) w).

(** The listers of the remote cluster: their objects are only read. *)
Definition remSvcLister (ns name : string) : M (apiError + Service) :=
  call (λ w, found (rem_svcs w !! (ns, name)) w).
Definition remEpsLister (ns name : string) : M (apiError + Endpoints) :=
  call (λ w, found (rem_eps w !! (ns, name)) w).

Section lists.
Context `{!MapRange}.

(** [labels.Set(matchLabels).AsSelector()]. *)
Definition matches (sel ls : strmap) : bool := bool_decide (sel ⊆ ls).

(** The cached services and endpoints with the labels, in the order of the cache. *)
Definition cached {A : Type} (cache : gmap key ptr) (heap : gmap ptr A) : list A :=
  omap (λ e, heap !! e.2) (range cache).
Definition svcListerList (sel : strmap) : M (apiError + list Service) := call (λ w,
  (inr (filter (λ s, matches sel (svc_Labels s) = true) (cached (cache_svcs w) (svc_heap w))), w)).
Definition epsListerList (sel : strmap) : M (apiError + list Endpoints) := call (λ w,
  (inr (filter (λ e, matches sel (eps_Labels e) = true) (cached (cache_eps w) (ep_heap w))), w)).

(** [Services("").List] of the client, and the services of a remote namespace. *)
Definition svcList (sel : strmap) : M (apiError + list Service) := call (λ w,
  (inr (filter (λ s, matches sel (svc_Labels s) = true) (range (lc_svcs w)).*2), w)).
Definition remSvcList (ns : string) : M (apiError + list Service) := call (λ w,
  (inr (filter (λ s, svc_Namespace s = ns) (range (rem_svcs w)).*2), w)).
End lists.

(** [Links(ns).Get]: the client returns an empty object with an error. *)
Definition linkGet : M LinkStatus :=
  r ← call (λ w, (inr (link_status w), w));
  mret match r with inl _ => mkLinkStatus [] [] | inr s => s end.

(** A merge patch with a status marshalled to JSON: the fields of the status are
    [omitempty], so an empty list is not part of the patch and leaves the stored list. *)
Definition merge_patch (old new : LinkStatus) : LinkStatus :=
  mkLinkStatus
    (match MirrorServices new with [] => MirrorServices old | l => l end)
    (match FederatedServices new with [] => FederatedServices old | l => l end).
Definition linkPatch (s : LinkStatus) : M (apiError + ()) := call (λ w,
  (inr (), set_link_status (merge_patch (link_status w) s) w)).

(** [eventsQueue.Add]: a queue that is shut down takes no more. *)
Definition enqueue (e : event) : M () :=
  modify (λ w, if shutdown w then w else set_queue (queue w ++ [e]) w).
