(* ===== verification/ServiceMirror.v ===== *)
(** [RemoteClusterServiceWatcher] of [multicluster/service-mirror/cluster_watcher.go] and
    [cluster_watcher_headless.go]: the handlers of the service mirror, which copies the
    exported services of a remote cluster into the local one, and the loop that runs them.

    Parameters: [net.LookupIP] (the addresses of a host as text, [None] for an error),
    apimachinery's [LabelSelectorAsSelector] and the cluster IPs the API server assigns.
    Events recorded for users are left out. *)
From S2P Require Import Prelude GoStd K8s Mirror.

#[local] Open Scope string_scope.
#[local] Open Scope list_scope.
#[local] Open Scope Z_scope.

Record RemoteClusterServiceWatcher := mkWatcher {
  serviceMirrorNamespace : string; link : LinkSpec; requeueLimit : nat;
  gatewayAlive : bool; headlessServicesEnabled : bool; namespaceCreationEnabled : bool }.

(** The gateway counts as alive until the probe says otherwise. *)
Definition NewRemoteClusterServiceWatcher (serviceMirrorNamespace : string) (link : LinkSpec) (requeueLimit : nat)
    (enableHeadlessSvc enableNamespaceCreation : bool) : RemoteClusterServiceWatcher :=
  mkWatcher serviceMirrorNamespace link requeueLimit true enableHeadlessSvc enableNamespaceCreation.

Definition reasonMirrored : string := "Mirrored".
Definition reasonInvalidService : string := "InvalidService".
Definition reasonError : string := "Error".
Definition reasonMissingNamespace : string := "MissingNamespace".

(** * Pure helpers *)
Definition remoteDiscoveryContains (remoteDiscoveryList remoteTarget : string) : bool :=
  existsb (λ member, bool_decide (member = remoteTarget)) (strings.Split remoteDiscoveryList ",").

Definition remapRemoteServicePorts (ports : list ServicePort) : list ServicePort :=
  (λ p, mkServicePort (sp_Name p) (sp_Protocol p) (sp_Port p) (sp_TargetPort p) 0) <$> ports.

Definition isEmptyEndpoints (ep : Endpoints) : bool :=
  match eps_Subsets ep with
  | [] => true
  | subsets => negb (existsb (λ s, match es_Addresses s with [] => false | _ => true end) subsets)
  end.

Definition isHeadlessEndpoints (ep : Endpoints) : bool :=
  bool_decide (is_Some (eps_Labels ep !! IsHeadlessService)).

Definition shouldExportAsHeadlessService (endpoints : Endpoints) : bool :=
  existsb (λ s, existsb (λ a, bool_decide (ea_Hostname a ≠ "")) (es_Addresses s)
                || existsb (λ a, bool_decide (ea_Hostname a ≠ "")) (es_NotReadyAddresses s))
    (eps_Subsets endpoints).

Definition is_ref (remoteName namespace : string) (s : ServiceStatus) : bool :=
  bool_decide (or_Name (ss_RemoteRef s) = remoteName ∧ or_Namespace (ss_RemoteRef s) = namespace).

Definition updateServiceStatus (remoteName namespace : string) (condition : LinkCondition)
    (statuses : list ServiceStatus) : list ServiceStatus :=
  let updated := (λ s, if is_ref remoteName namespace s
                       then mkServiceStatus [condition] (ss_ControllerName s) (ss_RemoteRef s)
                       else s) <$> statuses in
  if existsb (is_ref remoteName namespace) statuses then updated
  else updated ++ [mkServiceStatus [condition] "linkerd.io/service-mirror"
                     (mkObjectRef "" "Service" remoteName namespace)].

Definition deleteServiceStatus (remoteName namespace : string) (statuses : list ServiceStatus)
    : list ServiceStatus := filter (λ s, is_ref remoteName namespace s = false) statuses.

Definition mirrorStatusCondition (success : bool) (reason message : string)
    (localRef : option Service) : LinkCondition :=
  mkLinkCondition "Mirrored" success reason message
    ((λ s, mkObjectRef "" "Service" (svc_Name s) (svc_Namespace s)) <$> localRef).

Section watcher.
Context `{!MapRange} (LookupIP : string → option (list string)).
Context (LabelSelectorAsSelector : LabelSelector → option (strmap → bool)).
Context (assignIP : key → string) (rcsw : RemoteClusterServiceWatcher).

Abbreviation spec := (link rcsw).
Abbreviation cluster := (TargetClusterName spec).

Definition mirrorServiceName (remoteName : string) : string := remoteName +:+ "-" +:+ cluster.
Definition federatedServiceName (remoteName : string) : string := remoteName +:+ "-federated".
Definition targetResourceName (mirrorName : string) : string :=
  strings.TrimSuffixString mirrorName ("-" +:+ cluster).
Definition originalResourceName (mirroredName : string) : string :=
  strings.TrimSuffixString mirroredName ("-" +:+ cluster).

Definition selects (selector : option LabelSelector) (l : strmap) : bool :=
  match selector with
  | None => false
  | Some s =>
      if bool_decide (length (ls_MatchExpressions s) + size (ls_MatchLabels s) = 0)%nat then false
      else match LabelSelectorAsSelector s with None => false | Some f => f l end
  end.
Definition isExported (l : strmap) : bool := selects (Selector spec) l.
Definition isRemoteDiscovery (l : strmap) : bool := selects (RemoteDiscoverySelector spec) l.
Definition isFederatedServiceMember (l : strmap) : bool :=
  selects (FederatedServiceSelector spec) l.

(** ** Labels and annotations *)
Definition getCommonServiceLabels (remoteService : Service) : strmap :=
  map_assign (filter (λ kv, strings.HasPrefix kv.1 SvcMirrorPrefix = false) (svc_Labels remoteService))
    {[MirroredResourceLabel := "true"]}.

Definition getMirrorServiceLabels (remoteService : Service) : strmap :=
  let labels := <[RemoteClusterNameLabel := cluster]> (getCommonServiceLabels remoteService) in
  if isRemoteDiscovery (svc_Labels remoteService)
  then <[RemoteServiceLabel := svc_Name remoteService]> (<[RemoteDiscoveryLabel := cluster]> labels)
  else labels.

Definition getMirrorEndpointLabels (exportedService : Service) : strmap :=
  <[RemoteClusterNameLabel := cluster]> (getCommonServiceLabels exportedService).

Definition getFederatedServiceLabels (remoteService : Service) : strmap :=
  getCommonServiceLabels remoteService.

Definition getCommonServiceAnnotations (remoteService : Service) : strmap :=
  let remote := annotations (svc_Annotations remoteService) in
  let a := filter (λ kv, kv.1 ≠ "service.kubernetes.io/topology-aware-hints"
                         ∧ kv.1 ≠ "service.kubernetes.io/topology-mode") remote in
  match remote !! ProxyOpaquePortsAnnotation with
  | Some value => <[ProxyOpaquePortsAnnotation := value]> a
  | None => a
  end.

Definition fqName (name namespace : string) : string :=
  name +:+ "." +:+ namespace +:+ ".svc." +:+ TargetClusterDomain spec.

Definition getMirrorServiceAnnotations (remoteService : Service) : strmap :=
  <[RemoteResourceVersionAnnotation := svc_ResourceVersion remoteService]>
    (<[RemoteServiceFqName := fqName (svc_Name remoteService) (svc_Namespace remoteService)]>
       (getCommonServiceAnnotations remoteService)).

Definition remoteTarget (name : string) : string := name +:+ "@" +:+ cluster.

Definition getFederatedServiceAnnotations (remoteService : Service) : strmap :=
  let a := getCommonServiceAnnotations remoteService in
  if bool_decide (cluster = "") then <[LocalDiscoveryAnnotation := svc_Name remoteService]> a
  else <[RemoteDiscoveryAnnotation := remoteTarget (svc_Name remoteService)]> a.

(** ** The gateway *)
Definition resolveGatewayAddress : option (list EndpointAddress) :=
  let gatewayEndpoints :=
    strings.Split (GatewayAddress spec) "," ≫= λ addr,
      (λ ip, mkEndpointAddress ip "" None) <$> default [] (LookupIP addr) in
  match gatewayEndpoints with
  | [] => None
  | _ => Some (merge_sort (λ a b, String.leb (ea_IP a) (ea_IP b)) gatewayEndpoints)
  end.

Definition getEndpointsPorts (service : Service) : option (list EndpointPort) :=
  gatewayPort ← strconv.ParseInt (GatewayPort spec) 32;
  Some ((λ p, mkEndpointPort (sp_Name p) (sp_Protocol p) (i32 gatewayPort)) <$> svc_Ports service).

Definition updateReadiness (endpoints : Endpoints) : Endpoints :=
  if gatewayAlive rcsw then endpoints else
  set_eps_Subsets ((λ s, mkEndpointSubset [] (es_NotReadyAddresses s ++ es_Addresses s) (es_Ports s))
                     <$> eps_Subsets endpoints) endpoints.

(** Returning an error that is retryable, or one that is not. *)
Definition orRetry {A} (o : option A) : M A :=
  match o with Some a => mret a | None => fail_as true end.
Definition orFatal {A} (o : option A) : M A :=
  match o with Some a => mret a | None => fail_as false end.

Definition createMirrorEndpoints (endpoints : Endpoints) : M (apiError + ()) :=
  epsCreate (eps_Namespace endpoints) (updateReadiness endpoints).
Definition updateMirrorEndpoints (endpoints : Endpoints) : M (apiError + ()) :=
  epsUpdate (eps_Namespace endpoints) (updateReadiness endpoints).

(** ** The status of the Link *)
Definition patchLinkStatus (status : LinkStatus) : M () := _ ← linkPatch status; mret ().

Definition onLinkStatus (f : LinkStatus → LinkStatus) : M () :=
  if bool_decide (cluster = "") then mret () else s ← linkGet; patchLinkStatus (f s).

Definition updateLinkMirrorStatus (remoteName namespace : string) (c : LinkCondition) : M () :=
  onLinkStatus (λ s, mkLinkStatus (updateServiceStatus remoteName namespace c (MirrorServices s))
                       (FederatedServices s)).
Definition updateLinkFederatedStatus (remoteName namespace : string) (c : LinkCondition) : M () :=
  onLinkStatus (λ s, mkLinkStatus (MirrorServices s)
                       (updateServiceStatus remoteName namespace c (FederatedServices s))).
Definition deleteLinkMirrorStatus (remoteName namespace : string) : M () :=
  onLinkStatus (λ s, mkLinkStatus (deleteServiceStatus remoteName namespace (MirrorServices s))
                       (FederatedServices s)).
Definition deleteLinkFederatedStatus (remoteName namespace : string) : M () :=
  onLinkStatus (λ s, mkLinkStatus (MirrorServices s)
                       (deleteServiceStatus remoteName namespace (FederatedServices s))).

(** ** Namespaces *)
Definition mirrorNamespaceIfNecessary (namespace : string) : M () :=
  r ← nsLister namespace;
  match r with
  | inr _ => mret ()
  | inl NotFound =>
      r ← nsCreate namespace
            (<[RemoteClusterNameLabel := cluster]> {[MirroredResourceLabel := "true"]});
      match r with inr _ => mret () | inl _ => fail_as true end
  | inl _ => fail_as true
  end.

(** The namespace of a service to be created: [true] when it exists now, [false] when
    mirroring is skipped because it does not; [status] records the failures. *)
Definition prepareNamespace (status : LinkCondition → M ()) (namespace : string) : M bool :=
  if namespaceCreationEnabled rcsw then
    r ← attempt (mirrorNamespaceIfNecessary namespace);
    match r with
    | inr _ => mret true
    | inl b => status (mirrorStatusCondition false reasonError "Failed to create namespace" None);;
               fail_as b
    end
  else
    r ← nsGet namespace;
    match r with
    | inr _ => mret true
    | inl NotFound =>
        status (mirrorStatusCondition false reasonMissingNamespace "Namespace does not exist" None);;
        mret false
    | inl _ =>
        status (mirrorStatusCondition false reasonError "Failed get namespace" None);; fail_as true
    end.

(** ** Gateway endpoints *)
Definition isEmptyService (svc : Service) : M (apiError + bool) :=
  r ← remEpsLister (svc_Namespace svc) (svc_Name svc);
  mret match r with
       | inr ep => inr (isEmptyEndpoints ep)
       | inl NotFound => inr true
       | inl e => inl e
       end.

Definition withGatewayIdentity (a : strmap) : strmap :=
  if bool_decide (GatewayIdentity spec = "") then a
  else <[RemoteGatewayIdentity := GatewayIdentity spec]> a.

Definition createGatewayEndpoints (exportedService : Service) : M () :=
  r ← isEmptyService exportedService;
  isEmpty ← (match r with inr b => mret b | inl _ => fail_as true end : M bool);
  gatewayAddresses ← orRetry resolveGatewayAddress;
  ports ← orFatal (getEndpointsPorts exportedService);
  let ns := svc_Namespace exportedService in
  let localServiceName := mirrorServiceName (svc_Name exportedService) in
  let subsets :=
    if (isEmpty : bool) then []
    else if bool_decide (0 < length gatewayAddresses)%nat
    then [mkEndpointSubset gatewayAddresses [] ports]
    else [mkEndpointSubset [] gatewayAddresses ports] in
  let endpointsToCreate :=
    mkEndpoints localServiceName ns (getMirrorEndpointLabels exportedService)
      (Some (withGatewayIdentity {[RemoteServiceFqName := fqName (svc_Name exportedService) ns]}))
      "" subsets in
  r ← createMirrorEndpoints endpointsToCreate;
  match r with
  | inr _ => mret ()
  | inl _ => _ ← svcDelete ns localServiceName; fail_as true
  end.

(** ** Mirror services *)
Definition newMirrorService (remoteService : Service) (clusterIP : string) : Service :=
  mkService (mirrorServiceName (svc_Name remoteService)) (svc_Namespace remoteService)
    (getMirrorServiceLabels remoteService) (Some (getMirrorServiceAnnotations remoteService)) ""
    clusterIP (remapRemoteServicePorts (svc_Ports remoteService)).

Definition handleRemoteServiceExported (remoteService : Service) : M () :=
  let ns := svc_Namespace remoteService in
  let status := updateLinkMirrorStatus (svc_Name remoteService) ns in
  if headlessServicesEnabled rcsw && bool_decide (svc_ClusterIP remoteService = ClusterIPNone) then
    status (mirrorStatusCondition false reasonInvalidService "Headless mirror services are disabled" None)
  else
    goOn ← prepareNamespace status ns;
    if (goOn : bool) then
      let serviceToCreate := newMirrorService remoteService "" in
      r ← svcCreate assignIP ns serviceToCreate;
      (match r with
       | inr _ | inl AlreadyExists => mret ()
       | inl _ =>
           status (mirrorStatusCondition false reasonError "Failed to create mirror service" None);;
           fail_as true
       end);;
      if isRemoteDiscovery (svc_Labels remoteService) then
        status (mirrorStatusCondition true reasonMirrored "" (Some serviceToCreate))
      else
        r ← attempt (createGatewayEndpoints remoteService);
        match r with
        | inr _ => status (mirrorStatusCondition true reasonMirrored "" (Some serviceToCreate))
        | inl b =>
            status (mirrorStatusCondition false reasonError "Failed to create mirror endpoints" None);;
            fail_as b
        end
    else mret ().

(** The endpoints of a mirror that is updated: none with remote discovery, else the gateway's. *)
Definition updateMirroredEndpoints (localService : Service) (localEndpoints : option ptr)
    (remoteUpdate : Service) : M () :=
  let status := updateLinkMirrorStatus (svc_Name remoteUpdate) (svc_Namespace remoteUpdate) in
  if isRemoteDiscovery (svc_Labels remoteUpdate) then
    match localEndpoints with
    | None => mret ()
    | Some _ =>
        r ← epsDelete (svc_Namespace localService) (svc_Name localService);
        match r with
        | inr _ => mret ()
        | inl _ =>
            status (mirrorStatusCondition false reasonError "Failed to delete mirror endpoints" None);;
            fail_as true
        end
    end
  else
    match localEndpoints with
    | None =>
        r ← attempt (createGatewayEndpoints remoteUpdate);
        match r with
        | inr _ => mret ()
        | inl b =>
            status (mirrorStatusCondition false reasonError "Failed to create mirror endpoints" None);;
            fail_as b
        end
    | Some q =>
        match resolveGatewayAddress with
        | None =>
            status (mirrorStatusCondition false reasonError "Failed to get gateway address" None);;
            fail_as true
        | Some gatewayAddresses =>
            copiedEndpoints ← getEps q;
            ports ← orFatal (getEndpointsPorts remoteUpdate);
            let copiedEndpoints := set_eps_Annotations
              (Some (<[RemoteGatewayIdentity := GatewayIdentity spec]>
                       (annotations (eps_Annotations copiedEndpoints))))
              (set_eps_Subsets [mkEndpointSubset gatewayAddresses [] ports] copiedEndpoints) in
            r ← updateMirrorEndpoints copiedEndpoints;
            match r with
            | inr _ => mret ()
            | inl _ =>
                status (mirrorStatusCondition false reasonError "Failed to update mirror endpoints" None);;
                fail_as true
            end
        end
    end.

(** The local service [p] is an object of the cache: its fields are assigned in place. *)
Definition handleRemoteExportedServiceUpdated (p : ptr) (localEndpoints : option ptr)
    (remoteUpdate : Service) : M () :=
  let status := updateLinkMirrorStatus (svc_Name remoteUpdate) (svc_Namespace remoteUpdate) in
  localService ← getSvc p;
  updateMirroredEndpoints localService localEndpoints remoteUpdate;;
  let localService :=
    mkService (svc_Name localService) (svc_Namespace localService)
      (getMirrorServiceLabels remoteUpdate) (Some (getMirrorServiceAnnotations remoteUpdate))
      (svc_ResourceVersion localService) (svc_ClusterIP localService)
      (remapRemoteServicePorts (svc_Ports remoteUpdate)) in
  putSvc p localService;;
  r ← svcUpdate (svc_Namespace localService) localService;
  match r with
  | inr _ => status (mirrorStatusCondition true reasonMirrored "" (Some localService))
  | inl _ =>
      status (mirrorStatusCondition false reasonError "Failed to update mirror service" None);;
      fail_as true
  end.

(** An error that is not NotFound is collected. *)
Definition isFailure {A} (r : apiError + A) : bool :=
  match r with inl NotFound | inr _ => false | inl _ => true end.

(** When the lister fails with anything but NotFound the code goes on with a nil service. *)
Definition handleRemoteServiceUnexported (name namespace : string) : M () :=
  deleteLinkMirrorStatus name namespace;;
  let localServiceName := mirrorServiceName name in
  r ← svcLister namespace localServiceName;
  match r with
  | inl NotFound => mret ()
  | inl _ => crash
  | inr p =>
      localService ← getSvc p;
      errors ← (if bool_decide (svc_ClusterIP localService = ClusterIPNone) then
                  r ← svcListerList {[MirroredHeadlessSvcNameLabel := localServiceName]};
                  es ← forErrors (match r with inr l => l | inl _ => [] end) (λ endpointMirror,
                         r ← svcDelete (svc_Namespace endpointMirror) (svc_Name endpointMirror);
                         mret (isFailure r));
                  mret (isFailure r || es)
                else mret false);
      r ← svcDelete namespace localServiceName;
      if errors || isFailure r then fail_as true else mret ()
  end.

(** ** Federated services *)
Definition handleFederatedServiceJoin (p : ptr) (remoteUpdate : Service) : M () :=
  let status := updateLinkFederatedStatus (svc_Name remoteUpdate) (svc_Namespace remoteUpdate) in
  let update (localService : Service) : M () :=
    r ← svcUpdate (svc_Namespace localService) localService;
    match r with
    | inr _ => status (mirrorStatusCondition true reasonMirrored "" (Some localService))
    | inl _ =>
        status (mirrorStatusCondition false reasonError "Failed to update federated service" None);;
        fail_as true
    end in
  localService ← getSvc p;
  if bool_decide (svc_ClusterIP remoteUpdate = ClusterIPNone) then
    status (mirrorStatusCondition false reasonInvalidService
              "Headless service cannot join federated service" None);;
    fail_as false
  else
    let assign (k v : string) : M () :=
      match svc_Annotations localService with
      | None => crash
      | Some a =>
          let localService := set_svc_Annotations (Some (<[k := v]> a)) localService in
          putSvc p localService;; update localService
      end in
    if bool_decide (cluster = "") then assign LocalDiscoveryAnnotation (svc_Name remoteUpdate)
    else
      let target := remoteTarget (svc_Name remoteUpdate) in
      let members := get (annotations (svc_Annotations localService)) RemoteDiscoveryAnnotation in
      if remoteDiscoveryContains members target then mret ()
      else assign RemoteDiscoveryAnnotation
             (if bool_decide (members = "") then target else members +:+ "," +:+ target).

Definition handleFederatedServiceLeave (name namespace : string) : M () :=
  deleteLinkFederatedStatus name namespace;;
  let localServiceName := federatedServiceName name in
  r ← svcLister namespace localServiceName;
  match r with
  | inl NotFound => mret ()
  | inl _ => fail_as true
  | inr p =>
      localService ← getSvc p;
      let a := annotations (svc_Annotations localService) in
      let members := get a RemoteDiscoveryAnnotation in
      let target := remoteTarget name in
      if negb (bool_decide (cluster = "")) && negb (remoteDiscoveryContains members target)
      then mret ()
      else
        let localService :=
          if bool_decide (cluster = "") then
            set_svc_Annotations (delete LocalDiscoveryAnnotation <$> svc_Annotations localService)
              localService
          else
            set_svc_Annotations
              (Some (<[RemoteDiscoveryAnnotation :=
                 strings.Join (filter (.≠ target) (strings.Split members ",")) ","]> a)) localService in
        putSvc p localService;;
        let a := annotations (svc_Annotations localService) in
        if bool_decide (get a RemoteDiscoveryAnnotation = "" ∧ get a LocalDiscoveryAnnotation = "")
        then
          r ← svcDelete namespace localServiceName;
          if isFailure r then fail_as true else deleteLinkFederatedStatus name namespace
        else
          r ← svcUpdate namespace localService;
          match r with inr _ => mret () | inl _ => fail_as true end
  end.

Definition handleCreateFederatedService (remoteService : Service) : M () :=
  let ns := svc_Namespace remoteService in
  let status := updateLinkFederatedStatus (svc_Name remoteService) ns in
  if bool_decide (svc_ClusterIP remoteService = ClusterIPNone) then
    status (mirrorStatusCondition false reasonInvalidService
              "Headless service cannot join federated service" None);;
    fail_as false
  else
    goOn ← prepareNamespace status ns;
    if (goOn : bool) then
      let serviceToCreate :=
        mkService (federatedServiceName (svc_Name remoteService)) ns
          (getFederatedServiceLabels remoteService) (Some (getFederatedServiceAnnotations remoteService))
          "" "" (remapRemoteServicePorts (svc_Ports remoteService)) in
      r ← svcCreate assignIP ns serviceToCreate;
      match r with
      | inr _ | inl AlreadyExists =>
          status (mirrorStatusCondition true reasonMirrored "" (Some serviceToCreate))
      | inl _ =>
          status (mirrorStatusCondition false reasonError "Failed to create federated service" None);;
          fail_as true
      end
    else mret ().

(** ** Services of the remote cluster *)
Definition createOrUpdateMirror (service : Service) : M bool :=
  let ns := svc_Namespace service in
  let mirrorName := mirrorServiceName (svc_Name service) in
  if isExported (svc_Labels service) || isRemoteDiscovery (svc_Labels service) then
    r ← svcLister ns mirrorName;
    match r with
    | inl NotFound => enqueue (RemoteServiceExported service);; mret false
    | inl _ => fail_as true
    | inr p =>
        localService ← getSvc p;
        match annotations (svc_Annotations localService) !! RemoteResourceVersionAnnotation with
        | Some lastMirroredRemoteVersion =>
            if bool_decide (lastMirroredRemoteVersion = svc_ResourceVersion service) then mret true
            else
              r ← epsLister ns mirrorName;
              endpoints ← match r with
                | inr q => mret (Some q)
                | inl NotFound => mret None
                | inl _ => fail_as true
                end;
              enqueue (RemoteExportedServiceUpdated p endpoints service);; mret true
        | None => mret true
        end
    end
  else
    r ← svcLister ns mirrorName;
    match r with
    | inl _ => mret true
    | inr p =>
        localSvc ← getSvc p;
        (if bool_decide (is_Some (svc_Labels localSvc !! MirroredResourceLabel)
                         ∧ get (svc_Labels localSvc) RemoteClusterNameLabel = cluster)
         then enqueue (RemoteServiceUnexported (svc_Name service) ns) else mret ());;
        mret true
    end.

Definition createOrUpdateFederated (service : Service) : M () :=
  let ns := svc_Namespace service in
  let federatedName := federatedServiceName (svc_Name service) in
  r ← svcLister ns federatedName;
  if isFederatedServiceMember (svc_Labels service) then
    match r with
    | inl NotFound => enqueue (CreateFederatedService service)
    | inl _ =>
        updateLinkFederatedStatus (svc_Name service) ns
          (mirrorStatusCondition false reasonError "Failed to get federated service" None);;
        fail_as true
    | inr p => enqueue (RemoteServiceJoinsFederatedService p service)
    end
  else
    match r with
    | inl _ => mret ()
    | inr p =>
        localSvc ← getSvc p;
        if bool_decide (is_Some (svc_Labels localSvc !! MirroredResourceLabel))
        then enqueue (RemoteServiceLeavesFederatedService (svc_Name service) ns) else mret ()
    end.

(** The first part returns early when it queues the creation of the mirror. *)
Definition createOrUpdateService (service : Service) : M () :=
  goOn ← createOrUpdateMirror service;
  if (goOn : bool) then createOrUpdateFederated service else mret ().

Definition handleOnDelete (service : Service) : M () :=
  (if isExported (svc_Labels service) || isRemoteDiscovery (svc_Labels service)
   then enqueue (RemoteServiceUnexported (svc_Name service) (svc_Namespace service)) else mret ());;
  if isFederatedServiceMember (svc_Labels service)
  then enqueue (RemoteServiceLeavesFederatedService (svc_Name service) (svc_Namespace service))
  else mret ().

Definition handleLocalNamespaceAdded (ns : string) : M () :=
  r ← remSvcList ns;
  match r with
  | inl _ => fail_as true
  | inr svcs => forM svcs (λ svc, enqueue (OnAddCalled svc))
  end.

(** ** Garbage collection and cleanup *)
Definition clusterLabels : strmap :=
  <[RemoteClusterNameLabel := cluster]> {[MirroredResourceLabel := "true"]}.

Definition cleanupOrphanedService (srv : Service) : M bool :=
  let mirroredName := default (svc_Name srv) (svc_Labels srv !! MirroredHeadlessSvcNameLabel) in
  r ← remSvcLister (svc_Namespace srv) (originalResourceName mirroredName);
  match r with
  | inr _ => mret false
  | inl NotFound =>
      r ← svcDelete (svc_Namespace srv) (svc_Name srv);
      mret match r with inl _ => true | inr _ => false end
  | inl _ => mret true
  end.

(** The error of a failed list is retryable unless it is NotFound. *)
Definition listed {A} (r : apiError + A) : M A :=
  match r with inr l => mret l | inl NotFound => fail_as false | inl _ => fail_as true end.

Definition cleanupOrphanedServices : M () :=
  r ← svcListerList clusterLabels;
  servicesOnLocalCluster ← listed r;
  errors ← forErrors servicesOnLocalCluster cleanupOrphanedService;
  if (errors : bool) then fail_as true else mret ().

Definition cleanupMirroredResources : M () :=
  r ← svcListerList clusterLabels;
  services ← listed r;
  errors1 ← forErrors services (λ svc,
    r ← svcDelete (svc_Namespace svc) (svc_Name svc); mret (isFailure r));
  r ← epsListerList clusterLabels;
  endpoints ← listed r;
  errors2 ← forErrors endpoints (λ ep,
    r ← epsDelete (eps_Namespace ep) (eps_Name ep); mret (isFailure r));
  if errors1 || errors2 then fail_as true else mret ().

(** ** Repairing endpoints *)
Definition createOrUpdateGatewayEndpoints (addresses : list EndpointAddress) : M () :=
  probePort ← orFatal (strconv.ParseInt (pr_Port (lk_ProbeSpec spec)) 32);
  let endpoints :=
    mkEndpoints ("probe-gateway-" +:+ cluster) (serviceMirrorNamespace rcsw)
      {[RemoteClusterNameLabel := cluster]}
      (Some {[RemoteGatewayIdentity := GatewayIdentity spec]}) ""
      [mkEndpointSubset addresses [] [mkEndpointPort "mc-probe" "TCP" (i32 probePort)]] in
  r ← epsGet (eps_Namespace endpoints) (eps_Name endpoints);
  r ← match r with
      | inl NotFound => epsCreate (eps_Namespace endpoints) endpoints
      | inl e => mret (inl e)
      | inr _ => epsUpdate (eps_Namespace endpoints) endpoints
      end;
  match r with inr _ => mret () | inl _ => fail_as false end.

Definition getMirrorServices : M (apiError + list Service) := svcList clusterLabels.

(** The endpoints of a mirror service, from the cache or else from the API server. *)
Definition mirrorEndpointsOf (svc : Service) : M (option Endpoints) :=
  r ← epsLister (svc_Namespace svc) (svc_Name svc);
  match r with
  | inr p => e ← getEps p; mret (Some e)
  | inl NotFound =>
      r ← epsGet (svc_Namespace svc) (svc_Name svc);
      mret match r with inr e => Some e | inl _ => None end
  | inl _ => mret None
  end.

(** The body of the loop: [continue] on every failure. *)
Definition repairService (gatewayAddresses : list EndpointAddress) (svc : Service) : M () :=
  if bool_decide (svc_ClusterIP svc = ClusterIPNone
                  ∨ is_Some (svc_Labels svc !! RemoteDiscoveryLabel)) then mret () else
  o ← mirrorEndpointsOf svc;
  match o, getEndpointsPorts svc with
  | Some updatedEndpoints, Some ports =>
      let filled := [mkEndpointSubset gatewayAddresses [] ports] in
      subsets ← match svc_Labels svc !! MirroredHeadlessSvcNameLabel with
        | Some _ => mret (Some filled)
        | None =>
            r ← isEmptyService (mkService (targetResourceName (svc_Name svc)) (svc_Namespace svc)
                  (svc_Labels svc) (svc_Annotations svc) (svc_ResourceVersion svc)
                  (svc_ClusterIP svc) (svc_Ports svc));
            mret match r with
                 | inl _ => None
                 | inr b => Some (if (b : bool) then [] else filled)
                 end
        end;
      match subsets with
      | None => mret ()
      | Some subsets =>
          _ ← updateMirrorEndpoints (set_eps_Annotations
                (Some (<[RemoteGatewayIdentity := GatewayIdentity spec]>
                         (annotations (eps_Annotations updatedEndpoints))))
                (set_eps_Subsets subsets updatedEndpoints));
          mret ()
      end
  | _, _ => mret ()
  end.

Definition repairEndpoints : M () :=
  gatewayAddresses ← orRetry resolveGatewayAddress;
  _ ← attempt (createOrUpdateGatewayEndpoints gatewayAddresses);
  r ← getMirrorServices;
  match r with
  | inl _ => fail_as true
  | inr mirrorServices => forM mirrorServices (repairService gatewayAddresses)
  end.

(** ** Endpoints of the remote cluster *)
(** Non-headless endpoints: the cached object [p] is modified before it is written. *)
Definition fillOrEmptyEndpoints (exportedEndpoints : Endpoints) : M () :=
  let ns := eps_Namespace exportedEndpoints in
  r ← epsLister ns (mirrorServiceName (eps_Name exportedEndpoints));
  match r with
  | inl _ => fail_as true
  | inr p =>
      ep ← getEps p;
      if eqb (isEmptyEndpoints ep) (isEmptyEndpoints exportedEndpoints) then mret () else
      subsets ← (if isEmptyEndpoints exportedEndpoints then mret [] else
                   r ← remSvcLister ns (eps_Name exportedEndpoints);
                   match r with
                   | inl _ => fail_as true
                   | inr exportedService =>
                       gatewayAddresses ← orRetry resolveGatewayAddress;
                       ports ← orFatal (getEndpointsPorts exportedService);
                       mret [mkEndpointSubset gatewayAddresses [] ports]
                   end);
      let ep := set_eps_Subsets subsets ep in
      putEps p (updateReadiness ep);;
      r ← updateMirrorEndpoints ep;
      match r with inr _ => mret () | inl _ => fail_as false end
  end.

Definition createRemoteHeadlessService (remoteService : Service) (exportedEndpoints : Endpoints)
    : M Service :=
  let empty_service := mkService "" "" ∅ None "" "" [] in
  match eps_Subsets exportedEndpoints with
  | [] => mret empty_service
  | _ =>
      let ns := svc_Namespace remoteService in
      goOn ← (if namespaceCreationEnabled rcsw then mirrorNamespaceIfNecessary ns;; mret true
              else r ← nsLister ns;
                   match r with
                   | inr _ => mret true
                   | inl NotFound => mret false
                   | inl _ => fail_as true
                   end);
      if (goOn : bool) then
        r ← svcCreate assignIP ns (newMirrorService remoteService
              (if shouldExportAsHeadlessService exportedEndpoints then ClusterIPNone else ""));
        match r with
        | inr svc => mret svc
        | inl AlreadyExists => fail_as false
        | inl _ => fail_as true
        end
      else mret empty_service
  end.

(** An existing service is not an error, but the client returns no service then. *)
Definition createEndpointMirrorService (endpointHostname resourceVersion endpointMirrorName : string)
    (exportedService : Service) : M Service :=
  let ns := svc_Namespace exportedService in
  gatewayAddresses ← orRetry resolveGatewayAddress;
  let fq := endpointHostname +:+ "." +:+ fqName (svc_Name exportedService) ns in
  let labels := <[MirroredHeadlessSvcNameLabel := mirrorServiceName (svc_Name exportedService)]>
                  (getMirrorServiceLabels exportedService) in
  ports ← orFatal (getEndpointsPorts exportedService);
  r ← svcCreate assignIP ns (mkService endpointMirrorName ns labels
        (Some (<[RemoteServiceFqName := fq]> {[RemoteResourceVersionAnnotation := resourceVersion]}))
        "" "" (remapRemoteServicePorts (svc_Ports exportedService)));
  createdService ← match r with
    | inr s => mret s
    | inl AlreadyExists => mret (mkService "" "" ∅ None "" "" [])
    | inl _ => fail_as true
    end;
  r ← createMirrorEndpoints (mkEndpoints endpointMirrorName ns labels
        (Some (withGatewayIdentity {[RemoteServiceFqName := fq]})) ""
        [mkEndpointSubset gatewayAddresses [] ports]);
  match r with
  | inr _ => mret createdService
  | inl _ => _ ← svcDelete ns endpointMirrorName; fail_as true
  end.

(** The subset of a headless mirror for a subset of the exported endpoints: one address per
    named address, and none at all when there are none. *)
Definition mirrorSubset (f : EndpointAddress → M (option EndpointAddress)) (s : EndpointSubset)
    : M (option EndpointSubset) :=
  newAddresses ← forCollect (es_Addresses s) (λ a,
    if bool_decide (ea_Hostname a = "") then mret None else f a);
  mret match newAddresses with
       | [] => None
       | _ => Some (mkEndpointSubset newAddresses [] (es_Ports s))
       end.

Definition createHeadlessMirrorEndpoints (exportedService : Service) (exportedEndpoints : Endpoints)
    : M () :=
  subsetsToCreate ← forCollect (eps_Subsets exportedEndpoints) (mirrorSubset (λ addr,
    r ← attempt (createEndpointMirrorService (ea_Hostname addr) (eps_ResourceVersion exportedEndpoints)
                   (mirrorServiceName (ea_Hostname addr)) exportedService);
    match r with
    | inl _ => mret None
    | inr createdService =>
        match ea_TargetRef addr with
        | None => crash
        | Some name => mret (Some (mkEndpointAddress (svc_ClusterIP createdService) name None))
        end
    end));
  let ns := svc_Namespace exportedService in
  let headlessMirrorServiceName := mirrorServiceName (svc_Name exportedService) in
  r ← epsCreate ns (mkEndpoints headlessMirrorServiceName ns (getMirrorEndpointLabels exportedService)
        (Some (withGatewayIdentity {[RemoteServiceFqName := fqName (svc_Name exportedService) ns]}))
        "" subsetsToCreate);
  match r with
  | inr _ => mret ()
  | inl _ => _ ← svcDelete ns headlessMirrorServiceName; fail_as true
  end.

(** The endpoint mirrors whose name is not among the exported addresses go. *)
Definition updateHeadlessMirrorEndpoints (mirrorEndpoints : Endpoints) (exportedService : Service)
    (exportedEndpoints : Endpoints) : M () :=
  newSubsets ← forCollect (eps_Subsets exportedEndpoints) (mirrorSubset (λ addr,
    let endpointMirrorName := mirrorServiceName (ea_Hostname addr) in
    r ← svcLister (eps_Namespace exportedEndpoints) endpointMirrorName;
    endpointMirrorService ← match r with
      | inr p => getSvc p
      | inl NotFound => createEndpointMirrorService (ea_Hostname addr)
                          (eps_ResourceVersion exportedEndpoints) endpointMirrorName exportedService
      | inl _ => fail_as false
      end;
    mret (Some (mkEndpointAddress (svc_ClusterIP endpointMirrorService) (ea_Hostname addr) None))));
  let endpointMirrors := newSubsets ≫= λ s, (λ a, mirrorServiceName (ea_Hostname a)) <$> es_Addresses s in
  r ← svcListerList {[MirroredHeadlessSvcNameLabel := mirrorServiceName (svc_Name exportedService)]};
  match r with
  | inl _ => fail_as false
  | inr endpointMirrorServices =>
      errors ← forErrors endpointMirrorServices (λ service,
        if bool_decide (svc_Name service ∈ endpointMirrors) then mret false else
        r ← svcDelete (svc_Namespace service) (svc_Name service); mret (isFailure r));
      if (errors : bool) then fail_as true else
      r ← updateMirrorEndpoints (set_eps_Subsets newSubsets mirrorEndpoints);
      match r with inr _ => mret () | inl _ => fail_as true end
  end.

Definition createOrUpdateHeadlessEndpoints (exportedEndpoints : Endpoints) : M () :=
  let ns := eps_Namespace exportedEndpoints in
  r ← remSvcLister ns (eps_Name exportedEndpoints);
  match r with
  | inl _ => fail_as false
  | inr exportedService =>
      match svc_Ports exportedService with
      | [] => mret ()
      | _ =>
          r ← svcLister (svc_Namespace exportedService) (mirrorServiceName (svc_Name exportedService));
          mirrorService ← match r with
            | inr p => getSvc p
            | inl NotFound => createRemoteHeadlessService exportedService exportedEndpoints
            | inl _ => fail_as false
            end;
          let headless := bool_decide (svc_ClusterIP mirrorService = ClusterIPNone) in
          r ← epsLister ns (mirrorServiceName (eps_Name exportedEndpoints));
          match r with
          | inl NotFound =>
              if headless then createHeadlessMirrorEndpoints exportedService exportedEndpoints
              else createGatewayEndpoints exportedService
          | inl _ => fail_as false
          | inr q =>
              if headless then
                mirrorEndpoints ← getEps q;
                updateHeadlessMirrorEndpoints mirrorEndpoints exportedService exportedEndpoints
              else mret ()
          end
      end
  end.

Definition handleCreateOrUpdateEndpoints (exportedEndpoints : Endpoints) : M () :=
  if isHeadlessEndpoints exportedEndpoints then
    if headlessServicesEnabled rcsw then createOrUpdateHeadlessEndpoints exportedEndpoints
    else mret ()
  else fillOrEmptyEndpoints exportedEndpoints.

(** ** The loop *)
Definition processNextEvent (ev : event) : M () :=
  match ev with
  | OnAddCalled svc | OnUpdateCalled svc => createOrUpdateService svc
  | OnAddEndpointsCalled ep | OnUpdateEndpointsCalled ep => handleCreateOrUpdateEndpoints ep
  | OnDeleteCalled svc => handleOnDelete svc
  | RemoteServiceExported svc => handleRemoteServiceExported svc
  | RemoteExportedServiceUpdated p q r => handleRemoteExportedServiceUpdated p q r
  | RemoteServiceUnexported name ns => handleRemoteServiceUnexported name ns
  | CreateFederatedService svc => handleCreateFederatedService svc
  | RemoteServiceJoinsFederatedService p r => handleFederatedServiceJoin p r
  | RemoteServiceLeavesFederatedService name ns => handleFederatedServiceLeave name ns
  | ClusterUnregistered => cleanupMirroredResources
  | OrphanedServicesGcTriggered => cleanupOrphanedServices
  | RepairEndpoints => repairEndpoints
  | OnLocalNamespaceAdded ns => handleLocalNamespaceAdded ns
  end.

(** What [processEvents] does with an event that was requeued [n] times before: what the
    handler did, and the event again when it is to be retried. *)
Definition processEvent (n : nat) (ev : event) (w : World) : result (option (nat * event)) * World :=
  match processNextEvent ev w with
  | (Ret _, w) => (Ret None, w)
  | (Fail true, w) =>
      (Ret (if bool_decide (n < requeueLimit rcsw)%nat && negb (shutdown w)
            then Some (S n, ev) else None), w)
  | (Fail false, w) => (Ret None, w)
  | (Crash, w) => (Crash, w)
  end.

(** The informer handlers of [Start]; [None] is an object of another type. *)
Definition svcAddFunc (svc : option Service) : M () :=
  match svc with Some svc => enqueue (OnAddCalled svc) | None => crash end.
Definition svcUpdateFunc (new : option Service) : M () :=
  match new with Some new => enqueue (OnUpdateCalled new) | None => crash end.
(** A deleted object, or the last state of one whose deletion was missed. *)
Definition svcDeleteFunc (obj : option Service + option Service) : M () :=
  match obj with
  | inl (Some service) | inr (Some service) => enqueue (OnDeleteCalled service)
  | _ => mret ()
  end.
Definition nsAddFunc (ns : string) : M () := enqueue (OnLocalNamespaceAdded ns).
Definition epAddFunc (ep : Endpoints) : M () :=
  if isExported (eps_Labels ep) && isHeadlessEndpoints ep
  then enqueue (OnAddEndpointsCalled ep) else mret ().
Definition epUpdateFunc (ep : Endpoints) : M () :=
  if isExported (eps_Labels ep) && negb (isRemoteDiscovery (eps_Labels ep))
  then enqueue (OnUpdateEndpointsCalled ep) else mret ().

(** The first events of [Start]: the informers add an event for each object they hold. *)
Definition Start : M () :=
  enqueue OrphanedServicesGcTriggered;;
  if bool_decide (GatewayAddress spec = "") then mret () else enqueue RepairEndpoints.

Definition Stop (cleanupState : bool) : M () :=
  (if cleanupState then enqueue ClusterUnregistered else mret ());;
  modify (set_shutdown true).
End watcher.
