(* ===== verification/MirrorSafety.v ===== *)
(** What the service mirror leaves alone: services and endpoints of the local cluster that
    are neither named like a mirror or a federated service nor labelled as mirrored from the
    watched cluster are never written, whatever calls fail and in whatever order events are
    handled. *)
From S2P Require Import Prelude GoStd K8s Mirror ServiceMirror.

#[local] Open Scope string_scope.
#[local] Open Scope list_scope.
#[local] Open Scope Z_scope.

Definition svc_key (s : Service) : key := (svc_Namespace s, svc_Name s).
Definition eps_key (e : Endpoints) : key := (eps_Namespace e, eps_Name e).

Section frame.
Context `{!MapRange} (LookupIP : string → option (list string)).
Context (LabelSelectorAsSelector : LabelSelector → option (strmap → bool)).
Context (assignIP : key → string) (rcsw : RemoteClusterServiceWatcher).

Abbreviation mirrorName := (mirrorServiceName rcsw).

(** A name that no handler gives to an object. *)
Definition unmirrored_name (name : string) : Prop :=
  ∀ n, name ≠ mirrorName n ∧ name ≠ federatedServiceName n.

(** Labels that no handler selects by. *)
Definition unmirrored_labels (ls : strmap) : Prop :=
  ¬ clusterLabels rcsw ⊆ ls ∧ ∀ n, ls !! MirroredHeadlessSvcNameLabel ≠ Some (mirrorName n).

(** The foreign object, and the keys of the objects the pointers in use point to. *)
Context (k0 : key) (Hk0 : unmirrored_name k0.2) (svc_ptrs eps_ptrs : gmap ptr key).

Definition event_ok (ev : event) : Prop :=
  match ev with
  | RemoteExportedServiceUpdated p q r =>
      svc_ptrs !! p = Some (svc_Namespace r, mirrorName (svc_Name r))
      ∧ (∀ q', q = Some q' → eps_ptrs !! q' = Some (svc_Namespace r, mirrorName (svc_Name r)))
  | RemoteServiceJoinsFederatedService p r =>
      svc_ptrs !! p = Some (svc_Namespace r, federatedServiceName (svc_Name r))
  | _ => True
  end.

Record frame_inv (w : World) : Prop := {
  fi_svcs k s : lc_svcs w !! k = Some s → svc_key s = k;
  fi_eps k e : lc_eps w !! k = Some e → eps_key e = k;
  fi_cache_svcs k p : cache_svcs w !! k = Some p → svc_ptrs !! p = Some k;
  fi_cache_eps k q : cache_eps w !! k = Some q → eps_ptrs !! q = Some k;
  fi_svc_heap p k : svc_ptrs !! p = Some k → ∃ s, svc_heap w !! p = Some s ∧ svc_key s = k;
  fi_ep_heap q k : eps_ptrs !! q = Some k → ∃ e, ep_heap w !! q = Some e ∧ eps_key e = k;
  fi_svc_labels s : lc_svcs w !! k0 = Some s → unmirrored_labels (svc_Labels s);
  fi_cached_svc p s : svc_ptrs !! p = Some k0 → svc_heap w !! p = Some s → unmirrored_labels (svc_Labels s);
  fi_cached_eps q e : eps_ptrs !! q = Some k0 → ep_heap w !! q = Some e → unmirrored_labels (eps_Labels e);
  fi_queue : Forall event_ok (queue w) }.

Definition same (w w' : World) : Prop :=
  lc_svcs w' !! k0 = lc_svcs w !! k0 ∧ lc_eps w' !! k0 = lc_eps w !! k0.

(** The handler keeps the invariant and the foreign objects, and what it returns satisfies
    [Q]. *)
Definition safe {A} (Q : A → Prop) (m : M A) : Prop :=
  ∀ w, frame_inv w → let '(r, w') := m w in
    frame_inv w' ∧ same w w' ∧ ∀ a, r = Ret a → Q a.

(** ** Rules *)
Lemma safe_ret {A} (Q : A → Prop) a : Q a → safe Q (mret a).
Proof. intros HQ w Hw. unfold mret, M_ret. split_and!; [done|done|]. intros ? [= <-]. done. Qed.

Lemma safe_fail {A} (Q : A → Prop) b : safe Q (fail_as b).
Proof. intros w Hw. unfold fail_as. done. Qed.

Lemma safe_crash {A} (Q : A → Prop) : safe Q crash.
Proof. intros w Hw. unfold crash. done. Qed.

Lemma safe_bind {A B} (P : A → Prop) (Q : B → Prop) (m : M A) (k : A → M B) :
  safe P m → (∀ a, P a → safe Q (k a)) → safe Q (m ≫= k).
Proof.
  intros Hm Hk w Hw. specialize (Hm w Hw). unfold mbind, M_bind.
  destruct (m w) as [[a|b|] w1]; destruct Hm as (Hw1 & Hs & Ha).
  - specialize (Hk a (Ha a eq_refl) w1 Hw1). destruct (k a w1) as [r w2].
    destruct Hk as (Hw2 & [Hs1 Hs2] & Hr). destruct Hs as [Hs3 Hs4].
    split_and!; [done|split; congruence|done].
  - by split_and!.
  - by split_and!.
Qed.

Lemma safe_weaken {A} (P Q : A → Prop) m : safe P m → (∀ a, P a → Q a) → safe Q m.
Proof.
  intros Hm HPQ w Hw. specialize (Hm w Hw). destruct (m w) as [r w']. naive_solver.
Qed.

Lemma safe_attempt {A} (Q : A → Prop) m :
  safe Q m → safe (λ r, match r with inr a => Q a | inl _ => True end) (attempt m).
Proof.
  intros Hm w Hw. specialize (Hm w Hw). unfold attempt. destruct (m w) as [[a|b|] w'];
    destruct Hm as (? & ? & Ha); split_and!; try done; intros ? [= <-]; auto.
Qed.

Lemma safe_forM {A} (P : A → Prop) l (f : A → M ()) :
  Forall P l → (∀ x, P x → safe (λ _, True) (f x)) → safe (λ _, True) (forM l f).
Proof.
  intros Hl Hf. induction Hl as [|x l Hx Hl IH]; simpl; [by apply safe_ret|].
  eapply safe_bind; [by apply Hf|by intros].
Qed.

Lemma safe_forErrors {A} (P : A → Prop) l (f : A → M bool) :
  Forall P l → (∀ x, P x → safe (λ _, True) (f x)) → safe (λ _, True) (forErrors l f).
Proof.
  intros Hl Hf. induction Hl as [|x l Hx Hl IH]; simpl; [by apply safe_ret|].
  eapply safe_bind; [by apply Hf|intros e _]. eapply safe_bind; [done|intros; by apply safe_ret].
Qed.

Lemma safe_forCollect {A B} l (f : A → M (option B)) :
  (∀ x, safe (λ _, True) (f x)) → safe (λ _, True) (forCollect l f).
Proof.
  intros Hf. induction l as [|x l IH]; simpl; [by apply safe_ret|].
  eapply safe_bind; [by apply Hf|intros e _]. eapply safe_bind; [done|intros; by apply safe_ret].
Qed.

(** A call is safe when it is without its fault: the fault only hides the result. *)
Lemma safe_call {A} (Q : A → Prop) f :
  (∀ w, frame_inv w → let '(r, w') := f w in
    frame_inv w' ∧ same w w' ∧ ∀ a, r = inr a → Q a) →
  safe (λ r, match r with inr a => Q a | inl _ => True end) (call f).
Proof.
  intros Hf w Hw. unfold call. set (w1 := set_faults (tail (faults w)) w).
  assert (frame_inv w1) as Hw1 by (destruct Hw; constructor; done).
  specialize (Hf w1 Hw1).
  assert (same w w1) as [Hs1 Hs2] by done.
  destruct (head (faults w)) as [[ft|]|].
  - destruct (f_applied ft).
    + destruct (f w1) as [r w2]. simpl. destruct Hf as (? & [? ?] & _).
      split_and!; [done|split; congruence|by intros ? [= <-]].
    + split_and!; [done|done|by intros ? [= <-]].
  - destruct (f w1) as [r w2]. destruct Hf as (? & [? ?] & Hr).
    split_and!; [done|split; congruence|]. intros ? [= <-]. destruct r; auto.
  - destruct (f w1) as [r w2]. destruct Hf as (? & [? ?] & Hr).
    split_and!; [done|split; congruence|]. intros ? [= <-]. destruct r; auto.
Qed.

(** ** The calls *)
Abbreviation ok := (λ _, True).

Lemma call_read {A} (Q : A → Prop) (f : World → apiError + A) :
  (∀ w, frame_inv w → ∀ a, f w = inr a → Q a) →
  safe (λ r, match r with inr a => Q a | inl _ => True end) (call (λ w, (f w, w))).
Proof. intros Hf. apply safe_call. intros w Hw. split_and!; [done|done|]. by apply Hf. Qed.

Lemma call_write {A} (f : World → (apiError + A) * World) :
  (∀ w, frame_inv w → frame_inv (f w).2 ∧ same w (f w).2) → safe ok (call f).
Proof.
  intros Hf. eapply safe_weaken; [apply (safe_call ok)|done]. intros w Hw.
  specialize (Hf w Hw). destruct (f w). naive_solver.
Qed.

(** Writing a service or endpoints under a key other than the foreign one. *)
Lemma inv_set_svcs w k (o : option Service) :
  frame_inv w → k ≠ k0 → (∀ s, o = Some s → svc_key s = k) →
  let w' := set_lc_svcs (partial_alter (λ _, o) k (lc_svcs w)) w in frame_inv w' ∧ same w w'.
Proof.
  intros [] Hk Ho. split; [|split; [simpl; by rewrite lookup_partial_alter_ne|done]].
  constructor; simpl; try done.
  - intros k' s. destruct (decide (k' = k)) as [->|]; [|by rewrite lookup_partial_alter_ne; eauto].
    rewrite lookup_partial_alter. rewrite decide_True by done. eauto.
  - intros s. rewrite lookup_partial_alter_ne by done. eauto.
Qed.

Lemma inv_set_eps w k (o : option Endpoints) :
  frame_inv w → k ≠ k0 → (∀ e, o = Some e → eps_key e = k) →
  let w' := set_lc_eps (partial_alter (λ _, o) k (lc_eps w)) w in frame_inv w' ∧ same w w'.
Proof.
  intros [] Hk Ho. split; [|split; [done|simpl; by rewrite lookup_partial_alter_ne]].
  constructor; simpl; try done.
  intros k' e. destruct (decide (k' = k)) as [->|]; [|by rewrite lookup_partial_alter_ne; eauto].
  rewrite lookup_partial_alter. rewrite decide_True by done. eauto.
Qed.

Lemma safe_svcCreate ns s : svc_Namespace s = ns → (ns, svc_Name s) ≠ k0 → safe ok (svcCreate assignIP ns s).
Proof.
  intros Hns Hk. apply call_write. intros w Hw. repeat case_bool_decide; [done|done|].
  apply (inv_set_svcs w _ (Some _)); [done|done|]. intros ? [= <-]. unfold svc_key, stored.
  case_bool_decide; simpl; congruence.
Qed.

Lemma safe_svcUpdate ns s : svc_Namespace s = ns → (ns, svc_Name s) ≠ k0 → safe ok (svcUpdate ns s).
Proof.
  intros Hns Hk. apply call_write. intros w Hw. case_bool_decide; [|done].
  apply (inv_set_svcs w _ (Some _)); [done|done|]. intros ? [= <-]. unfold svc_key. congruence.
Qed.

Lemma safe_svcDelete ns name : (ns, name) ≠ k0 → safe ok (svcDelete ns name).
Proof.
  intros Hk. apply call_write. intros w Hw. case_bool_decide; [|done].
  by apply (inv_set_svcs w _ None).
Qed.

Lemma safe_epsCreate ns e : eps_Namespace e = ns → (ns, eps_Name e) ≠ k0 → safe ok (epsCreate ns e).
Proof.
  intros Hns Hk. apply call_write. intros w Hw. repeat case_bool_decide; [done|done|].
  apply (inv_set_eps w _ (Some _)); [done|done|]. intros ? [= <-]. unfold eps_key. congruence.
Qed.

Lemma safe_epsUpdate ns e : eps_Namespace e = ns → (ns, eps_Name e) ≠ k0 → safe ok (epsUpdate ns e).
Proof.
  intros Hns Hk. apply call_write. intros w Hw. case_bool_decide; [|done].
  apply (inv_set_eps w _ (Some _)); [done|done|]. intros ? [= <-]. unfold eps_key. congruence.
Qed.

Lemma safe_epsDelete ns name : (ns, name) ≠ k0 → safe ok (epsDelete ns name).
Proof.
  intros Hk. apply call_write. intros w Hw. case_bool_decide; [|done].
  by apply (inv_set_eps w _ None).
Qed.

Lemma safe_svcLister ns name :
  safe (λ r, match r with inr p => svc_ptrs !! p = Some (ns, name) | inl _ => True end) (svcLister ns name).
Proof.
  apply call_read. intros w Hw p. destruct (cache_svcs w !! (ns, name)) eqn:Hp; intros [= <-].
  by apply (fi_cache_svcs w Hw).
Qed.

Lemma safe_epsLister ns name :
  safe (λ r, match r with inr p => eps_ptrs !! p = Some (ns, name) | inl _ => True end) (epsLister ns name).
Proof.
  apply call_read. intros w Hw p. destruct (cache_eps w !! (ns, name)) eqn:Hp; intros [= <-].
  by apply (fi_cache_eps w Hw).
Qed.

Lemma safe_epsGet ns name :
  safe (λ r, match r with inr e => eps_key e = (ns, name) | inl _ => True end) (epsGet ns name).
Proof.
  apply call_read. intros w Hw p. destruct (lc_eps w !! (ns, name)) eqn:Hp; intros [= <-].
  by apply (fi_eps w Hw).
Qed.

Lemma safe_read {A} (f : World → apiError + A) : safe ok (call (λ w, (f w, w))).
Proof. eapply safe_weaken; [by apply (call_read ok)|done]. Qed.

(** The services a handler lists by label are not the foreign one. *)
Definition not_selecting (sel : strmap) : Prop := ∀ ls, unmirrored_labels ls → ¬ sel ⊆ ls.

Lemma clusterLabels_not_selecting : not_selecting (clusterLabels rcsw).
Proof. by intros ls [Hls _]. Qed.

Lemma headless_not_selecting n : not_selecting {[MirroredHeadlessSvcNameLabel := mirrorName n]}.
Proof. intros ls [_ Hls] Hsub. apply (Hls n). by apply map_singleton_subseteq_l. Qed.

Lemma elem_of_cached {A : Type} (cache : gmap key ptr) (heap : gmap ptr A) x :
  x ∈ cached cache heap → ∃ k p, cache !! k = Some p ∧ heap !! p = Some x.
Proof.
  intros ([k p] & Hin & Hp)%list_elem_of_omap. apply elem_of_range in Hin. eauto.
Qed.

Lemma safe_svcListerList sel : not_selecting sel →
  safe (λ r, match r with inr l => Forall (λ s, svc_key s ≠ k0) l | inl _ => True end) (svcListerList sel).
Proof.
  intros Hsel. apply call_read. intros w Hw l [= <-]. apply Forall_forall.
  intros s [Hm (k & p & Hc & Hp)%elem_of_cached]%list_elem_of_filter Hs0.
  apply (fi_cache_svcs w Hw) in Hc. destruct (fi_svc_heap w Hw p k Hc) as (s' & Hs' & Hk).
  simplify_eq. rewrite Hs0 in Hc. eapply Hsel; [by eapply (fi_cached_svc w Hw)|]. unfold matches in Hm.
  by apply bool_decide_eq_true in Hm.
Qed.

Lemma safe_epsListerList sel : not_selecting sel →
  safe (λ r, match r with inr l => Forall (λ e, eps_key e ≠ k0) l | inl _ => True end) (epsListerList sel).
Proof.
  intros Hsel. apply call_read. intros w Hw l [= <-]. apply Forall_forall.
  intros e [Hm (k & p & Hc & Hp)%elem_of_cached]%list_elem_of_filter Hs0.
  apply (fi_cache_eps w Hw) in Hc. destruct (fi_ep_heap w Hw p k Hc) as (e' & He' & Hk).
  simplify_eq. rewrite Hs0 in Hc. eapply Hsel; [by eapply (fi_cached_eps w Hw)|]. unfold matches in Hm.
  by apply bool_decide_eq_true in Hm.
Qed.

Lemma safe_svcList sel : not_selecting sel →
  safe (λ r, match r with inr l => Forall (λ s, svc_key s ≠ k0) l | inl _ => True end) (svcList sel).
Proof.
  intros Hsel. apply call_read. intros w Hw l [= <-]. apply Forall_forall.
  intros s [Hm Hin]%list_elem_of_filter Hs0. apply list_elem_of_fmap in Hin as ([k s'] & -> & Hin).
  apply elem_of_range in Hin. simpl in *. pose proof (fi_svcs w Hw _ _ Hin) as Hk. subst.
  rewrite Hs0 in Hin. eapply Hsel; [by eapply (fi_svc_labels w Hw)|]. unfold matches in Hm.
  by apply bool_decide_eq_true in Hm.
Qed.

Lemma safe_getSvc p k : svc_ptrs !! p = Some k → safe (λ s, svc_key s = k) (getSvc p).
Proof.
  intros Hp w Hw. destruct (fi_svc_heap w Hw p k Hp) as (s & Hs & Hk). unfold getSvc. rewrite Hs.
  split_and!; [done|done|]. by intros ? [= <-].
Qed.

Lemma safe_getEps p k : eps_ptrs !! p = Some k → safe (λ e, eps_key e = k) (getEps p).
Proof.
  intros Hp w Hw. destruct (fi_ep_heap w Hw p k Hp) as (s & Hs & Hk). unfold getEps. rewrite Hs.
  split_and!; [done|done|]. by intros ? [= <-].
Qed.

Lemma safe_modify f : (∀ w, frame_inv w → frame_inv (f w) ∧ same w (f w)) → safe ok (modify f).
Proof. intros Hf w Hw. unfold modify. destruct (Hf w Hw). done. Qed.

Lemma safe_putSvc p s : svc_ptrs !! p = Some (svc_key s) → svc_key s ≠ k0 → safe ok (putSvc p s).
Proof.
  intros Hp Hk. apply safe_modify. intros w []. split; [|done]. constructor; simpl; try done.
  - intros p' k Hp'. destruct (decide (p' = p)) as [->|]; [|rewrite lookup_insert_ne by done; eauto].
    rewrite lookup_insert_eq. exists s. split; [done|congruence].
  - intros p' s' Hp'. destruct (decide (p' = p)) as [->|]; [congruence|].
    rewrite lookup_insert_ne by done. eauto.
Qed.

Lemma safe_putEps p e : eps_ptrs !! p = Some (eps_key e) → eps_key e ≠ k0 → safe ok (putEps p e).
Proof.
  intros Hp Hk. apply safe_modify. intros w []. split; [|done]. constructor; simpl; try done.
  - intros p' k Hp'. destruct (decide (p' = p)) as [->|]; [|rewrite lookup_insert_ne by done; eauto].
    rewrite lookup_insert_eq. exists e. split; [done|congruence].
  - intros p' s' Hp'. destruct (decide (p' = p)) as [->|]; [congruence|].
    rewrite lookup_insert_ne by done. eauto.
Qed.

Lemma safe_enqueue ev : event_ok ev → safe ok (enqueue ev).
Proof.
  intros Hev. apply safe_modify. intros w Hw. case_match; [done|]. split; [|done].
  destruct Hw; constructor; simpl; try done. by apply Forall_app_2; [|apply Forall_singleton].
Qed.

Lemma safe_linkGet : safe ok linkGet.
Proof. eapply safe_bind; [apply safe_read|intros; by apply safe_ret]. Qed.

Lemma safe_linkPatch s : safe ok (linkPatch s).
Proof. apply call_write. intros w []. split; [by constructor|done]. Qed.

Lemma safe_nsCreate ns ls : safe ok (nsCreate ns ls).
Proof. apply call_write. intros w []. case_bool_decide; [by split; [constructor|]|by split; [constructor|]]. Qed.

(** ** The handlers *)
Lemma mirror_ne ns n : (ns, mirrorName n) ≠ k0.
Proof. intros He. destruct (Hk0 n) as [Hm _]. apply Hm. by rewrite <-He. Qed.
Lemma federated_ne ns n : (ns, federatedServiceName n) ≠ k0.
Proof. intros He. destruct (Hk0 n) as [_ Hf]. apply Hf. by rewrite <-He. Qed.

(** Closes a side condition: the key of a write, or the event put on the queue. *)
Ltac side :=
  cbn [svc_Name eps_Name svc_Namespace eps_Namespace set_eps_Annotations set_eps_Subsets set_svc_Annotations];
  match goal with
  | |- _ => done
  | |- (_, mirrorName _) ≠ k0 => apply mirror_ne
  | |- (_, mirrorServiceName _ _) ≠ k0 => apply mirror_ne
  | |- (_, federatedServiceName _) ≠ k0 => apply federated_ne
  | |- (_, svc_Name (newMirrorService _ _ _ _)) ≠ k0 => apply mirror_ne
  | H : svc_key ?s = (_, _) |- (svc_Namespace ?s, svc_Name ?s) ≠ k0 =>
      change (svc_key s ≠ k0); rewrite H; first [apply mirror_ne | apply federated_ne]
  | H : eps_key ?s = (_, _) |- (eps_Namespace ?s, eps_Name ?s) ≠ k0 =>
      change (eps_key s ≠ k0); rewrite H; apply mirror_ne
  | H : svc_key ?s ≠ k0 |- (svc_Namespace ?s, svc_Name ?s) ≠ k0 => exact H
  | H : eps_key ?s ≠ k0 |- (eps_Namespace ?s, eps_Name ?s) ≠ k0 => exact H
  end.

Create HintDb mirror_safe.

(** One step through the code of a handler: its calls by their lemmas, the rest by cases. *)
Ltac safe_call_step :=
  first [ apply safe_svcLister | apply safe_epsLister | apply safe_epsGet
        | apply safe_svcListerList; first [apply clusterLabels_not_selecting|apply headless_not_selecting]
        | apply safe_epsListerList; apply clusterLabels_not_selecting
        | apply safe_svcList; apply clusterLabels_not_selecting
        | eapply safe_getSvc; eassumption | eapply safe_getEps; eassumption
        | apply safe_svcCreate; [done|side] | apply safe_svcUpdate; [done|side]
        | apply safe_svcDelete; side
        | apply safe_epsCreate; [done|side] | apply safe_epsUpdate; [done|side]
        | apply safe_epsDelete; side
        | apply safe_enqueue; first [done|simpl; eauto]
        | apply safe_linkGet | apply safe_linkPatch | apply safe_nsCreate | apply safe_read
        | solve [eauto with mirror_safe] ].

Ltac safe_step :=
  lazymatch goal with
  | |- safe _ (mret _) => apply safe_ret; try done
  | |- safe _ (fail_as _) => apply safe_fail
  | |- safe _ crash => apply safe_crash
  | |- safe _ (orRetry ?o) => unfold orRetry
  | |- safe _ (orFatal ?o) => unfold orFatal
  | |- safe _ (listed ?o) => unfold listed
  | |- safe _ (match ?x with _ => _ end) => destruct x
  | |- safe _ (mbind _ _) =>
      first [ eapply safe_bind; [safe_call_step|intros ? ?; cbv beta in * |-]
            | apply (safe_bind ok); [|intros ? _] ]
  | |- safe _ _ => first [ safe_call_step | eapply safe_weaken; [safe_call_step|done] ]
  end.
Ltac safe_tac := repeat (cbv zeta; safe_step).

Lemma safe_onLinkStatus f : safe ok (onLinkStatus rcsw f).
Proof. unfold onLinkStatus, patchLinkStatus. safe_tac. Qed.
#[local] Hint Resolve safe_onLinkStatus : mirror_safe.
#[local] Hint Unfold updateLinkMirrorStatus updateLinkFederatedStatus deleteLinkMirrorStatus deleteLinkFederatedStatus : mirror_safe.

Lemma safe_mirrorNamespaceIfNecessary ns : safe ok (mirrorNamespaceIfNecessary rcsw ns).
Proof. unfold mirrorNamespaceIfNecessary. safe_tac. Qed.
#[local] Hint Resolve safe_mirrorNamespaceIfNecessary : mirror_safe.

Lemma safe_prepareNamespace status ns :
  (∀ c, safe ok (status c)) → safe ok (prepareNamespace rcsw status ns).
Proof.
  intros Hs. unfold prepareNamespace. safe_tac.
  all: first [apply Hs|eapply safe_weaken; [apply (safe_attempt ok); safe_tac|done]].
Qed.

Lemma safe_createMirrorEndpoints e : eps_key e ≠ k0 → safe ok (createMirrorEndpoints rcsw e).
Proof. intros He. apply safe_epsCreate; unfold updateReadiness; case_match; done. Qed.
Lemma safe_updateMirrorEndpoints e : eps_key e ≠ k0 → safe ok (updateMirrorEndpoints rcsw e).
Proof. intros He. apply safe_epsUpdate; unfold updateReadiness; case_match; done. Qed.

Lemma safe_isEmptyService s : safe ok (isEmptyService s).
Proof. unfold isEmptyService. safe_tac. Qed.
#[local] Hint Resolve safe_isEmptyService : mirror_safe.

Lemma safe_createGatewayEndpoints s : safe ok (createGatewayEndpoints LookupIP rcsw s).
Proof.
  unfold createGatewayEndpoints. safe_tac. apply safe_createMirrorEndpoints. apply mirror_ne.
Qed.
#[local] Hint Resolve safe_createGatewayEndpoints : mirror_safe.

Lemma safe_mirrorStatus n ns c : safe ok (updateLinkMirrorStatus rcsw n ns c).
Proof. apply safe_onLinkStatus. Qed.
Lemma safe_federatedStatus n ns c : safe ok (updateLinkFederatedStatus rcsw n ns c).
Proof. apply safe_onLinkStatus. Qed.
Lemma safe_deleteMirrorStatus n ns : safe ok (deleteLinkMirrorStatus rcsw n ns).
Proof. apply safe_onLinkStatus. Qed.
Lemma safe_deleteFederatedStatus n ns : safe ok (deleteLinkFederatedStatus rcsw n ns).
Proof. apply safe_onLinkStatus. Qed.
#[local] Hint Resolve safe_mirrorStatus safe_federatedStatus safe_deleteMirrorStatus : mirror_safe.
#[local] Hint Resolve safe_deleteFederatedStatus safe_prepareNamespace : mirror_safe.

(** [attempt] around a handler that is safe. *)
Lemma safe_attempt_ok {A} (m : M A) : safe ok m → safe ok (attempt m).
Proof. intros Hm. eapply safe_weaken; [by apply (safe_attempt ok)|done]. Qed.
#[local] Hint Resolve safe_attempt_ok : mirror_safe.

Lemma safe_handleRemoteServiceExported s :
  safe ok (handleRemoteServiceExported LookupIP LabelSelectorAsSelector assignIP rcsw s).
Proof. unfold handleRemoteServiceExported. safe_tac. Qed.

Lemma safe_handleCreateFederatedService s : safe ok (handleCreateFederatedService assignIP rcsw s).
Proof. unfold handleCreateFederatedService. safe_tac. Qed.

Lemma safe_handleRemoteExportedServiceUpdated p q r :
  event_ok (RemoteExportedServiceUpdated p q r) →
  safe ok (handleRemoteExportedServiceUpdated LookupIP LabelSelectorAsSelector rcsw p q r).
Proof.
  intros [Hp Hq]. unfold handleRemoteExportedServiceUpdated, updateMirroredEndpoints.
  eapply safe_bind; [by eapply safe_getSvc|]. intros s Hs.
  assert (svc_key s ≠ k0) as Hne by (rewrite Hs; apply mirror_ne).
  apply (safe_bind ok); [|intros _ _].
  - destruct q as [q|]; [specialize (Hq q eq_refl)|]; destruct (isRemoteDiscovery _ _ _); safe_tac.
    apply safe_updateMirrorEndpoints. unfold eps_key. side.
  - apply (safe_bind ok); [by apply safe_putSvc; [rewrite Hp, <-Hs|]|intros _ _]. safe_tac.
Qed.

Lemma safe_handleRemoteServiceUnexported n ns : safe ok (handleRemoteServiceUnexported rcsw n ns).
Proof.
  unfold handleRemoteServiceUnexported. safe_tac.
  apply (safe_forErrors (λ s, svc_key s ≠ k0)); [|intros; safe_tac].
  match goal with |- Forall _ (match ?r with _ => _ end) => destruct r end; [constructor|done].
Qed.

Lemma safe_handleFederatedServiceJoin p r :
  event_ok (RemoteServiceJoinsFederatedService p r) → safe ok (handleFederatedServiceJoin rcsw p r).
Proof.
  intros Hp. unfold handleFederatedServiceJoin. simpl in Hp.
  eapply safe_bind; [by eapply safe_getSvc|]. intros s Hs.
  assert (svc_key s ≠ k0) as Hne by (rewrite Hs; apply federated_ne).
  safe_tac; apply safe_putSvc; unfold svc_key in *; simpl; congruence.
Qed.

Lemma safe_handleFederatedServiceLeave n ns : safe ok (handleFederatedServiceLeave rcsw n ns).
Proof.
  unfold handleFederatedServiceLeave.
  apply (safe_bind ok); [safe_tac|intros _ _]. cbv zeta.
  eapply safe_bind; [apply safe_svcLister|]. intros [[]|p] Hp; [safe_tac..|].
  eapply safe_bind; [by eapply safe_getSvc|]. intros s Hs.
  assert (svc_key s ≠ k0) as Hne by (rewrite Hs; apply federated_ne).
  destruct (_ && _); [safe_tac|]. set (s' := if bool_decide (TargetClusterName (link rcsw) = "") then _ else _).
  assert (svc_key s' = svc_key s) as Hs' by (unfold s'; by case_bool_decide).
  apply (safe_bind ok); [by apply safe_putSvc; rewrite Hs'; [rewrite Hs|]|intros _ _].
  case_bool_decide; [safe_tac|]. apply (safe_bind ok); [|intros; safe_tac].
  rewrite Hs in Hs'. injection Hs' as Hns Hn. apply safe_svcUpdate; [done|]. rewrite Hn. side.
Qed.

Lemma safe_createOrUpdateMirror s :
  safe ok (createOrUpdateMirror LabelSelectorAsSelector rcsw s).
Proof.
  unfold createOrUpdateMirror. destruct (_ || _); [|safe_tac]. cbv zeta.
  eapply safe_bind; [apply safe_svcLister|]. intros [[]|p] Hp; [safe_tac..|].
  eapply safe_bind; [by eapply safe_getSvc|]. intros l Hl.
  destruct (annotations _ !! _); [|safe_tac]. case_bool_decide; [safe_tac|].
  eapply safe_bind; [apply safe_epsLister|]. intros r Hr.
  apply (safe_bind (λ o, ∀ q, o = Some q →
    eps_ptrs !! q = Some (svc_Namespace s, mirrorName (svc_Name s)))).
  - destruct r as [[]|q]; safe_tac. by intros ? [= <-].
  - intros o Ho. safe_tac.
Qed.
#[local] Hint Resolve safe_createOrUpdateMirror : mirror_safe.

Lemma safe_createOrUpdateService s :
  safe ok (createOrUpdateService LabelSelectorAsSelector rcsw s).
Proof. unfold createOrUpdateService, createOrUpdateFederated. safe_tac. Qed.

Lemma safe_handleOnDelete s : safe ok (handleOnDelete LabelSelectorAsSelector rcsw s).
Proof. unfold handleOnDelete. safe_tac. Qed.

Lemma safe_handleLocalNamespaceAdded ns : safe ok (handleLocalNamespaceAdded ns).
Proof.
  unfold handleLocalNamespaceAdded. safe_tac. eapply (safe_forM (λ _, True)); [by apply Forall_true|].
  intros; safe_tac.
Qed.

Lemma safe_cleanupOrphanedServices : safe ok (cleanupOrphanedServices rcsw).
Proof.
  unfold cleanupOrphanedServices. eapply safe_bind; [safe_call_step|intros r Hr].
  eapply (safe_bind (Forall (λ s, svc_key s ≠ k0))); [unfold listed; safe_tac|intros l Hl].
  eapply safe_bind; [eapply safe_forErrors; [done|]|intros; safe_tac].
  intros s Hs. unfold cleanupOrphanedService. safe_tac.
Qed.

Lemma safe_cleanupMirroredResources : safe ok (cleanupMirroredResources rcsw).
Proof.
  unfold cleanupMirroredResources. eapply safe_bind; [safe_call_step|intros r Hr].
  eapply (safe_bind (Forall (λ s, svc_key s ≠ k0))); [unfold listed; safe_tac|intros l Hl].
  eapply safe_bind; [eapply safe_forErrors; [done|intros; safe_tac]|intros e1 _].
  eapply safe_bind; [safe_call_step|intros r' Hr'].
  eapply (safe_bind (Forall (λ s, eps_key s ≠ k0))); [unfold listed; safe_tac|intros l' Hl'].
  eapply safe_bind; [eapply safe_forErrors; [done|intros; safe_tac]|intros; safe_tac].
Qed.

Lemma safe_createOrUpdateGatewayEndpoints l : safe ok (createOrUpdateGatewayEndpoints rcsw l).
Proof.
  unfold createOrUpdateGatewayEndpoints.
  assert (∀ ns : string, (ns, "probe-gateway-" +:+ TargetClusterName (link rcsw)) ≠ k0) as Hne
    by (intros ns; apply (mirror_ne ns "probe-gateway")).
  safe_tac.
Qed.
#[local] Hint Resolve safe_createOrUpdateGatewayEndpoints : mirror_safe.

Lemma safe_repairService l s : svc_key s ≠ k0 → safe ok (repairService rcsw l s).
Proof.
  intros Hs. unfold repairService. case_bool_decide; [safe_tac|].
  apply (safe_bind (λ o, ∀ e, o = Some e → eps_key e = svc_key s)).
  - unfold mirrorEndpointsOf. eapply safe_bind; [apply safe_epsLister|]. intros [[]|p] Hp; try by safe_tac.
    + eapply safe_bind; [apply safe_epsGet|]. intros r Hr. apply safe_ret.
      destruct r; [done|]. by intros ? [= <-].
    + eapply safe_bind; [by eapply safe_getEps|]. intros e He. apply safe_ret. by intros ? [= <-].
  - intros [e|] He; [|safe_tac]. specialize (He e eq_refl).
    safe_tac; apply safe_updateMirrorEndpoints; change (eps_key e ≠ k0); by rewrite He.
Qed.

Lemma safe_repairEndpoints : safe ok (repairEndpoints LookupIP rcsw).
Proof.
  unfold repairEndpoints. apply (safe_bind ok); [safe_tac|intros l _].
  apply (safe_bind ok); [safe_tac|intros _ _].
  eapply safe_bind; [apply safe_svcList, clusterLabels_not_selecting|].
  intros [|svcs] Hs; [safe_tac|]. eapply safe_forM; [done|]. intros s. apply safe_repairService.
Qed.

Lemma safe_fillOrEmptyEndpoints e : safe ok (fillOrEmptyEndpoints LookupIP rcsw e).
Proof.
  unfold fillOrEmptyEndpoints. eapply safe_bind; [apply safe_epsLister|].
  intros [|p] Hp; [safe_tac|]. eapply safe_bind; [by eapply safe_getEps|]. intros ep Hep. cbv beta in Hep.
  assert (∀ l, eps_key (updateReadiness rcsw (set_eps_Subsets l ep)) = eps_key ep) as Hkey
    by (intros l; unfold updateReadiness; by case_match).
  assert (eps_key ep ≠ k0) as Hne by (rewrite Hep; apply mirror_ne).
  safe_tac; first [by apply safe_putEps; rewrite Hkey; [rewrite Hep|] | by apply safe_updateMirrorEndpoints].
Qed.

Lemma safe_createRemoteHeadlessService s e :
  safe ok (createRemoteHeadlessService LabelSelectorAsSelector assignIP rcsw s e).
Proof. unfold createRemoteHeadlessService. safe_tac. Qed.

Lemma safe_createEndpointMirrorService h v n s :
  safe ok (createEndpointMirrorService LookupIP LabelSelectorAsSelector assignIP rcsw h v (mirrorName n) s).
Proof.
  unfold createEndpointMirrorService. safe_tac. apply safe_createMirrorEndpoints, mirror_ne.
Qed.
#[local] Hint Resolve safe_createRemoteHeadlessService safe_createEndpointMirrorService : mirror_safe.

Lemma safe_mirrorSubset f s : (∀ a, safe ok (f a)) → safe ok (mirrorSubset f s).
Proof. intros Hf. unfold mirrorSubset. safe_tac. apply safe_forCollect. intros a. by case_bool_decide; safe_tac. Qed.

Lemma safe_createHeadlessMirrorEndpoints s e :
  safe ok (createHeadlessMirrorEndpoints LookupIP LabelSelectorAsSelector assignIP rcsw s e).
Proof.
  unfold createHeadlessMirrorEndpoints. safe_tac.
  apply safe_forCollect. intros sub. apply safe_mirrorSubset. intros a. safe_tac.
Qed.

Lemma safe_updateHeadlessMirrorEndpoints me s e :
  eps_key me ≠ k0 →
  safe ok (updateHeadlessMirrorEndpoints LookupIP LabelSelectorAsSelector assignIP rcsw me s e).
Proof.
  intros Hme. unfold updateHeadlessMirrorEndpoints. apply (safe_bind ok); [|intros subsets _].
  - apply safe_forCollect. intros sub. apply safe_mirrorSubset. intros a. safe_tac.
  - cbv zeta. eapply safe_bind; [apply safe_svcListerList, headless_not_selecting|].
    intros [|svcs] Hs; [safe_tac|]. eapply safe_bind; [eapply safe_forErrors; [done|]|].
    + intros x Hx. case_bool_decide; safe_tac.
    + intros b _. safe_tac. by apply safe_updateMirrorEndpoints.
Qed.

Lemma safe_createOrUpdateHeadlessEndpoints e :
  safe ok (createOrUpdateHeadlessEndpoints LookupIP LabelSelectorAsSelector assignIP rcsw e).
Proof.
  unfold createOrUpdateHeadlessEndpoints. safe_tac.
  - apply safe_createHeadlessMirrorEndpoints.
  - apply safe_updateHeadlessMirrorEndpoints. unfold eps_key. side.
Qed.

Lemma safe_processNextEvent ev : event_ok ev →
  safe ok (processNextEvent LookupIP LabelSelectorAsSelector assignIP rcsw ev).
Proof.
  intros Hev. destruct ev; simpl.
  - apply safe_handleRemoteServiceExported.
  - apply safe_handleCreateFederatedService.
  - by apply safe_handleRemoteExportedServiceUpdated.
  - by apply safe_handleFederatedServiceJoin.
  - apply safe_handleRemoteServiceUnexported.
  - apply safe_handleFederatedServiceLeave.
  - apply safe_cleanupMirroredResources.
  - apply safe_cleanupOrphanedServices.
  - apply safe_createOrUpdateService.
  - unfold handleCreateOrUpdateEndpoints.
    repeat case_match; [apply safe_createOrUpdateHeadlessEndpoints|safe_tac|apply safe_fillOrEmptyEndpoints].
  - apply safe_createOrUpdateService.
  - unfold handleCreateOrUpdateEndpoints.
    repeat case_match; [apply safe_createOrUpdateHeadlessEndpoints|safe_tac|apply safe_fillOrEmptyEndpoints].
  - apply safe_handleOnDelete.
  - apply safe_repairEndpoints.
  - apply safe_handleLocalNamespaceAdded.
Qed.
End frame.

(** ** The mirror over time *)
Section system.
Context `{!MapRange} (LookupIP : string → option (list string)).
Context (LabelSelectorAsSelector : LabelSelector → option (strmap → bool)).
Context (assignIP : key → string) (rcsw : RemoteClusterServiceWatcher) (k0 : key).

(** The events that wait or are delayed, with the number of times each was requeued. *)
Abbreviation items := (list (nat * event)).

(** An event that comes from an informer, a timer or [Stop]. *)
Definition external (ev : event) : Prop :=
  match ev with
  | RemoteExportedServiceUpdated _ _ _ | RemoteServiceJoinsFederatedService _ _ => False
  | _ => True
  end.

(** What the informer of the local cluster does to a cache entry: a new object. *)
Definition syncSvc (k : key) (p : ptr) (w : World) : World :=
  let w' := match lc_svcs w !! k with
            | Some s => set_svc_heap (<[p := s]> (svc_heap w)) w
            | None => w
            end in
  mkWorld (lc_svcs w') (lc_eps w') (lc_nss w')
    (match lc_svcs w !! k with Some _ => <[k := p]> (cache_svcs w) | None => delete k (cache_svcs w) end)
    (svc_heap w') (cache_eps w') (ep_heap w') (cache_nss w') (rem_svcs w') (rem_eps w')
    (link_status w') (queue w') (shutdown w') (faults w').
Definition syncEps (k : key) (p : ptr) (w : World) : World :=
  let w' := match lc_eps w !! k with
            | Some e => set_ep_heap (<[p := e]> (ep_heap w)) w
            | None => w
            end in
  mkWorld (lc_svcs w') (lc_eps w') (lc_nss w') (cache_svcs w') (svc_heap w')
    (match lc_eps w !! k with Some _ => <[k := p]> (cache_eps w) | None => delete k (cache_eps w) end)
    (ep_heap w') (cache_nss w') (rem_svcs w') (rem_eps w') (link_status w') (queue w') (shutdown w')
    (faults w').

(** Other writers of the local cluster store objects under their names, and do not turn
    the foreign service into a mirror. *)
Definition others_ok (svcs : gmap key Service) (eps : gmap key Endpoints) : Prop :=
  (∀ k s, svcs !! k = Some s → svc_key s = k) ∧ (∀ k e, eps !! k = Some e → eps_key e = k)
  ∧ (∀ s, svcs !! k0 = Some s → unmirrored_labels rcsw (svc_Labels s))
  ∧ (∀ e, eps !! k0 = Some e → unmirrored_labels rcsw (eps_Labels e)).

Inductive mirror_step : items * World → items * World → Prop :=
  | step_process l1 n ev l2 w r w' :
      processEvent LookupIP LabelSelectorAsSelector assignIP rcsw n ev w = (Ret r, w') →
      mirror_step (l1 ++ (n, ev) :: l2, w)
        (l1 ++ l2 ++ option_list r ++ (pair 0%nat <$> queue w'), set_queue [] w')
  | step_external l ev w : external ev → mirror_step (l, w) (l ++ [(0%nat, ev)], w)
  | step_syncSvc l w k p : svc_heap w !! p = None → mirror_step (l, w) (l, syncSvc k p w)
  | step_syncEps l w k p : ep_heap w !! p = None → mirror_step (l, w) (l, syncEps k p w)
  | step_others l w svcs eps nss : others_ok svcs eps →
      mirror_step (l, w) (l, set_lc_svcs svcs (set_lc_eps eps (set_lc_nss nss w)))
  | step_world l w rsvcs reps cnss fs b :
      mirror_step (l, w) (l, mkWorld (lc_svcs w) (lc_eps w) (lc_nss w) (cache_svcs w) (svc_heap w)
        (cache_eps w) (ep_heap w) cnss rsvcs reps (link_status w) (queue w) b fs).

(** The start: nothing is cached or waits. *)
Definition mirror_init (st : items * World) : Prop :=
  st.1 = [] ∧ queue st.2 = [] ∧ cache_svcs st.2 = ∅ ∧ svc_heap st.2 = ∅
  ∧ cache_eps st.2 = ∅ ∧ ep_heap st.2 = ∅ ∧ others_ok (lc_svcs st.2) (lc_eps st.2).

Definition system_inv (st : items * World) : Prop :=
  ∃ svc_ptrs eps_ptrs, frame_inv rcsw k0 svc_ptrs eps_ptrs st.2
    ∧ (∀ e, lc_eps st.2 !! k0 = Some e → unmirrored_labels rcsw (eps_Labels e))
    ∧ Forall (λ i, event_ok rcsw svc_ptrs eps_ptrs i.2) st.1 ∧ queue st.2 = [].

Lemma event_ok_mono sp sp' ep ep' ev :
  sp ⊆ sp' → ep ⊆ ep' → event_ok rcsw sp ep ev → event_ok rcsw sp' ep' ev.
Proof.
  intros Hs He. destruct ev; simpl; try done.
  - intros [Hp Hq]. split; [by eapply lookup_weaken|]. intros q' ->.
    eapply lookup_weaken; [by apply Hq|done].
  - intros Hp. by eapply lookup_weaken.
Qed.

Lemma system_inv_init st : mirror_init st → system_inv st.
Proof.
  intros (Hl & Hq & Hc & Hh & Hce & Hhe & Hs & He & Hls & Hle).
  exists ∅, ∅. split_and!; [|done|by rewrite Hl|done].
  constructor; rewrite ?Hc, ?Hh, ?Hce, ?Hhe, ?Hq; try done; intros *; by rewrite lookup_empty.
Qed.

(** The informer replaces a cached object: the new pointer is typed by its key. *)
Lemma frame_inv_syncSvc sp ep k p w :
  frame_inv rcsw k0 sp ep w → svc_heap w !! p = None → queue w = [] →
  ∃ sp', sp ⊆ sp' ∧ frame_inv rcsw k0 sp' ep (syncSvc k p w).
Proof.
  intros [] Hp Hq.
  assert (sp !! p = None) as Hsp.
  { destruct (sp !! p) as [k'|] eqn:Hk'; [|done]. apply fi_svc_heap0 in Hk' as (? & ? & _). congruence. }
  destruct (lc_svcs w !! k) as [s|] eqn:Hs.
  - exists (<[p := k]> sp). split; [by apply insert_subseteq|].
    constructor; unfold syncSvc; simpl; rewrite ?Hs; simpl; try done.
    + intros k' p'. destruct (decide (k' = k)) as [->|]; [rewrite lookup_insert_eq; intros [= <-]; apply lookup_insert_eq|].
      rewrite lookup_insert_ne by done. intros Hc%fi_cache_svcs0. rewrite lookup_insert_ne; [done|congruence].
    + intros p' k'. destruct (decide (p' = p)) as [->|].
      * rewrite !lookup_insert_eq. intros [= <-]. eauto.
      * rewrite !lookup_insert_ne by done. apply fi_svc_heap0.
    + intros p' s'. destruct (decide (p' = p)) as [->|].
      * rewrite !lookup_insert_eq. intros [= ->] [= <-]. eauto.
      * rewrite !lookup_insert_ne by done. apply fi_cached_svc0.
    + rewrite Hq. constructor.
  - exists sp. split; [done|]. constructor; unfold syncSvc; simpl; rewrite ?Hs; simpl; try done.
    intros k' p' [_ Hc]%lookup_delete_Some. eauto.
Qed.

Lemma frame_inv_syncEps sp ep k p w :
  frame_inv rcsw k0 sp ep w → ep_heap w !! p = None → queue w = [] →
  (∀ e, lc_eps w !! k0 = Some e → unmirrored_labels rcsw (eps_Labels e)) →
  ∃ ep', ep ⊆ ep' ∧ frame_inv rcsw k0 sp ep' (syncEps k p w).
Proof.
  intros [] Hp Hq Hl.
  assert (ep !! p = None) as Hep.
  { destruct (ep !! p) as [k'|] eqn:Hk'; [|done]. apply fi_ep_heap0 in Hk' as (? & ? & _). congruence. }
  destruct (lc_eps w !! k) as [s|] eqn:Hs.
  - exists (<[p := k]> ep). split; [by apply insert_subseteq|].
    constructor; unfold syncEps; simpl; rewrite ?Hs; simpl; try done.
    + intros k' p'. destruct (decide (k' = k)) as [->|]; [rewrite lookup_insert_eq; intros [= <-]; apply lookup_insert_eq|].
      rewrite lookup_insert_ne by done. intros Hc%fi_cache_eps0. rewrite lookup_insert_ne; [done|congruence].
    + intros p' k'. destruct (decide (p' = p)) as [->|].
      * rewrite !lookup_insert_eq. intros [= <-]. eauto.
      * rewrite !lookup_insert_ne by done. apply fi_ep_heap0.
    + intros p' s'. destruct (decide (p' = p)) as [->|].
      * rewrite !lookup_insert_eq. intros [= ->] [= <-]. eauto.
      * rewrite !lookup_insert_ne by done. apply fi_cached_eps0.
    + rewrite Hq. constructor.
  - exists ep. split; [done|]. constructor; unfold syncEps; simpl; rewrite ?Hs; simpl; try done.
    intros k' p' [_ Hc]%lookup_delete_Some. eauto.
Qed.

(** Handling one event. *)
Lemma process_safe sp ep n ev w r w' :
  unmirrored_name rcsw k0.2 → frame_inv rcsw k0 sp ep w → event_ok rcsw sp ep ev →
  processEvent LookupIP LabelSelectorAsSelector assignIP rcsw n ev w = (r, w') →
  frame_inv rcsw k0 sp ep w' ∧ same k0 w w' ∧ ∀ i, r = Ret (Some i) → i.2 = ev.
Proof.
  intros Hk0 Hw Hev. unfold processEvent.
  pose proof (safe_processNextEvent LookupIP LabelSelectorAsSelector assignIP rcsw k0 Hk0 sp ep ev Hev w Hw) as Hsafe.
  destruct (processNextEvent _ _ _ _ _ _) as [r1 w1]. destruct Hsafe as (Hw1 & Hs & _).
  intros Hr. destruct r1 as [[]|[]|]; injection Hr as <- <-; split_and!; try done; intros i.
  case_match; naive_solver.
Qed.

Lemma system_inv_step st st' :
  unmirrored_name rcsw k0.2 → system_inv st → mirror_step st st' → system_inv st'.
Proof.
  intros Hk0 (sp & ep & Hw & Hle & Hl & Hq) Hstep. destruct Hstep; simpl in *.
  - apply Forall_app in Hl as [Hl1 [Hev Hl2]%Forall_cons].
    edestruct (process_safe sp ep) as (Hw' & [Hs1 Hs2] & Hr); [done|done|done|done|].
    exists sp, ep. split_and!; simpl.
    + by destruct Hw'; constructor.
    + intros e. rewrite Hs2. apply Hle.
    + repeat apply Forall_app_2; [done|done| |].
      * destruct r as [i|]; [|constructor]. apply Forall_singleton. by rewrite (Hr i eq_refl).
      * apply Forall_fmap. destruct Hw'. done.
    + done.
  - exists sp, ep. split_and!; simpl; try done. apply Forall_app_2; [done|].
    apply Forall_singleton. by destruct ev.
  - edestruct (frame_inv_syncSvc sp ep k p w) as (sp' & Hsub & Hw'); [done..|].
    exists sp', ep. unfold syncSvc in *. split_and!; simpl in *; try (destruct (lc_svcs w !! k); done).
    eapply Forall_impl; [done|]. intros i. by apply event_ok_mono.
  - edestruct (frame_inv_syncEps sp ep k p w) as (ep' & Hsub & Hw'); [done..|].
    exists sp, ep'. unfold syncEps in *. split_and!; simpl in *; try (destruct (lc_eps w !! k); done).
    eapply Forall_impl; [done|]. intros i. by apply event_ok_mono.
  - destruct H0 as (Hs & He & Hls & Hlee). exists sp, ep. split_and!; simpl; try done.
    by destruct Hw; constructor.
  - exists sp, ep. split_and!; simpl; try done. by destruct Hw; constructor.
Qed.

(** C17: the service mirror keeps its hands off other objects.  A service or endpoints object
    of the local cluster whose name is neither that of a mirror of the watched cluster nor
    that of a federated service, and whose labels do not mark it as mirrored from that
    cluster, is not created, changed or deleted by any event the mirror handles, in any
    reachable state, in any order of events and retries, with stale caches, and whichever
    calls of the API server fail, before or after they took effect. *)
Theorem mirror_leaves_foreign st0 l1 n ev l2 w r w' :
  unmirrored_name rcsw k0.2 → mirror_init st0 →
  rtc mirror_step st0 (l1 ++ (n, ev) :: l2, w) →
  processEvent LookupIP LabelSelectorAsSelector assignIP rcsw n ev w = (r, w') →
  lc_svcs w' !! k0 = lc_svcs w !! k0 ∧ lc_eps w' !! k0 = lc_eps w !! k0.
Proof.
  intros Hk0 Hinit Hsteps Hp.
  assert (system_inv (l1 ++ (n, ev) :: l2, w)) as (sp & ep & Hw & _ & Hl & _).
  { assert (∀ a b, rtc mirror_step a b → system_inv a → system_inv b) as Hrtc.
    { induction 1; eauto using system_inv_step. }
    eapply Hrtc; [done|]. by apply system_inv_init. }
  simpl in *. apply Forall_app in Hl as [_ [Hev _]%Forall_cons].
  by edestruct (process_safe sp ep) as (_ & Hs & _).
Qed.
End system.

(** ** An example *)
Definition ex_link : LinkSpec :=
  mkLinkSpec "east" "cluster.local" "gateway" "4143" "id" (mkProbeSpec "/" "4191" "3s" "3s" "3")
    (Some (mkLabelSelector {["export" := "true"]} [])) None
    (Some (mkLabelSelector {["federate" := "true"]} [])).
Definition ex_watcher : RemoteClusterServiceWatcher := mkWatcher "mc" ex_link 3 true false false.
Definition ex_LookupIP (host : string) : option (list string) := Some ["10.0.0.2"; "10.0.0.1"].
Definition ex_selector (s : LabelSelector) : option (strmap → bool) :=
  Some (λ ls, bool_decide (ls_MatchLabels s ⊆ ls)).
Definition ex_assignIP (k : key) : string := "172.16.0.1".
Definition ex_remote (name label version : string) : Service :=
  mkService name "ns" {[label := "true"]} None version "10.1.0.1" [mkServicePort "http" "TCP" 80 (FromInt 8080) 0].
Definition ex_world (svcs : gmap key Service) : World :=
  mkWorld svcs ∅ {["ns" := ∅]} ∅ ∅ ∅ ∅ {["ns"]} ∅ ∅ (mkLinkStatus [] []) [] false [].

Lemma not_suffix name suffix : strings.cut_suffix name suffix = None → ∀ n, name ≠ n +:+ suffix.
Proof. intros Hc n ->. by rewrite strings.cut_suffix_app in Hc. Qed.

Lemma mirror_leaves_foreign_witness :
  let web := mkService "web" "ns" ∅ None "1" "10.2.0.1" [] in
  let w := ex_world {[("ns", "web") := web]} in
  let ev := RemoteServiceExported (ex_remote "web" "export" "7") in
  let w' := (processEvent (H := range_in_order) ex_LookupIP ex_selector ex_assignIP ex_watcher 0 ev w).2 in
  lc_svcs w' !! ("ns", "web") = Some web ∧ is_Some (lc_svcs w' !! ("ns", "web-east")).
Proof.
  intros web w ev w'.
  assert (mirror_init ex_watcher ("ns", "web") ([], w)) as Hinit.
  { split_and!; try done. split_and!.
    - intros k s Hs. change (({[("ns", "web") := web]} : gmap key Service) !! k = Some s) in Hs.
      apply lookup_singleton_Some in Hs as [<- <-]. reflexivity.
    - intros k e He. change ((∅ : gmap key Endpoints) !! k = Some e) in He. by rewrite lookup_empty in He.
    - intros s Hs. change (Some web = Some s) in Hs. revert Hs. intros [= <-]. split.
      + intros Hsub. assert (clusterLabels ex_watcher !! MirroredResourceLabel = Some "true") as Hl by reflexivity.
        by apply (lookup_weaken _ (svc_Labels web) _ _ Hl) in Hsub.
      + intros n. done.
    - by intros e He. }
  split; [|vm_compute; by eexists].
  destruct (mirror_leaves_foreign (H := range_in_order) ex_LookupIP ex_selector ex_assignIP ex_watcher ("ns", "web")
    ([], w) [] 0 ev [] w (processEvent (H := range_in_order) ex_LookupIP ex_selector ex_assignIP ex_watcher 0 ev w).1 w')
    as [Hs _]; [|done| |by vm_compute|exact Hs].
  - intros n. split; apply not_suffix; vm_compute; reflexivity.
  - eapply rtc_once. by apply (step_external _ _ _ _ _ [] ev w).
Defined.
