(* ===== verification/MirrorConvergence.v ===== *)
(** The service mirror as a whole: once the calls of the API server succeed and the informers
    keep up, handling the services of the remote cluster terminates, and then every
    exported service has an up to date mirror and no other service has one. *)
From S2P Require Import Prelude GoStd K8s Mirror ServiceMirror MirrorSafety.

#[local] Open Scope string_scope.
#[local] Open Scope list_scope.
#[local] Open Scope Z_scope.

(** * Running a handler without faults *)
Definition runs {A} (m : M A) (w : World) (a : A) (w' : World) : Prop := m w = (Ret a, w').

Lemma runs_ret {A} (a : A) w : runs (mret a) w a w.
Proof. done. Qed.

Lemma runs_bind {A B} (m : M A) (k : A → M B) w a w1 b w2 :
  runs m w a w1 → runs (k a) w1 b w2 → runs (m ≫= k) w b w2.
Proof. unfold runs, mbind, M_bind. by intros ->. Qed.

Lemma runs_attempt {A} (m : M A) w a w' : runs m w a w' → runs (attempt m) w (inr a) w'.
Proof. unfold runs, attempt. by intros ->. Qed.

Lemma runs_call {A} (f : World → (apiError + A) * World) w :
  faults w = [] → runs (call f) w (f w).1 (f w).2.
Proof.
  intros Hf. unfold runs, call. rewrite Hf. simpl.
  assert (set_faults [] w = w) as -> by (destruct w; simpl in *; by subst).
  by destruct (f w).
Qed.

Lemma runs_found {A : Type} (f : World → option A) w :
  faults w = [] →
  runs (call (λ w, found (f w) w)) w (match f w with Some a => inr a | None => inl NotFound end) w.
Proof. intros Hf. apply (runs_call (λ w, found (f w) w) w Hf). Qed.

Lemma runs_getSvc w p s : svc_heap w !! p = Some s → runs (getSvc p) w s w.
Proof. unfold runs, getSvc. by intros ->. Qed.
Lemma runs_getEps w p e : ep_heap w !! p = Some e → runs (getEps p) w e w.
Proof. unfold runs, getEps. by intros ->. Qed.
Lemma runs_modify f w : runs (modify f) w () (f w).
Proof. done. Qed.

(** The status of the Link is all that reporting it changes. *)
Lemma runs_onLinkStatus rcsw f w : faults w = [] → ∃ l, runs (onLinkStatus rcsw f) w () (set_link_status l w).
Proof.
  intros Hf. unfold onLinkStatus. case_bool_decide.
  - exists (link_status w). unfold runs. by destruct w.
  - eexists. eapply runs_bind; [eapply runs_bind; [by apply runs_call|apply runs_ret]|].
    unfold patchLinkStatus. eapply runs_bind; [by apply (runs_call _ w Hf)|apply runs_ret].
Qed.

Section convergence.
Context `{!MapRange} (LookupIP : string → option (list string)).
Context (LabelSelectorAsSelector : LabelSelector → option (strmap → bool)).
Context (assignIP : key → string) (rcsw : RemoteClusterServiceWatcher).

Abbreviation mirrorName := (mirrorServiceName rcsw).
Abbreviation exported s := (isExported LabelSelectorAsSelector rcsw (svc_Labels s)
                            || isRemoteDiscovery LabelSelectorAsSelector rcsw (svc_Labels s)).
Abbreviation discovered s := (isRemoteDiscovery LabelSelectorAsSelector rcsw (svc_Labels s)).
Definition mirror_key (s : Service) : key := (svc_Namespace s, mirrorName (svc_Name s)).
Definition federated_key (s : Service) : key := (svc_Namespace s, federatedServiceName (svc_Name s)).

(** ** The specification *)
(** [m] is an up to date mirror of [s]. *)
Definition mirrors (s m : Service) : Prop :=
  svc_key m = mirror_key s
  ∧ svc_Labels m = getMirrorServiceLabels LabelSelectorAsSelector rcsw s
  ∧ svc_Annotations m = Some (getMirrorServiceAnnotations rcsw s)
  ∧ svc_Ports m = remapRemoteServicePorts (svc_Ports s).

(** The endpoints [e] lead to the gateway, or nowhere when the service may be empty. *)
Definition leads_to_gateway (s : Service) (e : Endpoints) : Prop :=
  eps_key e = mirror_key s ∧
  (eps_Subsets e = [] ∨
   ∃ gateway ports, resolveGatewayAddress LookupIP rcsw = Some gateway
     ∧ getEndpointsPorts rcsw s = Some ports
     ∧ eps_Subsets e = if gatewayAlive rcsw then [mkEndpointSubset gateway [] ports]
                       else [mkEndpointSubset [] gateway ports]).

(** A local service that the mirror of this cluster put there. *)
Definition ours (m : Service) : Prop :=
  is_Some (svc_Labels m !! MirroredResourceLabel)
  ∧ get (svc_Labels m) RemoteClusterNameLabel = TargetClusterName (link rcsw).

Definition endpoints_wanted (s : Service) (o : option Endpoints) : Prop :=
  if discovered s then o = None else ∃ e, o = Some e ∧ leads_to_gateway s e.

Definition wanted (s : Service) (w : World) : Prop :=
  if exported s
  then (∃ m, lc_svcs w !! mirror_key s = Some m ∧ mirrors s m)
       ∧ endpoints_wanted s (lc_eps w !! mirror_key s)
  else ∀ m, lc_svcs w !! mirror_key s = Some m → ¬ ours m.

(** ** Steps *)
(** The caches agree with the API server. *)
Definition synced (w : World) : Prop :=
  (∀ k, (cache_svcs w !! k ≫= λ p, svc_heap w !! p) = lc_svcs w !! k)
  ∧ (∀ k, is_Some (cache_svcs w !! k) → is_Some (lc_svcs w !! k))
  ∧ (∀ k, (cache_eps w !! k ≫= λ p, ep_heap w !! p) = lc_eps w !! k)
  ∧ (∀ k, is_Some (cache_eps w !! k) → is_Some (lc_eps w !! k))
  ∧ (∀ ns, ns ∈ cache_nss w ↔ is_Some (lc_nss w !! ns)).

(** The informers deliver what changed; objects that events point to stay. *)
Definition catch_up (w w' : World) : Prop :=
  synced w' ∧ svc_heap w ⊆ svc_heap w' ∧ ep_heap w ⊆ ep_heap w'
  ∧ lc_svcs w' = lc_svcs w ∧ lc_eps w' = lc_eps w ∧ lc_nss w' = lc_nss w
  ∧ rem_svcs w' = rem_svcs w ∧ rem_eps w' = rem_eps w ∧ link_status w' = link_status w
  ∧ queue w' = queue w ∧ shutdown w' = shutdown w ∧ faults w' = faults w.

(** Any waiting event is handled, then the informers catch up. *)
Inductive converge_step : list (nat * event) * World → list (nat * event) * World → Prop :=
  converge_process l1 n ev l2 w r w1 w2 :
    processEvent LookupIP LabelSelectorAsSelector assignIP rcsw n ev w = (Ret r, w1) →
    catch_up (set_queue [] w1) w2 →
    converge_step (l1 ++ (n, ev) :: l2, w)
      (l1 ++ l2 ++ option_list r ++ (pair 0%nat <$> queue w1), w2).

(** ** Catching up is possible *)
Definition above (heap : gset ptr) : ptr := set_fold Pos.max 1%positive heap.

Lemma above_spec (X : gset ptr) p : p ∈ X → (p <= above X)%positive.
Proof.
  unfold above. revert p. apply (set_fold_ind_L (λ r X, ∀ p, p ∈ X → (p <= r)%positive)); [set_solver|].
  intros x X' r Hx IH p [->%elem_of_singleton|Hp]%elem_of_union; [lia|]. specialize (IH p Hp). lia.
Qed.

(** Pointers that no object has yet, one per key. *)
Definition newPtr (X : gset ptr) (k : key) : ptr := (above X + encode k)%positive.
#[local] Instance newPtr_inj X : Inj (=) (=) (newPtr X).
Proof. intros k1 k2. unfold newPtr. intros Heq. apply (inj encode). lia. Qed.

Lemma newPtr_fresh X k : newPtr X k ∉ X.
Proof. intros Hin%above_spec. unfold newPtr in *. lia. Qed.

Definition refill {A} (api : gmap key A) (heap : gmap ptr A) : gmap key ptr * gmap ptr A :=
  (map_imap (λ k _, Some (newPtr (dom heap) k)) api, heap ∪ kmap (newPtr (dom heap)) api).

Lemma refill_spec {A} (api : gmap key A) (heap : gmap ptr A) cache heap' :
  refill api heap = (cache, heap') →
  heap ⊆ heap' ∧ (∀ k, (cache !! k ≫= λ p, heap' !! p) = api !! k)
  ∧ (∀ k, is_Some (cache !! k) → is_Some (api !! k)).
Proof.
  unfold refill. intros [= <- <-]. split_and!.
  - apply map_union_subseteq_l.
  - intros k. rewrite map_lookup_imap. destruct (api !! k) as [a|] eqn:Hk; simpl; [|done].
    rewrite lookup_union_r.
    + rewrite lookup_kmap; [done|apply newPtr_inj].
    + apply not_elem_of_dom, newPtr_fresh.
  - intros k. rewrite map_lookup_imap. destruct (api !! k); [by eauto|by intros [? ?]].
Qed.

Lemma catch_up_exists w : ∃ w', catch_up w w'.
Proof.
  destruct (refill (lc_svcs w) (svc_heap w)) as [cs hs] eqn:Hs.
  destruct (refill (lc_eps w) (ep_heap w)) as [ce he] eqn:He.
  apply refill_spec in Hs as (Hs1 & Hs2 & Hs3). apply refill_spec in He as (He1 & He2 & He3).
  exists (mkWorld (lc_svcs w) (lc_eps w) (lc_nss w) cs hs ce he (dom (lc_nss w)) (rem_svcs w)
    (rem_eps w) (link_status w) (queue w) (shutdown w) (faults w)).
  split_and!; try done. split_and!; try done. intros ns. apply elem_of_dom.
Qed.

(** ** What an event changes *)
(** Only the objects of the key [k] change, and nothing is configured differently. *)
Record only_at (k : key) (w w' : World) : Prop := {
  oa_svcs k' : k' ≠ k → lc_svcs w' !! k' = lc_svcs w !! k';
  oa_eps k' : k' ≠ k → lc_eps w' !! k' = lc_eps w !! k';
  oa_nss : lc_nss w' = lc_nss w;
  oa_svc_heap p m : svc_heap w !! p = Some m → svc_key m ≠ k → svc_heap w' !! p = Some m;
  oa_ep_heap : ep_heap w' = ep_heap w;
  oa_faults : faults w' = faults w;
  oa_shutdown : shutdown w' = shutdown w }.

Lemma only_at_refl k w : only_at k w w.
Proof. by constructor. Qed.

Lemma only_at_link k l w w' : only_at k w w' → only_at k w (set_link_status l w').
Proof. intros []. by constructor. Qed.

(** The world after a handler wrote the mirror [m] and the endpoints [o] under [k]. *)
Definition written (k : key) (m : option Service) (o : option Endpoints) (w w' : World) : Prop :=
  only_at k w w' ∧ lc_svcs w' !! k = m ∧ lc_eps w' !! k = o ∧ queue w' = queue w.

(** Where the gateway can be reached. *)
Context (gateway : list EndpointAddress) (port : Z).
Context (Hgateway : resolveGatewayAddress LookupIP rcsw = Some gateway).
Context (Hport : strconv.ParseInt (GatewayPort (link rcsw)) 32 = Some port).
Context (Hheadless : headlessServicesEnabled rcsw = false).

Lemma ports_of s : ∃ ports, getEndpointsPorts rcsw s = Some ports.
Proof. unfold getEndpointsPorts. rewrite Hport. simpl. eauto. Qed.

Lemma gateway_not_empty : (0 < length gateway)%nat.
Proof.
  unfold resolveGatewayAddress in Hgateway. case_match; [done|]. injection Hgateway as <-.
  rewrite merge_sort_Permutation. simpl. lia.
Qed.

Lemma updateReadiness_key e : eps_key (updateReadiness rcsw e) = eps_key e.
Proof. unfold updateReadiness. by case_match. Qed.

Lemma runs_createMirrorEndpoints e w :
  faults w = [] → lc_eps w !! eps_key e = None → is_Some (lc_nss w !! eps_Namespace e) →
  runs (createMirrorEndpoints rcsw e) w (inr ())
    (set_lc_eps (<[eps_key e := updateReadiness rcsw e]> (lc_eps w)) w).
Proof.
  intros Hf He [ls Hns]. unfold createMirrorEndpoints, epsCreate.
  pose proof (updateReadiness_key e) as Hk. unfold eps_key in *. injection Hk as Hk1 Hk2.
  eapply runs_call in Hf. unfold runs in *. rewrite Hf, Hns, Hk2.
  rewrite bool_decide_false by done. rewrite He, bool_decide_false by (by intros [? ?]). done.
Qed.

Lemma runs_updateMirrorEndpoints e w :
  faults w = [] → is_Some (lc_eps w !! eps_key e) →
  runs (updateMirrorEndpoints rcsw e) w (inr ())
    (set_lc_eps (<[eps_key e := updateReadiness rcsw e]> (lc_eps w)) w).
Proof.
  intros Hf He. unfold updateMirrorEndpoints, epsUpdate.
  pose proof (updateReadiness_key e) as Hk. unfold eps_key in *. injection Hk as Hk1 Hk2.
  eapply runs_call in Hf. unfold runs in *. rewrite Hf, Hk2. by rewrite bool_decide_true.
Qed.

Lemma readiness_subset e ports :
  eps_Subsets e = [mkEndpointSubset gateway [] ports] →
  eps_Subsets (updateReadiness rcsw e)
  = if gatewayAlive rcsw then [mkEndpointSubset gateway [] ports] else [mkEndpointSubset [] gateway ports].
Proof. unfold updateReadiness. case_match; [done|]. simpl. by intros ->. Qed.

Lemma readiness_empty e : eps_Subsets e = [] → eps_Subsets (updateReadiness rcsw e) = [].
Proof. unfold updateReadiness. case_match; [done|]. simpl. by intros ->. Qed.

Lemma runs_isEmptyService s w : faults w = [] → ∃ b, runs (isEmptyService s) w (inr b) w.
Proof.
  intros Hf. unfold isEmptyService. destruct (rem_eps w !! (svc_Namespace s, svc_Name s)) as [re|] eqn:Hre;
    eexists; (eapply runs_bind; [by apply runs_found|]); rewrite Hre; apply runs_ret.
Qed.

Lemma runs_createGatewayEndpoints s w :
  faults w = [] → lc_eps w !! mirror_key s = None → is_Some (lc_nss w !! svc_Namespace s) →
  ∃ e, leads_to_gateway s e ∧
    runs (createGatewayEndpoints LookupIP rcsw s) w () (set_lc_eps (<[mirror_key s := e]> (lc_eps w)) w).
Proof.
  intros Hf He Hns. destruct (ports_of s) as [ports Hports]. destruct (runs_isEmptyService s w Hf) as [b Hb].
  set (e := mkEndpoints (mirrorName (svc_Name s)) (svc_Namespace s) (getMirrorEndpointLabels rcsw s)
    (Some (withGatewayIdentity rcsw {[RemoteServiceFqName := fqName rcsw (svc_Name s) (svc_Namespace s)]})) ""
    (if b then [] else [mkEndpointSubset gateway [] ports])).
  exists (updateReadiness rcsw e). split.
  - split; [apply updateReadiness_key|]. destruct b; [left; by apply readiness_empty|].
    right. exists gateway, ports. split_and!; [done|done|]. by apply readiness_subset.
  - unfold createGatewayEndpoints. eapply runs_bind; [exact Hb|]. eapply runs_bind; [apply runs_ret|].
    rewrite Hgateway, Hports. eapply runs_bind; [apply runs_ret|]. eapply runs_bind; [apply runs_ret|].
    rewrite bool_decide_true by apply gateway_not_empty.
    eapply runs_bind; [by apply (runs_createMirrorEndpoints e)|apply runs_ret].
Qed.

Lemma runs_prepareNamespace status ns w :
  faults w = [] → ns ∈ cache_nss w → is_Some (lc_nss w !! ns) → runs (prepareNamespace rcsw status ns) w true w.
Proof.
  intros Hf Hc [ls Hns]. unfold prepareNamespace. destruct (namespaceCreationEnabled rcsw).
  - eapply (runs_bind _ _ w (inr ()) w); [|apply runs_ret]. apply runs_attempt. unfold mirrorNamespaceIfNecessary.
    eapply runs_bind; [by apply runs_found|]. rewrite bool_decide_true by done. apply runs_ret.
  - eapply runs_bind; [by apply runs_found|]. rewrite Hns. apply runs_ret.
Qed.

(** ** The handlers *)
Lemma mirrors_new s ip : mirrors s (stored assignIP (newMirrorService LabelSelectorAsSelector rcsw s ip)).
Proof. unfold mirrors, stored. by case_bool_decide. Qed.

(** Reporting the status at the end of a handler. *)
Lemma written_status k m o w w' f :
  written k m o w w' → faults w' = [] →
  ∃ w'', runs (onLinkStatus rcsw f) w' () w'' ∧ written k m o w w''.
Proof.
  intros (Hoa & Hm & Ho & Hq) Hf. destruct (runs_onLinkStatus rcsw f w' Hf) as [l Hl].
  exists (set_link_status l w'). split; [done|]. split_and!; [by apply only_at_link|done..].
Qed.

(** Endpoints written after the service. *)
Lemma written_eps k m o e w w1 :
  written k m o w w1 → written k m (Some e) w (set_lc_eps (<[k := e]> (lc_eps w1)) w1).
Proof.
  intros ([] & Hm & Ho & Hq). split_and!; [constructor; simpl; try done|done|simpl; apply lookup_insert_eq|done].
  intros k' Hk'. rewrite lookup_insert_ne by done. eauto.
Qed.

Lemma runs_exported s w :
  faults w = [] → lc_svcs w !! mirror_key s = None → lc_eps w !! mirror_key s = None →
  svc_Namespace s ∈ cache_nss w → is_Some (lc_nss w !! svc_Namespace s) →
  ∃ m o w', runs (handleRemoteServiceExported LookupIP LabelSelectorAsSelector assignIP rcsw s) w () w'
    ∧ written (mirror_key s) (Some m) o w w' ∧ mirrors s m ∧ endpoints_wanted s o.
Proof.
  intros Hf Hm He Hc Hns. set (m := stored assignIP (newMirrorService LabelSelectorAsSelector rcsw s "")).
  set (w1 := set_lc_svcs (<[mirror_key s := m]> (lc_svcs w)) w).
  assert (runs (svcCreate assignIP (svc_Namespace s) (newMirrorService LabelSelectorAsSelector rcsw s "")) w (inr m) w1)
    as Hcreate.
  { unfold svcCreate. pose proof Hns as [ls Hls]. eapply runs_call in Hf. unfold runs in *. rewrite Hf, Hls.
    rewrite bool_decide_false by done. unfold mirror_key in Hm. simpl svc_Name.
    rewrite Hm, bool_decide_false by (by intros [? ?]). done. }
  assert (written (mirror_key s) (Some m) None w w1) as Hw1.
  { split_and!; [constructor; simpl; try done; intros k' Hk'; by rewrite lookup_insert_ne|
      simpl; apply lookup_insert_eq|done|done]. }
  set (status := λ st, mkLinkStatus (updateServiceStatus (svc_Name s) (svc_Namespace s)
     (mirrorStatusCondition true reasonMirrored "" (Some (newMirrorService LabelSelectorAsSelector rcsw s "")))
     (MirrorServices st)) (FederatedServices st)).
  unfold handleRemoteServiceExported. rewrite Hheadless. simpl andb. cbv iota.
  unfold endpoints_wanted. destruct (discovered s) eqn:Hd.
  - destruct (written_status _ _ _ _ _ status Hw1 Hf) as (w2 & Hr2 & Hw2).
    exists m, None, w2. split_and!; [|done|apply mirrors_new|done].
    eapply runs_bind; [by apply runs_prepareNamespace|]. cbv zeta.
    eapply runs_bind; [exact Hcreate|]. eapply runs_bind; [apply runs_ret|]. exact Hr2.
  - destruct (runs_createGatewayEndpoints s w1) as (e & He1 & Hre); [done|done|done|].
    apply (written_eps _ _ _ e) in Hw1.
    destruct (written_status _ _ _ _ _ status Hw1 Hf) as (w2 & Hr2 & Hw2).
    exists m, (Some e), w2. split_and!; [|done|apply mirrors_new|by eauto].
    eapply runs_bind; [by apply runs_prepareNamespace|]. cbv zeta.
    eapply runs_bind; [exact Hcreate|]. eapply runs_bind; [apply runs_ret|].
    eapply runs_bind; [apply runs_attempt; exact Hre|]. exact Hr2.
Qed.

(** The service written after the endpoints, and the cached object assigned in place. *)
Lemma written_svc k m o w w1 s p :
  written k m o w w1 → svc_key s = k → (∀ s', svc_heap w !! p = Some s' → svc_key s' = k) →
  written k (Some s) o w
    (set_lc_svcs (<[k := s]> (lc_svcs w1)) (set_svc_heap (<[p := s]> (svc_heap w1)) w1)).
Proof.
  intros ([] & Hm & Ho & Hq) Hs Hp. split_and!; [constructor; simpl; try done|simpl; apply lookup_insert_eq|done|done].
  - intros k' Hk'. rewrite lookup_insert_ne by done. eauto.
  - intros p' m' Hm' Hne. destruct (decide (p' = p)) as [->|]; [by apply Hp in Hm'|].
    rewrite lookup_insert_ne by done. eauto.
Qed.

(** The endpoints of the mirror, in the update of the mirror. *)
Lemma runs_updated_endpoints s m q w :
  faults w = [] → is_Some (lc_nss w !! svc_Namespace s) → svc_key m = mirror_key s →
  match q with
  | None => lc_eps w !! mirror_key s = None
  | Some q => ∃ e, lc_eps w !! mirror_key s = Some e ∧ ep_heap w !! q = Some e ∧ eps_key e = mirror_key s
  end →
  ∃ o w1, written (mirror_key s) (lc_svcs w !! mirror_key s) o w w1 ∧ svc_heap w1 = svc_heap w
    ∧ lc_svcs w1 = lc_svcs w ∧ endpoints_wanted s o ∧
    runs (updateMirroredEndpoints LookupIP LabelSelectorAsSelector rcsw m q s) w () w1.
Proof.
  intros Hf Hns Hm Hq.
  assert (written (mirror_key s) (lc_svcs w !! mirror_key s) (lc_eps w !! mirror_key s) w w) as Hw
    by (split_and!; [apply only_at_refl|done..]).
  unfold endpoints_wanted, updateMirroredEndpoints. destruct (discovered s); destruct q as [q|].
  - destruct Hq as (e & He & Hh & Hk).
    exists None, (set_lc_eps (delete (mirror_key s) (lc_eps w)) w). split.
    { split_and!; [constructor; simpl; try done; intros k' Hk'; by rewrite lookup_delete_ne|done|
        simpl; apply lookup_delete_eq|done]. }
    split_and!; try done.
    eapply runs_bind; [by apply runs_call|]. change (svc_Namespace m, svc_Name m) with (svc_key m).
    rewrite Hm, bool_decide_true by eauto. apply runs_ret.
  - exists None, w. split_and!; try done.
  - destruct Hq as (e & He & Hh & Hk). destruct (ports_of s) as [ports Hports].
    set (e' := set_eps_Annotations
      (Some (<[RemoteGatewayIdentity := GatewayIdentity (link rcsw)]> (annotations (eps_Annotations e))))
      (set_eps_Subsets [mkEndpointSubset gateway [] ports] e)).
    exists (Some (updateReadiness rcsw e')), (set_lc_eps (<[mirror_key s := updateReadiness rcsw e']> (lc_eps w)) w).
    split; [by eapply written_eps|]. split_and!; try done.
    + eexists; split; [done|]. split; [by rewrite updateReadiness_key|]. right.
      exists gateway, ports. split_and!; [done|done|]. by apply readiness_subset.
    + rewrite Hgateway, Hports. eapply runs_bind; [by apply runs_getEps|].
      eapply runs_bind; [apply runs_ret|].
      eapply runs_bind; [apply (runs_updateMirrorEndpoints e'); [done|]|].
      * change (eps_key e') with (eps_key e). rewrite Hk, He. eauto.
      * change (eps_key e') with (eps_key e). rewrite Hk. apply runs_ret.
  - destruct (runs_createGatewayEndpoints s w) as (e & He & Hre); [done..|].
    exists (Some e), (set_lc_eps (<[mirror_key s := e]> (lc_eps w)) w). split; [by eapply written_eps|].
    split_and!; try done; [by eauto|]. eapply runs_bind; [by apply runs_attempt|apply runs_ret].
Qed.

Lemma runs_updated s m p q w :
  faults w = [] → is_Some (lc_nss w !! svc_Namespace s) →
  lc_svcs w !! mirror_key s = Some m → svc_heap w !! p = Some m → svc_key m = mirror_key s →
  match q with
  | None => lc_eps w !! mirror_key s = None
  | Some q => ∃ e, lc_eps w !! mirror_key s = Some e ∧ ep_heap w !! q = Some e ∧ eps_key e = mirror_key s
  end →
  ∃ m' o w', runs (handleRemoteExportedServiceUpdated LookupIP LabelSelectorAsSelector rcsw p q s) w () w'
    ∧ written (mirror_key s) (Some m') o w w' ∧ mirrors s m' ∧ endpoints_wanted s o.
Proof.
  intros Hf Hns Hm Hp Hk Hq.
  destruct (runs_updated_endpoints s m q w) as (o & w1 & Hw1 & Hh1 & Hs1 & Ho & Hr1); [done..|].
  set (m' := mkService (svc_Name m) (svc_Namespace m) (getMirrorServiceLabels LabelSelectorAsSelector rcsw s)
    (Some (getMirrorServiceAnnotations rcsw s)) (svc_ResourceVersion m) (svc_ClusterIP m)
    (remapRemoteServicePorts (svc_Ports s))).
  assert (faults w1 = []) as Hf1 by (destruct Hw1 as ([] & _); congruence).
  pose proof (written_svc _ _ _ _ _ m' p Hw1 Hk) as Hw2.
  assert (∀ s', svc_heap w !! p = Some s' → svc_key s' = mirror_key s) as Hps by (intros s'; rewrite Hp; congruence).
  specialize (Hw2 Hps).
  set (status := λ st, mkLinkStatus (updateServiceStatus (svc_Name s) (svc_Namespace s)
     (mirrorStatusCondition true reasonMirrored "" (Some m')) (MirrorServices st)) (FederatedServices st)).
  destruct (written_status _ _ _ _ _ status Hw2 Hf1) as (w3 & Hr3 & Hw3).
  exists m', o, w3. split_and!; [|done|done|done].
  unfold handleRemoteExportedServiceUpdated. cbv zeta.
  eapply runs_bind; [by apply runs_getSvc|]. eapply runs_bind; [exact Hr1|].
  eapply runs_bind; [apply runs_modify|].
  eapply runs_bind; [by apply runs_call|]. cbv beta. simpl.
  change (svc_Namespace m, svc_Name m) with (svc_key m).
  rewrite Hk, bool_decide_true by (rewrite Hs1; eauto). exact Hr3.
Qed.

Lemma runs_unexported s m p w :
  faults w = [] → cache_svcs w !! mirror_key s = Some p → svc_heap w !! p = Some m →
  svc_ClusterIP m ≠ ClusterIPNone → is_Some (lc_svcs w !! mirror_key s) →
  ∃ w', runs (handleRemoteServiceUnexported rcsw (svc_Name s) (svc_Namespace s)) w () w'
    ∧ written (mirror_key s) None (lc_eps w !! mirror_key s) w w'.
Proof.
  intros Hf Hc Hp Hip Hm.
  destruct (runs_onLinkStatus rcsw (λ st, mkLinkStatus
    (deleteServiceStatus (svc_Name s) (svc_Namespace s) (MirrorServices st)) (FederatedServices st)) w Hf) as [l Hl].
  exists (set_lc_svcs (delete (mirror_key s) (lc_svcs w)) (set_link_status l w)). split.
  - unfold handleRemoteServiceUnexported. eapply runs_bind; [exact Hl|]. cbv zeta.
    eapply runs_bind; [by apply runs_found|]. simpl. unfold mirror_key in Hc. rewrite Hc.
    eapply runs_bind; [by apply runs_getSvc|]. rewrite bool_decide_false by done.
    eapply runs_bind; [apply runs_ret|]. eapply runs_bind; [by apply runs_call|]. cbv beta. simpl.
    unfold mirror_key in Hm. rewrite bool_decide_true by done. apply runs_ret.
  - split_and!; [constructor; simpl; try done; intros k' Hk'; by rewrite lookup_delete_ne|
      simpl; apply lookup_delete_eq|done|done].
Qed.

(** ** The phases of a service *)
(** What is under the key of the mirror before it is looked at: a service there is a mirror
    the watcher wrote for some version of [s], and it is up to date when that version is the
    current one; no endpoints are left over without a service. *)
Definition honest (s : Service) (w : World) : Prop :=
  match lc_svcs w !! mirror_key s with
  | Some m =>
      svc_key m = mirror_key s ∧ svc_ClusterIP m ≠ ClusterIPNone ∧
      (exported s = true → ∃ v,
         annotations (svc_Annotations m) !! RemoteResourceVersionAnnotation = Some v
         ∧ (v = svc_ResourceVersion s → mirrors s m ∧ endpoints_wanted s (lc_eps w !! mirror_key s)))
  | None => lc_eps w !! mirror_key s = None
  end
  ∧ ∀ e, lc_eps w !! mirror_key s = Some e → eps_key e = mirror_key s.

(** No part of a federated service. *)
Definition unfederated (s : Service) (w : World) : Prop :=
  isFederatedServiceMember LabelSelectorAsSelector rcsw (svc_Labels s) = false
  ∧ ∀ m, lc_svcs w !! federated_key s = Some m → svc_Labels m !! MirroredResourceLabel = None.

(** The event [ev] is the next one for the service [s]. *)
Definition phase (s : Service) (ev : event) (w : World) : Prop :=
  match ev with
  | OnAddCalled s' | OnUpdateCalled s' => s' = s ∧ honest s w
  | RemoteServiceExported s' =>
      s' = s ∧ exported s = true ∧ lc_svcs w !! mirror_key s = None ∧ lc_eps w !! mirror_key s = None
  | RemoteExportedServiceUpdated p q s' =>
      s' = s ∧ exported s = true
      ∧ (∃ m, lc_svcs w !! mirror_key s = Some m ∧ svc_heap w !! p = Some m ∧ svc_key m = mirror_key s)
      ∧ match q with
        | None => lc_eps w !! mirror_key s = None
        | Some q => ∃ e, lc_eps w !! mirror_key s = Some e ∧ ep_heap w !! q = Some e ∧ eps_key e = mirror_key s
        end
  | RemoteServiceUnexported n ns =>
      n = svc_Name s ∧ ns = svc_Namespace s ∧ exported s = false
      ∧ ∃ m, lc_svcs w !! mirror_key s = Some m ∧ svc_ClusterIP m ≠ ClusterIPNone
  | _ => False
  end.

(** How many events a service may still take. *)
Definition weight (ev : event) : nat :=
  match ev with OnAddCalled _ | OnUpdateCalled _ => 2 | _ => 1 end.

Record calm (w : World) : Prop := {
  calm_synced : synced w; calm_faults : faults w = []; calm_shutdown : shutdown w = false;
  calm_queue : queue w = [] }.

Lemma synced_svc w k m : synced w → lc_svcs w !! k = Some m →
  ∃ p, cache_svcs w !! k = Some p ∧ svc_heap w !! p = Some m.
Proof.
  intros (Hs & _) Hm. specialize (Hs k). rewrite Hm in Hs. by apply bind_Some in Hs as (p & ? & ?); eauto.
Qed.
Lemma synced_no_svc w k : synced w → lc_svcs w !! k = None → cache_svcs w !! k = None.
Proof.
  intros (_ & Hs & _) Hm. destruct (cache_svcs w !! k) eqn:Hc; [|done].
  destruct (Hs k) as [? ?]; [eauto|congruence].
Qed.
Lemma synced_eps w k e : synced w → lc_eps w !! k = Some e →
  ∃ p, cache_eps w !! k = Some p ∧ ep_heap w !! p = Some e.
Proof.
  intros (_ & _ & Hs & _) Hm. specialize (Hs k). rewrite Hm in Hs. by apply bind_Some in Hs as (p & ? & ?); eauto.
Qed.
Lemma synced_no_eps w k : synced w → lc_eps w !! k = None → cache_eps w !! k = None.
Proof.
  intros (_ & _ & _ & Hs & _) Hm. destruct (cache_eps w !! k) eqn:Hc; [|done].
  destruct (Hs k) as [? ?]; [eauto|congruence].
Qed.

Lemma runs_federated s w :
  synced w → faults w = [] → unfederated s w →
  runs (createOrUpdateFederated LabelSelectorAsSelector rcsw s) w () w.
Proof.
  intros Hs Hf [Hn Hl]. unfold createOrUpdateFederated. cbv zeta. rewrite Hn.
  eapply runs_bind; [by apply runs_found|]. cbv beta. fold (federated_key s).
  destruct (lc_svcs w !! federated_key s) as [m|] eqn:Hm.
  - destruct (synced_svc w _ m Hs Hm) as (p & -> & Hp). eapply runs_bind; [by apply runs_getSvc|].
    rewrite bool_decide_false; [apply runs_ret|]. rewrite (Hl m eq_refl). by intros [? ?].
  - rewrite (synced_no_svc w _ Hs Hm). apply runs_ret.
Qed.

Lemma runs_enqueue ev w : calm w → runs (enqueue ev) w () (set_queue [ev] w).
Proof. intros [_ _ Hs Hq]. unfold runs, enqueue, modify. by rewrite Hs, Hq. Qed.

(** The endpoints of the mirror in the cache, as a pointer. *)
Lemma synced_eps_ptr s w :
  synced w → (∀ e, lc_eps w !! mirror_key s = Some e → eps_key e = mirror_key s) →
  match cache_eps w !! mirror_key s with
  | None => lc_eps w !! mirror_key s = None
  | Some q => ∃ e, lc_eps w !! mirror_key s = Some e ∧ ep_heap w !! q = Some e ∧ eps_key e = mirror_key s
  end.
Proof.
  intros Hs He. destruct (lc_eps w !! mirror_key s) as [e|] eqn:Hee.
  - destruct (synced_eps w _ e Hs Hee) as (q & -> & Hhq). eauto.
  - by rewrite (synced_no_eps w _ Hs Hee).
Qed.

(** Handling a service that appeared or changed: nothing is to be done for its mirror, or
    one event is queued that will do it. *)
Definition settled_or_queued (s : Service) {A} (m : M A) (w : World) : Prop :=
  (∃ a, runs m w a w ∧ wanted s w)
  ∨ ∃ ev a, runs m w a (set_queue [ev] w) ∧ weight ev = 1%nat ∧ phase s ev w.

Lemma runs_mirror_exported s w :
  calm w → honest s w → exported s = true →
  settled_or_queued s (createOrUpdateMirror LabelSelectorAsSelector rcsw s) w.
Proof.
  intros Hcalm [Hh He] Hx. pose proof Hcalm as [Hs Hf _ _].
  unfold settled_or_queued, createOrUpdateMirror, wanted. cbv zeta. rewrite Hx.
  destruct (lc_svcs w !! mirror_key s) as [m|] eqn:Hm; last first.
  { right. exists (RemoteServiceExported s), false. split_and!; try done.
    eapply runs_bind; [by apply runs_found|]. cbv beta. fold (mirror_key s).
    rewrite (synced_no_svc w _ Hs Hm). eapply runs_bind; [by apply runs_enqueue|apply runs_ret]. }
  destruct (synced_svc w _ m Hs Hm) as (p & Hc & Hp). destruct Hh as (Hk & Hip & Hv).
  destruct (Hv Hx) as (v & Hann & Hcur).
  destruct (decide (v = svc_ResourceVersion s)) as [Heq|Hne].
  - left. exists true. split; [|destruct (Hcur Heq); eauto].
    eapply runs_bind; [by apply runs_found|]. cbv beta. fold (mirror_key s). rewrite Hc.
    eapply runs_bind; [by apply runs_getSvc|]. rewrite Hann, bool_decide_true by done. apply runs_ret.
  - right. exists (RemoteExportedServiceUpdated p (cache_eps w !! mirror_key s) s), true.
    split_and!; [|done|unfold phase; split_and!; [done|done|by eauto|by apply synced_eps_ptr]].
    eapply runs_bind; [by apply runs_found|]. cbv beta. fold (mirror_key s). rewrite Hc.
    eapply runs_bind; [by apply runs_getSvc|]. rewrite Hann, bool_decide_false by done.
    eapply runs_bind; [by apply runs_found|]. cbv beta. fold (mirror_key s).
    eapply (runs_bind _ _ w (cache_eps w !! mirror_key s) w); [by destruct (cache_eps w !! mirror_key s)|].
    eapply runs_bind; [by apply runs_enqueue|apply runs_ret].
Qed.

Lemma runs_mirror_unexported s w :
  calm w → honest s w → exported s = false →
  settled_or_queued s (createOrUpdateMirror LabelSelectorAsSelector rcsw s) w.
Proof.
  intros Hcalm [Hh He] Hx. pose proof Hcalm as [Hs Hf _ _].
  unfold settled_or_queued, createOrUpdateMirror, wanted. cbv zeta. rewrite Hx.
  destruct (lc_svcs w !! mirror_key s) as [m|] eqn:Hm; last first.
  { left. exists true. split; [|done]. eapply runs_bind; [by apply runs_found|]. cbv beta. fold (mirror_key s).
    rewrite (synced_no_svc w _ Hs Hm). apply runs_ret. }
  destruct (synced_svc w _ m Hs Hm) as (p & Hc & Hp). destruct Hh as (Hk & Hip & _).
  destruct (decide (ours m)) as [Ho|Ho].
  - right. exists (RemoteServiceUnexported (svc_Name s) (svc_Namespace s)), true.
    split_and!; [|done|unfold phase; eauto 6].
    eapply runs_bind; [by apply runs_found|]. cbv beta. fold (mirror_key s). rewrite Hc.
    eapply runs_bind; [by apply runs_getSvc|]. rewrite bool_decide_true by done.
    eapply runs_bind; [by apply runs_enqueue|apply runs_ret].
  - left. exists true. split; [|by intros ? [= <-]].
    eapply runs_bind; [by apply runs_found|]. cbv beta. fold (mirror_key s). rewrite Hc.
    eapply runs_bind; [by apply runs_getSvc|]. rewrite bool_decide_false by done.
    eapply runs_bind; apply runs_ret.
Qed.

Lemma runs_createOrUpdateService s w :
  calm w → honest s w → unfederated s w →
  settled_or_queued s (createOrUpdateService LabelSelectorAsSelector rcsw s) w.
Proof.
  intros Hcalm Hh Hu. pose proof Hcalm as [Hs Hf _ _].
  assert (∀ (b : bool) w', runs (createOrUpdateMirror LabelSelectorAsSelector rcsw s) w b w' →
    synced w' → faults w' = [] → unfederated s w' →
    runs (createOrUpdateService LabelSelectorAsSelector rcsw s) w () w') as Hrun.
  { intros b w' Hr Hs' Hf' Hu'. eapply runs_bind; [exact Hr|]. destruct b; [by apply runs_federated|done]. }
  assert (settled_or_queued s (createOrUpdateMirror LabelSelectorAsSelector rcsw s) w) as [(b & Hr & Hw)|(ev & b & Hr & Hw)].
  { destruct (exported s) eqn:Hx; [by apply runs_mirror_exported|by apply runs_mirror_unexported]. }
  - left. exists (). split; [by eapply Hrun|done].
  - right. exists ev, (). split; [|done]. by eapply Hrun.
Qed.

(** One event, from a calm world. *)
Lemma process_one s n ev w :
  calm w → phase s ev w → unfederated s w → is_Some (lc_nss w !! svc_Namespace s) →
  ∃ w1, processEvent LookupIP LabelSelectorAsSelector assignIP rcsw n ev w = (Ret None, w1)
    ∧ only_at (mirror_key s) w w1
    ∧ (queue w1 = [] ∧ wanted s w1
       ∨ ∃ ev', queue w1 = [ev'] ∧ (weight ev' < weight ev)%nat ∧ phase s ev' w1).
Proof.
  intros Hcalm Hph Hu Hns. pose proof Hcalm as [Hs Hf _ Hq].
  assert (svc_Namespace s ∈ cache_nss w) as Hc by (destruct Hs as (_ & _ & _ & _ & Hn); by apply Hn).
  assert (∀ w1, runs (processNextEvent LookupIP LabelSelectorAsSelector assignIP rcsw ev) w () w1 →
    processEvent LookupIP LabelSelectorAsSelector assignIP rcsw n ev w = (Ret None, w1)) as Hrun.
  { intros w1 Hr. unfold processEvent. unfold runs in Hr. by rewrite Hr. }
  destruct ev; simpl in Hph; try done.
  - destruct Hph as (-> & Hx & Hm & He).
    destruct (runs_exported s w) as (m & o & w1 & Hr & (Hoa & Hm1 & Ho1 & Hq1) & Hmir & Hend); [done..|].
    exists w1. split_and!; [by apply Hrun|done|]. left. split; [by rewrite Hq1|].
    unfold wanted. rewrite Hx, Hm1, Ho1. eauto.
  - destruct Hph as (-> & Hx & (m & Hm & Hp & Hk) & He).
    destruct (runs_updated s m localService localEndpoints w)
      as (m' & o & w1 & Hr & (Hoa & Hm1 & Ho1 & Hq1) & Hmir & Hend); [done..|].
    exists w1. split_and!; [by apply Hrun|done|]. left. split; [by rewrite Hq1|].
    unfold wanted. rewrite Hx, Hm1, Ho1. eauto.
  - destruct Hph as (-> & -> & Hx & m & Hm & Hip). destruct (synced_svc w _ m Hs Hm) as (p & Hcp & Hp).
    destruct (runs_unexported s m p w) as (w1 & Hr & Hoa & Hm1 & Ho1 & Hq1); [done..|by eauto|].
    exists w1. split_and!; [by apply Hrun|done|]. left. split; [by rewrite Hq1|].
    unfold wanted. rewrite Hx, Hm1. done.
  - destruct Hph as [-> Hh].
    destruct (runs_createOrUpdateService s w Hcalm Hh Hu) as [([] & Hr & Hw)|(ev' & [] & Hr & Hwt & Hp)].
    + exists w. split_and!; [by apply Hrun|apply only_at_refl|]. by left.
    + exists (set_queue [ev'] w). split_and!; [by apply Hrun|by constructor|]. right. exists ev'.
      split_and!; [done|simpl; lia|done].
  - destruct Hph as [-> Hh].
    destruct (runs_createOrUpdateService s w Hcalm Hh Hu) as [([] & Hr & Hw)|(ev' & [] & Hr & Hwt & Hp)].
    + exists w. split_and!; [by apply Hrun|apply only_at_refl|]. by left.
    + exists (set_queue [ev'] w). split_and!; [by apply Hrun|by constructor|]. right. exists ev'.
      split_and!; [done|simpl; lia|done].
Qed.

(** ** What other events leave as it is *)
Record agrees (k : key) (w w' : World) : Prop := {
  ag_svcs : lc_svcs w' !! k = lc_svcs w !! k;
  ag_eps : lc_eps w' !! k = lc_eps w !! k;
  ag_svc_heap p m : svc_heap w !! p = Some m → svc_key m = k → svc_heap w' !! p = Some m;
  ag_ep_heap : ep_heap w ⊆ ep_heap w' }.

Lemma phase_agrees s ev w w' : agrees (mirror_key s) w w' → phase s ev w → phase s ev w'.
Proof.
  intros [Hs He Hh Hg]. unfold phase, honest. destruct ev; try done; rewrite ?Hs, ?He; try done.
  intros (-> & Hx & (m & Hm & Hp & Hk) & Hq). split_and!; [done|done|by eauto|].
  destruct localEndpoints; [|done]. destruct Hq as (e & ? & ? & ?). exists e. split_and!; [done| |done].
  by eapply lookup_weaken.
Qed.

Lemma wanted_agrees s w w' : agrees (mirror_key s) w w' → wanted s w → wanted s w'.
Proof. intros [Hs He _ _]. unfold wanted. by rewrite Hs, He. Qed.

Lemma agrees_other k k' w w1 w2 :
  only_at k w w1 → catch_up (set_queue [] w1) w2 → k' ≠ k → agrees k' w w2.
Proof.
  intros [] (_ & Hhs & Hhe & Hs & He & _) Hne. simpl in *. constructor.
  - rewrite Hs. eauto.
  - rewrite He. eauto.
  - intros p m Hp Hk. eapply lookup_weaken; [|done]. apply oa_svc_heap0; congruence.
  - by rewrite <-oa_ep_heap0.
Qed.

Lemma agrees_self k w1 w2 : catch_up (set_queue [] w1) w2 → agrees k w1 w2.
Proof.
  intros (_ & Hhs & Hhe & Hs & He & _). simpl in *. constructor; [by rewrite Hs|by rewrite He| |done].
  intros p m Hp _. by eapply lookup_weaken.
Qed.

(** ** All services *)
Context (svcs : list Service).
Context (Hclash : ∀ a b, mirrorName a ≠ federatedServiceName b).

Lemma mirror_key_inj s s' : mirror_key s = mirror_key s' → svc_key s = svc_key s'.
Proof.
  unfold mirror_key, svc_key, mirrorServiceName. intros [= Hns Hn]. f_equal; [done|].
  by apply strings.append_inj_l in Hn.
Qed.

(** Each service waits for one event or is done. *)
Definition conv_inv (st : list (nat * event) * World) : Prop :=
  calm st.2
  ∧ (∀ s, s ∈ svcs → unfederated s st.2 ∧ is_Some (lc_nss st.2 !! svc_Namespace s))
  ∧ ∃ (todo : list (Service * (nat * event))) (settled : list Service),
      todo.*1 ++ settled ≡ₚ svcs ∧ st.1 = todo.*2
      ∧ Forall (λ t, phase t.1 t.2.2 st.2) todo ∧ Forall (λ s, wanted s st.2) settled.

Definition total_weight (l : list (nat * event)) : nat := sum_list_with (weight ∘ snd) l.

Lemma catch_up_calm w w1 w2 :
  calm w → faults w1 = faults w → shutdown w1 = shutdown w → catch_up (set_queue [] w1) w2 → calm w2.
Proof.
  intros [] Hf Hsd (Hs & _ & _ & _ & _ & _ & _ & _ & _ & Hq & Hsd' & Hf').
  constructor; simpl in *; congruence.
Qed.

Context (Hnodup : NoDup (svc_key <$> svcs)).

Lemma other_keys (todo1 todo2 : list (Service * (nat * event))) s i settled :
  (todo1 ++ (s, i) :: todo2).*1 ++ settled ≡ₚ svcs →
  (∀ t, t ∈ todo1 ++ todo2 → mirror_key t.1 ≠ mirror_key s) ∧ (∀ s', s' ∈ settled → mirror_key s' ≠ mirror_key s).
Proof.
  intros Hp. assert (NoDup (svc_key <$> (s :: (todo1 ++ todo2).*1 ++ settled))) as Hnd.
  { eapply NoDup_Permutation_proper; [|exact Hnodup]. apply fmap_Permutation.
    rewrite <-Hp, !fmap_app, fmap_cons, <-!app_assoc. simpl. apply Permutation_middle. }
  rewrite fmap_cons in Hnd. apply NoDup_cons in Hnd as [Hni _].
  split; [intros t Ht Heq|intros s' Hs' Heq]; apply mirror_key_inj in Heq; apply Hni; rewrite <-Heq;
    apply list_elem_of_fmap_2; apply elem_of_app; [left; by apply list_elem_of_fmap_2|by right].
Qed.

Lemma conv_process l1 n ev l2 w :
  conv_inv (l1 ++ (n, ev) :: l2, w) →
  ∃ w1, processEvent LookupIP LabelSelectorAsSelector assignIP rcsw n ev w = (Ret None, w1)
    ∧ ∀ w2, catch_up (set_queue [] w1) w2 →
        conv_inv (l1 ++ l2 ++ (pair 0%nat <$> queue w1), w2)
        ∧ (total_weight (l1 ++ l2 ++ (pair 0%nat <$> queue w1)) < total_weight (l1 ++ (n, ev) :: l2))%nat.
Proof.
  intros (Hcalm & Hall & todo & settled & Hperm & Hl & Htodo & Hset). simpl in *.
  symmetry in Hl. apply fmap_app_inv in Hl as (t1 & t2' & -> & Hl & ->).
  destruct t2' as [|[s i] t2]; [done|]. simpl in Hl. injection Hl as <- ->.
  apply Forall_app in Htodo as [Ht1 [Hph Ht2]%Forall_cons]. simpl in Hph.
  destruct (other_keys _ _ _ _ _ Hperm) as [Hk1 Hk2].
  assert (s ∈ svcs) as Hin by (rewrite <-Hperm, fmap_app; set_solver).
  destruct (Hall s Hin) as [Hu Hns].
  destruct (process_one s n ev w Hcalm Hph Hu Hns) as (w1 & Hpe & Hoa & Hout). exists w1. split; [done|].
  intros w2 Hcu. pose proof (agrees_self (mirror_key s) w1 w2 Hcu) as Hself.
  assert (Forall (λ t, phase t.1 t.2.2 w2) (t1 ++ t2)) as Ht.
  { apply Forall_forall. intros t Hin'. eapply phase_agrees; [by eapply agrees_other; [..|apply Hk1]|].
    assert (Forall (λ t, phase t.1 t.2.2 w) (t1 ++ t2)) as Hf by (by apply Forall_app).
    rewrite Forall_forall in Hf. by apply Hf. }
  assert (Forall (λ s, wanted s w2) settled) as Hs2.
  { apply Forall_forall. intros s' Hin'. eapply wanted_agrees; [by eapply agrees_other; [..|apply Hk2]|].
    rewrite Forall_forall in Hset. by apply Hset. }
  assert (calm w2) as Hcalm2 by (destruct Hoa; by eapply catch_up_calm).
  assert (∀ s', s' ∈ svcs → unfederated s' w2 ∧ is_Some (lc_nss w2 !! svc_Namespace s')) as Hall2.
  { intros s' Hs'. destruct (Hall s' Hs') as [[Hm Hf] Hn]. destruct Hoa, Hcu as (_ & _ & _ & Hs & _ & Hnn & _).
    simpl in *. split; [|by rewrite Hnn, oa_nss0]. split; [done|]. intros m. rewrite Hs, oa_svcs0; [apply Hf|].
    unfold federated_key, mirror_key. intros [= _ Heq]. by eapply Hclash. }
  assert (s :: (t1.*1 ++ t2.*1) ++ settled ≡ₚ svcs) as Hperm'.
  { rewrite <-Hperm, fmap_app, fmap_cons, <-!app_assoc. simpl. apply Permutation_middle. }
  assert (0 < weight ev)%nat as Hpos by (destruct ev; simpl; lia).
  destruct Hout as [[Hq Hw]|(ev' & Hq & Hlt & Hp')]; rewrite Hq; unfold total_weight; simpl.
  - split; [|rewrite !sum_list_with_app; simpl; lia].
    split_and!; [done|done|]. exists (t1 ++ t2), (s :: settled). simpl. split_and!; [|by rewrite app_nil_r, fmap_app|done|].
    + rewrite fmap_app, <-Hperm'. symmetry. apply Permutation_middle.
    + constructor; [by eapply wanted_agrees|done].
  - split; [|rewrite !sum_list_with_app; simpl; lia].
    split_and!; [done|done|]. exists (t1 ++ t2 ++ [(s, (0%nat, ev'))]), settled. simpl. split_and!.
    + rewrite !fmap_app, <-Hperm', app_assoc, <-(app_assoc _ _ settled). symmetry. apply Permutation_middle.
    + by rewrite !fmap_app.
    + apply Forall_app in Ht as [? ?]. repeat apply Forall_app_2; [done|done|]. apply Forall_singleton. simpl.
      by eapply phase_agrees.
    + done.
Qed.

Lemma conv_step st st' :
  converge_step st st' → conv_inv st → conv_inv st' ∧ (total_weight st'.1 < total_weight st.1)%nat.
Proof.
  intros Hstep Hinv. destruct Hstep as [l1 n ev l2 w r w1 w2 Hpe Hcu].
  destruct (conv_process l1 n ev l2 w Hinv) as (w1' & Hpe' & Hall).
  rewrite Hpe in Hpe'. injection Hpe' as -> <-. apply (Hall w2 Hcu).
Qed.

Lemma conv_steps k st st' :
  nsteps converge_step k st st' → conv_inv st → conv_inv st' ∧ (k + total_weight st'.1 <= total_weight st.1)%nat.
Proof.
  induction 1 as [|k st1 st2 st3 Hstep Hsteps IH]; [auto|]. intros Hinv.
  destruct (conv_step _ _ Hstep Hinv) as [Hinv2 Hlt]. destruct (IH Hinv2). split; [done|lia].
Qed.

End convergence.

(** ** An example: a service to be mirrored, and one that is no longer exported *)
Definition ex_old_mirror : Service :=
  mkService "db-east" "ns" (<[RemoteClusterNameLabel := "east"]> {[MirroredResourceLabel := "true"]})
    (Some {[RemoteResourceVersionAnnotation := "3"]}) "9" "10.2.0.7" [].
Definition ex_calm : World :=
  mkWorld {[("ns", "db-east") := ex_old_mirror]} ∅ {["ns" := ∅]} {[("ns", "db-east") := 1%positive]}
    {[1%positive := ex_old_mirror]} ∅ ∅ {["ns"]} ∅ ∅ (mkLinkStatus [] []) [] false [].
Definition ex_services : list Service := [ex_remote "web" "export" "7"; ex_remote "db" "internal" "4"].

Lemma ex_calm_ok : calm ex_calm.
Proof.
  constructor; [|done..]. split_and!.
  - intros k. change (({[("ns", "db-east") := 1%positive]} : gmap key ptr) !! k
      ≫= (λ p, ({[1%positive := ex_old_mirror]} : gmap ptr Service) !! p)
      = ({[("ns", "db-east") := ex_old_mirror]} : gmap key Service) !! k).
    destruct (decide (k = ("ns", "db-east"))) as [->|Hne]; [reflexivity|].
    by rewrite !lookup_singleton_ne by congruence.
  - intros k [p Hp]. change (({[("ns", "db-east") := 1%positive]} : gmap key ptr) !! k = Some p) in Hp.
    apply lookup_singleton_Some in Hp as [<- _]. by eexists.
  - intros k. change (((∅ : gmap key ptr) !! k ≫= λ p, (∅ : gmap ptr Endpoints) !! p) = (∅ : gmap key Endpoints) !! k).
    by rewrite !lookup_empty.
  - intros k [p Hp]. change ((∅ : gmap key ptr) !! k = Some p) in Hp. by rewrite lookup_empty in Hp.
  - intros ns. change (ns ∈ ({["ns"]} : gset string) ↔ is_Some (({["ns" := ∅]} : gmap string strmap) !! ns)).
    rewrite elem_of_singleton, lookup_singleton_is_Some. naive_solver.
Qed.

Lemma last_char a b c d : a +:+ String c "" = b +:+ String d "" → c = d.
Proof.
  revert b. induction a as [|x a IH]; intros [|y b] Heq.
  - by injection Heq.
  - injection Heq as _ Heq. by destruct b.
  - injection Heq as _ Heq. by destruct a.
  - injection Heq as _ Heq. by eapply IH.
Qed.

Lemma ex_no_clash a b : mirrorServiceName ex_watcher a ≠ federatedServiceName b.
Proof.
  unfold mirrorServiceName, federatedServiceName. intros Heq.
  change (a +:+ ("-eas" +:+ "t") = b +:+ ("-federate" +:+ "d")) in Heq. rewrite !strings.append_assoc in Heq.
  by apply last_char in Heq.
Qed.

Lemma ex_honest_web : honest ex_LookupIP ex_selector ex_watcher (ex_remote "web" "export" "7") ex_calm.
Proof. split; [vm_compute; reflexivity|]. intros e He. vm_compute in He. discriminate He. Qed.

Lemma ex_honest_db : honest ex_LookupIP ex_selector ex_watcher (ex_remote "db" "internal" "4") ex_calm.
Proof.
  split; [|intros e He; vm_compute in He; discriminate He].
  replace (lc_svcs ex_calm !! mirror_key ex_watcher (ex_remote "db" "internal" "4")) with (Some ex_old_mirror)
    by (vm_compute; reflexivity).
  split; [vm_compute; reflexivity|]. split; [done|]. intros Hx. vm_compute in Hx. discriminate Hx.
Qed.

