(* ===== verification/MirrorProps.v ===== *)
(** The members of federated services, the status of the Link, the garbage collection of
    mirrors, and what goes wrong in the service mirror when calls fail. *)
From S2P Require Import Prelude GoStd K8s Mirror ServiceMirror MirrorSafety MirrorConvergence.

#[local] Open Scope string_scope.
#[local] Open Scope list_scope.
#[local] Open Scope Z_scope.

Lemma get_insert (m : strmap) k v : get (<[k := v]> m) k = v.
Proof. unfold get. by rewrite lookup_insert_eq. Qed.
Lemma get_insert_ne (m : strmap) k k' v : k ≠ k' → get (<[k := v]> m) k' = get m k'.
Proof. intros Hk. unfold get. by rewrite lookup_insert_ne. Qed.

(** * Federated services *)
(** The members an annotation lists. *)
Definition members (a : strmap) : list string :=
  let v := get a RemoteDiscoveryAnnotation in
  if bool_decide (v = "") then [] else strings.Split v ",".

(** A list of members as an annotation holds it. *)
Definition plain_members (l : list string) : Prop :=
  Forall (λ m, m ≠ "" ∧ strings.Contains m "," = false) l.

Lemma remoteDiscoveryContains_spec v t :
  t ≠ "" → remoteDiscoveryContains v t = bool_decide (t ∈ (if bool_decide (v = "") then [] else strings.Split v ",")).
Proof.
  intros Ht. unfold remoteDiscoveryContains. apply eq_iff_eq_true. rewrite existsb_exists, bool_decide_eq_true.
  setoid_rewrite bool_decide_eq_true. case_bool_decide as Hv.
  - subst. split; [|by intros ?%not_elem_of_nil]. intros (x & [<-|[]] & Hx). congruence.
  - split; [intros (x & Hx & ->); by apply list_elem_of_In|]. intros Hx. exists t. split; [by apply list_elem_of_In|done].
Qed.

Lemma Join_empty l : plain_members l → (strings.Join l "," = "" ↔ l = []).
Proof.
  intros Hl. split; [|by intros ->]. destruct Hl as [|x l [Hx _] Hl]; [done|].
  destruct l as [|y l]; [done|]. rewrite strings.Join_cons by done. by destruct x.
Qed.

Lemma Join_snoc l t : l ≠ [] → strings.Join l "," +:+ "," +:+ t = strings.Join (l ++ [t]) ",".
Proof.
  induction l as [|x l IH]; [done|]. intros _. destruct l as [|y l]; [done|].
  simpl app. rewrite !(strings.Join_cons x) by done. rewrite <-!strings.append_assoc. f_equal. f_equal. by apply IH.
Qed.

(** Appending to the annotation, and removing from it. *)
Lemma members_append a t :
  plain_members (members a) → t ≠ "" → strings.Contains t "," = false →
  let v := get a RemoteDiscoveryAnnotation in
  let a' := <[RemoteDiscoveryAnnotation := if bool_decide (v = "") then t else v +:+ "," +:+ t]> a in
  members a' = members a ++ [t].
Proof.
  intros Hl Ht Hc v a'. unfold members, a'. rewrite get_insert.
  fold v. unfold members in Hl. fold v in Hl. clear a'. clearbody v. case_bool_decide as Hv.
  - rewrite bool_decide_false by done. rewrite strings.Split_absent by done. done.
  - rewrite bool_decide_false; [|by destruct v].
    rewrite <-(strings.Join_Split v ",") at 1.
    assert (strings.Join (strings.Split v ",") "," +:+ "," +:+ t = strings.Join (strings.Split v "," ++ [t]) ",") as ->.
    { apply Join_snoc, strings.Split_not_nil. }
    apply strings.Split_Join; [by destruct (strings.Split v ",")|].
    apply Forall_app_2; [|by apply Forall_singleton]. eapply Forall_impl; [exact Hl|]. naive_solver.
Qed.

Lemma members_remove a t :
  plain_members (members a) → members a ≠ [] →
  let v := get a RemoteDiscoveryAnnotation in
  let a' := <[RemoteDiscoveryAnnotation := strings.Join (filter (.≠ t) (strings.Split v ",")) ","]> a in
  members a' = filter (.≠ t) (members a)
  ∧ (get a' RemoteDiscoveryAnnotation = "" ↔ filter (.≠ t) (members a) = []).
Proof.
  intros Hl Hne v a'. unfold members in *. fold v in Hl, Hne |- *. unfold a'. rewrite get_insert.
  case_bool_decide as Hv; [done|].
  assert (plain_members (filter (.≠ t) (strings.Split v ","))) as Hf by ((apply Forall_forall; intros x [_ Hx]%list_elem_of_filter; unfold plain_members in Hl; rewrite Forall_forall in Hl; by apply Hl)).
  split; [|by apply Join_empty].
  case_bool_decide as Hj; [by rewrite (proj1 (Join_empty _ Hf) Hj)|].
  apply strings.Split_Join; [intros Hnil; by rewrite Hnil in Hj|].
  eapply Forall_impl; [exact Hf|]. naive_solver.
Qed.

Section props.
Context `{!MapRange} (LookupIP : string → option (list string)).
Context (LabelSelectorAsSelector : LabelSelector → option (strmap → bool)).
Context (assignIP : key → string) (rcsw : RemoteClusterServiceWatcher).
Context (Hcluster : TargetClusterName (link rcsw) ≠ "").

Abbreviation process := (processEvent LookupIP LabelSelectorAsSelector assignIP rcsw).
Abbreviation fedKey n ns := ((ns, federatedServiceName n) : key).

Lemma target_not_empty n : remoteTarget rcsw n ≠ "".
Proof. unfold remoteTarget. by destruct n. Qed.

(** A service of the local cluster that the cache holds, with its annotations. *)
Definition holds (w : World) (p : ptr) (k : key) (s : Service) (a : strmap) : Prop :=
  svc_heap w !! p = Some s ∧ lc_svcs w !! k = Some s ∧ svc_key s = k ∧ svc_Annotations s = Some a.

Lemma runs_svcUpdate w s s' :
  faults w = [] → lc_svcs w !! svc_key s = Some s' →
  runs (svcUpdate (svc_Namespace s) s) w (inr ()) (set_lc_svcs (<[svc_key s := s]> (lc_svcs w)) w).
Proof.
  intros Hf Hs. unfold svcUpdate. eapply runs_call in Hf. unfold runs in *. rewrite Hf.
  change (svc_Namespace s, svc_Name s) with (svc_key s). by rewrite bool_decide_true by eauto.
Qed.

(** Joining appends the member once, in the API server and in the cached object. *)
Lemma runs_join r w p s a :
  faults w = [] → svc_ClusterIP r ≠ ClusterIPNone → holds w p (fedKey (svc_Name r) (svc_Namespace r)) s a →
  plain_members (members a) → strings.Contains (remoteTarget rcsw (svc_Name r)) "," = false →
  ∃ s' a' w', runs (handleFederatedServiceJoin rcsw p r) w () w'
    ∧ holds w' p (fedKey (svc_Name r) (svc_Namespace r)) s' a' ∧ faults w' = []
    ∧ svc_Labels s' = svc_Labels s ∧ svc_Ports s' = svc_Ports s
    ∧ cache_svcs w' = cache_svcs w
    ∧ get a' LocalDiscoveryAnnotation = get a LocalDiscoveryAnnotation
    ∧ members a' = if bool_decide (remoteTarget rcsw (svc_Name r) ∈ members a) then members a
                   else members a ++ [remoteTarget rcsw (svc_Name r)].
Proof.
  intros Hf Hip (Hp & Hs & Hk & Ha) Hm Hc. unfold handleFederatedServiceJoin. cbv zeta.
  pose proof (remoteDiscoveryContains_spec (get a RemoteDiscoveryAnnotation) _ (target_not_empty (svc_Name r))) as Hrc.
  fold (members a) in Hrc.
  destruct (decide (remoteTarget rcsw (svc_Name r) ∈ members a)) as [Hin|Hni].
  - exists s, a, w. split; [|rewrite bool_decide_true by done; split_and!; done].
    eapply runs_bind; [by apply runs_getSvc|]. rewrite bool_decide_false, bool_decide_false by done.
    rewrite Ha. simpl. rewrite Hrc, bool_decide_true by done. apply runs_ret.
  - set (a' := <[RemoteDiscoveryAnnotation :=
      if bool_decide (get a RemoteDiscoveryAnnotation = "") then remoteTarget rcsw (svc_Name r)
      else get a RemoteDiscoveryAnnotation +:+ "," +:+ remoteTarget rcsw (svc_Name r)]> a).
    set (s' := set_svc_Annotations (Some a') s).
    set (w1 := set_svc_heap (<[p := s']> (svc_heap w)) w).
    set (w2 := set_lc_svcs (<[svc_key s' := s']> (lc_svcs w1)) w1).
    destruct (runs_onLinkStatus rcsw (λ st, mkLinkStatus (MirrorServices st)
      (updateServiceStatus (svc_Name r) (svc_Namespace r) (mirrorStatusCondition true reasonMirrored "" (Some s'))
         (FederatedServices st))) w2 Hf) as [l Hl].
    exists s', a', (set_link_status l w2). split; last first.
    { split; [|split_and!; try done].
      - split_and!; [simpl; apply lookup_insert_eq|simpl; rewrite <-Hk; apply lookup_insert_eq|done|done].
      - by apply get_insert_ne.
      - rewrite bool_decide_false by done. by apply members_append; [|apply target_not_empty|]. }
    eapply runs_bind; [by apply runs_getSvc|]. rewrite bool_decide_false, bool_decide_false by done.
    rewrite Ha. simpl. rewrite Hrc, bool_decide_false by done.
    eapply runs_bind; [apply runs_modify|]. eapply (runs_bind _ _ w1 (inr ()) w2); [|exact Hl].
    eapply (runs_svcUpdate w1 s' s); [done|]. simpl. change (svc_key s') with (svc_key s). by rewrite Hk.
Qed.

(** Leaving removes the member, and the service when it has no member left. *)
Lemma runs_leave n ns w p s a :
  faults w = [] → cache_svcs w !! fedKey n ns = Some p → holds w p (fedKey n ns) s a →
  plain_members (members a) → remoteTarget rcsw n ∈ members a →
  let rest := filter (.≠ remoteTarget rcsw n) (members a) in
  ∃ w', runs (handleFederatedServiceLeave rcsw n ns) w () w'
    ∧ if bool_decide (rest = [] ∧ get a LocalDiscoveryAnnotation = "")
      then lc_svcs w' !! fedKey n ns = None
      else ∃ s' a', holds w' p (fedKey n ns) s' a' ∧ members a' = rest
             ∧ svc_Labels s' = svc_Labels s ∧ svc_Ports s' = svc_Ports s.
Proof.
  intros Hf Hcache (Hp & Hs & Hk & Ha) Hm Hin rest.
  destruct (runs_onLinkStatus rcsw (λ st, mkLinkStatus (MirrorServices st)
    (deleteServiceStatus n ns (FederatedServices st))) w Hf) as [l Hl].
  set (w0 := set_link_status l w) in *.
  set (a' := <[RemoteDiscoveryAnnotation := strings.Join (filter (.≠ remoteTarget rcsw n)
    (strings.Split (get a RemoteDiscoveryAnnotation) ",")) ","]> a).
  set (s' := set_svc_Annotations (Some a') s).
  set (w1 := set_svc_heap (<[p := s']> (svc_heap w0)) w0).
  destruct (members_remove a (remoteTarget rcsw n) Hm) as [Hmem Hempty]; [intros Hnil; rewrite Hnil in Hin; by apply not_elem_of_nil in Hin|].
  fold a' rest in Hmem, Hempty.
  assert (get a' LocalDiscoveryAnnotation = get a LocalDiscoveryAnnotation) as Hloc by (by apply get_insert_ne).
  pose proof (remoteDiscoveryContains_spec (get a RemoteDiscoveryAnnotation) _ (target_not_empty n)) as Hrc.
  fold (members a) in Hrc. rewrite bool_decide_true in Hrc by done.
  assert (∀ w', runs (if bool_decide (get a' RemoteDiscoveryAnnotation = "" ∧ get a' LocalDiscoveryAnnotation = "")
      then r ← svcDelete ns (federatedServiceName n);
           if isFailure r then fail_as true else deleteLinkFederatedStatus rcsw n ns
      else r ← svcUpdate ns s'; match r with inr _ => mret () | inl _ => fail_as true end) w1 () w' →
    runs (handleFederatedServiceLeave rcsw n ns) w () w') as Hrun.
  { intros w' Hr. unfold handleFederatedServiceLeave. eapply runs_bind; [exact Hl|]. cbv zeta.
    eapply runs_bind; [by apply runs_found|]. simpl. rewrite Hcache.
    eapply runs_bind; [by apply (runs_getSvc w0 p s)|]. rewrite !(bool_decide_false (TargetClusterName _ = "")) by done.
    rewrite Ha. simpl. rewrite Hrc. simpl. eapply runs_bind; [apply runs_modify|]. exact Hr. }
  clear Hl. assert (bool_decide (get a' RemoteDiscoveryAnnotation = "" ∧ get a' LocalDiscoveryAnnotation = "")
    = bool_decide (rest = [] ∧ get a LocalDiscoveryAnnotation = "")) as Hb
    by (apply bool_decide_ext; rewrite Hempty, Hloc; done).
  rewrite Hb in Hrun. clear Hb. case_bool_decide as Hd.
  - destruct (runs_onLinkStatus rcsw (λ st, mkLinkStatus (MirrorServices st)
      (deleteServiceStatus n ns (FederatedServices st))) (set_lc_svcs (delete (fedKey n ns) (lc_svcs w1)) w1) Hf) as [l' Hl'].
    eexists. split; [apply Hrun|].
    + eapply runs_bind; [by apply (runs_call _ w1)|]. simpl. rewrite bool_decide_true by eauto. exact Hl'.
    + simpl. apply lookup_delete_eq.
  - eexists. split; [apply Hrun|].
    + assert (svc_Namespace s' = ns) as Hns by (by injection Hk). rewrite <-Hns at 1.
      eapply runs_bind; [apply (runs_svcUpdate w1 s' s); [done|]|apply runs_ret].
      simpl. change (svc_key s') with (svc_key s). by rewrite Hk.
    + exists s', a'. split_and!; [|done..]. split_and!; [simpl; apply lookup_insert_eq| |done|done].
      simpl. rewrite <-Hk. apply lookup_insert_eq.
Qed.

(** ** The properties of membership *)
Lemma processed n ev w w' :
  runs (processNextEvent LookupIP LabelSelectorAsSelector assignIP rcsw ev) w () w' →
  process n ev w = (Ret None, w').
Proof. unfold runs, processEvent. by intros ->. Qed.

Lemma filter_app_new (l : list string) t : t ∉ l → filter (.≠ t) (l ++ [t]) = l.
Proof.
  intros Ht. rewrite filter_app, filter_cons_False, filter_nil, app_nil_r by (by intros Hn).
  induction l as [|x l IH]; [done|]. apply not_elem_of_cons in Ht as [Hx Ht].
  rewrite filter_cons_True by done. by rewrite IH.
Qed.

(** joining and leaving a federated service.  A service that is not a member and joins
    becomes the last member, in the API server and in the object the events carry, and the
    other members stay; joining again changes nothing.  When it leaves, the members are
    those before it joined, and if there were none and no local service is federated, the
    federated service is deleted. *)
Theorem federated_join_leave r w p s a :
  faults w = [] → svc_ClusterIP r ≠ ClusterIPNone →
  cache_svcs w !! fedKey (svc_Name r) (svc_Namespace r) = Some p →
  holds w p (fedKey (svc_Name r) (svc_Namespace r)) s a →
  plain_members (members a) → strings.Contains (remoteTarget rcsw (svc_Name r)) "," = false →
  remoteTarget rcsw (svc_Name r) ∉ members a →
  let join := RemoteServiceJoinsFederatedService p r in
  let leave := RemoteServiceLeavesFederatedService (svc_Name r) (svc_Namespace r) in
  let k := fedKey (svc_Name r) (svc_Namespace r) in
  ∃ w1 s1 a1, process 0 join w = (Ret None, w1)
    ∧ holds w1 p k s1 a1 ∧ members a1 = members a ++ [remoteTarget rcsw (svc_Name r)]
    ∧ svc_Labels s1 = svc_Labels s ∧ svc_Ports s1 = svc_Ports s
    ∧ (∃ w1', process 0 join w1 = (Ret None, w1') ∧ lc_svcs w1' = lc_svcs w1)
    ∧ ∃ w2, process 0 leave w1 = (Ret None, w2)
        ∧ if bool_decide (members a = [] ∧ get a LocalDiscoveryAnnotation = "")
          then lc_svcs w2 !! k = None
          else ∃ s2 a2, holds w2 p k s2 a2 ∧ members a2 = members a.
Proof.
  intros Hf Hip Hcache Hh Hpl Hc Hni join leave k.
  destruct (runs_join r w p s a Hf Hip Hh Hpl Hc) as (s1 & a1 & w1 & Hr1 & Hh1 & Hf1 & Hl1 & Hp1 & Hc1 & Hloc & Hm1).
  rewrite bool_decide_false in Hm1 by done.
  assert (plain_members (members a1)) as Hpl1.
  { rewrite Hm1. apply Forall_app_2; [done|]. apply Forall_singleton. split; [apply target_not_empty|done]. }
  assert (remoteTarget rcsw (svc_Name r) ∈ members a1) as Hin1 by (rewrite Hm1; set_solver).
  exists w1, s1, a1. split_and!; [by apply processed|done|done|done|done| |].
  - exists w1. split; [|done]. apply processed. simpl. unfold handleFederatedServiceJoin. cbv zeta.
    destruct Hh1 as (Hp' & _ & _ & Ha1). eapply runs_bind; [by apply runs_getSvc|].
    rewrite bool_decide_false, bool_decide_false by done. rewrite Ha1. simpl.
    rewrite remoteDiscoveryContains_spec by apply target_not_empty. fold (members a1).
    rewrite bool_decide_true by done. apply runs_ret.
  - destruct (runs_leave (svc_Name r) (svc_Namespace r) w1 p s1 a1) as (w2 & Hr2 & Hres); [done|by rewrite Hc1|done..|].
    exists w2. split; [by apply processed|]. rewrite Hm1, filter_app_new, Hloc in Hres by done.
    case_bool_decide; [done|]. destruct Hres as (s2 & a2 & Hh2 & Hm2 & _). eauto.
Qed.

(** a join whose write fails once is lost.  The handler modifies the annotations of the
    cached object before it calls the API server; when that call fails, the event is queued
    again, but the second run finds the member in the cached object and returns without a
    write, so the API server never learns of the member. *)
Theorem failed_join_lost r w p s a e :
  svc_ClusterIP r ≠ ClusterIPNone →
  holds w p (fedKey (svc_Name r) (svc_Namespace r)) s a →
  plain_members (members a) → strings.Contains (remoteTarget rcsw (svc_Name r)) "," = false →
  remoteTarget rcsw (svc_Name r) ∉ members a →
  faults w = [Some (mkFault e false)] → shutdown w = false → (0 < requeueLimit rcsw)%nat →
  let join := RemoteServiceJoinsFederatedService p r in
  ∃ w1 w2, process 0 join w = (Ret (Some (1%nat, join)), w1)
    ∧ process 1 join w1 = (Ret None, w2)
    ∧ lc_svcs w2 = lc_svcs w ∧ queue w2 = queue w.
Proof.
  intros Hip (Hp & Hs & Hk & Ha) Hpl Hc Hni Hf Hsd Hlim join.
  set (a' := <[RemoteDiscoveryAnnotation :=
    if bool_decide (get a RemoteDiscoveryAnnotation = "") then remoteTarget rcsw (svc_Name r)
    else get a RemoteDiscoveryAnnotation +:+ "," +:+ remoteTarget rcsw (svc_Name r)]> a).
  set (s' := set_svc_Annotations (Some a') s).
  set (w' := set_faults [] (set_svc_heap (<[p := s']> (svc_heap w)) w)).
  assert (faults w' = []) as Hf' by done.
  destruct (runs_onLinkStatus rcsw (λ st, mkLinkStatus (MirrorServices st)
    (updateServiceStatus (svc_Name r) (svc_Namespace r)
       (mirrorStatusCondition false reasonError "Failed to update federated service" None)
       (FederatedServices st))) w' Hf') as [l Hl].
  set (w1 := set_link_status l w') in *. exists w1, w1.
  assert (members a' = members a ++ [remoteTarget rcsw (svc_Name r)]) as Hm'
    by (by apply members_append; [|apply target_not_empty|]).
  split_and!; [| |done|done].
  - unfold processEvent. assert (processNextEvent LookupIP LabelSelectorAsSelector assignIP rcsw join w = (Fail true, w1)) as ->.
    { simpl. unfold handleFederatedServiceJoin. cbv zeta. unfold mbind at 1, M_bind at 1.
      rewrite (runs_getSvc w p s Hp). rewrite bool_decide_false, bool_decide_false by done. rewrite Ha. simpl.
      rewrite remoteDiscoveryContains_spec by apply target_not_empty. fold (members a).
      rewrite bool_decide_false by done. unfold mbind, M_bind, putSvc, modify. unfold svcUpdate at 1, call at 1.
      simpl faults. rewrite Hf. simpl. unfold runs in Hl. unfold updateLinkFederatedStatus.
      match goal with |- context [onLinkStatus rcsw _ ?x] => change x with w' end. by rewrite Hl. }
    simpl. rewrite bool_decide_true by done. by rewrite Hsd.
  - apply processed. simpl. unfold handleFederatedServiceJoin. cbv zeta.
    eapply runs_bind; [apply (runs_getSvc w1 p s'); simpl; apply lookup_insert_eq|].
    rewrite bool_decide_false, bool_decide_false by done. simpl.
    rewrite remoteDiscoveryContains_spec by apply target_not_empty. fold (members a').
    rewrite Hm', bool_decide_true by set_solver. apply runs_ret.
Qed.

(** * The status of the Link *)
(** The entries left when those of a service are removed: the last one stays. *)
Definition entries_left (n ns : string) (l : list ServiceStatus) : list ServiceStatus :=
  match filter (λ s, is_ref n ns s = false) l with [] => l | rest => rest end.

(** removing a service from the status of the Link.  The entries of the service are
    removed and the others kept in their order, except when none would be left: the patch
    leaves out an empty list, so the last entry is never removed. *)
Theorem status_deletion n ns w :
  faults w = [] →
  ∃ w', runs (deleteLinkMirrorStatus rcsw n ns) w () w'
    ∧ FederatedServices (link_status w') = FederatedServices (link_status w)
    ∧ MirrorServices (link_status w') = entries_left n ns (MirrorServices (link_status w)).
Proof.
  intros Hf. unfold deleteLinkMirrorStatus, onLinkStatus. rewrite bool_decide_false by done.
  eexists. split.
  - eapply runs_bind; [eapply runs_bind; [by apply runs_call|apply runs_ret]|].
    unfold patchLinkStatus. eapply runs_bind; [by apply (runs_call _ w Hf)|apply runs_ret].
  - simpl. split; [by case_match|done].
Qed.

(** * Events of the remote cluster *)
(** A service of the local cluster that the mirror did not write. *)
Definition not_a_mirror (m : Service) : Prop := ¬ ours rcsw m.

(** the deletion of an exported service deletes whatever has the name of its mirror.
    The update of a service looks for the labels of a mirror before it queues a removal;
    the deletion does not, so a service of the local cluster that is no mirror but has the
    name is deleted. *)
Theorem deletion_ignores_labels r m p w :
  faults w = [] → shutdown w = false → queue w = [] →
  isExported LabelSelectorAsSelector rcsw (svc_Labels r) = true →
  isFederatedServiceMember LabelSelectorAsSelector rcsw (svc_Labels r) = false →
  cache_svcs w !! mirror_key rcsw r = Some p → svc_heap w !! p = Some m →
  lc_svcs w !! mirror_key rcsw r = Some m → not_a_mirror m → svc_ClusterIP m ≠ ClusterIPNone →
  let unexported := RemoteServiceUnexported (svc_Name r) (svc_Namespace r) in
  ∃ w1 w2, process 0 (OnDeleteCalled r) w = (Ret None, w1) ∧ queue w1 = [unexported]
    ∧ process 0 unexported (set_queue [] w1) = (Ret None, w2)
    ∧ lc_svcs w2 !! mirror_key rcsw r = None.
Proof.
  intros Hf Hsd Hq Hx Hn Hc Hp Hm _ Hip unexported.
  set (w1 := set_queue [unexported] w).
  destruct (runs_unexported rcsw r m p (set_queue [] w1)) as (w2 & Hr & _ & Hm2 & _); [done..|by eauto|].
  exists w1, w2. split_and!; [|done|by apply processed|done].
  apply processed. simpl. unfold handleOnDelete. rewrite Hx, Hn. simpl.
  eapply runs_bind; [apply runs_modify|]. rewrite Hsd, Hq. apply runs_ret.
Qed.

(** a service that is both exported and a member of a federated service.  When it has no
    mirror yet, only the creation of the mirror is queued: the service joins the federated
    service when it is looked at the next time, not now. *)
Theorem exported_member_waits r w :
  faults w = [] → shutdown w = false → queue w = [] →
  isExported LabelSelectorAsSelector rcsw (svc_Labels r) = true →
  isFederatedServiceMember LabelSelectorAsSelector rcsw (svc_Labels r) = true →
  cache_svcs w !! mirror_key rcsw r = None →
  ∃ w1, process 0 (OnAddCalled r) w = (Ret None, w1) ∧ queue w1 = [RemoteServiceExported r]
    ∧ lc_svcs w1 = lc_svcs w.
Proof.
  intros Hf Hsd Hq Hx Hn Hc. exists (set_queue [RemoteServiceExported r] w). split_and!; [|done|done].
  apply processed. simpl. unfold createOrUpdateService, createOrUpdateMirror. cbv zeta. rewrite Hx. simpl orb. cbv iota.
  eapply (runs_bind _ _ w false (set_queue [RemoteServiceExported r] w)); [|apply runs_ret].
  eapply runs_bind; [by apply runs_found|]. cbv beta. fold (mirror_key rcsw r). rewrite Hc.
  eapply runs_bind; [apply runs_modify|]. rewrite Hsd, Hq. apply runs_ret.
Qed.

(** * Garbage collection *)
(** The service of the remote cluster that a mirror stands for, if it still exists. *)
Definition original (w : World) (s : Service) : option Service :=
  rem_svcs w !! (svc_Namespace s, originalResourceName rcsw
    (default (svc_Name s) (svc_Labels s !! MirroredHeadlessSvcNameLabel))).

Definition orphan (w : World) (s : Service) : Prop :=
  clusterLabels rcsw ⊆ svc_Labels s ∧ original w s = None.
#[local] Instance orphan_dec w s : Decision (orphan w s).
Proof. unfold orphan. apply _. Defined.

Lemma runs_cleanupOrphanedService w s :
  faults w = [] → is_Some (lc_svcs w !! svc_key s) →
  runs (cleanupOrphanedService rcsw s) w false
    (if decide (original w s = None) then set_lc_svcs (delete (svc_key s) (lc_svcs w)) w else w).
Proof.
  intros Hf Hs. unfold cleanupOrphanedService. cbv zeta. eapply runs_bind; [by apply runs_found|]. cbv beta.
  fold (original w s). destruct (original w s) eqn:Ho; case_decide; try done.
  eapply runs_bind; [by apply runs_call|]. cbv beta. change (svc_Namespace s, svc_Name s) with (svc_key s).
  rewrite bool_decide_true by done. apply runs_ret.
Qed.

Lemma runs_gc_loop l w :
  faults w = [] → NoDup (svc_key <$> l) → Forall (λ s, is_Some (lc_svcs w !! svc_key s)) l →
  ∃ w', runs (forErrors l (cleanupOrphanedService rcsw)) w false w' ∧ faults w' = [] ∧ queue w' = queue w
    ∧ lc_eps w' = lc_eps w
    ∧ (∀ k, (∃ s, s ∈ l ∧ svc_key s = k ∧ original w s = None) → lc_svcs w' !! k = None)
    ∧ (∀ k, ¬ (∃ s, s ∈ l ∧ svc_key s = k ∧ original w s = None) → lc_svcs w' !! k = lc_svcs w !! k).
Proof.
  revert w. induction l as [|s l IH]; intros w Hf Hnd Hl.
  { exists w. split_and!; try done. intros k (s & Hs & _). by apply not_elem_of_nil in Hs. }
  rewrite fmap_cons in Hnd. apply NoDup_cons in Hnd as [Hni Hnd]. apply Forall_cons in Hl as [Hs Hl].
  pose proof (runs_cleanupOrphanedService w s Hf Hs) as Hr.
  set (w1 := if decide (original w s = None) then set_lc_svcs (delete (svc_key s) (lc_svcs w)) w else w) in *.
  assert (∀ s', original w1 s' = original w s') as Ho1 by (intros; unfold w1; by case_decide).
  assert (∀ k, k ≠ svc_key s → lc_svcs w1 !! k = lc_svcs w !! k) as Hk1
    by (intros k Hk; unfold w1; case_decide; [simpl; by rewrite lookup_delete_ne|done]).
  assert (lc_svcs w1 !! svc_key s = if decide (original w s = None) then None else lc_svcs w !! svc_key s) as Hs1
    by (unfold w1; case_decide; [simpl; apply lookup_delete_eq|done]).
  destruct (IH w1) as (w2 & Hr2 & Hf2 & Hq2 & He2 & Hgone & Hkept); [unfold w1; by case_decide|done| |].
  { apply Forall_forall. intros s' Hs'. rewrite Hk1; [rewrite Forall_forall in Hl; by apply Hl|].
    intros Heq. apply Hni. rewrite <-Heq. by apply list_elem_of_fmap_2. }
  exists w2. split_and!.
  - simpl. eapply runs_bind; [exact Hr|]. eapply runs_bind; [exact Hr2|]. apply runs_ret.
  - done.
  - rewrite Hq2. unfold w1. by case_decide.
  - rewrite He2. unfold w1. by case_decide.
  - intros k (s' & [->|Hs']%elem_of_cons & <- & Ho).
    + rewrite Hkept; [by rewrite Hs1, decide_True|]. intros (s2 & Hs2 & Heq & _). apply Hni. rewrite <-Heq.
      by apply list_elem_of_fmap_2.
    + apply Hgone. exists s'. by rewrite Ho1.
  - intros k Hk. rewrite Hkept.
    + destruct (decide (k = svc_key s)) as [->|]; [|by apply Hk1]. rewrite Hs1. case_decide; [|done].
      destruct Hk. exists s. split_and!; [constructor|done|done].
    + intros (s' & Hs' & <- & Ho). apply Hk. exists s'. rewrite Ho1 in Ho. split_and!; [by right|done|done].
Qed.

(** Every object of the local cluster is stored under its own key. *)
Definition well_keyed (w : World) : Prop := ∀ k s, lc_svcs w !! k = Some s → svc_key s = k.

Lemma elem_of_cached_services w s : synced w → well_keyed w →
  s ∈ cached (cache_svcs w) (svc_heap w) ↔ lc_svcs w !! svc_key s = Some s.
Proof.
  intros (Hs & _) Hk. unfold cached. rewrite list_elem_of_omap. split.
  - intros ([k p] & Hin & Hp). simpl in Hp. apply elem_of_range in Hin.
    specialize (Hs k). rewrite Hin in Hs. simpl in Hs. rewrite Hp in Hs. symmetry in Hs. by rewrite (Hk k s Hs).
  - intros Hl. pose proof (Hs (svc_key s)) as Hc. rewrite Hl in Hc.
    destruct (cache_svcs w !! svc_key s) as [p|] eqn:Hp; [|done]. exists (svc_key s, p). by rewrite elem_of_range.
Qed.

Lemma NoDup_cached w : synced w → well_keyed w → NoDup (svc_key <$> cached (cache_svcs w) (svc_heap w)).
Proof.
  intros (Hs & _) Hk. unfold cached. pose proof (NoDup_range_keys (cache_svcs w)) as Hnd.
  assert (∀ e s, e ∈ range (cache_svcs w) → svc_heap w !! e.2 = Some s → svc_key s = e.1) as He.
  { intros [k p] s Hin%elem_of_range Hp. simpl in *. apply Hk. specialize (Hs k). rewrite Hin in Hs. simpl in Hs.
    by rewrite Hp in Hs. }
  induction (range (cache_svcs w)) as [|e l IH]; [constructor|]. rewrite fmap_cons in Hnd.
  apply NoDup_cons in Hnd as [Hni Hnd].
  assert (NoDup (svc_key <$> omap (λ e, svc_heap w !! e.2) l)) as IH' by (apply IH; [done|]; intros e' s' ?; apply He; by right).
  simpl. destruct (svc_heap w !! e.2) as [s|] eqn:Hp; [|done]. rewrite fmap_cons. constructor; [|done].
  rewrite (He e s) by (done || constructor). intros (s' & Heq & (e' & He' & Hs')%list_elem_of_omap)%list_elem_of_fmap.
  apply Hni. rewrite Heq, (He e' s') by (done || by right). by apply list_elem_of_fmap_2.
Qed.

(** the garbage collection of mirrors.  Run on a local cluster whose caches are up to
    date, it deletes every service that carries the labels of a mirror of this cluster and
    whose original is gone, and nothing else: every other service and all endpoints stay. *)
Theorem orphans_collected w :
  synced w → faults w = [] → well_keyed w →
  ∃ w', process 0 OrphanedServicesGcTriggered w = (Ret None, w')
    ∧ lc_eps w' = lc_eps w
    ∧ ∀ k, lc_svcs w' !! k
           = match lc_svcs w !! k with
             | Some s => if decide (orphan w s) then None else Some s
             | None => None
             end.
Proof.
  intros Hs Hf Hk.
  set (l := filter (λ s, matches (clusterLabels rcsw) (svc_Labels s) = true) (cached (cache_svcs w) (svc_heap w))).
  assert (∀ s, s ∈ l ↔ lc_svcs w !! svc_key s = Some s ∧ clusterLabels rcsw ⊆ svc_Labels s) as Hl.
  { intros s. unfold l. rewrite list_elem_of_filter, elem_of_cached_services by done. unfold matches.
    rewrite bool_decide_eq_true. tauto. }
  destruct (runs_gc_loop l w) as (w' & Hr & _ & _ & He & Hgone & Hkept); [done| | |].
  { by apply NoDup_fmap_filter, NoDup_cached. }
  { apply Forall_forall. intros s [Hs' _]%Hl. eauto. }
  exists w'. split_and!; [|done|].
  - apply processed. simpl. unfold cleanupOrphanedServices.
    eapply runs_bind; [by apply runs_call|]. simpl. eapply runs_bind; [apply runs_ret|].
    eapply runs_bind; [exact Hr|]. apply runs_ret.
  - intros k. destruct (lc_svcs w !! k) as [s|] eqn:Hsk; last first.
    { rewrite Hkept; [done|]. intros (s & [Hs' _]%Hl & <- & _). congruence. }
    pose proof (Hk k s Hsk) as Hkey. case_decide as Ho.
    + apply Hgone. exists s. destruct Ho as [Hlab Ho]. rewrite Hl, Hkey. done.
    + rewrite Hkept; [done|]. intros (s' & [Hs' Hlab]%Hl & Heq & Hno). rewrite Heq, Hsk in Hs'.
      injection Hs' as <-. by destruct Ho.
Qed.
End props.

(** ** Examples *)
(** A world in which the local cluster has one service, and the cache holds it. *)
Definition ex_one (k : key) (s : Service) (l : list (option fault)) : World :=
  mkWorld {[k := s]} ∅ {["ns" := ∅]} {[k := 1%positive]} {[1%positive := s]} ∅ ∅ {["ns"]} ∅ ∅
    (mkLinkStatus [] []) [] false l.
Definition ex_federated : Service :=
  mkService "web-federated" "ns" {[MirroredResourceLabel := "true"]}
    (Some {[RemoteDiscoveryAnnotation := "web@west"]}) "9" "10.2.0.7" [].
Abbreviation ex_process := (processEvent (H := range_in_order) ex_LookupIP ex_selector ex_assignIP ex_watcher).
Abbreviation ex_fed_key := (("ns", "web-federated") : key).

Lemma ex_federated_holds l :
  holds (ex_one ex_fed_key ex_federated l) 1%positive ex_fed_key ex_federated
    {[RemoteDiscoveryAnnotation := "web@west"]}.
Proof. done. Qed.

Lemma ex_plain : plain_members (members {[RemoteDiscoveryAnnotation := "web@west"]}).
Proof.
  replace (members {[RemoteDiscoveryAnnotation := "web@west"]}) with ["web@west"] by (vm_compute; reflexivity).
  by apply Forall_singleton.
Qed.

Lemma ex_not_member : remoteTarget ex_watcher "web" ∉ members {[RemoteDiscoveryAnnotation := "web@west"]}.
Proof.
  replace (members {[RemoteDiscoveryAnnotation := "web@west"]}) with ["web@west"] by (vm_compute; reflexivity).
  by intros ?%list_elem_of_singleton.
Qed.

Lemma federated_join_leave_witness :
  ∃ w1 s1 a1, ex_process 0 (RemoteServiceJoinsFederatedService 1%positive (ex_remote "web" "federate" "7"))
      (ex_one ex_fed_key ex_federated []) = (Ret None, w1)
    ∧ holds w1 1%positive ex_fed_key s1 a1 ∧ members a1 = ["web@west"; "web@east"].
Proof.
  destruct (federated_join_leave (H := range_in_order) ex_LookupIP ex_selector ex_assignIP ex_watcher
    ltac:(done) (ex_remote "web" "federate" "7") (ex_one ex_fed_key ex_federated []) 1%positive ex_federated
    {[RemoteDiscoveryAnnotation := "web@west"]} eq_refl ltac:(done) eq_refl (ex_federated_holds [])
    ex_plain eq_refl ex_not_member) as (w1 & s1 & a1 & Hp & Hh & Hm & _).
  exists w1, s1, a1. split; [exact Hp|]. split; [exact Hh|]. rewrite Hm. vm_compute. reflexivity.
Defined.

Lemma failed_join_lost_witness :
  let join := RemoteServiceJoinsFederatedService 1%positive (ex_remote "web" "federate" "7") in
  let w := ex_one ex_fed_key ex_federated [Some (mkFault OtherError false)] in
  ∃ w1 w2, ex_process 0 join w = (Ret (Some (1%nat, join)), w1)
    ∧ ex_process 1 join w1 = (Ret None, w2) ∧ lc_svcs w2 !! ex_fed_key = Some ex_federated.
Proof.
  intros join w.
  destruct (failed_join_lost (H := range_in_order) ex_LookupIP ex_selector ex_assignIP ex_watcher
    ltac:(done) (ex_remote "web" "federate" "7") w 1%positive ex_federated
    {[RemoteDiscoveryAnnotation := "web@west"]} OtherError ltac:(done) (ex_federated_holds _)
    ex_plain eq_refl ex_not_member eq_refl eq_refl ltac:(simpl; lia)) as (w1 & w2 & H1 & H2 & H3 & _).
  exists w1, w2. split; [exact H1|]. split; [exact H2|]. rewrite H3. vm_compute. reflexivity.
Defined.

Definition ex_status (name : string) : ServiceStatus := mkServiceStatus [] "" (mkObjectRef "" "" name "ns").

Lemma status_deletion_witness :
  let w1 := set_link_status (mkLinkStatus [ex_status "web"; ex_status "db"] []) ex_calm in
  let w2 := set_link_status (mkLinkStatus [ex_status "web"] []) ex_calm in
  (∃ w', runs (deleteLinkMirrorStatus ex_watcher "web" "ns") w1 () w'
     ∧ MirrorServices (link_status w') = [ex_status "db"])
  ∧ (∃ w', runs (deleteLinkMirrorStatus ex_watcher "web" "ns") w2 () w'
     ∧ MirrorServices (link_status w') = [ex_status "web"]).
Proof.
  intros w1 w2. split.
  - destruct (status_deletion ex_watcher ltac:(done) "web" "ns" w1 eq_refl) as (w' & Hr & _ & Hm).
    exists w'. split; [exact Hr|]. rewrite Hm. vm_compute. reflexivity.
  - destruct (status_deletion ex_watcher ltac:(done) "web" "ns" w2 eq_refl) as (w' & Hr & _ & Hm).
    exists w'. split; [exact Hr|]. rewrite Hm. vm_compute. reflexivity.
Defined.

Lemma deletion_ignores_labels_witness :
  let local := mkService "web-east" "ns" ∅ None "1" "10.2.0.1" [] in
  ∃ w1 w2, ex_process 0 (OnDeleteCalled (ex_remote "web" "export" "7")) (ex_one ("ns", "web-east") local [])
      = (Ret None, w1)
    ∧ queue w1 = [RemoteServiceUnexported "web" "ns"]
    ∧ ex_process 0 (RemoteServiceUnexported "web" "ns") (set_queue [] w1) = (Ret None, w2)
    ∧ lc_svcs w2 !! ("ns", "web-east") = None.
Proof.
  intros local.
  refine (deletion_ignores_labels (H := range_in_order) ex_LookupIP ex_selector ex_assignIP ex_watcher
    (ex_remote "web" "export" "7") local 1%positive (ex_one ("ns", "web-east") local []) _ _ _ _ _ _ _ _ _ _);
    try (vm_compute; reflexivity); [|done].
  intros [[v Hv] _]. vm_compute in Hv. discriminate Hv.
Defined.

Lemma exported_member_waits_witness :
  let both := mkService "web" "ns" (<["export" := "true"]> {["federate" := "true"]}) None "7" "10.1.0.1" [] in
  ∃ w1, ex_process 0 (OnAddCalled both) (ex_world ∅) = (Ret None, w1)
    ∧ queue w1 = [RemoteServiceExported both].
Proof.
  intros both.
  destruct (exported_member_waits (H := range_in_order) ex_LookupIP ex_selector ex_assignIP ex_watcher
    both (ex_world ∅)) as (w1 & Hp & Hq & _); [vm_compute; reflexivity..|].
  exists w1. split; [exact Hp|exact Hq].
Defined.

Lemma orphans_collected_witness :
  ∃ w', ex_process 0 OrphanedServicesGcTriggered ex_calm = (Ret None, w')
    ∧ lc_svcs w' !! ("ns", "db-east") = None.
Proof.
  destruct (orphans_collected (H := range_in_order) ex_LookupIP ex_selector ex_assignIP ex_watcher ex_calm)
    as (w' & Hp & _ & Hk).
  - apply ex_calm_ok.
  - reflexivity.
  - intros k s Hs. change (({[("ns", "db-east") := ex_old_mirror]} : gmap key Service) !! k = Some s) in Hs.
    by apply lookup_singleton_Some in Hs as [<- <-].
  - exists w'. split; [exact Hp|]. rewrite Hk. vm_compute. reflexivity.
Defined.
