(* ===== verification/Probe.v ===== *)
(** The probe of the gateway ([multicluster/service-mirror/probe_worker.go] and
    [jittered_ticker.go]) and the part of the cluster watcher that listens to it
    ([RemoteClusterServiceWatcher.Start] in [cluster_watcher.go]).

    The worker, the channel [Liveness] with its ten places and the watcher are one system
    whose steps interleave: a tick with its probe, a send that waits for a place, a
    receive, and stopping either side.  Parameters: [time.ParseDuration] and the outcome of
    the HTTP request. *)
From S2P Require Import Prelude GoStd K8s Mirror ServiceMirror.

#[local] Open Scope string_scope.
#[local] Open Scope list_scope.
#[local] Open Scope Z_scope.
#[local] Open Scope go_scope.

(** * The ticker *)
Record Ticker := mkTicker { MinDuration : Z; MaxJitter : Z }.

Definition NewTicker (minDuration maxJitter : Z) : res Ticker :=
  if minDuration <? 0 then Panic else
  if maxJitter <? 0 then Panic else Ok (mkTicker minDuration maxJitter).

(** [rand.Int63n(n)] with the number it draws: it panics unless [n] is positive. *)
Definition Int63n (n draw : Z) : res Z := if n <=? 0 then Panic else Ok (draw mod n).

Definition calculateDelay (t : Ticker) (draw : Z) : res Z :=
  let* jitter := Int63n (MaxJitter t) draw in Ok (MinDuration t + jitter).

(** * The worker *)
Record ProbeWorker := mkProbeWorker {
  localGatewayName : string; alive : bool; Liveness : list bool; probeSpec : option ProbeSpec;
  stopCh : bool  (* whether it is closed *) }.

Definition NewProbeWorker (name : string) (spec : option ProbeSpec) : ProbeWorker :=
  mkProbeWorker name false [] spec false.

Definition UpdateProbeSpec (spec : option ProbeSpec) (pw : ProbeWorker) : ProbeWorker :=
  mkProbeWorker (localGatewayName pw) (alive pw) (Liveness pw) spec (stopCh pw).
Definition set_alive (b : bool) (pw : ProbeWorker) : ProbeWorker :=
  mkProbeWorker (localGatewayName pw) b (Liveness pw) (probeSpec pw) (stopCh pw).
Definition set_Liveness (l : list bool) (pw : ProbeWorker) : ProbeWorker :=
  mkProbeWorker (localGatewayName pw) (alive pw) l (probeSpec pw) (stopCh pw).

(** Closing a closed channel panics. *)
Definition ProbeWorker_Stop (pw : ProbeWorker) : res ProbeWorker :=
  if stopCh pw then Panic
  else Ok (mkProbeWorker (localGatewayName pw) (alive pw) (Liveness pw) (probeSpec pw) true).

(** The places of the channel [Liveness]. *)
Definition liveness_buffer : nat := 10.

Section worker.
Context (ParseDuration : string → res Z).

(** Where the goroutine of [run] is: at the [select], at a send, or finished. *)
Inductive run_at := Selecting (failures : Z) | Sending (failures : Z) (b : bool) | Finished.

(** The part of [run] before its loop: the ticker and the threshold, or nothing when it
    returns early. *)
Definition run_setup (pw : ProbeWorker) : res (option (Ticker * Z)) :=
  match probeSpec pw with
  | None => Ok None
  | Some spec =>
      match ParseDuration (pr_Period spec) with
      | Err _ => Ok None
      | Panic => Panic
      | Ok probeTickerPeriod =>
          let* probeTicker := NewTicker probeTickerPeriod (Z.quot probeTickerPeriod 10) in
          match strconv.ParseUint (pr_FailureThreshold spec) 32 with
          | None => Ok None
          | Some failureThreshold => Ok (Some (probeTicker, failureThreshold))
          end
      end
  end.

(** [client.Do]: the status code of the response, if there is one. *)
Definition doProbe (NewRequest : string → bool) (Do : Z → string → option Z) (pw : ProbeWorker) : res () :=
  match probeSpec pw with
  | None => Panic
  | Some spec =>
      let* timeout := ParseDuration (pr_Timeout spec) in
      let url := "http://" +:+ net.JoinHostPort (localGatewayName pw) (pr_Port spec) +:+ pr_Path spec in
      if negb (NewRequest url) then Err "could not create a GET request to gateway" else
      match Do timeout url with
      | None => Err "problem connecting with gateway"
      | Some code => if bool_decide (code ≠ 200) then Err "gateway returned unexpected status" else Ok ()
      end
  end.

(** What a tick does after its probe. *)
Definition on_probe (failureThreshold : Z) (ok : bool) (failures : Z) (pw : ProbeWorker) : run_at * ProbeWorker :=
  if ok then
    if alive pw then (Selecting 0, pw) else (Sending 0 true, set_alive true pw)
  else
    let failures := u64 (failures + 1) in
    if failures <? failureThreshold then (Selecting failures, pw) else
    if alive pw then (Sending failures false, set_alive false pw) else (Selecting failures, pw).
End worker.

(** * The worker and the watcher *)
Definition set_gatewayAlive (b : bool) (rcsw : RemoteClusterServiceWatcher) : RemoteClusterServiceWatcher :=
  mkWatcher (serviceMirrorNamespace rcsw) (link rcsw) (requeueLimit rcsw) b (headlessServicesEnabled rcsw)
    (namespaceCreationEnabled rcsw).

(** A message of the channel at the watcher. *)
Definition on_liveness (b : bool) (rcsw : RemoteClusterServiceWatcher) (w : World)
    : RemoteClusterServiceWatcher * World :=
  (set_gatewayAlive b rcsw, (enqueue RepairEndpoints w).2).

Record system := mkSystem {
  sy_worker : ProbeWorker; sy_run : run_at; sy_watcher : RemoteClusterServiceWatcher; sy_world : World;
  sy_stopper : bool  (* whether the watcher was stopped *) }.

Inductive label := Probed (ok : bool) | Sent | Received (b : bool) | Silent.

(** The steps.  A [select] with several cases ready takes any of them; the probe of a tick
    has some outcome.  Only a watcher of a cluster with a gateway listens. *)
Inductive probe_step (failureThreshold : Z) : system → label → system → Prop :=
  | step_tick ok failures pw pw' run' rcsw w stopper :
      on_probe failureThreshold ok failures pw = (run', pw') →
      probe_step failureThreshold (mkSystem pw (Selecting failures) rcsw w stopper) (Probed ok)
        (mkSystem pw' run' rcsw w stopper)
  | step_send failures b pw rcsw w stopper :
      (length (Liveness pw) < liveness_buffer)%nat →
      probe_step failureThreshold (mkSystem pw (Sending failures b) rcsw w stopper) Sent
        (mkSystem (set_Liveness (Liveness pw ++ [b]) pw) (Selecting failures) rcsw w stopper)
  | step_exit failures pw rcsw w stopper :
      stopCh pw = true →
      probe_step failureThreshold (mkSystem pw (Selecting failures) rcsw w stopper) Silent
        (mkSystem pw Finished rcsw w stopper)
  | step_receive b l pw run rcsw w rcsw' w' :
      Liveness pw = b :: l → GatewayAddress (link rcsw) ≠ "" → on_liveness b rcsw w = (rcsw', w') →
      probe_step failureThreshold (mkSystem pw run rcsw w false) (Received b)
        (mkSystem (set_Liveness l pw) run rcsw' w' false)
  | step_update spec pw run rcsw w stopper :
      probe_step failureThreshold (mkSystem pw run rcsw w stopper) Silent
        (mkSystem (UpdateProbeSpec spec pw) run rcsw w stopper)
  | step_stop pw pw' run rcsw w stopper :
      ProbeWorker_Stop pw = Ok pw' →
      probe_step failureThreshold (mkSystem pw run rcsw w stopper) Silent (mkSystem pw' run rcsw w stopper)
  | step_watcher_stop pw run rcsw w :
      probe_step failureThreshold (mkSystem pw run rcsw w false) Silent (mkSystem pw run rcsw w true)
  | step_world pw run rcsw w w' stopper :  (* the handlers run *)
      probe_step failureThreshold (mkSystem pw run rcsw w stopper) Silent (mkSystem pw run rcsw w' stopper).

Inductive probe_run (failureThreshold : Z) (s0 : system) : list label → system → Prop :=
  | run_init : probe_run failureThreshold s0 [] s0
  | run_step tr s l s' : probe_run failureThreshold s0 tr s → probe_step failureThreshold s l s' →
      probe_run failureThreshold s0 (tr ++ [l]) s'.

Definition probe_init (name : string) (spec : option ProbeSpec) (rcsw : RemoteClusterServiceWatcher) (w : World)
    : system := mkSystem (NewProbeWorker name spec) (Selecting 0) rcsw w false.

(** * The specification *)
(** The outcomes of a run, the newest first, and what the watcher received, in order. *)
Definition outcomes (tr : list label) : list bool :=
  reverse (omap (λ l, match l with Probed ok => Some ok | _ => None end) tr).
Definition received (tr : list label) : list bool :=
  omap (λ l, match l with Received b => Some b | _ => None end) tr.

(** The failures since the last success. *)
Fixpoint failed (h : list bool) : Z :=
  match h with false :: h => 1 + failed h | _ => 0 end.

(** A gateway is healthy when a probe succeeded and fewer than the threshold failed since. *)
Definition healthy (threshold : Z) (h : list bool) : bool :=
  existsb id h && bool_decide (failed h = 0 ∨ failed h < threshold).

(** The changes of health, in order. *)
Fixpoint changes (threshold : Z) (h : list bool) : list bool :=
  match h with
  | [] => []
  | o :: h' => if eqb (healthy threshold h) (healthy threshold h') then changes threshold h'
               else changes threshold h' ++ [healthy threshold h]
  end.

Lemma failed_nonneg h : 0 ≤ failed h.
Proof. induction h as [|[] h IH]; simpl; lia. Qed.

Lemma healthy_success t h : healthy t (true :: h) = true.
Proof. apply andb_true_intro. split; [done|]. apply bool_decide_eq_true_2. by left. Qed.

Lemma healthy_failure t h : healthy t (false :: h) = healthy t h && bool_decide (failed h + 1 < t).
Proof.
  unfold healthy. change (existsb id (false :: h)) with (existsb id h).
  change (failed (false :: h)) with (1 + failed h). pose proof (failed_nonneg h).
  destruct (existsb id h); [|done]. rewrite !andb_true_l. rewrite <-bool_decide_and. apply bool_decide_ext. lia.
Qed.

(** The changes alternate and start with a change to healthy. *)
Lemma changes_alternate t h :
  (∀ i b, changes t h !! i = Some b → b = Nat.even i) ∧ healthy t h = Nat.odd (length (changes t h)).
Proof.
  induction h as [|o h [IHa IHl]]; [split; [by intros i b Hi|done]|]. simpl.
  destruct (eqb (healthy t (o :: h)) (healthy t h)) eqn:Heq.
  - apply eqb_prop in Heq. rewrite Heq. done.
  - apply eqb_false_iff in Heq. rewrite length_app. simpl. rewrite Nat.add_1_r, Nat.odd_succ, <-Nat.negb_odd, <-IHl.
    split.
    + intros i b [Hi|[Hi Hb]]%lookup_app_Some; [by apply IHa|]. apply list_lookup_singleton_Some in Hb as [Hz <-].
      assert (i = length (changes t h)) as -> by lia. rewrite <-Nat.negb_odd, <-IHl.
      by destruct (healthy t (o :: h)), (healthy t h).
    + by destruct (healthy t (o :: h)), (healthy t h).
Qed.

(** * The invariant *)
Definition pending (r : run_at) : list bool := match r with Sending _ b => [b] | _ => [] end.
Definition counter (r : run_at) : option Z :=
  match r with Selecting f | Sending f _ => Some f | Finished => None end.

Lemma u64_succ z : u64 (u64 z + 1) = u64 (z + 1).
Proof. unfold u64. by rewrite Zplus_mod_idemp_l. Qed.

Lemma changes_cons t o h :
  changes t (o :: h) = changes t h ++ (if eqb (healthy t (o :: h)) (healthy t h) then [] else [healthy t (o :: h)]).
Proof. simpl. case_match; [by rewrite app_nil_r|done]. Qed.

Lemma changes_last t h : last (changes t h) = if existsb id h then Some (healthy t h) else None.
Proof.
  induction h as [|o h IH]; [done|]. rewrite changes_cons. simpl existsb.
  assert (healthy t h = true → existsb id h = true) as Hex by (by intros [? _]%andb_true_iff).
  destruct (eqb (healthy t (o :: h)) (healthy t h)) eqn:Heq.
  - apply eqb_prop in Heq. rewrite app_nil_r, IH, Heq. destruct o; [|done]. simpl.
    rewrite healthy_success in Heq. by rewrite Hex.
  - rewrite last_snoc. destruct o; [done|]. simpl. rewrite healthy_failure in *.
    destruct (healthy t h); [|done]. by rewrite Hex.
Qed.
#[local] Arguments changes : simpl never.
#[local] Arguments failed : simpl never.

(** A tick keeps the state of the worker what the outcomes say. *)
Lemma on_probe_spec t ok h pw run' pw' :
  t < 2^64 → alive pw = healthy t h → on_probe t ok (u64 (failed h)) pw = (run', pw') →
  alive pw' = healthy t (ok :: h) ∧ Liveness pw' = Liveness pw ∧ counter run' = Some (u64 (failed (ok :: h)))
  ∧ changes t (ok :: h) = changes t h ++ pending run'.
Proof.
  intros Ht Ha Hp. pose proof (failed_nonneg h) as Hnn. rewrite changes_cons. unfold on_probe in Hp. destruct ok.
  { rewrite healthy_success. rewrite Ha in Hp. destruct (healthy t h); simplify_eq/=; done. }
  rewrite healthy_failure. rewrite u64_succ in Hp. cbv zeta in Hp.
  replace (u64 (failed (false :: h))) with (u64 (failed h + 1)) by (change (failed (false :: h)) with (1 + failed h); f_equal; lia).
  assert (healthy t h = true → (u64 (failed h + 1) <? t) = bool_decide (failed h + 1 < t)) as Hwrap.
  { unfold healthy. intros [_ Hf%bool_decide_eq_true_1]%andb_true_iff. unfold u64.
    destruct (decide (failed h + 1 < 2^64)); [rewrite Z.mod_small by lia; apply eq_iff_eq_true;
      rewrite bool_decide_eq_true; lia|lia]. }
  destruct (healthy t h) eqn:Hh; rewrite Ha in Hp.
  - rewrite Hwrap in Hp by done. simpl. case_bool_decide; simplify_eq/=; split_and!; try done; congruence.
  - simpl. destruct (_ <? _); simplify_eq/=; done.
Qed.

Record probe_inv (t : Z) (rcsw0 : RemoteClusterServiceWatcher) (tr : list label) (s : system) : Prop := {
  inv_alive : alive (sy_worker s) = healthy t (outcomes tr);
  inv_messages : received tr ++ Liveness (sy_worker s) ++ pending (sy_run s) = changes t (outcomes tr);
  inv_buffer : (length (Liveness (sy_worker s)) ≤ liveness_buffer)%nat;
  inv_counter : ∀ f, counter (sy_run s) = Some f → f = u64 (failed (outcomes tr));
  inv_watcher : sy_watcher s = set_gatewayAlive (default (gatewayAlive rcsw0) (last (received tr))) rcsw0 }.

Lemma outcomes_snoc tr l :
  outcomes (tr ++ [l]) = match l with Probed ok => [ok] | _ => [] end ++ outcomes tr.
Proof. unfold outcomes. rewrite omap_app, reverse_app. by destruct l. Qed.
Lemma received_snoc tr l : received (tr ++ [l]) = received tr ++ match l with Received b => [b] | _ => [] end.
Proof. unfold received. rewrite omap_app. by destruct l. Qed.

Lemma probe_inv_step t rcsw0 tr s l s' :
  t < 2^64 → probe_inv t rcsw0 tr s → probe_step t s l s' → probe_inv t rcsw0 (tr ++ [l]) s'.
Proof.
  intros Ht [Ha Hm Hb Hc Hw] Hstep. destruct Hstep as [ok f pw pw' run' rcsw w st Hp|f b pw rcsw w st Hlen|
    f pw rcsw w st Hst|b l pw run rcsw w rcsw' w' Hl Hg Ho|spec pw run rcsw w st|pw pw' run rcsw w st Hs| |];
    simpl in *; split; rewrite ?outcomes_snoc, ?received_snoc, ?app_nil_r; simpl; try done.
  all: try (rewrite (Hc f eq_refl) in Hp; destruct (on_probe_spec t ok (outcomes tr) pw run' pw' Ht Ha Hp)
    as (Ha' & Hl' & Hcn & Hch)); rewrite ?app_nil_r in Hm; try done.
  - rewrite Hch, Hl', <-Hm, <-app_assoc. done.
  - by rewrite Hl'.
  - intros f' Hf'. rewrite Hcn in Hf'. by injection Hf'.
  - rewrite length_app. simpl. lia.
  - rewrite <-Hm, Hl, <-!app_assoc. done.
  - rewrite Hl in Hb. simpl in Hb. lia.
  - unfold on_liveness in Ho. injection Ho as <- _. rewrite Hw, last_snoc. done.
  - unfold ProbeWorker_Stop in Hs. by destruct (stopCh pw); simplify_eq/=.
  - unfold ProbeWorker_Stop in Hs. by destruct (stopCh pw); simplify_eq/=.
  - unfold ProbeWorker_Stop in Hs. by destruct (stopCh pw); simplify_eq/=.
Qed.

Lemma probe_run_inv t rcsw0 s0 tr s :
  t < 2^64 → probe_inv t rcsw0 [] s0 → probe_run t s0 tr s → probe_inv t rcsw0 tr s.
Proof. intros Ht H0. induction 1 as [|tr s l s' _ IH Hstep]; [done|]. by eapply probe_inv_step. Qed.

Lemma probe_init_inv t name spec rcsw w : probe_inv t rcsw [] (probe_init name spec rcsw w).
Proof. split; try done; [simpl; lia| |by destruct rcsw]. by intros f [= <-]. Qed.

Lemma run_setup_threshold ParseDuration pw ticker t :
  run_setup ParseDuration pw = Ok (Some (ticker, t)) → 0 ≤ t < 2^32.
Proof.
  unfold run_setup. destruct (probeSpec pw) as [spec|]; [|done]. destruct (ParseDuration _) as [d|?|]; try done.
  destruct (NewTicker _ _); simpl; try done. unfold strconv.ParseUint.
  destruct (strconv.digits _) as [n|]; simpl; [|done]. case_bool_decide; [|done]. intros [= _ <-]. lia.
Qed.

(** C31: the probe of the gateway.  Whatever the order of ticks, sends, receives and
    updates: the messages sent to the cluster watcher alternate and start with healthy; the
    worker is alive exactly when a probe succeeded and fewer than the threshold failed
    since; the buffer never overflows; and once every message was received, the watcher
    treats the gateway as the last message says, or, when no probe ever succeeded, as alive
    as it started. *)
Theorem probe_liveness ParseDuration name spec ticker t rcsw w tr s :
  run_setup ParseDuration (NewProbeWorker name spec) = Ok (Some (ticker, t)) →
  probe_run t (probe_init name spec rcsw w) tr s →
  alive (sy_worker s) = healthy t (outcomes tr)
  ∧ (length (Liveness (sy_worker s)) ≤ liveness_buffer)%nat
  ∧ (∀ i b, (received tr ++ Liveness (sy_worker s)) !! i = Some b → b = Nat.even i)
  ∧ (Liveness (sy_worker s) = [] → pending (sy_run s) = [] →
     gatewayAlive (sy_watcher s)
     = if existsb id (outcomes tr) then healthy t (outcomes tr) else gatewayAlive rcsw).
Proof.
  intros Ht%run_setup_threshold Hrun. eapply probe_run_inv in Hrun; [|lia|apply probe_init_inv].
  destruct Hrun as [Ha Hm Hb Hc Hw]. destruct (changes_alternate t (outcomes tr)) as [Halt Hlast].
  split_and!; [done|done| |].
  - intros i b Hi. apply Halt. rewrite <-Hm, app_assoc. by apply lookup_app_l_Some.
  - intros Hl Hp. rewrite Hl, Hp in Hm. simpl in Hm. rewrite app_nil_r in Hm. rewrite Hw, Hm. simpl.
    rewrite changes_last. by destruct (existsb id (outcomes tr)).
Qed.

(** ** An example: a success, then as many failures as the threshold *)
Definition ex_probe_spec : ProbeSpec := mkProbeSpec "/ready" "4191" "3s" "1s" "2".
Definition ex_duration (s : string) : res Z :=
  if bool_decide (s = "3s") then Ok (3 * 10^9) else if bool_decide (s = "1s") then Ok (10^9) else Err "invalid".
Definition ex_gateway : RemoteClusterServiceWatcher :=
  mkWatcher "mc" (mkLinkSpec "east" "cluster.local" "gateway" "4143" "id" ex_probe_spec None None None) 3 true
    false false.
Definition ex_idle : World := mkWorld ∅ ∅ ∅ ∅ ∅ ∅ ∅ ∅ ∅ ∅ (mkLinkStatus [] []) [] false [].
Definition ex_trace : list label :=
  [Probed true; Sent; Received true; Probed false; Probed false; Sent; Received false].

Lemma ex_probe_run : ∃ s,
  probe_run 2 (probe_init "probe-gateway-east" (Some ex_probe_spec) ex_gateway ex_idle) ex_trace s
  ∧ Liveness (sy_worker s) = [] ∧ pending (sy_run s) = [].
Proof.
  eexists. split.
  - change ex_trace with ((((((([] ++ [Probed true]) ++ [Sent]) ++ [Received true]) ++ [Probed false])
      ++ [Probed false]) ++ [Sent]) ++ [Received false]).
    eapply run_step. eapply run_step. eapply run_step. eapply run_step. eapply run_step. eapply run_step.
    eapply run_step. apply run_init.
    all: first [by eapply step_tick | by eapply step_receive |
      eapply step_send; simpl; unfold liveness_buffer; lia].
  - done.
Qed.

Lemma probe_liveness_witness : ∃ s,
  probe_run 2 (probe_init "probe-gateway-east" (Some ex_probe_spec) ex_gateway ex_idle) ex_trace s
  ∧ alive (sy_worker s) = false ∧ gatewayAlive (sy_watcher s) = false.
Proof.
  destruct ex_probe_run as (s & Hrun & Hl & Hp). exists s.
  destruct (probe_liveness ex_duration "probe-gateway-east" (Some ex_probe_spec) (mkTicker (3 * 10^9) (3 * 10^8)) 2
    ex_gateway ex_idle ex_trace s) as (Ha & _ & _ & Hg); [vm_compute; reflexivity|exact Hrun|].
  split; [exact Hrun|]. split; [rewrite Ha; vm_compute; reflexivity|].
  rewrite (Hg Hl Hp). vm_compute. reflexivity.
Defined.
