(* ===== verification/LinkController.v ===== *)
(** The service mirror controller ([multicluster/cmd/service-mirror/main.go] and
    [multicluster/service-mirror/link_handlers.go]): the handlers of the Link informer, the
    loop that restarts the cluster watcher and the probe worker, and leadership.

    The informer hands the Link to the loop over a channel with room for 100.  What starting
    a watcher needs from outside (metrics, credentials, the clients) can fail at each stage;
    a restart takes the stage at which it fails, if any. *)
From S2P Require Import Prelude GoStd K8s Mirror ServiceMirror.

#[local] Open Scope string_scope.
#[local] Open Scope list_scope.

#[export] Instance LabelSelector_eq_dec : EqDecision LabelSelector.
Proof. solve_decision. Defined.
#[export] Instance ProbeSpec_eq_dec : EqDecision ProbeSpec.
Proof. solve_decision. Defined.
#[export] Instance LinkSpec_eq_dec : EqDecision LinkSpec.
Proof. solve_decision. Defined.

(** * The informer *)
Record Link := mkLink {
  link_Name : string; link_Spec : LinkSpec; ClusterCredentialsSecret : string;  (* both of [Spec] *)
  link_Status : LinkStatus }.
Definition Spec (l : Link) : LinkSpec * string := (link_Spec l, ClusterCredentialsSecret l).

(** What an informer hands to a handler. *)
Inductive object := LinkObject (l : Link) | Tombstone (o : option Link) | OtherObject.

Definition link_buffer : nat := 100.
Definition results := list (option Link).  (* [None] says that the Link was deleted *)

(** [select { case results <- x: default: }]. *)
Definition offer (x : option Link) (rs : results) : results :=
  if bool_decide (length rs < link_buffer)%nat then rs ++ [x] else rs.

Section handlers.
Context (linkName : string).

Definition AddFunc (obj : object) (rs : results) : results :=
  match obj with
  | LinkObject link => if bool_decide (link_Name link = linkName) then offer (Some link) rs else rs
  | _ => rs
  end.

Definition UpdateFunc (oldObj currentObj : object) (rs : results) : results :=
  match oldObj, currentObj with
  | LinkObject oldLink, LinkObject currentLink =>
      if bool_decide (Spec oldLink = Spec currentLink) then rs else
      if bool_decide (link_Name currentLink = linkName) then offer (Some currentLink) rs else rs
  | _, _ => rs
  end.

Definition DeleteFunc (obj : object) (rs : results) : results :=
  match obj with
  | LinkObject link | Tombstone (Some link) =>
      if bool_decide (link_Name link = linkName) then offer None rs else rs
  | _ => rs
  end.
End handlers.

(** * The workers *)
(** The specs with which the cluster watcher and the probe worker were started. *)
Record Workers := mkWorkers {
  clusterWatcher : option (LinkSpec * string); probeWorker : option ProbeSpec }.

Definition cleanupWorkers (ws : Workers) : Workers := mkWorkers None None.

Inductive stage := NewMetrics | ParseConfig | InitializeAPI | NewWatcher | StartWatcher.
#[export] Instance stage_eq_dec : EqDecision stage.
Proof. solve_decision. Defined.

(** The workers after a restart, and whether it returned an error. *)
Definition restartClusterWatcher (l : Link) (fault : option stage) (ws : Workers) : Workers * bool :=
  let ws := cleanupWorkers ws in
  if bool_decide (fault = Some NewMetrics) then (ws, true) else
  let ws := if bool_decide (pr_Path (lk_ProbeSpec (link_Spec l)) ≠ "")
            then mkWorkers (clusterWatcher ws) (Some (lk_ProbeSpec (link_Spec l))) else ws in
  match fault with
  | Some NewMetrics | Some ParseConfig | Some InitializeAPI | Some NewWatcher => (ws, true)
  | Some StartWatcher => (mkWorkers (Some (Spec l)) (probeWorker ws), true)
  | None => (mkWorkers (Some (Spec l)) (probeWorker ws), false)
  end.

(** * The loop *)
(** At the [select], or about to queue a Link again after a failed restart. *)
Inductive loop_at := Select | Requeue (l : Link).
Record loop := mkLoop { lp_cancelled : bool; lp_results : results; lp_at : loop_at }.

(** One case of the [select]: a cancelled context, or a result. *)
Definition on_cancel (ws : Workers) (lp : loop) : Workers * loop := (cleanupWorkers ws, lp).
Definition on_result (x : option Link) (rest : results) (fault : option stage) (ws : Workers) (lp : loop)
    : Workers * loop :=
  match x with
  | Some l =>
      let '(ws, failed) := restartClusterWatcher l fault ws in
      (ws, mkLoop (lp_cancelled lp) rest (if failed then Requeue l else Select))
  | None => (cleanupWorkers ws, mkLoop (lp_cancelled lp) rest Select)
  end.

Inductive loop_step : Workers * loop → option stage → Workers * loop → Prop :=
  | loop_cancelled ws rs : loop_step (ws, mkLoop true rs Select) None (on_cancel ws (mkLoop true rs Select))
  | loop_result ws c x rest fault : (x = None → fault = None) →
      loop_step (ws, mkLoop c (x :: rest) Select) fault (on_result x rest fault ws (mkLoop c (x :: rest) Select))
  | loop_requeue ws c rs l : (length rs < link_buffer)%nat →
      loop_step (ws, mkLoop c rs (Requeue l)) None (ws, mkLoop c (rs ++ [Some l]) Select).

(** * Leadership *)
(** The Links of the namespace, the workers, and the loops: the elector runs one in a
    goroutine of its own each time it wins the lease, and cancels its context when it loses
    it. *)
Record controller := mkController {
  ct_links : gmap string Link; ct_workers : Workers; ct_loops : list loop }.

Definition handled (f : results → results) (lp : loop) : loop :=
  if lp_cancelled lp then lp else mkLoop false (f (lp_results lp)) (lp_at lp).
Definition cancel (lp : loop) : loop := mkLoop true (lp_results lp) (lp_at lp).

(** The number of the places that are left in the channels of the live loops matters for
    whether an update is dropped: [Dropped] labels a step in which one is. *)
Inductive occurrence := Fine | Dropped | Failed.
Definition full (lp : loop) : bool := negb (lp_cancelled lp) && bool_decide (link_buffer ≤ length (lp_results lp))%nat.
Definition delivery (lps : list loop) : occurrence := if existsb full lps then Dropped else Fine.

Section controller.
Context (linkName : string).

Inductive ctl_step : controller → occurrence → controller → Prop :=
  | ctl_add links ws lps l :
      links !! link_Name l = None →
      ctl_step (mkController links ws lps) (delivery lps)
        (mkController (<[link_Name l := l]> links) ws (handled (AddFunc linkName (LinkObject l)) <$> lps))
  | ctl_update links ws lps old l :
      links !! link_Name l = Some old →
      ctl_step (mkController links ws lps) (delivery lps)
        (mkController (<[link_Name l := l]> links) ws
           (handled (UpdateFunc linkName (LinkObject old) (LinkObject l)) <$> lps))
  | ctl_delete links ws lps n old obj :
      links !! n = Some old → link_Name old = n → obj = LinkObject old ∨ obj = Tombstone (Some old) →
      ctl_step (mkController links ws lps) (delivery lps)
        (mkController (delete n links) ws (handled (DeleteFunc linkName obj) <$> lps))
  | ctl_loop links ws lps i lp fault ws' lp' :
      lps !! i = Some lp → loop_step (ws, lp) fault (ws', lp') →
      ctl_step (mkController links ws lps) (match fault with Some _ => Failed | None => Fine end)
        (mkController links ws' (<[i := lp']> lps))
  | ctl_lead links ws lps :  (* the new informer lists the Links first *)
      forallb lp_cancelled lps = true →
      ctl_step (mkController links ws lps) Fine
        (mkController links ws
           (lps ++ [mkLoop false (match links !! linkName with Some l => [Some l] | None => [] end) Select]))
  | ctl_lose links ws lps :
      ctl_step (mkController links ws lps) Fine (mkController links ws (cancel <$> lps)).

Inductive ctl_run (c0 : controller) : list occurrence → controller → Prop :=
  | ctl_init : ctl_run c0 [] c0
  | ctl_next tr c o c' : ctl_run c0 tr c → ctl_step c o c' → ctl_run c0 (tr ++ [o]) c'.
End controller.

(** * The specification *)
Definition stopped : Workers := mkWorkers None None.

(** The workers a Link asks for: those of its spec, and none without a Link. *)
Definition workers_for (o : option Link) : Workers :=
  match o with
  | None => stopped
  | Some l => mkWorkers (Some (Spec l))
      (if bool_decide (pr_Path (lk_ProbeSpec (link_Spec l)) = "") then None else Some (lk_ProbeSpec (link_Spec l)))
  end.

Lemma restart_ok l ws : restartClusterWatcher l None ws = (workers_for (Some l), false).
Proof. unfold restartClusterWatcher, workers_for. simpl. repeat case_bool_decide; done. Qed.

Lemma workers_for_Spec l l' : Spec l = Spec l' → workers_for (Some l) = workers_for (Some l').
Proof. unfold workers_for, Spec. intros [= -> ->]. done. Qed.

(** The workers when the loop has taken all results. *)
Definition drained (ws : Workers) (rs : results) : Workers :=
  match last rs with None => ws | Some x => workers_for x end.

Lemma drained_offer ws rs x : (length rs < link_buffer)%nat → drained ws (offer x rs) = workers_for x.
Proof. intros Hl. unfold drained, offer. by rewrite bool_decide_true, last_snoc. Qed.

Lemma on_result_ok x rest ws c : on_result x rest None ws (mkLoop c (x :: rest) Select) = (workers_for x, mkLoop c rest Select).
Proof. destruct x as [l|]; unfold on_result; [by rewrite restart_ok|done]. Qed.

Lemma drained_cons ws x rest : drained (workers_for x) rest = drained ws (x :: rest).
Proof. unfold drained. rewrite last_cons. by destruct (last rest). Qed.

#[local] Arguments on_result : simpl never.

Section properties.
Context (linkName : string).
Abbreviation run := (ctl_run linkName).
Abbreviation step := (ctl_step linkName).

Definition keyed (links : gmap string Link) : Prop := ∀ n l, links !! n = Some l → link_Name l = n.

Record settling (c : controller) : Prop := {
  st_keyed : keyed (ct_links c);
  st_first : ct_loops c = [] → ct_workers c = stopped;
  st_drained : ∀ lp, ct_loops c = [lp] → lp_cancelled lp = false →
    lp_at lp = Select ∧ drained (ct_workers c) (lp_results lp) = workers_for (ct_links c !! linkName) }.

Lemma keyed_insert links l : keyed links → keyed (<[link_Name l := l]> links).
Proof. intros Hk n l' [[<- <-]|[_ Hn]]%lookup_insert_Some; [done|by apply Hk]. Qed.
Lemma keyed_delete links n : keyed links → keyed (delete n links).
Proof. intros Hk n' l' [_ Hn]%lookup_delete_Some. by apply Hk. Qed.

(** The handlers of the informer: the channel ends with what the Link has become. *)
Lemma handled_settling links links' ws lps f :
  settling (mkController links ws lps) → delivery lps = Fine → keyed links' →
  (∀ rs, (length rs < link_buffer)%nat → drained ws rs = workers_for (links !! linkName) →
     drained ws (f rs) = workers_for (links' !! linkName)) →
  settling (mkController links' ws (handled f <$> lps)).
Proof.
  intros [Hk Hfst Hd] Hdel Hk' Hf. split; [done| |]; simpl in *.
  - intros Hnil%fmap_nil_inv. by apply Hfst.
  - intros lp Hlp Hc. destruct lps as [|lp0 [|lp1 lps]]; try done. simpl in Hlp. injection Hlp as <-.
    unfold handled in Hc |- *. destruct (lp_cancelled lp0) eqn:Hc0; [by rewrite Hc0 in Hc|]. simpl.
    destruct (Hd lp0 eq_refl Hc0) as [Hat Hdr]. split; [done|]. apply Hf; [|done].
    unfold delivery in Hdel. simpl in Hdel. unfold full in Hdel. rewrite Hc0 in Hdel. simpl in Hdel.
    case_bool_decide; simpl in *; [done|lia].
Qed.

Lemma settling_step c c' o : settling c → step c o c' → o = Fine → settling c'.
Proof.
  intros Hs Hstep Ho. pose proof Hs as [Hk Hfst Hd].
  destruct Hstep as [links ws lps l Hn|links ws lps old l Hn|links ws lps n old obj Hn Hname Hobj|
    links ws lps i lp fault ws' lp' Hi Hl|links ws lps Hc|links ws lps]; simpl in *.
  - eapply handled_settling; [done..|by apply keyed_insert|]. intros rs Hl Hdr. simpl.
    case_bool_decide as Hnm; [rewrite <-Hnm, lookup_insert_eq; by apply drained_offer|by rewrite lookup_insert_ne].
  - eapply handled_settling; [done..|by apply keyed_insert|]. intros rs Hl Hdr. simpl.
    case_bool_decide as Hsp; case_bool_decide as Hnm || destruct (decide (link_Name l = linkName)) as [Hnm|Hnm].
    all: try (rewrite lookup_insert_ne by done; done).
    + rewrite <-Hnm, lookup_insert_eq. rewrite <-Hnm, Hn in Hdr. rewrite Hdr. by apply workers_for_Spec.
    + rewrite <-Hnm, lookup_insert_eq. by apply drained_offer.
  - eapply handled_settling; [done..|by apply keyed_delete|]. intros rs Hl Hdr.
    assert (DeleteFunc linkName obj rs = if bool_decide (n = linkName) then offer None rs else rs) as ->
      by (destruct Hobj as [-> | ->]; simpl; by rewrite Hname).
    case_bool_decide as Hnm; [rewrite <-Hnm, lookup_delete_eq; by apply drained_offer|by rewrite lookup_delete_ne].
  - destruct fault; [done|]. split; [done| |]; simpl.
    + intros Hnil. apply (f_equal length) in Hnil. rewrite length_insert in Hnil.
      apply lookup_lt_Some in Hi. simpl in Hnil. lia.
    + intros lp0 Hlp Hc. destruct lps as [|lp1 [|lp2 lps]]; simpl in *;
        [by destruct i| |by destruct i as [|[]]]. destruct i; [|done]. injection Hi as ->. injection Hlp as ->.
      inversion Hl as [| |]; subst; simpl in *; try done.
      * rewrite on_result_ok in *. simplify_eq/=. destruct (Hd _ eq_refl eq_refl) as [_ Hdr].
        split; [done|]. by rewrite (drained_cons ws).
      * by destruct (Hd _ eq_refl Hc) as [[=] _].
  - split; [done| |].
    + simpl. intros Hnil. by destruct lps.
    + simpl. intros lp Hlp Hl. destruct lps as [|lp1 lps]; [|by destruct lps]. injection Hlp as <-. simpl.
      split; [done|]. rewrite Hfst by done. by destruct (links !! linkName).
  - split; [done| |]; simpl.
    + intros Hnil%fmap_nil_inv. by apply Hfst.
    + intros lp Hlp. destruct lps as [|lp1 [|]]; try done. injection Hlp as <-. done.
Qed.

Lemma settling_run c0 tr c : settling c0 → run c0 tr c → Forall (.= Fine) tr → settling c.
Proof.
  intros H0. induction 1 as [|tr c o c' _ IH Hstep]; [done|]. intros [Htr [Ho _]%Forall_cons]%Forall_app.
  eapply settling_step; [by apply IH|done..].
Qed.

(** Steps of a controller with one loop. *)
Lemma one_loop_step links ws lp fault ws' lp' :
  loop_step (ws, lp) fault (ws', lp') →
  step (mkController links ws [lp]) (match fault with Some _ => Failed | None => Fine end) (mkController links ws' [lp']).
Proof. intros Hl. change [lp'] with (<[0%nat := lp']> [lp]). by eapply ctl_loop. Qed.

Lemma one_loop_takes links ws x rs :
  step (mkController links ws [mkLoop false (x :: rs) Select]) Fine
    (mkController links (workers_for x) [mkLoop false rs Select]).
Proof. eapply (one_loop_step _ _ _ None). rewrite <-(on_result_ok x rs ws). by apply loop_result. Qed.

Lemma one_loop_update links ws rs a old l :
  links !! linkName = Some old → link_Name l = linkName → Spec old ≠ Spec l → (length rs < link_buffer)%nat →
  step (mkController links ws [mkLoop false rs a]) Fine
    (mkController (<[linkName := l]> links) ws [mkLoop false (rs ++ [Some l]) a]).
Proof.
  intros Hold Hn Hsp Hlen.
  assert (delivery [mkLoop false rs a] = Fine) as <-.
  { unfold delivery, full. simpl. rewrite bool_decide_false by lia. done. }
  assert ([mkLoop false (rs ++ [Some l]) a]
    = handled (UpdateFunc linkName (LinkObject old) (LinkObject l)) <$> [mkLoop false rs a]) as ->.
  { simpl. unfold handled. simpl. rewrite (bool_decide_false (Spec _ = _)), bool_decide_true by done.
    unfold offer. by rewrite bool_decide_true. }
  replace (<[linkName := l]> links) with (<[link_Name l := l]> links) by (by rewrite Hn).
  apply ctl_update. by rewrite Hn.
Qed.

(** The loop can always take what is in the channel. *)
Lemma loop_drains links ws rs :
  ∃ tr, run (mkController links ws [mkLoop false rs Select]) tr
    (mkController links (drained ws rs) [mkLoop false [] Select]) ∧ Forall (.= Fine) tr.
Proof.
  assert (∀ c0 tr0 ws, run c0 tr0 (mkController links ws [mkLoop false rs Select]) → Forall (.= Fine) tr0 →
    ∃ tr, run c0 tr (mkController links (drained ws rs) [mkLoop false [] Select]) ∧ Forall (.= Fine) tr) as Hgen.
  { induction rs as [|x rs IH]; intros c0 tr0 ws0 Hr Hf; [by exists tr0|]. rewrite <-drained_cons.
    apply (IH c0 (tr0 ++ [Fine])); [|by apply Forall_app_2; [|apply Forall_singleton]].
    eapply ctl_next; [exact Hr|]. apply one_loop_takes. }
  eapply Hgen; [apply ctl_init|constructor].
Qed.

(** C32: the controller follows the Link.  While one loop leads, no update is dropped and
    no restart fails: whatever Links come, change and go, of this name or another, the
    controller can always take what the informer queued, and then runs the cluster watcher
    and the probe worker with the spec the Link has, or none when there is no Link. *)
Theorem link_settles links tr c lp :
  keyed links → run (mkController links stopped []) tr c → Forall (.= Fine) tr →
  ct_loops c = [lp] → lp_cancelled lp = false →
  (lp_results lp = [] → ct_workers c = workers_for (ct_links c !! linkName))
  ∧ ∃ tr' c', run c tr' c' ∧ Forall (.= Fine) tr' ∧ ct_links c' = ct_links c
      ∧ ct_loops c' = [mkLoop false [] Select] ∧ ct_workers c' = workers_for (ct_links c !! linkName).
Proof.
  intros Hk Hrun Htr Hlp Hc. destruct (settling_run _ _ _ (Build_settling (mkController links stopped []) Hk
    ltac:(done) ltac:(done)) Hrun Htr) as [_ _ Hd]. destruct (Hd lp Hlp Hc) as [Hat Hdr]. split.
  - intros Hnil. by rewrite Hnil in Hdr.
  - destruct c as [ls ws lps], lp as [b rs a]. simpl in *. subst.
    destruct (loop_drains ls ws rs) as (tr' & Hr & Hf). exists tr'. eexists. rewrite Hdr in Hr.
    split; [exact Hr|]. done.
Qed.

(** an update that is retried overtakes a newer one.  When the restart for a Link
    fails and the Link has changed meanwhile, the older version is queued behind the newer
    one, so the controller ends up with the workers of the older spec. *)
Theorem stale_link_wins links ws old l1 l2 :
  links !! linkName = Some old → link_Name l1 = linkName → link_Name l2 = linkName →
  Spec old ≠ Spec l1 → Spec l1 ≠ Spec l2 →
  ∃ tr, run (mkController links ws [mkLoop false [] Select]) tr
    (mkController (<[linkName := l2]> links) (workers_for (Some l1)) [mkLoop false [] Select]).
Proof.
  intros Hold Hn1 Hn2 Hs1 Hs2. eexists. set (fault := Some InitializeAPI).
  set (ws1 := (restartClusterWatcher l1 fault ws).1).
  eapply (ctl_next _ _ _ (mkController (<[linkName := l2]> links) (workers_for (Some l2)) [mkLoop false [Some l1] Select]));
    [|apply one_loop_takes].
  eapply (ctl_next _ _ _ (mkController (<[linkName := l2]> links) ws1 [mkLoop false [Some l2; Some l1] Select]));
    [|apply one_loop_takes].
  eapply (ctl_next _ _ _ (mkController (<[linkName := l2]> links) ws1 [mkLoop false [Some l2] (Requeue l1)]));
    [|apply (one_loop_step _ _ _ None), loop_requeue; simpl; unfold link_buffer; lia].
  eapply (ctl_next _ _ _ (mkController (<[linkName := l2]> links) ws [mkLoop false [Some l1; Some l2] Select]));
    [|by apply (one_loop_step _ _ _ fault), (loop_result ws false (Some l1) [Some l2] fault)].
  eapply (ctl_next _ _ _ (mkController (<[linkName := l1]> links) ws [mkLoop false [Some l1] Select])).
  - eapply ctl_next; [apply ctl_init|]. apply (one_loop_update links ws [] Select old l1); try done.
    simpl. unfold link_buffer. lia.
  - rewrite <-(insert_insert_eq links linkName l2 l1).
    apply (one_loop_update (<[linkName := l1]> links) ws [Some l1] Select l1 l2); try done.
    + apply lookup_insert_eq.
    + simpl. unfold link_buffer. lia.
Qed.
End properties.

(** a loop whose lease was lost goes on stopping workers.  Its context stays cancelled
    and the loop does not return: after the lease is won again, the old loop stops the
    workers of the new one although the Link exists and nothing is queued, and it can do so
    again and again. *)
Theorem stale_leader_stops l :
  let links := {[link_Name l := l]} in
  let loops := [mkLoop true [] Select; mkLoop false [] Select] in
  (∃ tr, ctl_run (link_Name l) (mkController links stopped []) tr (mkController links (workers_for (Some l)) loops)
     ∧ Forall (.= Fine) tr)
  ∧ ∀ ws, ctl_step (link_Name l) (mkController links ws loops) Fine (mkController links stopped loops).
Proof.
  intros links loops. split.
  - assert (links !! link_Name l = Some l) as Hl by apply lookup_singleton_eq.
    exists [Fine; Fine; Fine; Fine; Fine]. split; [|by repeat constructor].
    change [Fine; Fine; Fine; Fine; Fine] with ((((([] ++ [Fine]) ++ [Fine]) ++ [Fine]) ++ [Fine]) ++ [Fine]).
    set (new := mkLoop false [Some l] Select).
    eapply (ctl_next _ _ _ (mkController links (workers_for (Some l)) [mkLoop true [] Select; new])).
    + eapply (ctl_next _ _ _ (mkController links (workers_for (Some l)) (cancel <$> [mkLoop false [] Select]))).
      * eapply ctl_next; [|apply ctl_lose]. eapply ctl_next; [|apply one_loop_takes].
        eapply ctl_next; [apply ctl_init|]. pose proof (ctl_lead (link_Name l) links stopped [] eq_refl) as Hlead.
        rewrite Hl in Hlead. exact Hlead.
      * pose proof (ctl_lead (link_Name l) links (workers_for (Some l)) (cancel <$> [mkLoop false [] Select]) eq_refl)
          as Hlead. rewrite Hl in Hlead. exact Hlead.
    + change loops with (<[1%nat := mkLoop false [] Select]> [mkLoop true [] Select; new]).
      eapply (ctl_loop _ _ _ _ 1 _ None); [done|]. rewrite <-(on_result_ok (Some l) [] (workers_for (Some l))).
      by apply loop_result.
  - intros ws. change loops with (<[0%nat := mkLoop true [] Select]> loops) at 2.
    eapply (ctl_loop _ _ _ _ 0 _ None); [done|]. apply loop_cancelled.
Qed.

(** ** Examples *)
Definition ex_ctl_link (domain : string) : Link :=
  mkLink "east" (mkLinkSpec "east" domain "gateway" "4143" "id" (mkProbeSpec "/ready" "4191" "3s" "1s" "3")
    None None None) "cluster-credentials-east" (mkLinkStatus [] []).

Lemma link_settles_witness :
  let l := ex_ctl_link "a" in
  ∃ tr c, ctl_run "east" (mkController {["east" := l]} stopped [mkLoop false [Some l] Select]) tr c
    ∧ ct_workers c = workers_for (Some l).
Proof.
  intros l.
  assert (ctl_run "east" (mkController {["east" := l]} stopped []) ([] ++ [Fine])
    (mkController {["east" := l]} stopped [mkLoop false [Some l] Select])) as Hrun.
  { eapply ctl_next; [apply ctl_init|]. exact (ctl_lead "east" {["east" := l]} stopped [] eq_refl). }
  destruct (link_settles "east" {["east" := l]} ([] ++ [Fine]) _ (mkLoop false [Some l] Select)
    ltac:(by intros n l' [<- <-]%lookup_singleton_Some) Hrun ltac:(by repeat constructor) eq_refl eq_refl)
    as (_ & tr' & c' & Hr & _ & _ & _ & Hw).
  exists tr', c'. split; [exact Hr|exact Hw].
Defined.

Lemma stale_link_wins_witness :
  ∃ tr, ctl_run "east" (mkController {["east" := ex_ctl_link "a"]} stopped [mkLoop false [] Select]) tr
    (mkController (<["east" := ex_ctl_link "c"]> {["east" := ex_ctl_link "a"]}) (workers_for (Some (ex_ctl_link "b")))
       [mkLoop false [] Select]).
Proof.
  exact (stale_link_wins "east" {["east" := ex_ctl_link "a"]} stopped (ex_ctl_link "a") (ex_ctl_link "b")
    (ex_ctl_link "c") eq_refl eq_refl eq_refl ltac:(done) ltac:(done)).
Defined.
