(* ===== verification/WorkloadWatcher.v ===== *)
(** The workload watcher ([watcher/workload_watcher.go], with the indexers of
    [watcher/k8s.go]) and the listener behind an endpoint profile stream
    ([endpoint_profile_translator.go]).

    A client that asks for the profile of an IP address and a port is told about the pod or
    the external workload behind it.  The listeners get a pointer to the address of the
    publisher, which the watcher goes on changing in place; a publisher is therefore an
    object in a heap, and a queue of updates holds references to publishers. *)
From S2P Require Import Prelude GoStd K8s PortRange Addresses Addr WeightedAddr ProfileTranslator.

#[local] Open Scope string_scope.
#[local] Open Scope list_scope.
#[local] Open Scope Z_scope.
#[local] Open Scope go_scope.

(** * Data *)
Abbreviation IPPort := (string * Z)%type.
Abbreviation ref := positive.
Abbreviation listener := positive.

Record workloadPublisher := mkWP { wp_addr : Address; wp_listeners : list listener }.
Record WorkloadWatcher := mkWW {
  ww_defaultOpaquePorts : ports; ww_enableEndpointSlices : bool;
  ww_publishers : gmap IPPort ref; ww_heap : gmap ref workloadPublisher }.

Definition NewWorkloadWatcher (enableEndpointSlices : bool) (defaultOpaquePorts : ports) : WorkloadWatcher :=
  mkWW defaultOpaquePorts enableEndpointSlices ∅ ∅.

Definition set_wp_addr (a : Address) (wp : workloadPublisher) : workloadPublisher := mkWP a (wp_listeners wp).
Definition set_heap (h : gmap ref workloadPublisher) (ww : WorkloadWatcher) : WorkloadWatcher :=
  mkWW (ww_defaultOpaquePorts ww) (ww_enableEndpointSlices ww) (ww_publishers ww) h.
Definition set_publishers (m : gmap IPPort ref) (ww : WorkloadWatcher) : WorkloadWatcher :=
  mkWW (ww_defaultOpaquePorts ww) (ww_enableEndpointSlices ww) m (ww_heap ww).

Definition set_Pod (p : option Pod) (kind name : string) (a : Address) : Address :=
  mkAddress (IP a) (Port a) p (a_ExternalWorkload a) name kind (Identity a) (AuthorityOverride a) (Zone a)
    (ForZones a) (OpaqueProtocol a).
Definition set_ExternalWorkload (ew : option ExternalWorkload) (a : Address) : Address :=
  mkAddress (IP a) (Port a) (a_Pod a) ew (OwnerName a) (OwnerKind a) (Identity a) (AuthorityOverride a) (Zone a)
    (ForZones a) (OpaqueProtocol a).
Definition set_Owner (kind name : string) (a : Address) : Address :=
  mkAddress (IP a) (Port a) (a_Pod a) (a_ExternalWorkload a) name kind (Identity a) (AuthorityOverride a) (Zone a)
    (ForZones a) (OpaqueProtocol a).

Definition isRunning (pod : Pod) : bool := bool_decide (pod_Phase pod = PodRunning).

(** * The indexers *)
Definition nonempty {A} (l l' : list A) : list A := match l with [] => l' | _ => l end.

Definition podIPIndex (pod : Pod) : list string :=
  if pod_HostNetwork pod then [] else
  nonempty (filter (.≠ "") (pod_PodIPs pod)) (if bool_decide (pod_PodIP pod = "") then [] else [pod_PodIP pod]).

Definition hostIPIndex (pod : Pod) : list string :=
  let ips := nonempty (pod_HostIPs pod) (if bool_decide (pod_HostIP pod = "") then [] else [pod_HostIP pod]) in
  pod_Containers pod ≫= λ c, c_Ports c ≫= λ p,
    if bool_decide (cp_HostPort p = 0) then []
    else (λ ip, net.JoinHostPort ip (strconv.Itoa (cp_HostPort p))) <$> ips.

Definition externalWorkloadIPIndex (ew : ExternalWorkload) : list string :=
  ew_WorkloadIPs ew ≫= λ ip, (λ p, net.JoinHostPort ip (strconv.Itoa (ps_Port p))) <$> ew_Ports ew.

Definition podNotTerminating (pod : Pod) : bool :=
  negb (pod_DeletionTimestamp pod)
  && negb (bool_decide (pod_Phase pod = PodSucceeded) || bool_decide (pod_Phase pod = PodFailed)).

(** The caches of the informers: the listers of [API], and the pods and workloads in the
    order of the indexers. *)
Record caches := mkCaches { cc_api : API; cc_pods : list Pod; cc_ews : list ExternalWorkload }.

Definition getIndexedPods (cc : caches) (index : Pod → list string) (key : string) : list Pod :=
  filter (λ pod, podNotTerminating pod = true) (filter (λ pod, key ∈ index pod) (cc_pods cc)).
Definition getIndexedExternalWorkloads (cc : caches) (key : string) : list ExternalWorkload :=
  filter (λ ew, key ∈ externalWorkloadIPIndex ew) (cc_ews cc).

(** * Publishers *)
Section publisher.
Context (api : API).

(** The address after an attempt to apply the Servers; an error is logged. *)
Definition withServers (f : API → Address → res Address) (a : Address) : Address :=
  match f api a with Ok a => a | _ => a end.

(** [workloadPublisher.updatePod]: the publisher, and whether its listeners are called. *)
Definition updatePod (pod : option Pod) (wp : workloadPublisher) : workloadPublisher * bool :=
  let a := wp_addr wp in
  match a_Pod a, pod with
  | None, None => (wp, false)
  | None, Some pod =>
      if negb (isRunning pod) then (wp, false) else
      let '(kind, name) := default (OwnerKind a, OwnerName a) (api_OwnerKindAndName api pod) in
      (set_wp_addr (withServers SetToServerProtocol (set_Pod (Some pod) kind name a)) wp, true)
  | Some _, _ =>
      if match pod with Some pod => isRunning pod | None => false end then (wp, false) else
      (set_wp_addr (set_OpaqueProtocol false (set_Pod None "" "" a)) wp, true)
  end.

(** [workloadPublisher.updateExternalWorkload] always calls the listeners.  The error of
    [SetToServerProtocolExternalWorkload] is logged with the name of the workload. *)
Definition updateExternalWorkload (externalWorkload : option ExternalWorkload) (wp : workloadPublisher)
    : res workloadPublisher :=
  let a := set_ExternalWorkload externalWorkload (wp_addr wp) in
  let a := match externalWorkload with
           | Some ew => match ew_OwnerReferences ew with
                        | [o] => set_Owner (or_Kind o) (or_Name o) a
                        | _ => a
                        end
           | None => a
           end in
  match SetToServerProtocolExternalWorkload api a with
  | Ok a => Ok (set_wp_addr a wp)
  | Err _ => match externalWorkload with Some _ => Ok (set_wp_addr a wp) | None => Panic end
  | Panic => Panic
  end.
End publisher.

Definition subscribe (l : listener) (wp : workloadPublisher) : workloadPublisher :=
  mkWP (wp_addr wp) (wp_listeners wp ++ [l]).
Definition unsubscribe (l : listener) (wp : workloadPublisher) : workloadPublisher :=
  mkWP (wp_addr wp) (swap_remove l (wp_listeners wp)).

(** * The watcher *)
Section watcher.
Context (cc : caches).

(** The only object of a list; more than one is a conflict. *)
Definition onlyOne {A} (l : list A) : res (option A) :=
  match l with [] => Ok None | [x] => Ok (Some x) | _ => Err "conflicting objects" end.

Definition getPodByPodIP (podIP : string) : res (option Pod) := onlyOne (getIndexedPods cc podIPIndex podIP).
Definition getPodByHostIP (hostIP : string) (port : Z) : res (option Pod) :=
  onlyOne (getIndexedPods cc hostIPIndex (net.JoinHostPort hostIP (strconv.Itoa port))).
Definition getExternalWorkloadByIP (ip : string) (port : Z) : res (option ExternalWorkload) :=
  onlyOne (getIndexedExternalWorkloads cc (net.JoinHostPort ip (strconv.Itoa port))).

(** The pod of a reference: none when it is not a reference to a pod. *)
Definition podOfRef (targetRef : option ObjectReference) : res (option Pod) :=
  match targetRef with
  | Some r => if bool_decide (ref_Kind r = "Pod")
              then match api_Pod (cc_api cc) (ref_Namespace r) (ref_Name r) with
                   | Some pod => Ok (Some pod)
                   | None => Err "pod not found"
                   end
              else Ok None
  | None => Ok None
  end.

Definition getEndpointByHostname (enableEndpointSlices : bool) (hostname : string) (svcID : ID)
    : res (option Pod) :=
  if enableEndpointSlices then
    match api_EndpointSlices (cc_api cc) (Namespace svcID) (Name svcID) with
    | None => Err "failed to list EndpointSlices"
    | Some sliceList =>
        match list_find (λ ep, e_Hostname ep = Some hostname) (sliceList ≫= sl_Endpoints) with
        | Some (_, ep) => podOfRef (e_TargetRef ep)
        | None => Err "no pod found in EndpointSlices"
        end
    end
  else
    match api_Endpoints (cc_api cc) (Namespace svcID) (Name svcID) with
    | None => Err "failed to get Endpoints"
    | Some ep =>
        match list_find (λ addr, ea_Hostname addr = hostname) (eps_Subsets ep ≫= es_Addresses) with
        | Some (_, addr) => podOfRef (ea_TargetRef addr)
        | None => Err "no pod found in Endpoints"
        end
    end.

(** The target of a subscription: its IP address, and the pod or workload behind it.  With a
    host name, the IP address is that of the pod. *)
Definition findTarget (enableEndpointSlices : bool) (service : option ID) (hostname ip : string) (port : Z)
    : res (string * option Pod * option ExternalWorkload) :=
  if bool_decide (hostname ≠ "") then
    match service with
    | None => Panic
    | Some svcID =>
        let* pod := getEndpointByHostname enableEndpointSlices hostname svcID in
        match pod with
        | None => Panic
        | Some pod => Ok (pod_PodIP pod, Some pod, None)
        end
    end
  else
    let* pod := getPodByPodIP ip in
    let* pod := match pod with Some pod => Ok (Some pod) | None => getPodByHostIP ip port end in
    match pod with
    | Some pod => Ok (ip, Some pod, None)
    | None => let* ew := getExternalWorkloadByIP ip port in Ok (ip, None, ew)
    end.

(** A new publisher for the target. *)
Definition newPublisher (ip : string) (port : Z) (pod : option Pod) (ew : option ExternalWorkload)
    : res workloadPublisher :=
  let wp := mkWP (newAddress ip port) [] in
  let wp := match pod with Some _ => (updatePod (cc_api cc) pod wp).1 | None => wp end in
  match ew with Some _ => updateExternalWorkload (cc_api cc) ew wp | None => Ok wp end.

Definition getOrNewWorkloadPublisher (service : option ID) (hostname ip : string) (port : Z) (ww : WorkloadWatcher)
    : res (ref * WorkloadWatcher) :=
  let* target := findTarget (ww_enableEndpointSlices ww) service hostname ip port in
  let '(ip, pod, ew) := target in
  match ww_publishers ww !! (ip, port) with
  | Some r => Ok (r, ww)
  | None =>
      let* wp := newPublisher ip port pod ew in
      let r := fresh (dom (ww_heap ww)) in
      Ok (r, set_publishers (<[(ip, port) := r]> (ww_publishers ww)) (set_heap (<[r := wp]> (ww_heap ww)) ww))
  end.
End watcher.

(** [Unsubscribe]: the publisher goes with its last listener. *)
Definition Unsubscribe (ip : string) (port : Z) (l : listener) (ww : WorkloadWatcher) : WorkloadWatcher :=
  match ww_publishers ww !! (ip, port) with
  | None => ww
  | Some r =>
      match ww_heap ww !! r with
      | None => ww
      | Some wp =>
          let wp := unsubscribe l wp in
          let ww := set_heap (<[r := wp]> (ww_heap ww)) ww in
          match wp_listeners wp with
          | [] => set_publishers (delete (IP (wp_addr wp), Port (wp_addr wp)) (ww_publishers ww)) ww
          | _ => ww
          end
      end
  end.

(** ** Pods and external workloads *)
(** An operation on the publisher of a key, if there is one: the watcher, and the publisher
    whose listeners are called. *)
Definition onPublisher (k : IPPort) (f : workloadPublisher → workloadPublisher * bool) (ww : WorkloadWatcher)
    : WorkloadWatcher * list ref :=
  match ww_publishers ww !! k with
  | None => (ww, [])
  | Some r =>
      match ww_heap ww !! r with
      | None => (ww, [])
      | Some wp => let '(wp, called) := f wp in
                   (set_heap (<[r := wp]> (ww_heap ww)) ww, if (called : bool) then [r] else [])
      end
  end.

Fixpoint onPublishers (ks : list IPPort) (f : workloadPublisher → workloadPublisher * bool) (ww : WorkloadWatcher)
    : WorkloadWatcher * list ref :=
  match ks with
  | [] => (ww, [])
  | k :: ks => let '(ww, rs) := onPublisher k f ww in
               let '(ww, rs') := onPublishers ks f ww in (ww, rs ++ rs')
  end.

(** The addresses of a pod, container port by container port. *)
Definition podTargets (pod : Pod) : list IPPort :=
  pod_Containers pod ≫= λ c, c_Ports c ≫= λ containerPort,
    (if bool_decide (cp_ContainerPort containerPort = 0) then [] else
       (λ ip, (ip, u32 (cp_ContainerPort containerPort)))
         <$> nonempty (pod_PodIPs pod) (if bool_decide (pod_PodIP pod = "") then [] else [pod_PodIP pod]))
    ++ (if bool_decide (cp_HostPort containerPort = 0) then [] else
          (λ ip, (ip, u32 (cp_HostPort containerPort)))
            <$> nonempty (pod_HostIPs pod) (if bool_decide (pod_HostIP pod = "") then [] else [pod_HostIP pod])).

Definition submitPodUpdate (api : API) (pod : Pod) (remove : bool) (ww : WorkloadWatcher)
    : WorkloadWatcher * list ref :=
  onPublishers (podTargets pod) (updatePod api (if remove then None else Some pod)) ww.

Definition workloadTargets (ew : ExternalWorkload) : list IPPort :=
  ew_Ports ew ≫= λ port, (λ ip, (ip, u32 (ps_Port port))) <$> ew_WorkloadIPs ew.

Fixpoint submitTo (api : API) (ew : option ExternalWorkload) (ks : list IPPort) (ww : WorkloadWatcher)
    : res (WorkloadWatcher * list ref) :=
  match ks with
  | [] => Ok (ww, [])
  | k :: ks =>
      match ww_publishers ww !! k with
      | None => submitTo api ew ks ww
      | Some r =>
          match ww_heap ww !! r with
          | None => submitTo api ew ks ww
          | Some wp =>
              let* wp := updateExternalWorkload api ew wp in
              let* rest := submitTo api ew ks (set_heap (<[r := wp]> (ww_heap ww)) ww) in
              Ok (rest.1, r :: rest.2)
          end
      end
  end.
Definition submitExternalWorkloadUpdate (api : API) (ew : ExternalWorkload) (remove : bool) (ww : WorkloadWatcher)
    : res (WorkloadWatcher * list ref) :=
  submitTo api (if remove then None else Some ew) (workloadTargets ew) ww.

(** ** Servers *)
Definition selectedByAny (api : API) (sel : Server → option LabelSelector) (labels : strmap) (servers : list Server)
    : bool :=
  existsb (λ s, match api_LabelSelectorAsSelector api (sel s) with
                | None => false
                | Some Matches => Matches labels
                end) servers.
Definition isPodSelectedByAny (api : API) (pod : Pod) : list Server → bool :=
  selectedByAny api srv_PodSelector (pod_Labels pod).
Definition isExternalWorkloadSelectedByAny (api : API) (ew : ExternalWorkload) : list Server → bool :=
  selectedByAny api srv_ExternalWorkloadSelector (ew_Labels ew).

(** The body of the loop of [updateServers]: the address, and whether it changed. *)
Definition updateAddrServers (api : API) (defaultOpaquePorts : ports) (servers : list Server) (a : Address)
    : Address * bool :=
  let considered := match a_Pod a, a_ExternalWorkload a with
    | Some pod, _ => if isPodSelectedByAny api pod servers
                     then Some (GetAnnotatedOpaquePorts (Some pod) defaultOpaquePorts) else None
    | None, Some ew => if isExternalWorkloadSelectedByAny api ew servers
                       then Some (GetAnnotatedOpaquePortsForExternalWorkload (Some ew) defaultOpaquePorts) else None
    | None, None => None
    end in
  match considered with
  | None => (a, false)
  | Some opaquePorts =>
      if bool_decide (Port a ∈ opaquePorts) then (a, false) else
      let a' := withServers api SetToServerProtocol a in
      (a', negb (eqb (OpaqueProtocol a') (OpaqueProtocol a)))
  end.

(** The publishers in the map, in some order; a goroutine is started for each whose
    listeners are to be called. *)
Definition updateServers `{!MapRange} (api : API) (servers : list Server) (ww : WorkloadWatcher)
    : WorkloadWatcher * list ref :=
  onPublishers (range (ww_publishers ww)).*1
    (λ wp, let '(a, changed) := updateAddrServers api (ww_defaultOpaquePorts ww) servers (wp_addr wp) in
           (set_wp_addr a wp, changed)) ww.

(** ** Event handlers *)
(** What a handler starts in a goroutine of its own. *)
Inductive task := SubmitPod (pod : Pod) (remove : bool) | SubmitWorkload (ew : ExternalWorkload) (remove : bool)
  | Notify (r : ref).

Definition addPod (pod : Pod) : list task := [SubmitPod pod false].
Definition deletePod (obj : option Pod + option Pod) : list task :=
  match obj with inl (Some pod) | inr (Some pod) => [SubmitPod pod true] | _ => [] end.
Definition updatePodHandler (oldPod newPod : Pod) : list task :=
  if negb (pod_DeletionTimestamp oldPod) && pod_DeletionTimestamp newPod then [] else [SubmitPod newPod false].
Definition addExternalWorkload (ew : ExternalWorkload) : list task := [SubmitWorkload ew false].
Definition deleteExternalWorkload (obj : option ExternalWorkload + option ExternalWorkload) : list task :=
  match obj with inl (Some ew) | inr (Some ew) => [SubmitWorkload ew true] | _ => [] end.
Definition updateExternalWorkloadHandler (old new : ExternalWorkload) : list task :=
  if bool_decide (ew_DeletionTimestamp old = None ∧ ew_DeletionTimestamp new ≠ None) then []
  else [SubmitWorkload new false].

(** * The endpoint profile translator *)
#[export] Instance Duration_eq_dec : EqDecision pb.Duration.
Proof. solve_decision. Defined.
#[export] Instance RetryBudget_eq_dec : EqDecision pb.RetryBudget.
Proof. solve_decision. Defined.
#[export] Instance Protocol_eq_dec : EqDecision Protocol.
Proof. solve_decision. Defined.
#[export] Instance ProtocolHint_eq_dec : EqDecision ProtocolHint.
Proof. solve_decision. Defined.
#[export] Instance IdentityStrategy_eq_dec : EqDecision IdentityStrategy.
Proof. solve_decision. Defined.
#[export] Instance TlsIdentity_eq_dec : EqDecision TlsIdentity.
Proof. solve_decision. Defined.
#[export] Instance WeightedAddr_eq_dec {P} `{!EqDecision P} : EqDecision (WeightedAddr P).
Proof. solve_decision. Defined.

Section translator.
Context {Http2ClientParams : Type} `{!EqDecision Http2ClientParams}.
Abbreviation config := (config Http2ClientParams).
Abbreviation WA := (WeightedAddr Http2ClientParams).

(** The message: a DestinationProfile with the fields that are set for an endpoint. *)
Record endpointProfile := mkEndpointProfile {
  epf_RetryBudget : pb.RetryBudget; epf_Endpoint : WA; epf_OpaqueProtocol : bool }.

#[export] Instance endpointProfile_eq_dec : EqDecision endpointProfile.
Proof. solve_decision. Defined.

Record endpointProfileTranslator := mkEPT {
  ept_config : config; ept_updates : list ref; ept_endStream : bool  (* closed *);
  ept_current : option endpointProfile; ept_sent : list endpointProfile }.

Definition newEndpointProfileTranslator (cfg : config) : endpointProfileTranslator := mkEPT cfg [] false None [].

(** [Update]: whether it returns an error is left to the caller's log. *)
Definition ept_Update (r : ref) (ept : endpointProfileTranslator) : endpointProfileTranslator :=
  if bool_decide (length (ept_updates ept) < updateQueueCapacity)%nat
  then mkEPT (ept_config ept) (ept_updates ept ++ [r]) (ept_endStream ept) (ept_current ept) (ept_sent ept)
  else mkEPT (ept_config ept) (ept_updates ept) true (ept_current ept) (ept_sent ept).

Definition withNamespace (ns : string) (wa : WA) : WA :=
  mkWeightedAddr (wa_Addr wa) (wa_Weight wa) (<["namespace" := ns]> (wa_MetricLabels wa)) (wa_TlsIdentity wa)
    (wa_ProtocolHint wa) (wa_AuthorityOverride wa) (wa_Http2 wa).

Definition createEndpoint (cfg : config) (address : Address) (opaquePorts : ports) : res WA :=
  let* weightedAddr := match a_ExternalWorkload address with
    | Some _ => createWeightedAddrForExternalWorkload address opaquePorts (meshedHTTP2ClientParams cfg)
    | None => createWeightedAddr address opaquePorts (enableH2Upgrade cfg) (identityTrustDomain cfg)
                (controllerNS cfg) (meshedHTTP2ClientParams cfg)
    end in
  Ok match a_Pod address, a_ExternalWorkload address with
     | Some pod, _ => withNamespace (pod_Namespace pod) weightedAddr
     | None, Some ew => withNamespace (ew_Namespace ew) weightedAddr
     | None, None => weightedAddr
     end.

(** The profile of an address. *)
Definition profileOf (cfg : config) (address : Address) : res endpointProfile :=
  let opaquePorts := match a_Pod address with
    | Some pod => GetAnnotatedOpaquePorts (Some pod) (defaultOpaquePorts cfg)
    | None => GetAnnotatedOpaquePortsForExternalWorkload (a_ExternalWorkload address) (defaultOpaquePorts cfg)
    end in
  let* endpoint := createEndpoint cfg address opaquePorts in
  Ok (mkEndpointProfile defaultRetryBudget endpoint
        (bool_decide (Port address ∈ opaquePorts) || OpaqueProtocol address)).

(** [update] of the address a reference points to, and whether sending succeeds. *)
Definition ept_update (address : Address) (sendOk : bool) (ept : endpointProfileTranslator)
    : endpointProfileTranslator :=
  match profileOf (ept_config ept) address with
  | Ok profile =>
      if bool_decide (ept_current ept = Some profile) then ept else
      if sendOk then mkEPT (ept_config ept) (ept_updates ept) (ept_endStream ept) (Some profile)
                       (ept_sent ept ++ [profile])
      else ept
  | _ => ept
  end.

(** The goroutine of [Start] takes an update from the queue. *)
Definition ept_receive (heap : gmap ref workloadPublisher) (sendOk : bool) (ept : endpointProfileTranslator)
    : option endpointProfileTranslator :=
  match ept_updates ept with
  | [] => None
  | r :: rest =>
      wp ← heap !! r;
      Some (ept_update (wp_addr wp) sendOk
              (mkEPT (ept_config ept) rest (ept_endStream ept) (ept_current ept) (ept_sent ept)))
  end.

(** * The watcher and its streams *)
(** A stream: what it was subscribed with, the publisher it is subscribed to, its listener. *)
Record stream := mkStream { st_key : IPPort; st_ref : ref; st_ept : endpointProfileTranslator }.

(** A subscription is in two steps: the publisher is looked up or made, then the listener is
    added to it; in between, the lock of the watcher is free. *)
Record wsystem := mkWSystem {
  ws_ww : WorkloadWatcher; ws_tasks : list task; ws_joining : list (listener * IPPort * ref * config);
  ws_streams : gmap listener stream }.

(** Calling the listeners of a publisher. *)
Definition call_listener (r : ref) (streams : gmap listener stream) (l : listener) : gmap listener stream :=
  alter (λ s, mkStream (st_key s) (st_ref s) (ept_Update r (st_ept s))) l streams.
Definition call_listeners (heap : gmap ref workloadPublisher) (streams : gmap listener stream) (r : ref)
    : gmap listener stream :=
  match heap !! r with
  | Some wp => foldl (call_listener r) streams (wp_listeners wp)
  | None => streams
  end.
Definition call_all (ww : WorkloadWatcher) (rs : list ref) (streams : gmap listener stream) : gmap listener stream :=
  foldl (call_listeners (ww_heap ww)) streams rs.

Context `{!MapRange}.

Inductive ws_step : wsystem → wsystem → Prop :=
  | ws_event ww ts js ss new : (* a handler of pods or workloads *)
      ws_step (mkWSystem ww ts js ss) (mkWSystem ww (ts ++ new) js ss)
  | ws_pod ww ts1 pod remove ts2 js ss api ww' rs :
      submitPodUpdate api pod remove ww = (ww', rs) →
      ws_step (mkWSystem ww (ts1 ++ SubmitPod pod remove :: ts2) js ss)
        (mkWSystem ww' (ts1 ++ ts2) js (call_all ww' rs ss))
  | ws_workload ww ts1 ew remove ts2 js ss api ww' rs :
      submitExternalWorkloadUpdate api ew remove ww = Ok (ww', rs) →
      ws_step (mkWSystem ww (ts1 ++ SubmitWorkload ew remove :: ts2) js ss)
        (mkWSystem ww' (ts1 ++ ts2) js (call_all ww' rs ss))
  | ws_servers ww ts js ss api servers ww' rs :
      updateServers api servers ww = (ww', rs) →
      ws_step (mkWSystem ww ts js ss) (mkWSystem ww' (ts ++ (Notify <$> rs)) js ss)
  | ws_notify ww ts1 r ts2 js ss :
      ws_step (mkWSystem ww (ts1 ++ Notify r :: ts2) js ss) (mkWSystem ww (ts1 ++ ts2) js (call_all ww [r] ss))
  | ws_lookup ww ts js ss cc service hostname ip port r ww' wp l cfg :
      getOrNewWorkloadPublisher cc service hostname ip port ww = Ok (r, ww') → ww_heap ww' !! r = Some wp →
      ws_step (mkWSystem ww ts js ss)
        (mkWSystem ww' ts (js ++ [(l, (IP (wp_addr wp), port), r, cfg)]) ss)
  | ws_join ww ts js1 l k r cfg js2 ss wp :
      ss !! l = None → (∀ r' wp', ww_heap ww !! r' = Some wp' → l ∉ wp_listeners wp') →  (* a new listener *)
      ww_heap ww !! r = Some wp →
      ws_step (mkWSystem ww ts (js1 ++ (l, k, r, cfg) :: js2) ss)
        (mkWSystem (set_heap (<[r := subscribe l wp]> (ww_heap ww)) ww) ts (js1 ++ js2)
           (<[l := mkStream k r (ept_Update r (newEndpointProfileTranslator cfg))]> ss))
  | ws_leave ww ts js ss l s :
      ss !! l = Some s →
      ws_step (mkWSystem ww ts js ss) (mkWSystem (Unsubscribe (st_key s).1 (st_key s).2 l ww) ts js (delete l ss))
  | ws_receive ww ts js ss l s ept :
      ss !! l = Some s → ept_receive (ww_heap ww) true (st_ept s) = Some ept →
      ws_step (mkWSystem ww ts js ss) (mkWSystem ww ts js (<[l := mkStream (st_key s) (st_ref s) ept]> ss)).

Definition ws_init (enableEndpointSlices : bool) (defaultOpaquePorts : ports) : wsystem :=
  mkWSystem (NewWorkloadWatcher enableEndpointSlices defaultOpaquePorts) [] [] ∅.
End translator.
