(* ===== verification/WorkloadProps.v ===== *)
(** Theorems on the workload watcher and the endpoint profile streams: streams show the
    current address of their publisher, and what goes wrong with deleted workloads, other
    pods, Servers and concurrent subscriptions. *)
From S2P Require Import Prelude GoStd K8s PortRange Addresses Addr WeightedAddr ProfileTranslator WorkloadWatcher.

#[local] Open Scope string_scope.
#[local] Open Scope list_scope.
#[local] Open Scope Z_scope.

(** * What the operations do to the heap *)
(** The publishers stay with their listeners and keys, and only those in the list have
    another address. *)
Definition same_publisher (changed : Prop) (wp wp' : workloadPublisher) : Prop :=
  wp_listeners wp' = wp_listeners wp ∧ IP (wp_addr wp') = IP (wp_addr wp) ∧ Port (wp_addr wp') = Port (wp_addr wp)
  ∧ (¬ changed → wp_addr wp' = wp_addr wp).
Definition heap_ok (h h' : gmap ref workloadPublisher) (rs : list ref) : Prop :=
  ∀ r, option_relation (same_publisher (r ∈ rs)) (λ _, False) (λ _, False) (h !! r) (h' !! r).

Lemma heap_ok_refl h rs : heap_ok h h rs.
Proof. intros r. destruct (h !! r); by simpl. Qed.

Lemma heap_ok_app h h1 h2 rs rs' : heap_ok h h1 rs → heap_ok h1 h2 rs' → heap_ok h h2 (rs ++ rs').
Proof.
  intros H1 H2 r. specialize (H1 r). specialize (H2 r).
  destruct (h !! r) as [wp|], (h1 !! r) as [wp1|], (h2 !! r) as [wp2|]; simpl in *; try done.
  destruct H1 as (? & ? & ? & Hc1), H2 as (? & ? & ? & Hc2). split_and!; try congruence.
  intros Hn. rewrite elem_of_app in Hn. rewrite Hc2, Hc1 by tauto. done.
Qed.

Lemma heap_ok_insert h r wp wp' rs :
  h !! r = Some wp → same_publisher (r ∈ rs) wp wp' → heap_ok h (<[r := wp']> h) rs.
Proof.
  intros Hr Hs r'. destruct (decide (r' = r)) as [->|Hne].
  - by rewrite Hr, lookup_insert_eq.
  - rewrite lookup_insert_ne by done. apply heap_ok_refl.
Qed.

Lemma withServers_addr api f a :
  (∀ a', f api a = Ok a' → IP a' = IP a ∧ Port a' = Port a) →
  IP (withServers api f a) = IP a ∧ Port (withServers api f a) = Port a.
Proof. unfold withServers. intros Hf. destruct (f api a) eqn:H; [by apply Hf|done|done]. Qed.

Lemma SetToServerProtocol_addr api a a' :
  SetToServerProtocol api a = Ok a' → a' = a ∨ a' = set_OpaqueProtocol true a.
Proof.
  unfold SetToServerProtocol. destruct (a_Pod a); [|done]. destruct (api_Servers api); [|done].
  intros (o & _ & [= <-])%res_bind_Ok. destruct o; auto.
Qed.
Lemma SetToServerProtocolExternalWorkload_addr api a a' :
  SetToServerProtocolExternalWorkload api a = Ok a' → a' = a ∨ a' = set_OpaqueProtocol true a.
Proof.
  unfold SetToServerProtocolExternalWorkload. destruct (a_ExternalWorkload a); [|done].
  destruct (api_Servers api); [|done]. intros (o & _ & [= <-])%res_bind_Ok. destruct o; auto.
Qed.

Lemma withServers_pod api a : withServers api SetToServerProtocol a = a
  ∨ withServers api SetToServerProtocol a = set_OpaqueProtocol true a.
Proof.
  unfold withServers. destruct (SetToServerProtocol api a) eqn:H; [|by left..].
  by apply SetToServerProtocol_addr in H.
Qed.

Lemma updatePod_same api pod wp wp' called :
  updatePod api pod wp = (wp', called) → same_publisher (called = true) wp wp'.
Proof.
  unfold updatePod. intros H. destruct (a_Pod (wp_addr wp)), pod as [pod|]; simplify_eq/=; try done.
  - destruct (isRunning pod); simplify_eq/=; by split_and!.
  - destruct (isRunning pod); simplify_eq/=; [|by split_and!].
    destruct (default _ _) as [kind name]. simplify_eq/=.
    destruct (withServers_pod api (set_Pod (Some pod) kind name (wp_addr wp))) as [-> | ->]; by split_and!.
Qed.

Lemma updateExternalWorkload_same api ew wp wp' :
  updateExternalWorkload api ew wp = Ok wp' → same_publisher True wp wp'.
Proof.
  unfold updateExternalWorkload. set (a := match ew with Some _ => _ | None => _ end).
  assert (IP a = IP (wp_addr wp) ∧ Port a = Port (wp_addr wp)) as [Hip Hp].
  { unfold a. destruct ew as [ew|]; [|done]. destruct (ew_OwnerReferences ew) as [|? [|]]; done. }
  clearbody a. intros H. destruct (SetToServerProtocolExternalWorkload api a) as [a'| |] eqn:Hs; [| |done].
  - injection H as <-. apply SetToServerProtocolExternalWorkload_addr in Hs.
    unfold same_publisher. simpl. destruct Hs as [-> | ->]; simpl; rewrite ?Hip, ?Hp; tauto.
  - destruct ew; [|done]. injection H as <-. unfold same_publisher. simpl. tauto.
Qed.

(** ** The loops over publishers *)
Definition pub_op (f : workloadPublisher → workloadPublisher * bool) : Prop :=
  ∀ wp, same_publisher ((f wp).2 = true) wp (f wp).1.

Lemma onPublishers_ok f ks ww ww' rs :
  pub_op f → onPublishers ks f ww = (ww', rs) →
  ww_publishers ww' = ww_publishers ww ∧ heap_ok (ww_heap ww) (ww_heap ww') rs.
Proof.
  intros Hf. revert ww ww' rs. induction ks as [|k ks IH]; intros ww ww' rs H; simpl in H.
  { simplify_eq. split; [done|apply heap_ok_refl]. }
  destruct (onPublisher k f ww) as [ww1 rs1] eqn:H1. destruct (onPublishers ks f ww1) as [ww2 rs2] eqn:H2.
  simplify_eq. destruct (IH _ _ _ H2) as [Hp2 Hh2].
  assert (ww_publishers ww1 = ww_publishers ww ∧ heap_ok (ww_heap ww) (ww_heap ww1) rs1) as [Hp1 Hh1].
  { unfold onPublisher in H1. destruct (ww_publishers ww !! k) as [r|] eqn:Hk; [|simplify_eq; split; [done|apply heap_ok_refl]].
    destruct (ww_heap ww !! r) as [wp|] eqn:Hr; [|simplify_eq; split; [done|apply heap_ok_refl]].
    specialize (Hf wp). destruct (f wp) as [wp' called]. simplify_eq/=. split; [done|].
    eapply heap_ok_insert; [done|]. destruct Hf as (? & ? & ? & Hc). split_and!; try done.
    intros Hn. apply Hc. intros ->. apply Hn. by left. }
  split; [congruence|]. by eapply heap_ok_app.
Qed.

Lemma submitTo_ok api ew ks ww ww' rs :
  submitTo api ew ks ww = Ok (ww', rs) →
  ww_publishers ww' = ww_publishers ww ∧ heap_ok (ww_heap ww) (ww_heap ww') rs.
Proof.
  revert ww ww' rs. induction ks as [|k ks IH]; intros ww ww' rs H; simpl in H.
  { simplify_eq. split; [done|apply heap_ok_refl]. }
  destruct (ww_publishers ww !! k) as [r|]; [|by apply IH].
  destruct (ww_heap ww !! r) as [wp|] eqn:Hr; [|by apply IH].
  apply res_bind_Ok in H as (wp' & Hwp & H). apply res_bind_Ok in H as ([ww2 rs2] & H2 & [= <- <-]).
  destruct (IH _ _ _ H2) as [Hp Hh]. split; [done|]. simpl. change (r :: rs2) with ([r] ++ rs2).
  eapply heap_ok_app; [|exact Hh]. eapply heap_ok_insert; [done|].
  destruct (updateExternalWorkload_same _ _ _ _ Hwp) as (? & ? & ? & _). split_and!; try done.
  intros Hn. destruct Hn. by left.
Qed.

Lemma updatePod_op api pod : pub_op (updatePod api pod).
Proof. intros wp. destruct (updatePod api pod wp) eqn:H. by eapply updatePod_same. Qed.

Lemma updateAddrServers_spec api d servers a a' changed :
  updateAddrServers api d servers a = (a', changed) →
  a' = a ∧ changed = false ∨ a' = set_OpaqueProtocol true a ∧ OpaqueProtocol a = false ∧ changed = true.
Proof.
  unfold updateAddrServers. intros H. case_match; [|simplify_eq; auto]. case_bool_decide; [simplify_eq; auto|].
  simplify_eq. destruct (withServers_pod api a) as [-> | ->].
  - left. split; [done|]. by rewrite eqb_reflx.
  - simpl. destruct (OpaqueProtocol a) eqn:Ho; [left|by right]. split; [|done].
    destruct a. simpl in *. by subst.
Qed.

Lemma servers_op api d servers :
  pub_op (λ wp, let '(a, changed) := updateAddrServers api d servers (wp_addr wp) in (set_wp_addr a wp, changed)).
Proof.
  intros wp. destruct (updateAddrServers api d servers (wp_addr wp)) as [a changed] eqn:H. simpl.
  apply updateAddrServers_spec in H as [[-> ->]|(-> & Ho & ->)]; by split_and!.
Qed.

(** * What calling listeners does to the streams *)
Section streams.
Context {Http2ClientParams : Type} `{!EqDecision Http2ClientParams} {HR : MapRange}.
Implicit Types (ss : gmap listener (stream (Http2ClientParams := Http2ClientParams))).

(** A stream only gets references to publishers it listens to. *)
Definition stream_fed (h : gmap ref workloadPublisher) (l : listener)
    (s s' : stream (Http2ClientParams := Http2ClientParams)) : Prop :=
  st_key s' = st_key s ∧ st_ref s' = st_ref s ∧ ept_config (st_ept s') = ept_config (st_ept s)
  ∧ ept_current (st_ept s') = ept_current (st_ept s)
  ∧ (ept_endStream (st_ept s') = false → ept_endStream (st_ept s) = false)
  ∧ (length (ept_updates (st_ept s)) ≤ updateQueueCapacity → length (ept_updates (st_ept s')) ≤ updateQueueCapacity)%nat
  ∧ ∃ q, ept_updates (st_ept s') = ept_updates (st_ept s) ++ q
      ∧ Forall (λ r, ∃ wp, h !! r = Some wp ∧ l ∈ wp_listeners wp) q.
Definition fed (h : gmap ref workloadPublisher) ss ss' : Prop :=
  ∀ l, option_relation (stream_fed h l) (λ _, False) (λ _, False) (ss !! l) (ss' !! l).

Lemma stream_fed_refl h l s : stream_fed h l s s.
Proof. split_and!; try done. exists []. by rewrite app_nil_r. Qed.

#[local] Instance fed_preorder h : PreOrder (fed h).
Proof.
  split.
  - intros ss l. destruct (ss !! l); simpl; [apply stream_fed_refl|done].
  - intros ss1 ss2 ss3 H1 H2 l. specialize (H1 l). specialize (H2 l).
    destruct (ss1 !! l) as [s1|], (ss2 !! l) as [s2|], (ss3 !! l) as [s3|]; simpl in *; try done.
    destruct H1 as (? & ? & ? & ? & ? & ? & q1 & Hq1 & Hf1), H2 as (? & ? & ? & ? & ? & ? & q2 & Hq2 & Hf2).
    split_and!; try congruence; try tauto. exists (q1 ++ q2). rewrite Hq2, Hq1, app_assoc.
    split; [done|by apply Forall_app_2].
Qed.

Lemma call_listener_fed h r ss l wp :
  h !! r = Some wp → l ∈ wp_listeners wp → fed h ss (call_listener r ss l).
Proof.
  intros Hr Hl l'. unfold call_listener. destruct (decide (l' = l)) as [->|Hne].
  - rewrite lookup_alter_eq. destruct (ss !! l) as [s|]; simpl; [|done].
    unfold stream_fed. simpl. unfold ept_Update. case_bool_decide; simpl; split_and!; try done; try lia.
    + rewrite length_app. simpl. lia.
    + exists [r]. split; [done|]. apply Forall_singleton. eauto.
    + exists []. by rewrite app_nil_r.
  - rewrite lookup_alter_ne by done. destruct (ss !! l'); simpl; [apply stream_fed_refl|done].
Qed.

Lemma call_list_fed h r ss ls wp :
  h !! r = Some wp → (∀ l, l ∈ ls → l ∈ wp_listeners wp) → fed h ss (foldl (call_listener r) ss ls).
Proof.
  intros Hr. revert ss. induction ls as [|l ls IH]; intros ss Hls; [reflexivity|]. simpl.
  transitivity (call_listener r ss l); [|apply IH; intros l' ?; apply Hls; by right].
  eapply call_listener_fed; [done|]. apply Hls. by left.
Qed.

Lemma call_listeners_fed h ss r : fed h ss (call_listeners h ss r).
Proof. unfold call_listeners. destruct (h !! r) eqn:Hr; [|reflexivity]. by eapply call_list_fed. Qed.

Lemma call_all_fed ww rs ss : fed (ww_heap ww) ss (call_all ww rs ss).
Proof.
  unfold call_all. revert ss. induction rs as [|r rs IH]; intros ss; [reflexivity|]. simpl.
  etransitivity; [apply call_listeners_fed|apply IH].
Qed.

(** A stream that was called has something to receive. *)
Definition has_update ss (l : listener) : Prop := ∀ s, ss !! l = Some s → ept_updates (st_ept s) ≠ [].

Lemma fed_has_update h ss ss' l : fed h ss ss' → has_update ss l → has_update ss' l.
Proof.
  intros Hf Hu s' Hs'. specialize (Hf l). rewrite Hs' in Hf. destruct (ss !! l) as [s|] eqn:Hs; simpl in *; [|done].
  destruct Hf as (_ & _ & _ & _ & _ & _ & q & -> & _). intros [Hnil _]%app_nil. by apply (Hu s Hs).
Qed.

Lemma call_listener_has r ss l : has_update (call_listener r ss l) l.
Proof.
  intros s. unfold call_listener. rewrite lookup_alter_eq. destruct (ss !! l) as [s0|]; [|done].
  intros [= <-]. simpl. unfold ept_Update. case_bool_decide as Hc; simpl; [by intros [_ ?]%app_nil|].
  intros Hn. rewrite Hn in Hc. simpl in Hc. unfold updateQueueCapacity in Hc. lia.
Qed.

Lemma call_list_has (h : gmap ref workloadPublisher) r ss ls l wp :
  h !! r = Some wp → (∀ l, l ∈ ls → l ∈ wp_listeners wp) → l ∈ ls → has_update (foldl (call_listener r) ss ls) l.
Proof.
  intros Hr. revert ss. induction ls as [|l' ls IH]; intros ss Hls Hl; [by apply not_elem_of_nil in Hl|]. simpl.
  apply elem_of_cons in Hl as [->|Hl]; [|apply IH; [intros ? ?; apply Hls; by right|done]].
  eapply fed_has_update; [|apply call_listener_has]. eapply call_list_fed; [done|]. intros ? ?. apply Hls. by right.
Qed.

Lemma call_all_has ww rs ss r wp l :
  r ∈ rs → ww_heap ww !! r = Some wp → l ∈ wp_listeners wp → has_update (call_all ww rs ss) l.
Proof.
  intros Hr Hwp Hl. unfold call_all. revert ss. induction rs as [|r' rs IH]; intros ss; [by apply not_elem_of_nil in Hr|].
  simpl. apply elem_of_cons in Hr as [->|Hr]; [|by apply IH].
  eapply fed_has_update; [apply (call_all_fed ww rs)|]. unfold call_listeners. rewrite Hwp. by eapply call_list_has.
Qed.

(** * The invariant *)
(** A stream shows the address of its publisher. *)
Definition shows (addr : Address) (e : endpointProfileTranslator (Http2ClientParams := Http2ClientParams)) : Prop :=
  ∀ p, profileOf (ept_config e) addr = Ok p → ept_current e = Some p.

Record ws_inv (sys : wsystem (Http2ClientParams := Http2ClientParams)) : Prop := {
  inv_publishers k r : ww_publishers (ws_ww sys) !! k = Some r →
    ∃ wp, ww_heap (ws_ww sys) !! r = Some wp ∧ (IP (wp_addr wp), Port (wp_addr wp)) = k;
  inv_streams l s : ws_streams sys !! l = Some s →
    ∃ wp, ww_heap (ws_ww sys) !! st_ref s = Some wp ∧ l ∈ wp_listeners wp
      ∧ Forall (.= st_ref s) (ept_updates (st_ept s)) ∧ (length (ept_updates (st_ept s)) ≤ updateQueueCapacity)%nat
      ∧ (ept_endStream (st_ept s) = false → ept_updates (st_ept s) = [] → Notify (st_ref s) ∉ ws_tasks sys →
         shows (wp_addr wp) (st_ept s));
  inv_unique l s r wp : ws_streams sys !! l = Some s → ww_heap (ws_ww sys) !! r = Some wp → l ∈ wp_listeners wp →
    r = st_ref s }.

(** A step that changes addresses and calls listeners, now or in a goroutine. *)
Lemma ws_inv_calls ww ww' ts ts' js ss ss' rs :
  ws_inv (mkWSystem ww ts js ss) → ww_publishers ww' = ww_publishers ww →
  heap_ok (ww_heap ww) (ww_heap ww') rs → fed (ww_heap ww') ss ss' →
  (∀ r, r ∈ rs ∨ Notify r ∈ ts → Notify r ∈ ts'
     ∨ ∀ wp l, ww_heap ww' !! r = Some wp → l ∈ wp_listeners wp → has_update ss' l) →
  ws_inv (mkWSystem ww' ts' js ss').
Proof.
  intros [Hp Hs Hu] Hpub Hheap Hfed Hcalls. simpl in *.
  assert (∀ l s r wp, ss !! l = Some s → ww_heap ww' !! r = Some wp → l ∈ wp_listeners wp → r = st_ref s) as Hu'.
  { intros l s r wp Hl Hr Hin. specialize (Hheap r). rewrite Hr in Hheap.
    destruct (ww_heap ww !! r) as [wp0|] eqn:Hr0; simpl in Hheap; [|done]. destruct Hheap as (Hls & _).
    eapply Hu; [done..|]. by rewrite <-Hls. }
  split; simpl.
  - intros k r Hk. rewrite Hpub in Hk. destruct (Hp k r Hk) as (wp & Hwp & Hkey). specialize (Hheap r).
    rewrite Hwp in Hheap. destruct (ww_heap ww' !! r) as [wp'|]; simpl in Hheap; [|done].
    destruct Hheap as (_ & Hip & Hpo & _). exists wp'. by rewrite Hip, Hpo.
  - intros l s' Hl. pose proof (Hfed l) as Hf. rewrite Hl in Hf. destruct (ss !! l) as [s|] eqn:Hl0; simpl in Hf; [|done].
    destruct Hf as (_ & Href & Hcfg & Hcur & Hend & Hlen & q & Hq & Hqf).
    destruct (Hs l s Hl0) as (wp & Hwp & Hin & Hall & Hle & Hshow). pose proof (Hheap (st_ref s)) as Hh. rewrite Hwp in Hh.
    destruct (ww_heap ww' !! st_ref s) as [wp'|] eqn:Hwp'; simpl in Hh; [|done]. destruct Hh as (Hls & _ & _ & Haddr).
    exists wp'. rewrite Href. split_and!; [done|by rewrite Hls| |by apply Hlen|].
    + rewrite Hq. apply Forall_app_2; [done|]. eapply Forall_impl; [exact Hqf|]. intros r (wpr & Hr & Hlr). by eapply Hu'.
    + intros He Hnil Hnot. assert ((st_ref s ∉ rs) ∧ (Notify (st_ref s) ∉ ts)) as [Hrs Hts].
      { assert (l ∈ wp_listeners wp') as Hin' by (by rewrite Hls).
        split; intros Hr; destruct (Hcalls (st_ref s)) as [Hn|Hn]; try (by auto);
          by apply (Hn wp' l Hwp' Hin' s' Hl). }
      rewrite Hq in Hnil. apply app_nil in Hnil as [Hnil _]. unfold shows. rewrite Hcfg, Hcur, (Haddr Hrs).
      by apply Hshow; [apply Hend|..].
  - intros l s' r wp Hl Hr Hin. specialize (Hfed l). rewrite Hl in Hfed.
    destruct (ss !! l) as [s|] eqn:Hl0; simpl in Hfed; [|done]. destruct Hfed as (_ & -> & _). by eapply Hu'.
Qed.

Lemma newPublisher_fresh cc ip port pod ew wp :
  newPublisher cc ip port pod ew = Ok wp → wp_listeners wp = [] ∧ IP (wp_addr wp) = ip ∧ Port (wp_addr wp) = port.
Proof.
  unfold newPublisher. set (wp0 := match pod with Some _ => _ | None => _ end).
  assert (wp_listeners wp0 = [] ∧ IP (wp_addr wp0) = ip ∧ Port (wp_addr wp0) = port) as (Hl & Hi & Hp).
  { unfold wp0. destruct pod as [pod|]; [|done]. destruct (updatePod (cc_api cc) (Some pod) _) as [wp' c] eqn:H.
    simpl. apply updatePod_same in H as (-> & -> & -> & _). done. }
  clearbody wp0. destruct ew; intros H; [|by simplify_eq].
  apply updateExternalWorkload_same in H as (-> & -> & -> & _). done.
Qed.

Lemma ws_inv_lookup ww ts js ss cc service hostname ip port r ww' js' :
  ws_inv (mkWSystem ww ts js ss) → getOrNewWorkloadPublisher cc service hostname ip port ww = Ok (r, ww') →
  ws_inv (mkWSystem ww' ts js' ss).
Proof.
  intros [Hp Hs Hu] (((ip' & pod) & ew) & _ & H)%res_bind_Ok. simpl in *.
  destruct (ww_publishers ww !! (ip', port)) as [r0|] eqn:Hk; [simplify_eq; by split|].
  apply res_bind_Ok in H as (wp & Hwp & H). simplify_eq. apply newPublisher_fresh in Hwp as (Hls & Hip & Hpo).
  set (r := fresh (dom (ww_heap ww))).
  assert (ww_heap ww !! r = None) as Hr by (apply not_elem_of_dom, is_fresh).
  assert (∀ r' wp', ww_heap ww !! r' = Some wp' → <[r := wp]> (ww_heap ww) !! r' = Some wp') as Hkeep.
  { intros r' wp' Hr'. rewrite lookup_insert_ne; [done|]. intros <-. congruence. }
  split; simpl.
  - intros k r' [[<- <-]|[Hne Hk']]%lookup_insert_Some; [exists wp; by rewrite lookup_insert_eq, Hip, Hpo|].
    destruct (Hp k r' Hk') as (wp' & Hwp' & <-). eauto.
  - intros l s Hl. destruct (Hs l s Hl) as (wp' & Hwp' & Hrest). eauto.
  - intros l s r' wp' Hl [[_ <-]|[_ Hr']]%lookup_insert_Some Hin; [by rewrite Hls in Hin; apply not_elem_of_nil in Hin|].
    by eapply Hu.
Qed.

Lemma ws_inv_join ww ts js js' ss l k r cfg wp :
  ws_inv (mkWSystem ww ts js ss) → ss !! l = None →
  (∀ r' wp', ww_heap ww !! r' = Some wp' → l ∉ wp_listeners wp') → ww_heap ww !! r = Some wp →
  ws_inv (mkWSystem (set_heap (<[r := subscribe l wp]> (ww_heap ww)) ww) ts js'
    (<[l := mkStream k r (ept_Update r (newEndpointProfileTranslator cfg))]> ss)).
Proof.
  intros [Hp Hs Hu] Hnew Hfresh Hr. simpl in *. split; simpl.
  - intros k' r' Hk. destruct (Hp k' r' Hk) as (wp' & Hwp' & Hkey). destruct (decide (r' = r)) as [->|Hne].
    + rewrite lookup_insert_eq. eexists. split; [done|]. by simplify_eq/=.
    + rewrite lookup_insert_ne by done. eauto.
  - intros l' s [[<- <-]|[Hne Hl]]%lookup_insert_Some; simpl.
    + rewrite lookup_insert_eq. eexists. split; [done|]. split_and!.
      * simpl. set_solver.
      * by apply Forall_singleton.
      * simpl. unfold updateQueueCapacity. lia.
      * done.
    + destruct (Hs l' s Hl) as (wp' & Hwp' & Hin & Hrest). destruct (decide (r = st_ref s)) as [->|Hne'].
      * rewrite lookup_insert_eq. simplify_eq. eexists. split; [done|]. simpl.
        split; [set_solver|done].
      * rewrite lookup_insert_ne by done. eauto.
  - intros l' s r' wp' [[<- <-]|[Hne Hl]]%lookup_insert_Some [[<- <-]|[Hne' Hr']]%lookup_insert_Some Hin; simpl in *.
    + done.
    + by destruct (Hfresh r' wp' Hr').
    + apply elem_of_app in Hin as [Hin|Hin%list_elem_of_singleton]; [by eapply Hu|done].
    + by eapply Hu.
Qed.

Lemma swap_remove_other (x y : listener) l : y ≠ x → y ∈ swap_remove x l ↔ y ∈ l.
Proof.
  intros Hne. destruct (decide (x ∈ l)) as [Hx|Hx]; [|by rewrite swap_remove_absent].
  pose proof (elem_of_Permutation_proper y _ _ (swap_remove_perm x l Hx)) as Hp. rewrite elem_of_cons in Hp. tauto.
Qed.

Lemma ws_inv_leave ww ts js ss ip port l :
  ws_inv (mkWSystem ww ts js ss) → ws_inv (mkWSystem (Unsubscribe ip port l ww) ts js (delete l ss)).
Proof.
  intros [Hp Hs Hu]. simpl in *.
  assert (ws_inv (mkWSystem ww ts js (delete l ss))) as Hdel.
  { split; simpl; [done|intros l' s [_ Hl]%lookup_delete_Some; by apply Hs|].
    intros l' s r wp [_ Hl]%lookup_delete_Some. by apply Hu. }
  unfold Unsubscribe. destruct (ww_publishers ww !! (ip, port)) as [r|] eqn:Hk; [|done].
  destruct (ww_heap ww !! r) as [wp|] eqn:Hr; [|done].
  assert (ws_inv (mkWSystem (set_heap (<[r := unsubscribe l wp]> (ww_heap ww)) ww) ts js (delete l ss))) as Hinv.
  { destruct Hdel as [Hp' Hs' Hu']. simpl in *. split; simpl.
    - intros k' r' Hk'. destruct (Hp' k' r' Hk') as (wp' & Hwp' & Hkey). destruct (decide (r' = r)) as [->|Hne].
      + rewrite lookup_insert_eq. eexists. split; [done|]. by simplify_eq/=.
      + rewrite lookup_insert_ne by done. eauto.
    - intros l' s Hl. destruct (Hs' l' s Hl) as (wp' & Hwp' & Hin & Hrest). apply lookup_delete_Some in Hl as [Hne Hl].
      destruct (decide (r = st_ref s)) as [->|Hne'].
      + rewrite lookup_insert_eq. simplify_eq. eexists. split; [done|]. simpl.
        split; [by apply swap_remove_other|done].
      + rewrite lookup_insert_ne by done. eauto.
    - intros l' s r' wp' Hl [[<- <-]|[Hne' Hr']]%lookup_insert_Some Hin; simpl in *; [|by eapply Hu'].
      apply lookup_delete_Some in Hl as [Hne Hl]. rewrite swap_remove_other in Hin by done. by eapply Hu. }
  destruct (wp_listeners (unsubscribe l wp)); [|done]. destruct Hinv as [Hp' Hs' Hu'].
  split; simpl in *; [|done..]. intros k' r' [_ Hk']%lookup_delete_Some. by apply Hp'.
Qed.

Lemma ws_inv_receive ww ts js ss l s ept :
  ws_inv (mkWSystem ww ts js ss) → ss !! l = Some s → ept_receive (ww_heap ww) true (st_ept s) = Some ept →
  ws_inv (mkWSystem ww ts js (<[l := mkStream (st_key s) (st_ref s) ept]> ss)).
Proof.
  intros [Hp Hs Hu] Hl Hrec. simpl in *. destruct (Hs l s Hl) as (wp & Hwp & Hin & Hall & Hlen & _).
  unfold ept_receive in Hrec. destruct (ept_updates (st_ept s)) as [|r rest] eqn:Hq; [done|].
  apply Forall_cons in Hall as [-> Hall]. rewrite Hwp in Hrec. injection Hrec as <-.
  set (e0 := mkEPT _ rest _ _ _).
  assert (ept_updates (ept_update (wp_addr wp) true e0) = rest
    ∧ shows (wp_addr wp) (ept_update (wp_addr wp) true e0)) as [Hq' Hshow].
  { unfold ept_update, shows. destruct (profileOf (ept_config e0) (wp_addr wp)) eqn:Hp0.
    - case_bool_decide as Hc; (split; [done|]); intros p Hpp;
        change (profileOf (ept_config e0) (wp_addr wp) = Ok p) in Hpp; rewrite Hp0 in Hpp; injection Hpp as <-; done.
    - split; [done|]. intros p Hpp. congruence.
    - split; [done|]. intros p Hpp. congruence. }
  split; simpl; [done| |].
  - intros l' s' [[<- <-]|[Hne Hl']]%lookup_insert_Some; [|by apply Hs]. simpl. exists wp. rewrite Hq'.
    split_and!; try done. simpl in Hlen. lia.
  - intros l' s' r wp' [[<- <-]|[Hne Hl']]%lookup_insert_Some; [by apply (Hu l s)|by apply Hu].
Qed.

Lemma ws_inv_step sys sys' : ws_step sys sys' → ws_inv sys → ws_inv sys'.
Proof.
  destruct 1 as [ww ts js ss new|ww ts1 pod remove ts2 js ss api ww' rs Hop|ww ts1 ew remove ts2 js ss api ww' rs Hop|
    ww ts js ss api servers ww' rs Hop|ww ts1 r ts2 js ss|ww ts js ss cc service hostname ip port r ww' wp l cfg Hop Hr|
    ww ts js1 l k r cfg js2 ss wp Hnew Hfresh Hr|ww ts js ss l s Hl|ww ts js ss l s ept Hl Hrec]; intros Hinv.
  - eapply ws_inv_calls; [exact Hinv|done|apply (heap_ok_refl _ [])|reflexivity|].
    intros r [Hr|Hr]; [by apply not_elem_of_nil in Hr|]. left. set_solver.
  - destruct (onPublishers_ok _ _ _ _ _ (updatePod_op _ _) Hop) as [Hp Hh].
    eapply ws_inv_calls; [exact Hinv|done|done|apply call_all_fed|].
    intros r [Hr|Hr]; [right; intros wp l Hwp Hl; by eapply call_all_has|]. left. set_solver.
  - destruct (submitTo_ok _ _ _ _ _ _ Hop) as [Hp Hh].
    eapply ws_inv_calls; [exact Hinv|done|done|apply call_all_fed|].
    intros r [Hr|Hr]; [right; intros wp l Hwp Hl; by eapply call_all_has|]. left. set_solver.
  - destruct (onPublishers_ok _ _ _ _ _ (servers_op _ _ _) Hop) as [Hp Hh].
    eapply ws_inv_calls; [exact Hinv|done|done|reflexivity|].
    intros r Hr. left. rewrite elem_of_app, list_elem_of_fmap. destruct Hr as [Hr|Hr]; [right; eauto|by left].
  - eapply ws_inv_calls; [exact Hinv|done|apply (heap_ok_refl _ [])|apply call_all_fed|].
    intros r' [Hr|Hr]; [by apply not_elem_of_nil in Hr|].
    apply elem_of_app in Hr as [Hr|[Hr|Hr]%elem_of_cons]; [left; set_solver| |left; set_solver].
    injection Hr as ->. right. intros wp l Hwp Hl. eapply call_all_has; [by left|done..].
  - by eapply ws_inv_lookup.
  - by eapply ws_inv_join.
  - by apply ws_inv_leave.
  - by eapply ws_inv_receive.
Qed.

Lemma ws_inv_init slices ports : ws_inv (ws_init slices ports).
Proof. split; simpl; intros *; by rewrite lookup_empty. Qed.

Lemma ws_reachable_inv slices ports sys : rtc ws_step (ws_init slices ports) sys → ws_inv sys.
Proof.
  intros Hr. assert (∀ a b, rtc ws_step a b → ws_inv a → ws_inv b) as Hrtc.
  { induction 1; eauto using ws_inv_step. }
  eapply Hrtc; [done|apply ws_inv_init].
Qed.

End streams.

(** * Deviations *)
(** A stream is subscribed to the address. *)
Definition published (ww : WorkloadWatcher) (k : IPPort) : Prop :=
  ∃ r, ww_publishers ww !! k = Some r ∧ is_Some (ww_heap ww !! r).
(** No event about a pod changes a publisher or calls a listener. *)
Definition deaf (ww : WorkloadWatcher) : Prop :=
  ∀ api pod remove, submitPodUpdate api pod remove ww = (ww, []).

(** C38: deleting an external workload panics.  When a stream is subscribed to one of the
    addresses of the workload, its publisher logs the name of the workload that is gone, for
    every state of the watcher and of the Servers. *)
Theorem workload_deletion_panics api ew ww k :
  k ∈ workloadTargets ew → published ww k →
  submitExternalWorkloadUpdate api ew true ww = Panic.
Proof.
  unfold submitExternalWorkloadUpdate. generalize (workloadTargets ew) as ks. intros ks Hk (r & Hr & wp & Hwp).
  induction ks as [|k' ks IH]; [by apply not_elem_of_nil in Hk|]. simpl.
  apply elem_of_cons in Hk as [<-|Hk]; [by rewrite Hr, Hwp|].
  destruct (ww_publishers ww !! k') as [r'|]; [|by apply IH].
  destruct (ww_heap ww !! r') as [wp'|]; [done|by apply IH].
Qed.

(** A property of publishers that an operation keeps is kept by the loop. *)
Lemma onPublishers_rel (R : relation workloadPublisher) `{!PreOrder R} f ks ww ww' rs r wp :
  (∀ wp, R wp (f wp).1) → onPublishers ks f ww = (ww', rs) → ww_heap ww !! r = Some wp →
  ∃ wp', ww_heap ww' !! r = Some wp' ∧ R wp wp'.
Proof.
  intros Hf. revert ww ww' rs wp. induction ks as [|k ks IH]; intros ww ww' rs wp Hop Hwp; simpl in Hop.
  { simplify_eq. by exists wp. }
  destruct (onPublisher k f ww) as [ww1 rs1] eqn:H1. destruct (onPublishers ks f ww1) as [ww2 rs2] eqn:H2. simplify_eq.
  assert (∃ wp1, ww_heap ww1 !! r = Some wp1 ∧ R wp wp1) as (wp1 & Hwp1 & HR1).
  { unfold onPublisher in H1. destruct (ww_publishers ww !! k) as [r'|]; [|simplify_eq; by exists wp].
    destruct (ww_heap ww !! r') as [wp0|] eqn:Hr'; [|simplify_eq; by exists wp].
    specialize (Hf wp0). destruct (f wp0) as [wp0' called]. simplify_eq/=.
    destruct (decide (r = r')) as [->|Hne]; [|rewrite lookup_insert_ne by done; by exists wp].
    rewrite lookup_insert_eq. simplify_eq. by exists wp0'. }
  destruct (IH _ _ _ _ H2 Hwp1) as (wp2 & Hwp2 & HR2). exists wp2. split; [done|]. by etransitivity.
Qed.

(** The operation of the loop reaches the publisher of every key. *)
Lemma onPublishers_reach (P : workloadPublisher → Prop) f ks ww ww' rs k r wp :
  (∀ wp, P (f wp).1) → onPublishers ks f ww = (ww', rs) → k ∈ ks → ww_publishers ww !! k = Some r →
  ww_heap ww !! r = Some wp → ∃ wp', ww_heap ww' !! r = Some wp' ∧ P wp'.
Proof.
  intros Hf. revert ww ww' rs wp. induction ks as [|k' ks IH]; intros ww ww' rs wp Hop Hk Hr Hwp; simpl in Hop.
  { by apply not_elem_of_nil in Hk. }
  destruct (onPublisher k' f ww) as [ww1 rs1] eqn:H1. destruct (onPublishers ks f ww1) as [ww2 rs2] eqn:H2. simplify_eq.
  assert (ww_publishers ww1 = ww_publishers ww) as Hp1.
  { unfold onPublisher in H1. repeat case_match; simplify_eq; done. }
  destruct (decide (k' = k)) as [->|Hne].
  - unfold onPublisher in H1. rewrite Hr, Hwp in H1. pose proof (Hf wp) as HP. destruct (f wp) as [wp1 c]. simplify_eq/=.
    set (R := λ a b : workloadPublisher, P a → P b).
    assert (PreOrder R) by (split; [by intros ? ?|intros ? ? ? HRa HRb ?; by apply HRb, HRa]).
    destruct (onPublishers_rel R f ks _ _ _ r wp1 ltac:(intros wp0 _; apply Hf) H2 ltac:(simpl; apply lookup_insert_eq))
      as (wp2 & Hwp2 & HR). exists wp2. split; [done|]. by apply HR.
  - apply elem_of_cons in Hk as [<-|Hk]; [done|].
    assert (PreOrder (λ _ _ : workloadPublisher, True)) by (by split).
    destruct (onPublishers_rel (λ _ _, True) f [k'] ww ww1 rs1 r wp) as (wp1 & Hwp1 & _);
      [done|simpl; rewrite H1; by rewrite app_nil_r|done|].
    eapply IH; [done..|by rewrite Hp1|done].
Qed.

(** any pod with the address clears it.  The deletion of a pod, such as a finished one
    whose IP address was given to another pod since, takes the pod that is running behind an
    address away from its publisher, although it is another pod. *)
Theorem other_pod_clears api finished running k r wp ww :
  finished ≠ running → isRunning running = true →
  k ∈ podTargets finished → ww_publishers ww !! k = Some r → ww_heap ww !! r = Some wp →
  a_Pod (wp_addr wp) = Some running →
  let ww' := (submitPodUpdate api finished true ww).1 in
  ∃ wp', ww_heap ww' !! r = Some wp' ∧ a_Pod (wp_addr wp') = None.
Proof.
  intros _ _ Hk Hr Hwp _ ww'. unfold ww', submitPodUpdate.
  destruct (onPublishers _ _ ww) as [ww1 rs] eqn:Hop. simpl.
  eapply (onPublishers_reach (λ wp, a_Pod (wp_addr wp) = None)); [|exact Hop|done..].
  intros wp0. unfold updatePod. destruct (a_Pod (wp_addr wp0)) eqn:Hp0; [done|exact Hp0].
Qed.

(** Server updates go one way and miss workloads.  Whatever the Servers are afterwards,
    also none at all, an update of Servers never takes the opaque protocol away from a
    publisher's address, and never changes the address of an external workload. *)
Theorem server_update_one_way `{!MapRange} api servers ww ww' rs r wp :
  updateServers api servers ww = (ww', rs) → ww_heap ww !! r = Some wp →
  ∃ wp', ww_heap ww' !! r = Some wp'
    ∧ (OpaqueProtocol (wp_addr wp) = true → OpaqueProtocol (wp_addr wp') = true)
    ∧ (a_Pod (wp_addr wp) = None → wp_addr wp' = wp_addr wp).
Proof.
  intros Hop Hwp.
  set (R := λ a b : workloadPublisher, (OpaqueProtocol (wp_addr a) = true → OpaqueProtocol (wp_addr b) = true)
    ∧ (a_Pod (wp_addr a) = None → wp_addr b = wp_addr a)).
  assert (PreOrder R).
  { split; [by intros ?|]. intros a b c [H1 H2] [H3 H4]. split; [by auto|]. intros Ha.
    rewrite H4; [by apply H2|]. by rewrite H2. }
  eapply (onPublishers_rel R); [|exact Hop|done]. intros wp0. cbv beta.
  destruct (updateAddrServers api (ww_defaultOpaquePorts ww) servers (wp_addr wp0)) as [a changed] eqn:Hu. simpl. split; simpl.
  - intros Ho. apply updateAddrServers_spec in Hu as [[-> _]|(-> & _)]; done.
  - intros Hpod. unfold updateAddrServers in Hu. case_match; [|by simplify_eq]. case_bool_decide; simplify_eq; [done|].
    unfold withServers, SetToServerProtocol. by rewrite Hpod.
Qed.

(** A target found by its IP address keeps it. *)
Lemma findTarget_ip cc slices ip port t : findTarget cc slices None "" ip port = Ok t → t.1.1 = ip.
Proof.
  unfold findTarget. rewrite bool_decide_false by (intros Hn; by apply Hn).
  intros (pod & _ & Hf)%res_bind_Ok. apply res_bind_Ok in Hf as ([pod'|] & _ & Hf); [by simplify_eq|].
  apply res_bind_Ok in Hf as (ew & _ & Hf). by simplify_eq.
Qed.

(** a subscription can be lost.  The publisher is looked up under the watcher's lock, but
    the listener is added after the lock was released: when the last other listener leaves in
    between, the publisher is dropped from the watcher, and the stream that joins it is never
    told about a pod again. *)
Theorem lost_subscription {P : Type} `{!EqDecision P} `{!MapRange} cc slices ports ip port r ww (cfg : config P) :
  getOrNewWorkloadPublisher cc None "" ip port (NewWorkloadWatcher slices ports) = Ok (r, ww) →
  ∃ sys s, rtc ws_step (ws_init slices ports) sys
    ∧ ws_streams sys !! 2%positive = Some s ∧ st_key s = (ip, port) ∧ ept_config (st_ept s) = cfg
    ∧ ws_joining sys = [] ∧ is_Some (ww_publishers ww !! (ip, port)) ∧ deaf (ws_ww sys).
Proof.
  intros Hget0. pose proof Hget0 as (((ip' & pod) & ew) & Ht & Hnew)%res_bind_Ok.
  pose proof (findTarget_ip _ _ _ _ _ Ht) as Hip. simpl in Hip. subst ip'. simpl in Hnew.
  apply res_bind_Ok in Hnew as (wp & Hwp & Hnew). apply newPublisher_fresh in Hwp as (Hls & Hip & Hport).
  set (wp1 := subscribe 1%positive wp). set (wp2 := unsubscribe 1%positive wp1).
  assert (wp_listeners wp1 = [1%positive] ∧ wp_listeners wp2 = []) as [Hl1 Hl2].
  { unfold wp2, wp1, subscribe, unsubscribe. simpl. by rewrite Hls. }
  assert (ww_enableEndpointSlices ww = slices ∧ ww_publishers ww !! (ip, port) = Some r
    ∧ delete (ip, port) (ww_publishers ww) = ∅ ∧ ww_heap ww !! r = Some wp ∧ (∀ r', r' ≠ r → ww_heap ww !! r' = None))
    as (Hsl & Hk & Hdel & Hr & Hno).
  { simplify_eq. simpl. split_and!; [done|apply lookup_insert_eq|by rewrite delete_insert_eq|apply lookup_insert_eq|].
    intros r' Hne. by rewrite lookup_insert_ne. }
  clear Hnew. set (ww1 := set_heap (<[r := wp1]> (ww_heap ww)) ww).
  set (ww2 := set_publishers ∅ (set_heap (<[r := wp2]> (ww_heap ww1)) ww1)).
  set (ww3 := set_heap (<[r := subscribe 2%positive wp2]> (ww_heap ww2)) ww2).
  set (s0 := mkStream (ip, port) r (ept_Update r (newEndpointProfileTranslator cfg))).
  assert (getOrNewWorkloadPublisher cc None "" ip port ww1 = Ok (r, ww1)) as Hagain.
  { unfold getOrNewWorkloadPublisher. change (ww_enableEndpointSlices ww1) with (ww_enableEndpointSlices ww).
    change (findTarget cc slices None "" ip port = Ok (ip, pod, ew)) in Ht. rewrite Hsl, Ht. simpl. by rewrite Hk. }
  exists (mkWSystem ww3 [] [] (<[2%positive := s0]> (delete 1%positive (<[1%positive := s0]> ∅)))), s0.
  split_and!; [|apply lookup_insert_eq|done|done|done|by eexists|].
  - eapply rtc_l; [eapply (ws_lookup _ [] [] ∅ cc None "" ip port r ww wp 1%positive cfg); [|done]|].
    { by rewrite Hget0. }
    rewrite Hip.
    eapply rtc_l; [eapply (ws_join ww [] [] 1%positive (ip, port) r cfg [] ∅ wp); [done| |done]|].
    { intros r' wp' Hr'. destruct (decide (r' = r)) as [->|Hne]; [|by rewrite Hno in Hr'].
      simplify_eq. rewrite Hls. apply not_elem_of_nil. }
    eapply rtc_l; [eapply (ws_lookup _ [] [] _ cc None "" ip port r ww1 wp1 2%positive cfg); [exact Hagain|]|].
    { apply lookup_insert_eq. }
    eapply rtc_l; [eapply (ws_leave ww1 [] _ _ 1%positive s0); apply lookup_insert_eq|].
    assert (Unsubscribe (st_key s0).1 (st_key s0).2 1%positive ww1 = ww2) as ->.
    { unfold Unsubscribe. change (st_key s0) with (ip, port). cbn [fst snd].
      change (ww_publishers ww1) with (ww_publishers ww). rewrite Hk.
      change (ww_heap ww1) with (<[r := wp1]> (ww_heap ww)). rewrite lookup_insert_eq. cbv zeta. fold wp2. rewrite Hl2.
      change (IP (wp_addr wp2)) with (IP (wp_addr wp)). change (Port (wp_addr wp2)) with (Port (wp_addr wp)).
      rewrite Hip, Hport. change (ww_publishers (set_heap _ ww1)) with (ww_publishers ww). by rewrite Hdel. }
    change (IP (wp_addr wp1)) with (IP (wp_addr wp)). rewrite Hip.
    eapply rtc_l; [|apply rtc_refl].
    eapply (ws_join ww2 [] [] 2%positive (ip, port) r cfg [] _ wp2); [by rewrite lookup_delete_ne, lookup_insert_ne| |].
    { intros r' wp' Hr'. simpl in Hr'. rewrite insert_insert_eq in Hr'.
      apply lookup_insert_Some in Hr' as [[_ <-]|[Hne Hr']]; [rewrite Hl2; apply not_elem_of_nil|]. by rewrite Hno in Hr'. }
    apply lookup_insert_eq.
  - intros api pod0 remove. unfold submitPodUpdate. simpl.
    induction (podTargets pod0) as [|k ks IH]; [done|]. simpl onPublishers. unfold onPublisher at 1.
    change (ww_publishers ww3 !! k) with ((∅ : gmap IPPort ref) !! k). rewrite lookup_empty. by rewrite IH.
Qed.

(** ** Examples *)
Definition ex_ww_api : API :=
  mkAPI (λ _ _, None) (λ _ _, None) (λ _ _, None) (λ _ _, None) (λ _ _, None) (Some []) (λ _, Some ("deployment", "web"))
    (λ _, Some (λ _, true)).
Definition ex_ww_caches : caches := mkCaches ex_ww_api [] [].
Definition ex_ww_config : config () := mkConfig "linkerd" "cluster.local" "" "node" ∅ true false false false None.
Definition ex_ww_pod (name phase : string) : Pod :=
  mkPod name "ns" "1" ∅ ∅ "default" "node" false []
    [mkContainer "main" [mkContainerPort "http" 8080 0] []] phase "10.0.0.1" ["10.0.0.1"] "" [] false.
Definition ex_ww_ew : ExternalWorkload :=
  mkExternalWorkload "vm" "ns" "u" "1" ∅ ∅ [] "spiffe://vm" "vm" [mkPortSpec "http" 8080 "TCP"] ["10.0.0.1"] [] None.
Abbreviation ex_ww_key := (("10.0.0.1", 8080) : IPPort).


Lemma workload_deletion_panics_witness :
  submitExternalWorkloadUpdate ex_ww_api ex_ww_ew true
    (mkWW ∅ false {[ex_ww_key := 1%positive]} {[1%positive := mkWP (newAddress "10.0.0.1" 8080) [1%positive]]}) = Panic.
Proof.
  apply (workload_deletion_panics ex_ww_api ex_ww_ew _ ex_ww_key); [by left|]. exists 1%positive. split; [reflexivity|by eexists].
Defined.

Lemma other_pod_clears_witness :
  let wp := mkWP (set_Pod (Some (ex_ww_pod "new" "Running")) "deployment" "web" (newAddress "10.0.0.1" 8080)) [1%positive] in
  let ww := mkWW ∅ false {[ex_ww_key := 1%positive]} {[1%positive := wp]} in
  ∃ wp', ww_heap (submitPodUpdate ex_ww_api (ex_ww_pod "old" "Succeeded") true ww).1 !! 1%positive = Some wp'
    ∧ a_Pod (wp_addr wp') = None.
Proof.
  intros wp ww.
  apply (other_pod_clears ex_ww_api (ex_ww_pod "old" "Succeeded") (ex_ww_pod "new" "Running") ex_ww_key 1%positive wp ww);
    [done|reflexivity|by left|reflexivity|reflexivity|reflexivity].
Defined.

Lemma server_update_one_way_witness :
  let wp := mkWP (set_OpaqueProtocol true (set_Pod (Some (ex_ww_pod "web" "Running")) "deployment" "web"
    (newAddress "10.0.0.1" 8080))) [1%positive] in
  let ww := mkWW ∅ false {[ex_ww_key := 1%positive]} {[1%positive := wp]} in
  let deleted := mkServer "srv" "ns" (Some (mkLabelSelector ∅ [])) None (FromInt 8080) "opaque" in
  ∃ wp', ww_heap (updateServers (H := range_in_order) ex_ww_api [deleted] ww).1 !! 1%positive = Some wp'
    ∧ OpaqueProtocol (wp_addr wp') = true.
Proof.
  intros wp ww deleted.
  destruct (server_update_one_way (H := range_in_order) ex_ww_api [deleted] ww
    (updateServers (H := range_in_order) ex_ww_api [deleted] ww).1
    (updateServers (H := range_in_order) ex_ww_api [deleted] ww).2 1%positive wp) as (wp' & Hwp' & Ho & _);
    [by destruct (updateServers _ _ _)|reflexivity|].
  exists wp'. split; [exact Hwp'|]. apply Ho. reflexivity.
Defined.

Lemma lost_subscription_witness : ∃ sys s,
  rtc (ws_step (Http2ClientParams := ()) (H := range_in_order)) (ws_init false ∅) sys ∧ ws_streams sys !! 2%positive = Some s
  ∧ ∀ pod, submitPodUpdate ex_ww_api pod false (ws_ww sys) = (ws_ww sys, []).
Proof.
  destruct (getOrNewWorkloadPublisher ex_ww_caches None "" "10.0.0.1" 8080 (NewWorkloadWatcher false ∅))
    as [[r ww]| |] eqn:Hget; [|vm_compute in Hget; discriminate Hget..].
  destruct (lost_subscription (H := range_in_order) ex_ww_caches false ∅ "10.0.0.1" 8080 r ww ex_ww_config Hget)
    as (sys & s & Hrun & Hs & _ & _ & _ & _ & Hno).
  exists sys, s. split; [exact Hrun|]. split; [exact Hs|]. intros pod. apply Hno.
Defined.
