(* ===== verification/Federated.v ===== *)
(** Federated services in the destination service: [federated_service_watcher.go], with the
    store of linked clusters of [watcher/cluster_store.go].

    A federated service joins the endpoints of a local service and of services in linked
    clusters.  A stream that gets a federated service has one endpoint translator per member,
    each subscribed to the endpoints watcher of the member's cluster.  Translators, watchers
    and streams are identified by numbers; the environment records which translator is
    subscribed where and with which parameters it was started. *)
From S2P Require Import Prelude GoStd K8s Addresses.

#[local] Open Scope string_scope.
#[local] Open Scope list_scope.
#[local] Open Scope Z_scope.
#[local] Open Scope go_scope.

(** * Data *)
Definition RemoteDiscoveryAnnotation : string := "multicluster.linkerd.io/remote-discovery".
Definition LocalDiscoveryAnnotation : string := "multicluster.linkerd.io/local-discovery".

Record remoteDiscoveryID := mkRID { rd_cluster : string; rd_service : ID }.
#[export] Instance remoteDiscoveryID_eq_dec : EqDecision remoteDiscoveryID.
Proof. solve_decision. Defined.
#[export] Instance remoteDiscoveryID_countable : Countable remoteDiscoveryID.
Proof. refine (inj_countable' (λ i, (rd_cluster i, rd_service i)) (λ t, mkRID t.1 t.2) _). by intros []. Defined.

Abbreviation tid := positive.  (* a translator *)
Abbreviation sid := positive.  (* a stream, with its channel endStream *)

Record federatedServiceSubscriber := mkSubscriber {
  sb_port : Z; sb_nodeName : string; sb_instanceID : string;
  localTranslators : gmap string tid; remoteTranslators : gmap remoteDiscoveryID tid; sb_stream : sid }.

Record federatedService := mkFS {
  fs_namespace : string; fs_localDiscovery : string; fs_remoteDiscovery : list remoteDiscoveryID;
  fs_subscribers : list federatedServiceSubscriber }.

(** The parts of the server's configuration the translators are started with. *)
Record Config := mkFConfig { cfg_IdentityTrustDomain : string }.

(** The linked clusters: the endpoints watcher of each, and its configuration. *)
Record ClusterConfig := mkClusterConfig { TrustDomain : string; ClusterDomain : string }.
Record remoteCluster := mkRemoteCluster { rc_watcher : positive; rc_config : ClusterConfig }.

Inductive tstate := Running | Draining | Stopped.
#[export] Instance tstate_eq_dec : EqDecision tstate.
Proof. solve_decision. Defined.
Record translator := mkTranslator {
  tr_trustDomain : string; tr_filtering : bool; tr_nodeName : string; tr_stream : sid; tr_state : tstate }.

(** Where a translator is subscribed: the watcher of the local cluster ([None]) or of a linked
    one, the service, the port and the instance. *)
Abbreviation subscription := (option positive * ID * Z * string * tid)%type.

Record env := mkEnv {
  e_store : gmap string remoteCluster; e_translators : gmap tid translator; e_subs : gset subscription;
  e_closed : gset sid  (* streams whose endStream is closed *); e_next : positive }.

Definition set_store s e : env := mkEnv s (e_translators e) (e_subs e) (e_closed e) (e_next e).
Definition set_subs s e : env := mkEnv (e_store e) (e_translators e) s (e_closed e) (e_next e).
Definition set_translators t e : env := mkEnv (e_store e) t (e_subs e) (e_closed e) (e_next e).
Definition set_closed c e : env := mkEnv (e_store e) (e_translators e) (e_subs e) c (e_next e).

(** [newEndpointTranslator] and [Start]. *)
Definition startTranslator (t : translator) (e : env) : tid * env :=
  (e_next e, mkEnv (e_store e) (<[e_next e := t]> (e_translators e)) (e_subs e) (e_closed e) (Pos.succ (e_next e))).
Definition setState (s : tstate) (t : tid) (e : env) : env :=
  set_translators (alter (λ t, mkTranslator (tr_trustDomain t) (tr_filtering t) (tr_nodeName t) (tr_stream t) s) t
                     (e_translators e)) e.

(** [NoEndpoints(true)] and [DrainAndStop]; [Stop]. *)
Definition drainAndStop : tid → env → env := setState Draining.
Definition stop : tid → env → env := setState Stopped.

(** [close(endStream)]: a second close panics. *)
Definition closeEnd (s : sid) (e : env) : res env :=
  if bool_decide (s ∈ e_closed e) then Panic else Ok (set_closed ({[s]} ∪ e_closed e) e).

(** * Members *)
Definition isFederatedService (service : Service) : bool :=
  bool_decide (is_Some (svc_Annotations service !! LocalDiscoveryAnnotation))
  || bool_decide (is_Some (svc_Annotations service !! RemoteDiscoveryAnnotation)).

Definition remoteDiscoveryIDs (service : Service) : list remoteDiscoveryID :=
  match svc_Annotations service !! RemoteDiscoveryAnnotation with
  | None => []
  | Some remoteDiscovery =>
      omap (λ remote, match strings.Split remote "@" with
                      | [remoteSvc; cluster] => Some (mkRID cluster (mkID (svc_Namespace service) remoteSvc ""))
                      | _ => None
                      end) (strings.Split remoteDiscovery ",")
  end.

Definition localDiscoveryOf (service : Service) : string := get (svc_Annotations service) LocalDiscoveryAnnotation.

Section federated.
(** [accepts] says which services a watcher accepts: it refuses those of type ExternalName,
    which is logged, and the translator is kept. *)
Context `{!MapRange} (config : Config) (accepts : option positive → ID → bool).

Definition subscribed (s : subscription) (e : env) : env :=
  if accepts s.1.1.1.1 s.1.1.1.2 then set_subs ({[s]} ∪ e_subs e) e else e.
Definition unsubscribed (s : subscription) (e : env) : env := set_subs (e_subs e ∖ {[s]}) e.

(** ** Subscribing one stream to one member *)
Definition remoteDiscoverySubscribe (sb : federatedServiceSubscriber) (id : remoteDiscoveryID) (e : env)
    : federatedServiceSubscriber * env :=
  match e_store e !! rd_cluster id with
  | None => (sb, e)
  | Some rc =>
      let '(t, e) := startTranslator
        (mkTranslator (TrustDomain (rc_config rc)) false (sb_nodeName sb) (sb_stream sb) Running) e in
      (mkSubscriber (sb_port sb) (sb_nodeName sb) (sb_instanceID sb) (localTranslators sb)
         (<[id := t]> (remoteTranslators sb)) (sb_stream sb),
       subscribed (Some (rc_watcher rc), rd_service id, sb_port sb, sb_instanceID sb, t) e)
  end.

Definition remoteDiscoveryUnsubscribe (sb : federatedServiceSubscriber) (id : remoteDiscoveryID) (e : env)
    : res (federatedServiceSubscriber * env) :=
  match e_store e !! rd_cluster id with
  | None => Ok (sb, e)
  | Some rc =>
      match remoteTranslators sb !! id with
      | None => Panic  (* NoEndpoints of a nil translator *)
      | Some t =>
          Ok (mkSubscriber (sb_port sb) (sb_nodeName sb) (sb_instanceID sb) (localTranslators sb)
                (delete id (remoteTranslators sb)) (sb_stream sb),
              drainAndStop t (unsubscribed (Some (rc_watcher rc), rd_service id, sb_port sb, sb_instanceID sb, t) e))
      end
  end.

Definition localDiscoverySubscribe (ns : string) (sb : federatedServiceSubscriber) (localDiscovery : string) (e : env)
    : federatedServiceSubscriber * env :=
  let '(t, e) := startTranslator
    (mkTranslator (cfg_IdentityTrustDomain config) true (sb_nodeName sb) (sb_stream sb) Running) e in
  (mkSubscriber (sb_port sb) (sb_nodeName sb) (sb_instanceID sb) (<[localDiscovery := t]> (localTranslators sb))
     (remoteTranslators sb) (sb_stream sb),
   subscribed (None, mkID ns localDiscovery "", sb_port sb, sb_instanceID sb, t) e).

Definition localDiscoveryUnsubscribe (ns : string) (sb : federatedServiceSubscriber) (localDiscovery : string) (e : env)
    : federatedServiceSubscriber * env :=
  match localTranslators sb !! localDiscovery with
  | None => (sb, e)
  | Some t =>
      (mkSubscriber (sb_port sb) (sb_nodeName sb) (sb_instanceID sb) (delete localDiscovery (localTranslators sb))
         (remoteTranslators sb) (sb_stream sb),
       drainAndStop t (unsubscribed (None, mkID ns localDiscovery "", sb_port sb, sb_instanceID sb, t) e))
  end.

(** [for i := range fs.subscribers { f(&fs.subscribers[i]) }]. *)
Fixpoint forSubscribers (f : federatedServiceSubscriber → env → res (federatedServiceSubscriber * env))
    (sbs : list federatedServiceSubscriber) (e : env) : res (list federatedServiceSubscriber * env) :=
  match sbs with
  | [] => Ok ([], e)
  | sb :: sbs => let* r := f sb e in let* rs := forSubscribers f sbs r.2 in Ok (r.1 :: rs.1, rs.2)
  end.

(** One loop within another: for each member, for each subscriber. *)
Fixpoint forMembers (f : remoteDiscoveryID → federatedServiceSubscriber → env → res (federatedServiceSubscriber * env))
    (ids : list remoteDiscoveryID) (sbs : list federatedServiceSubscriber) (e : env)
    : res (list federatedServiceSubscriber * env) :=
  match ids with
  | [] => Ok (sbs, e)
  | id :: ids => let* r := forSubscribers (f id) sbs e in forMembers f ids r.1 r.2
  end.

(** ** The federated service *)
Definition newFederatedService (service : Service) : federatedService :=
  mkFS (svc_Namespace service) (localDiscoveryOf service) (remoteDiscoveryIDs service) [].

Definition updateLocal (ns old new : string) (sb : federatedServiceSubscriber) (e : env)
    : federatedServiceSubscriber * env :=
  if bool_decide (new ≠ "") then
    let '(sb, e) := if bool_decide (old ≠ "") then localDiscoveryUnsubscribe ns sb old e else (sb, e) in
    localDiscoverySubscribe ns sb new e
  else localDiscoveryUnsubscribe ns sb old e.

Definition update (service : Service) (fs : federatedService) (e : env) : res (federatedService * env) :=
  let newRemoteDiscovery := remoteDiscoveryIDs service in
  let newLocalDiscovery := localDiscoveryOf service in
  let* r := forMembers (λ id sb e, Ok (remoteDiscoverySubscribe sb id e))
              (filter (.∉ fs_remoteDiscovery fs) newRemoteDiscovery) (fs_subscribers fs) e in
  let* r := forMembers (λ id sb e, remoteDiscoveryUnsubscribe sb id e)
              (filter (.∉ newRemoteDiscovery) (fs_remoteDiscovery fs)) r.1 r.2 in
  let* r := if bool_decide (fs_localDiscovery fs = newLocalDiscovery) then Ok (r.1, r.2)
            else forSubscribers (λ sb e, Ok (updateLocal (fs_namespace fs) (fs_localDiscovery fs) newLocalDiscovery sb e))
                   r.1 r.2 in
  Ok (mkFS (fs_namespace fs) newLocalDiscovery newRemoteDiscovery r.1, r.2).

Definition fs_subscribe (port : Z) (nodeName instanceID : string) (stream : sid) (fs : federatedService) (e : env)
    : federatedService * env :=
  let sb := mkSubscriber port nodeName instanceID ∅ ∅ stream in
  let '(sb, e) := foldl (λ r id, remoteDiscoverySubscribe r.1 id r.2) (sb, e) (fs_remoteDiscovery fs) in
  let '(sb, e) := if bool_decide (fs_localDiscovery fs ≠ "")
                  then localDiscoverySubscribe (fs_namespace fs) sb (fs_localDiscovery fs) e else (sb, e) in
  (mkFS (fs_namespace fs) (fs_localDiscovery fs) (fs_remoteDiscovery fs) (fs_subscribers fs ++ [sb]), e).

(** The loops of [unsubscribe] over the translators of one subscriber. *)
Fixpoint unsubscribeRemotes (ids : list remoteDiscoveryID) (sb : federatedServiceSubscriber) (e : env)
    : res (federatedServiceSubscriber * env) :=
  match ids with
  | [] => Ok (sb, e)
  | id :: ids => let* r := remoteDiscoveryUnsubscribe sb id e in unsubscribeRemotes ids r.1 r.2
  end.
Definition unsubscribeAll (ns : string) (sb : federatedServiceSubscriber) (e : env)
    : res (federatedServiceSubscriber * env) :=
  let* r := unsubscribeRemotes (range (remoteTranslators sb)).*1 sb e in
  Ok (foldl (λ r localDiscovery, localDiscoveryUnsubscribe ns r.1 localDiscovery r.2) r
        (range (localTranslators sb)).*1).

Fixpoint unsubscribeStream (ns : string) (stream : sid) (sbs : list federatedServiceSubscriber) (e : env)
    : res (list federatedServiceSubscriber * env) :=
  match sbs with
  | [] => Ok ([], e)
  | sb :: sbs =>
      if bool_decide (sb_stream sb = stream) then
        let* r := unsubscribeAll ns sb e in unsubscribeStream ns stream sbs r.2
      else let* rs := unsubscribeStream ns stream sbs e in Ok (sb :: rs.1, rs.2)
  end.
Definition fs_unsubscribe (stream : sid) (fs : federatedService) (e : env) : res (federatedService * env) :=
  let* r := unsubscribeStream (fs_namespace fs) stream (fs_subscribers fs) e in
  Ok (mkFS (fs_namespace fs) (fs_localDiscovery fs) (fs_remoteDiscovery fs) r.1, r.2).

(** [delete]: translators of clusters that are gone are left as they are. *)
Definition deleteRemote (sb : federatedServiceSubscriber) (e : env) (entry : remoteDiscoveryID * tid) : env :=
  match e_store e !! rd_cluster entry.1 with
  | None => e
  | Some rc => stop entry.2 (unsubscribed
      (Some (rc_watcher rc), rd_service entry.1, sb_port sb, sb_instanceID sb, entry.2) e)
  end.
Definition deleteLocal (ns : string) (sb : federatedServiceSubscriber) (e : env) (entry : string * tid) : env :=
  stop entry.2 (unsubscribed (None, mkID ns entry.1 "", sb_port sb, sb_instanceID sb, entry.2) e).

Fixpoint deleteSubscribers (ns : string) (sbs : list federatedServiceSubscriber) (e : env) : res env :=
  match sbs with
  | [] => Ok e
  | sb :: sbs =>
      let e := foldl (deleteRemote sb) e (range (remoteTranslators sb)) in
      let e := foldl (deleteLocal ns sb) e (range (localTranslators sb)) in
      let* e := closeEnd (sb_stream sb) e in deleteSubscribers ns sbs e
  end.
Definition delete_fs (fs : federatedService) (e : env) : res env :=
  deleteSubscribers (fs_namespace fs) (fs_subscribers fs) e.

(** ** The watcher *)
Record fsw := mkFSW { fsw_services : gmap ID federatedService; fsw_env : env }.

Definition serviceID (service : Service) : ID := mkID (svc_Namespace service) (svc_Name service) "".

Definition Subscribe (service namespace : string) (port : Z) (nodeName instanceID : string) (stream : sid) (w : fsw)
    : res fsw :=
  let id := mkID namespace service "" in
  match fsw_services w !! id with
  | None => Err "not a federated service"
  | Some fs => let '(fs, e) := fs_subscribe port nodeName instanceID stream fs (fsw_env w) in
               Ok (mkFSW (<[id := fs]> (fsw_services w)) e)
  end.

Definition Unsubscribe (service namespace : string) (stream : sid) (w : fsw) : res fsw :=
  let id := mkID namespace service "" in
  match fsw_services w !! id with
  | None => Ok w
  | Some fs => let* r := fs_unsubscribe stream fs (fsw_env w) in Ok (mkFSW (<[id := r.1]> (fsw_services w)) r.2)
  end.

Definition removeService (id : ID) (w : fsw) : res fsw :=
  match fsw_services w !! id with
  | None => Ok w
  | Some fs => let* e := delete_fs fs (fsw_env w) in Ok (mkFSW (delete id (fsw_services w)) e)
  end.

Definition addService (service : Service) (w : fsw) : res fsw :=
  let id := serviceID service in
  if isFederatedService service then
    let fs := default (newFederatedService service) (fsw_services w !! id) in
    let* r := update service fs (fsw_env w) in Ok (mkFSW (<[id := r.1]> (fsw_services w)) r.2)
  else removeService id w.
Definition updateService (service : Service) : fsw → res fsw := addService service.
Definition deleteService (obj : option Service + option Service) (w : fsw) : res fsw :=
  match obj with inl (Some service) | inr (Some service) => removeService (serviceID service) w | _ => Ok w end.
End federated.

(** * The store of linked clusters *)
Definition MirrorSecretType : string := "mirror.linkerd.io/remote-kubeconfig".
Definition ConfigKeyName : string := "kubeconfig".
Definition clusterNameLabel : string := "multicluster.linkerd.io/cluster-name".
Definition trustDomainAnnotation : string := "multicluster.linkerd.io/trust-domain".
Definition clusterDomainAnnotation : string := "multicluster.linkerd.io/cluster-domain".

Record Secret := mkSecret {
  sec_Type : string; sec_Labels : strmap; sec_Annotations : strmap; sec_Data : strmap }.

(** [decodeFn] makes the clients of the cluster: [false] when the data is no kubeconfig.  The
    number of the watcher is taken from the same counter as the translators'. *)
Definition addCluster (decodeFn : string → string → bool) (clusterName : string) (secret : Secret) (e : env) : res env :=
  match sec_Data secret !! ConfigKeyName with
  | None => Err "missing kubeconfig file"
  | Some data =>
      match sec_Annotations secret !! clusterDomainAnnotation with
      | None => Err "missing cluster-domain annotation"
      | Some clusterDomain =>
          match sec_Annotations secret !! trustDomainAnnotation with
          | None => Err "missing trust-domain annotation"
          | Some trustDomain =>
              if negb (decodeFn data clusterName) then Err "invalid kubeconfig" else
              Ok (mkEnv (<[clusterName := mkRemoteCluster (e_next e) (mkClusterConfig trustDomain clusterDomain)]>
                           (e_store e)) (e_translators e) (e_subs e) (e_closed e) (Pos.succ (e_next e)))
          end
      end
  end.
Definition removeCluster (clusterName : string) (e : env) : env := set_store (delete clusterName (e_store e)) e.

Definition secretAdded (decodeFn : string → string → bool) (secret : Secret) (e : env) : env :=
  if bool_decide (sec_Type secret ≠ MirrorSecretType) then e else
  match sec_Labels secret !! clusterNameLabel with
  | None => e
  | Some clusterName => match addCluster decodeFn clusterName secret e with Ok e => e | _ => e end
  end.
Definition secretDeleted (obj : option Secret + option Secret) (e : env) : env :=
  match obj with
  | inl (Some secret) | inr (Some secret) =>
      match sec_Labels secret !! clusterNameLabel with
      | None => e
      | Some clusterName => removeCluster clusterName e
      end
  | _ => e
  end.
