(* ===== verification/FederatedProps.v ===== *)
(** Theorems on federated services: the subscriptions are exactly those the members ask for,
    the annotations the service mirror writes are read back, and what happens when clusters
    are linked late or relinked, and when a service is deleted under an ended stream. *)
From S2P Require Import Prelude GoStd K8s Addresses Federated.

#[local] Open Scope string_scope.
#[local] Open Scope list_scope.
#[local] Open Scope Z_scope.

Section exact.
Context {HR : MapRange} (config : Config) (accepts : option positive → ID → bool).
Context (store : gmap string remoteCluster).

(** * The subscriptions the translators stand for *)
(** A subscription and the translator that should be behind it. *)
Abbreviation owned_sub := (subscription * translator)%type.
Definition remote_translator (cluster nodeName : string) (stream : sid) : translator :=
  mkTranslator (default "" ((λ rc, TrustDomain (rc_config rc)) <$> (store !! cluster))) false nodeName stream Running.
Definition local_translator (nodeName : string) (stream : sid) : translator :=
  mkTranslator (cfg_IdentityTrustDomain config) true nodeName stream Running.
Definition remote_sub (sb : federatedServiceSubscriber) (en : remoteDiscoveryID * tid) : owned_sub :=
  ((rc_watcher <$> (store !! rd_cluster en.1), rd_service en.1, sb_port sb, sb_instanceID sb, en.2),
   remote_translator (rd_cluster en.1) (sb_nodeName sb) (sb_stream sb)).
Definition local_sub (ns : string) (sb : federatedServiceSubscriber) (en : string * tid) : owned_sub :=
  ((None, mkID ns en.1 "", sb_port sb, sb_instanceID sb, en.2), local_translator (sb_nodeName sb) (sb_stream sb)).
Definition owned (ns : string) (sb : federatedServiceSubscriber) : list owned_sub :=
  (remote_sub sb <$> map_to_list (remoteTranslators sb)) ++ (local_sub ns sb <$> map_to_list (localTranslators sb)).

Definition accepted (s : subscription) : Prop := accepts s.1.1.1.1 s.1.1.1.2 = true.
#[local] Instance accepted_dec s : Decision (accepted s).
Proof. unfold accepted. apply _. Defined.

(** The environment has exactly the subscriptions of a list, each with its own translator. *)
Record exact (cl : gset sid) (l : list owned_sub) (e : env) : Prop := {
  ex_subs : e_subs e = list_to_set (filter accepted l.*1);
  ex_NoDup : NoDup l.*1.*2;
  ex_next : Forall (λ s, s.1.2 < e_next e)%positive l;
  ex_translators : Forall (λ s, e_translators e !! s.1.2 = Some s.2) l;
  ex_store : e_store e = store;
  ex_closed : e_closed e = cl }.

Lemma exact_perm cl l l' e : l ≡ₚ l' → exact cl l e → exact cl l' e.
Proof.
  intros Hp [Hs Hn Hf Ht Hst Hcl]. split; [|by rewrite <-Hp..|done|done].
  rewrite Hs. apply list_to_set_perm_L. by rewrite Hp.
Qed.
#[local] Instance exact_proper cl : Proper ((≡ₚ) ==> (=) ==> iff) (exact cl).
Proof. intros l l' Hl e e' <-. split; by apply exact_perm. Qed.

Lemma exact_closed cl l c e : exact cl l e → exact c l (set_closed c e).
Proof. by intros [Hs Hn Hf Ht Hst Hcl]. Qed.

(** Starting a translator and subscribing it. *)
Lemma exact_subscribe cl l tr (mk : tid → subscription) e :
  (∀ t, (mk t).2 = t) → exact cl l e →
  exact cl ((mk (startTranslator tr e).1, tr) :: l)
    (subscribed accepts (mk (startTranslator tr e).1) (startTranslator tr e).2).
Proof.
  intros Hmk [Hs Hn Hf Ht Hst Hcl]. set (x := mk (startTranslator tr e).1).
  assert (x.2 = e_next e) as Hx by (by apply Hmk).
  assert (Forall (λ s, s.1.2 < Pos.succ (e_next e))%positive ((x, tr) :: l)) as Hf'.
  { constructor; [simpl; rewrite Hx; lia|]. eapply Forall_impl; [exact Hf|]. simpl. intros. lia. }
  assert (Forall (λ s, <[e_next e := tr]> (e_translators e) !! s.1.2 = Some s.2) ((x, tr) :: l)) as Ht'.
  { constructor; [simpl; by rewrite Hx, lookup_insert_eq|]. rewrite Forall_forall in *. intros s Hs'.
    specialize (Hf s Hs'). simpl in Hf. rewrite lookup_insert_ne by lia. by apply Ht. }
  unfold subscribed. split.
  - rewrite fmap_cons, filter_cons. case_decide as Ha; unfold accepted in Ha; [|apply not_true_is_false in Ha];
      simpl in *; rewrite Ha; simpl; by rewrite Hs.
  - rewrite !fmap_cons. constructor; [|done]. simpl. rewrite Hx. intros (y & Heq & Hy)%list_elem_of_fmap.
    apply list_elem_of_fmap in Hy as (z & -> & Hz). rewrite Forall_forall in Hf. specialize (Hf z Hz). simpl in Hf.
    rewrite <-Heq in Hf. lia.
  - destruct (accepts _ _); exact Hf'.
  - destruct (accepts _ _); exact Ht'.
  - by destruct (accepts _ _).
  - by destruct (accepts _ _).
Qed.

(** Unsubscribing a translator and ending it. *)
Lemma exact_unsubscribe cl l x st e : exact cl (x :: l) e → exact cl l (setState st x.1.2 (unsubscribed x.1 e)).
Proof.
  intros [Hs Hn Hf Ht Hst Hcl]. rewrite !fmap_cons in Hn. apply NoDup_cons in Hn as [Hni Hn].
  apply Forall_cons in Hf as [_ Hf]. apply Forall_cons in Ht as [_ Ht]. split; [|done|done| |done|done].
  - simpl. rewrite Hs, fmap_cons, filter_cons.
    assert (x.1 ∉ filter accepted l.*1) as Hx.
    { intros [_ Hx]%list_elem_of_filter. apply Hni. by apply list_elem_of_fmap_2. }
    case_decide; [|set_solver]. simpl. apply set_eq. intros y.
    rewrite elem_of_difference, elem_of_union, elem_of_singleton, elem_of_list_to_set. split; [tauto|].
    intros Hy. split; [by right|]. intros ->. done.
  - rewrite Forall_forall in *. intros y Hy. simpl. rewrite lookup_alter_ne; [by apply Ht|].
    intros Heq. apply Hni. rewrite Heq. by do 2 apply list_elem_of_fmap_2.
Qed.

(** ** The operations on one subscriber *)
Definition same_stream (sb sb' : federatedServiceSubscriber) : Prop :=
  sb_port sb' = sb_port sb ∧ sb_nodeName sb' = sb_nodeName sb ∧ sb_instanceID sb' = sb_instanceID sb
  ∧ sb_stream sb' = sb_stream sb.

Lemma remoteDiscoverySubscribe_exact cl ns sb id C e :
  is_Some (store !! rd_cluster id) → remoteTranslators sb !! id = None → exact cl (owned ns sb ++ C) e →
  ∃ sb' e', remoteDiscoverySubscribe accepts sb id e = (sb', e') ∧ exact cl (owned ns sb' ++ C) e' ∧ same_stream sb sb'
    ∧ dom (remoteTranslators sb') = {[id]} ∪ dom (remoteTranslators sb) ∧ localTranslators sb' = localTranslators sb.
Proof.
  intros [rc Hrc] Hid He. unfold remoteDiscoverySubscribe. rewrite (ex_store _ _ _ He), Hrc.
  set (tr := mkTranslator _ _ _ _ _).
  pose proof (exact_subscribe _ _ tr (λ t, (Some (rc_watcher rc), rd_service id, sb_port sb, sb_instanceID sb, t)) e
    ltac:(done) He) as He'. destruct (startTranslator tr e) as [t e1]. cbn [fst snd] in He'.
  eexists _, _. split; [done|]. split_and!; [|by split_and!|by simpl; rewrite dom_insert_L|done].
  eapply exact_perm; [|exact He']. unfold owned. simpl. rewrite map_to_list_insert by done. simpl.
  unfold remote_sub at 2, remote_translator. simpl. by rewrite Hrc.
Qed.

Lemma remoteDiscoveryUnsubscribe_exact cl ns sb id t C e :
  is_Some (store !! rd_cluster id) → remoteTranslators sb !! id = Some t → exact cl (owned ns sb ++ C) e →
  ∃ sb' e', remoteDiscoveryUnsubscribe sb id e = Ok (sb', e') ∧ exact cl (owned ns sb' ++ C) e' ∧ same_stream sb sb'
    ∧ remoteTranslators sb' = delete id (remoteTranslators sb) ∧ localTranslators sb' = localTranslators sb.
Proof.
  intros [rc Hrc] Hid He. unfold remoteDiscoveryUnsubscribe. rewrite (ex_store _ _ _ He), Hrc, Hid.
  eexists _, _. split; [done|]. split_and!; [|by split_and!|done|done].
  assert (exact cl (remote_sub sb (id, t) :: owned ns (mkSubscriber (sb_port sb) (sb_nodeName sb) (sb_instanceID sb)
    (localTranslators sb) (delete id (remoteTranslators sb)) (sb_stream sb)) ++ C) e) as He1.
  { eapply exact_perm; [|exact He]. unfold owned. simpl. by rewrite <-(map_to_list_delete _ _ _ Hid). }
  apply (exact_unsubscribe _ _ _ Draining) in He1. simpl in He1. by rewrite Hrc in He1.
Qed.

Lemma localDiscoverySubscribe_exact cl ns sb n C e :
  localTranslators sb !! n = None → exact cl (owned ns sb ++ C) e →
  ∃ sb' e', localDiscoverySubscribe config accepts ns sb n e = (sb', e') ∧ exact cl (owned ns sb' ++ C) e'
    ∧ same_stream sb sb' ∧ dom (localTranslators sb') = {[n]} ∪ dom (localTranslators sb)
    ∧ remoteTranslators sb' = remoteTranslators sb.
Proof.
  intros Hn He. unfold localDiscoverySubscribe. set (tr := mkTranslator _ _ _ _ _).
  pose proof (exact_subscribe _ _ tr (λ t, (None, mkID ns n "", sb_port sb, sb_instanceID sb, t)) e ltac:(done) He) as He'.
  destruct (startTranslator tr e) as [t e1]. cbn [fst snd] in He'.
  eexists _, _. split; [done|]. split_and!; [|by split_and!|by simpl; rewrite dom_insert_L|done].
  eapply exact_perm; [|exact He']. unfold owned. simpl. rewrite map_to_list_insert by done. simpl.
  rewrite <-!app_assoc. simpl. apply Permutation_middle.
Qed.

Lemma localDiscoveryUnsubscribe_exact cl ns sb n C e :
  exact cl (owned ns sb ++ C) e →
  ∃ sb' e', localDiscoveryUnsubscribe ns sb n e = (sb', e') ∧ exact cl (owned ns sb' ++ C) e'
    ∧ same_stream sb sb' ∧ localTranslators sb' = delete n (localTranslators sb)
    ∧ remoteTranslators sb' = remoteTranslators sb.
Proof.
  intros He. unfold localDiscoveryUnsubscribe. destruct (localTranslators sb !! n) as [t|] eqn:Hn.
  - eexists _, _. split; [done|]. split_and!; [|by split_and!|done|done].
    apply (exact_unsubscribe _ _ (local_sub ns sb (n, t)) Draining). eapply exact_perm; [|exact He]. unfold owned. simpl.
    rewrite <-(map_to_list_delete _ _ _ Hn). simpl. rewrite <-!app_assoc. simpl. symmetry. apply Permutation_middle.
  - exists sb, e. split_and!; try done. by rewrite delete_id.
Qed.

(** ** Loops over subscribers and members *)
Definition shape (D : gset remoteDiscoveryID) (L : gset string) (sb : federatedServiceSubscriber) : Prop :=
  dom (remoteTranslators sb) = D ∧ dom (localTranslators sb) = L.
Definition linked (id : remoteDiscoveryID) : Prop := is_Some (store !! rd_cluster id).
Abbreviation owneds ns sbs := (sbs ≫= owned ns).

#[local] Instance same_stream_refl : Reflexive same_stream.
Proof. by intros sb. Qed.
#[local] Instance same_stream_trans : Transitive same_stream.
Proof. intros x y z (? & ? & ? & ?) (? & ? & ? & ?). split_and!; congruence. Qed.

Lemma forSubscribers_exact cl ns f (P Q : federatedServiceSubscriber → Prop) :
  (∀ sb C e, P sb → exact cl (owned ns sb ++ C) e →
     ∃ sb' e', f sb e = Ok (sb', e') ∧ exact cl (owned ns sb' ++ C) e' ∧ same_stream sb sb' ∧ Q sb') →
  ∀ sbs C e, Forall P sbs → exact cl (owneds ns sbs ++ C) e →
    ∃ sbs' e', forSubscribers f sbs e = Ok (sbs', e') ∧ exact cl (owneds ns sbs' ++ C) e'
      ∧ Forall2 same_stream sbs sbs' ∧ Forall Q sbs'.
Proof.
  intros Hf. induction sbs as [|sb sbs IH]; intros C e HP He; [by exists [], e|].
  apply Forall_cons in HP as [HP HPs]. simpl in He. rewrite <-app_assoc in He.
  destruct (Hf sb _ e HP He) as (sb' & e1 & Hr & He1 & Hs & HQ).
  destruct (IH (owned ns sb' ++ C) e1 HPs) as (sbs' & e2 & Hrs & He2 & Hss & HQs).
  { eapply exact_perm; [|exact He1]. by rewrite !(assoc_L (++)), (comm (++) (owned ns sb')). }
  exists (sb' :: sbs'), e2. simpl. rewrite Hr. simpl. rewrite Hrs. split; [done|]. split; [|by split; constructor].
  eapply exact_perm; [|exact He2]. by rewrite !(assoc_L (++)), (comm (++) (owned ns sb')).
Qed.

Lemma forMembers_subscribe cl ns L ids :
  ∀ D sbs C e, NoDup ids → Forall linked ids → list_to_set ids ## D → Forall (shape D L) sbs →
    exact cl (owneds ns sbs ++ C) e →
    ∃ sbs' e', forMembers (λ id sb e, Ok (remoteDiscoverySubscribe accepts sb id e)) ids sbs e = Ok (sbs', e')
      ∧ exact cl (owneds ns sbs' ++ C) e' ∧ Forall2 same_stream sbs sbs' ∧ Forall (shape (list_to_set ids ∪ D) L) sbs'.
Proof.
  induction ids as [|id ids IH]; intros D sbs C e Hnd Hl HD HP He.
  - exists sbs, e. split_and!; try done. eapply Forall_impl; [exact HP|]. intros sb [? ?]. split; set_solver.
  - apply NoDup_cons in Hnd as [Hid Hnd]. apply Forall_cons in Hl as [Hl Hls].
    destruct (forSubscribers_exact cl ns (λ sb e, Ok (remoteDiscoverySubscribe accepts sb id e)) (shape D L)
      (shape ({[id]} ∪ D) L)) with sbs C e as (sbs1 & e1 & Hr & He1 & Hs1 & HP1); [|done..|].
    { intros sb C' e' [Hd Hloc] He'. destruct (remoteDiscoverySubscribe_exact cl ns sb id C' e') as
        (sb' & e1 & -> & ? & ? & Hd' & Hloc'); [done| |done|].
      - apply not_elem_of_dom. rewrite Hd. set_solver.
      - exists sb', e1. split_and!; try done. split; congruence. }
    destruct (IH ({[id]} ∪ D) sbs1 C e1) as (sbs2 & e2 & Hr2 & He2 & Hs2 & HP2); [done|done| |done|done|].
    { simpl in HD. assert (id ∉ (list_to_set ids : gset remoteDiscoveryID)) by by rewrite elem_of_list_to_set. set_solver. }
    exists sbs2, e2. simpl. rewrite Hr. simpl. split_and!; [done|done| |].
    + by etrans.
    + eapply Forall_impl; [exact HP2|]. intros sb [? ?]. split; [|done]. set_solver.
Qed.

Lemma forMembers_unsubscribe cl ns L ids :
  ∀ D sbs C e, NoDup ids → Forall linked ids → list_to_set ids ⊆ D → Forall (shape D L) sbs →
    exact cl (owneds ns sbs ++ C) e →
    ∃ sbs' e', forMembers (λ id sb e, remoteDiscoveryUnsubscribe sb id e) ids sbs e = Ok (sbs', e')
      ∧ exact cl (owneds ns sbs' ++ C) e' ∧ Forall2 same_stream sbs sbs' ∧ Forall (shape (D ∖ list_to_set ids) L) sbs'.
Proof.
  induction ids as [|id ids IH]; intros D sbs C e Hnd Hl HD HP He.
  - exists sbs, e. split_and!; try done. eapply Forall_impl; [exact HP|]. intros sb [? ?]. split; set_solver.
  - apply NoDup_cons in Hnd as [Hid Hnd]. apply Forall_cons in Hl as [Hl Hls].
    destruct (forSubscribers_exact cl ns (λ sb e, remoteDiscoveryUnsubscribe sb id e) (shape D L)
      (shape (D ∖ {[id]}) L)) with sbs C e as (sbs1 & e1 & Hr & He1 & Hs1 & HP1); [|done..|].
    { intros sb C' e' [Hd Hloc] He'. assert (id ∈ dom (remoteTranslators sb)) as [t Ht]%elem_of_dom by set_solver.
      destruct (remoteDiscoveryUnsubscribe_exact cl ns sb id t C' e') as (sb' & e1 & -> & ? & ? & Hd' & Hloc'); [done..|].
      exists sb', e1. split_and!; try done. split; [|congruence]. rewrite Hd', dom_delete_L. set_solver. }
    destruct (IH (D ∖ {[id]}) sbs1 C e1) as (sbs2 & e2 & Hr2 & He2 & Hs2 & HP2); [done|done| |done|done|].
    { simpl in HD. assert (id ∉ (list_to_set ids : gset remoteDiscoveryID)) by by rewrite elem_of_list_to_set. set_solver. }
    exists sbs2, e2. simpl. rewrite Hr. simpl. split_and!; [done|done|by etrans|].
    eapply Forall_impl; [exact HP2|]. intros sb [? ?]. split; [|done]. set_solver.
Qed.

(** ** The federated service *)
Definition localSet (localDiscovery : string) : gset string := if bool_decide (localDiscovery = "") then ∅ else {[localDiscovery]}.

(** Every subscriber has a translator for every member, and all members are linked. *)
Record fs_ok (fs : federatedService) : Prop := {
  fs_NoDup : NoDup (fs_remoteDiscovery fs);
  fs_linked : Forall linked (fs_remoteDiscovery fs);
  fs_shape : Forall (shape (list_to_set (fs_remoteDiscovery fs)) (localSet (fs_localDiscovery fs))) (fs_subscribers fs) }.
Definition fs_owned (fs : federatedService) : list owned_sub := owneds (fs_namespace fs) (fs_subscribers fs).

Lemma linked_filter (P : remoteDiscoveryID → Prop) `{∀ x, Decision (P x)} l : Forall linked l → Forall linked (filter P l).
Proof. rewrite !Forall_forall. intros Hl x [_ Hx]%list_elem_of_filter. by apply Hl. Qed.

Lemma nonempty_nil : bool_decide ("" ≠ "") = false.
Proof. done. Qed.

Lemma updateLocal_exact cl ns D old new sb C e :
  old ≠ new → shape D (localSet old) sb → exact cl (owned ns sb ++ C) e →
  ∃ sb' e', updateLocal config accepts ns old new sb e = (sb', e') ∧ exact cl (owned ns sb' ++ C) e'
    ∧ same_stream sb sb' ∧ shape D (localSet new) sb'.
Proof.
  intros Hne [HD HL] He. unfold updateLocal, localSet in *.
  destruct (localDiscoveryUnsubscribe_exact cl ns sb old C e He) as (sb1 & e1 & Hu & He1 & Hs1 & Hl1 & Hr1).
  destruct (decide (new = "")) as [->|Hnew].
  { rewrite nonempty_nil, Hu, bool_decide_true by done. exists sb1, e1. split_and!; try done.
    split; [congruence|]. rewrite Hl1, dom_delete_L, HL. rewrite bool_decide_false by done. set_solver. }
  rewrite (bool_decide_true (new ≠ "")), (bool_decide_false (new = "")) by done.
  destruct (decide (old = "")) as [->|Hold].
  - rewrite nonempty_nil. rewrite bool_decide_true in HL by done.
    destruct (localDiscoverySubscribe_exact cl ns sb new C e) as (sb2 & e2 & -> & He2 & Hs2 & Hl2 & Hr2); [|done|].
    { apply not_elem_of_dom. by rewrite HL. }
    exists sb2, e2. split_and!; try done. split; [congruence|]. rewrite Hl2, HL. set_solver.
  - rewrite (bool_decide_true (old ≠ "")), Hu by done. rewrite bool_decide_false in HL by done.
    assert (localTranslators sb1 = ∅) as Hemp.
    { apply dom_empty_inv_L. rewrite Hl1, dom_delete_L, HL. set_solver. }
    destruct (localDiscoverySubscribe_exact cl ns sb1 new C e1) as (sb2 & e2 & -> & He2 & Hs2 & Hl2 & Hr2); [|done|].
    { by rewrite Hemp. }
    exists sb2, e2. split_and!; [done|done|by etrans|]. split; [congruence|]. rewrite Hl2, Hemp. set_solver.
Qed.

Lemma update_exact cl service fs C e :
  fs_ok fs → NoDup (remoteDiscoveryIDs service) → Forall linked (remoteDiscoveryIDs service) →
  exact cl (fs_owned fs ++ C) e →
  ∃ fs' e', update config accepts service fs e = Ok (fs', e') ∧ exact cl (fs_owned fs' ++ C) e' ∧ fs_ok fs'
    ∧ Forall2 same_stream (fs_subscribers fs) (fs_subscribers fs') ∧ fs_namespace fs' = fs_namespace fs
    ∧ fs_localDiscovery fs' = localDiscoveryOf service ∧ fs_remoteDiscovery fs' = remoteDiscoveryIDs service.
Proof.
  intros [Hnd Hl Hsh] Hnd' Hl' He. unfold update, fs_owned in *. set (new := remoteDiscoveryIDs service) in *.
  set (ns := fs_namespace fs) in *. set (old := fs_remoteDiscovery fs) in *.
  destruct (forMembers_subscribe cl ns (localSet (fs_localDiscovery fs)) (filter (.∉ old) new) (list_to_set old)
    (fs_subscribers fs) C e) as (sbs1 & e1 & -> & He1 & Hs1 & Hsh1); [by apply NoDup_filter|by apply linked_filter| |done|done|].
  { apply elem_of_disjoint. intros x. rewrite !elem_of_list_to_set, list_elem_of_filter. tauto. }
  simpl. destruct (forMembers_unsubscribe cl ns (localSet (fs_localDiscovery fs)) (filter (.∉ new) old)
    (list_to_set (filter (.∉ old) new) ∪ list_to_set old) sbs1 C e1) as (sbs2 & e2 & -> & He2 & Hs2 & Hsh2);
    [by apply NoDup_filter|by apply linked_filter| |done|done|].
  { intros x. rewrite elem_of_union, !elem_of_list_to_set, !list_elem_of_filter. tauto. }
  simpl. replace (_ ∖ _) with (list_to_set new : gset remoteDiscoveryID) in Hsh2.
  2:{ apply set_eq. intros x. rewrite elem_of_difference, elem_of_union, !elem_of_list_to_set, !list_elem_of_filter.
      destruct (decide (x ∈ old)), (decide (x ∈ new)); tauto. }
  destruct (decide (fs_localDiscovery fs = localDiscoveryOf service)) as [Heq|Hne].
  - rewrite bool_decide_true by done. simpl. eexists _, _. split; [done|]. rewrite <-Heq.
    split_and!; [done|by split|by etrans|done..].
  - rewrite bool_decide_false by done.
    destruct (forSubscribers_exact cl ns (λ sb e, Ok (updateLocal config accepts ns (fs_localDiscovery fs)
      (localDiscoveryOf service) sb e)) (shape (list_to_set new) (localSet (fs_localDiscovery fs)))
      (shape (list_to_set new) (localSet (localDiscoveryOf service)))) with sbs2 C e2
      as (sbs3 & e3 & -> & He3 & Hs3 & Hsh3); [|done..|].
    { intros sb C' e' HP He'. edestruct updateLocal_exact as (sb' & e'' & -> & ? & ? & ?); eauto 10. }
    simpl. eexists _, _. split; [done|]. split_and!; [done|by split|by do 2 etrans|done..].
Qed.

Lemma foldl_subscribe cl ns L ids :
  ∀ D sb C e, NoDup ids → Forall linked ids → list_to_set ids ## D → shape D L sb → exact cl (owned ns sb ++ C) e →
    ∃ sb' e', foldl (λ r id, remoteDiscoverySubscribe accepts r.1 id r.2) (sb, e) ids = (sb', e')
      ∧ exact cl (owned ns sb' ++ C) e' ∧ same_stream sb sb' ∧ shape (list_to_set ids ∪ D) L sb'.
Proof.
  intros D sb C e Hnd Hl HD HP He.
  destruct (forMembers_subscribe cl ns L ids D [sb] C e) as (sbs' & e' & Hr & He' & Hs & Hsh); [done..| | |].
  { by constructor. } { simpl. by rewrite app_nil_r. }
  apply Forall2_cons_inv_l in Hs as (sb' & ? & Hs & ->%Forall2_nil_inv_l & ->). apply Forall_cons in Hsh as [Hsh _].
  simpl in He'. rewrite app_nil_r in He'. exists sb', e'. split_and!; try done. clear -Hr.
  revert sb e Hr. induction ids as [|id ids IH]; simpl; intros sb e Hr; [congruence|].
  destruct (remoteDiscoverySubscribe accepts sb id e) as [sb1 e1]. by apply IH.
Qed.

Lemma fs_subscribe_exact cl port nodeName instanceID stream fs C e :
  fs_ok fs → exact cl (fs_owned fs ++ C) e →
  ∃ sb e', fs_subscribe config accepts port nodeName instanceID stream fs e
      = (mkFS (fs_namespace fs) (fs_localDiscovery fs) (fs_remoteDiscovery fs) (fs_subscribers fs ++ [sb]), e')
    ∧ exact cl (owneds (fs_namespace fs) (fs_subscribers fs ++ [sb]) ++ C) e'
    ∧ same_stream (mkSubscriber port nodeName instanceID ∅ ∅ stream) sb
    ∧ shape (list_to_set (fs_remoteDiscovery fs)) (localSet (fs_localDiscovery fs)) sb.
Proof.
  intros [Hnd Hl Hsh] He. unfold fs_subscribe. set (sb0 := mkSubscriber _ _ _ _ _ _). set (ns := fs_namespace fs).
  destruct (foldl_subscribe cl ns ∅ (fs_remoteDiscovery fs) ∅ sb0 (fs_owned fs ++ C) e)
    as (sb1 & e1 & -> & He1 & Hs1 & Hd1 & Hl1); [done..|set_solver|done|done|].
  rewrite (right_id_L ∅ (∪)) in Hd1.
  destruct (decide (fs_localDiscovery fs = "")) as [Hld|Hld].
  - rewrite bool_decide_false by tauto. exists sb1, e1. split; [done|]. split_and!; [|done|].
    + eapply exact_perm; [|exact He1]. rewrite bind_app. simpl. rewrite app_nil_r. unfold fs_owned.
      by rewrite (assoc_L (++)), (comm (++) (owned ns sb1)).
    + split; [done|]. unfold localSet. by rewrite bool_decide_true.
  - rewrite bool_decide_true by done.
    destruct (localDiscoverySubscribe_exact cl ns sb1 (fs_localDiscovery fs) (fs_owned fs ++ C) e1)
      as (sb2 & e2 & -> & He2 & Hs2 & Hl2 & Hr2); [|done|].
    { apply not_elem_of_dom. by rewrite Hl1. }
    exists sb2, e2. split; [done|]. split_and!; [|by etrans|].
    + eapply exact_perm; [|exact He2]. rewrite bind_app. simpl. rewrite app_nil_r. unfold fs_owned.
      by rewrite (assoc_L (++)), (comm (++) (owned ns sb2)).
    + split; [congruence|]. unfold localSet. rewrite bool_decide_false, Hl2, Hl1 by done. set_solver.
Qed.

Lemma unsubscribeRemotes_exact cl ns ids :
  ∀ sb C e, NoDup ids → Forall linked ids → list_to_set ids ⊆ dom (remoteTranslators sb) → exact cl (owned ns sb ++ C) e →
    ∃ sb' e', unsubscribeRemotes ids sb e = Ok (sb', e') ∧ exact cl (owned ns sb' ++ C) e'
      ∧ shape (dom (remoteTranslators sb) ∖ list_to_set ids) (dom (localTranslators sb)) sb' ∧ same_stream sb sb'.
Proof.
  intros sb C e Hnd Hl HD He.
  destruct (forMembers_unsubscribe cl ns (dom (localTranslators sb)) ids (dom (remoteTranslators sb)) [sb] C e)
    as (sbs' & e' & Hr & He' & Hs & Hsh); [done..| | |].
  { by repeat constructor. } { simpl. by rewrite app_nil_r. }
  apply Forall2_cons_inv_l in Hs as (sb' & ? & Hs & ->%Forall2_nil_inv_l & ->). apply Forall_cons in Hsh as [Hsh _].
  simpl in He'. rewrite app_nil_r in He'. exists sb', e'. split_and!; try done. clear -Hr.
  revert sb e Hr. induction ids as [|id ids IH]; simpl; intros sb e Hr; [congruence|].
  destruct (remoteDiscoveryUnsubscribe sb id e) as [[sb1 e1]| |]; simpl in *; try done. by apply IH.
Qed.

Lemma foldl_localUnsubscribe cl ns ks :
  ∀ sb C e, exact cl (owned ns sb ++ C) e →
    ∃ sb' e', foldl (λ r localDiscovery, localDiscoveryUnsubscribe ns r.1 localDiscovery r.2) (sb, e) ks = (sb', e')
      ∧ exact cl (owned ns sb' ++ C) e' ∧ remoteTranslators sb' = remoteTranslators sb
      ∧ dom (localTranslators sb') = dom (localTranslators sb) ∖ list_to_set ks.
Proof.
  induction ks as [|k ks IH]; intros sb C e He; simpl.
  { exists sb, e. split_and!; try done. set_solver. }
  destruct (localDiscoveryUnsubscribe_exact cl ns sb k C e He) as (sb1 & e1 & -> & He1 & _ & Hl1 & Hr1).
  destruct (IH sb1 C e1 He1) as (sb2 & e2 & -> & He2 & Hr2 & Hl2). exists sb2, e2. split_and!; try done; [congruence|].
  rewrite Hl2, Hl1, dom_delete_L. set_solver.
Qed.

Lemma range_keys {K A} `{Countable K} (m : gmap K A) : NoDup (range m).*1 ∧ list_to_set (range m).*1 = dom m.
Proof.
  pose proof (range_perm m) as Hp. split.
  - rewrite Hp. apply NoDup_fst_map_to_list.
  - apply set_eq. intros k. rewrite elem_of_list_to_set, Hp, list_elem_of_fmap, elem_of_dom. split.
    + intros ([k' v] & -> & Hk%elem_of_map_to_list). by exists v.
    + intros [v Hv]. exists (k, v). by rewrite elem_of_map_to_list.
Qed.

Lemma owned_empty ns sb : dom (remoteTranslators sb) = ∅ → dom (localTranslators sb) = ∅ → owned ns sb = [].
Proof. intros Hr%dom_empty_inv_L Hl%dom_empty_inv_L. unfold owned. by rewrite Hr, Hl, !map_to_list_empty. Qed.

Lemma unsubscribeAll_exact cl ns sb C e :
  (∀ id, id ∈ dom (remoteTranslators sb) → linked id) → exact cl (owned ns sb ++ C) e →
  ∃ sb' e', unsubscribeAll ns sb e = Ok (sb', e') ∧ exact cl C e'.
Proof.
  intros Hl He. unfold unsubscribeAll. destruct (range_keys (remoteTranslators sb)) as [Hnd Hd].
  destruct (range_keys (localTranslators sb)) as [_ Hld].
  destruct (unsubscribeRemotes_exact cl ns (range (remoteTranslators sb)).*1 sb C e) as (sb1 & e1 & -> & He1 & [Hr1 Hl1] & _);
    [done| |by rewrite Hd|done|].
  { apply Forall_forall. intros id Hid. apply Hl. rewrite <-Hd. by apply elem_of_list_to_set. }
  simpl. destruct (foldl_localUnsubscribe cl ns (range (localTranslators sb)).*1 sb1 C e1 He1)
    as (sb2 & e2 & -> & He2 & Hr2 & Hl2).
  exists sb2, e2. split; [done|]. rewrite owned_empty in He2; [done| |].
  - rewrite Hr2, Hr1, Hd. set_solver.
  - rewrite Hl2, Hl1, Hld. set_solver.
Qed.

Lemma fs_linked_translators fs sb :
  fs_ok fs → sb ∈ fs_subscribers fs → ∀ id, id ∈ dom (remoteTranslators sb) → linked id.
Proof.
  intros [_ Hl Hsh] Hsb id Hid. rewrite Forall_forall in Hl. rewrite Forall_forall in Hsh. apply Hl. destruct (Hsh _ Hsb) as [Hd _].
  rewrite Hd in Hid. by apply elem_of_list_to_set in Hid.
Qed.

Lemma unsubscribeStream_exact cl ns stream sbs :
  ∀ C e, (∀ sb, sb ∈ sbs → ∀ id, id ∈ dom (remoteTranslators sb) → linked id) → exact cl (owneds ns sbs ++ C) e →
    ∃ e', unsubscribeStream ns stream sbs e = Ok (filter (λ sb, sb_stream sb ≠ stream) sbs, e')
      ∧ exact cl (owneds ns (filter (λ sb, sb_stream sb ≠ stream) sbs) ++ C) e'.
Proof.
  induction sbs as [|sb sbs IH]; intros C e Hl He; [by exists e|]. simpl in *. rewrite <-app_assoc in He.
  destruct (decide (sb_stream sb = stream)) as [Heq|Hne].
  - rewrite bool_decide_true by done. rewrite !filter_cons_False by (by intros Hn).
    destruct (unsubscribeAll_exact cl ns sb _ e (Hl sb ltac:(set_solver)) He) as (sb' & e1 & -> & He1). simpl.
    apply IH; [|done]. intros x Hx; apply Hl; by apply list_elem_of_further.
  - rewrite bool_decide_false by done. rewrite !filter_cons_True by done.
    destruct (IH (owned ns sb ++ C) e) as (e1 & -> & He1).
    { intros x Hx; apply Hl; by apply list_elem_of_further. }
    { eapply exact_perm; [|exact He]. by rewrite !(assoc_L (++)), (comm (++) (owned ns sb)). }
    exists e1. split; [done|]. simpl. eapply exact_perm; [|exact He1].
    by rewrite !(assoc_L (++)), (comm (++) (owned ns sb)).
Qed.

Lemma deleteRemotes_exact cl sb l :
  ∀ C e, (∀ en, en ∈ l → linked en.1) → exact cl ((remote_sub sb <$> l) ++ C) e → exact cl C (foldl (deleteRemote sb) e l).
Proof.
  induction l as [|en l IH]; intros C e Hl He; [done|]. simpl in *. apply IH; [intros; apply Hl; set_solver|].
  destruct (Hl en) as [rc Hrc]; [set_solver|]. unfold deleteRemote. rewrite (ex_store _ _ _ He), Hrc.
  apply (exact_unsubscribe _ _ _ Stopped) in He. simpl in He. by rewrite Hrc in He.
Qed.

Lemma deleteLocals_exact cl ns sb l :
  ∀ C e, exact cl ((local_sub ns sb <$> l) ++ C) e → exact cl C (foldl (deleteLocal ns sb) e l).
Proof.
  induction l as [|en l IH]; intros C e He; [done|]. simpl in *. apply IH.
  by apply (exact_unsubscribe _ _ (local_sub ns sb en) Stopped).
Qed.

Lemma deleteSubscribers_exact ns sbs :
  ∀ cl C e, (∀ sb, sb ∈ sbs → ∀ id, id ∈ dom (remoteTranslators sb) → linked id) →
    NoDup (sb_stream <$> sbs) → (∀ sb, sb ∈ sbs → sb_stream sb ∉ cl) → exact cl (owneds ns sbs ++ C) e →
    ∃ e', deleteSubscribers ns sbs e = Ok e' ∧ exact (list_to_set (sb_stream <$> sbs) ∪ cl) C e'.
Proof.
  induction sbs as [|sb sbs IH]; intros cl C e Hl Hnd Hc He.
  { exists e. split; [done|]. simpl in *. by rewrite (left_id_L ∅ (∪)). }
  simpl in *. apply NoDup_cons in Hnd as [Hn Hnd].
  rewrite <-app_assoc in He. unfold owned in He at 1. rewrite <-app_assoc in He.
  assert (exact cl ((local_sub ns sb <$> map_to_list (localTranslators sb)) ++ owneds ns sbs ++ C)
    (foldl (deleteRemote sb) e (range (remoteTranslators sb)))) as He1.
  { apply deleteRemotes_exact; [|eapply exact_perm; [|exact He]; by rewrite range_perm].
    intros [id t] Hin. apply (Hl sb); [set_solver|]. apply elem_of_dom. exists t. by apply elem_of_range. }
  assert (exact cl (owneds ns sbs ++ C) (foldl (deleteLocal ns sb)
    (foldl (deleteRemote sb) e (range (remoteTranslators sb))) (range (localTranslators sb)))) as He2.
  { apply deleteLocals_exact. eapply exact_perm; [|exact He1]. by rewrite range_perm. }
  unfold closeEnd. rewrite (ex_closed _ _ _ He2), bool_decide_false by (apply Hc; set_solver). simpl.
  edestruct (IH ({[sb_stream sb]} ∪ cl) C) as (e' & -> & He'); [| | |by eapply exact_closed|].
  { intros x Hx; apply Hl; by apply list_elem_of_further. } { done. }
  { intros x Hx [Heq%elem_of_singleton|Hin]%elem_of_union.
    - apply Hn. rewrite <-Heq. by apply list_elem_of_fmap_2.
    - by eapply (Hc x); [by apply list_elem_of_further|]. }
  exists e'. split; [done|]. rewrite (comm_L (∪) {[sb_stream sb]}), <-(assoc_L (∪)). exact He'.
Qed.

(** * The abstract service *)
(** A stream, as the specification sees it, and a federated service: its members and the
    streams that get it. *)
Record astream := mkAStream { as_port : Z; as_nodeName : string; as_instanceID : string; as_stream : sid }.
Record aservice := mkAService {
  a_namespace : string; a_local : string; a_remote : list remoteDiscoveryID; a_streams : list astream }.
Record astate := mkAState { a_services : gmap ID aservice; a_ended : gset sid }.

Inductive fevent :=
  | FAdd (service : Service)
  | FDelete (service : Service)
  | FSubscribe (service namespace : string) (s : astream)
  | FUnsubscribe (service namespace : string) (stream : sid).

Definition a_remove (id : ID) (a : astate) : astate :=
  match a_services a !! id with
  | None => a
  | Some s => mkAState (delete id (a_services a)) (list_to_set (as_stream <$> a_streams s) ∪ a_ended a)
  end.
Definition a_on (id : ID) (f : list astream → list astream) (a : astate) : astate :=
  mkAState (alter (λ s, mkAService (a_namespace s) (a_local s) (a_remote s) (f (a_streams s))) id (a_services a)) (a_ended a).
Definition a_step (ev : fevent) (a : astate) : astate :=
  match ev with
  | FAdd service =>
      if isFederatedService service then
        mkAState (<[serviceID service := mkAService (svc_Namespace service) (localDiscoveryOf service) (remoteDiscoveryIDs service)
                    (default [] (a_streams <$> (a_services a !! serviceID service)))]> (a_services a)) (a_ended a)
      else a_remove (serviceID service) a
  | FDelete service => a_remove (serviceID service) a
  | FSubscribe service namespace s => a_on (mkID namespace service "") (λ l, l ++ [s]) a
  | FUnsubscribe service namespace stream => a_on (mkID namespace service "") (filter (λ s, as_stream s ≠ stream)) a
  end.

(** What the environment of the watcher may do: name each member once and only in linked
    clusters, and subscribe each stream once. *)
Definition a_open (a : astate) : list sid := map_to_list (a_services a) ≫= λ p, (as_stream <$> a_streams p.2).
Definition fvalid (a : astate) (ev : fevent) : Prop :=
  match ev with
  | FAdd service => NoDup (remoteDiscoveryIDs service) ∧ Forall linked (remoteDiscoveryIDs service)
  | FSubscribe service namespace s =>
      is_Some (a_services a !! mkID namespace service "") ∧ (as_stream s ∉ a_open a) ∧ as_stream s ∉ a_ended a
  | _ => True
  end.

(** The subscriptions a state asks for: each stream at each member the watcher accepts, with a
    running translator that has the trust domain of the member's cluster. *)
Definition wanted (a : astate) (w : option positive) (svc : ID) (port : Z) (instanceID : string)
    (tr : translator) : Prop :=
  accepts w svc = true ∧ ∃ id s st, a_services a !! id = Some s ∧ st ∈ a_streams s ∧ as_port st = port ∧ as_instanceID st = instanceID
    ∧ ((∃ r, r ∈ a_remote s ∧ w = rc_watcher <$> (store !! rd_cluster r) ∧ svc = rd_service r
              ∧ tr = remote_translator (rd_cluster r) (as_nodeName st) (as_stream st))
       ∨ (a_local s ≠ "" ∧ w = None ∧ svc = mkID (a_namespace s) (a_local s) ""
          ∧ tr = local_translator (as_nodeName st) (as_stream st))).

(** ** The watcher's events *)
Definition fstep (ev : fevent) (w : fsw) : res fsw :=
  match ev with
  | FAdd service => addService config accepts service w
  | FDelete service => deleteService (inl (Some service)) w
  | FSubscribe service namespace s =>
      Subscribe config accepts service namespace (as_port s) (as_nodeName s) (as_instanceID s) (as_stream s) w
  | FUnsubscribe service namespace stream => Unsubscribe service namespace stream w
  end.
Fixpoint frun (evs : list fevent) (w : fsw) : res fsw :=
  match evs with [] => Ok w | ev :: evs => res_bind (fstep ev w) (frun evs) end.
Fixpoint a_run (evs : list fevent) (a : astate) : astate :=
  match evs with [] => a | ev :: evs => a_run evs (a_step ev a) end.
Fixpoint fvalids (evs : list fevent) (a : astate) : Prop :=
  match evs with [] => True | ev :: evs => fvalid a ev ∧ fvalids evs (a_step ev a) end.

(** ** The watcher implements the abstract service *)
Definition abs_sb (sb : federatedServiceSubscriber) : astream :=
  mkAStream (sb_port sb) (sb_nodeName sb) (sb_instanceID sb) (sb_stream sb).
Definition abs_fs (fs : federatedService) : aservice :=
  mkAService (fs_namespace fs) (fs_localDiscovery fs) (fs_remoteDiscovery fs) (abs_sb <$> fs_subscribers fs).
Definition abs (w : fsw) : astate := mkAState (abs_fs <$> fsw_services w) (e_closed (fsw_env w)).

Definition all_owned (m : gmap ID federatedService) : list owned_sub := map_to_list m ≫= λ p, fs_owned p.2.
Definition streams_ok (a : astate) : Prop := NoDup (a_open a) ∧ ∀ s, s ∈ a_open a → s ∉ a_ended a.

Record fsw_ok (w : fsw) : Prop := {
  fw_exact : exact (e_closed (fsw_env w)) (all_owned (fsw_services w)) (fsw_env w);
  fw_fs : ∀ id fs, fsw_services w !! id = Some fs → fs_ok fs ∧ fs_namespace fs = Namespace id;
  fw_streams : streams_ok (abs w) }.

Lemma all_owned_delete m id fs : m !! id = Some fs → all_owned m ≡ₚ fs_owned fs ++ all_owned (delete id m).
Proof. intros Hm. unfold all_owned. by rewrite <-(map_to_list_delete _ _ _ Hm). Qed.
Lemma all_owned_insert m id fs : all_owned (<[id := fs]> m) ≡ₚ fs_owned fs ++ all_owned (delete id m).
Proof. rewrite (all_owned_delete _ id fs) by by rewrite lookup_insert_eq. by rewrite delete_insert_eq. Qed.

Lemma a_open_delete m c id s :
  m !! id = Some s → a_open (mkAState m c) ≡ₚ (as_stream <$> a_streams s) ++ a_open (mkAState (delete id m) c).
Proof. intros Hm. unfold a_open. simpl. by rewrite <-(map_to_list_delete _ _ _ Hm). Qed.
Lemma a_open_insert m c id s :
  a_open (mkAState (<[id := s]> m) c) ≡ₚ (as_stream <$> a_streams s) ++ a_open (mkAState (delete id m) c).
Proof. rewrite (a_open_delete _ _ id s) by by rewrite lookup_insert_eq. by rewrite delete_insert_eq. Qed.

Lemma streams_ok_remove id a : streams_ok a → streams_ok (a_remove id a).
Proof.
  intros [Hnd Hd]. unfold a_remove. destruct (a_services a !! id) as [s|] eqn:Hs; [|done]. destruct a as [m c]. simpl in *.
  pose proof (a_open_delete m c id s Hs) as Hp. rewrite Hp in Hnd. apply NoDup_app in Hnd as (Hn1 & Hdis & Hn2).
  split; [done|]. intros x Hx. simpl. rewrite not_elem_of_union, elem_of_list_to_set. split.
  - intros Hin. by apply (Hdis x).
  - apply Hd. rewrite Hp. apply elem_of_app. by right.
Qed.

Lemma streams_ok_insert id s s' a :
  a_services a !! id = Some s → (as_stream <$> a_streams s') ⊆+ (as_stream <$> a_streams s) → streams_ok a →
  streams_ok (mkAState (<[id := s']> (a_services a)) (a_ended a)).
Proof.
  intros Hs Hsub [Hnd Hd]. destruct a as [m c]. simpl in *.
  assert (a_open (mkAState (<[id := s']> m) c) ⊆+ a_open (mkAState m c)) as Hsm.
  { rewrite a_open_insert, (a_open_delete m c id s Hs). by apply submseteq_app. }
  split.
  - apply submseteq_Permutation in Hsm as [k Hk]. rewrite Hk in Hnd. by apply NoDup_app in Hnd as [? _].
  - intros x Hx. apply Hd. by eapply elem_of_submseteq.
Qed.

Lemma a_on_services id f a s :
  a_services a !! id = Some s →
  a_on id f a = mkAState (<[id := mkAService (a_namespace s) (a_local s) (a_remote s) (f (a_streams s))]> (a_services a)) (a_ended a).
Proof.
  intros Hs. unfold a_on. f_equal. apply map_eq. intros i. destruct (decide (i = id)) as [->|Hne].
  - by rewrite lookup_alter_eq, lookup_insert_eq, Hs.
  - by rewrite lookup_alter_ne, lookup_insert_ne by done.
Qed.

Lemma abs_same_streams (l l' : list federatedServiceSubscriber) : Forall2 same_stream l l' → abs_sb <$> l' = abs_sb <$> l.
Proof.
  induction 1 as [|sb sb' l l' (? & ? & ? & ?) _ IH]; [done|]. simpl. f_equal; [|exact IH]. unfold abs_sb. congruence.
Qed.

Lemma as_stream_abs (l : list federatedServiceSubscriber) : as_stream <$> (abs_sb <$> l) = sb_stream <$> l.
Proof. rewrite <-list_fmap_compose. by apply list_fmap_ext. Qed.

Lemma filter_abs_sb (stream : sid) (l : list federatedServiceSubscriber) :
  abs_sb <$> filter (λ sb, sb_stream sb ≠ stream) l = filter (λ s, as_stream s ≠ stream) (abs_sb <$> l).
Proof.
  induction l as [|sb l IH]; [done|]. rewrite filter_cons, fmap_cons, filter_cons. simpl. case_decide; [|exact IH].
  rewrite fmap_cons. by f_equal.
Qed.

(** Replacing one service of the watcher. *)
Lemma fsw_ok_insert w id fs' e' :
  fsw_ok w → e_closed e' = e_closed (fsw_env w) →
  exact (e_closed e') (fs_owned fs' ++ all_owned (delete id (fsw_services w))) e' → fs_ok fs' →
  fs_namespace fs' = Namespace id →
  streams_ok (mkAState (<[id := abs_fs fs']> (abs_fs <$> fsw_services w)) (e_closed (fsw_env w))) →
  fsw_ok (mkFSW (<[id := fs']> (fsw_services w)) e').
Proof.
  intros [_ Hfs _] Hc He Hok Hns Hst. split; simpl.
  - eapply exact_perm; [|exact He]. by rewrite all_owned_insert.
  - intros id' fs. rewrite lookup_insert_Some. intros [[<- <-]|[_ Hl]]; [done|by apply Hfs].
  - unfold abs. simpl. by rewrite fmap_insert, Hc.
Qed.

Lemma removeService_sim w id :
  fsw_ok w → ∃ w', removeService id w = Ok w' ∧ fsw_ok w' ∧ abs w' = a_remove id (abs w).
Proof.
  intros Hw. pose proof (streams_ok_remove id _ (fw_streams _ Hw)) as Hst'. destruct Hw as [He Hfs [Hnd Hd]].
  assert (a_services (abs w) !! id = abs_fs <$> (fsw_services w !! id)) as Ha by apply lookup_fmap.
  unfold removeService, a_remove in *. rewrite Ha in *.
  destruct (fsw_services w !! id) as [fs|] eqn:Hid; simpl in *; [|by exists w].
  destruct (Hfs _ _ Hid) as [Hok Hns]. rewrite as_stream_abs in *.
  assert ((sb_stream <$> fs_subscribers fs) ++ a_open (mkAState (delete id (abs_fs <$> fsw_services w)) (e_closed (fsw_env w)))
    ≡ₚ a_open (abs w)) as Hp.
  { unfold abs. rewrite (a_open_delete (abs_fs <$> fsw_services w) _ id (abs_fs fs)) by done. simpl. by rewrite as_stream_abs. }
  rewrite <-Hp in Hnd. apply NoDup_app in Hnd as (Hn1 & _ & _).
  destruct (deleteSubscribers_exact (fs_namespace fs) (fs_subscribers fs) (e_closed (fsw_env w))
    (all_owned (delete id (fsw_services w))) (fsw_env w)) as (e' & Hr & He'); [|done| |by rewrite all_owned_delete in He|].
  { intros sb Hsb. by apply (fs_linked_translators fs). }
  { intros sb Hsb. apply Hd. rewrite <-Hp. apply elem_of_app. left. by apply list_elem_of_fmap_2. }
  unfold delete_fs. rewrite Hr. simpl. eexists. split; [done|].
  assert (e_closed e' = list_to_set (sb_stream <$> fs_subscribers fs) ∪ e_closed (fsw_env w)) as Hcl by apply He'.
  assert (abs (mkFSW (delete id (fsw_services w)) e') = mkAState (delete id (abs_fs <$> fsw_services w))
     (list_to_set (sb_stream <$> fs_subscribers fs) ∪ e_closed (fsw_env w))) as Habs.
  { unfold abs. simpl. by rewrite fmap_delete, Hcl. }
  split; [|done]. split; simpl.
  - by rewrite Hcl.
  - intros id' fs'. rewrite lookup_delete_Some. intros [_ Hl]. by apply Hfs.
  - by rewrite Habs.
Qed.

Lemma addService_sim w service :
  fsw_ok w → fvalid (abs w) (FAdd service) →
  ∃ w', addService config accepts service w = Ok w' ∧ fsw_ok w' ∧ abs w' = a_step (FAdd service) (abs w).
Proof.
  intros Hw [Hnd Hl]. unfold addService. simpl. destruct (isFederatedService service); [|by apply removeService_sim].
  set (id := serviceID service). set (fs := default (newFederatedService service) (fsw_services w !! id)).
  assert (fs_ok fs ∧ fs_namespace fs = Namespace id ∧ fs_owned fs ++ all_owned (delete id (fsw_services w)) ≡ₚ all_owned (fsw_services w)
    ∧ abs_sb <$> fs_subscribers fs = default [] (a_streams <$> (abs_fs <$> fsw_services w) !! id)) as (Hok & Hns & Hp & Hsb).
  { subst fs. rewrite lookup_fmap. destruct (fsw_services w !! id) as [fs|] eqn:Hid; simpl.
    - destruct (fw_fs _ Hw _ _ Hid). split_and!; try done. symmetry. by apply all_owned_delete.
    - split_and!; try done. by rewrite delete_id. }
  destruct (update_exact (e_closed (fsw_env w)) service fs (all_owned (delete id (fsw_services w))) (fsw_env w))
    as (fs' & e' & -> & He' & Hok' & Hss & Hns' & Hld' & Hrd'); [done|done|done| |].
  { eapply exact_perm; [by symmetry|apply Hw]. }
  simpl. eexists. split; [done|]. assert (e_closed e' = e_closed (fsw_env w)) as Hcl by apply He'.
  assert (abs_fs fs' = mkAService (svc_Namespace service) (localDiscoveryOf service) (remoteDiscoveryIDs service)
    (default [] (a_streams <$> (abs_fs <$> fsw_services w) !! id))) as Habs.
  { unfold abs_fs. rewrite (abs_same_streams _ _ Hss), Hns', Hld', Hrd', Hsb, Hns. done. }
  split.
  - apply fsw_ok_insert; try done; [by rewrite Hcl|by rewrite Hns'|]. rewrite Habs.
    destruct ((abs_fs <$> fsw_services w) !! id) as [s|] eqn:Hs.
    + by apply (streams_ok_insert id s _ (abs w)); [| |apply Hw].
    + destruct Hw as [_ _ [Hno Hd]]. simpl. unfold streams_ok. simpl. rewrite a_open_insert. simpl. rewrite delete_id by done.
      split; [done|]. intros x Hx. apply Hd. rewrite a_open_insert in Hx. simpl in Hx. by rewrite delete_id in Hx.
  - unfold abs. simpl. by rewrite fmap_insert, Habs, Hcl.
Qed.

Lemma Subscribe_sim w service namespace s :
  fsw_ok w → fvalid (abs w) (FSubscribe service namespace s) →
  ∃ w', fstep (FSubscribe service namespace s) w = Ok w' ∧ fsw_ok w' ∧ abs w' = a_step (FSubscribe service namespace s) (abs w).
Proof.
  intros Hw (Hin & Hno & Hne). simpl. unfold Subscribe. set (id := mkID namespace service "") in *.
  assert (a_services (abs w) !! id = abs_fs <$> (fsw_services w !! id)) as Ha by apply lookup_fmap.
  rewrite Ha in Hin. destruct (fsw_services w !! id) as [fs|] eqn:Hid; [|by destruct Hin].
  destruct (fw_fs _ Hw _ _ Hid) as [Hok Hns].
  destruct (fs_subscribe_exact (e_closed (fsw_env w)) (as_port s) (as_nodeName s) (as_instanceID s) (as_stream s) fs
    (all_owned (delete id (fsw_services w))) (fsw_env w)) as (sb & e' & -> & He' & (H1 & H2 & H3 & H4) & Hsh); [done| |].
  { rewrite <-(all_owned_delete _ id) by done. apply Hw. }
  eexists. split; [done|]. assert (e_closed e' = e_closed (fsw_env w)) as Hcl by apply He'.
  assert (abs_sb sb = s) as Hsb. { simpl in *. unfold abs_sb. rewrite H1, H2, H3, H4. by destruct s. }
  erewrite a_on_services by exact Ha. split.
  - apply fsw_ok_insert; try done; [by rewrite Hcl| |].
    + destruct Hok as [? ? Hshs]. split; [done..|]. simpl. apply Forall_app. split; [done|]. by apply Forall_singleton.
    + destruct Hw as [_ _ [Hnd Hd]]. unfold streams_ok. unfold abs_fs at 1 3. simpl. rewrite fmap_app. simpl. rewrite Hsb.
      assert (a_open (mkAState (<[id := mkAService (fs_namespace fs) (fs_localDiscovery fs) (fs_remoteDiscovery fs)
        ((abs_sb <$> fs_subscribers fs) ++ [s])]> (abs_fs <$> fsw_services w)) (e_closed (fsw_env w)))
        ≡ₚ as_stream s :: a_open (abs w)) as Hp.
      { rewrite a_open_insert. simpl. rewrite fmap_app. unfold abs.
        rewrite (a_open_delete (abs_fs <$> fsw_services w) _ id (abs_fs fs)) by done. simpl.
        rewrite <-app_assoc. symmetry. apply Permutation_middle. }
      split; [rewrite Hp; by apply NoDup_cons|]. intros x Hx. rewrite Hp in Hx. set_solver.
  - unfold abs. simpl. rewrite fmap_insert, Hcl. unfold abs_fs at 1. simpl. by rewrite fmap_app, <-Hsb.
Qed.

Lemma Unsubscribe_sim w service namespace stream :
  fsw_ok w →
  ∃ w', Unsubscribe service namespace stream w = Ok w' ∧ fsw_ok w' ∧ abs w' = a_step (FUnsubscribe service namespace stream) (abs w).
Proof.
  intros Hw. simpl. unfold Unsubscribe. set (id := mkID namespace service "") in *.
  assert (a_services (abs w) !! id = abs_fs <$> (fsw_services w !! id)) as Ha by apply lookup_fmap.
  destruct (fsw_services w !! id) as [fs|] eqn:Hid.
  2:{ exists w. split_and!; [done..|]. unfold a_on. rewrite alter_id; [done|]. by rewrite Ha. }
  destruct (fw_fs _ Hw _ _ Hid) as [Hok Hns]. unfold fs_unsubscribe.
  destruct (unsubscribeStream_exact (e_closed (fsw_env w)) (fs_namespace fs) stream (fs_subscribers fs)
    (all_owned (delete id (fsw_services w))) (fsw_env w)) as (e' & -> & He').
  { intros sb Hsb. by apply (fs_linked_translators fs). }
  { fold (fs_owned fs). rewrite <-(all_owned_delete _ id) by done. apply Hw. }
  simpl. eexists. split; [done|]. assert (e_closed e' = e_closed (fsw_env w)) as Hcl by apply He'.
  erewrite a_on_services by exact Ha. simpl.
  assert (abs_sb <$> filter (λ sb, sb_stream sb ≠ stream) (fs_subscribers fs)
    = filter (λ s, as_stream s ≠ stream) (abs_sb <$> fs_subscribers fs)) as Hf by apply filter_abs_sb.
  split.
  - apply fsw_ok_insert; try done; [by rewrite Hcl| |].
    + destruct Hok as [? ? Hshs]. split; [done..|]. simpl. rewrite Forall_forall in *. intros x [_ Hx]%list_elem_of_filter.
      by apply Hshs.
    + apply (streams_ok_insert id (abs_fs fs) _ (abs w)); [done| |apply Hw]. simpl. rewrite !as_stream_abs.
      apply fmap_submseteq, sublist_submseteq, sublist_filter.
  - unfold abs. simpl. rewrite fmap_insert, Hcl. unfold abs_fs at 1. simpl. by rewrite Hf.
Qed.

Lemma fstep_sim w ev :
  fsw_ok w → fvalid (abs w) ev → ∃ w', fstep ev w = Ok w' ∧ fsw_ok w' ∧ abs w' = a_step ev (abs w).
Proof.
  destruct ev; intros Hw Hv; [by apply addService_sim|by apply removeService_sim|by apply Subscribe_sim|by apply Unsubscribe_sim].
Qed.

Lemma frun_sim evs : ∀ w,
  fsw_ok w → fvalids evs (abs w) → ∃ w', frun evs w = Ok w' ∧ fsw_ok w' ∧ abs w' = a_run evs (abs w).
Proof.
  induction evs as [|ev evs IH]; intros w Hw Hv; [by exists w|]. destruct Hv as [Hv Hvs].
  destruct (fstep_sim w ev Hw Hv) as (w1 & Hr & Hw1 & Ha). simpl. rewrite Hr. simpl. rewrite <-Ha in *. by apply IH.
Qed.

(** The subscriptions of a good state are the wanted ones. *)
Lemma elem_of_owned ns sb D L s :
  shape D L sb →
  s ∈ owned ns sb ↔ (∃ r t, r ∈ D ∧ remoteTranslators sb !! r = Some t ∧ s = remote_sub sb (r, t))
    ∨ (∃ n t, n ∈ L ∧ localTranslators sb !! n = Some t ∧ s = local_sub ns sb (n, t)).
Proof.
  intros [HD HL]. unfold owned. rewrite elem_of_app, !list_elem_of_fmap. split.
  - intros [([r t] & -> & Hin%elem_of_map_to_list)|([n t] & -> & Hin%elem_of_map_to_list)]; [left|right]; eexists _, t;
      (split; [|done]).
    + rewrite <-HD. by eapply elem_of_dom_2.
    + rewrite <-HL. by eapply elem_of_dom_2.
  - intros [(r & t & _ & Hl & ->)|(n & t & _ & Hl & ->)]; [left|right]; eexists (_, t); (split; [done|]);
      by apply elem_of_map_to_list.
Qed.

Lemma elem_of_localSet n ld : n ∈ localSet ld ↔ n = ld ∧ ld ≠ "".
Proof. unfold localSet. case_bool_decide; set_solver. Qed.

Lemma all_owned_wanted w watcher svc port inst tr :
  fsw_ok w →
  (∃ t, accepts watcher svc = true ∧ ((watcher, svc, port, inst, t), tr) ∈ all_owned (fsw_services w))
  ↔ wanted (abs w) watcher svc port inst tr.
Proof.
  intros Hw. unfold wanted, all_owned. simpl. split.
  - intros (t & Ha & Hin). split; [done|]. apply list_elem_of_bind in Hin as ([id fs] & Hin & Hid%elem_of_map_to_list).
    apply list_elem_of_bind in Hin as (sb & Hin & Hsb). destruct (fw_fs _ Hw _ _ Hid) as [[_ _ Hsh] _].
    rewrite Forall_forall in Hsh. apply (elem_of_owned _ _ _ _ _ (Hsh _ Hsb)) in Hin.
    exists id, (abs_fs fs), (abs_sb sb). rewrite lookup_fmap, Hid. split; [done|]. split; [by apply list_elem_of_fmap_2|].
    destruct Hin as [(r & t' & Hr & _ & [= -> -> -> -> -> ->])|(n & t' & Hn & _ & [= -> -> -> -> -> ->])].
    + split_and!; [done..|]. left. exists r. apply elem_of_list_to_set in Hr. done.
    + split_and!; [done..|]. right. apply elem_of_localSet in Hn as [-> ?]. done.
  - intros (Ha & id & s & st & Hid & Hst & <- & <- & Hor). rewrite lookup_fmap in Hid.
    destruct (fsw_services w !! id) as [fs|] eqn:Hfs; simplify_eq/=. apply list_elem_of_fmap in Hst as (sb & -> & Hsb).
    destruct (fw_fs _ Hw _ _ Hfs) as [[_ _ Hsh] _]. rewrite Forall_forall in Hsh. specialize (Hsh _ Hsb) as [HD HL].
    assert (∃ t, ((watcher, svc, sb_port sb, sb_instanceID sb, t), tr) ∈ owned (fs_namespace fs) sb) as [t Ht].
    { destruct Hor as [(r & Hr & -> & -> & ->)|(Hne & -> & -> & ->)].
      - assert (r ∈ dom (remoteTranslators sb)) as [t Ht]%elem_of_dom by (rewrite HD; by apply elem_of_list_to_set).
        exists t. apply (elem_of_owned _ _ _ _ _ (conj eq_refl eq_refl)). left. exists r, t.
        split_and!; [by eapply elem_of_dom_2|done|done].
      - assert (fs_localDiscovery fs ∈ dom (localTranslators sb)) as [t Ht]%elem_of_dom by (rewrite HL; by apply elem_of_localSet).
        exists t. apply (elem_of_owned _ _ _ _ _ (conj eq_refl eq_refl)). right. exists (fs_localDiscovery fs), t.
        split_and!; [by eapply elem_of_dom_2|done|done]. }
    exists t. split; [done|]. apply list_elem_of_bind. exists (id, fs). rewrite elem_of_map_to_list. split; [|done].
    apply list_elem_of_bind. by exists sb.
Qed.

Lemma fsw_ok_init next : fsw_ok (mkFSW ∅ (mkEnv store ∅ ∅ ∅ next)).
Proof.
  split; [by split; try constructor|done|]. split; [|intros s _; set_solver].
  unfold a_open, abs. simpl. rewrite fmap_empty, map_to_list_empty. constructor.
Qed.

End exact.

(** * Reading the annotation the service mirror writes *)
Definition memberText (m : string * string) : string := m.1 +:+ "@" +:+ m.2.

(** The members the service mirror lists in the annotation of a federated service,
    [name@cluster] separated by commas, are read back in order, whatever the service names and
    cluster names are, as long as they have no [@] and no comma. *)
Theorem discovery_roundtrip (members : list (string * string)) (service : Service) :
  members ≠ [] →
  Forall (λ m, strings.Contains m.1 "@" = false ∧ strings.Contains m.2 "@" = false
    ∧ strings.Contains m.1 "," = false ∧ strings.Contains m.2 "," = false) members →
  svc_Annotations service !! RemoteDiscoveryAnnotation = Some (strings.Join (memberText <$> members) ",") →
  remoteDiscoveryIDs service = (λ m, mkRID m.2 (mkID (svc_Namespace service) m.1 "")) <$> members.
Proof.
  intros Hne Hall Ha. unfold remoteDiscoveryIDs. rewrite Ha, strings.Split_Join.
  - clear Ha Hne. induction Hall as [|[n c] members (Hn & Hc & _) _ IH]; [done|]. simpl in *.
    unfold memberText at 1. cbn [fst snd]. change (n +:+ "@" +:+ c) with (n +:+ String "@" c).
    rewrite strings.Split_app, strings.Split_absent by done. by f_equal.
  - by destruct members.
  - apply Forall_fmap. eapply Forall_impl; [exact Hall|]. intros [n c] (_ & _ & Hn & Hc). simpl in *.
    unfold memberText. simpl. by rewrite !strings.Contains_app, Hn, Hc.
Qed.

(** * Members whose cluster is linked late *)
Section late.
Context {HR : MapRange} (config : Config) (accepts : option positive → ID → bool).

(** The stream has no translator for the member. *)
Definition lacks (id : remoteDiscoveryID) (sb : federatedServiceSubscriber) : Prop := remoteTranslators sb !! id = None.

Lemma remoteDiscoverySubscribe_lacks id id' sb e :
  id' ≠ id → lacks id sb → lacks id (remoteDiscoverySubscribe accepts sb id' e).1
  ∧ e_store (remoteDiscoverySubscribe accepts sb id' e).2 = e_store e.
Proof.
  intros Hne Hl. unfold remoteDiscoverySubscribe, startTranslator, subscribed. destruct (e_store e !! _); [|done]. simpl.
  split; [|by destruct (accepts _ _)]. unfold lacks. simpl. by rewrite lookup_insert_ne.
Qed.

Lemma forSubscribers_ok f (P : federatedServiceSubscriber → Prop) :
  (∀ sb e, ∃ sb' e', f sb e = Ok (sb', e') ∧ e_store e' = e_store e ∧ (P sb → P sb')) →
  ∀ sbs e, ∃ sbs' e', forSubscribers f sbs e = Ok (sbs', e') ∧ e_store e' = e_store e ∧ (Exists P sbs → Exists P sbs').
Proof.
  intros Hf. induction sbs as [|sb sbs IH]; intros e; [by exists [], e|].
  destruct (Hf sb e) as (sb' & e1 & Hr & Hst & Hp). destruct (IH e1) as (sbs' & e2 & Hrs & Hst2 & Hps).
  exists (sb' :: sbs'), e2. simpl. rewrite Hr. simpl. rewrite Hrs. split_and!; [done|congruence|].
  intros [?|?]%Exists_cons; apply Exists_cons; auto.
Qed.

Lemma forMembers_subscribe_ok id ids :
  id ∉ ids → ∀ sbs e, ∃ sbs' e',
    forMembers (λ id sb e, Ok (remoteDiscoverySubscribe accepts sb id e)) ids sbs e = Ok (sbs', e')
    ∧ e_store e' = e_store e ∧ (Exists (lacks id) sbs → Exists (lacks id) sbs').
Proof.
  induction ids as [|id' ids IH]; intros Hni sbs e; [by exists sbs, e|]. apply not_elem_of_cons in Hni as [Hne Hni].
  destruct (forSubscribers_ok (λ sb e, Ok (remoteDiscoverySubscribe accepts sb id' e)) (lacks id)) with sbs e
    as (sbs1 & e1 & Hr & Hst & Hp).
  { intros sb e'. exists (remoteDiscoverySubscribe accepts sb id' e').1, (remoteDiscoverySubscribe accepts sb id' e').2.
    split; [by destruct (remoteDiscoverySubscribe accepts sb id' e')|]. split.
    - unfold remoteDiscoverySubscribe, startTranslator, subscribed. destruct (e_store e' !! _); [|done]. simpl.
      by destruct (accepts _ _).
    - intros Hl. by apply remoteDiscoverySubscribe_lacks. }
  destruct (IH Hni sbs1 e1) as (sbs2 & e2 & Hr2 & Hst2 & Hp2). exists sbs2, e2. simpl. rewrite Hr. simpl.
  split_and!; [done|congruence|auto].
Qed.

Lemma remoteDiscoveryUnsubscribe_cases id' sb e :
  remoteDiscoveryUnsubscribe sb id' e = Panic ∨ ∃ sb' e', remoteDiscoveryUnsubscribe sb id' e = Ok (sb', e')
    ∧ e_store e' = e_store e ∧ ∀ id, lacks id sb → lacks id sb'.
Proof.
  unfold remoteDiscoveryUnsubscribe. destruct (e_store e !! _); [|right; by eexists _, _].
  destruct (remoteTranslators sb !! id'); [right|by left]. eexists _, _. split_and!; [done..|].
  intros id Hl. unfold lacks. simpl. apply lookup_delete_None. by right.
Qed.

Lemma forSubscribers_unsubscribe id' : ∀ sbs e,
  (forSubscribers (λ sb e, remoteDiscoveryUnsubscribe sb id' e) sbs e = Panic)
  ∨ ((is_Some (e_store e !! rd_cluster id') → ¬ Exists (lacks id') sbs)
     ∧ ∃ sbs' e', forSubscribers (λ sb e, remoteDiscoveryUnsubscribe sb id' e) sbs e = Ok (sbs', e')
         ∧ e_store e' = e_store e ∧ ∀ id, Exists (lacks id) sbs → Exists (lacks id) sbs').
Proof.
  induction sbs as [|sb sbs IH]; intros e; simpl.
  { right. split; [|by eexists _, _]. intros _ Hex. by apply Exists_nil in Hex. }
  destruct (remoteDiscoveryUnsubscribe_cases id' sb e) as [->|(sb' & e1 & Hr & Hst & Hp)]; [by left|]. rewrite Hr. simpl.
  destruct (IH e1) as [->|(Hno & sbs' & e2 & -> & Hst2 & Hps)]; [by left|]. right. simpl. split.
  - intros Hs [Hl|Hl]%Exists_cons; [|by apply Hno; [rewrite Hst|]]. unfold remoteDiscoveryUnsubscribe in Hr.
    destruct Hs as [rc Hrc]. rewrite Hrc, Hl in Hr. done.
  - eexists _, _. split_and!; [done|congruence|]. intros id [Hl|Hl]%Exists_cons; apply Exists_cons; auto.
Qed.

Lemma forMembers_unsubscribe_panics id ids : ∀ sbs e,
  id ∈ ids → is_Some (e_store e !! rd_cluster id) → Exists (lacks id) sbs →
  forMembers (λ id sb e, remoteDiscoveryUnsubscribe sb id e) ids sbs e = Panic.
Proof.
  induction ids as [|id' ids IH]; intros sbs e Hin Hs Hex; [by apply not_elem_of_nil in Hin|]. simpl.
  destruct (forSubscribers_unsubscribe id' sbs e) as [->|(Hno & sbs' & e' & -> & Hst & Hp)]; [done|]. simpl.
  apply elem_of_cons in Hin as [->|Hin]; [by destruct (Hno Hs)|]. apply IH; [done|by rewrite Hst|auto].
Qed.

(** A stream that got a federated service while the cluster of a member was not linked has
    no translator for that member and gets none when the cluster is linked later; and when the
    member then leaves the service, the controller dereferences the missing translator and
    panics, whatever else the update changes. *)
Theorem late_cluster_panics w service id fs sb :
  fsw_services w !! serviceID service = Some fs →
  sb ∈ fs_subscribers fs → lacks id sb → id ∈ fs_remoteDiscovery fs →
  is_Some (e_store (fsw_env w) !! rd_cluster id) →
  isFederatedService service = true → id ∉ remoteDiscoveryIDs service →
  updateService config accepts service w = Panic.
Proof.
  intros Hfs Hsb Hl Hid Hst Hfed Hni. unfold updateService, addService. rewrite Hfed, Hfs. simpl. unfold update.
  destruct (forMembers_subscribe_ok id (filter (.∉ fs_remoteDiscovery fs) (remoteDiscoveryIDs service))
    ltac:(rewrite list_elem_of_filter; tauto) (fs_subscribers fs) (fsw_env w)) as (sbs1 & e1 & -> & Hst1 & Hp). simpl.
  rewrite (forMembers_unsubscribe_panics id); [done| |by rewrite Hst1|].
  - by apply list_elem_of_filter.
  - apply Hp, Exists_exists. by exists sb.
Qed.
End late.

(** * Deleting a service under an ended stream *)
Lemma foldl_keeps {A B C} (g : A → C) (f : A → B → A) :
  (∀ a b, g (f a b) = g a) → ∀ l a, g (foldl f a l) = g a.
Proof. intros Hf l. induction l as [|b l IH]; intros a; [done|]. simpl. by rewrite IH, Hf. Qed.

(** Deleting a federated service panics when one of its streams has been ended already, as
    a full queue of one of its translators does: the channel is closed a second time. *)
Theorem ended_stream_panics {HR : MapRange} w id fs sb :
  fsw_services w !! id = Some fs → sb ∈ fs_subscribers fs → sb_stream sb ∈ e_closed (fsw_env w) →
  removeService id w = Panic.
Proof.
  intros Hfs Hsb Hc. unfold removeService. rewrite Hfs. unfold delete_fs.
  assert (∀ sbs e, sb ∈ sbs → sb_stream sb ∈ e_closed e → deleteSubscribers (fs_namespace fs) sbs e = Panic) as Hd.
  { induction sbs as [|sb' sbs IH]; intros e Hin Hce; [by apply not_elem_of_nil in Hin|]. simpl.
    set (e1 := foldl (deleteRemote sb') e _). set (e2 := foldl _ e1 _).
    assert (e_closed e2 = e_closed e) as Hcl.
    { transitivity (e_closed e1); subst e1 e2.
      - apply (foldl_keeps e_closed). done.
      - apply (foldl_keeps e_closed). intros e' [id' t]. unfold deleteRemote. by destruct (e_store e' !! _). }
    unfold closeEnd. rewrite Hcl. case_bool_decide as Hb; [done|]. simpl.
    apply elem_of_cons in Hin as [->|Hin]; [done|]. apply IH; [done|]. simpl. set_solver. }
  by rewrite Hd.
Qed.

(** * Clusters that are unlinked or linked again *)
Section relinked.
Context {HR : MapRange} (config : Config) (accepts : option positive → ID → bool).

(** The watcher [p] is that of a cluster no longer in the store, and its subscriptions stay. *)
Definition gone (p : positive) (e : env) : Prop := ∀ c rc, e_store e !! c = Some rc → rc_watcher rc ≠ p.
Definition keeps (p : positive) (e e' : env) : Prop :=
  e_store e' = e_store e ∧ ∀ s : subscription, s.1.1.1.1 = Some p → (s ∈ e_subs e' ↔ s ∈ e_subs e).

#[local] Instance keeps_refl p : Reflexive (keeps p).
Proof. by intros e. Qed.
#[local] Instance keeps_trans p : Transitive (keeps p).
Proof.
  intros e1 e2 e3 [Hs1 H1] [Hs2 H2]. split; [congruence|]. intros s Hs. by rewrite H2, H1.
Qed.

(** A property of results: the environment keeps the subscriptions at [p]. *)
Definition all_keep {A} (p : positive) (e : env) (r : res (A * env)) : Prop := ∀ x e', r = Ok (x, e') → keeps p e e'.

Lemma all_keep_Ok {A} p e (x : A * env) : keeps p e x.2 → all_keep p e (Ok x).
Proof. intros H ? ? [= ->]. done. Qed.
Lemma all_keep_bind {A B} p e (r : res (A * env)) (f : A * env → res (B * env)) :
  gone p e → all_keep p e r → (∀ x e', gone p e' → all_keep p e' (f (x, e'))) → all_keep p e (res_bind r f).
Proof.
  intros Hg Hr Hf y e2. destruct r as [[x e1]| |]; simpl; try done. intros Hy. specialize (Hr x e1 eq_refl).
  etrans; [exact Hr|]. eapply Hf; [|exact Hy]. unfold gone. by rewrite (proj1 Hr).
Qed.

Lemma keeps_subscribed p s tr e :
  s.1.1.1.1 ≠ Some p → keeps p e (subscribed accepts s (startTranslator tr e).2).
Proof.
  intros Hs. unfold subscribed. destruct (accepts _ _); [|done]. split; [done|]. intros s' Hs'. simpl.
  rewrite elem_of_union, elem_of_singleton. split; [|by right]. intros [->|?]; [congruence|done].
Qed.
Lemma keeps_unsubscribed p s t st e : s.1.1.1.1 ≠ Some p → keeps p e (setState st t (unsubscribed s e)).
Proof.
  intros Hs. split; [done|]. intros s' Hs'. simpl. rewrite elem_of_difference, not_elem_of_singleton.
  split; [tauto|]. intros. split; [done|]. congruence.
Qed.

Lemma gone_watcher p e c rc : gone p e → e_store e !! c = Some rc → Some (rc_watcher rc) ≠ Some p.
Proof. intros Hg Hc [= Heq]. by eapply Hg. Qed.

Lemma keeps_remoteSubscribe p sb id e : gone p e → keeps p e (remoteDiscoverySubscribe accepts sb id e).2.
Proof.
  intros Hg. unfold remoteDiscoverySubscribe. destruct (e_store e !! _) as [rc|] eqn:Hc; [|done].
  apply (keeps_subscribed p). by eapply gone_watcher.
Qed.
Lemma keeps_remoteUnsubscribe p sb id e : gone p e → all_keep p e (remoteDiscoveryUnsubscribe sb id e).
Proof.
  intros Hg. unfold remoteDiscoveryUnsubscribe. destruct (e_store e !! _) as [rc|] eqn:Hc; [|by apply all_keep_Ok].
  destruct (remoteTranslators sb !! id); [|done]. apply all_keep_Ok, keeps_unsubscribed. by eapply gone_watcher.
Qed.
Lemma keeps_localSubscribe p ns sb n e : keeps p e (localDiscoverySubscribe config accepts ns sb n e).2.
Proof. unfold localDiscoverySubscribe. by apply (keeps_subscribed p). Qed.
Lemma keeps_localUnsubscribe p ns sb n e : keeps p e (localDiscoveryUnsubscribe ns sb n e).2.
Proof.
  unfold localDiscoveryUnsubscribe. destruct (localTranslators sb !! n); [|done]. by apply keeps_unsubscribed.
Qed.

Lemma keeps_forSubscribers p f sbs :
  (∀ sb e, gone p e → all_keep p e (f sb e)) → ∀ e, gone p e → all_keep p e (forSubscribers f sbs e).
Proof.
  intros Hf. induction sbs as [|sb sbs IH]; intros e Hg; simpl; [by apply all_keep_Ok|].
  apply all_keep_bind; [done|by apply Hf|]. intros sb' e1 Hg1. simpl. apply all_keep_bind; [done|by apply IH|].
  intros sbs' e2 Hg2. by apply all_keep_Ok.
Qed.
Lemma keeps_forMembers p f ids :
  (∀ id sb e, gone p e → all_keep p e (f id sb e)) → ∀ sbs e, gone p e → all_keep p e (forMembers f ids sbs e).
Proof.
  intros Hf. induction ids as [|id ids IH]; intros sbs e Hg; simpl; [by apply all_keep_Ok|].
  apply all_keep_bind; [done|by apply keeps_forSubscribers; [apply Hf|]|]. intros sbs' e1 Hg1. by apply IH.
Qed.

Lemma keeps_gone p e e' : keeps p e e' → gone p e → gone p e'.
Proof. intros [Hs _] Hg. unfold gone. by rewrite Hs. Qed.

Lemma keeps_foldl {A B} p (f : A * env → B → A * env) l :
  (∀ r b, gone p r.2 → keeps p r.2 (f r b).2) → ∀ r, gone p r.2 → keeps p r.2 (foldl f r l).2.
Proof.
  intros Hf. induction l as [|b l IH]; intros r Hg; [done|]. simpl. etrans; [by apply Hf|]. apply IH.
  eapply keeps_gone; [by apply Hf|done].
Qed.

Lemma keeps_update p service fs e : gone p e → all_keep p e (update config accepts service fs e).
Proof.
  intros Hg. unfold update. apply all_keep_bind; [done| |].
  { apply keeps_forMembers; [|done]. intros id sb e1 Hg1. by apply all_keep_Ok, keeps_remoteSubscribe. }
  intros sbs1 e1 Hg1. apply all_keep_bind; [done| |].
  { apply keeps_forMembers; [|done]. intros id sb e2 Hg2. by apply keeps_remoteUnsubscribe. }
  intros sbs2 e2 Hg2. apply all_keep_bind; [done| |by intros; apply all_keep_Ok].
  case_bool_decide; [by apply all_keep_Ok|]. apply keeps_forSubscribers; [|done]. intros sb e3 Hg3. apply all_keep_Ok.
  unfold updateLocal. case_bool_decide; [|by apply keeps_localUnsubscribe].
  case_bool_decide; [|by apply keeps_localSubscribe]. pose proof (keeps_localUnsubscribe p (fs_namespace fs) sb (fs_localDiscovery fs) e3).
  destruct (localDiscoveryUnsubscribe _ sb _ e3) as [sb4 e4]. etrans; [done|]. by apply keeps_localSubscribe.
Qed.

Lemma keeps_fs_subscribe p port nodeName instanceID stream fs e :
  gone p e → keeps p e (fs_subscribe config accepts port nodeName instanceID stream fs e).2.
Proof.
  intros Hg. unfold fs_subscribe. set (sb := mkSubscriber _ _ _ _ _ _).
  pose proof (keeps_foldl p (λ r id, remoteDiscoverySubscribe accepts r.1 id r.2) (fs_remoteDiscovery fs)
    ltac:(intros; by apply keeps_remoteSubscribe) (sb, e) Hg) as Hk.
  destruct (foldl _ _ _) as [sb1 e1]. simpl in Hk.
  pose proof (keeps_localSubscribe p (fs_namespace fs) sb1 (fs_localDiscovery fs) e1) as Hk1.
  case_bool_decide; [|done]. destruct (localDiscoverySubscribe _ _ _ _ _ _) as [sb2 e2]. simpl in *. by etrans.
Qed.

Lemma keeps_unsubscribeRemotes p ids : ∀ sb e, gone p e → all_keep p e (unsubscribeRemotes ids sb e).
Proof.
  induction ids as [|id ids IH]; intros sb e Hg; simpl; [by apply all_keep_Ok|].
  apply all_keep_bind; [done|by apply keeps_remoteUnsubscribe|]. intros sb1 e1 Hg1. by apply IH.
Qed.
Lemma keeps_unsubscribeStream p ns stream sbs : ∀ e, gone p e → all_keep p e (unsubscribeStream ns stream sbs e).
Proof.
  induction sbs as [|sb sbs IH]; intros e Hg; simpl; [by apply all_keep_Ok|]. case_bool_decide.
  - apply all_keep_bind; [done| |by intros; apply IH]. unfold unsubscribeAll.
    apply all_keep_bind; [done|by apply keeps_unsubscribeRemotes|]. intros sb1 e1 Hg1. apply all_keep_Ok.
    apply (keeps_foldl p _ _ ltac:(intros; by apply keeps_localUnsubscribe) (sb1, e1) Hg1).
  - apply all_keep_bind; [done|by apply IH|]. intros. by apply all_keep_Ok.
Qed.

Lemma keeps_deleteSubscribers p ns sbs : ∀ e e', gone p e → deleteSubscribers ns sbs e = Ok e' → keeps p e e'.
Proof.
  induction sbs as [|sb sbs IH]; intros e e' Hg; simpl; [by intros [= <-]|].
  set (e1 := foldl (deleteRemote sb) e _). set (e2 := foldl (deleteLocal ns sb) e1 _).
  assert (∀ l e, gone p e → keeps p e (foldl (deleteRemote sb) e l)) as Hr.
  { induction l as [|en l IHl]; intros e0 Hg0; [done|]. simpl.
    assert (keeps p e0 (deleteRemote sb e0 en)) as Hk.
    { unfold deleteRemote. destruct (e_store e0 !! _) as [rc|] eqn:Hc; [|done]. apply keeps_unsubscribed. by eapply gone_watcher. }
    etrans; [exact Hk|]. apply IHl. by eapply keeps_gone. }
  assert (∀ l e, keeps p e (foldl (deleteLocal ns sb) e l)) as Hl.
  { induction l as [|en l IHl]; intros e0; [done|]. simpl. etrans; [|apply IHl]. by apply keeps_unsubscribed. }
  assert (keeps p e e2) as Hk by (etrans; [by apply Hr|apply Hl]).
  unfold closeEnd. case_bool_decide; [done|]. simpl. intros Hd. etrans; [exact Hk|]. apply (IH (set_closed ({[sb_stream sb]} ∪ e_closed e2) e2)); [|done].
  by eapply keeps_gone in Hg; [|exact Hk].
Qed.

Lemma keeps_removeService p id w w' : gone p (fsw_env w) → removeService id w = Ok w' → keeps p (fsw_env w) (fsw_env w').
Proof.
  intros Hg. unfold removeService. destruct (fsw_services w !! id) as [fs|]; [|by intros [= <-]].
  intros (e' & Hd & [= <-])%res_bind_Ok. by eapply keeps_deleteSubscribers.
Qed.

(** The endpoints watcher of a cluster that has been unlinked, or linked again with another
    one in its place, is never subscribed to again and never left: whatever services are
    updated or deleted and whatever streams come and go, the translators subscribed to it stay
    subscribed, and streams are not moved to the new watcher. *)
Theorem relinked_never_released p ev w w' :
  gone p (fsw_env w) → fstep config accepts ev w = Ok w' →
  gone p (fsw_env w') ∧ ∀ svc port inst t,
    (Some p, svc, port, inst, t) ∈ e_subs (fsw_env w') ↔ (Some p, svc, port, inst, t) ∈ e_subs (fsw_env w).
Proof.
  intros Hg Hstep. assert (keeps p (fsw_env w) (fsw_env w')) as Hk.
  { destruct ev; simpl in Hstep.
    - unfold addService in Hstep. destruct (isFederatedService service); [|by eapply keeps_removeService].
      apply res_bind_Ok in Hstep as ([fs' e'] & Hu & [= <-]). by eapply keeps_update.
    - by eapply keeps_removeService.
    - unfold Subscribe in Hstep. destruct (fsw_services w !! _) as [fs|]; [|done].
      pose proof (keeps_fs_subscribe p (as_port s) (as_nodeName s) (as_instanceID s) (as_stream s) fs _ Hg) as Hk.
      destruct (fs_subscribe _ _ _ _ _ _ _ _) as [fs' e']. by simplify_eq.
    - unfold Unsubscribe in Hstep. destruct (fsw_services w !! _) as [fs|]; [|by simplify_eq].
      apply res_bind_Ok in Hstep as ([fs' e'] & Hu & [= <-]). unfold fs_unsubscribe in Hu.
      apply res_bind_Ok in Hu as ([sbs e1] & Hu & [= <- <-]). by eapply keeps_unsubscribeStream. }
  split; [by eapply keeps_gone|]. intros. by apply Hk.
Qed.
End relinked.

(** * Witnesses *)
Definition ex_cfg : Config := mkFConfig "cluster.local".
Definition ex_accepts : option positive → ID → bool := λ _ _, true.
Definition ex_linked : gmap string remoteCluster :=
  {["west" := mkRemoteCluster 100 (mkClusterConfig "west.local" "cluster.west")]}.
Definition ex_service (remote local : string) : Service :=
  mkService "web-federated" "ns" "" ∅ (<[RemoteDiscoveryAnnotation := remote]> {[LocalDiscoveryAnnotation := local]})
    "ClusterIP" "10.0.0.1" [] None [] None false.
Definition ex_stream : astream := mkAStream 8080 "node" "" 7.
(** A service with a member in the west and one here, a stream, and then only the one here. *)
Definition ex_events : list fevent :=
  [FAdd (ex_service "web@west" "web"); FSubscribe "web-federated" "ns" ex_stream; FAdd (ex_service "" "web")].


Lemma discovery_roundtrip_witness :
  remoteDiscoveryIDs (ex_service "web@west,web@east" "")
  = [mkRID "west" (mkID "ns" "web" ""); mkRID "east" (mkID "ns" "web" "")].
Proof.
  apply (discovery_roundtrip [("web", "west"); ("web", "east")] (ex_service "web@west,web@east" "")); [done| |done].
  by repeat constructor.
Defined.

Definition ex_secret : Secret :=
  mkSecret MirrorSecretType {[clusterNameLabel := "west"]}
    (<[clusterDomainAnnotation := "cluster.west"]> {[trustDomainAnnotation := "west.local"]}) {[ConfigKeyName := "config"]}.
(** The stream got the service before the west was linked. *)
Definition ex_west : remoteDiscoveryID := mkRID "west" (mkID "ns" "web" "").
Definition ex_subscriber : federatedServiceSubscriber := mkSubscriber 8080 "node" "" {["web" := 1%positive]} ∅ 7.
Definition ex_unlinked : env :=
  mkEnv ∅ {[1%positive := mkTranslator "cluster.local" true "node" 7 Running]}
    {[(None, mkID "ns" "web" "", 8080, "", 1%positive)]} ∅ 2.
Definition ex_late : fsw :=
  mkFSW {[mkID "ns" "web-federated" "" := mkFS "ns" "web" [ex_west] [ex_subscriber]]}
    (secretAdded (λ _ _, true) ex_secret ex_unlinked).

Lemma late_cluster_panics_witness :
  updateService (H := range_in_order) ex_cfg ex_accepts (ex_service "" "web") ex_late = Panic.
Proof.
  apply (late_cluster_panics (HR := range_in_order) ex_cfg ex_accepts ex_late _ ex_west
    (mkFS "ns" "web" [ex_west] [ex_subscriber]) ex_subscriber).
  - apply lookup_singleton_Some. split; reflexivity.
  - by apply list_elem_of_singleton.
  - reflexivity.
  - by apply list_elem_of_singleton.
  - vm_compute. by eexists.
  - reflexivity.
  - apply (bool_decide_unpack _). vm_compute. exact I.
Defined.

(** A stream with the member here, ended by its translator. *)
Definition ex_ended : fsw :=
  mkFSW {[mkID "ns" "web-federated" "" := mkFS "ns" "web" [] [ex_subscriber]]} (set_closed {[7%positive]} ex_unlinked).

Lemma ended_stream_panics_witness : removeService (H := range_in_order) (mkID "ns" "web-federated" "") ex_ended = Panic.
Proof.
  apply (ended_stream_panics (HR := range_in_order) ex_ended _ (mkFS "ns" "web" [] [ex_subscriber]) ex_subscriber).
  - apply lookup_singleton_Some. split; reflexivity.
  - by apply list_elem_of_singleton.
  - change (7%positive ∈ ({[7%positive]} : gset positive)). by apply elem_of_singleton.
Defined.

(** The west is linked again, with a new watcher, while the stream has its member there. *)
Definition ex_relinked : fsw :=
  mkFSW {[mkID "ns" "web-federated" "" := mkFS "ns" "" [ex_west] [mkSubscriber 8080 "node" "" ∅ {[ex_west := 1%positive]} 7]]}
    (secretAdded (λ _ _, true) ex_secret (secretDeleted (inl (Some ex_secret))
      (mkEnv ex_linked {[1%positive := mkTranslator "west.local" false "node" 7 Running]}
        {[(Some 100%positive, mkID "ns" "web" "", 8080, "", 1%positive)]} ∅ 3))).

Lemma relinked_never_released_witness :
  match fstep (HR := range_in_order) ex_cfg ex_accepts (FAdd (ex_service "" "web")) ex_relinked with
  | Ok w' => (Some 100%positive, mkID "ns" "web" "", 8080, "", 1%positive) ∈ e_subs (fsw_env w')
  | _ => False
  end.
Proof.
  assert (match fstep (HR := range_in_order) ex_cfg ex_accepts (FAdd (ex_service "" "web")) ex_relinked with
          | Ok _ => true | _ => false end = true) as Hok by (vm_compute; reflexivity).
  destruct (fstep _ _ _ _) as [w'| |] eqn:Hw; [|discriminate Hok..].
  apply (relinked_never_released (HR := range_in_order) ex_cfg ex_accepts 100 (FAdd (ex_service "" "web")) ex_relinked w').
  - intros c rc Hc. replace (e_store (fsw_env ex_relinked))
      with ({["west" := mkRemoteCluster 3 (mkClusterConfig "west.local" "cluster.west")]} : gmap string remoteCluster) in Hc
      by (vm_compute; reflexivity). apply lookup_singleton_Some in Hc as [_ <-]. discriminate.
  - exact Hw.
  - apply (bool_decide_unpack _). vm_compute. exact I.
Defined.
