(* ===== verification/Server.v ===== *)
(** The gRPC handlers of the destination service: [Get] and [GetProfile] of [server.go].

    A handler parses the authority, starts a translator, subscribes it to a watcher, waits
    until the stream ends, and releases with [defer] what it acquired.  A handler is a
    program that records the resources it acquires and releases; the watchers' answers to a
    subscription are given by a class. *)
From S2P Require Import Prelude GoStd K8s Addresses Addr Federated Names.

#[local] Open Scope string_scope.
#[local] Open Scope list_scope.
#[local] Open Scope Z_scope.

(** [net.ParseIP]: 16 bytes; an IPv6 address with a zone is none. *)
Definition ParseIP (s : string) : option (list Z) :=
  match netip.ParseAddr s with
  | Some (netip.Addr4 b) => Some (v4InV6Prefix ++ b)
  | Some (netip.Addr6 b) => if strings.Contains s "%" then None else Some b
  | None => None
  end.

Definition RemoteDiscoveryLabel : string := "multicluster.linkerd.io/remote-discovery".
Definition RemoteServiceLabel : string := "multicluster.linkerd.io/remote-service".

(** * Resources and errors *)
Inductive listenerKind := Single | PrimaryListener | BackupListener.

Inductive resource :=
  | EndpointTranslatorR (trustDomain : string) (filtering : bool) (service nodeName : string)
  | ProfileTranslatorR (service : ID) (fqn : string) (port : Z)
  | EndpointProfileTranslatorR
  | FederatedR (service namespace : string) (port : Z) (nodeName instanceID : string)
  | EndpointsR (watcher : option positive) (id : ID) (port : Z) (instanceID : string)
  | OpaquePortsR (id : ID)
  | ProfileR (id : ID) (listener : listenerKind)
  | WorkloadR (ip : string) (port : Z).

#[export] Instance listenerKind_eq_dec : EqDecision listenerKind.
Proof. solve_decision. Defined.
#[export] Instance resource_eq_dec : EqDecision resource.
Proof. solve_decision. Defined.

Inductive action := Acquire (r : resource) | Release (r : resource) | Wait.

Inductive code := InvalidArgument | NotFound | FailedPrecondition | Internal | Unknown.
Inductive err := InvalidService | Status (c : code) | OtherErr.

(** What the watchers answer to a subscription: [None] or an error; the workload watcher
    answers with the IP address. *)
Class Watchers := {
  federated_Subscribe : string → string → option err;
  endpoints_Subscribe : option positive → ID → Z → string → option err;
  opaquePorts_Subscribe : ID → option err;
  profiles_Subscribe : ID → option err;
  workloads_Subscribe : option ID → string → string → Z → string + err }.

Record server := mkServer {
  sv_ClusterDomain : string; sv_IdentityTrustDomain : string;
  sv_clusters : gmap string remoteCluster;
  sv_service : string → string → Service + bool  (* the lister: a failure says whether it is NotFound *);
  sv_services : list (Service * list string)  (* the informer's store, with Spec.ClusterIPs *);
  sv_json : string → contextToken * bool  (* json.Unmarshal into an empty token: what it filled in, and whether it failed *) }.

(** * Programs with defer *)
Definition M (A : Type) : Type := list action * list resource → (list action * list resource) * (A + option err).
#[export] Instance M_ret : MRet M := λ A a s, (s, inl a).
#[export] Instance M_bind : MBind M := λ A B f m s,
  match m s with (s, inl a) => f a s | (s, inr e) => (s, inr e) end.
Definition return_ {A} (e : option err) : M A := λ s, (s, inr e).
Definition acquire (r : resource) : M () := λ s, ((s.1 ++ [Acquire r], s.2), inl ()).
Definition defer (r : resource) : M () := λ s, ((s.1, r :: s.2), inl ()).
Definition wait : M () := λ s, ((s.1 ++ [Wait], s.2), inl ()).
(** A call of a function: its deferred calls run when it returns, the last one first. *)
Definition func (m : M (option err)) : M (option err) :=
  λ s, let '((t, ds), r) := m (s.1, []) in
       ((t ++ (Release <$> ds), s.2), inl (match r with inl e | inr e => e end)).

(** [err = Subscribe(...)]: the resource is acquired when there is no error. *)
Definition subscribe (r : resource) (answer : option err) : M (option err) :=
  match answer with None => acquire r;; mret None | Some e => mret (Some e) end.
Definition orReturn (e : option err) : M () := match e with None => mret () | Some e => return_ (Some e) end.
Definition isInvalidService (e : err) : bool := match e with InvalidService => true | _ => false end.

Definition serviceIPIndex (svc : Service * list string) : list string :=
  match svc.2 with
  | [] => if bool_decide (svc_ClusterIP svc.1 = "") then [] else [svc_ClusterIP svc.1]
  | ips => ips
  end.

Section server.
Context `{!Watchers} (s : server).

Definition parseContextToken (token : string) : contextToken :=
  if bool_decide (token = "") then mkContextToken "" "" "" else
  let '(ctxToken, failed) := sv_json s token in
  if (failed : bool) then
    match strings.Split token ":" with
    | [p; ns] => if bool_decide (p = "ns") then mkContextToken ns "" "" else ctxToken
    | _ => ctxToken
    end
  else ctxToken.

Definition getSvcID (clusterIP : string) : (option ID) + err :=
  match filter (λ svc, clusterIP ∈ serviceIPIndex svc) (sv_services s) with
  | [] => inl None
  | [svc] => inl (Some (mkID (svc_Namespace svc.1) (svc_Name svc.1) ""))
  | _ => inr (Status FailedPrecondition)
  end.

(** * Get *)
Definition subscribeEndpoints (watcher : option positive) (id : ID) (port : Z) (instanceID : string) : M () :=
  e ← subscribe (EndpointsR watcher id port instanceID) (endpoints_Subscribe watcher id port instanceID);
  match e with
  | Some e => return_ (Some (if isInvalidService e then Status InvalidArgument else e))
  | None => defer (EndpointsR watcher id port instanceID)
  end.

Definition Get (path contextToken : string) : M (option err) :=
  func (
    let token := parseContextToken contextToken in
    match getHostAndPort path with
    | Ok (host, port) =>
        match ParseIP host with
        | Some _ => return_ (Some (Status InvalidArgument))
        | None =>
            match parseK8sServiceName host (sv_ClusterDomain s) with
            | Ok (service, instanceID) =>
                match sv_service s (Namespace service) (Name service) with
                | inr notFound => return_ (Some (Status (if (notFound : bool) then NotFound else Internal)))
                | inl svc =>
                    (if isFederatedService svc then
                       let r := FederatedR (svc_Name svc) (svc_Namespace svc) port (tok_NodeName token) instanceID in
                       e ← subscribe r (federated_Subscribe (svc_Name svc) (svc_Namespace svc));
                       orReturn e;; defer r
                     else
                       match svc_Labels svc !! RemoteDiscoveryLabel with
                       | Some cluster =>
                           match svc_Labels svc !! RemoteServiceLabel with
                           | None => return_ (Some (Status FailedPrecondition))
                           | Some remoteSvc =>
                               match sv_clusters s !! cluster with
                               | None => return_ (Some (Status NotFound))
                               | Some rc =>
                                   let tr := EndpointTranslatorR (TrustDomain (rc_config rc)) false
                                     (remoteSvc +:+ "." +:+ Namespace service +:+ ".svc." +:+ ClusterDomain (rc_config rc)
                                      +:+ ":" +:+ strconv.Itoa port) (tok_NodeName token) in
                                   acquire tr;; defer tr;;
                                   subscribeEndpoints (Some (rc_watcher rc)) (mkID (Namespace service) remoteSvc "")
                                     port instanceID
                               end
                           end
                       | None =>
                           let tr := EndpointTranslatorR (sv_IdentityTrustDomain s) true path (tok_NodeName token) in
                           acquire tr;; defer tr;;
                           subscribeEndpoints None service port instanceID
                       end);;
                    wait;; mret None
                end
            | _ => return_ (Some (Status InvalidArgument))
            end
        end
    | _ => return_ (Some (Status InvalidArgument))
    end).

(** * GetProfile *)
Definition subscribeProfile (id : ID) (l : listenerKind) : M () :=
  e ← subscribe (ProfileR id l) (profiles_Subscribe id); orReturn e;; defer (ProfileR id l).

Definition idOrReturn (r : res ID) : M ID :=
  match r with Ok id => mret id | _ => return_ (Some (Status InvalidArgument)) end.

Definition subscribeToServicesWithContext (fqn : string) (token : contextToken) : M (option err) :=
  func (
    backupID ← idOrReturn (profileID fqn (mkContextToken "" "" "") (sv_ClusterDomain s));
    subscribeProfile backupID BackupListener;;
    primaryID ← idOrReturn (profileID fqn token (sv_ClusterDomain s));
    subscribeProfile primaryID PrimaryListener;;
    wait;; mret None).

Definition subscribeToServiceWithoutContext (fqn : string) : M (option err) :=
  func (
    id ← idOrReturn (profileID fqn (mkContextToken "" "" "") (sv_ClusterDomain s));
    subscribeProfile id Single;;
    wait;; mret None).

Definition subscribeToServiceProfile (service : ID) (token : contextToken) (fqn : string) (port : Z) : M (option err) :=
  func (
    let tr := ProfileTranslatorR service fqn port in
    acquire tr;; defer tr;;
    e ← subscribe (OpaquePortsR service) (opaquePorts_Subscribe service);
    orReturn e;; defer (OpaquePortsR service);;
    if bool_decide (tok_Ns token = "") then subscribeToServiceWithoutContext fqn
    else subscribeToServicesWithContext fqn token).

Definition subscribeToEndpointProfile (service : option ID) (hostname ip : string) (port : Z) : M (option err) :=
  func (
    acquire EndpointProfileTranslatorR;; defer EndpointProfileTranslatorR;;
    match workloads_Subscribe service hostname ip port with
    | inr e => return_ (Some e)
    | inl ip => acquire (WorkloadR ip port);; defer (WorkloadR ip port);; wait;; mret None
    end).

Definition getProfileByIP (token : contextToken) (ip : list Z) (port : Z) : M (option err) :=
  match getSvcID (IP_String ip) with
  | inr e => mret (Some e)
  | inl None => subscribeToEndpointProfile None "" (IP_String ip) port
  | inl (Some svcID) =>
      let fqn := Name svcID +:+ "." +:+ Namespace svcID +:+ ".svc." +:+ sv_ClusterDomain s in
      subscribeToServiceProfile svcID token fqn port
  end.

Definition getProfileByName (token : contextToken) (host : string) (port : Z) : M (option err) :=
  match parseK8sServiceName host (sv_ClusterDomain s) with
  | Ok (service, hostname) =>
      if bool_decide (hostname ≠ "") then subscribeToEndpointProfile (Some service) hostname "" port
      else subscribeToServiceProfile service token host port
  | _ => mret (Some (Status InvalidArgument))
  end.

Definition GetProfile (path contextToken : string) : M (option err) :=
  func (
    let token := parseContextToken contextToken in
    match getHostAndPort path with
    | Ok (host, port) =>
        e ← match ParseIP host with
            | Some ip => getProfileByIP token ip port
            | None => getProfileByName token host port
            end;
        mret (match e with Some InvalidService => Some (Status InvalidArgument) | e => e end)
    | _ => return_ (Some (Status InvalidArgument))
    end).
End server.

(** A call of a handler: what it did, and its error. *)
Definition handled (m : M (option err)) : list action * option err :=
  match m ([], []) with ((t, _), inl e) | ((t, _), inr e) => (t, e) end.

(** * What a handler holds *)
Definition waits (e : option err) : list action := match e with None => [Wait] | Some _ => [] end.
(** A handler that acquires resources, waits unless it fails, and releases them. *)
Definition session (rs : list resource) (e : option err) : list action :=
  (Acquire <$> rs) ++ waits e ++ (Release <$> reverse rs).

(** The end of a function: it acquires [rs], deferring their release, and then has a session
    of its own or of the function it calls last. *)
Definition ends (m : M (option err)) : Prop :=
  ∀ t ds, ∃ rs rs' e r, m (t, ds) = ((t ++ (Acquire <$> rs) ++ session rs' e, reverse rs ++ ds), r)
    ∧ match r with inl e' | inr e' => e' = e end.

Lemma ends_return e : ends (return_ (Some e)).
Proof. intros t ds. exists [], [], (Some e), (inr (Some e)). unfold session. simpl. by rewrite app_nil_r. Qed.
Lemma ends_ret e : ends (mret (Some e)).
Proof. intros t ds. exists [], [], (Some e), (inl (Some e)). unfold session. simpl. by rewrite app_nil_r. Qed.
Lemma ends_wait : ends (wait;; mret None).
Proof. intros t ds. by exists [], [], None, (inl None). Qed.

Lemma ends_acquire r k : ends k → ends (acquire r;; defer r;; k).
Proof.
  intros Hk t ds. destruct (Hk (t ++ [Acquire r]) (r :: ds)) as (rs & rs' & e & x & Heq & Hx).
  exists (r :: rs), rs', e, x. split; [|done]. unfold mbind, M_bind, acquire, defer. simpl. rewrite Heq.
  rewrite reverse_cons, <-!app_assoc. done.
Qed.
Lemma ends_subscribe r answer k : ends k → ends (e ← subscribe r answer; orReturn e;; defer r;; k).
Proof.
  intros Hk. destruct answer as [e|]; [by apply (ends_return e)|]. by apply (ends_acquire r k).
Qed.

(** A function runs its deferred calls: what is left is one session. *)
Lemma ends_func m : ends m → ∀ t ds, ∃ rs e, func m (t, ds) = ((t ++ session rs e, ds), inl e).
Proof.
  intros Hm t ds. destruct (Hm t []) as (rs & rs' & e & r & Heq & Hr). exists (rs ++ rs'), e. unfold func. simpl.
  rewrite Heq. rewrite app_nil_r. f_equal; [f_equal|by destruct r; subst].
  unfold session. by rewrite reverse_app, !fmap_app, <-!app_assoc.
Qed.
Lemma ends_call m : ends m → ends (func m).
Proof.
  intros Hm t ds. destruct (ends_func m Hm t ds) as (rs & e & Heq). exists [], rs, e, (inl e). split; [exact Heq|done].
Qed.

Create HintDb handlers.
#[export] Hint Resolve ends_return ends_ret ends_wait ends_acquire ends_subscribe ends_call : handlers.

Section handlers.
Context `{!Watchers} (s : server).

Lemma bind_assoc {A B C} (m : M A) (f : A → M B) (g : B → M C) st : ((m ≫= f) ≫= g) st = (m ≫= λ x, f x ≫= g) st.
Proof. unfold mbind, M_bind. by destruct (m st) as [st' [a|e]]. Qed.

Lemma ends_ext m m' : (∀ st, m st = m' st) → ends m' → ends m.
Proof. intros Heq Hm t ds. rewrite Heq. apply Hm. Qed.

Lemma ends_endpoints w id port inst k : ends k → ends (subscribeEndpoints w id port inst;; k).
Proof.
  intros Hk. unfold subscribeEndpoints. eapply ends_ext; [intros; apply bind_assoc|].
  destruct (endpoints_Subscribe w id port inst) as [e|]; simpl.
  - apply (ends_return (if isInvalidService e then Status InvalidArgument else e)).
  - by apply (ends_acquire (EndpointsR w id port inst) k).
Qed.
Lemma ends_translator tr w id port inst k :
  ends k → ends ((acquire tr;; defer tr;; subscribeEndpoints w id port inst);; k).
Proof.
  intros Hk. apply (ends_ext _ (acquire tr;; defer tr;; subscribeEndpoints w id port inst;; k)); [done|].
  by apply ends_acquire, ends_endpoints.
Qed.
Lemma ends_profile id l k : ends k → ends (subscribeProfile id l;; k).
Proof.
  intros Hk. unfold subscribeProfile. destruct (profiles_Subscribe id) as [e|].
  - by apply (ends_return e).
  - by apply (ends_acquire (ProfileR id l) k).
Qed.
Lemma ends_id r k : (∀ id, ends (k id)) → ends (idOrReturn r ≫= k).
Proof. intros Hk. destruct r; [apply Hk|by apply (ends_return (Status InvalidArgument))..]. Qed.
#[local] Hint Resolve ends_endpoints ends_profile ends_id : handlers.

Lemma ends_serviceProfile service token fqn port : ends (subscribeToServiceProfile s service token fqn port).
Proof.
  unfold subscribeToServiceProfile, subscribeToServiceWithoutContext, subscribeToServicesWithContext.
  apply ends_call, ends_acquire, ends_subscribe. case_bool_decide; eauto 10 with handlers.
Qed.
Lemma ends_endpointProfile service hostname ip port : ends (subscribeToEndpointProfile service hostname ip port).
Proof.
  unfold subscribeToEndpointProfile. apply ends_call, ends_acquire.
  destruct (workloads_Subscribe _ _ _ _); eauto with handlers.
Qed.
#[local] Hint Resolve ends_serviceProfile ends_endpointProfile : handlers.

(** The translation of the error keeps the session. *)
Lemma ends_map m : ends m →
  ends (e ← m; mret match e with Some InvalidService => Some (Status InvalidArgument) | e => e end).
Proof.
  intros Hm t ds. destruct (Hm t ds) as (rs & rs' & e & r & Heq & Hr). destruct r as [e'|e']; subst e'.
  - exists rs, rs', (match e with Some InvalidService => Some (Status InvalidArgument) | e => e end).
    eexists (inl _). unfold mbind, M_bind. rewrite Heq. split; [|reflexivity]. by destruct e as [[]|].
  - exists rs, rs', e, (inr e). unfold mbind, M_bind. by rewrite Heq.
Qed.

Lemma ends_GetProfile_body path token : ∃ m, GetProfile s path token = func m ∧ ends m.
Proof.
  eexists. split; [reflexivity|]. cbv zeta. destruct (getHostAndPort path) as [[host port]| |]; eauto with handlers.
  apply ends_map. destruct (ParseIP host) as [ip|].
  - unfold getProfileByIP. destruct (getSvcID s (IP_String ip)) as [[svcID|]|e]; eauto with handlers.
  - unfold getProfileByName. destruct (parseK8sServiceName host _) as [[service hostname]| |]; eauto with handlers.
    case_bool_decide; eauto with handlers.
Qed.

Lemma ends_Get_body path token : ∃ m, Get s path token = func m ∧ ends m.
Proof.
  eexists. split; [reflexivity|]. cbv zeta. destruct (getHostAndPort path) as [[host port]| |]; eauto with handlers.
  destruct (ParseIP host) as [ip|]; eauto with handlers.
  destruct (parseK8sServiceName host _) as [[service inst]| |]; eauto with handlers.
  destruct (sv_service s _ _) as [svc|nf]; eauto with handlers. destruct (isFederatedService svc).
  { destruct (federated_Subscribe _ _) as [e|]; [by apply (ends_return e)|]. apply (ends_acquire _ _ ends_wait). }
  destruct (svc_Labels svc !! RemoteDiscoveryLabel) as [cluster|].
  2:{ apply ends_translator, ends_wait. }
  destruct (svc_Labels svc !! RemoteServiceLabel) as [remoteSvc|]; [|by apply (ends_return (Status FailedPrecondition))].
  destruct (sv_clusters s !! cluster) as [rc|]; [|by apply (ends_return (Status NotFound))].
  apply ends_translator, ends_wait.
Qed.

(** C12: A handler of [Get] or [GetProfile] acquires its resources (translators and
    subscriptions), waits for the end of the stream exactly when it does not fail, and then
    releases exactly the resources it acquired, the last one first; also when it fails on the
    way, nothing stays acquired. *)
Theorem handlers_release path token :
  (∃ rs e, handled (Get s path token) = (session rs e, e)) ∧ (∃ rs e, handled (GetProfile s path token) = (session rs e, e)).
Proof.
  split; unfold handled.
  - destruct (ends_Get_body path token) as (m & -> & Hm). destruct (ends_func m Hm [] []) as (rs & e & Heq).
    exists rs, e. by rewrite Heq.
  - destruct (ends_GetProfile_body path token) as (m & -> & Hm). destruct (ends_func m Hm [] []) as (rs & e & Heq).
    exists rs, e. by rewrite Heq.
Qed.

(** ** Authorities of services *)
Definition fqn (name ns : string) : string := name +:+ "." +:+ ns +:+ ".svc." +:+ sv_ClusterDomain s.
(** What a name and a namespace may be for the authority to be readable. *)
Definition plain_service (name ns : string) : Prop :=
  dotless name ∧ dotless ns ∧ strings.Contains (fqn name ns) ":" = false ∧ net.no_brackets (fqn name ns).

Lemma parse_fqn name ns : dotless name → dotless ns →
  parseK8sServiceName (fqn name ns) (sv_ClusterDomain s) = Ok (mkID ns name "", "").
Proof.
  intros Hn Hns. unfold parseK8sServiceName, fqn. rewrite Split_service by done.
  destruct (hasSuffix _ _) eqn:Hsf; [|apply not_true_iff_false in Hsf; destruct Hsf; apply hasSuffix_spec; by eexists].
  simpl negb. cbv iota. rewrite !length_app. simpl length. case_bool_decide; [done|lia].
Qed.

Lemma elem_of_Contains (x : string) (c : ascii) : c ∈ list_ascii_of_string x → strings.Contains x c = true.
Proof.
  induction x as [|a x IH]; simpl; [by intros ?%elem_of_nil|]. intros [->|Hin]%elem_of_cons; apply orb_true_iff.
  - left. apply Ascii.eqb_refl.
  - right. by apply IH.
Qed.

(** The name of a service is no IP address: its third label is svc. *)
Lemma fqn_no_ip name ns : plain_service name ns → ParseIP (fqn name ns) = None.
Proof.
  intros (Hn & Hns & Hc & _). unfold ParseIP, netip.ParseAddr.
  destruct (list_find _ _) as [[i a]|] eqn:Hf; [|done].
  apply list_find_Some in Hf as (Hi & Ha & _).
  destruct Ha as [->|[->| ->]]; [| |done].
  - unfold netip.parseIPv4Fields, fqn. rewrite Split_service by done. simpl.
    destruct (strings.Split (sv_ClusterDomain s) ".") as [|a [|b l]]; [done| |done].
    destruct (netip.parse_octet name); simpl; [|done]. by destruct (netip.parse_octet ns).
  - apply list_elem_of_lookup_2, elem_of_Contains in Hi. by rewrite Hc in Hi.
Qed.

Lemma GetProfile_by_name name ns port token :
  plain_service name ns → 1 ≤ port ≤ 65535 →
  handled (GetProfile s (net.JoinHostPort (fqn name ns) (strconv.Itoa port)) token)
  = handled (func (e ← subscribeToServiceProfile s (mkID ns name "") (parseContextToken s token) (fqn name ns) port;
                   mret match e with Some InvalidService => Some (Status InvalidArgument) | e => e end)).
Proof.
  intros Hp Hport. unfold GetProfile. rewrite getHostAndPort_Join by (done || apply Hp).
  cbv zeta iota beta. rewrite fqn_no_ip by done. unfold getProfileByName. by rewrite parse_fqn by apply Hp.
Qed.

(** Asking for the profile of a service by its cluster IP is the same as asking by its
    name: when exactly one service has the IP address, the handler subscribes to the same
    profiles and opaque ports, with the same translator, and ends with the same error, for
    every way to write the address, every port and every context token. *)
Theorem profile_ip_is_name host ip name ns ips svc port token :
  ParseIP host = Some ip → net.no_brackets host → 1 ≤ port ≤ 65535 → plain_service name ns →
  svc_Name svc = name → svc_Namespace svc = ns →
  filter (λ svc, IP_String ip ∈ serviceIPIndex svc) (sv_services s) = [(svc, ips)] →
  handled (GetProfile s (net.JoinHostPort host (strconv.Itoa port)) token)
  = handled (GetProfile s (net.JoinHostPort (fqn name ns) (strconv.Itoa port)) token).
Proof.
  intros Hip Hb Hport Hp <- <- Hsvc. rewrite GetProfile_by_name by done.
  unfold GetProfile. rewrite getHostAndPort_Join by done. cbv zeta iota beta. rewrite Hip.
  unfold getProfileByIP, getSvcID. by rewrite Hsvc.
Qed.

(** ** Get *)
(** The subscription [Get] makes for a service that is no member of anything: the local
    endpoints, filtered for the client's node. *)
Definition local_session (path name ns inst : string) (port : Z) (nodeName : string) : list resource :=
  [EndpointTranslatorR (sv_IdentityTrustDomain s) true path nodeName; EndpointsR None (mkID ns name "") port inst].
(** For a service that stands for one in a linked cluster: the endpoints there, unfiltered,
    with the identities of that cluster. *)
Definition remote_session (rc : remoteCluster) (remoteSvc ns inst : string) (port : Z) (nodeName : string) : list resource :=
  [EndpointTranslatorR (TrustDomain (rc_config rc)) false
     (remoteSvc +:+ "." +:+ ns +:+ ".svc." +:+ ClusterDomain (rc_config rc) +:+ ":" +:+ strconv.Itoa port) nodeName;
   EndpointsR (Some (rc_watcher rc)) (mkID ns remoteSvc "") port inst].

(** [Get] for a service: a service that is not in the store is not found; a member of a
    federation is subscribed with the federation; a service that stands for one in a linked
    cluster is subscribed at that cluster's watcher, or refused when the label of the remote
    service or the cluster is missing; any other service is subscribed locally. *)
Theorem Get_service name ns port token :
  plain_service name ns → 1 ≤ port ≤ 65535 →
  (∀ w id p i, endpoints_Subscribe w id p i = None) → (∀ n m, federated_Subscribe n m = None) →
  let path := net.JoinHostPort (fqn name ns) (strconv.Itoa port) in
  let node := tok_NodeName (parseContextToken s token) in
  handled (Get s path token) =
    match sv_service s ns name with
    | inr notFound => ([], Some (Status (if (notFound : bool) then NotFound else Internal)))
    | inl svc =>
        if isFederatedService svc then (session [FederatedR (svc_Name svc) (svc_Namespace svc) port node ""] None, None)
        else match svc_Labels svc !! RemoteDiscoveryLabel, svc_Labels svc !! RemoteServiceLabel with
             | None, _ => (session (local_session path name ns "" port node) None, None)
             | Some _, None => ([], Some (Status FailedPrecondition))
             | Some cluster, Some remoteSvc =>
                 match sv_clusters s !! cluster with
                 | None => ([], Some (Status NotFound))
                 | Some rc => (session (remote_session rc remoteSvc ns "" port node) None, None)
                 end
             end
    end.
Proof.
  intros Hp Hport Hend Hfed path node. unfold Get, path. rewrite getHostAndPort_Join by (done || apply Hp).
  cbv zeta iota beta. rewrite fqn_no_ip by done. rewrite parse_fqn by apply Hp. cbn [Namespace Name].
  destruct (sv_service s ns name) as [svc|nf]; [|by destruct nf]. destruct (isFederatedService svc).
  { by rewrite Hfed. }
  destruct (svc_Labels svc !! RemoteDiscoveryLabel) as [cluster|].
  2:{ unfold subscribeEndpoints. by rewrite Hend. }
  destruct (svc_Labels svc !! RemoteServiceLabel) as [remoteSvc|]; [|done].
  destruct (sv_clusters s !! cluster) as [rc|]; [|done]. unfold subscribeEndpoints. by rewrite Hend.
Qed.
End handlers.

(** * Witnesses *)
Definition ex_watchers : Watchers := {|
  federated_Subscribe := λ _ _, None; endpoints_Subscribe := λ _ _ _ _, None; opaquePorts_Subscribe := λ _, None;
  profiles_Subscribe := λ _, None; workloads_Subscribe := λ _ _ ip _, inl ip |}.
Definition ex_web : Service :=
  mkService "web" "ns" "" ∅ ∅ "ClusterIP" "10.0.0.1" [] None [] None false.
Definition ex_server : server :=
  mkServer "cluster.local" "cluster.local" ∅ (λ ns name, if bool_decide (ns = "ns" ∧ name = "web") then inl ex_web else inr true)
    [(ex_web, [])] (λ _, (mkContextToken "" "" "", true)).

Lemma profile_ip_is_name_witness :
  handled (GetProfile (H := ex_watchers) ex_server "10.0.0.1:8080" "ns:client")
  = handled (GetProfile (H := ex_watchers) ex_server "web.ns.svc.cluster.local:8080" "ns:client").
Proof.
  apply (profile_ip_is_name (H := ex_watchers) ex_server "10.0.0.1" (v4InV6Prefix ++ [10; 0; 0; 1]) "web" "ns" [] ex_web 8080 "ns:client");
    [vm_compute; reflexivity|split; reflexivity|lia|split_and!; vm_compute; (reflexivity || split; reflexivity)|reflexivity..|].
  vm_compute. reflexivity.
Defined.

Lemma Get_service_witness :
  handled (Get (H := ex_watchers) ex_server "web.ns.svc.cluster.local:8080" "")
  = (session (local_session ex_server "web.ns.svc.cluster.local:8080" "web" "ns" "" 8080 "") None, None).
Proof.
  apply (Get_service (H := ex_watchers) ex_server "web" "ns" 8080 "");
    [split_and!; vm_compute; (reflexivity || split; reflexivity)|lia|reflexivity|reflexivity].
Defined.
