(* ===== verification/InjectData.v ===== *)
(** Data of the proxy injection: the Helm values the injector overrides
    ([pkg/charts/linkerd2/values.go], the fields that are read or written) and the annotations
    and names of [pkg/k8s/labels.go]. *)
From S2P Require Import Prelude GoStd K8s.

#[local] Open Scope string_scope.
#[local] Open Scope list_scope.
#[local] Open Scope Z_scope.

(** * Annotations, labels and names *)
Definition ProxyInjectAnnotation : string := "linkerd.io/inject".
Definition ProxyImageAnnotation : string := "config.linkerd.io/proxy-image".
Definition ProxyVersionOverrideAnnotation : string := "config.linkerd.io/proxy-version".
Definition ProxyImagePullPolicyAnnotation : string := "config.linkerd.io/image-pull-policy".
Definition ProxyInitImageVersionAnnotation : string := "config.linkerd.io/init-image-version".
Definition ProxyControlPortAnnotation : string := "config.linkerd.io/control-port".
Definition ProxyInboundPortAnnotation : string := "config.linkerd.io/inbound-port".
Definition ProxyAdminPortAnnotation : string := "config.linkerd.io/admin-port".
Definition ProxyOutboundPortAnnotation : string := "config.linkerd.io/outbound-port".
Definition ProxyPodInboundPortsAnnotation : string := "config.linkerd.io/pod-inbound-ports".
Definition ProxyAdminShutdownAnnotation : string := "config.linkerd.io/proxy-admin-shutdown".
Definition ProxyLogLevelAnnotation : string := "config.linkerd.io/proxy-log-level".
Definition ProxyLogHTTPHeaders : string := "config.linkerd.io/proxy-log-http-headers".
Definition ProxyLogFormatAnnotation : string := "config.linkerd.io/proxy-log-format".
Definition ProxyRequireIdentityOnInboundPortsAnnotation : string := "config.linkerd.io/proxy-require-identity-inbound-ports".
Definition ProxyOutboundConnectTimeout : string := "config.linkerd.io/proxy-outbound-connect-timeout".
Definition ProxyInboundConnectTimeout : string := "config.linkerd.io/proxy-inbound-connect-timeout".
Definition ProxyOutboundDiscoveryCacheUnusedTimeout : string := "config.linkerd.io/proxy-outbound-discovery-cache-unused-timeout".
Definition ProxyInboundDiscoveryCacheUnusedTimeout : string := "config.linkerd.io/proxy-inbound-discovery-cache-unused-timeout".
Definition ProxyDisableOutboundProtocolDetectTimeout : string := "config.linkerd.io/proxy-disable-outbound-protocol-detect-timeout".
Definition ProxyDisableInboundProtocolDetectTimeout : string := "config.linkerd.io/proxy-disable-inbound-protocol-detect-timeout".
Definition ProxyShutdownGracePeriodAnnotation : string := "config.linkerd.io/shutdown-grace-period".
Definition ProxyEnableGatewayAnnotation : string := "config.linkerd.io/enable-gateway".
Definition ProxyWaitBeforeExitSecondsAnnotation : string := "config.alpha.linkerd.io/proxy-wait-before-exit-seconds".
Definition ProxyEnableNativeSidecarAnnotation : string := "config.alpha.linkerd.io/proxy-enable-native-sidecar".
Definition ProxyCPURequestAnnotation : string := "config.linkerd.io/proxy-cpu-request".
Definition ProxyMemoryRequestAnnotation : string := "config.linkerd.io/proxy-memory-request".
Definition ProxyEphemeralStorageRequestAnnotation : string := "config.linkerd.io/proxy-ephemeral-storage-request".
Definition ProxyCPULimitAnnotation : string := "config.linkerd.io/proxy-cpu-limit".
Definition ProxyMemoryLimitAnnotation : string := "config.linkerd.io/proxy-memory-limit".
Definition ProxyEphemeralStorageLimitAnnotation : string := "config.linkerd.io/proxy-ephemeral-storage-limit".
Definition ProxyUIDAnnotation : string := "config.linkerd.io/proxy-uid".
Definition ProxyGIDAnnotation : string := "config.linkerd.io/proxy-gid".
Definition ProxyEnableExternalProfilesAnnotation : string := "config.linkerd.io/enable-external-profiles".
Definition ProxyInitImageAnnotation : string := "config.linkerd.io/init-image".
Definition ProxyIgnoreOutboundPortsAnnotation : string := "config.linkerd.io/skip-outbound-ports".
Definition DebugImageAnnotation : string := "config.linkerd.io/debug-image".
Definition DebugImageVersionAnnotation : string := "config.linkerd.io/debug-image-version".
Definition DebugImagePullPolicyAnnotation : string := "config.linkerd.io/debug-image-pull-policy".
Definition ProxyAwait : string := "config.linkerd.io/proxy-await".
Definition ProxyDefaultInboundPolicyAnnotation : string := "config.linkerd.io/default-inbound-policy".
Definition ProxySkipSubnetsAnnotation : string := "config.linkerd.io/skip-subnets".
Definition ProxyAccessLogAnnotation : string := "config.linkerd.io/access-log".
Definition ProxyEnableDebugAnnotation : string := "config.linkerd.io/enable-debug-sidecar".
Definition CloseWaitTimeoutAnnotation : string := "config.linkerd.io/close-wait-timeout".
Definition CreatedByAnnotation : string := "linkerd.io/created-by".
Definition ProxyVersionAnnotation : string := "linkerd.io/proxy-version".
Definition ProxyTrustRootSHA : string := "linkerd.io/trust-root-sha256".
Definition ControllerComponentLabel : string := "linkerd.io/control-plane-component".
Definition ProxyDeploymentLabel : string := "linkerd.io/proxy-deployment".
Definition ProxyReplicationControllerLabel : string := "linkerd.io/proxy-replicationcontroller".
Definition ProxyReplicaSetLabel : string := "linkerd.io/proxy-replicaset".
Definition ProxyJobLabel : string := "linkerd.io/proxy-job".
Definition ProxyDaemonSetLabel : string := "linkerd.io/proxy-daemonset".
Definition ProxyStatefulSetLabel : string := "linkerd.io/proxy-statefulset".
Definition ProxyCronJobLabel : string := "linkerd.io/proxy-cronjob".
Definition WorkloadNamespaceLabel : string := "linkerd.io/workload-ns".
Definition InitContainerName : string := "linkerd-init".
Definition InitXtablesLockVolumeMountName : string := "linkerd-proxy-init-xtables-lock".
Definition LinkerdTokenVolumeMountName : string := "linkerd-identity-token".
Definition IdentityEndEntityVolumeName : string := "linkerd-identity-end-entity".
Definition MountPathServiceAccount : string := "/var/run/secrets/kubernetes.io/serviceaccount".

(** * Values *)
Record Image := mkImage {
  img_Name : string; img_PullPolicy : string; img_Version : string }.
Record Ports := mkPorts {
  pt_Admin : Z; pt_Control : Z; pt_Inbound : Z; pt_Outbound : Z }.
Record Constraints := mkConstraints {
  cs_Limit : string; cs_Request : string }.
Record Resources := mkResources {
  rs_CPU : Constraints; rs_Memory : Constraints; rs_EphemeralStorage : Constraints }.
Record Capabilities := mkCapabilities { cap_Add : list string; cap_Drop : list string }.
Record VolumeMountPath := mkVolumeMountPath { vm_Name : string; vm_MountPath : string; vm_ReadOnly : bool }.
Record Proxy := mkProxy {
  px_Capabilities : option Capabilities; px_Cores : Z; px_EnableExternalProfiles : bool; px_Image : Image;
  px_EnableShutdownEndpoint : bool; px_LogLevel : string; px_LogFormat : string; px_LogHTTPHeaders : string;
  px_SAMountPath : option VolumeMountPath; px_Ports : Ports; px_Resources : Resources; px_UID : Z; px_GID : Z;
  px_WaitBeforeExitSeconds : Z; px_IsGateway : bool; px_IsIngress : bool;
  px_RequireIdentityOnInboundPorts : string; px_OutboundConnectTimeout : string;
  px_InboundConnectTimeout : string; px_OutboundDiscoveryCacheUnusedTimeout : string;
  px_InboundDiscoveryCacheUnusedTimeout : string; px_DisableOutboundProtocolDetectTimeout : bool;
  px_DisableInboundProtocolDetectTimeout : bool; px_PodInboundPorts : string; px_OpaquePorts : string;
  px_Await : bool; px_DefaultInboundPolicy : string; px_AccessLog : string; px_ShutdownGracePeriod : string;
  px_NativeSidecar : bool }.
Record ProxyInit := mkProxyInit {
  pi_Capabilities : option Capabilities; pi_IgnoreInboundPorts : string; pi_IgnoreOutboundPorts : string;
  pi_SkipSubnets : string; pi_Image : Image; pi_SAMountPath : option VolumeMountPath;
  pi_CloseWaitTimeoutSecs : Z }.
Record Values := mkValues {
  v_Proxy : Proxy; v_ProxyInit : ProxyInit; v_DebugImage : Image; v_ClusterNetworks : string;
  v_IdentityTrustAnchorsPEM : string; v_LinkerdVersion : string; v_CNIEnabled : bool;
  v_ServiceAccountTokenProjection : bool }.

(** Assignments to the fields. *)
Definition set_img_Name (v : string) (r : Image) : Image :=
  mkImage v (img_PullPolicy r) (img_Version r).
Definition set_img_PullPolicy (v : string) (r : Image) : Image :=
  mkImage (img_Name r) v (img_Version r).
Definition set_img_Version (v : string) (r : Image) : Image :=
  mkImage (img_Name r) (img_PullPolicy r) v.
Definition set_pt_Admin (v : Z) (r : Ports) : Ports :=
  mkPorts v (pt_Control r) (pt_Inbound r) (pt_Outbound r).
Definition set_pt_Control (v : Z) (r : Ports) : Ports :=
  mkPorts (pt_Admin r) v (pt_Inbound r) (pt_Outbound r).
Definition set_pt_Inbound (v : Z) (r : Ports) : Ports :=
  mkPorts (pt_Admin r) (pt_Control r) v (pt_Outbound r).
Definition set_pt_Outbound (v : Z) (r : Ports) : Ports :=
  mkPorts (pt_Admin r) (pt_Control r) (pt_Inbound r) v.
Definition set_cs_Limit (v : string) (r : Constraints) : Constraints :=
  mkConstraints v (cs_Request r).
Definition set_cs_Request (v : string) (r : Constraints) : Constraints :=
  mkConstraints (cs_Limit r) v.
Definition set_rs_CPU (v : Constraints) (r : Resources) : Resources :=
  mkResources v (rs_Memory r) (rs_EphemeralStorage r).
Definition set_rs_Memory (v : Constraints) (r : Resources) : Resources :=
  mkResources (rs_CPU r) v (rs_EphemeralStorage r).
Definition set_rs_EphemeralStorage (v : Constraints) (r : Resources) : Resources :=
  mkResources (rs_CPU r) (rs_Memory r) v.
Definition set_px_Capabilities (v : option Capabilities) (r : Proxy) : Proxy :=
  mkProxy v (px_Cores r) (px_EnableExternalProfiles r) (px_Image r) (px_EnableShutdownEndpoint r)
    (px_LogLevel r) (px_LogFormat r) (px_LogHTTPHeaders r) (px_SAMountPath r) (px_Ports r) (px_Resources r)
    (px_UID r) (px_GID r) (px_WaitBeforeExitSeconds r) (px_IsGateway r) (px_IsIngress r)
    (px_RequireIdentityOnInboundPorts r) (px_OutboundConnectTimeout r) (px_InboundConnectTimeout r)
    (px_OutboundDiscoveryCacheUnusedTimeout r) (px_InboundDiscoveryCacheUnusedTimeout r)
    (px_DisableOutboundProtocolDetectTimeout r) (px_DisableInboundProtocolDetectTimeout r)
    (px_PodInboundPorts r) (px_OpaquePorts r) (px_Await r) (px_DefaultInboundPolicy r) (px_AccessLog r)
    (px_ShutdownGracePeriod r) (px_NativeSidecar r).
Definition set_px_Cores (v : Z) (r : Proxy) : Proxy :=
  mkProxy (px_Capabilities r) v (px_EnableExternalProfiles r) (px_Image r) (px_EnableShutdownEndpoint r)
    (px_LogLevel r) (px_LogFormat r) (px_LogHTTPHeaders r) (px_SAMountPath r) (px_Ports r) (px_Resources r)
    (px_UID r) (px_GID r) (px_WaitBeforeExitSeconds r) (px_IsGateway r) (px_IsIngress r)
    (px_RequireIdentityOnInboundPorts r) (px_OutboundConnectTimeout r) (px_InboundConnectTimeout r)
    (px_OutboundDiscoveryCacheUnusedTimeout r) (px_InboundDiscoveryCacheUnusedTimeout r)
    (px_DisableOutboundProtocolDetectTimeout r) (px_DisableInboundProtocolDetectTimeout r)
    (px_PodInboundPorts r) (px_OpaquePorts r) (px_Await r) (px_DefaultInboundPolicy r) (px_AccessLog r)
    (px_ShutdownGracePeriod r) (px_NativeSidecar r).
Definition set_px_EnableExternalProfiles (v : bool) (r : Proxy) : Proxy :=
  mkProxy (px_Capabilities r) (px_Cores r) v (px_Image r) (px_EnableShutdownEndpoint r) (px_LogLevel r)
    (px_LogFormat r) (px_LogHTTPHeaders r) (px_SAMountPath r) (px_Ports r) (px_Resources r) (px_UID r)
    (px_GID r) (px_WaitBeforeExitSeconds r) (px_IsGateway r) (px_IsIngress r)
    (px_RequireIdentityOnInboundPorts r) (px_OutboundConnectTimeout r) (px_InboundConnectTimeout r)
    (px_OutboundDiscoveryCacheUnusedTimeout r) (px_InboundDiscoveryCacheUnusedTimeout r)
    (px_DisableOutboundProtocolDetectTimeout r) (px_DisableInboundProtocolDetectTimeout r)
    (px_PodInboundPorts r) (px_OpaquePorts r) (px_Await r) (px_DefaultInboundPolicy r) (px_AccessLog r)
    (px_ShutdownGracePeriod r) (px_NativeSidecar r).
Definition set_px_Image (v : Image) (r : Proxy) : Proxy :=
  mkProxy (px_Capabilities r) (px_Cores r) (px_EnableExternalProfiles r) v (px_EnableShutdownEndpoint r)
    (px_LogLevel r) (px_LogFormat r) (px_LogHTTPHeaders r) (px_SAMountPath r) (px_Ports r) (px_Resources r)
    (px_UID r) (px_GID r) (px_WaitBeforeExitSeconds r) (px_IsGateway r) (px_IsIngress r)
    (px_RequireIdentityOnInboundPorts r) (px_OutboundConnectTimeout r) (px_InboundConnectTimeout r)
    (px_OutboundDiscoveryCacheUnusedTimeout r) (px_InboundDiscoveryCacheUnusedTimeout r)
    (px_DisableOutboundProtocolDetectTimeout r) (px_DisableInboundProtocolDetectTimeout r)
    (px_PodInboundPorts r) (px_OpaquePorts r) (px_Await r) (px_DefaultInboundPolicy r) (px_AccessLog r)
    (px_ShutdownGracePeriod r) (px_NativeSidecar r).
Definition set_px_EnableShutdownEndpoint (v : bool) (r : Proxy) : Proxy :=
  mkProxy (px_Capabilities r) (px_Cores r) (px_EnableExternalProfiles r) (px_Image r) v (px_LogLevel r)
    (px_LogFormat r) (px_LogHTTPHeaders r) (px_SAMountPath r) (px_Ports r) (px_Resources r) (px_UID r)
    (px_GID r) (px_WaitBeforeExitSeconds r) (px_IsGateway r) (px_IsIngress r)
    (px_RequireIdentityOnInboundPorts r) (px_OutboundConnectTimeout r) (px_InboundConnectTimeout r)
    (px_OutboundDiscoveryCacheUnusedTimeout r) (px_InboundDiscoveryCacheUnusedTimeout r)
    (px_DisableOutboundProtocolDetectTimeout r) (px_DisableInboundProtocolDetectTimeout r)
    (px_PodInboundPorts r) (px_OpaquePorts r) (px_Await r) (px_DefaultInboundPolicy r) (px_AccessLog r)
    (px_ShutdownGracePeriod r) (px_NativeSidecar r).
Definition set_px_LogLevel (v : string) (r : Proxy) : Proxy :=
  mkProxy (px_Capabilities r) (px_Cores r) (px_EnableExternalProfiles r) (px_Image r)
    (px_EnableShutdownEndpoint r) v (px_LogFormat r) (px_LogHTTPHeaders r) (px_SAMountPath r) (px_Ports r)
    (px_Resources r) (px_UID r) (px_GID r) (px_WaitBeforeExitSeconds r) (px_IsGateway r) (px_IsIngress r)
    (px_RequireIdentityOnInboundPorts r) (px_OutboundConnectTimeout r) (px_InboundConnectTimeout r)
    (px_OutboundDiscoveryCacheUnusedTimeout r) (px_InboundDiscoveryCacheUnusedTimeout r)
    (px_DisableOutboundProtocolDetectTimeout r) (px_DisableInboundProtocolDetectTimeout r)
    (px_PodInboundPorts r) (px_OpaquePorts r) (px_Await r) (px_DefaultInboundPolicy r) (px_AccessLog r)
    (px_ShutdownGracePeriod r) (px_NativeSidecar r).
Definition set_px_LogFormat (v : string) (r : Proxy) : Proxy :=
  mkProxy (px_Capabilities r) (px_Cores r) (px_EnableExternalProfiles r) (px_Image r)
    (px_EnableShutdownEndpoint r) (px_LogLevel r) v (px_LogHTTPHeaders r) (px_SAMountPath r) (px_Ports r)
    (px_Resources r) (px_UID r) (px_GID r) (px_WaitBeforeExitSeconds r) (px_IsGateway r) (px_IsIngress r)
    (px_RequireIdentityOnInboundPorts r) (px_OutboundConnectTimeout r) (px_InboundConnectTimeout r)
    (px_OutboundDiscoveryCacheUnusedTimeout r) (px_InboundDiscoveryCacheUnusedTimeout r)
    (px_DisableOutboundProtocolDetectTimeout r) (px_DisableInboundProtocolDetectTimeout r)
    (px_PodInboundPorts r) (px_OpaquePorts r) (px_Await r) (px_DefaultInboundPolicy r) (px_AccessLog r)
    (px_ShutdownGracePeriod r) (px_NativeSidecar r).
Definition set_px_LogHTTPHeaders (v : string) (r : Proxy) : Proxy :=
  mkProxy (px_Capabilities r) (px_Cores r) (px_EnableExternalProfiles r) (px_Image r)
    (px_EnableShutdownEndpoint r) (px_LogLevel r) (px_LogFormat r) v (px_SAMountPath r) (px_Ports r)
    (px_Resources r) (px_UID r) (px_GID r) (px_WaitBeforeExitSeconds r) (px_IsGateway r) (px_IsIngress r)
    (px_RequireIdentityOnInboundPorts r) (px_OutboundConnectTimeout r) (px_InboundConnectTimeout r)
    (px_OutboundDiscoveryCacheUnusedTimeout r) (px_InboundDiscoveryCacheUnusedTimeout r)
    (px_DisableOutboundProtocolDetectTimeout r) (px_DisableInboundProtocolDetectTimeout r)
    (px_PodInboundPorts r) (px_OpaquePorts r) (px_Await r) (px_DefaultInboundPolicy r) (px_AccessLog r)
    (px_ShutdownGracePeriod r) (px_NativeSidecar r).
Definition set_px_SAMountPath (v : option VolumeMountPath) (r : Proxy) : Proxy :=
  mkProxy (px_Capabilities r) (px_Cores r) (px_EnableExternalProfiles r) (px_Image r)
    (px_EnableShutdownEndpoint r) (px_LogLevel r) (px_LogFormat r) (px_LogHTTPHeaders r) v (px_Ports r)
    (px_Resources r) (px_UID r) (px_GID r) (px_WaitBeforeExitSeconds r) (px_IsGateway r) (px_IsIngress r)
    (px_RequireIdentityOnInboundPorts r) (px_OutboundConnectTimeout r) (px_InboundConnectTimeout r)
    (px_OutboundDiscoveryCacheUnusedTimeout r) (px_InboundDiscoveryCacheUnusedTimeout r)
    (px_DisableOutboundProtocolDetectTimeout r) (px_DisableInboundProtocolDetectTimeout r)
    (px_PodInboundPorts r) (px_OpaquePorts r) (px_Await r) (px_DefaultInboundPolicy r) (px_AccessLog r)
    (px_ShutdownGracePeriod r) (px_NativeSidecar r).
Definition set_px_Ports (v : Ports) (r : Proxy) : Proxy :=
  mkProxy (px_Capabilities r) (px_Cores r) (px_EnableExternalProfiles r) (px_Image r)
    (px_EnableShutdownEndpoint r) (px_LogLevel r) (px_LogFormat r) (px_LogHTTPHeaders r) (px_SAMountPath r) v
    (px_Resources r) (px_UID r) (px_GID r) (px_WaitBeforeExitSeconds r) (px_IsGateway r) (px_IsIngress r)
    (px_RequireIdentityOnInboundPorts r) (px_OutboundConnectTimeout r) (px_InboundConnectTimeout r)
    (px_OutboundDiscoveryCacheUnusedTimeout r) (px_InboundDiscoveryCacheUnusedTimeout r)
    (px_DisableOutboundProtocolDetectTimeout r) (px_DisableInboundProtocolDetectTimeout r)
    (px_PodInboundPorts r) (px_OpaquePorts r) (px_Await r) (px_DefaultInboundPolicy r) (px_AccessLog r)
    (px_ShutdownGracePeriod r) (px_NativeSidecar r).
Definition set_px_Resources (v : Resources) (r : Proxy) : Proxy :=
  mkProxy (px_Capabilities r) (px_Cores r) (px_EnableExternalProfiles r) (px_Image r)
    (px_EnableShutdownEndpoint r) (px_LogLevel r) (px_LogFormat r) (px_LogHTTPHeaders r) (px_SAMountPath r)
    (px_Ports r) v (px_UID r) (px_GID r) (px_WaitBeforeExitSeconds r) (px_IsGateway r) (px_IsIngress r)
    (px_RequireIdentityOnInboundPorts r) (px_OutboundConnectTimeout r) (px_InboundConnectTimeout r)
    (px_OutboundDiscoveryCacheUnusedTimeout r) (px_InboundDiscoveryCacheUnusedTimeout r)
    (px_DisableOutboundProtocolDetectTimeout r) (px_DisableInboundProtocolDetectTimeout r)
    (px_PodInboundPorts r) (px_OpaquePorts r) (px_Await r) (px_DefaultInboundPolicy r) (px_AccessLog r)
    (px_ShutdownGracePeriod r) (px_NativeSidecar r).
Definition set_px_UID (v : Z) (r : Proxy) : Proxy :=
  mkProxy (px_Capabilities r) (px_Cores r) (px_EnableExternalProfiles r) (px_Image r)
    (px_EnableShutdownEndpoint r) (px_LogLevel r) (px_LogFormat r) (px_LogHTTPHeaders r) (px_SAMountPath r)
    (px_Ports r) (px_Resources r) v (px_GID r) (px_WaitBeforeExitSeconds r) (px_IsGateway r) (px_IsIngress r)
    (px_RequireIdentityOnInboundPorts r) (px_OutboundConnectTimeout r) (px_InboundConnectTimeout r)
    (px_OutboundDiscoveryCacheUnusedTimeout r) (px_InboundDiscoveryCacheUnusedTimeout r)
    (px_DisableOutboundProtocolDetectTimeout r) (px_DisableInboundProtocolDetectTimeout r)
    (px_PodInboundPorts r) (px_OpaquePorts r) (px_Await r) (px_DefaultInboundPolicy r) (px_AccessLog r)
    (px_ShutdownGracePeriod r) (px_NativeSidecar r).
Definition set_px_GID (v : Z) (r : Proxy) : Proxy :=
  mkProxy (px_Capabilities r) (px_Cores r) (px_EnableExternalProfiles r) (px_Image r)
    (px_EnableShutdownEndpoint r) (px_LogLevel r) (px_LogFormat r) (px_LogHTTPHeaders r) (px_SAMountPath r)
    (px_Ports r) (px_Resources r) (px_UID r) v (px_WaitBeforeExitSeconds r) (px_IsGateway r) (px_IsIngress r)
    (px_RequireIdentityOnInboundPorts r) (px_OutboundConnectTimeout r) (px_InboundConnectTimeout r)
    (px_OutboundDiscoveryCacheUnusedTimeout r) (px_InboundDiscoveryCacheUnusedTimeout r)
    (px_DisableOutboundProtocolDetectTimeout r) (px_DisableInboundProtocolDetectTimeout r)
    (px_PodInboundPorts r) (px_OpaquePorts r) (px_Await r) (px_DefaultInboundPolicy r) (px_AccessLog r)
    (px_ShutdownGracePeriod r) (px_NativeSidecar r).
Definition set_px_WaitBeforeExitSeconds (v : Z) (r : Proxy) : Proxy :=
  mkProxy (px_Capabilities r) (px_Cores r) (px_EnableExternalProfiles r) (px_Image r)
    (px_EnableShutdownEndpoint r) (px_LogLevel r) (px_LogFormat r) (px_LogHTTPHeaders r) (px_SAMountPath r)
    (px_Ports r) (px_Resources r) (px_UID r) (px_GID r) v (px_IsGateway r) (px_IsIngress r)
    (px_RequireIdentityOnInboundPorts r) (px_OutboundConnectTimeout r) (px_InboundConnectTimeout r)
    (px_OutboundDiscoveryCacheUnusedTimeout r) (px_InboundDiscoveryCacheUnusedTimeout r)
    (px_DisableOutboundProtocolDetectTimeout r) (px_DisableInboundProtocolDetectTimeout r)
    (px_PodInboundPorts r) (px_OpaquePorts r) (px_Await r) (px_DefaultInboundPolicy r) (px_AccessLog r)
    (px_ShutdownGracePeriod r) (px_NativeSidecar r).
Definition set_px_IsGateway (v : bool) (r : Proxy) : Proxy :=
  mkProxy (px_Capabilities r) (px_Cores r) (px_EnableExternalProfiles r) (px_Image r)
    (px_EnableShutdownEndpoint r) (px_LogLevel r) (px_LogFormat r) (px_LogHTTPHeaders r) (px_SAMountPath r)
    (px_Ports r) (px_Resources r) (px_UID r) (px_GID r) (px_WaitBeforeExitSeconds r) v (px_IsIngress r)
    (px_RequireIdentityOnInboundPorts r) (px_OutboundConnectTimeout r) (px_InboundConnectTimeout r)
    (px_OutboundDiscoveryCacheUnusedTimeout r) (px_InboundDiscoveryCacheUnusedTimeout r)
    (px_DisableOutboundProtocolDetectTimeout r) (px_DisableInboundProtocolDetectTimeout r)
    (px_PodInboundPorts r) (px_OpaquePorts r) (px_Await r) (px_DefaultInboundPolicy r) (px_AccessLog r)
    (px_ShutdownGracePeriod r) (px_NativeSidecar r).
Definition set_px_IsIngress (v : bool) (r : Proxy) : Proxy :=
  mkProxy (px_Capabilities r) (px_Cores r) (px_EnableExternalProfiles r) (px_Image r)
    (px_EnableShutdownEndpoint r) (px_LogLevel r) (px_LogFormat r) (px_LogHTTPHeaders r) (px_SAMountPath r)
    (px_Ports r) (px_Resources r) (px_UID r) (px_GID r) (px_WaitBeforeExitSeconds r) (px_IsGateway r) v
    (px_RequireIdentityOnInboundPorts r) (px_OutboundConnectTimeout r) (px_InboundConnectTimeout r)
    (px_OutboundDiscoveryCacheUnusedTimeout r) (px_InboundDiscoveryCacheUnusedTimeout r)
    (px_DisableOutboundProtocolDetectTimeout r) (px_DisableInboundProtocolDetectTimeout r)
    (px_PodInboundPorts r) (px_OpaquePorts r) (px_Await r) (px_DefaultInboundPolicy r) (px_AccessLog r)
    (px_ShutdownGracePeriod r) (px_NativeSidecar r).
Definition set_px_RequireIdentityOnInboundPorts (v : string) (r : Proxy) : Proxy :=
  mkProxy (px_Capabilities r) (px_Cores r) (px_EnableExternalProfiles r) (px_Image r)
    (px_EnableShutdownEndpoint r) (px_LogLevel r) (px_LogFormat r) (px_LogHTTPHeaders r) (px_SAMountPath r)
    (px_Ports r) (px_Resources r) (px_UID r) (px_GID r) (px_WaitBeforeExitSeconds r) (px_IsGateway r)
    (px_IsIngress r) v (px_OutboundConnectTimeout r) (px_InboundConnectTimeout r)
    (px_OutboundDiscoveryCacheUnusedTimeout r) (px_InboundDiscoveryCacheUnusedTimeout r)
    (px_DisableOutboundProtocolDetectTimeout r) (px_DisableInboundProtocolDetectTimeout r)
    (px_PodInboundPorts r) (px_OpaquePorts r) (px_Await r) (px_DefaultInboundPolicy r) (px_AccessLog r)
    (px_ShutdownGracePeriod r) (px_NativeSidecar r).
Definition set_px_OutboundConnectTimeout (v : string) (r : Proxy) : Proxy :=
  mkProxy (px_Capabilities r) (px_Cores r) (px_EnableExternalProfiles r) (px_Image r)
    (px_EnableShutdownEndpoint r) (px_LogLevel r) (px_LogFormat r) (px_LogHTTPHeaders r) (px_SAMountPath r)
    (px_Ports r) (px_Resources r) (px_UID r) (px_GID r) (px_WaitBeforeExitSeconds r) (px_IsGateway r)
    (px_IsIngress r) (px_RequireIdentityOnInboundPorts r) v (px_InboundConnectTimeout r)
    (px_OutboundDiscoveryCacheUnusedTimeout r) (px_InboundDiscoveryCacheUnusedTimeout r)
    (px_DisableOutboundProtocolDetectTimeout r) (px_DisableInboundProtocolDetectTimeout r)
    (px_PodInboundPorts r) (px_OpaquePorts r) (px_Await r) (px_DefaultInboundPolicy r) (px_AccessLog r)
    (px_ShutdownGracePeriod r) (px_NativeSidecar r).
Definition set_px_InboundConnectTimeout (v : string) (r : Proxy) : Proxy :=
  mkProxy (px_Capabilities r) (px_Cores r) (px_EnableExternalProfiles r) (px_Image r)
    (px_EnableShutdownEndpoint r) (px_LogLevel r) (px_LogFormat r) (px_LogHTTPHeaders r) (px_SAMountPath r)
    (px_Ports r) (px_Resources r) (px_UID r) (px_GID r) (px_WaitBeforeExitSeconds r) (px_IsGateway r)
    (px_IsIngress r) (px_RequireIdentityOnInboundPorts r) (px_OutboundConnectTimeout r) v
    (px_OutboundDiscoveryCacheUnusedTimeout r) (px_InboundDiscoveryCacheUnusedTimeout r)
    (px_DisableOutboundProtocolDetectTimeout r) (px_DisableInboundProtocolDetectTimeout r)
    (px_PodInboundPorts r) (px_OpaquePorts r) (px_Await r) (px_DefaultInboundPolicy r) (px_AccessLog r)
    (px_ShutdownGracePeriod r) (px_NativeSidecar r).
Definition set_px_OutboundDiscoveryCacheUnusedTimeout (v : string) (r : Proxy) : Proxy :=
  mkProxy (px_Capabilities r) (px_Cores r) (px_EnableExternalProfiles r) (px_Image r)
    (px_EnableShutdownEndpoint r) (px_LogLevel r) (px_LogFormat r) (px_LogHTTPHeaders r) (px_SAMountPath r)
    (px_Ports r) (px_Resources r) (px_UID r) (px_GID r) (px_WaitBeforeExitSeconds r) (px_IsGateway r)
    (px_IsIngress r) (px_RequireIdentityOnInboundPorts r) (px_OutboundConnectTimeout r)
    (px_InboundConnectTimeout r) v (px_InboundDiscoveryCacheUnusedTimeout r)
    (px_DisableOutboundProtocolDetectTimeout r) (px_DisableInboundProtocolDetectTimeout r)
    (px_PodInboundPorts r) (px_OpaquePorts r) (px_Await r) (px_DefaultInboundPolicy r) (px_AccessLog r)
    (px_ShutdownGracePeriod r) (px_NativeSidecar r).
Definition set_px_InboundDiscoveryCacheUnusedTimeout (v : string) (r : Proxy) : Proxy :=
  mkProxy (px_Capabilities r) (px_Cores r) (px_EnableExternalProfiles r) (px_Image r)
    (px_EnableShutdownEndpoint r) (px_LogLevel r) (px_LogFormat r) (px_LogHTTPHeaders r) (px_SAMountPath r)
    (px_Ports r) (px_Resources r) (px_UID r) (px_GID r) (px_WaitBeforeExitSeconds r) (px_IsGateway r)
    (px_IsIngress r) (px_RequireIdentityOnInboundPorts r) (px_OutboundConnectTimeout r)
    (px_InboundConnectTimeout r) (px_OutboundDiscoveryCacheUnusedTimeout r) v
    (px_DisableOutboundProtocolDetectTimeout r) (px_DisableInboundProtocolDetectTimeout r)
    (px_PodInboundPorts r) (px_OpaquePorts r) (px_Await r) (px_DefaultInboundPolicy r) (px_AccessLog r)
    (px_ShutdownGracePeriod r) (px_NativeSidecar r).
Definition set_px_DisableOutboundProtocolDetectTimeout (v : bool) (r : Proxy) : Proxy :=
  mkProxy (px_Capabilities r) (px_Cores r) (px_EnableExternalProfiles r) (px_Image r)
    (px_EnableShutdownEndpoint r) (px_LogLevel r) (px_LogFormat r) (px_LogHTTPHeaders r) (px_SAMountPath r)
    (px_Ports r) (px_Resources r) (px_UID r) (px_GID r) (px_WaitBeforeExitSeconds r) (px_IsGateway r)
    (px_IsIngress r) (px_RequireIdentityOnInboundPorts r) (px_OutboundConnectTimeout r)
    (px_InboundConnectTimeout r) (px_OutboundDiscoveryCacheUnusedTimeout r)
    (px_InboundDiscoveryCacheUnusedTimeout r) v (px_DisableInboundProtocolDetectTimeout r)
    (px_PodInboundPorts r) (px_OpaquePorts r) (px_Await r) (px_DefaultInboundPolicy r) (px_AccessLog r)
    (px_ShutdownGracePeriod r) (px_NativeSidecar r).
Definition set_px_DisableInboundProtocolDetectTimeout (v : bool) (r : Proxy) : Proxy :=
  mkProxy (px_Capabilities r) (px_Cores r) (px_EnableExternalProfiles r) (px_Image r)
    (px_EnableShutdownEndpoint r) (px_LogLevel r) (px_LogFormat r) (px_LogHTTPHeaders r) (px_SAMountPath r)
    (px_Ports r) (px_Resources r) (px_UID r) (px_GID r) (px_WaitBeforeExitSeconds r) (px_IsGateway r)
    (px_IsIngress r) (px_RequireIdentityOnInboundPorts r) (px_OutboundConnectTimeout r)
    (px_InboundConnectTimeout r) (px_OutboundDiscoveryCacheUnusedTimeout r)
    (px_InboundDiscoveryCacheUnusedTimeout r) (px_DisableOutboundProtocolDetectTimeout r) v
    (px_PodInboundPorts r) (px_OpaquePorts r) (px_Await r) (px_DefaultInboundPolicy r) (px_AccessLog r)
    (px_ShutdownGracePeriod r) (px_NativeSidecar r).
Definition set_px_PodInboundPorts (v : string) (r : Proxy) : Proxy :=
  mkProxy (px_Capabilities r) (px_Cores r) (px_EnableExternalProfiles r) (px_Image r)
    (px_EnableShutdownEndpoint r) (px_LogLevel r) (px_LogFormat r) (px_LogHTTPHeaders r) (px_SAMountPath r)
    (px_Ports r) (px_Resources r) (px_UID r) (px_GID r) (px_WaitBeforeExitSeconds r) (px_IsGateway r)
    (px_IsIngress r) (px_RequireIdentityOnInboundPorts r) (px_OutboundConnectTimeout r)
    (px_InboundConnectTimeout r) (px_OutboundDiscoveryCacheUnusedTimeout r)
    (px_InboundDiscoveryCacheUnusedTimeout r) (px_DisableOutboundProtocolDetectTimeout r)
    (px_DisableInboundProtocolDetectTimeout r) v (px_OpaquePorts r) (px_Await r) (px_DefaultInboundPolicy r)
    (px_AccessLog r) (px_ShutdownGracePeriod r) (px_NativeSidecar r).
Definition set_px_OpaquePorts (v : string) (r : Proxy) : Proxy :=
  mkProxy (px_Capabilities r) (px_Cores r) (px_EnableExternalProfiles r) (px_Image r)
    (px_EnableShutdownEndpoint r) (px_LogLevel r) (px_LogFormat r) (px_LogHTTPHeaders r) (px_SAMountPath r)
    (px_Ports r) (px_Resources r) (px_UID r) (px_GID r) (px_WaitBeforeExitSeconds r) (px_IsGateway r)
    (px_IsIngress r) (px_RequireIdentityOnInboundPorts r) (px_OutboundConnectTimeout r)
    (px_InboundConnectTimeout r) (px_OutboundDiscoveryCacheUnusedTimeout r)
    (px_InboundDiscoveryCacheUnusedTimeout r) (px_DisableOutboundProtocolDetectTimeout r)
    (px_DisableInboundProtocolDetectTimeout r) (px_PodInboundPorts r) v (px_Await r) (px_DefaultInboundPolicy r)
    (px_AccessLog r) (px_ShutdownGracePeriod r) (px_NativeSidecar r).
Definition set_px_Await (v : bool) (r : Proxy) : Proxy :=
  mkProxy (px_Capabilities r) (px_Cores r) (px_EnableExternalProfiles r) (px_Image r)
    (px_EnableShutdownEndpoint r) (px_LogLevel r) (px_LogFormat r) (px_LogHTTPHeaders r) (px_SAMountPath r)
    (px_Ports r) (px_Resources r) (px_UID r) (px_GID r) (px_WaitBeforeExitSeconds r) (px_IsGateway r)
    (px_IsIngress r) (px_RequireIdentityOnInboundPorts r) (px_OutboundConnectTimeout r)
    (px_InboundConnectTimeout r) (px_OutboundDiscoveryCacheUnusedTimeout r)
    (px_InboundDiscoveryCacheUnusedTimeout r) (px_DisableOutboundProtocolDetectTimeout r)
    (px_DisableInboundProtocolDetectTimeout r) (px_PodInboundPorts r) (px_OpaquePorts r) v
    (px_DefaultInboundPolicy r) (px_AccessLog r) (px_ShutdownGracePeriod r) (px_NativeSidecar r).
Definition set_px_DefaultInboundPolicy (v : string) (r : Proxy) : Proxy :=
  mkProxy (px_Capabilities r) (px_Cores r) (px_EnableExternalProfiles r) (px_Image r)
    (px_EnableShutdownEndpoint r) (px_LogLevel r) (px_LogFormat r) (px_LogHTTPHeaders r) (px_SAMountPath r)
    (px_Ports r) (px_Resources r) (px_UID r) (px_GID r) (px_WaitBeforeExitSeconds r) (px_IsGateway r)
    (px_IsIngress r) (px_RequireIdentityOnInboundPorts r) (px_OutboundConnectTimeout r)
    (px_InboundConnectTimeout r) (px_OutboundDiscoveryCacheUnusedTimeout r)
    (px_InboundDiscoveryCacheUnusedTimeout r) (px_DisableOutboundProtocolDetectTimeout r)
    (px_DisableInboundProtocolDetectTimeout r) (px_PodInboundPorts r) (px_OpaquePorts r) (px_Await r) v
    (px_AccessLog r) (px_ShutdownGracePeriod r) (px_NativeSidecar r).
Definition set_px_AccessLog (v : string) (r : Proxy) : Proxy :=
  mkProxy (px_Capabilities r) (px_Cores r) (px_EnableExternalProfiles r) (px_Image r)
    (px_EnableShutdownEndpoint r) (px_LogLevel r) (px_LogFormat r) (px_LogHTTPHeaders r) (px_SAMountPath r)
    (px_Ports r) (px_Resources r) (px_UID r) (px_GID r) (px_WaitBeforeExitSeconds r) (px_IsGateway r)
    (px_IsIngress r) (px_RequireIdentityOnInboundPorts r) (px_OutboundConnectTimeout r)
    (px_InboundConnectTimeout r) (px_OutboundDiscoveryCacheUnusedTimeout r)
    (px_InboundDiscoveryCacheUnusedTimeout r) (px_DisableOutboundProtocolDetectTimeout r)
    (px_DisableInboundProtocolDetectTimeout r) (px_PodInboundPorts r) (px_OpaquePorts r) (px_Await r)
    (px_DefaultInboundPolicy r) v (px_ShutdownGracePeriod r) (px_NativeSidecar r).
Definition set_px_ShutdownGracePeriod (v : string) (r : Proxy) : Proxy :=
  mkProxy (px_Capabilities r) (px_Cores r) (px_EnableExternalProfiles r) (px_Image r)
    (px_EnableShutdownEndpoint r) (px_LogLevel r) (px_LogFormat r) (px_LogHTTPHeaders r) (px_SAMountPath r)
    (px_Ports r) (px_Resources r) (px_UID r) (px_GID r) (px_WaitBeforeExitSeconds r) (px_IsGateway r)
    (px_IsIngress r) (px_RequireIdentityOnInboundPorts r) (px_OutboundConnectTimeout r)
    (px_InboundConnectTimeout r) (px_OutboundDiscoveryCacheUnusedTimeout r)
    (px_InboundDiscoveryCacheUnusedTimeout r) (px_DisableOutboundProtocolDetectTimeout r)
    (px_DisableInboundProtocolDetectTimeout r) (px_PodInboundPorts r) (px_OpaquePorts r) (px_Await r)
    (px_DefaultInboundPolicy r) (px_AccessLog r) v (px_NativeSidecar r).
Definition set_px_NativeSidecar (v : bool) (r : Proxy) : Proxy :=
  mkProxy (px_Capabilities r) (px_Cores r) (px_EnableExternalProfiles r) (px_Image r)
    (px_EnableShutdownEndpoint r) (px_LogLevel r) (px_LogFormat r) (px_LogHTTPHeaders r) (px_SAMountPath r)
    (px_Ports r) (px_Resources r) (px_UID r) (px_GID r) (px_WaitBeforeExitSeconds r) (px_IsGateway r)
    (px_IsIngress r) (px_RequireIdentityOnInboundPorts r) (px_OutboundConnectTimeout r)
    (px_InboundConnectTimeout r) (px_OutboundDiscoveryCacheUnusedTimeout r)
    (px_InboundDiscoveryCacheUnusedTimeout r) (px_DisableOutboundProtocolDetectTimeout r)
    (px_DisableInboundProtocolDetectTimeout r) (px_PodInboundPorts r) (px_OpaquePorts r) (px_Await r)
    (px_DefaultInboundPolicy r) (px_AccessLog r) (px_ShutdownGracePeriod r) v.
Definition set_pi_Capabilities (v : option Capabilities) (r : ProxyInit) : ProxyInit :=
  mkProxyInit v (pi_IgnoreInboundPorts r) (pi_IgnoreOutboundPorts r) (pi_SkipSubnets r) (pi_Image r)
    (pi_SAMountPath r) (pi_CloseWaitTimeoutSecs r).
Definition set_pi_IgnoreInboundPorts (v : string) (r : ProxyInit) : ProxyInit :=
  mkProxyInit (pi_Capabilities r) v (pi_IgnoreOutboundPorts r) (pi_SkipSubnets r) (pi_Image r)
    (pi_SAMountPath r) (pi_CloseWaitTimeoutSecs r).
Definition set_pi_IgnoreOutboundPorts (v : string) (r : ProxyInit) : ProxyInit :=
  mkProxyInit (pi_Capabilities r) (pi_IgnoreInboundPorts r) v (pi_SkipSubnets r) (pi_Image r) (pi_SAMountPath r)
    (pi_CloseWaitTimeoutSecs r).
Definition set_pi_SkipSubnets (v : string) (r : ProxyInit) : ProxyInit :=
  mkProxyInit (pi_Capabilities r) (pi_IgnoreInboundPorts r) (pi_IgnoreOutboundPorts r) v (pi_Image r)
    (pi_SAMountPath r) (pi_CloseWaitTimeoutSecs r).
Definition set_pi_Image (v : Image) (r : ProxyInit) : ProxyInit :=
  mkProxyInit (pi_Capabilities r) (pi_IgnoreInboundPorts r) (pi_IgnoreOutboundPorts r) (pi_SkipSubnets r) v
    (pi_SAMountPath r) (pi_CloseWaitTimeoutSecs r).
Definition set_pi_SAMountPath (v : option VolumeMountPath) (r : ProxyInit) : ProxyInit :=
  mkProxyInit (pi_Capabilities r) (pi_IgnoreInboundPorts r) (pi_IgnoreOutboundPorts r) (pi_SkipSubnets r)
    (pi_Image r) v (pi_CloseWaitTimeoutSecs r).
Definition set_pi_CloseWaitTimeoutSecs (v : Z) (r : ProxyInit) : ProxyInit :=
  mkProxyInit (pi_Capabilities r) (pi_IgnoreInboundPorts r) (pi_IgnoreOutboundPorts r) (pi_SkipSubnets r)
    (pi_Image r) (pi_SAMountPath r) v.
Definition set_v_Proxy (v : Proxy) (r : Values) : Values :=
  mkValues v (v_ProxyInit r) (v_DebugImage r) (v_ClusterNetworks r) (v_IdentityTrustAnchorsPEM r) (v_LinkerdVersion r) (v_CNIEnabled r) (v_ServiceAccountTokenProjection r).
Definition set_v_ProxyInit (v : ProxyInit) (r : Values) : Values :=
  mkValues (v_Proxy r) v (v_DebugImage r) (v_ClusterNetworks r) (v_IdentityTrustAnchorsPEM r) (v_LinkerdVersion r) (v_CNIEnabled r) (v_ServiceAccountTokenProjection r).
Definition set_v_DebugImage (v : Image) (r : Values) : Values :=
  mkValues (v_Proxy r) (v_ProxyInit r) v (v_ClusterNetworks r) (v_IdentityTrustAnchorsPEM r) (v_LinkerdVersion r) (v_CNIEnabled r) (v_ServiceAccountTokenProjection r).
