(* ===== verification/InjectValues.v ===== *)
(** Overriding the values of the proxy by annotations: [applyAnnotationOverrides],
    [AppendNamespaceAnnotations] and their helpers of [pkg/inject/inject.go].

    The function that applies the annotations is a long list of blocks, each for one
    annotation; here it is a list of rules, applied in the order of the blocks.  Durations are
    converted as the source does, through 64-bit floating point numbers. *)
From Stdlib Require Import SpecFloat.
From S2P Require Import Prelude GoStd K8s PortRange InjectData.

#[local] Open Scope string_scope.
#[local] Open Scope list_scope.
#[local] Open Scope Z_scope.

(** * Standard library *)
(** [strconv.ParseBool]. *)
Definition ParseBool (s : string) : option bool :=
  if bool_decide (s ∈ ["1"; "t"; "T"; "TRUE"; "true"; "True"]) then Some true
  else if bool_decide (s ∈ ["0"; "f"; "F"; "FALSE"; "false"; "False"]) then Some false
  else None.

(** 64-bit floating point: 53 bits of precision, exponents below 1024. *)
Definition f64_of_Z (n : Z) : spec_float := binary_normalize 53 1024 n 0 false.
Definition f64_add : spec_float → spec_float → spec_float := SFadd 53 1024.
Definition f64_mul : spec_float → spec_float → spec_float := SFmul 53 1024.
Definition f64_div : spec_float → spec_float → spec_float := SFdiv 53 1024.

(** The conversion to an integer, towards zero; no infinity or NaN arises here. *)
Definition int_of_f64 (f : spec_float) : Z :=
  match f with
  | S754_finite s m e =>
      let n := if bool_decide (0 ≤ e) then Z.shiftl (Zpos m) e else Z.shiftr (Zpos m) (- e) in
      if s then - n else n
  | _ => 0
  end.

(** [time.Duration.Seconds] of a number of nanoseconds. *)
Definition second : Z := 1000000000.
Definition Seconds (d : Z) : spec_float :=
  f64_add (f64_of_Z (Z.quot d second)) (f64_div (f64_of_Z (Z.rem d second)) (f64_of_Z second)).

(** [int(duration.Seconds()*1000)] and [int(duration.Seconds())]. *)
Definition millis (d : Z) : Z := int_of_f64 (f64_mul (Seconds d) (f64_of_Z 1000)).
Definition wholeSeconds (d : Z) : Z := int_of_f64 (Seconds d).

(** * The libraries the overrides use *)
(** [time.ParseDuration], in nanoseconds, and the quantities of k8s.io/apimachinery: parsing,
    and rounding up to an int64 ([RoundUp(0)], [AsInt64]). *)
Class Parsers := {
  ParseDuration : string → option Z;
  Quantity : Type;
  ParseQuantity : string → option Quantity;
  roundUpAsInt64 : Quantity → option Z }.

Section overrides.
Context `{!Parsers} (namedPorts : gmap string Z).

Definition ToWholeCPUCores (q : Quantity) : res Z :=
  match roundUpAsInt64 q with Some n => Ok n | None => Err "could not parse cores" end.

(** * Rules *)
Definition on_Proxy (f : Proxy → Proxy) (v : Values) : Values := set_v_Proxy (f (v_Proxy v)) v.
Definition on_ProxyInit (f : ProxyInit → ProxyInit) (v : Values) : Values := set_v_ProxyInit (f (v_ProxyInit v)) v.
Definition on_Image (f : Image → Image) (p : Proxy) : Proxy := set_px_Image (f (px_Image p)) p.
Definition on_InitImage (f : Image → Image) (p : ProxyInit) : ProxyInit := set_pi_Image (f (pi_Image p)) p.
Definition on_Debug (f : Image → Image) (v : Values) : Values := set_v_DebugImage (f (v_DebugImage v)) v.
Definition on_Ports (f : Ports → Ports) (p : Proxy) : Proxy := set_px_Ports (f (px_Ports p)) p.
Definition on_Resources (f : Resources → Resources) (p : Proxy) : Proxy := set_px_Resources (f (px_Resources p)) p.
Definition on_CPU (f : Constraints → Constraints) (r : Resources) : Resources := set_rs_CPU (f (rs_CPU r)) r.
Definition on_Memory (f : Constraints → Constraints) (r : Resources) : Resources := set_rs_Memory (f (rs_Memory r)) r.
Definition on_Storage (f : Constraints → Constraints) (r : Resources) : Resources :=
  set_rs_EphemeralStorage (f (rs_EphemeralStorage r)) r.

(** A value that parses is assigned; any other leaves the values as they are. *)
Definition parsed {A} (parse : string → option A) (assign : A → Values → Values) (override : string) (v : Values) : Values :=
  match parse override with Some a => assign a v | None => v end.

Definition port (set : Z → Ports → Ports) : string → Values → Values :=
  parsed (λ s, strconv.ParseInt s 32) (λ p, on_Proxy (on_Ports (set p))).
Definition flag (set : bool → Proxy → Proxy) : string → Values → Values := parsed ParseBool (λ b, on_Proxy (set b)).
(** enabled or disabled *)
Definition switch (set : bool → Proxy → Proxy) (override : string) (v : Values) : Values :=
  if bool_decide (override = "enabled" ∨ override = "disabled")
  then on_Proxy (set (bool_decide (override = "enabled"))) v else v.
Definition timeoutMillis (set : string → Proxy → Proxy) : string → Values → Values :=
  parsed ParseDuration (λ d, on_Proxy (set (strconv.Itoa (millis d) +:+ "ms"))).
Definition timeoutSeconds (set : string → Proxy → Proxy) : string → Values → Values :=
  parsed ParseDuration (λ d, on_Proxy (set (strconv.Itoa (wholeSeconds d) +:+ "s"))).
Definition quantity (set : string → Resources → Resources) (override : string) (v : Values) : Values :=
  match ParseQuantity override with Some _ => on_Proxy (on_Resources (set override)) v | None => v end.
Definition id64 (set : Z → Proxy → Proxy) : string → Values → Values :=
  parsed (λ s, strconv.ParseInt s 64) (λ n, on_Proxy (set n)).

Definition inboundPolicies : list string :=
  ["all-unauthenticated"; "all-authenticated"; "cluster-unauthenticated"; "cluster-authenticated"; "deny"; "audit"].

Definition opaquePortsOverride (override : string) : string :=
  strings.Join (ToString <$> ParseContainerOpaquePorts override namedPorts) ",".

Definition cpuLimit (override : string) (v : Values) : Values :=
  match ParseQuantity override with
  | None => v
  | Some q =>
      let n := match ToWholeCPUCores q with Ok n => n | _ => 0 end in
      on_Proxy (λ p, set_px_Cores n (on_Resources (on_CPU (set_cs_Limit override)) p)) v
  end.

(** The blocks of [applyAnnotationOverrides], in order: images, ports and timeouts of the
    proxy, its resources and IDs, and the rest. *)
Definition proxyRules : list (string * (string → Values → Values)) := [
  (ProxyInjectAnnotation, λ o v, if bool_decide (o = "ingress") then on_Proxy (set_px_IsIngress true) v else v);
  (ProxyImageAnnotation, λ o, on_Proxy (on_Image (set_img_Name o)));
  (ProxyVersionOverrideAnnotation, λ o, on_Proxy (on_Image (set_img_Version o)));
  (ProxyImagePullPolicyAnnotation, λ o, on_Proxy (on_Image (set_img_PullPolicy o)));
  (ProxyInitImageVersionAnnotation, λ o, on_ProxyInit (on_InitImage (set_img_Version o)));
  (ProxyControlPortAnnotation, port set_pt_Control);
  (ProxyInboundPortAnnotation, port set_pt_Inbound);
  (ProxyAdminPortAnnotation, port set_pt_Admin);
  (ProxyOutboundPortAnnotation, port set_pt_Outbound);
  (ProxyPodInboundPortsAnnotation, λ o, on_Proxy (set_px_PodInboundPorts o));
  (ProxyAdminShutdownAnnotation, switch set_px_EnableShutdownEndpoint);
  (ProxyLogLevelAnnotation, λ o, on_Proxy (set_px_LogLevel o));
  (ProxyLogHTTPHeaders, λ o, on_Proxy (set_px_LogHTTPHeaders o));
  (ProxyLogFormatAnnotation, λ o, on_Proxy (set_px_LogFormat o));
  (ProxyRequireIdentityOnInboundPortsAnnotation, λ o, on_Proxy (set_px_RequireIdentityOnInboundPorts o));
  (ProxyOutboundConnectTimeout, timeoutMillis set_px_OutboundConnectTimeout);
  (ProxyInboundConnectTimeout, timeoutMillis set_px_InboundConnectTimeout);
  (ProxyOutboundDiscoveryCacheUnusedTimeout, timeoutSeconds set_px_OutboundDiscoveryCacheUnusedTimeout);
  (ProxyInboundDiscoveryCacheUnusedTimeout, timeoutSeconds set_px_InboundDiscoveryCacheUnusedTimeout);
  (ProxyDisableOutboundProtocolDetectTimeout, flag set_px_DisableOutboundProtocolDetectTimeout);
  (ProxyDisableInboundProtocolDetectTimeout, flag set_px_DisableInboundProtocolDetectTimeout);
  (ProxyShutdownGracePeriodAnnotation, timeoutMillis set_px_ShutdownGracePeriod)].
Definition resourceRules : list (string * (string → Values → Values)) := [
  (ProxyEnableGatewayAnnotation, flag set_px_IsGateway);
  (ProxyWaitBeforeExitSecondsAnnotation,
    parsed (λ s, strconv.ParseUint s 64) (λ n, on_Proxy (set_px_WaitBeforeExitSeconds n)));
  (ProxyEnableNativeSidecarAnnotation, flag set_px_NativeSidecar);
  (ProxyCPURequestAnnotation, quantity (λ o, on_CPU (set_cs_Request o)));
  (ProxyMemoryRequestAnnotation, quantity (λ o, on_Memory (set_cs_Request o)));
  (ProxyEphemeralStorageRequestAnnotation, quantity (λ o, on_Storage (set_cs_Request o)));
  (ProxyCPULimitAnnotation, cpuLimit);
  (ProxyMemoryLimitAnnotation, quantity (λ o, on_Memory (set_cs_Limit o)));
  (ProxyEphemeralStorageLimitAnnotation, quantity (λ o, on_Storage (set_cs_Limit o)));
  (ProxyUIDAnnotation, id64 set_px_UID);
  (ProxyGIDAnnotation, id64 set_px_GID);
  (ProxyEnableExternalProfilesAnnotation, flag set_px_EnableExternalProfiles)].
Definition otherRules : list (string * (string → Values → Values)) := [
  (ProxyInitImageAnnotation, λ o, on_ProxyInit (on_InitImage (set_img_Name o)));
  (ProxyImagePullPolicyAnnotation, λ o, on_ProxyInit (on_InitImage (set_img_PullPolicy o)));
  (ProxyIgnoreInboundPortsAnnotation, λ o, on_ProxyInit (set_pi_IgnoreInboundPorts o));
  (ProxyIgnoreOutboundPortsAnnotation, λ o, on_ProxyInit (set_pi_IgnoreOutboundPorts o));
  (ProxyOpaquePortsAnnotation, λ o, on_Proxy (set_px_OpaquePorts (opaquePortsOverride o)));
  (DebugImageAnnotation, λ o, on_Debug (set_img_Name o));
  (DebugImageVersionAnnotation, λ o, on_Debug (set_img_Version o));
  (DebugImagePullPolicyAnnotation, λ o, on_Debug (set_img_PullPolicy o));
  (ProxyAwait, switch set_px_Await);
  (ProxyDefaultInboundPolicyAnnotation,
    λ o v, if bool_decide (o ∈ inboundPolicies) then on_Proxy (set_px_DefaultInboundPolicy o) v else v);
  (ProxySkipSubnetsAnnotation, λ o, on_ProxyInit (set_pi_SkipSubnets o));
  (ProxyAccessLogAnnotation, λ o, on_Proxy (set_px_AccessLog o))].
Definition rules : list (string * (string → Values → Values)) := proxyRules ++ resourceRules ++ otherRules.

Definition applyRule (annotations : strmap) (v : Values) (rule : string * (string → Values → Values)) : Values :=
  match annotations !! rule.1 with Some override => rule.2 override v | None => v end.

Definition applyAnnotationOverrides (values : Values) (annotations : strmap) : Values :=
  foldl (applyRule annotations) values rules.
End overrides.

(** * Namespaces *)
Definition ProxyAnnotations : list string := [
  ProxyAdminPortAnnotation; ProxyControlPortAnnotation; ProxyEnableDebugAnnotation;
  ProxyEnableExternalProfilesAnnotation; ProxyImagePullPolicyAnnotation; ProxyInboundPortAnnotation;
  ProxyInitImageAnnotation; ProxyInitImageVersionAnnotation; ProxyOutboundPortAnnotation;
  ProxyPodInboundPortsAnnotation; ProxyCPULimitAnnotation; ProxyCPURequestAnnotation; ProxyImageAnnotation;
  ProxyAdminShutdownAnnotation; ProxyLogFormatAnnotation; ProxyLogLevelAnnotation; ProxyLogHTTPHeaders;
  ProxyMemoryLimitAnnotation; ProxyMemoryRequestAnnotation; ProxyEphemeralStorageLimitAnnotation;
  ProxyEphemeralStorageRequestAnnotation; ProxyUIDAnnotation; ProxyGIDAnnotation; ProxyVersionOverrideAnnotation;
  ProxyRequireIdentityOnInboundPortsAnnotation; ProxyIgnoreInboundPortsAnnotation; ProxyOpaquePortsAnnotation;
  ProxyIgnoreOutboundPortsAnnotation; ProxyOutboundConnectTimeout; ProxyInboundConnectTimeout; ProxyAwait;
  ProxyDefaultInboundPolicyAnnotation; ProxySkipSubnetsAnnotation; ProxyAccessLogAnnotation;
  ProxyShutdownGracePeriodAnnotation; ProxyOutboundDiscoveryCacheUnusedTimeout;
  ProxyInboundDiscoveryCacheUnusedTimeout; ProxyDisableOutboundProtocolDetectTimeout;
  ProxyDisableInboundProtocolDetectTimeout].
Definition ProxyAlphaConfigAnnotations : list string :=
  [ProxyWaitBeforeExitSecondsAnnotation; ProxyEnableNativeSidecarAnnotation].

Definition GetConfigOverride (annotationKey : string) (workloadAnn nsAnn : strmap) : option string :=
  match workloadAnn !! annotationKey with
  | Some _ => None
  | None => nsAnn !! annotationKey
  end.

Definition inheritable : list string := ProxyAnnotations ++ ProxyAlphaConfigAnnotations ++ [ProxyInjectAnnotation].

Definition AppendNamespaceAnnotations (base nsAnn workloadAnn : strmap) : strmap :=
  foldl (λ base key,
      match nsAnn !! key with
      | None => base
      | Some _ => match GetConfigOverride key workloadAnn nsAnn with Some val => <[key := val]> base | None => base end
      end) base inheritable.

(** * Durations *)
Fixpoint below (P : Z → bool) (n : nat) (k : Z) : bool :=
  match n with O => true | S n => P k && below P n (k + 1) end.
Lemma below_spec P n k j : below P n k = true → k ≤ j < k + Z.of_nat n → P j = true.
Proof.
  revert k. induction n as [|n IH]; intros k Hb Hj; [lia|]. simpl in Hb. apply andb_true_iff in Hb as [Hk Hb].
  destruct (decide (j = k)) as [->|]; [done|]. apply (IH (k + 1)); [done|lia].
Qed.

(** Timeouts of whole milliseconds lose at most one of them.  Converted through floating
    point seconds, a timeout annotation of k milliseconds is k milliseconds for the proxy up
    to one second, and k or k - 1 above, checked up to two seconds; k - 1 does happen, for
    the first time with 1001. *)
Theorem millis_bounds k : 0 ≤ k ≤ 2000 →
  k - 1 ≤ millis (k * 1000000) ≤ k ∧ (k ≤ 1000 → millis (k * 1000000) = k) ∧ (k = 1001 → millis (k * 1000000) = 1000).
Proof.
  intros Hk.
  assert (below (λ k, let m := millis (k * 1000000) in
    ((k - 1 <=? m) && (m <=? k)) && ((1000 <? k) || (m =? k)) && (negb (k =? 1001) || (m =? 1000))) 2001 0 = true) as Hall
    by (vm_compute; reflexivity).
  apply (below_spec _ _ _ k) in Hall; [|lia]. cbn zeta in Hall.
  rewrite !andb_true_iff, !orb_true_iff, negb_true_iff, !Z.leb_le, !Z.eqb_eq, Z.eqb_neq, Z.ltb_lt in Hall. lia.
Qed.

Lemma millis_bounds_witness : (0 ≤ 1001 ≤ 2000) ∧ 1000 ≤ millis (1001 * 1000000) ≤ 1001.
Proof. split; [lia|]. exact (proj1 (millis_bounds 1001 ltac:(lia))). Defined.
