(* ===== verification/Inject.v ===== *)
(** Proxy injection: [pkg/inject/inject.go], [report.go] and [uninject.go], the sidecar check of
    [pkg/healthcheck/sidecar.go], the template [charts/patch/templates/patch.json] and the
    webhook [controller/proxy-injector/webhook.go].

    The injector reads a workload into a [ResourceConfig], reports whether the proxy can be
    injected, and makes a JSON patch that adds the proxy.  A patch is a list of [add]
    operations; applying it to the document of a pod is modelled too. *)
From S2P Require Import Prelude GoStd K8s PortRange Addr InjectData InjectValues.

#[local] Open Scope string_scope.
#[local] Open Scope list_scope.
#[local] Open Scope Z_scope.
#[local] Open Scope go_scope.

(** * Objects *)
Record Probe := mkProbe { probe_HTTPGet : option IntOrString  (* the port *) }.
Record Ctr := mkCtr {
  ct_Name : string; ct_Image : string; ct_Ports : list (ContainerPort * string)  (* with the protocol *);
  ct_ReadinessProbe : option Probe; ct_LivenessProbe : option Probe;
  ct_SecurityContext : option (option Capabilities); ct_VolumeMounts : list VolumeMountPath }.
Record Volume := mkVolume { vol_Name : string; vol_Source : string }.
Record PodSpec := mkPodSpec {
  ps_HostNetwork : bool; ps_AutomountServiceAccountToken : option bool;
  ps_InitContainers : list Ctr; ps_Containers : list Ctr; ps_Volumes : list Volume }.

(** The labels and annotations may be nil; [om_rest] holds the fields the code does not read,
    [None] when all are empty. *)
Record ObjectMeta := mkMeta {
  om_Name : string; om_GenerateName : string; om_Namespace : string;
  om_Labels : option strmap; om_Annotations : option strmap; om_rest : option string }.
Definition emptyObjectMeta : ObjectMeta := mkMeta "" "" "" None None None.
Definition set_Annotations (a : option strmap) (m : ObjectMeta) : ObjectMeta :=
  mkMeta (om_Name m) (om_GenerateName m) (om_Namespace m) (om_Labels m) a (om_rest m).
Definition set_Labels (l : option strmap) (m : ObjectMeta) : ObjectMeta :=
  mkMeta (om_Name m) (om_GenerateName m) (om_Namespace m) l (om_Annotations m) (om_rest m).
Definition set_Namespace (ns : string) (m : ObjectMeta) : ObjectMeta :=
  mkMeta (om_Name m) (om_GenerateName m) ns (om_Labels m) (om_Annotations m) (om_rest m).
Definition anns (m : ObjectMeta) : strmap := default ∅ (om_Annotations m).
Definition lbls (m : ObjectMeta) : strmap := default ∅ (om_Labels m).

Record SvcPort := mkSvcPort { svp_Port : Z; svp_TargetPort : IntOrString }.
Abbreviation PodTemplate := (ObjectMeta * PodSpec)%type.

Inductive workloadObj :=
  | Deployment (m : ObjectMeta) (t : PodTemplate)
  | ReplicationController (m : ObjectMeta) (t : option PodTemplate)
  | ReplicaSet (m : ObjectMeta) (t : PodTemplate)
  | Job (m : ObjectMeta) (t : PodTemplate)
  | DaemonSet (m : ObjectMeta) (t : PodTemplate)
  | StatefulSet (m : ObjectMeta) (t : PodTemplate)
  | NamespaceObj (m : ObjectMeta)
  | CronJob (m : ObjectMeta) (t : PodTemplate)
  | PodObj (m : ObjectMeta) (spec : PodSpec)
  | ServiceObj (m : ObjectMeta) (ports : list SvcPort)
  | Unsupported (m : ObjectMeta).

#[export] Instance Image_eq_dec : EqDecision Image.
Proof. solve_decision. Defined.
#[export] Instance Capabilities_eq_dec : EqDecision Capabilities.
Proof. solve_decision. Defined.
#[export] Instance VolumeMountPath_eq_dec : EqDecision VolumeMountPath.
Proof. solve_decision. Defined.
#[export] Instance Probe_eq_dec : EqDecision Probe.
Proof. solve_decision. Defined.
#[export] Instance Ctr_eq_dec : EqDecision Ctr.
Proof. solve_decision. Defined.
#[export] Instance Volume_eq_dec : EqDecision Volume.
Proof. solve_decision. Defined.
#[export] Instance ObjectMeta_eq_dec : EqDecision ObjectMeta.
Proof. solve_decision. Defined.

(** * Configurations *)
Inductive Origin := OriginCLI | OriginWebhook | OriginUnknown.
#[export] Instance Origin_eq_dec : EqDecision Origin.
Proof. solve_decision. Defined.

(** An owner retriever may change the pod's metadata and returns the owner's kind and name. *)
Abbreviation OwnerRetrieverFunc := (ObjectMeta → res (ObjectMeta * (string * string))).

Record ResourceConfig := mkConf {
  conf_values : option Values; conf_namespace : string; conf_nsAnnotations : strmap;
  conf_ownerRetriever : option OwnerRetrieverFunc; conf_origin : Origin;
  wl_obj : option workloadObj; wl_Kind : string; wl_Meta : ObjectMeta; wl_ownerRef : option (string * string);
  cp_meta : ObjectMeta; cp_labels : strmap; cp_annotations : strmap; cp_spec : option PodSpec }.

Definition NewResourceConfig (values : option Values) (origin : Origin) (ns : string) : ResourceConfig :=
  mkConf values ns ∅ None origin None "" emptyObjectMeta None emptyObjectMeta {[ControllerNSLabel := ns]} ∅ None.
Definition WithKind (kind : string) (c : ResourceConfig) : ResourceConfig :=
  mkConf (conf_values c) (conf_namespace c) (conf_nsAnnotations c) (conf_ownerRetriever c) (conf_origin c)
    (wl_obj c) kind (wl_Meta c) (wl_ownerRef c) (cp_meta c) (cp_labels c) (cp_annotations c) (cp_spec c).
Definition WithNsAnnotations (m : strmap) (c : ResourceConfig) : ResourceConfig :=
  mkConf (conf_values c) (conf_namespace c) m (conf_ownerRetriever c) (conf_origin c)
    (wl_obj c) (wl_Kind c) (wl_Meta c) (wl_ownerRef c) (cp_meta c) (cp_labels c) (cp_annotations c) (cp_spec c).
Definition WithOwnerRetriever (f : OwnerRetrieverFunc) (c : ResourceConfig) : ResourceConfig :=
  mkConf (conf_values c) (conf_namespace c) (conf_nsAnnotations c) (Some f) (conf_origin c)
    (wl_obj c) (wl_Kind c) (wl_Meta c) (wl_ownerRef c) (cp_meta c) (cp_labels c) (cp_annotations c) (cp_spec c).
(** The assignments of [populateMeta], [complete] and the functions that add annotations. *)
Definition set_workload (obj : workloadObj) (m : ObjectMeta) (c : ResourceConfig) : ResourceConfig :=
  mkConf (conf_values c) (conf_namespace c) (conf_nsAnnotations c) (conf_ownerRetriever c) (conf_origin c)
    (Some obj) (wl_Kind c) m (wl_ownerRef c) (cp_meta c) (cp_labels c) (cp_annotations c) (cp_spec c).
Definition set_ownerRef (o : string * string) (c : ResourceConfig) : ResourceConfig :=
  mkConf (conf_values c) (conf_namespace c) (conf_nsAnnotations c) (conf_ownerRetriever c) (conf_origin c)
    (wl_obj c) (wl_Kind c) (wl_Meta c) (Some o) (cp_meta c) (cp_labels c) (cp_annotations c) (cp_spec c).
Definition set_pod (m : ObjectMeta) (spec : PodSpec) (c : ResourceConfig) : ResourceConfig :=
  mkConf (conf_values c) (conf_namespace c) (conf_nsAnnotations c) (conf_ownerRetriever c) (conf_origin c)
    (wl_obj c) (wl_Kind c) (wl_Meta c) (wl_ownerRef c) m (cp_labels c) (cp_annotations c) (Some spec).
Definition set_cp_meta (m : ObjectMeta) (c : ResourceConfig) : ResourceConfig :=
  mkConf (conf_values c) (conf_namespace c) (conf_nsAnnotations c) (conf_ownerRetriever c) (conf_origin c)
    (wl_obj c) (wl_Kind c) (wl_Meta c) (wl_ownerRef c) m (cp_labels c) (cp_annotations c) (cp_spec c).
Definition add_label (k v : string) (c : ResourceConfig) : ResourceConfig :=
  mkConf (conf_values c) (conf_namespace c) (conf_nsAnnotations c) (conf_ownerRetriever c) (conf_origin c)
    (wl_obj c) (wl_Kind c) (wl_Meta c) (wl_ownerRef c) (cp_meta c) (<[k := v]> (cp_labels c)) (cp_annotations c) (cp_spec c).
Definition set_cp_annotations (a : strmap) (c : ResourceConfig) : ResourceConfig :=
  mkConf (conf_values c) (conf_namespace c) (conf_nsAnnotations c) (conf_ownerRetriever c) (conf_origin c)
    (wl_obj c) (wl_Kind c) (wl_Meta c) (wl_ownerRef c) (cp_meta c) (cp_labels c) a (cp_spec c).

Definition AppendPodAnnotation (k v : string) (c : ResourceConfig) : ResourceConfig :=
  set_cp_annotations (<[k := v]> (cp_annotations c)) c.
Definition AppendPodAnnotations (annotations : strmap) (c : ResourceConfig) : ResourceConfig :=
  set_cp_annotations (annotations ∪ cp_annotations c) c.

Definition IsNamespace (c : ResourceConfig) : bool := bool_decide (strings.ToLower (wl_Kind c) = "namespace").
Definition IsService (c : ResourceConfig) : bool := bool_decide (strings.ToLower (wl_Kind c) = "service").
Definition IsPod (c : ResourceConfig) : bool := bool_decide (strings.ToLower (wl_Kind c) = "pod").
Definition HasPodTemplate (c : ResourceConfig) : bool := bool_decide (is_Some (cp_spec c)).
Definition GetWorkloadAnnotations (c : ResourceConfig) : strmap := if IsPod c then anns (cp_meta c) else anns (wl_Meta c).
Definition HasWorkloadAnnotation (annotation : string) (c : ResourceConfig) : bool :=
  bool_decide (is_Some (anns (cp_meta c) !! annotation)) || bool_decide (is_Some (anns (wl_Meta c) !! annotation))
  || bool_decide (is_Some (cp_annotations c !! annotation)).
Definition IsControlPlaneComponent (c : ResourceConfig) : bool :=
  bool_decide (is_Some (lbls (cp_meta c) !! ControllerComponentLabel)).
Definition GetOverriddenConfiguration (c : ResourceConfig) : strmap :=
  foldl (λ m annotation, <[annotation := get (anns (cp_meta c)) annotation]> m) ∅ ProxyAnnotations.

(** [if meta.Annotations == nil { meta.Annotations = map[string]string{} }]. *)
Definition withAnnotations (m : ObjectMeta) : ObjectMeta := set_Annotations (Some (anns m)) m.

Definition complete (t : PodTemplate) (c : ResourceConfig) : ResourceConfig := set_pod (withAnnotations t.1) t.2 c.

(** The label for the owner of a pod; none for other kinds. *)
Definition ownerLabel (kind : string) : option string :=
  if bool_decide (kind = "deployment") then Some ProxyDeploymentLabel
  else if bool_decide (kind = "replicationcontroller") then Some ProxyReplicationControllerLabel
  else if bool_decide (kind = "replicaset") then Some ProxyReplicaSetLabel
  else if bool_decide (kind = "job") then Some ProxyJobLabel
  else if bool_decide (kind = "daemonset") then Some ProxyDaemonSetLabel
  else if bool_decide (kind = "statefulset") then Some ProxyStatefulSetLabel
  else None.

Definition populateMeta (obj : workloadObj) (c : ResourceConfig) : res ResourceConfig :=
  let template (m : ObjectMeta) (label : string) (t : PodTemplate) : res ResourceConfig :=
    Ok (complete t (add_label WorkloadNamespaceLabel (om_Namespace m) (add_label label (om_Name m) (set_workload obj m c)))) in
  match obj with
  | Deployment m t => template m ProxyDeploymentLabel t
  | ReplicationController m (Some t) => template m ProxyReplicationControllerLabel t
  | ReplicationController _ None => Panic
  | ReplicaSet m t => template m ProxyReplicaSetLabel t
  | Job m t => template m ProxyJobLabel t
  | DaemonSet m t => template m ProxyDaemonSetLabel t
  | StatefulSet m t => template m ProxyStatefulSetLabel t
  | CronJob m t => template m ProxyCronJobLabel t
  | NamespaceObj m | ServiceObj m _ => Ok (set_workload obj (withAnnotations m) c)
  | PodObj m spec =>
      let c := set_workload obj (wl_Meta c) c in
      let* r := match conf_ownerRetriever c with
                | None => Ok (m, c)
                | Some f =>
                    let* r := f m in
                    let '(m, (kind, name)) := r in
                    let c := set_ownerRef (kind, name) c in
                    Ok (m, match ownerLabel kind with Some label => add_label label name c | None => c end)
                end in
      let '(m, c) := r in
      Ok (set_pod (withAnnotations m) spec (add_label WorkloadNamespaceLabel (om_Namespace m) c))
  | Unsupported _ => Err "unsupported type"
  end.

(** * The report *)
Definition hostNetworkEnabled : string := "host_network_enabled".
Definition sidecarExists : string := "sidecar_already_exists".
Definition unsupportedResource : string := "unsupported_resource".
Definition injectEnableAnnotationAbsent : string := "injection_enable_annotation_absent".
Definition injectDisableAnnotationPresent : string := "injection_disable_annotation_present".
Definition invalidInjectAnnotationWorkload : string := "invalid_inject_annotation_at_workload".
Definition invalidInjectAnnotationNamespace : string := "invalid_inject_annotation_at_ns".
Definition disabledAutomountServiceAccountToken : string := "disabled_automount_service_account_token_account".

Record Report := mkReport {
  rp_Kind : string; rp_Name : string; rp_HostNetwork : bool; rp_Sidecar : bool; rp_UDP : bool;
  rp_UnsupportedResource : bool; rp_InjectDisabled : bool; rp_InjectDisabledReason : string;
  rp_InjectAnnotationAt : string; rp_Annotatable : bool; rp_AutomountServiceAccountToken : bool;
  rp_UninjectedProxy : bool; rp_UninjectedProxyInit : bool }.

Definition HasExistingSidecars (podSpec : PodSpec) : bool :=
  existsb (λ c, strings.HasPrefix (ct_Image c) "cr.l5d.io/linkerd/proxy:"
                || strings.HasPrefix (ct_Image c) "gcr.io/istio-release/proxyv2:"
                || bool_decide (ct_Name c = ProxyContainerName) || bool_decide (ct_Name c = "istio-proxy"))
    (ps_InitContainers podSpec ++ ps_Containers podSpec)
  || existsb (λ ic, strings.HasPrefix (ct_Image ic) "cr.l5d.io/linkerd/proxy-init:"
                    || strings.HasPrefix (ct_Image ic) "gcr.io/istio-release/proxy_init:"
                    || bool_decide (ct_Name ic = "linkerd-init") || bool_decide (ct_Name ic = "istio-init"))
       (ps_InitContainers podSpec).

Definition checkUDPPorts (t : PodSpec) : bool :=
  existsb (λ c, existsb (λ p, bool_decide (p.2 = "UDP")) (ct_Ports c)) (ps_Containers t).

Definition isInjectAnnotationValid (annotation : string) : bool :=
  negb (bool_decide (annotation ≠ "" ∧ ¬ (annotation = "enabled" ∨ annotation = "disabled" ∨ annotation = "ingress"))).

Definition disabledByAnnotation (c : ResourceConfig) : bool * string * string :=
  let podAnnotation := get (anns (cp_meta c)) ProxyInjectAnnotation in
  let nsAnnotation := get (conf_nsAnnotations c) ProxyInjectAnnotation in
  if bool_decide (conf_origin c = OriginCLI) then (bool_decide (podAnnotation = "disabled"), "", "")
  else if negb (isInjectAnnotationValid nsAnnotation) then (true, invalidInjectAnnotationNamespace, "")
  else if negb (isInjectAnnotationValid podAnnotation) then (true, invalidInjectAnnotationWorkload, "")
  else if bool_decide (nsAnnotation = "enabled" ∨ nsAnnotation = "ingress") then
    if bool_decide (podAnnotation = "disabled") then (true, injectDisableAnnotationPresent, "workload")
    else (false, "", "namespace")
  else if bool_decide (podAnnotation ≠ "enabled" ∧ podAnnotation ≠ "ingress") then (true, injectEnableAnnotationAbsent, "")
  else (false, "", "workload").

(** The service account mount of the first container. *)
Definition serviceAccountVolumeMount (spec : PodSpec) : option VolumeMountPath :=
  match ps_Containers spec with
  | [] => None
  | c :: _ => snd <$> list_find (λ vm, vm_MountPath vm = MountPathServiceAccount) (ct_VolumeMounts c)
  end.

Definition newReport (c : ResourceConfig) : Report :=
  let name := if IsPod c then (if bool_decide (om_Name (cp_meta c) = "") then om_GenerateName (cp_meta c) else om_Name (cp_meta c))
              else om_Name (wl_Meta c) in
  let kind := strings.ToLower (wl_Kind c) in
  let annotatable := HasPodTemplate c || IsService c || IsNamespace c in
  match cp_spec c with
  | None => mkReport kind name false false false true false "" "" annotatable true false false
  | Some spec =>
      let '(disabled, reason, at_) := disabledByAnnotation c in
      let projected := match conf_values c with Some v => v_ServiceAccountTokenProjection v | None => true end in
      let automount := match ps_AutomountServiceAccountToken spec with
                       | Some b => if projected then true else b
                       | None => true
                       end in
      let automount := if bool_decide (conf_origin c = OriginWebhook) && negb projected
                          && bool_decide (serviceAccountVolumeMount spec = None) then false else automount in
      mkReport kind name (ps_HostNetwork spec) (HasExistingSidecars spec) (checkUDPPorts spec) false disabled reason at_
        annotatable automount false false
  end.

Definition Injectable (r : Report) : bool * list string :=
  let reasons :=
    (if rp_HostNetwork r then [hostNetworkEnabled] else []) ++ (if rp_Sidecar r then [sidecarExists] else [])
    ++ (if rp_UnsupportedResource r then [unsupportedResource] else [])
    ++ (if rp_InjectDisabled r then [rp_InjectDisabledReason r] else [])
    ++ (if rp_AutomountServiceAccountToken r then [] else [disabledAutomountServiceAccountToken]) in
  (bool_decide (reasons = []), reasons).

(** [ThrowInjectError] of the command line: the reasons, by their keys. *)
Definition ThrowInjectError (r : Report) : list string :=
  (if rp_AutomountServiceAccountToken r then [] else [disabledAutomountServiceAccountToken])
  ++ (if rp_HostNetwork r then [hostNetworkEnabled] else []) ++ (if rp_Sidecar r then [sidecarExists] else [])
  ++ (if rp_UDP r then ["udp_ports_enabled"] else []).

(** [FromObject]; [ParseMetaAndYAML] with the object the YAML stands for, whose kind is stored
    first.  Of other kinds only the metadata is read. *)
Definition FromObject (obj : workloadObj) (c : ResourceConfig) : res (ResourceConfig * Report) :=
  let* c := populateMeta obj c in Ok (c, newReport c).
Definition parse (kind : string) (obj : workloadObj) (c : ResourceConfig) : res ResourceConfig :=
  let c := WithKind kind c in
  match obj with
  | Unsupported m => Ok (mkConf (conf_values c) (conf_namespace c) (conf_nsAnnotations c) (conf_ownerRetriever c)
                           (conf_origin c) (wl_obj c) (wl_Kind c) m (wl_ownerRef c) (cp_meta c) (cp_labels c)
                           (cp_annotations c) (cp_spec c))
  | _ => populateMeta obj c
  end.
Definition ParseMetaAndYAML (kind : string) (obj : workloadObj) (c : ResourceConfig) : res (ResourceConfig * Report) :=
  let* c := parse kind obj c in Ok (c, newReport c).

(** * Patches *)
Record podPatch := mkPodPatch {
  pp_values : Values; pp_proxy : bool  (* whether Proxy and ProxyInit are kept *); pp_PathPrefix : string;
  pp_AddRootMetadata : bool; pp_AddRootAnnotations : bool; pp_Annotations : strmap;
  pp_AddRootLabels : bool; pp_AddRootInitContainers : bool; pp_AddRootVolumes : bool; pp_Labels : strmap;
  pp_DebugContainer : option Image }.

Definition getAnnotationOverrides (c : ResourceConfig) : strmap :=
  if bool_decide (conf_origin c = OriginCLI) then anns (cp_meta c) else cp_annotations c ∪ anns (cp_meta c).

Definition getProbePort (probe : Probe) : option Z :=
  match probe_HTTPGet probe with Some (FromInt p) => Some p | _ => None end.

(** [sort.Strings]: the order of bytes. *)
Fixpoint string_le (s t : string) : bool :=
  match s, t with
  | EmptyString, _ => true
  | String _ _, EmptyString => false
  | String a s, String b t =>
      if (N_of_ascii a <? N_of_ascii b)%N then true
      else if Ascii.eqb a b then string_le s t else false
  end.
Fixpoint insert_string (s : string) (l : list string) : list string :=
  match l with
  | [] => [s]
  | t :: l => if string_le s t then s :: t :: l else t :: insert_string s l
  end.
Definition sortStrings (l : list string) : list string := foldr insert_string [] l.

Definition inboundPorts (spec : PodSpec) : gset Z :=
  list_to_set (ps_Containers spec ≫= λ c,
    (cp_ContainerPort ∘ fst <$> ct_Ports c)
    ++ option_list (ct_ReadinessProbe c ≫= getProbePort) ++ option_list (ct_LivenessProbe c ≫= getProbePort)).
Definition getPodInboundPorts (podSpec : option PodSpec) : string :=
  strings.Join (sortStrings (strconv.Itoa <$> elements (default ∅ (inboundPorts <$> podSpec)))) ",".

(** [net.ParseCIDR], as far as it fails or not. *)
Definition ParseCIDR (s : string) : bool :=
  match cut_first s "/" with
  | None => false
  | Some (addr, mask) =>
      if strings.Contains addr "%" then false else
      match netip.ParseAddr addr, strconv.digits mask with
      | Some a, Some n => bool_decide (Z.of_N n ≤ if netip.Is4 a then 32 else 128)
      | _, _ => false
      end
  end.
(** [strings.Trim(s, ",")]. *)
Fixpoint trimLeftCommas (s : string) : string :=
  match s with String "," s => trimLeftCommas s | _ => s end.
Fixpoint trimRightCommas (s : string) : string :=
  match s with
  | EmptyString => EmptyString
  | String a s' => match trimRightCommas s' with
                   | EmptyString => if Ascii.eqb a "," then EmptyString else String a EmptyString
                   | t => String a t
                   end
  end.
Definition networksOk (ClusterNetworks : string) : bool :=
  bool_decide (ClusterNetworks = "")
  || forallb ParseCIDR (strings.Split (trimRightCommas (trimLeftCommas ClusterNetworks)) ",").

Section patches.
Context `{!Parsers} (yaml_copy : Values → option Values) (sha256 : string → string).

(** [DeepCopy] writes the values as YAML and reads them back. *)
Definition GetOverriddenValues (values : Values) (overrides : strmap) (namedPorts : gmap string Z) : option Values :=
  copyValues ← yaml_copy values; Some (applyAnnotationOverrides namedPorts copyValues overrides).

Definition coreContainer (c : Ctr) : Container := mkContainer (ct_Name c) (fst <$> ct_Ports c) [].

Definition injectPodAnnotations (c : ResourceConfig) (p : podPatch) : ResourceConfig * podPatch :=
  let emptyMeta := mkMeta "" "" "" None (Some ∅) None in
  (set_cp_meta (set_Annotations (Some (cp_annotations c ∪ anns (cp_meta c))) (cp_meta c)) c,
   mkPodPatch (pp_values p) (pp_proxy p) (pp_PathPrefix p) (bool_decide (cp_meta c = emptyMeta))
     (bool_decide (anns (cp_meta c) = ∅)) (cp_annotations c ∪ pp_Annotations p) (pp_AddRootLabels p)
     (pp_AddRootInitContainers p) (pp_AddRootVolumes p) (pp_Labels p) (pp_DebugContainer p)).

Definition injectObjectMeta (c : ResourceConfig) (p : podPatch) : podPatch :=
  let v := pp_values p in
  let version := if bool_decide (img_Version (px_Image (v_Proxy v)) = "") then v_LinkerdVersion v
                 else img_Version (px_Image (v_Proxy v)) in
  mkPodPatch v (pp_proxy p) (pp_PathPrefix p) (pp_AddRootMetadata p) (pp_AddRootAnnotations p)
    (<[ProxyTrustRootSHA := sha256 (v_IdentityTrustAnchorsPEM v)]> (<[ProxyVersionAnnotation := version]> (pp_Annotations p)))
    (if bool_decide (cp_labels c = ∅) then pp_AddRootLabels p else bool_decide (lbls (cp_meta c) = ∅))
    (pp_AddRootInitContainers p) (pp_AddRootVolumes p) (cp_labels c ∪ pp_Labels p) (pp_DebugContainer p).

(** The capabilities of the init container: it needs NET_RAW and NET_ADMIN. *)
Definition initCapabilities (cap : Capabilities) : Capabilities :=
  mkCapabilities (cap_Add cap) (filter (λ d, d ≠ "NET_RAW" ∧ d ≠ "NET_ADMIN") (cap_Drop cap)).

Definition injectProxyInit (c : ResourceConfig) (spec : PodSpec) (p : podPatch) : podPatch :=
  let v := pp_values p in
  let init := v_ProxyInit v in
  let init := match px_Capabilities (v_Proxy v) with
              | Some cap => set_pi_Capabilities (Some (initCapabilities cap)) init
              | None => init
              end in
  let init := set_pi_SAMountPath (px_SAMountPath (v_Proxy v)) init in
  let closeWait := get (anns (cp_meta c)) CloseWaitTimeoutAnnotation in
  let init := if bool_decide (closeWait = "") then init
              else match ParseDuration closeWait with
                   | Some d => set_pi_CloseWaitTimeoutSecs (wholeSeconds d) init
                   | None => init
                   end in
  mkPodPatch (set_v_ProxyInit init v) (pp_proxy p) (pp_PathPrefix p) (pp_AddRootMetadata p) (pp_AddRootAnnotations p)
    (pp_Annotations p) (pp_AddRootLabels p) (bool_decide (ps_InitContainers spec = [])) (pp_AddRootVolumes p)
    (pp_Labels p) (pp_DebugContainer p).

Definition injectPodSpec (c : ResourceConfig) (values : Values) (spec : PodSpec) (p : podPatch) : podPatch :=
  let proxy := v_Proxy (pp_values p) in
  let proxy := match ps_Containers spec with
               | ct :: _ => match ct_SecurityContext ct with
                            | Some (Some cap) => set_px_Capabilities (Some cap) proxy
                            | _ => proxy
                            end
               | [] => proxy
               end in
  let proxy := match serviceAccountVolumeMount spec with
               | Some vm => set_px_SAMountPath (Some vm) proxy
               | None => proxy
               end in
  let v := get (anns (cp_meta c)) ProxyEnableDebugAnnotation in
  let debug := if bool_decide (v = "") then false else default false (ParseBool v) in
  let p := mkPodPatch (set_v_Proxy proxy (pp_values p)) (pp_proxy p) (pp_PathPrefix p) (pp_AddRootMetadata p)
    (pp_AddRootAnnotations p) (pp_Annotations p) (pp_AddRootLabels p) (pp_AddRootInitContainers p) (pp_AddRootVolumes p)
    (pp_Labels p) (if debug then Some (v_DebugImage values) else pp_DebugContainer p) in
  let p := injectProxyInit c spec p in
  mkPodPatch (pp_values p) (pp_proxy p) (pp_PathPrefix p) (pp_AddRootMetadata p) (pp_AddRootAnnotations p) (pp_Annotations p)
    (pp_AddRootLabels p) (pp_AddRootInitContainers p) (bool_decide (ps_Volumes spec = [])) (pp_Labels p) (pp_DebugContainer p).

Definition pathPrefix (kind : string) : string :=
  if bool_decide (strings.ToLower kind = "pod") then ""
  else if bool_decide (strings.ToLower kind = "cronjob") then "/spec/jobTemplate/spec/template"
  else "/spec/template".

(** [GetPodPatch], up to rendering: the patch, and the configuration, whose metadata has the
    added annotations now. *)
Definition GetPodPatch (injectProxy : bool) (c : ResourceConfig) : res (ResourceConfig * podPatch) :=
  match conf_values c with
  | None => Panic
  | Some values0 =>
      let namedPorts := match cp_spec c with Some spec => GetNamedPorts (coreContainer <$> ps_Containers spec) | None => ∅ end in
      match GetOverriddenValues values0 (getAnnotationOverrides c) namedPorts with
      | None => Panic  (* values.Proxy of nil values, before the error is looked at *)
      | Some values =>
          let values := on_Proxy (set_px_PodInboundPorts (getPodInboundPorts (cp_spec c))) values in
          if negb (networksOk (v_ClusterNetworks values)) then Err "cannot parse destination get networks" else
          let p := mkPodPatch values true (pathPrefix (wl_Kind c)) false false ∅ false false false ∅ None in
          match cp_spec c with
          | None => Ok (c, p)
          | Some spec =>
              let '(c, p) := injectPodAnnotations c p in
              if injectProxy then Ok (c, injectPodSpec c values0 spec (injectObjectMeta c p))
              else Ok (c, mkPodPatch (pp_values p) false (pp_PathPrefix p) (pp_AddRootMetadata p) (pp_AddRootAnnotations p)
                            (pp_Annotations p) (pp_AddRootLabels p) (pp_AddRootInitContainers p) (pp_AddRootVolumes p)
                            (pp_Labels p) (pp_DebugContainer p))
          end
      end
  end.

(** ** Opaque ports *)
Definition FilterPodOpaquePorts (defaultPorts : list string) (c : ResourceConfig) : res (list string) :=
  match cp_spec c with
  | None => Panic
  | Some spec =>
      Ok (filter (λ port, ContainsString port defaultPorts = true)
            (ps_Containers spec ≫= λ ct, (strconv.Itoa ∘ cp_ContainerPort ∘ fst <$> ct_Ports ct)))
  end.

(** The annotation patch: whether the annotations must be added first, and the ports. *)
Definition CreateAnnotationPatch (opaquePorts : string) (c : ResourceConfig) : bool * string :=
  (bool_decide ((if IsPod c then anns (cp_meta c) else anns (wl_Meta c)) = ∅), opaquePorts).

Definition servicePortOpaque (defaultPorts : list string) (p : SvcPort) : bool :=
  match svp_TargetPort p with
  | FromInt n => if bool_decide (n = 0) then ContainsString (strconv.Itoa (svp_Port p)) defaultPorts
                 else ContainsString (strconv.Itoa n) defaultPorts
  | FromString _ => ContainsString (strconv.Itoa 0) defaultPorts
  end.

Definition CreateOpaquePortsPatch (c : ResourceConfig) : res (option (bool * string)) :=
  if HasWorkloadAnnotation ProxyOpaquePortsAnnotation c then Ok None else
  match GetConfigOverride ProxyOpaquePortsAnnotation (GetWorkloadAnnotations c) (conf_nsAnnotations c) with
  | Some opaquePorts => Ok (Some (CreateAnnotationPatch opaquePorts c))
  | None =>
      match conf_values c with
      | None => Panic
      | Some values =>
          let defaultPorts := strings.Split (px_OpaquePorts (v_Proxy values)) "," in
          let* filteredPorts :=
            if IsPod c then FilterPodOpaquePorts defaultPorts c
            else if IsService c then
              match wl_obj c with
              | Some (ServiceObj _ ports) =>
                  Ok (strconv.Itoa ∘ svp_Port <$> filter (λ p, servicePortOpaque defaultPorts p = true) ports)
              | _ => Panic
              end
            else Ok [] in
          match filteredPorts with
          | [] => Ok None
          | _ => Ok (Some (CreateAnnotationPatch (strings.Join filteredPorts ",") c))
          end
      end
  end.

(** ** The webhook *)
Inductive response := PodPatched (c : ResourceConfig) (p : podPatch) | AnnotationPatched (addRoot : bool) (ports : string) | Unpatched.

(** The annotations the webhook adds to a pod it injects. *)
Definition appendAnnotations (version : string) (values : Values) (c : ResourceConfig) : res ResourceConfig :=
  let c := AppendPodAnnotation CreatedByAnnotation ("linkerd/proxy-injector " +:+ version) c in
  let c := set_cp_annotations
             (AppendNamespaceAnnotations (cp_annotations c) (conf_nsAnnotations c) (GetWorkloadAnnotations c)) c in
  if HasWorkloadAnnotation ProxyOpaquePortsAnnotation c then Ok c else
  let* filteredPorts := FilterPodOpaquePorts (strings.Split (px_OpaquePorts (v_Proxy values)) ",") c in
  match filteredPorts with
  | [] => Ok c
  | _ => Ok (AppendPodAnnotation ProxyOpaquePortsAnnotation (strings.Join filteredPorts ",") c)
  end.

(** The answer to an admission request for an object of a kind; every request is allowed. *)
Definition webhookInject (linkerdNamespace version : string) (values : Values) (nsAnnotations : strmap)
    (ownerRetriever : OwnerRetrieverFunc) (kind : string) (obj : workloadObj) : res response :=
  let c := WithKind kind (WithNsAnnotations nsAnnotations
             (WithOwnerRetriever ownerRetriever (NewResourceConfig (Some values) OriginWebhook linkerdNamespace))) in
  let* r := ParseMetaAndYAML kind obj c in
  let '(c, report) := r in
  if (Injectable report).1 then
    let* c := appendAnnotations version values c in
    let* r := GetPodPatch true c in Ok (PodPatched r.1 r.2)
  else
    let* patch := CreateOpaquePortsPatch c in
    match patch with
    | Some (addRoot, ports) => Ok (AnnotationPatched addRoot ports)
    | None => Ok Unpatched
    end.
End patches.

(** * The rendered patch *)
(** The operations of the template; every path begins with the path prefix. *)
Inductive patchOp :=
  | AddMetadata | AddAnnotations | AddAnnotation (k v : string) | AddLabels | AddLabel (k v : string)
  | AddVolumes | AddVolume (v : Volume) | AddInitContainers
  | AddInitContainer (at_ : option nat) (c : Ctr)  (* [None] is the end of the list *)
  | AddContainer (at_ : option nat) (c : Ctr).

(** The containers of the partial templates, of which only the names matter here. *)
Class Partials := {
  partial_proxy_init : Values → Ctr; partial_network_validator : Values → Ctr;
  partial_debug : Image → Ctr; partial_proxy : Values → Ctr;
  proxy_init_name v : ct_Name (partial_proxy_init v) = InitContainerName;
  network_validator_name v : ct_Name (partial_network_validator v) = "linkerd-network-validator";
  debug_name i : ct_Name (partial_debug i) = "linkerd-debug";
  proxy_name v : ct_Name (partial_proxy v) = ProxyContainerName }.

Definition xtablesVolume : Volume := mkVolume InitXtablesLockVolumeMountName "emptyDir".
Definition identityVolume : Volume := mkVolume IdentityEndEntityVolumeName "emptyDir: Memory".
Definition tokenVolume : Volume := mkVolume LinkerdTokenVolumeMountName "projected".

Section render.
Context `{!Partials} `{!MapRange}.

Definition onlyIf (b : bool) (l : list patchOp) : list patchOp := if b then l else [].

Definition render (p : podPatch) : list patchOp :=
  let v := pp_values p in
  let native := pp_proxy p && px_NativeSidecar (v_Proxy v) in
  let initIndex := if native then Some 0%nat else None in
  onlyIf (pp_AddRootMetadata p) [AddMetadata]
  ++ onlyIf (pp_AddRootAnnotations p) [AddAnnotations]
  ++ ((λ e, AddAnnotation e.1 e.2) <$> range (pp_Annotations p))
  ++ onlyIf (pp_AddRootLabels p) [AddLabels]
  ++ ((λ e, AddLabel e.1 e.2) <$> range (pp_Labels p))
  ++ onlyIf (pp_proxy p && pp_AddRootVolumes p) [AddVolumes]
  ++ onlyIf (pp_AddRootInitContainers p) [AddInitContainers]
  ++ onlyIf (pp_proxy p) (if v_CNIEnabled v then [AddInitContainer initIndex (partial_network_validator v)]
                          else [AddVolume xtablesVolume; AddInitContainer initIndex (partial_proxy_init v)])
  ++ match pp_DebugContainer p with Some i => [AddContainer None (partial_debug i)] | None => [] end
  ++ onlyIf (pp_proxy p)
       ([AddVolume identityVolume] ++ onlyIf (v_ServiceAccountTokenProjection v) [AddVolume tokenVolume]
        ++ [if px_NativeSidecar (v_Proxy v) then AddInitContainer (Some 1%nat) (partial_proxy v)
            else if px_Await (v_Proxy v) then AddContainer (Some 0%nat) (partial_proxy v)
            else AddContainer None (partial_proxy v)]).
End render.

(** * Applying a patch *)
(** The document of a pod (or of the template in another workload): what is absent is [None]. *)
Record docMeta := mkDocMeta { dm_annotations : option strmap; dm_labels : option strmap; dm_rest : string * string * string * option string }.
Record doc := mkDoc {
  d_metadata : option docMeta; d_volumes : option (list Volume); d_initContainers : option (list Ctr);
  d_containers : list Ctr; d_hostNetwork : bool; d_automount : option bool }.

(** Inserting at an index, which must be within the list or just behind it (RFC 6902). *)
Definition insertAt {A} (at_ : option nat) (x : A) (l : list A) : option (list A) :=
  match at_ with
  | None => Some (l ++ [x])
  | Some i => if bool_decide (i ≤ length l)%nat then Some (take i l ++ x :: drop i l) else None
  end.

Definition on_meta (f : docMeta → option docMeta) (d : doc) : option doc :=
  m ← d_metadata d; m ← f m;
  Some (mkDoc (Some m) (d_volumes d) (d_initContainers d) (d_containers d) (d_hostNetwork d) (d_automount d)).

Definition applyOp (d : doc) (op : patchOp) : option doc :=
  match op with
  | AddMetadata => Some (mkDoc (Some (mkDocMeta None None ("", "", "", None))) (d_volumes d) (d_initContainers d)
                           (d_containers d) (d_hostNetwork d) (d_automount d))
  | AddAnnotations => on_meta (λ m, Some (mkDocMeta (Some ∅) (dm_labels m) (dm_rest m))) d
  | AddAnnotation k v =>
      on_meta (λ m, a ← dm_annotations m; Some (mkDocMeta (Some (<[k := v]> a)) (dm_labels m) (dm_rest m))) d
  | AddLabels => on_meta (λ m, Some (mkDocMeta (dm_annotations m) (Some ∅) (dm_rest m))) d
  | AddLabel k v =>
      on_meta (λ m, l ← dm_labels m; Some (mkDocMeta (dm_annotations m) (Some (<[k := v]> l)) (dm_rest m))) d
  | AddVolumes => Some (mkDoc (d_metadata d) (Some []) (d_initContainers d) (d_containers d) (d_hostNetwork d) (d_automount d))
  | AddVolume v =>
      vs ← d_volumes d;
      Some (mkDoc (d_metadata d) (Some (vs ++ [v])) (d_initContainers d) (d_containers d) (d_hostNetwork d) (d_automount d))
  | AddInitContainers =>
      Some (mkDoc (d_metadata d) (d_volumes d) (Some []) (d_containers d) (d_hostNetwork d) (d_automount d))
  | AddInitContainer i c =>
      cs ← d_initContainers d; cs ← insertAt i c cs;
      Some (mkDoc (d_metadata d) (d_volumes d) (Some cs) (d_containers d) (d_hostNetwork d) (d_automount d))
  | AddContainer i c =>
      cs ← insertAt i c (d_containers d);
      Some (mkDoc (d_metadata d) (d_volumes d) (d_initContainers d) cs (d_hostNetwork d) (d_automount d))
  end.
Fixpoint applyPatch (ops : list patchOp) (d : doc) : option doc :=
  match ops with [] => Some d | op :: ops => d ← applyOp d op; applyPatch ops d end.

(** Reading a document into Go values. *)
Definition metaOf (d : doc) : ObjectMeta :=
  match d_metadata d with
  | None => emptyObjectMeta
  | Some m => let '(name, generateName, ns, rest) := dm_rest m in
              mkMeta name generateName ns (dm_labels m) (dm_annotations m) rest
  end.
Definition specOf (d : doc) : PodSpec :=
  mkPodSpec (d_hostNetwork d) (d_automount d) (default [] (d_initContainers d)) (d_containers d) (default [] (d_volumes d)).

(** * Uninjection *)
Definition isLinkerd (key : string) : bool := strings.HasPrefix key Prefix.

Definition uninjectObjectMeta (t : ObjectMeta) : ObjectMeta * bool :=
  if bool_decide (is_Some (lbls t !! ControllerComponentLabel)) then (t, false) else
  let keep (e : string * string) : Prop :=
    isLinkerd e.1 = false ∨ (e.1 = ProxyInjectAnnotation ∧ e.2 = "disabled") in
  (set_Labels (Some (filter (λ e, isLinkerd e.1 = false) (lbls t)))
     (set_Annotations (Some (filter (λ e, keep e) (anns t))) t),
   bool_decide (¬ map_Forall (λ k v, keep (k, v)) (anns t))).

Definition uninjectPodSpec (t : PodSpec) : PodSpec * (bool * bool) :=
  (mkPodSpec (ps_HostNetwork t) (ps_AutomountServiceAccountToken t)
     (filter (λ c, ct_Name c ≠ InitContainerName ∧ ct_Name c ≠ ProxyContainerName) (ps_InitContainers t))
     (filter (λ c, ct_Name c ≠ ProxyContainerName) (ps_Containers t))
     (filter (λ v, vol_Name v ≠ IdentityEndEntityVolumeName ∧ vol_Name v ≠ InitXtablesLockVolumeMountName
                   ∧ vol_Name v ≠ LinkerdTokenVolumeMountName) (ps_Volumes t)),
   (bool_decide (Exists (λ c, ct_Name c = ProxyContainerName) (ps_InitContainers t ++ ps_Containers t)),
    bool_decide (Exists (λ c, ct_Name c = InitContainerName) (ps_InitContainers t)))).

(** The metadata of the workload and of its pods and the spec of the pods afterwards, and
    whether proxy and init container were removed. *)
Definition Uninject (c : ResourceConfig) (report : Report) : option (ResourceConfig * (bool * bool)) :=
  let uninjected := (rp_UninjectedProxy report, rp_UninjectedProxyInit report) in
  if IsNamespace c || IsService c then
    let '(m, b) := uninjectObjectMeta (wl_Meta c) in
    Some (mkConf (conf_values c) (conf_namespace c) (conf_nsAnnotations c) (conf_ownerRetriever c) (conf_origin c)
            (wl_obj c) (wl_Kind c) m (wl_ownerRef c) (cp_meta c) (cp_labels c) (cp_annotations c) (cp_spec c),
          (uninjected.1 || b, uninjected.2))
  else
    match cp_spec c with
    | None => None
    | Some spec =>
        let '(spec, (proxy, init)) := uninjectPodSpec spec in
        let '(wm, b1) := uninjectObjectMeta (wl_Meta c) in
        let '(pm, b2) := uninjectObjectMeta (cp_meta c) in
        Some (mkConf (conf_values c) (conf_namespace c) (conf_nsAnnotations c) (conf_ownerRetriever c) (conf_origin c)
                (wl_obj c) (wl_Kind c) wm (wl_ownerRef c) pm (cp_labels c) (cp_annotations c) (Some spec),
              (uninjected.1 || proxy || b1 || b2, uninjected.2 || init))
    end.
