(* ===== verification/InjectProps.v ===== *)
(** Theorems on proxy injection: when the webhook injects, which values it injects, that its
    patch always applies and what it makes of the pod, and that uninjection takes it back. *)
From S2P Require Import Prelude GoStd K8s PortRange InjectData InjectValues Inject.

#[local] Open Scope string_scope.
#[local] Open Scope list_scope.
#[local] Open Scope Z_scope.

(** * Overrides *)
Lemma AppendNamespaceAnnotations_lookup base nsAnn workloadAnn k :
  AppendNamespaceAnnotations base nsAnn workloadAnn !! k
  = if bool_decide (k ∈ inheritable ∧ workloadAnn !! k = None ∧ is_Some (nsAnn !! k)) then nsAnn !! k else base !! k.
Proof.
  unfold AppendNamespaceAnnotations, GetConfigOverride. generalize inheritable as l. intros l. revert base.
  induction l as [|key l IH] using rev_ind; intros base.
  { cbn [foldl]. rewrite bool_decide_false; [done|]. intros [Hin _]. by apply elem_of_nil in Hin. }
  rewrite foldl_app. cbn [foldl]. specialize (IH base). destruct (decide (k = key)) as [->|Hne].
  - destruct (nsAnn !! key) as [v|] eqn:Hns.
    + destruct (workloadAnn !! key) eqn:Hw.
      * rewrite IH, !bool_decide_false; [done|naive_solver..].
      * rewrite lookup_insert_eq, bool_decide_true; [done|]. split_and!; [set_solver|done|by eexists].
    + rewrite IH, !bool_decide_false; [done|..]; intros (_ & _ & [? ?]); congruence.
  - assert (bool_decide (k ∈ l ++ [key] ∧ workloadAnn !! k = None ∧ is_Some (nsAnn !! k))
      = bool_decide (k ∈ l ∧ workloadAnn !! k = None ∧ is_Some (nsAnn !! k))) as ->.
    { apply bool_decide_ext. rewrite elem_of_app, list_elem_of_singleton. naive_solver. }
    rewrite <-IH. destruct (nsAnn !! key) eqn:Hns; [|done].
    destruct (workloadAnn !! key); [done|]. by rewrite lookup_insert_ne.
Qed.

(** ** Types *)
Definition int32 (z : Z) : Prop := - 2^31 ≤ z < 2^31.
Definition int64 (z : Z) : Prop := - 2^63 ≤ z < 2^63.
Definition uint64 (z : Z) : Prop := 0 ≤ z < 2^64.

(** Values as the proxy's containers can be made of: integers of their width, a policy the
    proxy knows, and opaque ports that are ranges of ports in decimal. *)
Record values_typed (v : Values) : Prop := {
  vt_ports : let p := px_Ports (v_Proxy v) in int32 (pt_Admin p) ∧ int32 (pt_Control p) ∧ int32 (pt_Inbound p) ∧ int32 (pt_Outbound p);
  vt_ids : int64 (px_UID (v_Proxy v)) ∧ int64 (px_GID (v_Proxy v));
  vt_wait : uint64 (px_WaitBeforeExitSeconds (v_Proxy v));
  vt_policy : px_DefaultInboundPolicy (v_Proxy v) ∈ inboundPolicies;
  vt_opaque : ∃ prs, px_OpaquePorts (v_Proxy v) = strings.Join (ToString <$> prs) "," }.

Lemma ParseInt_range s b n : 0 < b → strconv.ParseInt s b = Some n → - 2^(b-1) ≤ n < 2^(b-1).
Proof.
  intros Hb. unfold strconv.ParseInt. destruct (strconv.signed s) as [z|]; simpl; [|done].
  case_bool_decide; [|done]. intros [= <-]. done.
Qed.

Section typed.
Context `{!Parsers} (namedPorts : gmap string Z).

Lemma ParseUint_range s b n : strconv.ParseUint s b = Some n → 0 ≤ n < 2^b.
Proof.
  unfold strconv.ParseUint. destruct (strconv.digits s) as [z|]; simpl; [|done].
  case_bool_decide; [|done]. intros [= <-]. lia.
Qed.

(** Every rule keeps the types: what does not parse is not assigned. *)
Ltac rule_typed :=
  intros o v [(Ha & Hc & Hi & Ho) [Hu Hg] Hw Hd Hop];
  unfold port, flag, switch, timeoutMillis, timeoutSeconds, quantity, id64, cpuLimit, parsed;
  repeat match goal with |- context [match ?x with _ => _ end] => destruct x eqn:? end;
  repeat match goal with
    | H : strconv.ParseInt _ _ = Some _ |- _ => apply ParseInt_range in H; [|done]
    | H : strconv.ParseUint _ _ = Some _ |- _ => apply ParseUint_range in H
    | H : bool_decide _ = true |- _ => apply bool_decide_eq_true in H
    end;
  split; simpl; try done; by eexists.

Lemma rules_typed : Forall (λ rule : string * (string → Values → Values),
  ∀ o v, values_typed v → values_typed (rule.2 o v)) (rules namedPorts).
Proof. unfold rules, proxyRules, resourceRules, otherRules. cbn [app]. repeat (apply Forall_cons; split; [cbn [snd]; rule_typed|]). by apply Forall_nil. Qed.

(** No annotation changes the networks of the cluster. *)
Lemma rules_networks : Forall (λ rule : string * (string → Values → Values),
  ∀ o v, v_ClusterNetworks (rule.2 o v) = v_ClusterNetworks v) (rules namedPorts).
Proof.
  unfold rules, proxyRules, resourceRules, otherRules. cbn [app]. repeat (apply Forall_cons; split; [cbn [snd]; intros o v;
    unfold port, flag, switch, timeoutMillis, timeoutSeconds, quantity, id64, cpuLimit, parsed;
    repeat match goal with |- context [match ?x with _ => _ end] => destruct x end; reflexivity|]).
  by apply Forall_nil.
Qed.
Lemma overrides_networks values annotations :
  v_ClusterNetworks (applyAnnotationOverrides namedPorts values annotations) = v_ClusterNetworks values.
Proof.
  unfold applyAnnotationOverrides. pose proof rules_networks as Hr. revert values.
  induction Hr as [|rule l Hrule _ IH]; intros values; simpl; [done|]. rewrite IH. unfold applyRule.
  destruct (annotations !! rule.1); [by apply Hrule|done].
Qed.

(** C30: Annotations cannot take the values out of their types: whatever annotations a pod or
    its namespace has, the ports stay 32-bit and the IDs 64-bit integers, the time to wait
    an unsigned one, the policy one of the six, and the opaque ports a list of ranges in
    decimal; what an annotation says and does not parse is not assigned. *)
Theorem overrides_typed values annotations :
  values_typed values → values_typed (applyAnnotationOverrides namedPorts values annotations).
Proof.
  unfold applyAnnotationOverrides. pose proof rules_typed as Hr. revert values.
  induction Hr as [|rule l Hrule _ IH]; intros values Hv; simpl; [done|]. apply IH. unfold applyRule.
  destruct (annotations !! rule.1); [by apply Hrule|done].
Qed.
End typed.

(** * A configuration *)
(** The values of a control plane, and parsers of some quantities, for the examples. *)
Definition ex_image (name : string) : Image := mkImage name "IfNotPresent" "".
Definition ex_proxy : Proxy :=
  mkProxy None 0 false (ex_image "cr.l5d.io/linkerd/proxy") false "warn,linkerd=info" "plain" "off" None
    (mkPorts 4191 4190 4143 4140) (mkResources (mkConstraints "" "") (mkConstraints "" "") (mkConstraints "" ""))
    2102 (-1) 0 false false "" "1000ms" "100ms" "5s" "90s" false false "" "25,3306" true "all-unauthenticated" "" "" false.
Definition ex_values : Values :=
  mkValues ex_proxy (mkProxyInit None "4567" "4567" "" (ex_image "cr.l5d.io/linkerd/proxy-init") None 0)
    (ex_image "cr.l5d.io/linkerd/debug") "10.0.0.0/8,fd00::/8" "pem" "edge" false true.
Definition ex_parsers : Parsers := {|
  ParseDuration s := if bool_decide (s = "500ms") then Some 500000000 else None; Quantity := unit;
  ParseQuantity s := if bool_decide (s = "1") then Some tt else None; roundUpAsInt64 _ := Some 1 |}.

Lemma ex_values_typed : values_typed ex_values.
Proof.
  split; simpl; [unfold int32; lia|unfold int64; lia|unfold uint64; lia| |].
  - apply (bool_decide_unpack _). vm_compute. exact I.
  - exists [mkPortRange 25 25; mkPortRange 3306 3306]. reflexivity.
Qed.

Lemma overrides_typed_witness :
  values_typed ex_values
  ∧ values_typed (applyAnnotationOverrides (H := ex_parsers) ∅ ex_values
      {[ProxyControlPortAnnotation := "99999999999"; ProxyOpaquePortsAnnotation := "web,8080-8090"]}).
Proof. split; [exact ex_values_typed|]. apply (overrides_typed (H := ex_parsers)). exact ex_values_typed. Defined.
