(* ===== verification/InjectPatch.v ===== *)
(** The patch of the proxy injector applies to every pod it is made for and adds the proxy as
    documented, and uninjection takes back what it can. *)
From S2P Require Import Prelude GoStd K8s PortRange InjectData InjectValues Inject InjectProps.

#[local] Open Scope string_scope.
#[local] Open Scope list_scope.
#[local] Open Scope Z_scope.

(** * Applying the patch *)
Lemma applyPatch_app ops1 ops2 d : applyPatch (ops1 ++ ops2) d = d' ← applyPatch ops1 d; applyPatch ops2 d'.
Proof.
  revert d. induction ops1 as [|op ops1 IH]; intros d; simpl; [done|].
  destruct (applyOp d op) as [d'|]; simpl; [apply IH|done].
Qed.

(** What the code has read of the document it makes a patch for.  The webhook sets the
    namespace of the request, also if the pod has none. *)
Definition loaded (c : ResourceConfig) (d : doc) : Prop :=
  cp_spec c = Some (specOf d) ∧
  (cp_meta c = withAnnotations (metaOf d)
   ∨ (is_Some (d_metadata d) ∧ ∃ ns, ns ≠ "" ∧ cp_meta c = withAnnotations (set_Namespace ns (metaOf d)))).

Section apply.
Context `{!Partials} `{!MapRange}.

(** The document with the proxy: the init container first and the proxy second among the
    init containers, when the proxy is a native sidecar; otherwise the init container last,
    and the proxy first or last among the containers. *)
Definition injectedDoc (p : podPatch) (d : doc) : doc :=
  let v := pp_values p in
  let init := if v_CNIEnabled v then partial_network_validator v else partial_proxy_init v in
  let debug := match pp_DebugContainer p with Some i => [partial_debug i] | None => [] end in
  let s := specOf d in
  mkDoc
    (Some (mkDocMeta (Some (pp_Annotations p ∪ anns (metaOf d))) (Some (pp_Labels p ∪ lbls (metaOf d)))
       (match d_metadata d with Some m => dm_rest m | None => ("", "", "", None) end)))
    (Some (ps_Volumes s ++ (if v_CNIEnabled v then [] else [xtablesVolume]) ++ [identityVolume]
           ++ (if v_ServiceAccountTokenProjection v then [tokenVolume] else [])))
    (Some (if px_NativeSidecar (v_Proxy v) then [init; partial_proxy v] ++ ps_InitContainers s
           else ps_InitContainers s ++ [init]))
    (if px_NativeSidecar (v_Proxy v) then d_containers d ++ debug
     else if px_Await (v_Proxy v) then partial_proxy v :: d_containers d ++ debug
     else d_containers d ++ debug ++ [partial_proxy v])
    (d_hostNetwork d) (d_automount d).

(** ** Maps, entry by entry *)
Lemma list_to_map_union_range (m a : strmap) : foldl (λ a e, <[e.1 := e.2]> a) a (range m) = m ∪ a.
Proof.
  rewrite <-(list_to_map_to_list m) at 2. rewrite <-(list_to_map_proper _ _ (NoDup_range_keys m) (range_perm m)).
  pose proof (NoDup_range_keys m) as Hnd. revert a Hnd. induction (range m) as [|[k v] l IH]; intros a Hnd; simpl in *.
  { by rewrite (left_id_L ∅ (∪)). }
  apply NoDup_cons in Hnd as [Hk Hnd]. rewrite IH by done.
  rewrite <-insert_union_l, insert_union_r; [done|]. by apply not_elem_of_list_to_map.
Qed.

Lemma apply_annotations (l : list (string * string)) a ls r vs ics cs h am :
  applyPatch ((λ e, AddAnnotation e.1 e.2) <$> l) (mkDoc (Some (mkDocMeta (Some a) ls r)) vs ics cs h am)
  = Some (mkDoc (Some (mkDocMeta (Some (foldl (λ a e, <[e.1 := e.2]> a) a l)) ls r)) vs ics cs h am).
Proof. revert a. induction l as [|e l IH]; intros a; [done|]. apply IH. Qed.
Lemma apply_labels (l : list (string * string)) a ls r vs ics cs h am :
  applyPatch ((λ e, AddLabel e.1 e.2) <$> l) (mkDoc (Some (mkDocMeta a (Some ls) r)) vs ics cs h am)
  = Some (mkDoc (Some (mkDocMeta a (Some (foldl (λ a e, <[e.1 := e.2]> a) ls l)) r)) vs ics cs h am).
Proof. revert ls. induction l as [|e l IH]; intros ls; [done|]. apply IH. Qed.

Lemma apply_root_annotations a ls r vs ics cs h am :
  applyPatch (onlyIf (bool_decide (default ∅ a = ∅)) [AddAnnotations]) (mkDoc (Some (mkDocMeta a ls r)) vs ics cs h am)
  = Some (mkDoc (Some (mkDocMeta (Some (default ∅ a)) ls r)) vs ics cs h am).
Proof. case_bool_decide as Ha; simpl; [by rewrite Ha|]. by destruct a. Qed.
Lemma apply_root_labels a ls r vs ics cs h am :
  applyPatch (onlyIf (bool_decide (default ∅ ls = ∅)) [AddLabels]) (mkDoc (Some (mkDocMeta a ls r)) vs ics cs h am)
  = Some (mkDoc (Some (mkDocMeta a (Some (default ∅ ls)) r)) vs ics cs h am).
Proof. case_bool_decide as Ha; simpl; [by rewrite Ha|]. by destruct ls. Qed.

(** ** The two halves of the patch *)
Definition metaOps (p : podPatch) : list patchOp :=
  onlyIf (pp_AddRootMetadata p) [AddMetadata] ++ onlyIf (pp_AddRootAnnotations p) [AddAnnotations]
  ++ ((λ e, AddAnnotation e.1 e.2) <$> range (pp_Annotations p))
  ++ onlyIf (pp_AddRootLabels p) [AddLabels] ++ ((λ e, AddLabel e.1 e.2) <$> range (pp_Labels p)).

(** Flags under which the operations on the metadata apply: a root is added exactly where
    there is none, or it is empty. *)
Definition rootsOk (p : podPatch) (d : doc) : Prop :=
  (if pp_AddRootMetadata p
   then metaOf d = emptyObjectMeta ∨ metaOf d = withAnnotations emptyObjectMeta else is_Some (d_metadata d))
  ∧ pp_AddRootAnnotations p = bool_decide (anns (metaOf d) = ∅)
  ∧ pp_AddRootLabels p = bool_decide (lbls (metaOf d) = ∅).

Lemma apply_meta p d : rootsOk p d →
  applyPatch (metaOps p) d
  = Some (mkDoc (Some (mkDocMeta (Some (pp_Annotations p ∪ anns (metaOf d))) (Some (pp_Labels p ∪ lbls (metaOf d)))
                   (match d_metadata d with Some m => dm_rest m | None => ("", "", "", None) end)))
            (d_volumes d) (d_initContainers d) (d_containers d) (d_hostNetwork d) (d_automount d)).
Proof.
  intros (Hm & Ha & Hl). unfold metaOps. rewrite applyPatch_app, Ha, Hl. destruct d as [dm vs ics cs h am]. cbn [d_metadata] in *.
  (* after the first operation there is metadata with the same contents *)
  assert (∃ a l r, applyPatch (onlyIf (pp_AddRootMetadata p) [AddMetadata]) (mkDoc dm vs ics cs h am)
      = Some (mkDoc (Some (mkDocMeta a l r)) vs ics cs h am)
    ∧ default ∅ a = anns (metaOf (mkDoc dm vs ics cs h am)) ∧ default ∅ l = lbls (metaOf (mkDoc dm vs ics cs h am))
    ∧ r = match dm with Some m => dm_rest m | None => ("", "", "", None) end) as (a & l & r & -> & <- & <- & <-).
  { destruct (pp_AddRootMetadata p); simpl.
    - do 3 eexists. split; [done|]. destruct dm as [[a l [[[n g] ns] r]]|]; simpl in *; [|done].
      destruct Hm as [[= -> -> -> -> -> ->]|[= -> -> -> -> -> ->]]; done.
    - destruct Hm as [[a l r] ->]. exists a, l, r. split; [done|]. by destruct r as [[[n g] ns] r]. }
  cbn [option_bind mbind]. rewrite applyPatch_app, apply_root_annotations. cbn [option_bind mbind].
  rewrite applyPatch_app, apply_annotations. cbn [option_bind mbind].
  rewrite applyPatch_app, apply_root_labels. cbn [option_bind mbind].
  by rewrite apply_labels, !list_to_map_union_range.
Qed.

Definition specOps (p : podPatch) : list patchOp :=
  let v := pp_values p in
  let initIndex := if px_NativeSidecar (v_Proxy v) then Some 0%nat else None in
  onlyIf (pp_AddRootVolumes p) [AddVolumes] ++ onlyIf (pp_AddRootInitContainers p) [AddInitContainers]
  ++ (if v_CNIEnabled v then [AddInitContainer initIndex (partial_network_validator v)]
      else [AddVolume xtablesVolume; AddInitContainer initIndex (partial_proxy_init v)])
  ++ match pp_DebugContainer p with Some i => [AddContainer None (partial_debug i)] | None => [] end
  ++ [AddVolume identityVolume] ++ onlyIf (v_ServiceAccountTokenProjection v) [AddVolume tokenVolume]
  ++ [if px_NativeSidecar (v_Proxy v) then AddInitContainer (Some 1%nat) (partial_proxy v)
      else if px_Await (v_Proxy v) then AddContainer (Some 0%nat) (partial_proxy v)
      else AddContainer None (partial_proxy v)].

Lemma render_split p : pp_proxy p = true → render p = metaOps p ++ specOps p.
Proof. intros Hp. unfold render, metaOps, specOps. rewrite Hp. cbn [andb onlyIf]. by rewrite <-!(assoc_L (++)). Qed.

Lemma apply_roots p dm vs ics cs h am :
  pp_AddRootVolumes p = bool_decide (default [] vs = []) →
  pp_AddRootInitContainers p = bool_decide (default [] ics = []) →
  applyPatch (onlyIf (pp_AddRootVolumes p) [AddVolumes] ++ onlyIf (pp_AddRootInitContainers p) [AddInitContainers])
    (mkDoc dm vs ics cs h am)
  = Some (mkDoc dm (Some (default [] vs)) (Some (default [] ics)) cs h am).
Proof.
  intros -> ->. rewrite applyPatch_app. destruct vs as [[]|], ics as [[]|]; simpl;
    repeat (first [rewrite bool_decide_true by done|rewrite bool_decide_false by done]; simpl); done.
Qed.

Lemma apply_spec p dm vs ics cs h am :
  pp_AddRootVolumes p = bool_decide (default [] vs = []) →
  pp_AddRootInitContainers p = bool_decide (default [] ics = []) →
  applyPatch (specOps p) (mkDoc dm vs ics cs h am)
  = (let d := injectedDoc p (mkDoc dm vs ics cs h am) in
     Some (mkDoc dm (d_volumes d) (d_initContainers d) (d_containers d) h am)).
Proof.
  intros Hv Hi. unfold specOps. rewrite (assoc_L (++)), applyPatch_app, (apply_roots p) by done.
  unfold injectedDoc, specOf. cbn [option_bind mbind d_volumes d_initContainers d_containers d_hostNetwork d_automount
    ps_Volumes ps_InitContainers]. generalize (default [] vs) (default [] ics). intros vs' ics'.
  destruct (px_NativeSidecar _), (v_CNIEnabled _), (pp_DebugContainer p), (v_ServiceAccountTokenProjection _),
    (px_Await (v_Proxy (pp_values p)));
    cbn -[bool_decide]; repeat (rewrite bool_decide_true by (simpl; lia); cbn -[bool_decide]).
  all: by rewrite ?take_0, ?drop_0, <-?(assoc_L (++)), ?app_nil_r.
Qed.

(** ** The flags of [GetPodPatch] *)
Context `{!Parsers} (yaml_copy : Values → option Values) (sha256 : string → string).

Lemma GetPodPatch_flags c c' p d :
  loaded c d → cp_labels c ≠ ∅ → GetPodPatch yaml_copy sha256 true c = Ok (c', p) →
  pp_proxy p = true ∧ rootsOk p d
  ∧ pp_AddRootVolumes p = bool_decide (default [] (d_volumes d) = [])
  ∧ pp_AddRootInitContainers p = bool_decide (default [] (d_initContainers d) = []).
Proof.
  intros [Hspec Hmeta] Hl. unfold GetPodPatch. destruct (conf_values c) as [values|]; [|done].
  rewrite Hspec. destruct (GetOverriddenValues _ _ _ _); [|done]. destruct (negb _); [done|].
  cbn -[bool_decide]. intros [= <- <-]. split; [done|]. split; [|done]. clear Hspec.
  unfold rootsOk. split_and!; cbn -[bool_decide].
  - destruct Hmeta as [->|(Hm & ns & Hns & ->)]; case_bool_decide as He; [|..|done].
    + destruct (metaOf d) as [n g s l [a|] r]; unfold withAnnotations, set_Annotations, anns in He; simplify_eq/=; auto.
    + destruct (d_metadata d) eqn:Hd; [by eexists|]. exfalso. apply He. unfold metaOf. by rewrite Hd.
    + unfold withAnnotations, set_Annotations, set_Namespace in He. simplify_eq/=.
  - by destruct Hmeta as [->|(Hm & ns & Hns & ->)].
  - rewrite (bool_decide_false (cp_labels c = ∅)) by done. by destruct Hmeta as [->|(Hm & ns & Hns & ->)].
Qed.

Lemma apply_render p d :
  pp_proxy p = true → rootsOk p d → pp_AddRootVolumes p = bool_decide (default [] (d_volumes d) = []) →
  pp_AddRootInitContainers p = bool_decide (default [] (d_initContainers d) = []) →
  applyPatch (render p) d = Some (injectedDoc p d).
Proof.
  intros Hp Hroots Hv Hi. rewrite (render_split _ Hp), applyPatch_app, (apply_meta _ _ Hroots).
  cbn [option_bind mbind]. by rewrite (apply_spec p _ _ _ _ _ _ Hv Hi).
Qed.

Lemma injected_sidecar p d : HasExistingSidecars (specOf (injectedDoc p d)) = true.
Proof.
  unfold HasExistingSidecars. apply orb_true_iff. left. apply existsb_exists. exists (partial_proxy (pp_values p)). split.
  - apply list_elem_of_In. unfold injectedDoc, specOf. cbn.
    destruct (px_NativeSidecar _), (px_Await (v_Proxy (pp_values p))); set_solver.
  - rewrite (proxy_name (pp_values p)), (bool_decide_true (ProxyContainerName = _)), orb_true_r by done. done.
Qed.

(** * Uninjection *)
(** A document without anything of the names that uninjection removes. *)
Record clean (d : doc) : Prop := {
  clean_init : Forall (λ c, ct_Name c ≠ InitContainerName ∧ ct_Name c ≠ ProxyContainerName) (ps_InitContainers (specOf d));
  clean_containers : Forall (λ c, ct_Name c ≠ ProxyContainerName) (d_containers d);
  clean_volumes : Forall (λ v, vol_Name v ≠ IdentityEndEntityVolumeName ∧ vol_Name v ≠ InitXtablesLockVolumeMountName
                               ∧ vol_Name v ≠ LinkerdTokenVolumeMountName) (ps_Volumes (specOf d));
  clean_labels : map_Forall (λ k _, isLinkerd k = false) (lbls (metaOf d)) }.

(** The labels the configuration adds are linkerd's, and do not make the pod look like a
    component of the control plane. *)
Definition labels_own (ls : strmap) : Prop :=
  map_Forall (λ k _, isLinkerd k = true ∧ k ≠ ControllerComponentLabel) ls.

Lemma Forall_filter {A} (P : A → Prop) `{∀ x, Decision (P x)} (l : list A) : Forall P l → filter P l = l.
Proof. induction 1 as [|x l Hx _ IH]; [done|]. by rewrite filter_cons_True, IH. Qed.

(** What uninjection leaves of the injected document: the debug container and, with the CNI
    plugin, the network validator. *)
Definition leftSpec (p : podPatch) (d : doc) : PodSpec :=
  let v := pp_values p in
  let debug := match pp_DebugContainer p with Some i => [partial_debug i] | None => [] end in
  let validator := if v_CNIEnabled v then [partial_network_validator v] else [] in
  let s := specOf d in
  mkPodSpec (ps_HostNetwork s) (ps_AutomountServiceAccountToken s)
    (if px_NativeSidecar (v_Proxy v) then validator ++ ps_InitContainers s else ps_InitContainers s ++ validator)
    (ps_Containers s ++ debug) (ps_Volumes s).

Ltac names := rewrite ?proxy_name, ?proxy_init_name, ?network_validator_name, ?debug_name; naive_solver.
Ltac filters := repeat first [rewrite filter_app|rewrite filter_cons_True by names|rewrite filter_cons_False by names
                             |rewrite filter_nil].

Lemma uninject_init p d : clean d →
  filter (λ c, ct_Name c ≠ InitContainerName ∧ ct_Name c ≠ ProxyContainerName)
    (ps_InitContainers (specOf (injectedDoc p d))) = ps_InitContainers (leftSpec p d).
Proof.
  intros [Hi _ _ _]. unfold injectedDoc, leftSpec. cbn.
  destruct (px_NativeSidecar _), (v_CNIEnabled _); filters; by rewrite (Forall_filter _ _ Hi), ?app_nil_r.
Qed.
Lemma uninject_containers p d : clean d →
  filter (λ c, ct_Name c ≠ ProxyContainerName) (ps_Containers (specOf (injectedDoc p d))) = ps_Containers (leftSpec p d).
Proof.
  intros [_ Hc _ _]. unfold injectedDoc, leftSpec. cbn.
  destruct (px_NativeSidecar _), (px_Await (v_Proxy (pp_values p))), (pp_DebugContainer p);
    filters; by rewrite (Forall_filter _ _ Hc), ?app_nil_r.
Qed.
Lemma uninject_volumes p d : clean d →
  filter (λ v, vol_Name v ≠ IdentityEndEntityVolumeName ∧ vol_Name v ≠ InitXtablesLockVolumeMountName
               ∧ vol_Name v ≠ LinkerdTokenVolumeMountName) (ps_Volumes (specOf (injectedDoc p d)))
  = ps_Volumes (leftSpec p d).
Proof.
  intros [_ _ Hv _]. unfold injectedDoc, leftSpec. cbn.
  destruct (v_CNIEnabled _), (v_ServiceAccountTokenProjection _); filters; by rewrite (Forall_filter _ _ Hv), ?app_nil_r.
Qed.

Lemma uninject_flags p d : clean d →
  bool_decide (Exists (λ c, ct_Name c = ProxyContainerName)
    (ps_InitContainers (specOf (injectedDoc p d)) ++ ps_Containers (specOf (injectedDoc p d)))) = true
  ∧ bool_decide (Exists (λ c, ct_Name c = InitContainerName) (ps_InitContainers (specOf (injectedDoc p d))))
    = negb (v_CNIEnabled (pp_values p)).
Proof.
  intros [Hi _ _ _]. unfold injectedDoc. cbn -[bool_decide]. split.
  - apply bool_decide_eq_true, Exists_exists. exists (partial_proxy (pp_values p)). split; [|apply proxy_name].
    destruct (px_NativeSidecar _), (px_Await (v_Proxy (pp_values p))); set_solver.
  - destruct (v_CNIEnabled _); simpl.
    + apply bool_decide_eq_false. intros (c & Hc & Hn)%Exists_exists. rewrite Forall_forall in Hi.
      assert (c = partial_network_validator (pp_values p) ∨ c = partial_proxy (pp_values p)
        ∨ c ∈ ps_InitContainers (specOf d)) as [->|[->|Hin]];
        [|by rewrite network_validator_name in Hn|by rewrite proxy_name in Hn|by destruct (Hi c Hin)].
      destruct (px_NativeSidecar _); set_solver.
    + apply bool_decide_eq_true, Exists_exists. exists (partial_proxy_init (pp_values p)). split; [|apply proxy_init_name].
      destruct (px_NativeSidecar _); set_solver.
Qed.

Lemma uninject_spec p d : clean d →
  uninjectPodSpec (specOf (injectedDoc p d)) = (leftSpec p d, (true, negb (v_CNIEnabled (pp_values p)))).
Proof.
  intros Hd. unfold uninjectPodSpec. destruct (uninject_flags p d Hd) as [-> ->].
  by rewrite uninject_init, uninject_containers, uninject_volumes.
Qed.

Lemma GetPodPatch_meta c c' p d :
  loaded c d → GetPodPatch yaml_copy sha256 true c = Ok (c', p) →
  pp_Labels p = cp_labels c
  ∧ ∃ sha version, pp_Annotations p = <[ProxyTrustRootSHA := sha]> (<[ProxyVersionAnnotation := version]> (cp_annotations c)).
Proof.
  intros [Hspec _]. unfold GetPodPatch. destruct (conf_values c) as [values|]; [|done].
  rewrite Hspec. destruct (GetOverriddenValues _ _ _ _); [|done]. destruct (negb _); [done|].
  cbn -[bool_decide]. intros [= <- <-]. cbn -[bool_decide]. rewrite !(right_id_L ∅ (∪)). split; [done|]. by do 2 eexists.
Qed.

Lemma uninject_meta p d :
  clean d → labels_own (pp_Labels p) →
  let m := (uninjectObjectMeta (metaOf (injectedDoc p d))).1 in
  lbls m = lbls (metaOf d)
  ∧ (∀ k, isLinkerd k = false → anns m !! k = (pp_Annotations p ∪ anns (metaOf d)) !! k)
  ∧ (∀ k v, isLinkerd k = true → anns m !! k = Some v → k = ProxyInjectAnnotation ∧ v = "disabled").
Proof.
  intros [_ _ _ Hl] Hown. cbn zeta.
  assert (lbls (metaOf (injectedDoc p d)) = pp_Labels p ∪ lbls (metaOf d)) as Hls.
  { unfold injectedDoc, metaOf. cbn. by destruct (match d_metadata d with Some m => _ | None => _ end) as [[[n g] ns] r]. }
  assert (anns (metaOf (injectedDoc p d)) = pp_Annotations p ∪ anns (metaOf d)) as Han.
  { unfold injectedDoc, metaOf. cbn. by destruct (match d_metadata d with Some m => _ | None => _ end) as [[[n g] ns] r]. }
  unfold uninjectObjectMeta. rewrite Hls, Han. rewrite bool_decide_false.
  2: { intros [v [Hv|[_ Hv]]%lookup_union_Some_raw]; [by destruct (Hown _ _ Hv)|]. by specialize (Hl _ _ Hv). }
  cbn. split_and!.
  - apply map_eq. intros k. apply option_eq. intros v. rewrite map_lookup_filter_Some, lookup_union_Some_raw. split.
    + intros [[Hv|[_ Hv]] Hk]; [|done]. destruct (Hown _ _ Hv). simpl in *. congruence.
    + intros Hv. pose proof (Hl _ _ Hv) as Hk. split; [|done]. right. split; [|done].
      destruct (pp_Labels p !! k) eqn:Hp; [|done]. destruct (Hown _ _ Hp). congruence.
  - intros k Hk. rewrite map_lookup_filter. destruct ((_ ∪ _) !! k); [|done]. simpl. by rewrite option_guard_True by auto.
  - intros k v Hk [_ Hv]%map_lookup_filter_Some. destruct Hv as [Hv|Hv]; [simpl in Hv; congruence|done].
Qed.

(** C24: Uninjection takes injection back, but for the debug container, for the network
    validator and for the configuration annotations.  Of a pod that had nothing of linkerd's
    names, after the patch was applied and the pod uninjected, the volumes and labels are what
    they were, and the containers too, except that the debug container and, with the CNI
    plugin, the init container that validates the network stay.  Annotations outside
    linkerd.io stay, those added by the patch included, and of linkerd's own none but a
    disabled inject annotation. *)
Theorem uninject_roundtrip c c' p d d' :
  loaded c d → cp_labels c ≠ ∅ → labels_own (cp_labels c) → clean d →
  GetPodPatch yaml_copy sha256 true c = Ok (c', p) → applyPatch (render p) d = Some d' →
  let m := (uninjectObjectMeta (metaOf d')).1 in
  uninjectPodSpec (specOf d') = (leftSpec p d, (true, negb (v_CNIEnabled (pp_values p))))
  ∧ lbls m = lbls (metaOf d)
  ∧ (∀ k, isLinkerd k = false → anns m !! k = (cp_annotations c ∪ anns (metaOf d)) !! k)
  ∧ (∀ k v, isLinkerd k = true → anns m !! k = Some v → k = ProxyInjectAnnotation ∧ v = "disabled").
Proof.
  intros Hd Hne Hown Hclean Hp Happ. destruct (GetPodPatch_flags _ _ _ _ Hd Hne Hp) as (Hproxy & Hroots & Hv & Hi).
  rewrite apply_render in Happ by done. injection Happ as <-.
  destruct (GetPodPatch_meta _ _ _ _ Hd Hp) as (Hls & sha & version & Ha). rewrite <-Hls in Hown.
  destruct (uninject_meta p d Hclean Hown) as (HL & HA & HI). cbn zeta.
  split_and!; [by apply uninject_spec|done| |done].
  intros k Hk. rewrite HA by done. rewrite Ha, !lookup_union, !lookup_insert_ne; [done|..]; by intros <-.
Qed.
End apply.

(** * An example *)
Definition ex_ctr (name : string) : Ctr := mkCtr name "" [] None None None [].
Definition ex_partials : Partials := {|
  partial_proxy_init _ := ex_ctr InitContainerName; partial_network_validator _ := ex_ctr "linkerd-network-validator";
  partial_debug _ := ex_ctr "linkerd-debug"; partial_proxy _ := ex_ctr ProxyContainerName;
  proxy_init_name _ := eq_refl; network_validator_name _ := eq_refl; debug_name _ := eq_refl; proxy_name _ := eq_refl |}.

(** A pod template without annotations, volumes or init containers. *)
Definition ex_doc : doc :=
  mkDoc (Some (mkDocMeta None (Some {["app" := "web"]}) ("", "", "", None))) None None
    [mkCtr "web" "nginx" [(mkContainerPort "http" 8080 0, "TCP")] None None None []] false None.
Definition ex_conf : ResourceConfig :=
  set_pod (withAnnotations (metaOf ex_doc)) (specOf ex_doc) (NewResourceConfig (Some ex_values) OriginCLI "linkerd").

Definition isOk {A} (r : res A) : bool := match r with Ok _ => true | _ => false end.
Lemma isOk_spec {A B} (r : res (A * B)) : isOk r = true → ∃ a b, r = Ok (a, b).
Proof. destruct r as [[a b]| |]; [by exists a, b|done..]. Qed.

Lemma ex_loaded : loaded ex_conf ex_doc.
Proof. split; [reflexivity|left; reflexivity]. Qed.
Lemma ex_labels : cp_labels ex_conf ≠ ∅ ∧ labels_own (cp_labels ex_conf).
Proof. split; [apply map_non_empty_singleton|by apply map_Forall_singleton]. Qed.
Lemma ex_clean : clean ex_doc.
Proof.
  split; simpl.
  - apply Forall_nil_2.
  - apply Forall_singleton. done.
  - apply Forall_nil_2.
  - by apply map_Forall_singleton.
Qed.


Lemma uninject_roundtrip_witness : ∃ c' p d',
  GetPodPatch (H := ex_parsers) Some (λ s, s) true ex_conf = Ok (c', p)
  ∧ applyPatch (render (H := ex_partials) (H0 := range_in_order) p) ex_doc = Some d'
  ∧ lbls (uninjectObjectMeta (metaOf d')).1 = lbls (metaOf ex_doc).
Proof.
  destruct (isOk_spec (GetPodPatch (H := ex_parsers) Some (λ s, s) true ex_conf)) as (c' & p & Hp); [vm_compute; reflexivity|].
  destruct (GetPodPatch_flags (H1 := ex_parsers) Some (λ s, s) _ _ _ _ ex_loaded (proj1 ex_labels) Hp) as (Hproxy & Hroots & Hv & Hi).
  exists c', p, (injectedDoc (H := ex_partials) p ex_doc).
  pose proof (apply_render (H := ex_partials) (H0 := range_in_order) p ex_doc Hproxy Hroots Hv Hi) as Happ.
  split; [exact Hp|]. split; [exact Happ|].
  exact (proj1 (proj2 (uninject_roundtrip (H := ex_partials) (H0 := range_in_order) (H1 := ex_parsers) Some (λ s, s) ex_conf c' p ex_doc
    _ ex_loaded (proj1 ex_labels) (proj2 ex_labels) ex_clean Hp Happ))).
Defined.
