(* ===== verification/InjectWebhook.v ===== *)
(** Theorems on the injection webhook: which pods it injects, and with which values. *)
From S2P Require Import Prelude GoStd K8s PortRange InjectData InjectValues Inject InjectProps InjectPatch.

#[local] Open Scope string_scope.
#[local] Open Scope list_scope.
#[local] Open Scope Z_scope.
#[local] Open Scope go_scope.

(** Whether a pod is to be injected, as documented: its own annotation says so, or it has
    none (or an empty one) and its namespace's does. *)
Definition wanted (values : Values) (nsAnn podAnn : strmap) (spec : PodSpec) : Prop :=
  let pod := get podAnn ProxyInjectAnnotation in
  let ns := get nsAnn ProxyInjectAnnotation in
  let on (a : string) := a = "enabled" ∨ a = "ingress" in
  ps_HostNetwork spec = false ∧ HasExistingSidecars spec = false
  ∧ (v_ServiceAccountTokenProjection values = true
     ∨ (serviceAccountVolumeMount spec ≠ None ∧ ps_AutomountServiceAccountToken spec ≠ Some false))
  ∧ (on ns ∨ ns = "" ∨ ns = "disabled") ∧ (on pod ∨ (pod = "" ∧ on ns)).

#[export] Instance wanted_dec values nsAnn podAnn spec : Decision (wanted values nsAnn podAnn spec).
Proof. unfold wanted. apply _. Defined.

(** A configuration that was made from a pod by the webhook. *)
Record podConf (values : Values) (nsAnn : strmap) (m : ObjectMeta) (spec : PodSpec) (c : ResourceConfig) : Prop := {
  pc_values : conf_values c = Some values; pc_ns : conf_nsAnnotations c = nsAnn; pc_origin : conf_origin c = OriginWebhook;
  pc_kind : wl_Kind c = "Pod"; pc_wl : wl_Meta c = emptyObjectMeta;
  pc_meta : cp_meta c = withAnnotations m; pc_spec : cp_spec c = Some spec;
  pc_anns : cp_annotations c = ∅; pc_labels : cp_labels c ≠ ∅; pc_own : labels_own (cp_labels c) }.

Lemma labels_own_insert k v ls :
  isLinkerd k = true → k ≠ ControllerComponentLabel → labels_own ls → labels_own (<[k := v]> ls).
Proof. intros. by apply map_Forall_insert_2. Qed.

Lemma ownerLabel_own kind k : ownerLabel kind = Some k → isLinkerd k = true ∧ k ≠ ControllerComponentLabel.
Proof. unfold ownerLabel. repeat case_bool_decide; intros [= <-]; done. Qed.

Lemma parse_pod values nsAnn retriever ns m m' spec owner :
  retriever m = Ok (m', owner) →
  ∃ c, parse "Pod" (PodObj m spec) (WithKind "Pod" (WithNsAnnotations nsAnn (WithOwnerRetriever retriever
         (NewResourceConfig (Some values) OriginWebhook ns)))) = Ok c ∧ podConf values nsAnn m' spec c.
Proof.
  intros Hr. unfold parse, populateMeta. cbn. rewrite Hr. cbn. destruct owner as [kind name]. eexists. split; [done|].
  destruct (ownerLabel kind) as [k|] eqn:Hk; split; cbn; try done; try apply insert_non_empty;
    try destruct (ownerLabel_own _ _ Hk); repeat (apply labels_own_insert; [done..|]); apply map_Forall_empty.
Qed.

Lemma podConf_IsPod values nsAnn m spec c : podConf values nsAnn m spec c → IsPod c = true.
Proof. intros []. unfold IsPod. by rewrite pc_kind0. Qed.

Lemma anns_withAnnotations m : anns (withAnnotations m) = anns m.
Proof. done. Qed.
Lemma reasons_nil r : (Injectable r).1 = true ↔
  rp_HostNetwork r = false ∧ rp_Sidecar r = false ∧ rp_UnsupportedResource r = false ∧ rp_InjectDisabled r = false
  ∧ rp_AutomountServiceAccountToken r = true.
Proof.
  unfold Injectable. cbn [fst]. rewrite bool_decide_eq_true.
  destruct (rp_HostNetwork r), (rp_Sidecar r), (rp_UnsupportedResource r), (rp_InjectDisabled r),
    (rp_AutomountServiceAccountToken r); simpl; naive_solver.
Qed.

Lemma isInjectAnnotationValid_spec a :
  isInjectAnnotationValid a = true ↔ a = "" ∨ a = "enabled" ∨ a = "disabled" ∨ a = "ingress".
Proof.
  unfold isInjectAnnotationValid. rewrite negb_true_iff, bool_decide_eq_false. split; [|naive_solver].
  intros H. destruct (decide (a = "")), (decide (a = "enabled")), (decide (a = "disabled")), (decide (a = "ingress"));
    naive_solver.
Qed.

Lemma disabledByAnnotation_spec values nsAnn m spec c : podConf values nsAnn m spec c →
  let pod := get (anns m) ProxyInjectAnnotation in
  let ns := get nsAnn ProxyInjectAnnotation in
  let on (a : string) := a = "enabled" ∨ a = "ingress" in
  (disabledByAnnotation c).1.1 = false ↔ (on ns ∨ ns = "" ∨ ns = "disabled") ∧ (on pod ∨ (pod = "" ∧ on ns)).
Proof.
  intros []. cbn zeta. unfold disabledByAnnotation. rewrite pc_ns0, pc_meta0, pc_origin0, anns_withAnnotations.
  rewrite (bool_decide_false (OriginWebhook = OriginCLI)) by done.
  generalize (get (anns m) ProxyInjectAnnotation) (get nsAnn ProxyInjectAnnotation). intros pod ns.
  pose proof (isInjectAnnotationValid_spec ns) as Hn. pose proof (isInjectAnnotationValid_spec pod) as Hp.
  destruct (isInjectAnnotationValid ns); cbn [negb].
  2: { split; [done|]. intros [Ho _]. by assert (false = true) by (apply Hn; tauto). }
  destruct (isInjectAnnotationValid pod); cbn [negb].
  2: { split; [done|]. intros [_ Ho]. by assert (false = true) by (apply Hp; tauto). }
  destruct (proj1 Hn eq_refl) as [->|[->|[->| ->]]], (proj1 Hp eq_refl) as [->|[->|[->| ->]]];
    apply (bool_decide_unpack _); vm_compute; exact I.
Qed.

Lemma Injectable_wanted values nsAnn m spec c : podConf values nsAnn m spec c →
  (Injectable (newReport c)).1 = true ↔ wanted values nsAnn (anns m) spec.
Proof.
  intros Hc. rewrite reasons_nil. pose proof (disabledByAnnotation_spec _ _ _ _ _ Hc) as Hd. cbn zeta in Hd.
  unfold newReport, wanted. destruct Hc. rewrite pc_spec0, pc_values0, pc_origin0 in *.
  destruct (disabledByAnnotation c) as [[disabled reason] at_]. cbn [fst] in Hd. cbn -[bool_decide]. rewrite Hd.
  match type of Hd with _ ↔ ?A => clear Hd; generalize A end. intros A. clear.
  rewrite (bool_decide_true (OriginWebhook = OriginWebhook)) by done.
  destruct (v_ServiceAccountTokenProjection values), (ps_AutomountServiceAccountToken spec) as [[]|];
    cbn -[bool_decide]; try case_bool_decide; intuition (first [congruence|done]).
Qed.

(** The annotations the proxy's values are overridden by: the pod's own, and where it has
    none those of its namespace that are inherited; the opaque ports otherwise those of the
    defaults that the pod has. *)
Definition effective (values : Values) (nsAnn podAnn : strmap) (spec : PodSpec) (k : string) : option string :=
  let defaults := filter (λ port, ContainsString port (strings.Split (px_OpaquePorts (v_Proxy values)) ",") = true)
                    (ps_Containers spec ≫= λ ct, (strconv.Itoa ∘ cp_ContainerPort ∘ fst <$> ct_Ports ct)) in
  match podAnn !! k with
  | Some v => Some v
  | None =>
      match (if bool_decide (k ∈ inheritable) then nsAnn !! k else None) with
      | Some v => Some v
      | None => if bool_decide (k = ProxyOpaquePortsAnnotation ∧ defaults ≠ []) then Some (strings.Join defaults ",") else None
      end
  end.

Lemma inheritable_no_created : CreatedByAnnotation ∉ inheritable.
Proof. apply (bool_decide_unpack _). vm_compute. exact I. Qed.
Lemma inheritable_opaque : ProxyOpaquePortsAnnotation ∈ inheritable.
Proof. apply (bool_decide_unpack _). vm_compute. exact I. Qed.

(** What the webhook makes the patch from. *)
Record prepared (values : Values) (nsAnn : strmap) (m : ObjectMeta) (spec : PodSpec) (c : ResourceConfig) : Prop := {
  pr_values : conf_values c = Some values; pr_origin : conf_origin c = OriginWebhook;
  pr_meta : cp_meta c = withAnnotations m; pr_spec : cp_spec c = Some spec;
  pr_labels : cp_labels c ≠ ∅; pr_own : labels_own (cp_labels c);
  pr_anns : ∀ k, k ≠ CreatedByAnnotation →
    (cp_annotations c ∪ anns m) !! k = effective values nsAnn (anns m) spec k }.

(** The annotations appended for the namespace, seen through the pod's. *)
Lemma appended_lookup nsAnn podAnn s k : k ≠ CreatedByAnnotation →
  AppendNamespaceAnnotations {[CreatedByAnnotation := s]} nsAnn podAnn !! k
  = if bool_decide (k ∈ inheritable ∧ podAnn !! k = None) then nsAnn !! k else None.
Proof.
  intros Hk. rewrite AppendNamespaceAnnotations_lookup, lookup_singleton_ne by done.
  destruct (nsAnn !! k); repeat case_bool_decide; naive_solver.
Qed.

Lemma appended_effective nsAnn podAnn s k : k ≠ CreatedByAnnotation →
  (AppendNamespaceAnnotations {[CreatedByAnnotation := s]} nsAnn podAnn ∪ podAnn) !! k
  = match podAnn !! k with Some v => Some v | None => if bool_decide (k ∈ inheritable) then nsAnn !! k else None end.
Proof.
  intros Hk. rewrite lookup_union, appended_lookup by done.
  destruct (podAnn !! k); repeat case_bool_decide; try naive_solver.
  - by rewrite (right_id_L None (∪)).
Qed.

Lemma effective_other values nsAnn podAnn spec k : k ≠ ProxyOpaquePortsAnnotation →
  effective values nsAnn podAnn spec k
  = match podAnn !! k with Some v => Some v | None => if bool_decide (k ∈ inheritable) then nsAnn !! k else None end.
Proof.
  intros Hk. unfold effective. rewrite (bool_decide_false (k = _ ∧ _)) by naive_solver.
  destruct (podAnn !! k); [done|]. by destruct (if bool_decide _ then _ else _).
Qed.

Lemma appendAnnotations_prepared version values nsAnn m spec c : podConf values nsAnn m spec c →
  ∃ c', appendAnnotations version values c = Ok c' ∧ prepared values nsAnn m spec c'.
Proof.
  intros Hc. pose proof (podConf_IsPod _ _ _ _ _ Hc) as Hpod. destruct Hc.
  unfold appendAnnotations, FilterPodOpaquePorts, HasWorkloadAnnotation, GetWorkloadAnnotations, AppendPodAnnotation.
  change (IsPod (set_cp_annotations _ c)) with (IsPod c). rewrite Hpod.
  cbn [cp_meta cp_annotations cp_spec wl_Meta conf_nsAnnotations set_cp_annotations]. 
  rewrite pc_ns0, pc_anns0, pc_meta0, pc_wl0, pc_spec0, anns_withAnnotations. cbn [anns om_Annotations emptyObjectMeta default].
  rewrite lookup_empty, (bool_decide_false (is_Some None)), orb_false_r by apply is_Some_None.
  rewrite (insert_empty CreatedByAnnotation).
  set (A := AppendNamespaceAnnotations _ _ _). cbn [res_bind].
  assert (∀ k, k ≠ CreatedByAnnotation → (A ∪ anns m) !! k = _) as HA by apply appended_effective.
  destruct (_ || _) eqn:Hhas; [|destruct (filter _ _) as [|port ports] eqn:Hports];
    (eexists; split; [done|split; [done..|]]); cbn [cp_annotations set_cp_annotations]; intros k Hk;
    (destruct (decide (k = ProxyOpaquePortsAnnotation)) as [->|Hne];
      [|rewrite ?lookup_union, ?lookup_insert_ne, <-?lookup_union, HA by done; symmetry; by apply effective_other]).
  - specialize (HA _ Hk). rewrite HA. unfold effective. apply orb_true_iff in Hhas. rewrite !bool_decide_eq_true in Hhas.
    destruct (anns m !! _); [done|]. destruct (if bool_decide _ then _ else _); [done|].
    apply lookup_union_None in HA as [HA _]. rewrite HA in Hhas. by destruct Hhas as [[? ?]|[? ?]].
  - apply orb_false_iff in Hhas as [Hm HA']. apply bool_decide_eq_false, eq_None_not_Some in Hm, HA'.
    specialize (HA _ Hk). unfold effective. rewrite lookup_union, HA', Hm in *. rewrite <-HA, Hports.
    rewrite bool_decide_false; [done|]. by intros [_ []].
  - apply orb_false_iff in Hhas as [Hm HA']. apply bool_decide_eq_false, eq_None_not_Some in Hm, HA'.
    specialize (HA _ Hk). unfold effective. rewrite lookup_union, HA', Hm in HA. rewrite lookup_union, lookup_insert_eq, Hm, <-HA, Hports.
    rewrite bool_decide_true by done. done.
Qed.

Lemma on_Proxy_networks f v : v_ClusterNetworks (on_Proxy f v) = v_ClusterNetworks v.
Proof. done. Qed.
Lemma injectObjectMeta_values sha256 c p : pp_values (injectObjectMeta sha256 c p) = pp_values p.
Proof. done. Qed.
Lemma injectPodAnnotations_values c p : pp_values (injectPodAnnotations c p).2 = pp_values p.
Proof. done. Qed.

Lemma injected_proxy `{!Parsers} c values spec p : ∃ capabilities mount,
  v_Proxy (pp_values (injectPodSpec c values spec p))
  = set_px_SAMountPath mount (set_px_Capabilities capabilities (v_Proxy (pp_values p))).
Proof.
  unfold injectPodSpec, injectProxyInit. cbn [pp_values v_Proxy set_v_ProxyInit set_v_Proxy].
  generalize (v_Proxy (pp_values p)) as px. intros px.
  destruct (serviceAccountVolumeMount spec) as [vm|], (ps_Containers spec) as [|ct ?];
    try destruct (ct_SecurityContext ct) as [[cap|]|].
  all: first [by exists (px_Capabilities px), (Some vm); destruct px|by exists (Some cap), (Some vm)
             |by exists (px_Capabilities px), (px_SAMountPath px); destruct px
             |by exists (Some cap), (px_SAMountPath px); destruct px].
Qed.

Section webhook.
Context `{!Parsers} (yaml_copy : Values → option Values) (sha256 : string → string).
Context (linkerdNamespace version : string) (values : Values) (nsAnn : strmap) (retriever : OwnerRetrieverFunc).
Context (m m' : ObjectMeta) (spec : PodSpec) (owner : string * string) (Hret : retriever m = Ok (m', owner)).

Abbreviation webhook :=
  (webhookInject yaml_copy sha256 linkerdNamespace version values nsAnn retriever "Pod" (PodObj m spec)).

Lemma webhook_skips : ¬ wanted values nsAnn (anns m') spec →
  ∃ r, webhook = Ok r ∧ ∀ c p, r ≠ PodPatched c p.
Proof.
  intros Hw. destruct (parse_pod values nsAnn retriever linkerdNamespace m m' spec owner Hret) as (c & Hp & Hc).
  unfold webhookInject, ParseMetaAndYAML. rewrite Hp. cbn -[Injectable newReport CreateOpaquePortsPatch].
  destruct (Injectable (newReport c)).1 eqn:Hi; [by apply (Injectable_wanted _ _ _ _ _ Hc) in Hi|].
  assert (∃ o, CreateOpaquePortsPatch c = Ok o) as [[[b s]|] ->]; [|by eexists..].
  pose proof (podConf_IsPod _ _ _ _ _ Hc) as Hpod. destruct Hc. unfold CreateOpaquePortsPatch, FilterPodOpaquePorts.
  rewrite pc_values0, pc_spec0, Hpod. cbn.
  repeat match goal with |- context [match ?x with _ => _ end] => destruct x end; by eexists.
Qed.

Lemma webhook_prepares : wanted values nsAnn (anns m') spec →
  ∃ c, prepared values nsAnn m' spec c
       ∧ webhook = (let* r := GetPodPatch yaml_copy sha256 true c in Ok (PodPatched r.1 r.2)).
Proof.
  intros Hw. destruct (parse_pod values nsAnn retriever linkerdNamespace m m' spec owner Hret) as (c & Hp & Hc).
  destruct (appendAnnotations_prepared version _ _ _ _ _ Hc) as (c' & Hc' & Hpr). exists c'. split; [done|].
  unfold webhookInject, ParseMetaAndYAML. rewrite Hp. cbn [res_bind].
  by rewrite (proj2 (Injectable_wanted _ _ _ _ _ Hc) Hw), Hc'.
Qed.

Context (values' : Values) (Hcopy : yaml_copy values = Some values') (Hnet : networksOk (v_ClusterNetworks values') = true).

Lemma GetPodPatch_prepared c : prepared values nsAnn m' spec c →
  ∃ c' p, GetPodPatch yaml_copy sha256 true c = Ok (c', p)
  ∧ ∃ capabilities mount,
      v_Proxy (pp_values p)
      = set_px_SAMountPath mount (set_px_Capabilities capabilities (set_px_PodInboundPorts (getPodInboundPorts (Some spec))
          (v_Proxy (applyAnnotationOverrides (GetNamedPorts (coreContainer <$> ps_Containers spec)) values'
                      (cp_annotations c ∪ anns m'))))).
Proof.
  intros []. unfold GetPodPatch, GetOverriddenValues, getAnnotationOverrides.
  rewrite pr_values0, Hcopy, pr_origin0, pr_meta0, pr_spec0, anns_withAnnotations, (bool_decide_false (OriginWebhook = _)) by done.
  cbn [option_bind mbind]. pose proof (overrides_networks (GetNamedPorts (coreContainer <$> ps_Containers spec)) values'
    (cp_annotations c ∪ anns m')) as HV. revert HV. generalize (applyAnnotationOverrides
    (GetNamedPorts (coreContainer <$> ps_Containers spec)) values' (cp_annotations c ∪ anns m')). intros V HV.
  rewrite on_Proxy_networks, HV, Hnet. cbn [negb].
  pose proof (injectPodAnnotations_values c) as Hpv.
  match goal with |- context [injectPodAnnotations c ?p] => specialize (Hpv p); destruct (injectPodAnnotations c p) as [c' p'] end.
  do 2 eexists. split; [done|]. destruct (injected_proxy c' values spec (injectObjectMeta sha256 c' p')) as (cap & mount & ->).
  exists cap, mount. rewrite injectObjectMeta_values. cbn [snd pp_values] in Hpv. by rewrite Hpv.
Qed.

Lemma webhook_wanted : wanted values nsAnn (anns m') spec →
  ∃ c0 c p, webhook = Ok (PodPatched c p) ∧ prepared values nsAnn m' spec c0
    ∧ GetPodPatch yaml_copy sha256 true c0 = Ok (c, p).
Proof.
  intros Hw. destruct (webhook_prepares Hw) as (c0 & Hc0 & ->).
  destruct (GetPodPatch_prepared c0 Hc0) as (c & p & Hp & _). exists c0, c, p.
  by rewrite Hp.
Qed.

(** C29: Annotations on the pod go before those on its namespace.  The proxy of every pod
    that the webhook injects has the values of the control plane, overridden by the
    annotations that are in effect: the pod's own, else an inherited one of the namespace,
    else, for opaque ports, those default ports that the pod has; only the list of inbound
    ports, the capabilities and the mount of the service account come from the pod's spec. *)
Theorem webhook_values c p : webhook = Ok (PodPatched c p) →
  ∃ annotations capabilities mount,
    (∀ k, k ≠ CreatedByAnnotation → annotations !! k = effective values nsAnn (anns m') spec k)
    ∧ v_Proxy (pp_values p)
      = set_px_SAMountPath mount (set_px_Capabilities capabilities (set_px_PodInboundPorts (getPodInboundPorts (Some spec))
          (v_Proxy (applyAnnotationOverrides (GetNamedPorts (coreContainer <$> ps_Containers spec)) values' annotations)))).
Proof.
  intros Hr. assert (wanted values nsAnn (anns m') spec) as Hw.
  { apply dec_stable. intros Hw. destruct (webhook_skips Hw) as (r & Hr' & Hno). rewrite Hr' in Hr.
    injection Hr as ->. by apply (Hno c p). }
  destruct (webhook_prepares Hw) as (c0 & Hc0 & Heq). destruct (GetPodPatch_prepared c0 Hc0) as (c' & p' & Hp & cap & mount & Hv).
  rewrite Hr, Hp in Heq. cbn in Heq. injection Heq as -> ->. exists (cp_annotations c0 ∪ anns m'), cap, mount.
  split; [apply Hc0|done].
Qed.
End webhook.


(** * An example *)
Definition ex_retriever : OwnerRetrieverFunc := λ m, Ok (set_Namespace "ns" m, ("deployment", "web")).
Definition ex_ns : strmap := {[ProxyInjectAnnotation := "enabled"]}.

Lemma ex_wanted : wanted ex_values ex_ns (anns (metaOf ex_doc)) (specOf ex_doc).
Proof. apply (bool_decide_unpack _). vm_compute. exact I. Qed.
Lemma ex_networks : networksOk (v_ClusterNetworks ex_values) = true.
Proof. vm_compute. reflexivity. Qed.


Lemma webhook_values_witness : ∃ c p (annotations : strmap),
  webhookInject (H := ex_parsers) Some (λ s, s) "linkerd" "edge" ex_values ex_ns ex_retriever "Pod" (PodObj (metaOf ex_doc) (specOf ex_doc))
  = Ok (PodPatched c p)
  ∧ ∀ k, k ≠ CreatedByAnnotation → annotations !! k = effective ex_values ex_ns (anns (metaOf ex_doc)) (specOf ex_doc) k.
Proof.
  destruct (webhook_wanted (H := ex_parsers) Some (λ s, s) "linkerd" "edge" ex_values ex_ns ex_retriever (metaOf ex_doc)
    (set_Namespace "ns" (metaOf ex_doc)) (specOf ex_doc) ("deployment", "web") eq_refl ex_values eq_refl ex_networks ex_wanted)
    as (_ & c & p & Hr & _).
  destruct (webhook_values (H := ex_parsers) Some (λ s, s) "linkerd" "edge" ex_values ex_ns ex_retriever (metaOf ex_doc)
    (set_Namespace "ns" (metaOf ex_doc)) (specOf ex_doc) ("deployment", "web") eq_refl ex_values eq_refl ex_networks c p Hr)
    as (annotations & _ & _ & Ha & _).
  exists c, p, annotations. split; [exact Hr|exact Ha].
Defined.
