(* ===== verification/Tls.v ===== *)
(** Certificates and certificate authorities: [pkg/tls] ([ca.go], [cred.go], [codec.go]).

    Bytes are strings, times are nanoseconds.  Keys, signatures and encodings are those of Go's
    crypto packages and stay abstract: the class [X509] has the functions the code calls, with
    the laws their documentation gives, and [PEM] has the encoding of blocks. *)
From S2P Require Import Prelude GoStd.

#[local] Open Scope string_scope.
#[local] Open Scope list_scope.
#[local] Open Scope Z_scope.
#[local] Open Scope go_scope.

(** * Data *)
Inductive PublicKey := ECDSAPublic (x y : Z) | RSAPublic (n e : Z) | OtherPublic (k : string).
(** Private keys with their public part. *)
Inductive GenericPrivateKey := privateKeyEC (x y d : Z) | privateKeyRSA (n e d : Z).

Record pkixName := mkName { CommonName : string; otherNames : list string }.

Record Certificate := mkCertificate {
  Raw : string; SerialNumber : Z; IssuerName : pkixName; Subject : pkixName; NotBefore : Z; NotAfter : Z;
  crtPublicKey : PublicKey; IsCA : bool; MaxPathLen : Z; MaxPathLenZero : bool; BasicConstraintsValid : bool;
  KeyUsage : list string; ExtKeyUsage : list string; ExtraExtensions : list string;
  DNSNames : list string; EmailAddresses : list string; IPAddresses : list string; URIs : list string }.

Record CertificateRequest := mkCSR {
  csrPublicKey : PublicKey; csrSubject : pkixName; csrExtraExtensions : list string;
  csrDNSNames : list string; csrEmailAddresses : list string; csrIPAddresses : list string; csrURIs : list string }.

(** The chain has the root first and the direct issuer last. *)
Record Crt := mkCrt { crtCertificate : Certificate; TrustChain : list Certificate }.
Record Cred := mkCred { PrivateKey : GenericPrivateKey; credCrt : Crt }.

Record Validity := mkValidity { Lifetime : Z; ClockSkewAllowance : Z; ValidFrom : option Z }.
Record CA := mkCA { caCred : Cred; caValidity : Validity; nextSerialNumber : Z; firstCrtExpiration : Z }.

(** * Libraries *)
Inductive verifyError := Expired | OtherInvalid (reason : string).

(** Certificates hold times in whole seconds. *)
Definition trunc (t : Z) : Z := t / 1000000000 * 1000000000.

Class X509 := {
  CreateCertificate : Certificate → Certificate → PublicKey → GenericPrivateKey → option string;
  ParseCertificate : string → option Certificate;
  ParseCertificateRequest : string → option CertificateRequest;
  VerifyCertificate : Certificate → list Certificate → list Certificate → string → Z → option verifyError;
  ParseECPrivateKey : string → option GenericPrivateKey;
  ParsePKCS1PrivateKey : string → option GenericPrivateKey;
  ParsePKCS8PrivateKey : string → option (GenericPrivateKey + string);
  MarshalECPrivateKey : GenericPrivateKey → option string;
  MarshalPKCS1PrivateKey : GenericPrivateKey → string;
  X509KeyPair : string → string → option (list string * GenericPrivateKey);
  (* a certificate that was created is read back with the template's fields; extra extensions
     would override them *)
  create_parse t parent pub key der c :
    ExtraExtensions t = [] → CreateCertificate t parent pub key = Some der → ParseCertificate der = Some c →
    DNSNames c = DNSNames t ∧ EmailAddresses c = EmailAddresses t ∧ IPAddresses c = IPAddresses t ∧ URIs c = URIs t
    ∧ CommonName (Subject c) = CommonName (Subject t) ∧ IsCA c = BasicConstraintsValid t && IsCA t
    ∧ NotBefore c = trunc (NotBefore t) ∧ NotAfter c = trunc (NotAfter t) ∧ crtPublicKey c = pub
    ∧ SerialNumber c = SerialNumber t;
  ec_roundtrip k b : MarshalECPrivateKey k = Some b → ParseECPrivateKey b = Some k;
  parse_raw der c : ParseCertificate der = Some c → Raw c = der;
  (* ExtraExtensions is not populated when parsing certificate requests *)
  csr_parse der csr : ParseCertificateRequest der = Some csr → csrExtraExtensions csr = [] }.

(** A block of a type, the text it is encoded as, and the first block of a text with what
    follows it. *)
Class PEM := {
  pem_Encode : string → string → string;
  pem_Decode : string → option (string * string * string);
  pem_roundtrip type_ bytes rest : pem_Decode (pem_Encode type_ bytes +:+ rest) = Some (type_, bytes, rest);
  pem_shorter s type_ bytes rest : pem_Decode s = Some (type_, bytes, rest) → (String.length rest < String.length s)%nat }.

(** * Authorities *)
Definition hour : Z := 3600000000000.
Definition DefaultLifetime : Z := 24 * 365 * hour.
Definition DefaultClockSkewAllowance : Z := 10000000000.

Definition Window (v : Validity) (t : Z) : Z * Z :=
  let life := if bool_decide (Lifetime v = 0) then DefaultLifetime else Lifetime v in
  let skew := if bool_decide (ClockSkewAllowance v = 0) then DefaultClockSkewAllowance else ClockSkewAllowance v in
  (t + - skew, t + life + skew).

Definition findFirstExpiration (cred : Cred) : Z :=
  foldl (λ first c, if bool_decide (NotAfter c < first) then NotAfter c else first)
    (NotAfter (crtCertificate (credCrt cred))) (TrustChain (credCrt cred)).

Definition NewCA (cred : Cred) (validity : Validity) : CA := mkCA cred validity 1 (findFirstExpiration cred).

(** [int64] of a [uint64]. *)
Definition i64 (z : Z) : Z := (z + 2^63) mod 2^64 - 2^63.

Definition createTemplate (serialNumber : Z) (k : PublicKey) (v : Validity) (now : Z) : Certificate :=
  let '(notBefore, notAfter) := Window v (default now (ValidFrom v)) in
  mkCertificate "" (i64 serialNumber) (mkName "" []) (mkName "" []) notBefore notAfter k false 0 false false
    ["KeyEncipherment"; "DigitalSignature"] ["ServerAuth"; "ClientAuth"] [] [] [] [] [].

Definition set_NotAfter (t : Z) (c : Certificate) : Certificate :=
  mkCertificate (Raw c) (SerialNumber c) (IssuerName c) (Subject c) (NotBefore c) t (crtPublicKey c) (IsCA c) (MaxPathLen c)
    (MaxPathLenZero c) (BasicConstraintsValid c) (KeyUsage c) (ExtKeyUsage c) (ExtraExtensions c) (DNSNames c)
    (EmailAddresses c) (IPAddresses c) (URIs c).

(** The method of the same name: the template, and the authority with the next serial number. *)
Definition ca_createTemplate (ca : CA) (pubkey : PublicKey) (now : Z) : Certificate * CA :=
  let c := createTemplate (nextSerialNumber ca) pubkey (caValidity ca) now in
  let ca := mkCA (caCred ca) (caValidity ca) (u64 (nextSerialNumber ca + 1)) (firstCrtExpiration ca) in
  (if bool_decide (firstCrtExpiration ca < NotAfter c) then set_NotAfter (firstCrtExpiration ca) c else c, ca).

(** A template made into one for an authority, and into one for a request. *)
Definition asCA (name : string) (maxPathLen : Z) (maxPathLenZero : bool) (t : Certificate) : Certificate :=
  mkCertificate (Raw t) (SerialNumber t) (IssuerName t) (mkName name []) (NotBefore t) (NotAfter t) (crtPublicKey t) true
    maxPathLen maxPathLenZero true ["CertSign"; "CRLSign"] (ExtKeyUsage t) (ExtraExtensions t) (DNSNames t)
    (EmailAddresses t) (IPAddresses t) (URIs t).
Definition asRequested (issuer : pkixName) (csr : CertificateRequest) (t : Certificate) : Certificate :=
  mkCertificate (Raw t) (SerialNumber t) issuer (csrSubject csr) (NotBefore t) (NotAfter t) (crtPublicKey t) (IsCA t)
    (MaxPathLen t) (MaxPathLenZero t) (BasicConstraintsValid t) (KeyUsage t) (ExtKeyUsage t) (csrExtraExtensions csr)
    (csrDNSNames csr) (csrEmailAddresses csr) (csrIPAddresses csr) (csrURIs csr).

Definition matchesCertificate (k : GenericPrivateKey) (c : Certificate) : bool :=
  match k, crtPublicKey c with
  | privateKeyEC x y _, ECDSAPublic x' y' => bool_decide (x' = x) && bool_decide (y' = y)
  | privateKeyRSA n e _, RSAPublic n' e' => bool_decide (n' = n) && bool_decide (e' = e)
  | _, _ => false
  end.

Definition validCredOrPanic (ecKey : GenericPrivateKey) (crt : Crt) : res Cred :=
  if matchesCertificate ecKey (crtCertificate crt) then Ok (mkCred ecKey crt) else Panic.

Definition publicOf (k : GenericPrivateKey) : PublicKey :=
  match k with privateKeyEC x y _ => ECDSAPublic x y | privateKeyRSA n e _ => RSAPublic n e end.

Section x509.
Context `{!X509}.

Definition SignCrt (cred : Cred) (template : Certificate) : res Crt :=
  match CreateCertificate template (crtCertificate (credCrt cred)) (crtPublicKey template) (PrivateKey cred) with
  | None => Err "create"
  | Some crtb =>
      match ParseCertificate crtb with
      | None => Err "parse"
      | Some c => Ok (mkCrt c (TrustChain (credCrt cred) ++ [crtCertificate (credCrt cred)]))
      end
  end.

Definition IssueEndEntityCrt (ca : CA) (csr : CertificateRequest) (now : Z) : res Crt * CA :=
  match csrPublicKey csr with
  | ECDSAPublic _ _ =>
      let '(t, ca) := ca_createTemplate ca (csrPublicKey csr) now in
      (SignCrt (caCred ca) (asRequested (Subject (crtCertificate (credCrt (caCred ca)))) csr t), ca)
  | _ => (Err "CSR must contain an ECDSA public key", ca)
  end.

(** The key was generated by the caller's [GenerateKey]. *)
Definition CreateRootCA (name : string) (key : GenericPrivateKey) (validity : Validity) (now : Z) : res CA :=
  let t := asCA name (-1) false (createTemplate 1 (publicOf key) validity now) in
  match CreateCertificate t t (publicOf key) key with
  | None => Err "create"
  | Some crtb =>
      match ParseCertificate crtb with
      | None => Err "parse"
      | Some c =>
          let* cred := validCredOrPanic key (mkCrt c []) in
          let ca := NewCA cred validity in
          Ok (mkCA (caCred ca) (caValidity ca) (u64 (nextSerialNumber ca + 1)) (firstCrtExpiration ca))
      end
  end.

Definition GenerateCA (ca : CA) (name : string) (maxPathLen : Z) (key : GenericPrivateKey) (now : Z) : res CA * CA :=
  let '(t, ca) := ca_createTemplate ca (publicOf key) now in
  (let* crt := SignCrt (caCred ca) (asCA name maxPathLen true t) in
   let* cred := validCredOrPanic key crt in
   Ok (NewCA cred (caValidity ca)), ca).

Definition GenerateEndEntityCred (ca : CA) (dnsName : string) (key : GenericPrivateKey) (now : Z) : res Cred * CA :=
  let '(r, ca) := IssueEndEntityCrt ca (mkCSR (publicOf key) (mkName dnsName []) [] [dnsName] [] [] []) now in
  (let* crt := r in validCredOrPanic key crt, ca).

(** The time is that of the option, or the current one. *)
Definition Verify (crt : Crt) (roots : list Certificate) (name : string) (currentTime : Z) : option verifyError :=
  VerifyCertificate (crtCertificate crt) roots (TrustChain crt) name currentTime.

(** * Encoding *)
Context `{!PEM}.

(** [chain[len-i] = c.Raw]: leaf first, root last. *)
Definition ExtractRaw (crt : Crt) : list string := Raw (crtCertificate crt) :: reverse (Raw <$> TrustChain crt).

Fixpoint EncodeCertificatesPEM (crts : list Certificate) : string :=
  match crts with [] => "" | c :: crts => pem_Encode "CERTIFICATE" (Raw c) +:+ EncodeCertificatesPEM crts end.
Definition EncodePEM (crt : Crt) : string :=
  pem_Encode "CERTIFICATE" (Raw (crtCertificate crt)) +:+ EncodeCertificatesPEM (reverse (TrustChain crt)).

Definition EncodePrivateKeyPEM (cred : Cred) : res string :=
  match PrivateKey cred with
  | privateKeyEC _ _ _ => match MarshalECPrivateKey (PrivateKey cred) with
                          | Some b => Ok (pem_Encode "EC PRIVATE KEY" b)
                          | None => Panic
                          end
  | privateKeyRSA _ _ _ => Ok (pem_Encode "EC PRIVATE KEY" (MarshalPKCS1PrivateKey (PrivateKey cred)))
  end.

Definition DecodePEMKey (txt : string) : res GenericPrivateKey :=
  let parsed (r : option GenericPrivateKey) := match r with Some k => Ok k | None => Err "parse" end in
  match pem_Decode txt with
  | None => Err "not PEM-encoded"
  | Some (type_, bytes, _) =>
      if bool_decide (type_ = "EC PRIVATE KEY") then parsed (ParseECPrivateKey bytes)
      else if bool_decide (type_ = "RSA PRIVATE KEY") then parsed (ParsePKCS1PrivateKey bytes)
      else if bool_decide (type_ = "PRIVATE KEY") then
        match ParsePKCS8PrivateKey bytes with
        | Some (inl k) => Ok k
        | Some (inr _) => Err "unsupported PKCS#8 encoded private key type"
        | None => Err "parse"
        end
      else Err "unsupported block type"
  end.

(** The certificate of the first block, if it is one, and the rest of the text, which is
    dropped behind a block of another type. *)
Definition decodeCertificatePEM (crtb : string) : res (option Certificate * string) :=
  match pem_Decode crtb with
  | None => Err "not a PEM certificate"
  | Some (type_, bytes, rest) =>
      if bool_decide (type_ = "CERTIFICATE")
      then match ParseCertificate bytes with Some c => Ok (Some c, rest) | None => Err "parse" end
      else Ok (None, "")
  end.

(** The loop; each turn shortens the text, so its length is enough fuel. *)
Fixpoint decodeLoop (fuel : nat) (buf : string) (certs : list Certificate) : res (list Certificate) :=
  match buf, fuel with
  | EmptyString, _ => Ok certs
  | _, O => Err "fuel"
  | _, S fuel =>
      let* r := decodeCertificatePEM buf in
      decodeLoop fuel r.2 (match r.1 with Some c => certs ++ [c] | None => certs end)
  end.
Definition DecodePEMCertificates (txt : string) : res (list Certificate) := decodeLoop (String.length txt) txt [].

Definition DecodePEMCrt (txt : string) : res Crt :=
  let* certs := DecodePEMCertificates txt in
  match certs with
  | [] => Err "No certificates found"
  | c :: certs => Ok (mkCrt c (reverse certs))
  end.
Definition DecodePEMCertPool (txt : string) : res (list Certificate) :=
  let* certs := DecodePEMCertificates txt in
  match certs with [] => Err "no certificates found" | _ => Ok certs end.

Definition ValidateAndCreateCreds (crt key : string) : res Cred :=
  let* k := DecodePEMKey key in
  let* c := DecodePEMCrt crt in
  if matchesCertificate k (crtCertificate c) then Ok (mkCred k c) else Err "tls: Public and private key do not match".

(** The files' contents, [None] when they cannot be read. *)
Definition ReadPEMCreds (key crt : option string) : res Cred :=
  match key with
  | None => Err "read"
  | Some keyb => match crt with None => Err "read" | Some crtb => ValidateAndCreateCreds crtb keyb end
  end.

(** * Watching the files *)
(** An event of the directory, whose path is clean: a secret was updated when its data directory
    is created. *)
Definition dataDirectoryLnName : string := "..data".
Definition isUpdate (certRootPath : string) (created : bool) (name : string) : bool :=
  created && bool_decide (name = certRootPath +:+ "/" +:+ dataDirectoryLnName).

(** [UpdateCert]: the pair that servers use, kept if the files cannot be read. *)
Definition UpdateCert (key crt : option string) : res (list string * GenericPrivateKey) :=
  let* creds := ReadPEMCreds key crt in
  let* keyPEM := EncodePrivateKeyPEM creds in
  match X509KeyPair (EncodePEM (credCrt creds)) keyPEM with Some cert => Ok cert | None => Err "key pair" end.
(** One turn of [ProcessEvents] for an update. *)
Definition onUpdateEvent (certVal : option (list string * GenericPrivateKey)) (key crt : option string) :
    res (option (list string * GenericPrivateKey)) :=
  match UpdateCert key crt with Ok cert => Ok (Some cert) | Err _ => Ok certVal | Panic => Panic end.
End x509.
