(* ===== verification/Identity.v ===== *)
(** The identity service: [pkg/identity/service.go], and the validation of tokens of
    [controller/identity] ([validator.go], [domain.go]).

    A proxy sends a token of its service account and a request for a certificate; the service
    asks the API server who the token belongs to and signs the certificate for exactly that
    identity.  The API server's reviews, and the validation of labels of k8s.io/apimachinery,
    are parameters. *)
From S2P Require Import Prelude GoStd Tls.

#[local] Open Scope string_scope.
#[local] Open Scope list_scope.
#[local] Open Scope Z_scope.
#[local] Open Scope go_scope.

(** * Labels *)
Definition isLabelChar (a : ascii) : bool :=
  let n := N_of_ascii a in
  ((97 <=? n) && (n <=? 122) || (48 <=? n) && (n <=? 57) || (n =? 45))%N.
Fixpoint allChars (f : ascii → bool) (s : string) : bool :=
  match s with EmptyString => true | String a s => f a && allChars f s end.

(** A label consists of lower case alphanumeric characters and hyphens. *)
Class Validation := {
  IsDNS1123Label : string → bool;
  IsDNS1123Subdomain : string → bool;
  label_chars s : IsDNS1123Label s = true → allChars isLabelChar s = true }.

(** [strings.Contains] of a text. *)
Fixpoint ContainsText (s sub : string) : bool :=
  strings.HasPrefix s sub || match s with EmptyString => false | String _ s => ContainsText s sub end.

(** * Trust domains *)
Record TrustDomain := mkTrustDomain { controlNS : string; domain : string }.

Section domain.
Context `{!Validation}.

Definition NewTrustDomain (controlNS domain : string) : res TrustDomain :=
  if negb (IsDNS1123Label controlNS) then Err "invalid label"
  else if negb (IsDNS1123Subdomain domain) then Err "invalid domain"
  else Ok (mkTrustDomain controlNS domain).

Definition identityName (d : TrustDomain) (typ nm ns : string) : string :=
  nm +:+ "." +:+ ns +:+ "." +:+ typ +:+ ".identity." +:+ controlNS d +:+ "." +:+ domain d.
Definition Identity (d : TrustDomain) (typ nm ns : string) : res string :=
  if forallb IsDNS1123Label [typ; nm; ns] then Ok (identityName d typ nm ns) else Err "invalid label".

(** * Tokens *)
Definition LinkerdAudienceKey : string := "identity.l5d.io".

Record reviewStatus := mkReview { rv_Error : string; rv_Authenticated : bool; rv_Username : string }.

(** What a validator returns: the identity, or one of its errors. *)
Inductive validated := Valid (id : string) | InvalidToken | NotAuthenticated | OtherError.

(** The API server's review of a token for audiences; [None] when the call fails. *)
Abbreviation reviews := (string → list string → option reviewStatus).

(** Behind the review: the identity of the user. *)
Definition identityOf (d : TrustDomain) (rvw : reviewStatus) : validated :=
  if negb (rv_Authenticated rvw) then NotAuthenticated else
  match strings.Split (rv_Username rvw) ":" with
  | [system; typ; ns; sa] =>
      if bool_decide (system = "system") then
        if forallb IsDNS1123Label [typ; ns; sa] then
          match Identity d typ sa ns with Ok id => Valid id | _ => OtherError end
        else InvalidToken
      else InvalidToken
  | _ => InvalidToken
  end.

Definition Validate (review : reviews) (d : TrustDomain) (tok : string) : validated :=
  match review tok [LinkerdAudienceKey] with
  | None => OtherError
  | Some rvw =>
      if bool_decide (rv_Error rvw = "") then identityOf d rvw
      else if ContainsText (rv_Error rvw) "token audiences" then
        match review tok [] with
        | None => OtherError
        | Some rvw => if bool_decide (rv_Error rvw = "") then identityOf d rvw else InvalidToken
        end
      else InvalidToken
  end.

(** May the service create reviews at all? *)
Definition checkAccess (answer : option bool) : res () :=
  match answer with None => Err "review" | Some true => Ok () | Some false => Err "Unable to create kubernetes token reviews" end.
Definition NewK8sTokenValidator (answer : option bool) (review : reviews) (d : TrustDomain) : res (string → validated) :=
  let* _ := checkAccess answer in Ok (Validate review d).
End domain.

(** * The service *)
Record CertifyRequest := mkRequest { req_Identity : string; req_Token : string; req_CSR : string }.
Record CertifyResponse := mkResponse {
  LeafCertificate : string; IntermediateCertificates : list string; ValidUntil : Z }.

Inductive code := Unavailable | InvalidArgument | FailedPrecondition | Internal | Unknown.
Inductive event := IssuerUpdateSkipped | IssuerUpdated | IssuerValidationFailed | IssuedLeafCertificate (name namespace : string).

Record Service := mkService {
  validator : string → validated; trustAnchors : list Certificate; issuer : option CA; validity : Validity;
  events : list event }.
Definition NewService (validator : string → validated) (trustAnchors : list Certificate) (validity : Validity) : Service :=
  mkService validator trustAnchors None validity [].
Definition updateIssuer (newIssuer : CA) (svc : Service) : Service :=
  mkService (validator svc) (trustAnchors svc) (Some newIssuer) (validity svc) (events svc).
Definition recordEvent (e : event) (svc : Service) : Service :=
  mkService (validator svc) (trustAnchors svc) (issuer svc) (validity svc) (events svc ++ [e]).

(** The result of a call: an answer, an error with its code, or the end of the process. *)
Inductive outcome := Certified (r : CertifyResponse) | Refused (c : code) | Crashed.

Definition checkCSR (csr : CertificateRequest) (identity : string) : res () :=
  match csrDNSNames csr with
  | [name] =>
      if bool_decide (name ≠ identity) then Err "CSR name does not match requested identity"
      else if negb (bool_decide (CommonName (csrSubject csr) = "" ∨ CommonName (csrSubject csr) = identity)) then Err "invalid CommonName"
      else if bool_decide (csrEmailAddresses csr ≠ []) then Err "cannot validate email addresses"
      else if bool_decide (csrIPAddresses csr ≠ []) then Err "cannot validate IP addresses"
      else if bool_decide (csrURIs csr ≠ []) then Err "cannot validate URIs"
      else Ok ()
  | _ => Err "CSR must have exactly one DNSName"
  end.

Section service.
Context `{!X509} `{!PEM}.

Definition loadCredentials (svc : Service) (key crt : option string) (now : Z) : res CA :=
  let* creds := ReadPEMCreds key crt in
  match Verify (credCrt creds) (trustAnchors svc) "" now with
  | Some _ => Err "failed to verify issuer credentials"
  | None =>
      if IsCA (crtCertificate (credCrt creds)) then Ok (NewCA creds (validity svc))
      else Err "failed to verify issuer certificate: it must be an intermediate-CA, but it is not"
  end.

Definition Initialize (svc : Service) (key crt : option string) (now : Z) : res Service :=
  let* ca := loadCredentials svc key crt now in Ok (updateIssuer ca svc).

(** One turn of [Run] for an event of the issuer's files. *)
Definition onIssuerEvent (svc : Service) (key crt : option string) (now : Z) : Service :=
  match Initialize svc key crt now with
  | Ok svc => recordEvent IssuerUpdated svc
  | _ => recordEvent IssuerUpdateSkipped svc
  end.

Definition ensureIssuerStillValid (svc : Service) (ca : CA) (now : Z) : option verifyError :=
  Verify (credCrt (caCred ca)) (trustAnchors svc) "" now.

Definition checkRequest (req : CertifyRequest) : res (string * string * CertificateRequest) :=
  if bool_decide (req_Identity req = "") then Err "missing identity"
  else if bool_decide (req_Token req = "") then Err "missing token"
  else if bool_decide (req_CSR req = "") then Err "missing certificate signing request"
  else match ParseCertificateRequest (req_CSR req) with
       | Some csr => Ok (req_Identity req, req_Token req, csr)
       | None => Err "parse"
       end.

(** The part of [Certify] behind the checks: the certificate, the event and the answer. *)
Definition issue (svc : Service) (ca : CA) (csr : CertificateRequest) (tokIdentity : string) (now : Z) : outcome * Service :=
  let '(r, ca) := IssueEndEntityCrt ca csr now in
  let svc := updateIssuer ca svc in
  match r with
  | Ok crt =>
      match ExtractRaw crt with
      | [] => (Crashed, svc)
      | leaf :: intermediates =>
          match strings.Split tokIdentity "." with
          | name :: namespace :: _ =>
              (Certified (mkResponse leaf intermediates (NotAfter (crtCertificate crt))),
               recordEvent (IssuedLeafCertificate name namespace) svc)
          | _ => (Crashed, svc)
          end
      end
  | _ => (Refused Internal, svc)
  end.

Definition Certify (svc : Service) (req : CertifyRequest) (now : Z) : outcome * Service :=
  match issuer svc with
  | None => (Refused Unavailable, svc)
  | Some ca =>
      match checkRequest req with
      | Ok (reqIdentity, tok, csr) =>
          match ensureIssuerStillValid svc ca now with
          | Some _ => (Refused Unknown, recordEvent IssuerValidationFailed svc)
          | None =>
              match checkCSR csr reqIdentity with
              | Ok _ =>
                  match validator svc tok with
                  | NotAuthenticated => (Refused FailedPrecondition, svc)
                  | InvalidToken => (Refused InvalidArgument, svc)
                  | OtherError => (Refused Internal, svc)
                  | Valid tokIdentity =>
                      if bool_decide (reqIdentity ≠ tokIdentity) then (Refused FailedPrecondition, svc)
                      else issue svc ca csr tokIdentity now
                  end
              | _ => (Refused FailedPrecondition, svc)
              end
          end
      | _ => (Refused InvalidArgument, svc)
      end
  end.
End service.

(** * Concurrent requests *)
(** [Certify] holds the mutex for reading only, so calls run side by side.  Where they share
    the authority, in [createTemplate]: the serial number is read for the template, and read
    and written back for the increment. *)
Inductive creating := AtStart | Made (serial : Z) | Loaded (serial next : Z) | Finished (serial : Z).
Definition createStep (next : Z) (p : creating) : option (Z * creating) :=
  match p with
  | AtStart => Some (next, Made next)
  | Made s => Some (next, Loaded s next)
  | Loaded s n => Some (u64 (n + 1), Finished s)
  | Finished _ => None
  end.
Inductive interleaved : Z * list creating → Z * list creating → Prop :=
  | interleaved_step next ps i p next' p' :
      ps !! i = Some p → createStep next p = Some (next', p') → interleaved (next, ps) (next', <[i := p']> ps).
