(* ===== verification/IdentityProps.v ===== *)
(** Theorems on the identity service: what a certificate it signs says, who it is given to,
    that the issuer it signs with is always a valid authority, and that chains survive PEM. *)
From S2P Require Import Prelude GoStd Tls Identity.

#[local] Open Scope string_scope.
#[local] Open Scope list_scope.
#[local] Open Scope Z_scope.
#[local] Open Scope go_scope.

(** * Validity *)
Lemma findFirstExpiration_le cred c :
  c ∈ crtCertificate (credCrt cred) :: TrustChain (credCrt cred) → findFirstExpiration cred ≤ NotAfter c.
Proof.
  unfold findFirstExpiration. generalize (crtCertificate (credCrt cred)) (TrustChain (credCrt cred)). intros c0 l. revert c0.
  assert (∀ l m, foldl (λ first c, if bool_decide (NotAfter c < first) then NotAfter c else first) m l ≤ m) as Hle.
  { induction l0 as [|x l0 IH]; intros m; simpl; [lia|]. case_bool_decide; [|apply IH]. etrans; [apply IH|lia]. }
  intros c0 [->|Hin]%elem_of_cons; [apply Hle|]. generalize (NotAfter c0) as m. clear c0.
  induction l as [|x l IH]; intros m; [by apply elem_of_nil in Hin|]. simpl.
  apply elem_of_cons in Hin as [->|Hin]; [|by apply IH]. case_bool_decide; [apply Hle|]. etrans; [apply Hle|lia].
Qed.

Lemma trunc_le t : trunc t ≤ t.
Proof. unfold trunc. pose proof (Z.mul_div_le t 1000000000). lia. Qed.

Lemma ca_createTemplate_NotAfter ca k now :
  NotAfter (ca_createTemplate ca k now).1 ≤ firstCrtExpiration ca.
Proof. unfold ca_createTemplate. cbn -[createTemplate]. case_bool_decide; [done|]. cbn -[createTemplate]. lia. Qed.

(** A template is not one of an authority and has no extra extensions. *)
Lemma ca_createTemplate_plain ca k now :
  let t := (ca_createTemplate ca k now).1 in IsCA t = false ∧ ExtraExtensions t = [].
Proof. unfold ca_createTemplate, createTemplate. cbn -[Window]. destruct (Window _ _). by case_bool_decide. Qed.

Section issue.
Context `{!X509}.

Lemma IssueEndEntityCrt_spec ca ca' csr now crt :
  csrExtraExtensions csr = [] → IssueEndEntityCrt ca csr now = (Ok crt, ca') →
  let c := crtCertificate crt in
  ParseCertificate (Raw c) = Some c ∧ DNSNames c = csrDNSNames csr ∧ EmailAddresses c = csrEmailAddresses csr
  ∧ IPAddresses c = csrIPAddresses csr ∧ URIs c = csrURIs csr ∧ CommonName (Subject c) = CommonName (csrSubject csr)
  ∧ IsCA c = false ∧ NotAfter c ≤ firstCrtExpiration ca
  ∧ TrustChain crt = TrustChain (credCrt (caCred ca)) ++ [crtCertificate (credCrt (caCred ca))].
Proof.
  intros Hext. unfold IssueEndEntityCrt. destruct (csrPublicKey csr) as [x y| |] eqn:Hk; [|done..].
  pose proof (ca_createTemplate_NotAfter ca (ECDSAPublic x y) now) as Hna.
  pose proof (ca_createTemplate_plain ca (ECDSAPublic x y) now) as [Hca _].
  assert (caCred (ca_createTemplate ca (ECDSAPublic x y) now).2 = caCred ca) as Hcred by done.
  destruct (ca_createTemplate ca (ECDSAPublic x y) now) as [t ca1]. cbn [fst snd] in *. intros [= Hs <-].
  unfold SignCrt in Hs. rewrite Hcred in Hs.
  destruct (CreateCertificate _ _ _ _) as [der|] eqn:Hc; [|done].
  destruct (ParseCertificate der) as [c|] eqn:Hp; [|done]. injection Hs as <-. cbn.
  destruct (create_parse (asRequested (Subject (crtCertificate (credCrt (caCred ca)))) csr t) _ _ _ _ _ Hext Hc Hp) as (H1 & H2 & H3 & H4 & H5 & H6 & _ & H8 & _).
  rewrite (parse_raw _ _ Hp), Hp. split_and!; try done.
  - rewrite H6. cbn. by rewrite Hca, andb_false_r.
  - rewrite H8. cbn. etrans; [apply trunc_le|done].
Qed.

Lemma IssueEndEntityCrt_ca ca ca' csr now r :
  IssueEndEntityCrt ca csr now = (r, ca') →
  caCred ca' = caCred ca ∧ firstCrtExpiration ca' = firstCrtExpiration ca.
Proof. unfold IssueEndEntityCrt, ca_createTemplate. destruct (csrPublicKey csr); cbn; intros [= _ <-]; done. Qed.
End issue.

(** * The issuer *)
(** An authority as the service may sign with: its key belongs to its certificate, which is one
    of an authority, and no certificate of its chain expires before the time it clamps to. *)
Record ca_ok (ca : CA) : Prop := {
  ok_first : firstCrtExpiration ca = findFirstExpiration (caCred ca);
  ok_isCA : IsCA (crtCertificate (credCrt (caCred ca))) = true;
  ok_key : matchesCertificate (PrivateKey (caCred ca)) (crtCertificate (credCrt (caCred ca))) = true }.
Definition svc_ok (svc : Service) : Prop := match issuer svc with Some ca => ca_ok ca | None => True end.

Section service.
Context `{!X509} `{!PEM}.

(** What happens to a service: requests, and events of the issuer's files, which may hold
    anything. *)
Inductive reachable (v : string → validated) (roots : list Certificate) (vd : Validity) : Service → Prop :=
  | reachable_new : reachable v roots vd (NewService v roots vd)
  | reachable_certify svc req now : reachable v roots vd svc → reachable v roots vd (Certify svc req now).2
  | reachable_event svc key crt now : reachable v roots vd svc → reachable v roots vd (onIssuerEvent svc key crt now).

Lemma loadCredentials_ok svc key crt now ca : loadCredentials svc key crt now = Ok ca → ca_ok ca.
Proof.
  unfold loadCredentials. intros (creds & Hr & Hl)%res_bind_Ok.
  destruct (Verify _ _ _ _); [done|]. destruct (IsCA _) eqn:Hca; [|done]. injection Hl as <-.
  split; [done|done|]. destruct key as [keyb|], crt as [crtb|]; try done. unfold ReadPEMCreds, ValidateAndCreateCreds in Hr.
  apply res_bind_Ok in Hr as (k & _ & Hr). apply res_bind_Ok in Hr as (c & _ & Hr).
  destruct (matchesCertificate k _) eqn:Hm; [|done]. by injection Hr as <-.
Qed.

Lemma ca_ok_issue ca ca' csr now r : ca_ok ca → IssueEndEntityCrt ca csr now = (r, ca') → ca_ok ca'.
Proof. intros [] [Hc Hf]%IssueEndEntityCrt_ca. split; by rewrite ?Hc, ?Hf. Qed.

Lemma svc_ok_event svc key crt now : svc_ok svc → svc_ok (onIssuerEvent svc key crt now).
Proof.
  unfold onIssuerEvent. destruct (Initialize svc key crt now) as [svc'| |] eqn:Hi; [|done..].
  apply res_bind_Ok in Hi as (ca & Hl & [= <-]). intros _. by eapply loadCredentials_ok.
Qed.

(** A request that passes the checks. *)
Record admitted (svc : Service) (req : CertifyRequest) (now : Z) (ca : CA) (csr : CertificateRequest) : Prop := {
  ad_issuer : issuer svc = Some ca;
  ad_valid : ensureIssuerStillValid svc ca now = None;
  ad_parsed : ParseCertificateRequest (req_CSR req) = Some csr;
  ad_csr : checkCSR csr (req_Identity req) = Ok ();
  ad_token : validator svc (req_Token req) = Valid (req_Identity req) }.

Lemma Certify_cases svc req now :
  (∃ c, (Certify svc req now).1 = Refused c ∧ issuer (Certify svc req now).2 = issuer svc)
  ∨ ∃ ca csr, admitted svc req now ca csr ∧ Certify svc req now = issue svc ca csr (req_Identity req) now.
Proof.
  unfold Certify. destruct (issuer svc) as [ca|] eqn:Hi; [|left; by eexists].
  destruct (checkRequest req) as [[[id tok] csr]| |] eqn:Hr; [|left; by eexists..].
  destruct (ensureIssuerStillValid svc ca now) eqn:Hv; [left; by eexists|].
  destruct (checkCSR csr id) as [[]| |] eqn:Hc; [|left; by eexists..].
  destruct (validator svc tok) as [tid| | |] eqn:Hval; [|left; by eexists..].
  case_bool_decide as Heq; [left; by eexists|]. right. exists ca, csr. subst tid.
  unfold checkRequest in Hr. repeat (case_bool_decide; [done|]).
  destruct (ParseCertificateRequest _) eqn:Hp; [|done]. injection Hr as <- <- <-. done.
Qed.

Lemma issue_issuer svc ca csr id now :
  ∃ r ca', IssueEndEntityCrt ca csr now = (r, ca') ∧ issuer (issue svc ca csr id now).2 = Some ca'.
Proof.
  unfold issue. destruct (IssueEndEntityCrt ca csr now) as [r ca']. exists r, ca'. split; [done|]. by repeat case_match.
Qed.

Lemma svc_ok_certify svc req now : svc_ok svc → svc_ok (Certify svc req now).2.
Proof.
  unfold svc_ok. intros Hok. destruct (Certify_cases svc req now) as [(c & _ & ->)|(ca & csr & [] & ->)]; [done|].
  rewrite ad_issuer0 in Hok. destruct (issue_issuer svc ca csr (req_Identity req) now) as (r & ca' & Hr & ->).
  by eapply ca_ok_issue.
Qed.

Lemma reachable_ok v roots vd svc : reachable v roots vd svc → svc_ok svc.
Proof. induction 1; [done|by apply svc_ok_certify|by apply svc_ok_event]. Qed.

Lemma checkCSR_spec csr id : checkCSR csr id = Ok () →
  csrDNSNames csr = [id] ∧ (CommonName (csrSubject csr) = "" ∨ CommonName (csrSubject csr) = id)
  ∧ csrEmailAddresses csr = [] ∧ csrIPAddresses csr = [] ∧ csrURIs csr = [].
Proof.
  unfold checkCSR. destruct (csrDNSNames csr) as [|name [|]]; [done| |done].
  case_bool_decide as Hn; [done|]. case_bool_decide as Hc; cbn [negb]; [|done]. repeat (case_bool_decide; [done|]).
  intros _. split_and!; [by rewrite Hn|done|done..].
Qed.

(** C2: A certificate says what was checked, and no more.  In every state the service can get
    into, if it answers a request, then its issuer is valid at that moment, the token was
    validated for the very identity that was asked for, and the certificate, read back, has
    this identity as its only name: no other DNS name, no email or IP address and no URI, a
    common name that is empty or the identity, and no rights of an authority.  It expires
    with or before every certificate of its chain, the answer says when, and carries the
    chain from the issuer up to the root. *)
Theorem certify_sound v roots vd svc svc' req now r :
  reachable v roots vd svc → Certify svc req now = (Certified r, svc') →
  ∃ ca leaf, issuer svc = Some ca ∧ ensureIssuerStillValid svc ca now = None
    ∧ validator svc (req_Token req) = Valid (req_Identity req)
    ∧ ParseCertificate (LeafCertificate r) = Some leaf ∧ ValidUntil r = NotAfter leaf
    ∧ DNSNames leaf = [req_Identity req] ∧ EmailAddresses leaf = [] ∧ IPAddresses leaf = [] ∧ URIs leaf = []
    ∧ (CommonName (Subject leaf) = "" ∨ CommonName (Subject leaf) = req_Identity req) ∧ IsCA leaf = false
    ∧ (let crt := credCrt (caCred ca) in
       (∀ c, c ∈ crtCertificate crt :: TrustChain crt → NotAfter leaf ≤ NotAfter c)
       ∧ IntermediateCertificates r = Raw (crtCertificate crt) :: reverse (Raw <$> TrustChain crt)).
Proof.
  intros Hreach Hc. pose proof (reachable_ok _ _ _ _ Hreach) as Hok. unfold svc_ok in Hok.
  destruct (Certify_cases svc req now) as [(c & Hr & _)|(ca & csr & [] & Heq)]; [by rewrite Hc in Hr|].
  rewrite ad_issuer0 in Hok. rewrite Heq in Hc. unfold issue in Hc.
  destruct (IssueEndEntityCrt ca csr now) as [[crt| |] ca'] eqn:Hiss; [|done..].
  destruct (strings.Split _ _) as [|name [|ns l]]; cbn in Hc; [done..|]. injection Hc as <- <-.
  destruct (IssueEndEntityCrt_spec _ _ _ _ _ (csr_parse _ _ ad_parsed0) Hiss) as (H1 & H2 & H3 & H4 & H5 & H6 & H7 & H8 & H9).
  destruct (checkCSR_spec _ _ ad_csr0) as (C1 & C2 & C3 & C4 & C5).
  exists ca, (crtCertificate crt). split_and!; [done..|congruence|congruence|congruence|congruence|by rewrite H6|done|].
  split.
  - intros c Hin. etrans; [exact H8|]. destruct Hok as [-> _ _]. by apply findFirstExpiration_le.
  - rewrite H9, fmap_app, reverse_app. done.
Qed.

(** * Whose certificate it is *)
Context `{!Validation}.

Lemma label_no s a : isLabelChar a = false → IsDNS1123Label s = true → strings.Contains s a = false.
Proof.
  intros Ha Hs%label_chars. induction s as [|b s IH]; [done|]. simpl in *. apply andb_true_iff in Hs as [Hb Hs].
  apply orb_false_iff. split; [|by apply IH]. apply Ascii.eqb_neq. intros ->. congruence.
Qed.

Lemma identityName_inj d typ nm ns typ' nm' ns' :
  IsDNS1123Label typ = true → IsDNS1123Label nm = true → IsDNS1123Label ns = true →
  IsDNS1123Label typ' = true → IsDNS1123Label nm' = true → IsDNS1123Label ns' = true →
  identityName d typ nm ns = identityName d typ' nm' ns' → typ = typ' ∧ nm = nm' ∧ ns = ns'.
Proof.
  intros Ht Hn Hs Ht' Hn' Hs' Heq. unfold identityName in Heq.
  assert (∀ a b a' b', IsDNS1123Label a = true → IsDNS1123Label a' = true → a +:+ "." +:+ b = a' +:+ "." +:+ b' → a = a' ∧ b = b')
    as Hcut.
  { intros a b a' b' Ha Ha' Hab. apply (f_equal (λ s, cut_first s ".")) in Hab.
    change ("." +:+ b) with (String "." b) in Hab. change ("." +:+ b') with (String "." b') in Hab.
    rewrite !cut_first_app in Hab by (by apply label_no). by simplify_eq. }
  apply Hcut in Heq as [-> Heq]; [|done..]. apply Hcut in Heq as [-> Heq]; [|done..].
  apply (Hcut typ ("identity." +:+ controlNS d +:+ "." +:+ domain d) typ' ("identity." +:+ controlNS d +:+ "." +:+ domain d)) in Heq
    as [-> _]; done.
Qed.

Lemma identityOf_Valid d rvw id : identityOf d rvw = Valid id →
  rv_Authenticated rvw = true ∧ ∃ typ nm ns, IsDNS1123Label typ = true ∧ IsDNS1123Label nm = true ∧ IsDNS1123Label ns = true
    ∧ id = identityName d typ nm ns ∧ rv_Username rvw = "system:" +:+ typ +:+ ":" +:+ ns +:+ ":" +:+ nm.
Proof.
  unfold identityOf, Identity. destruct (rv_Authenticated rvw); cbn [negb]; [|done].
  pose proof (strings.Join_Split (rv_Username rvw) ":") as Hj.
  destruct (strings.Split (rv_Username rvw) ":") as [|system [|typ [|ns [|sa [|]]]]]; try done.
  case_bool_decide as Hsys; [|done]. subst system. cbn [forallb].
  destruct (IsDNS1123Label typ) eqn:Ht, (IsDNS1123Label ns) eqn:Hn, (IsDNS1123Label sa) eqn:Hs; try done.
  cbn. intros [= <-]. split; [done|]. exists typ, sa, ns. rewrite <-Hj. done.
Qed.

Lemma Validate_Valid review d tok id : Validate review d tok = Valid id →
  ∃ audiences rvw, (audiences = [LinkerdAudienceKey] ∨ audiences = []) ∧ review tok audiences = Some rvw
    ∧ rv_Error rvw = "" ∧ identityOf d rvw = Valid id.
Proof.
  unfold Validate. destruct (review tok [LinkerdAudienceKey]) as [rvw|] eqn:Hr; [|done].
  case_bool_decide as He; [by eexists _, rvw; eauto|]. destruct (ContainsText _ _); [|done].
  destruct (review tok []) as [rvw'|] eqn:Hr'; [|done]. case_bool_decide as He'; [|done]. by eexists _, rvw'; eauto.
Qed.

(** The service as it is set up: tokens are reviewed by the API server, for the trust domain. *)
Definition reviews_tokens (review : string → list string → option reviewStatus) (d : TrustDomain) (svc : Service) : Prop :=
  validator svc = Validate review d.

(** C10: Certificates go only to the owner of the identity.  With tokens validated by the API
    server, whatever service account a request names, it gets a certificate only if the API
    server authenticated its token as that of this very account: from the name in the
    certificate the kind of user, namespace and name can be read back without ambiguity. *)
Theorem certify_owner review d svc svc' req now r typ nm ns :
  reviews_tokens review d svc → Certify svc req now = (Certified r, svc') →
  IsDNS1123Label typ = true → IsDNS1123Label nm = true → IsDNS1123Label ns = true →
  req_Identity req = identityName d typ nm ns →
  ∃ audiences rvw, review (req_Token req) audiences = Some rvw ∧ rv_Error rvw = "" ∧ rv_Authenticated rvw = true
    ∧ rv_Username rvw = "system:" +:+ typ +:+ ":" +:+ ns +:+ ":" +:+ nm.
Proof.
  unfold reviews_tokens. intros Hv Hc Ht Hn Hs Hid. destruct (Certify_cases svc req now) as [(c & Hr & _)|(ca & csr & [] & _)]; [by rewrite Hc in Hr|].
  rewrite Hv, Hid in ad_token0. destruct (Validate_Valid _ _ _ _ ad_token0) as (auds & rvw & _ & Hr & He & Hi).
  destruct (identityOf_Valid _ _ _ Hi) as (Ha & typ' & nm' & ns' & Ht' & Hn' & Hs' & Heq & Hu).
  apply identityName_inj in Heq as (-> & -> & ->); [|done..]. by exists auds, rvw.
Qed.

(** C39: No request ends the process: with the API server's validator every call is answered by
    a certificate or an error, and an identity that was validated always has the two parts
    the event is recorded with. *)
Theorem certify_no_crash review d svc req now :
  reviews_tokens review d svc → (Certify svc req now).1 ≠ Crashed.
Proof.
  unfold reviews_tokens. intros Hv. destruct (Certify_cases svc req now) as [(c & -> & _)|(ca & csr & [] & ->)]; [done|].
  rewrite Hv in ad_token0. destruct (Validate_Valid _ _ _ _ ad_token0) as (auds & rvw & _ & Hr & He & Hi).
  destruct (identityOf_Valid _ _ _ Hi) as (Ha & typ & nm & ns & Ht & Hn & Hs & -> & Hu).
  unfold issue. destruct (IssueEndEntityCrt ca csr now) as [[crt| |] ca']; [|done..]. cbn [ExtractRaw].
  unfold identityName. match goal with |- context [nm +:+ "." +:+ ?x] => change (nm +:+ "." +:+ x) with (nm +:+ String "." x) end.
  rewrite (strings.Split_app nm) by (by apply label_no).
  destruct (strings.Split _ _) eqn:Hsp; [by apply strings.Split_not_nil in Hsp|done].
Qed.

(** * Serial numbers *)
Lemma Certify_serial svc svc' req now r ca :
  issuer svc = Some ca → Certify svc req now = (Certified r, svc') →
  ∃ leaf, ParseCertificate (LeafCertificate r) = Some leaf ∧ SerialNumber leaf = i64 (nextSerialNumber ca).
Proof.
  intros Hi Hc. destruct (Certify_cases svc req now) as [(c & Hr & _)|(ca' & csr & [] & Heq)]; [by rewrite Hc in Hr|].
  rewrite Hi in ad_issuer0. injection ad_issuer0 as <-. rewrite Heq in Hc. unfold issue, IssueEndEntityCrt in Hc.
  destruct (csrPublicKey csr) as [x y| |]; [|done..].
  assert (SerialNumber (ca_createTemplate ca (ECDSAPublic x y) now).1 = i64 (nextSerialNumber ca)) as Hser.
  { unfold ca_createTemplate, createTemplate. cbn -[Window i64]. destruct (Window _ _). by case_bool_decide. }
  destruct (ca_createTemplate _ _ _) as [t ca1]. cbn [fst] in Hser. unfold SignCrt in Hc.
  destruct (CreateCertificate _ _ _ _) as [der|] eqn:Hder; [|done]. destruct (ParseCertificate der) as [c|] eqn:Hp; [|done].
  cbn in Hc. destruct (strings.Split _ _) as [|? [|]]; [done..|]. injection Hc as <- <-. exists c. cbn.
  rewrite (parse_raw _ _ Hp). split; [done|]. rewrite <-Hser.
  by destruct (create_parse (asRequested (Subject (crtCertificate (credCrt (caCred ca1)))) csr t) _ _ _ _ _
    (csr_parse _ _ ad_parsed0) Hder Hp) as (_ & _ & _ & _ & _ & _ & _ & _ & _ & ->).
Qed.

(** Reloading the issuer starts the serial numbers anew: the first certificate after the
    files were read and the first one after they were read again, unchanged, have the same
    serial number and the same issuer. *)
Theorem serials_restart svc svc1 svc2 svc1' svc2' key crt t t' req1 req2 now1 now2 r1 r2 :
  Initialize svc key crt t = Ok svc1 → Certify svc1 req1 now1 = (Certified r1, svc1') →
  Initialize svc1' key crt t' = Ok svc2 → Certify svc2 req2 now2 = (Certified r2, svc2') →
  ∃ leaf1 leaf2, ParseCertificate (LeafCertificate r1) = Some leaf1 ∧ ParseCertificate (LeafCertificate r2) = Some leaf2
    ∧ SerialNumber leaf1 = 1 ∧ SerialNumber leaf2 = 1
    ∧ (caCred <$> issuer svc1) = (caCred <$> issuer svc2).
Proof.
  intros Hi1 Hc1 Hi2 Hc2. apply res_bind_Ok in Hi1 as (ca1 & Hl1 & [= <-]). apply res_bind_Ok in Hi2 as (ca2 & Hl2 & [= <-]).
  assert (∀ svc t ca, loadCredentials svc key crt t = Ok ca → ∃ creds, ReadPEMCreds key crt = Ok creds ∧ ca = NewCA creds (validity svc))
    as Hload.
  { intros s u ca (creds & Hr & Hl)%res_bind_Ok. destruct (Verify _ _ _ _); [done|]. destruct (IsCA _); [|done].
    injection Hl as <-. by exists creds. }
  destruct (Hload _ _ _ Hl1) as (creds1 & Hr1 & ->), (Hload _ _ _ Hl2) as (creds2 & Hr2 & ->).
  rewrite Hr1 in Hr2. injection Hr2 as <-.
  destruct (Certify_serial (updateIssuer _ _) _ _ _ _ _ eq_refl Hc1) as (leaf1 & Hp1 & Hs1).
  destruct (Certify_serial (updateIssuer _ _) _ _ _ _ _ eq_refl Hc2) as (leaf2 & Hp2 & Hs2).
  exists leaf1, leaf2. done.
Qed.

(** * PEM *)
Lemma append_empty_r s : s +:+ "" = s.
Proof. induction s as [|a s IH]; [done|]. exact (f_equal (String a) IH). Qed.

Lemma pem_not_empty t b rest : ∃ a s, pem_Encode t b +:+ rest = String a s.
Proof.
  pose proof (pem_shorter _ _ _ _ (pem_roundtrip t b rest)) as Hs. destruct (pem_Encode t b +:+ rest) as [|a s]; simpl in Hs; [lia|].
  by exists a, s.
Qed.

Lemma decodeCertificatePEM_cert c rest :
  ParseCertificate (Raw c) = Some c → decodeCertificatePEM (pem_Encode "CERTIFICATE" (Raw c) +:+ rest) = Ok (Some c, rest).
Proof. intros Hp. unfold decodeCertificatePEM. by rewrite pem_roundtrip, bool_decide_true, Hp by done. Qed.

(** One turn of the loop for a certificate. *)
Lemma decodeLoop_cert fuel c rest certs :
  ParseCertificate (Raw c) = Some c →
  decodeLoop (S fuel) (pem_Encode "CERTIFICATE" (Raw c) +:+ rest) certs = decodeLoop fuel rest (certs ++ [c]).
Proof.
  intros Hp. destruct (pem_not_empty "CERTIFICATE" (Raw c) rest) as (a & s & Heq).
  pose proof (decodeCertificatePEM_cert c rest Hp) as Hd. rewrite Heq in *. cbn [decodeLoop]. by rewrite Hd.
Qed.

Lemma decodeLoop_certs fuel l rest certs :
  (∀ c, c ∈ l → ParseCertificate (Raw c) = Some c) →
  decodeLoop (length l + fuel) (EncodeCertificatesPEM l +:+ rest) certs = decodeLoop fuel rest (certs ++ l).
Proof.
  revert certs. induction l as [|c l IH]; intros certs Hp; [by rewrite app_nil_r|].
  cbn [length plus Nat.add EncodeCertificatesPEM]. rewrite <-strings.append_assoc. rewrite decodeLoop_cert by (apply Hp; set_solver).
  rewrite IH by (intros; apply Hp; set_solver). by rewrite <-(assoc_L (++)).
Qed.

(** Fuel beyond the length of the text changes nothing. *)
Lemma decodeLoop_fuel fuel buf certs :
  (String.length buf ≤ fuel)%nat → decodeLoop fuel buf certs = decodeLoop (String.length buf) buf certs.
Proof.
  assert (∀ n fuel fuel' buf certs, (String.length buf ≤ n → String.length buf ≤ fuel → String.length buf ≤ fuel' →
    decodeLoop fuel buf certs = decodeLoop fuel' buf certs)%nat) as Hgen; [|intros; by eapply (Hgen (String.length buf))].
  clear. induction n as [|n IH]; intros fuel fuel' buf certs Hn Hf Hf'.
  { by destruct buf, fuel, fuel'; simpl in *; try lia. }
  destruct buf as [|a s]; [by destruct fuel, fuel'|]. destruct fuel as [|fuel]; [simpl in *; lia|].
  destruct fuel' as [|fuel']; [simpl in *; lia|]. cbn [decodeLoop].
  destruct (decodeCertificatePEM (String a s)) as [[o rest]| |] eqn:Hd; cbn; [|done..].
  assert (String.length rest < String.length (String a s))%nat as Hlt.
  { unfold decodeCertificatePEM in Hd. destruct (pem_Decode (String a s)) as [[[ty b] r]|] eqn:Hp; [|done].
    apply pem_shorter in Hp. case_bool_decide; [|by injection Hd as <- <-; simpl; lia].
    destruct (ParseCertificate b); [by injection Hd as <- <-|done]. }
  apply IH; simpl in *; lia.
Qed.

Lemma DecodePEMCertificates_encode l rest :
  (∀ c, c ∈ l → ParseCertificate (Raw c) = Some c) →
  DecodePEMCertificates (EncodeCertificatesPEM l +:+ rest) = decodeLoop (String.length rest) rest l.
Proof.
  intros Hp. unfold DecodePEMCertificates.
  rewrite <-(decodeLoop_fuel (length l + String.length (EncodeCertificatesPEM l +:+ rest))) by lia.
  rewrite decodeLoop_certs by done. apply decodeLoop_fuel. rewrite strings.length_append. lia.
Qed.

Lemma decode_chain crt :
  (∀ c, c ∈ crtCertificate crt :: TrustChain crt → ParseCertificate (Raw c) = Some c) →
  DecodePEMCrt (EncodePEM crt) = Ok crt.
Proof.
  intros Hp. unfold DecodePEMCrt. change (EncodePEM crt) with (EncodeCertificatesPEM (crtCertificate crt :: reverse (TrustChain crt))).
  rewrite <-(append_empty_r (EncodeCertificatesPEM _)), DecodePEMCertificates_encode.
  - cbn. rewrite reverse_involutive. by destruct crt.
  - intros c Hc. apply Hp. apply elem_of_cons in Hc as [->|Hc]; [set_solver|]. apply elem_of_reverse in Hc. set_solver.
Qed.

(** A certificate as it comes out of the parser. *)
Definition as_parsed (c : Certificate) : Prop := ParseCertificate (Raw c) = Some c.

(** C40: Credentials survive being written as PEM and read back: the certificate, its chain in
    the same order, leaf first, and the private key, if it is an EC key; an RSA key would be
    written as an EC key. *)
Theorem creds_roundtrip cred key :
  (∀ c, c ∈ crtCertificate (credCrt cred) :: TrustChain (credCrt cred) → as_parsed c) →
  matchesCertificate (PrivateKey cred) (crtCertificate (credCrt cred)) = true →
  (∃ x y d, PrivateKey cred = privateKeyEC x y d) → EncodePrivateKeyPEM cred = Ok key →
  ValidateAndCreateCreds (EncodePEM (credCrt cred)) key = Ok cred.
Proof.
  intros Hp Hm (x & y & d & Hk) He. unfold EncodePrivateKeyPEM in He. rewrite Hk in *.
  destruct (MarshalECPrivateKey _) as [b|] eqn:Hb; [|done]. injection He as <-.
  unfold ValidateAndCreateCreds, DecodePEMKey. rewrite <-(append_empty_r (pem_Encode _ b)), pem_roundtrip, bool_decide_true by done.
  rewrite (ec_roundtrip _ _ Hb). cbn [res_bind]. rewrite decode_chain by done. cbn [res_bind]. rewrite Hm.
  destruct cred; simpl in *. by subst.
Qed.

(** Reading certificates stops silently at the first block that is none: whatever follows
    it, certificates included, is not read, and no error says so. *)
Theorem decode_drops l type_ bytes rest :
  (∀ c, c ∈ l → ParseCertificate (Raw c) = Some c) → type_ ≠ "CERTIFICATE" →
  DecodePEMCertificates (EncodeCertificatesPEM l +:+ pem_Encode type_ bytes +:+ rest) = Ok l.
Proof.
  intros Hp Ht. rewrite DecodePEMCertificates_encode by done.
  destruct (pem_not_empty type_ bytes rest) as (a & s & Heq). rewrite Heq. cbn [String.length decodeLoop].
  rewrite <-Heq. unfold decodeCertificatePEM. rewrite pem_roundtrip, bool_decide_false by done. cbn.
  by destruct (String.length s).
Qed.
End service.

(** * An example *)
#[export] Instance PublicKey_eq_dec : EqDecision PublicKey.
Proof. solve_decision. Defined.
#[export] Instance GenericPrivateKey_eq_dec : EqDecision GenericPrivateKey.
Proof. solve_decision. Defined.
#[export] Instance pkixName_eq_dec : EqDecision pkixName.
Proof. solve_decision. Defined.
#[export] Instance Certificate_eq_dec : EqDecision Certificate.
Proof. solve_decision. Defined.

(** Blocks as text: the lengths in unary, then the contents. *)
Fixpoint unary (n : nat) (s : string) : string :=
  match n with O => String "." s | S n => String "x" (unary n s) end.
Fixpoint read_unary (s : string) : option (nat * string) :=
  match s with
  | String "x" s => '(n, r) ← read_unary s; Some (S n, r)
  | String "." s => Some (O, s)
  | _ => None
  end.
Fixpoint cut_at (n : nat) (s : string) : option (string * string) :=
  match n, s with
  | O, s => Some ("", s)
  | S n, String a s => '(l, r) ← cut_at n s; Some (String a l, r)
  | S _, EmptyString => None
  end.
Lemma read_unary_unary n s : read_unary (unary n s) = Some (n, s).
Proof. induction n as [|n IH]; [done|]. simpl. by rewrite IH. Qed.
Lemma read_unary_shorter s n r : read_unary s = Some (n, r) → (String.length r < String.length s)%nat.
Proof.
  revert n. induction s as [|a s IH]; [done|]. intros n Hr.
  assert (a = "x"%char ∧ (∃ n' r', read_unary s = Some (n', r') ∧ r' = r) ∨ r = s) as [[_ (n' & r' & Hs & ->)]| ->]; simpl.
  - destruct a as [[] [] [] [] [] [] [] []]; simpl in Hr; try done;
      first [by right; injection Hr|left; split; [done|]; destruct (read_unary s) as [[n' r']|]; [|done]; injection Hr as <- <-; by exists n', r'].
  - specialize (IH n' Hs). lia.
  - lia.
Qed.
Lemma cut_at_app s r : cut_at (String.length s) (s +:+ r) = Some (s, r).
Proof. induction s as [|a s IH]; [done|]. simpl. by rewrite IH. Qed.
Lemma cut_at_length n s l r : cut_at n s = Some (l, r) → (String.length r ≤ String.length s)%nat.
Proof.
  revert s l. induction n as [|n IH]; intros s l; [by intros [= _ <-]|]. destruct s as [|a s]; [done|]. simpl.
  destruct (cut_at n s) as [[l' r']|] eqn:Hc; [|done]. intros [= _ <-]. apply IH in Hc. lia.
Qed.

Definition ex_pem_encode (t b : string) : string := unary (String.length t) (unary (String.length b) (t +:+ b)).
Definition ex_pem_decode (s : string) : option (string * string * string) :=
  '(n, s) ← read_unary s; '(m, s) ← read_unary s; '(t, s) ← cut_at n s; '(b, s) ← cut_at m s; Some (t, b, s).
Lemma unary_app n s r : unary n s +:+ r = unary n (s +:+ r).
Proof. induction n as [|n IH]; [done|]. exact (f_equal (String "x") IH). Qed.
Lemma ex_pem_roundtrip t b rest : ex_pem_decode (ex_pem_encode t b +:+ rest) = Some (t, b, rest).
Proof.
  unfold ex_pem_encode, ex_pem_decode. rewrite !unary_app, <-strings.append_assoc.
  by rewrite read_unary_unary; cbn; rewrite read_unary_unary; cbn; rewrite cut_at_app; cbn; rewrite cut_at_app.
Qed.
Lemma ex_pem_shorter s t b rest : ex_pem_decode s = Some (t, b, rest) → (String.length rest < String.length s)%nat.
Proof.
  unfold ex_pem_decode. destruct (read_unary s) as [[n s1]|] eqn:H1; [|done]. cbn.
  destruct (read_unary s1) as [[m s2]|] eqn:H2; [|done]. cbn. destruct (cut_at n s2) as [[t' s3]|] eqn:H3; [|done]. cbn.
  destruct (cut_at m s3) as [[b' s4]|] eqn:H4; [|done]. intros [= -> -> ->].
  apply read_unary_shorter in H1, H2. apply cut_at_length in H3, H4. lia.
Qed.
Definition ex_pem : PEM := {| pem_roundtrip := ex_pem_roundtrip; pem_shorter := ex_pem_shorter |}.

(** An issuer that expires before the certificates it signs would, a request, and the
    certificate made for it. *)
Definition ex_id : string := "web.ns.serviceaccount.identity.linkerd.cluster.local".
Definition ex_key : GenericPrivateKey := privateKeyEC 1 2 3.
Definition ex_caCert : Certificate :=
  mkCertificate "ca" 7 (mkName "root" []) (mkName "identity.linkerd.cluster.local" []) 0 2000000000000 (ECDSAPublic 1 2) true 0 true true
    ["CertSign"; "CRLSign"] [] [] [] [] [] [].
Definition ex_validity : Validity := mkValidity hour 0 None.
Definition ex_csr : CertificateRequest := mkCSR (ECDSAPublic 5 6) (mkName "" []) [] [ex_id] [] [] [].
Definition ex_template : Certificate :=
  asRequested (Subject ex_caCert) ex_csr (ca_createTemplate (NewCA (mkCred ex_key (mkCrt ex_caCert [])) ex_validity) (ECDSAPublic 5 6) 0).1.
Definition ex_leaf : Certificate :=
  mkCertificate "leaf" 1 (Subject ex_caCert) (mkName "" []) (-10000000000) 2000000000000 (ECDSAPublic 5 6) false 0 false false
    ["KeyEncipherment"; "DigitalSignature"] ["ServerAuth"; "ClientAuth"] [] [ex_id] [] [] [].

Definition ex_create (t _ : Certificate) (pub : PublicKey) (_ : GenericPrivateKey) : option string :=
  if bool_decide (t = ex_template ∧ pub = ECDSAPublic 5 6) then Some "leaf" else None.
Definition ex_parse (der : string) : option Certificate :=
  if bool_decide (der = "leaf") then Some ex_leaf else if bool_decide (der = "ca") then Some ex_caCert else None.
Definition ex_parseCSR (der : string) : option CertificateRequest := if bool_decide (der = "csr") then Some ex_csr else None.

Lemma ex_create_parse t parent pub key der c :
  ExtraExtensions t = [] → ex_create t parent pub key = Some der → ex_parse der = Some c →
  DNSNames c = DNSNames t ∧ EmailAddresses c = EmailAddresses t ∧ IPAddresses c = IPAddresses t ∧ URIs c = URIs t
  ∧ CommonName (Subject c) = CommonName (Subject t) ∧ IsCA c = BasicConstraintsValid t && IsCA t
  ∧ NotBefore c = trunc (NotBefore t) ∧ NotAfter c = trunc (NotAfter t) ∧ crtPublicKey c = pub
  ∧ SerialNumber c = SerialNumber t.
Proof.
  intros _. unfold ex_create. case_bool_decide as Hc; [|done]. destruct Hc as [-> ->]. intros [= <-].
  unfold ex_parse. rewrite bool_decide_true by done. intros [= <-]. vm_compute. tauto.
Qed.
Lemma ex_parse_raw der c : ex_parse der = Some c → Raw c = der.
Proof. unfold ex_parse. case_bool_decide as H1; [by intros [= <-]|]. case_bool_decide; [by intros [= <-]|done]. Qed.
Lemma ex_csr_parse der csr : ex_parseCSR der = Some csr → csrExtraExtensions csr = [].
Proof. unfold ex_parseCSR. case_bool_decide; [by intros [= <-]|done]. Qed.

Lemma ex_ec_roundtrip k b :
  (if bool_decide (k = ex_key) then Some "key" else None) = Some b →
  (if bool_decide (b = "key") then Some ex_key else None) = Some k.
Proof. case_bool_decide as Hk; [|done]. intros [= <-]. by rewrite bool_decide_true, Hk by done. Qed.
Definition ex_x509 : X509 := {|
  CreateCertificate := ex_create; ParseCertificate := ex_parse; ParseCertificateRequest := ex_parseCSR;
  VerifyCertificate _ _ _ _ _ := None; ParseECPrivateKey s := if bool_decide (s = "key") then Some ex_key else None;
  ParsePKCS1PrivateKey _ := None; ParsePKCS8PrivateKey _ := None;
  MarshalECPrivateKey k := if bool_decide (k = ex_key) then Some "key" else None; MarshalPKCS1PrivateKey _ := "rsa";
  X509KeyPair _ _ := None; ec_roundtrip := ex_ec_roundtrip;
  create_parse := ex_create_parse; parse_raw := ex_parse_raw; csr_parse := ex_csr_parse |}.

Definition ex_label (s : string) : bool := negb (bool_decide (s = "")) && allChars isLabelChar s.
Lemma ex_label_chars s : ex_label s = true → allChars isLabelChar s = true.
Proof. unfold ex_label. by intros [_ ?]%andb_true_iff. Qed.
Definition ex_validation : Validation := {|
  IsDNS1123Label := ex_label; IsDNS1123Subdomain _ := true; label_chars := ex_label_chars |}.

Definition ex_domain : TrustDomain := mkTrustDomain "linkerd" "cluster.local".
Definition ex_review : string → list string → option reviewStatus := λ tok _,
  Some (if bool_decide (tok = "token") then mkReview "" true "system:serviceaccount:ns:web" else mkReview "bad token" false "").
Definition ex_validator : string → validated := Validate (H := ex_validation) ex_review ex_domain.
Definition ex_service : Service := NewService ex_validator [] ex_validity.
Definition ex_files : option string * option string :=
  (Some (ex_pem_encode "EC PRIVATE KEY" "key"), Some (ex_pem_encode "CERTIFICATE" "ca")).
Definition ex_running : Service := onIssuerEvent (H := ex_x509) (H0 := ex_pem) ex_service ex_files.1 ex_files.2 0.
Definition ex_request : CertifyRequest := mkRequest ex_id "token" "csr".
Definition ex_response : CertifyResponse := mkResponse "leaf" ["ca"] 2000000000000.

Lemma ex_certified : (Certify (H := ex_x509) ex_running ex_request 0).1 = Certified ex_response.
Proof. vm_compute. reflexivity. Qed.

Lemma ex_certify : Certify (H := ex_x509) ex_running ex_request 0 = (Certified ex_response, (Certify (H := ex_x509) ex_running ex_request 0).2).
Proof. rewrite <-ex_certified. apply surjective_pairing. Qed.

Lemma certify_sound_witness : ∃ leaf,
  ParseCertificate (X509 := ex_x509) (LeafCertificate ex_response) = Some leaf ∧ DNSNames leaf = [ex_id].
Proof.
  destruct (certify_sound (H := ex_x509) (H0 := ex_pem) ex_validator [] ex_validity ex_running _ ex_request 0 ex_response
    (reachable_event (H := ex_x509) (H0 := ex_pem) _ _ _ _ ex_files.1 ex_files.2 0 (reachable_new (H := ex_x509) (H0 := ex_pem) _ _ _)) ex_certify)
    as (_ & leaf & _ & _ & _ & Hp & _ & Hd & _).
  exists leaf. split; [exact Hp|exact Hd].
Defined.

Lemma certify_owner_witness : ∃ audiences rvw,
  ex_review "token" audiences = Some rvw ∧ rv_Error rvw = "" ∧ rv_Authenticated rvw = true
  ∧ rv_Username rvw = "system:serviceaccount:ns:web".
Proof.
  exact (certify_owner (H := ex_x509) (H1 := ex_validation) ex_review ex_domain ex_running _ ex_request 0 ex_response
    "serviceaccount" "web" "ns" ltac:(vm_compute; reflexivity) ex_certify eq_refl eq_refl eq_refl eq_refl).
Defined.

Lemma certify_no_crash_witness : (Certify (H := ex_x509) ex_running ex_request 0).1 ≠ Crashed.
Proof.
  apply (certify_no_crash (H := ex_x509) (H1 := ex_validation) ex_review ex_domain). vm_compute. reflexivity.
Defined.

Lemma creds_roundtrip_witness :
  ValidateAndCreateCreds (H := ex_x509) (H0 := ex_pem) (EncodePEM (H0 := ex_pem) (mkCrt ex_caCert [ex_leaf]))
    (ex_pem_encode "EC PRIVATE KEY" "key") = Ok (mkCred ex_key (mkCrt ex_caCert [ex_leaf])).
Proof.
  apply (creds_roundtrip (H := ex_x509) (H0 := ex_pem) (mkCred ex_key (mkCrt ex_caCert [ex_leaf]))).
  - intros c [->|[->|Hc]%elem_of_cons]%elem_of_cons; [reflexivity|reflexivity|by apply elem_of_nil in Hc].
  - reflexivity.
  - exists 1, 2, 3. reflexivity.
  - reflexivity.
Defined.

Lemma decode_drops_witness :
  DecodePEMCertificates (H := ex_x509) (H0 := ex_pem)
    (EncodeCertificatesPEM (H0 := ex_pem) [ex_caCert] +:+ ex_pem_encode "COMMENT" "" +:+ EncodeCertificatesPEM (H0 := ex_pem) [ex_leaf])
  = Ok [ex_caCert].
Proof.
  apply (decode_drops (H := ex_x509) (H0 := ex_pem)); [|discriminate].
  intros c [->|Hc]%elem_of_cons; [reflexivity|by apply elem_of_nil in Hc].
Defined.

(** After the first certificate, the files are read again. *)
Definition isOkS (r : res Service) : Service := match r with Ok s => s | _ => ex_service end.
Definition ex_start : Service := isOkS (Initialize (H := ex_x509) (H0 := ex_pem) ex_service ex_files.1 ex_files.2 0).
Definition ex_served : Service := (Certify (H := ex_x509) ex_start ex_request 0).2.
Definition ex_again : Service := isOkS (Initialize (H := ex_x509) (H0 := ex_pem) ex_served ex_files.1 ex_files.2 0).

Lemma serials_restart_witness : ∃ leaf1 leaf2,
  ParseCertificate (X509 := ex_x509) (LeafCertificate ex_response) = Some leaf1
  ∧ ParseCertificate (X509 := ex_x509) (LeafCertificate ex_response) = Some leaf2 ∧ SerialNumber leaf1 = SerialNumber leaf2.
Proof.
  destruct (serials_restart (H := ex_x509) (H0 := ex_pem) ex_service ex_start ex_again ex_served
    (Certify (H := ex_x509) ex_again ex_request 0).2 ex_files.1 ex_files.2 0 0 ex_request ex_request 0 0 ex_response ex_response)
    as (leaf1 & leaf2 & H1 & H2 & H3 & H4 & _).
  - vm_compute. reflexivity.
  - vm_compute. reflexivity.
  - vm_compute. reflexivity.
  - vm_compute. reflexivity.
  - exists leaf1, leaf2. split; [exact H1|]. split; [exact H2|]. rewrite H3. symmetry. exact H4.
Defined.

(** * Concurrent requests *)
Lemma step_at next ps i p next' p' ps' :
  ps !! i = Some p → createStep next p = Some (next', p') → ps' = <[i := p']> ps → interleaved (next, ps) (next', ps').
Proof. intros Hi Hs ->. by econstructor. Qed.

(** Two requests at the same time can get the same serial number. *)
Theorem serial_race : rtc interleaved (1, [AtStart; AtStart]) (2, [Finished 1; Finished 1]).
Proof.
  eapply rtc_l; [by eapply (step_at _ _ 0)|]. eapply rtc_l; [by eapply (step_at _ _ 1)|].
  eapply rtc_l; [by eapply (step_at _ _ 0)|]. eapply rtc_l; [by eapply (step_at _ _ 1)|].
  eapply rtc_l; [by eapply (step_at _ _ 0)|]. eapply rtc_l; [by eapply (step_at _ _ 1)|]. apply rtc_refl.
Qed.
