(* ===== verification/K8sApi.v ===== *)
(** Access to the Kubernetes API through caches: [controller/k8s] ([api.go], [metadata_api.go],
    [api_resource.go], [k8s.go]).

    An API has an informer for some resources; each informer's cache is a list of objects.
    Asking for the informer of a resource that was not configured panics.  Calls to the API
    server itself are parameters. *)
From S2P Require Import Prelude GoStd K8s.

#[local] Open Scope string_scope.
#[local] Open Scope list_scope.
#[local] Open Scope Z_scope.
#[local] Open Scope go_scope.

(** * Resources *)
Inductive APIResource :=
  | CJ | CM | Deploy | DS | EndpointRes | ES | ExtWorkload | JobRes | LinkRes | MWC | NS | PodRes | RC | RS | SP | SS | Svc
  | Node | Secret | Srv | Saz.
#[export] Instance APIResource_eq_dec : EqDecision APIResource.
Proof. solve_decision. Defined.
#[export] Instance APIResource_countable : Countable APIResource.
Proof.
  refine (inj_countable' (λ r, match r with CJ => 0 | CM => 1 | Deploy => 2 | DS => 3 | EndpointRes => 4 | ES => 5 | ExtWorkload => 6
    | JobRes => 7 | LinkRes => 8 | MWC => 9 | NS => 10 | PodRes => 11 | RC => 12 | RS => 13 | SP => 14 | SS => 15 | Svc => 16
    | Node => 17 | Secret => 18 | Srv => 19 | Saz => 20 end%nat)
    (λ n, match n with 0 => CJ | 1 => CM | 2 => Deploy | 3 => DS | 4 => EndpointRes | 5 => ES | 6 => ExtWorkload | 7 => JobRes
    | 8 => LinkRes | 9 => MWC | 10 => NS | 11 => PodRes | 12 => RC | 13 => RS | 14 => SP | 15 => SS | 16 => Svc | 17 => Node
    | 18 => Secret | 19 => Srv | _ => Saz end%nat) _).
  by intros [].
Defined.

(** Group and version, and kind. *)
Definition GVK (res : APIResource) : option (string * string) :=
  match res with
  | CJ => Some ("batch/v1", "CronJob")
  | CM => Some ("v1", "ConfigMap")
  | Deploy => Some ("apps/v1", "Deployment")
  | DS => Some ("apps/v1", "DaemonSet")
  | EndpointRes => Some ("v1", "Endpoint")
  | ES => Some ("discovery.k8s.io/v1", "EndpointSlice")
  | JobRes => Some ("batch/v1", "Job")
  | MWC => Some ("admissionregistration.k8s.io/v1", "MutatingWebhookConfiguration")
  | Node => Some ("v1", "Node")
  | NS => Some ("v1", "Namespace")
  | PodRes => Some ("v1", "Pod")
  | RC => Some ("v1", "ReplicationController")
  | RS => Some ("apps/v1", "ReplicaSet")
  | Saz => Some ("policy.linkerd.io/v1beta1", "ServerAuthorization")
  | Secret => Some ("v1", "Secret")
  | SP => Some ("linkerd.io/v1alpha2", "ServiceProfile")
  | SS => Some ("apps/v1", "StatefulSet")
  | Srv => Some ("policy.linkerd.io/v1beta3", "Server")
  | Svc => Some ("v1", "Service")
  | ExtWorkload | LinkRes => None
  end.

(** The cases of [GetAPIResource], on the kind in lower case. *)
Definition kinds : list (string * APIResource) := [
  ("cronjob", CJ); ("configmap", CM); ("deployment", Deploy); ("daemonset", DS); ("endpoints", EndpointRes);
  ("endpointslices", ES); ("job", JobRes); ("mutatingwebhookconfig", MWC); ("namespace", NS); ("node", Node); ("pod", PodRes);
  ("replicationcontroller", RC); ("replicaset", RS); ("serverauthorization", Saz); ("secret", Secret); ("serviceprofile", SP);
  ("service", Svc); ("statefulset", SS); ("server", Srv)].
Definition GetAPIResource (kind : string) : option APIResource :=
  snd <$> (snd <$> list_find (λ e, e.1 = strings.ToLower kind) kinds).

(** * Objects *)
Record Owner := mkOwner { o_Kind : string; o_Name : string; o_UID : string }.
Record Meta := mkMeta {
  m_Name : string; m_Namespace : string; m_UID : string; m_Labels : strmap; m_Owners : list Owner }.

(** Selectors are those of the specs, matched by equality of labels. *)
Inductive object :=
  | NamespaceO (m : Meta)
  | CronJobO (m : Meta)
  | DaemonSetO (m : Meta) (selector : strmap)
  | DeploymentO (m : Meta) (selector : strmap)
  | JobO (m : Meta) (selector : strmap)
  | ReplicaSetO (m : Meta) (selector : strmap)
  | ReplicationControllerO (m : Meta) (selector : strmap)
  | ServiceO (m : Meta) (type : string) (selector : option strmap)
  | StatefulSetO (m : Meta) (selector : strmap)
  | PodO (m : Meta) (phase : string) (terminating : bool)
  | OtherO (m : Meta).
Definition meta (o : object) : Meta :=
  match o with
  | NamespaceO m | CronJobO m | DaemonSetO m _ | DeploymentO m _ | JobO m _ | ReplicaSetO m _ | ReplicationControllerO m _
  | ServiceO m _ _ | StatefulSetO m _ | PodO m _ _ | OtherO m => m
  end.
Definition name (o : object) : string := m_Name (meta o).
Definition ns (o : object) : string := m_Namespace (meta o).

#[export] Instance Owner_eq_dec : EqDecision Owner.
Proof. solve_decision. Defined.
#[export] Instance Meta_eq_dec : EqDecision Meta.
Proof. solve_decision. Defined.
#[export] Instance object_eq_dec : EqDecision object.
Proof. solve_decision. Defined.

(** * Listers *)
Abbreviation Selector := (strmap → bool).
Definition Everything : Selector := λ _, true.
Definition Nothing : Selector := λ _, false.
(** [labels.Set(m).AsSelector()]. *)
Definition AsSelector (m : strmap) : Selector := λ l, bool_decide (m ⊆ l).

Record API := mkAPI { inf : gmap APIResource (list object) }.

(** The methods [Deploy()], [RS()] and so on. *)
Definition lister (api : API) (r : APIResource) : res (list object) :=
  match inf api !! r with Some l => Ok l | None => Panic end.

Definition List (l : list object) (sel : Selector) : list object := filter (λ o, sel (m_Labels (meta o)) = true) l.
Definition ListNS (l : list object) (n : string) (sel : Selector) : list object := filter (λ o, ns o = n) (List l sel).
Definition Get (l : list object) (n nm : string) : res object :=
  match list_find (λ o, ns o = n ∧ name o = nm) l with Some (_, o) => Ok o | None => Err "not found" end.

(** The informers of the resources; those of linkerd's own need its client. *)
Definition isCRD (r : APIResource) : bool := bool_decide (r ∈ [ExtWorkload; LinkRes; SP; Srv]).
Definition newAPI (cluster : APIResource → list object) (l5dCrdClient : bool) (resources : list APIResource) : res API :=
  if existsb isCRD resources && negb l5dCrdClient then Panic
  else Ok (mkAPI (foldl (λ m r, if bool_decide (r = Saz) then m else <[r := cluster r]> m) ∅ resources)).

(** ** Objects by kind, namespace and name *)
(** The shape of [getDeployments], [getRCs] and the others. *)
Definition getListed (r : APIResource) (api : API) (namespace nm : string) (sel : Selector) : res (list object) :=
  let* l := lister api r in
  if bool_decide (namespace = "") then Ok (List l sel)
  else if bool_decide (nm = "") then Ok (ListNS l namespace sel)
  else let* o := Get l namespace nm in Ok [o].

Definition isPendingOrRunning (o : object) : bool :=
  match o with
  | PodO _ phase terminating => bool_decide (phase = "Pending" ∨ phase = PodRunning) && negb terminating
  | _ => false
  end.
Definition isFailed (o : object) : bool :=
  match o with PodO _ phase _ => bool_decide (phase = PodFailed) | _ => false end.

Definition getNamespaces (api : API) (nm : string) (sel : Selector) : res (list object) :=
  let* l := lister api NS in
  if bool_decide (nm = "") then Ok (List l sel)
  else match list_find (λ o, name o = nm) l with Some (_, o) => Ok [o] | None => Err "not found" end.
Definition getDeployments : API → string → string → Selector → res (list object) := getListed Deploy.
Definition getRCs : API → string → string → Selector → res (list object) := getListed RC.
Definition getDaemonsets : API → string → string → Selector → res (list object) := getListed DS.
Definition getStatefulsets : API → string → string → Selector → res (list object) := getListed SS.
Definition getJobs : API → string → string → Selector → res (list object) := getListed JobRes.
Definition getCronjobs : API → string → string → Selector → res (list object) := getListed CJ.
Definition getReplicasets : API → string → string → Selector → res (list object) := getListed RS.
Definition getPods (api : API) (namespace nm : string) (sel : Selector) : res (list object) :=
  let* pods := getListed PodRes api namespace nm sel in Ok (filter (λ p, isPendingOrRunning p = true) pods).
Definition GetServices (api : API) (namespace nm : string) : res (list object) := getListed Svc api namespace nm Everything.

Definition GetObjects (api : API) (namespace restype nm : string) (label : Selector) : res (list object) :=
  if bool_decide (restype = "namespace") then getNamespaces api nm label
  else if bool_decide (restype = "cronjob") then getCronjobs api namespace nm label
  else if bool_decide (restype = "daemonset") then getDaemonsets api namespace nm label
  else if bool_decide (restype = "deployment") then getDeployments api namespace nm label
  else if bool_decide (restype = "job") then getJobs api namespace nm label
  else if bool_decide (restype = "pod") then getPods api namespace nm label
  else if bool_decide (restype = "replicationcontroller") then getRCs api namespace nm label
  else if bool_decide (restype = "replicaset") then getReplicasets api namespace nm label
  else if bool_decide (restype = "service") then GetServices api namespace nm
  else if bool_decide (restype = "statefulset") then getStatefulsets api namespace nm label
  else Err "unimplemented resource type".

Definition supportedKinds : list (string * APIResource) := [
  ("namespace", NS); ("cronjob", CJ); ("daemonset", DS); ("deployment", Deploy); ("job", JobRes); ("pod", PodRes);
  ("replicationcontroller", RC); ("replicaset", RS); ("service", Svc); ("statefulset", SS)].
Definition KindSupported (api : API) (restype : string) : bool :=
  existsb (λ e, bool_decide (e.1 = restype) && bool_decide (is_Some (inf api !! e.2))) supportedKinds.

(** * Owners *)
Definition isValidRSParent (rs : Meta) : bool :=
  match m_Owners rs with
  | [o] => bool_decide (strings.ToLower (o_Kind o) ∈ ["job"; "statefulset"; "daemonset"; "deployment"])
  | _ => false
  end.

(** Kind and name of an owner, the kind in lower case. *)
Definition kindAndName (o : Owner) : string * string := (strings.ToLower (o_Kind o), o_Name o).

(** [GetOwnerKindAndName] of the API.  A direct call that fails returns an object all the same,
    an empty one; the error of the replica set's lookup is a variable of the case of its own,
    so the test at the end does not see it. *)
Definition emptyMeta : Meta := mkMeta "" "" "" ∅ [].
Definition GetOwnerKindAndName (direct : APIResource → string → string → option Meta) (api : API) (pod : Meta) (retry : bool) :
    res (string * string) :=
  match m_Owners pod with
  | [parent] =>
      if bool_decide (o_Kind parent = "Job") then
        let* l := lister api JobRes in
        let job := match Get l (m_Namespace pod) (o_Name parent) with
                   | Ok o => Some (meta o)
                   | _ => if retry then direct JobRes (m_Namespace pod) (o_Name parent) else None
                   end in
        match job with
        | Some job => match m_Owners job with [grandParent] => Ok (kindAndName grandParent) | _ => Ok (kindAndName parent) end
        | None => Ok (kindAndName parent)
        end
      else if bool_decide (o_Kind parent = "ReplicaSet") then
        let* l := lister api RS in
        let rs := match Get l (m_Namespace pod) (o_Name parent) with
                  | Ok o => Some (meta o)
                  | _ => if retry then Some (default emptyMeta (direct RS (m_Namespace pod) (o_Name parent))) else None
                  end in
        match rs with
        | Some rs =>
            if isValidRSParent rs
            then match m_Owners rs with [grandParent] => Ok (kindAndName grandParent) | _ => Ok (kindAndName parent) end
            else Ok (kindAndName parent)
        | None => Ok (kindAndName parent)
        end
      else Ok (kindAndName parent)
  | _ => Ok ("pod", m_Name pod)
  end.

(** ** The API for metadata *)
Definition getLister (api : API) (r : APIResource) : res (list object) :=
  match inf api !! r with Some l => Ok l | None => Err "metadata informer not configured" end.
Definition GetMeta (api : API) (r : APIResource) (nm : string) : res Meta :=
  let* l := getLister api r in
  match list_find (λ o, name o = nm) l with Some (_, o) => Ok (meta o) | None => Err "not found" end.
Definition getByNamespace (api : API) (r : APIResource) (n nm : string) : res Meta :=
  let* l := getLister api r in let* o := Get l n nm in Ok (meta o).

(** The objects with their group, version and kind, which is an error for resources without. *)
Definition GetByNamespaceFiltered (api : API) (r : APIResource) (n nm : string) (sel : Selector) : res (list ((string * string) * Meta)) :=
  let* l := getLister api r in
  let* objs := if bool_decide (n = "") then Ok (List l sel)
               else if bool_decide (nm = "") then Ok (ListNS l n sel)
               else let* o := Get l n nm in Ok [o] in
  res_mapM (λ o, match GVK r with Some gvk => Ok (gvk, meta o) | None => Err "unimplemented resource type" end) objs.

Definition GetOwnerKindAndNameMeta (direct : APIResource → string → string → option Meta) (api : API) (pod : Meta) (retry : bool) :
    res (string * string) :=
  let find r n := match getByNamespace api r (m_Namespace pod) n with
                  | Ok m => Some m
                  | _ => if retry then direct r (m_Namespace pod) n else None
                  end in
  match m_Owners pod with
  | [parent] =>
      if bool_decide (o_Kind parent = "Job") then
        match find JobRes (o_Name parent) with
        | Some job => match m_Owners job with [grandParent] => Ok (kindAndName grandParent) | _ => Ok (kindAndName parent) end
        | None => Ok (kindAndName parent)
        end
      else if bool_decide (o_Kind parent = "ReplicaSet") then
        match find RS (o_Name parent) with
        | Some rs =>
            if isValidRSParent rs
            then match m_Owners rs with [grandParent] => Ok (kindAndName grandParent) | _ => Ok (kindAndName parent) end
            else Ok (kindAndName parent)
        | None => Ok (kindAndName parent)
        end
      else Ok (kindAndName parent)
  | _ => Ok ("pod", m_Name pod)
  end.

(** * Pods *)
Definition isOwner (u : string) (ownerRefs : list Owner) : bool := existsb (λ o, bool_decide (u = o_UID o)) ownerRefs.

(** The end of [GetPodsFor]: pods that live, of the owner if there is one. *)
Definition livePods (ownerUID : string) (includeFailed : bool) (pods : list object) : list object :=
  filter (λ p, (isPendingOrRunning p = true ∨ (includeFailed = true ∧ isFailed p = true))
               ∧ (ownerUID = "" ∨ isOwner ownerUID (m_Owners (meta p)) = true)) pods.
Definition listedPods (api : API) (n : string) (sel : Selector) (ownerUID : string) (includeFailed : bool) : res (list object) :=
  let* l := lister api PodRes in Ok (livePods ownerUID includeFailed (ListNS l n sel)).

(** The pods of the objects of a list that the owner owns, one after the other. *)
Definition podsOf (f : object → res (list object)) (uid : string) (objs : list object) : res (list object) :=
  let* ls := res_mapM f (filter (λ o, isOwner uid (m_Owners (meta o)) = true) objs) in Ok (mjoin ls).

(** The recursion goes from a cron job to its jobs and from a deployment to its replica sets,
    and no further: two levels. *)
Fixpoint podsFor (fuel : nat) (api : API) (obj : object) (includeFailed : bool) : res (list object) :=
  match fuel with
  | O => Panic
  | S fuel =>
      match obj with
      | NamespaceO m => listedPods api (m_Name m) Everything "" includeFailed
      | CronJobO m =>
          let* jobs := lister api JobRes in
          podsOf (λ job, podsFor fuel api job includeFailed) (m_UID m) (ListNS jobs (m_Namespace m) Everything)
      | DeploymentO m sel =>
          let* rss := lister api RS in
          podsOf (λ rs, podsFor fuel api rs includeFailed) (m_UID m) (ListNS rss (m_Namespace m) (AsSelector sel))
      | DaemonSetO m sel | ReplicaSetO m sel | JobO m sel | ReplicationControllerO m sel | StatefulSetO m sel =>
          listedPods api (m_Namespace m) (AsSelector sel) (m_UID m) includeFailed
      | ServiceO m type sel =>
          if bool_decide (type = ServiceTypeExternalName) then Ok []
          else listedPods api (m_Namespace m) (match sel with None => Nothing | Some sel => AsSelector sel end) "" includeFailed
      | PodO m _ _ =>
          let* l := lister api PodRes in
          let* pod := Get l (m_Namespace m) (m_Name m) in
          Ok (livePods "" includeFailed [pod])
      | OtherO _ => Err "Cannot get object selector"
      end
  end.
Definition GetPodsFor (api : API) (obj : object) (includeFailed : bool) : res (list object) := podsFor 2 api obj includeFailed.

(** * Services *)
Definition GetNameAndNamespaceOf (obj : object) : res (string * string) :=
  match obj with
  | NamespaceO m => Ok (m_Name m, m_Name m)
  | OtherO _ => Err "Cannot determine object type"
  | _ => Ok (name obj, ns obj)
  end.
Definition GetNameOf (obj : object) : res string := let* r := GetNameAndNamespaceOf obj in Ok r.1.
Definition GetNamespaceOf (obj : object) : res string := let* r := GetNameAndNamespaceOf obj in Ok r.2.

Definition hasOverlap (l1 l2 : list object) : bool := existsb (λ a, existsb (λ b, bool_decide (name a = name b)) l2) l1.

Definition GetServicesFor (api : API) (obj : object) (includeFailed : bool) : res (list object) :=
  match obj with
  | ServiceO _ _ _ => Ok [obj]
  | _ =>
      let* pods := GetPodsFor api obj includeFailed in
      let* namespace := GetNamespaceOf obj in
      let* allServices := GetServices api namespace "" in
      let* ls := res_mapM (λ svc, let* svcPods := GetPodsFor api svc includeFailed in
                                  Ok (if hasOverlap pods svcPods then [svc] else [])) allServices in
      Ok (mjoin ls)
  end.

(** The profile of a service: that of the client's namespace, else that of the service's, else
    an empty one of that name. *)
Definition GetServiceProfileFor (api : API) (svc : Meta) (clientNs clusterDomain : string) : res object :=
  let dst := m_Name svc +:+ "." +:+ m_Namespace svc +:+ ".svc." +:+ clusterDomain in
  let fallback := OtherO (mkMeta dst "" "" ∅ []) in
  let server := if bool_decide (m_Namespace svc = clientNs) then Ok fallback
                else let* l := lister api SP in
                     match Get l (m_Namespace svc) dst with Ok p => Ok p | _ => Ok fallback end in
  if bool_decide (clientNs = "") then server
  else let* l := lister api SP in match Get l clientNs dst with Ok p => Ok p | _ => server end.
