(* ===== verification/K8sApiProps.v ===== *)
(** Theorems on the access to the Kubernetes API: finding the owner of a pod and finding the
    pods of an owner are inverse to each other, both APIs agree, and which services an object
    is part of. *)
From S2P Require Import Prelude GoStd K8s K8sApi.

#[local] Open Scope string_scope.
#[local] Open Scope list_scope.
#[local] Open Scope Z_scope.
#[local] Open Scope go_scope.

(** * Listers *)
Lemma elem_of_ListNS l n sel o : o ∈ ListNS l n sel ↔ o ∈ l ∧ ns o = n ∧ sel (m_Labels (meta o)) = true.
Proof. unfold ListNS, List. rewrite !list_elem_of_filter. naive_solver. Qed.

Lemma Get_Ok l n nm o : Get l n nm = Ok o → o ∈ l ∧ ns o = n ∧ name o = nm.
Proof.
  unfold Get. destruct (list_find _ l) as [[i o']|] eqn:Hf; [|done]. intros [= ->].
  apply list_find_Some in Hf as (Hi & [Hn Hm] & _). split; [by eapply list_elem_of_lookup_2|done].
Qed.
Lemma Get_elem l o : o ∈ l → (∀ o', o' ∈ l → ns o' = ns o → name o' = name o → o' = o) → Get l (ns o) (name o) = Ok o.
Proof.
  intros Hin Huniq. unfold Get. destruct (list_find _ l) as [[i o']|] eqn:Hf.
  - apply list_find_Some in Hf as (Hi & [Hn Hm] & _). f_equal. apply Huniq; [by eapply list_elem_of_lookup_2|done..].
  - apply list_find_None in Hf. rewrite Forall_forall in Hf. by destruct (Hf o Hin).
Qed.

Lemma elem_of_livePods uid f pods p :
  p ∈ livePods uid f pods ↔ p ∈ pods ∧ (isPendingOrRunning p = true ∨ (f = true ∧ isFailed p = true))
                            ∧ (uid = "" ∨ isOwner uid (m_Owners (meta p)) = true).
Proof. unfold livePods. rewrite list_elem_of_filter. naive_solver. Qed.

Lemma isOwner_spec u os : isOwner u os = true ↔ ∃ o, o ∈ os ∧ o_UID o = u.
Proof.
  unfold isOwner. rewrite existsb_exists. split.
  - intros (o & Hin & Hu%bool_decide_eq_true). exists o. by rewrite list_elem_of_In.
  - intros (o & Hin & <-). exists o. rewrite <-list_elem_of_In. split; [done|by apply bool_decide_eq_true].
Qed.

(** * Both APIs *)
(** The two APIs find the same owner.  The API of full objects and the one of metadata
    answer alike for every pod, with and without retrying, whatever the API server answers
    to the direct call. *)
Theorem owner_apis_agree direct api pod retry :
  is_Some (inf api !! JobRes) → is_Some (inf api !! RS) →
  GetOwnerKindAndName direct api pod retry = GetOwnerKindAndNameMeta direct api pod retry.
Proof.
  intros [jobs Hj] [rss Hr]. unfold GetOwnerKindAndName, GetOwnerKindAndNameMeta, lister, getByNamespace, getLister.
  destruct (m_Owners pod) as [|parent [|]]; [done| |done]. rewrite Hj, Hr. cbn [res_bind].
  case_bool_decide; [by destruct (Get jobs _ _)|]. case_bool_decide; [|done].
  destruct (Get rss _ _) as [o| |]; cbn [res_bind]; [done|..]; destruct retry; try done; by destruct (direct RS _ _).
Qed.

(** * Owners and pods *)
(** A cluster as its controllers leave it, seen from a deployment: every pod and every replica
    set has at most one owner; names and UIDs are unique; what a reference names is what its
    UID identifies; and what is owned has the labels its owner selects. *)
Record coherent (direct : APIResource → string → string → option Meta) (api : API) (m : Meta) (sel : strmap) (pods rss : list object) : Prop := {
  coh_pods : inf api !! PodRes = Some pods;
  coh_rss : inf api !! RS = Some rss;
  coh_jobs : ∃ jobs, inf api !! JobRes = Some jobs
    ∧ ∀ job o, job ∈ jobs → m_Owners (meta job) = [o] → strings.ToLower (o_Kind o) ≠ "deployment";
  coh_direct n nm job o : direct JobRes n nm = Some job → m_Owners job = [o] → strings.ToLower (o_Kind o) ≠ "deployment";
  coh_rs_kind r : r ∈ rss → ∃ rm rsel, r = ReplicaSetO rm rsel ∧ m_UID rm ≠ "";
  coh_rs_name r1 r2 : r1 ∈ rss → r2 ∈ rss → ns r1 = ns r2 → name r1 = name r2 → r1 = r2;
  coh_rs_uid r1 r2 : r1 ∈ rss → r2 ∈ rss → m_UID (meta r1) = m_UID (meta r2) → r1 = r2;
  coh_rs_owners r o : r ∈ rss → ns r = m_Namespace m → o ∈ m_Owners (meta r) →
    m_Owners (meta r) = [o] ∧ (kindAndName o = ("deployment", m_Name m) ↔ o_UID o = m_UID m)
    ∧ (o_UID o = m_UID m → sel ⊆ m_Labels (meta r));
  coh_pod_owners p o : p ∈ pods → o ∈ m_Owners (meta p) →
    m_Owners (meta p) = [o] ∧ strings.ToLower (o_Kind o) ≠ "deployment"
    ∧ (o_Kind o = "ReplicaSet" → ∃ rm rsel, ReplicaSetO rm rsel ∈ rss ∧ m_Namespace rm = ns p ∧ m_Name rm = o_Name o
                                            ∧ m_UID rm = o_UID o ∧ rsel ⊆ m_Labels (meta p))
    ∧ (o_Kind o ≠ "ReplicaSet" → ∀ r, r ∈ rss → m_UID (meta r) ≠ o_UID o) }.

Lemma podsFor_rs api rm rsel f fuel :
  podsFor (S fuel) api (ReplicaSetO rm rsel) f = listedPods api (m_Namespace rm) (AsSelector rsel) (m_UID rm) f.
Proof. done. Qed.

Lemma podsFor_deployment api m sel f fuel :
  podsFor (S fuel) api (DeploymentO m sel) f
  = let* rss := lister api RS in
    podsOf (λ rs, podsFor fuel api rs f) (m_UID m) (ListNS rss (m_Namespace m) (AsSelector sel)).
Proof. done. Qed.

Section coherent.
Context (direct : APIResource → string → string → option Meta) (api : API) (m : Meta) (sel : strmap) (pods rss : list object).
Context (Hc : coherent direct api m sel pods rss).

(** The replica sets of the deployment. *)
Definition ownRSs : list object :=
  filter (λ o, isOwner (m_UID m) (m_Owners (meta o)) = true) (ListNS rss (m_Namespace m) (AsSelector sel)).

Lemma GetPodsFor_deployment : ∃ l, GetPodsFor api (DeploymentO m sel) false = Ok l
  ∧ ∀ p, p ∈ l ↔ ∃ rm rsel, ReplicaSetO rm rsel ∈ ownRSs
       ∧ p ∈ livePods (m_UID rm) false (ListNS pods (m_Namespace rm) (AsSelector rsel)).
Proof.
  unfold GetPodsFor. rewrite podsFor_deployment. unfold lister. rewrite (coh_rss _ _ _ _ _ _ Hc). cbn [res_bind]. unfold podsOf. fold ownRSs.
  assert (∀ r, r ∈ ownRSs → r ∈ rss) as Hsub.
  { intros r [_ Hr]%list_elem_of_filter. by apply elem_of_ListNS in Hr as [Hr _]. }
  revert Hsub. induction ownRSs as [|r l IH]; intros Hsub.
  { exists []. split; [done|]. intros p. split; [by intros ?%elem_of_nil|]. by intros (? & ? & ?%elem_of_nil & _). }
  destruct IH as (lp & Hlp & Hiff); [set_solver|]. destruct (coh_rs_kind _ _ _ _ _ _ Hc r) as (rm & rsel & -> & _); [set_solver|].
  apply res_bind_Ok in Hlp as (ls & Hls & [= <-]). cbn [res_mapM]. rewrite podsFor_rs. unfold listedPods, lister.
  rewrite (coh_pods _ _ _ _ _ _ Hc). cbn [res_bind]. rewrite Hls. cbn [res_bind]. eexists. split; [done|].
  intros p. match goal with |- p ∈ mjoin (?x :: ?l) ↔ _ => change (mjoin (x :: l)) with (x ++ mjoin l) end.
  rewrite elem_of_app, Hiff. split.
  - intros [Hp|(rm' & rsel' & Hr & Hp)]; [exists rm, rsel|exists rm', rsel']; split; auto; set_solver.
  - intros (rm' & rsel' & [Heq|Hr]%elem_of_cons & Hp); [left; by simplify_eq|right; by exists rm', rsel'].
Qed.

(** The owner of a pod of a replica set. *)
Lemma owner_via_rs retry p o rm rsel :
  m_Owners (meta p) = [o] → o_Kind o = "ReplicaSet" → ReplicaSetO rm rsel ∈ rss → m_Namespace rm = ns p → m_Name rm = o_Name o →
  GetOwnerKindAndName direct api (meta p) retry
  = Ok (if isValidRSParent rm then match m_Owners rm with [g] => kindAndName g | _ => kindAndName o end else kindAndName o).
Proof.
  intros Ho Hk Hr Hn Hm. unfold GetOwnerKindAndName, lister. rewrite Ho, Hk, (coh_rss _ _ _ _ _ _ Hc).
  rewrite (bool_decide_false ("ReplicaSet" = "Job")), (bool_decide_true ("ReplicaSet" = "ReplicaSet")) by done. cbn [res_bind].
  pose proof (Get_elem rss _ Hr) as Hget. unfold ns, name in Hget. cbn [meta] in Hget. change (m_Namespace (meta p)) with (ns p).
  rewrite <-Hn, <-Hm, Hget.
  - cbn [meta]. destruct (isValidRSParent rm); [|done]. by destruct (m_Owners rm) as [|? [|]].
  - intros r' Hr' Hns' Hnm'. by apply (coh_rs_name _ _ _ _ _ _ Hc).
Qed.

Lemma owner_is_deployment retry p :
  p ∈ pods → ns p = m_Namespace m → GetOwnerKindAndName direct api (meta p) retry = Ok ("deployment", m_Name m) →
  ∃ o g rm rsel, m_Owners (meta p) = [o] ∧ ReplicaSetO rm rsel ∈ rss ∧ m_Namespace rm = ns p ∧ o_UID o = m_UID rm
    ∧ rsel ⊆ m_Labels (meta p) ∧ m_Owners rm = [g] ∧ o_UID g = m_UID m.
Proof.
  intros Hp Hns Hown.
  assert (∃ o, m_Owners (meta p) = [o]) as [o Ho].
  { unfold GetOwnerKindAndName in Hown. destruct (m_Owners (meta p)) as [|o [|]]; [done|by exists o|done]. }
  destruct (coh_pod_owners _ _ _ _ _ _ Hc p o Hp) as (_ & Hkind & Hrs & _); [rewrite Ho; set_solver|].
  assert (kindAndName o ≠ ("deployment", m_Name m)) as Hpar by (intros [= ? _]; by apply Hkind).
  destruct (decide (o_Kind o = "ReplicaSet")) as [Hk|Hk].
  - destruct (Hrs Hk) as (rm & rsel & Hr & Hn & Hm & Hu & Hsel).
    rewrite (owner_via_rs retry p o rm rsel) in Hown by done. injection Hown as Hown.
    destruct (isValidRSParent rm) eqn:Hv; [|done].
    unfold isValidRSParent in Hv. destruct (m_Owners rm) as [|g [|]] eqn:Hg; [done| |done].
    exists o, g, rm, rsel. split_and!; try done.
    destruct (coh_rs_owners _ _ _ _ _ _ Hc _ g Hr) as (_ & Hiff & _); [by rewrite <-Hns|simpl; rewrite Hg; set_solver|].
    by apply Hiff.
  - exfalso. unfold GetOwnerKindAndName in Hown. rewrite Ho in Hown. case_bool_decide as Hjob.
    + destruct (coh_jobs _ _ _ _ _ _ Hc) as (jobs & Hjobs & Hnd). unfold lister in Hown. rewrite Hjobs in Hown. cbn [res_bind] in Hown.
      match type of Hown with context [match ?j with Some _ => _ | None => _ end] => destruct j as [job|] eqn:Hfound end.
      2: { by injection Hown. }
      destruct (m_Owners job) as [|g [|]] eqn:Hg; [by injection Hown| |by injection Hown].
      assert (strings.ToLower (o_Kind g) ≠ "deployment") as Hng; [|by injection Hown as ? _].
      destruct (Get jobs _ _) as [jo| |] eqn:Hget.
      * injection Hfound as <-. apply Get_Ok in Hget as [Hget _]. by eapply Hnd.
      * destruct retry; [|done]. by eapply (coh_direct _ _ _ _ _ _ Hc).
      * destruct retry; [|done]. by eapply (coh_direct _ _ _ _ _ _ Hc).
    + rewrite bool_decide_false in Hown by done. by injection Hown as ? _.
Qed.

Lemma owner_iff_pods retry p :
  p ∈ pods → ns p = m_Namespace m → isPendingOrRunning p = true →
  GetOwnerKindAndName direct api (meta p) retry = Ok ("deployment", m_Name m)
  ↔ ∃ l, GetPodsFor api (DeploymentO m sel) false = Ok l ∧ p ∈ l.
Proof.
  intros Hp Hns Hlive. destruct GetPodsFor_deployment as (l & Hl & Hiff). split.
  - intros (o & g & rm & rsel & Ho & Hr & Hn & Hu & Hsel & Hg & Hgu)%owner_is_deployment; [|done..].
    exists l. split; [done|]. apply Hiff. exists rm, rsel.
    destruct (coh_rs_owners _ _ _ _ _ _ Hc _ g Hr) as (_ & _ & Hs); [exact (eq_trans Hn Hns)|simpl; rewrite Hg; set_solver|].
    split; [apply list_elem_of_filter; split; [apply isOwner_spec; exists g; simpl; rewrite Hg; set_solver|]|].
    + apply elem_of_ListNS. split; [done|]. split; [exact (eq_trans Hn Hns)|]. apply bool_decide_eq_true. by apply Hs.
    + apply elem_of_livePods. split_and!; [|by left|right; apply isOwner_spec; exists o; rewrite Ho; set_solver].
      apply elem_of_ListNS. split; [done|]. split; [done|]. by apply bool_decide_eq_true.
  - intros (l' & Hl' & Hin). rewrite Hl in Hl'. injection Hl' as <-. apply Hiff in Hin as (rm & rsel & Hr & Hin).
    apply list_elem_of_filter in Hr as [(g & Hg & Hgu)%isOwner_spec Hr]. apply elem_of_ListNS in Hr as (Hr & Hrn & _).
    apply elem_of_livePods in Hin as (Hin & _ & Hown). destruct (coh_rs_kind _ _ _ _ _ _ Hc _ Hr) as (? & ? & [= <- <-] & Hne).
    destruct Hown as [?|(o & Ho & Hou)%isOwner_spec]; [done|].
    destruct (coh_pod_owners _ _ _ _ _ _ Hc p o Hp Ho) as (Hos & _ & Hrs & Hnrs).
    destruct (decide (o_Kind o = "ReplicaSet")) as [Hk|Hk]; [|by destruct (Hnrs Hk _ Hr)].
    destruct (Hrs Hk) as (rm' & rsel' & Hr' & Hn' & Hm' & Hu' & _).
    assert (ReplicaSetO rm' rsel' = ReplicaSetO rm rsel) as [= -> ->] by (apply (coh_rs_uid _ _ _ _ _ _ Hc); simpl; congruence).
    rewrite (owner_via_rs retry p o rm rsel) by done.
    destruct (coh_rs_owners _ _ _ _ _ _ Hc _ g Hr Hrn Hg) as (Hgs & Hgk & _). simpl in Hgs. apply Hgk in Hgu.
    unfold isValidRSParent. rewrite Hgs, Hgu. f_equal.
    rewrite bool_decide_true; [done|]. unfold kindAndName in Hgu. injection Hgu as -> _. set_solver.
Qed.
End coherent.

(** C16: Owners and pods are inverse.  In a coherent cluster, a living pod of the deployment's
    namespace is among the pods found for the deployment exactly if the owner found for the
    pod is that deployment. *)
Theorem owner_of_pods direct api m sel pods rss retry p :
  coherent direct api m sel pods rss → p ∈ pods → ns p = m_Namespace m → isPendingOrRunning p = true →
  GetOwnerKindAndName direct api (meta p) retry = Ok ("deployment", m_Name m)
  ↔ ∃ l, GetPodsFor api (DeploymentO m sel) false = Ok l ∧ p ∈ l.
Proof. intros. by eapply owner_iff_pods. Qed.

(** Two levels are enough: with caches that hold objects of their kinds, more change nothing. *)
Lemma podsOf_ext g h uid objs : (∀ o, o ∈ objs → g o = h o) → podsOf g uid objs = podsOf h uid objs.
Proof.
  intros Heq. unfold podsOf. assert (∀ l, (∀ o, o ∈ l → g o = h o) → res_mapM g l = res_mapM h l) as Hmap.
  { induction l as [|o l IH]; intros Hl; [done|]. simpl. rewrite Hl by set_solver. by rewrite IH by set_solver. }
  rewrite Hmap; [done|]. intros o [_ Ho]%list_elem_of_filter. by apply Heq.
Qed.
Lemma podsFor_fuel api obj f n :
  (∀ l o, inf api !! JobRes = Some l → o ∈ l → ∃ m sel, o = JobO m sel) →
  (∀ l o, inf api !! RS = Some l → o ∈ l → ∃ m sel, o = ReplicaSetO m sel) →
  podsFor (2 + n) api obj f = GetPodsFor api obj f.
Proof.
  intros Hj Hr. unfold GetPodsFor. destruct obj; try done; cbn [podsFor plus Nat.add]; unfold lister.
  - destruct (inf api !! JobRes) as [jobs|]; [|done]. cbn [res_bind]. apply podsOf_ext. intros o [Ho _]%elem_of_ListNS.
    by destruct (Hj _ _ eq_refl Ho) as (? & ? & ->).
  - destruct (inf api !! RS) as [rss|]; [|done]. cbn [res_bind]. apply podsOf_ext. intros o [Ho _]%elem_of_ListNS.
    by destruct (Hr _ _ eq_refl Ho) as (? & ? & ->).
Qed.

(** * Services *)
(** Caches that hold objects of their kinds. *)
Definition kindsOk (api : API) : Prop :=
  (∀ l o, inf api !! Svc = Some l → o ∈ l → ∃ m type sel, o = ServiceO m type sel)
  ∧ is_Some (inf api !! PodRes) ∧ is_Some (inf api !! Svc).

Lemma GetPodsFor_service api m type sel f : kindsOk api → ∃ l, GetPodsFor api (ServiceO m type sel) f = Ok l.
Proof.
  intros (_ & [pods Hp] & _). unfold GetPodsFor. cbn. case_bool_decide; [by eexists|]. unfold listedPods, lister.
  rewrite Hp. by eexists.
Qed.

Lemma hasOverlap_spec l1 l2 : hasOverlap l1 l2 = true ↔ ∃ a b, a ∈ l1 ∧ b ∈ l2 ∧ name a = name b.
Proof.
  unfold hasOverlap. rewrite existsb_exists. setoid_rewrite existsb_exists. setoid_rewrite bool_decide_eq_true.
  setoid_rewrite <-list_elem_of_In. naive_solver.
Qed.

(** The services of an object are those it shares a pod with: for every object whose pods
    and namespace can be found, the services found are exactly the services of that namespace
    with a pod of the name of one of its pods. *)
Theorem services_for_spec api obj f pods n :
  kindsOk api → (∀ m type sel, obj ≠ ServiceO m type sel) →
  GetPodsFor api obj f = Ok pods → GetNamespaceOf obj = Ok n → n ≠ "" →
  ∃ svcs, GetServicesFor api obj f = Ok svcs
  ∧ ∀ svc, svc ∈ svcs ↔ ∃ l svcPods, inf api !! Svc = Some l ∧ svc ∈ l ∧ ns svc = n
      ∧ GetPodsFor api svc f = Ok svcPods ∧ ∃ a b, a ∈ pods ∧ b ∈ svcPods ∧ name a = name b.
Proof.
  intros Hk Hobj Hp Hn Hne. pose proof Hk as (Hsvc & _ & [all Hall]).
  assert (∃ svcs, (let* ls := res_mapM (λ svc, let* svcPods := GetPodsFor api svc f in
      Ok (if hasOverlap pods svcPods then [svc] else [])) (ListNS all n Everything) in Ok (mjoin ls)) = Ok svcs
    ∧ ∀ svc, svc ∈ svcs ↔ svc ∈ ListNS all n Everything ∧ ∃ svcPods, GetPodsFor api svc f = Ok svcPods ∧ hasOverlap pods svcPods = true)
    as (svcs & Hsvcs & Hiff).
  { assert (∀ svc, svc ∈ ListNS all n Everything → ∃ l, GetPodsFor api svc f = Ok l) as Hok.
    { intros svc [Hin _]%elem_of_ListNS. destruct (Hsvc _ _ Hall Hin) as (m & type & sel & ->). by apply GetPodsFor_service. }
    revert Hok. induction (ListNS all n Everything) as [|svc l IH]; intros Hok.
    { exists []. split; [done|]. intros svc. split; [by intros ?%elem_of_nil|by intros [?%elem_of_nil _]]. }
    destruct IH as (svcs & Hs & Hiff); [intros; apply Hok; set_solver|]. apply res_bind_Ok in Hs as (ls & Hls & [= <-]).
    destruct (Hok svc) as [svcPods Hsp]; [set_solver|]. cbn [res_mapM]. rewrite Hsp. cbn [res_bind]. rewrite Hls. cbn [res_bind].
    eexists. split; [done|]. intros s. match goal with |- s ∈ mjoin (?x :: ?l) ↔ _ => change (mjoin (x :: l)) with (x ++ mjoin l) end.
    rewrite elem_of_app, Hiff, elem_of_cons. clear Hiff. destruct (hasOverlap pods svcPods) eqn:Ho.
    - rewrite list_elem_of_singleton. split.
      + intros [->|[Hs Hex]]; [split; [by left|by exists svcPods]|split; [by right|done]].
      + intros [[->|Hs] Hex]; [by left|by right].
    - split.
      + intros [Hs%elem_of_nil|[Hs Hex]]; [done|split; [by right|done]].
      + intros [[->|Hs] Hex]; [|by right]. destruct Hex as (sp & Hs & Hov). rewrite Hsp in Hs. by injection Hs as <-; rewrite Ho in Hov. }
  exists svcs. unfold GetServicesFor, GetServices, getListed, lister. rewrite Hp, Hn, Hall. cbn [res_bind].
  rewrite (bool_decide_false (n = "")), (bool_decide_true ("" = "")) by done. cbn [res_bind]. split.
  - destruct obj; try done. by destruct (Hobj m type selector).
  - intros svc. rewrite Hiff, elem_of_ListNS. setoid_rewrite hasOverlap_spec. split.
    + intros ((Hin & Hns & _) & svcPods & Hsp & Hov). by exists all, svcPods.
    + intros (l & svcPods & [= <-] & Hin & Hns & Hsp & Hov). split; [done|]. by exists svcPods.
Qed.

(** * Resources *)
(** The kind of a resource leads back to it, except for endpoints, endpoint slices and webhook
    configurations, whose kinds [GetAPIResource] does not know. *)
Theorem resource_roundtrip r gv k : GVK r = Some (gv, k) →
  GetAPIResource k = if bool_decide (r ∈ [EndpointRes; ES; MWC]) then None else Some r.
Proof. destruct r; intros [= <- <-]; vm_compute; reflexivity. Qed.

(** ** Which objects a query returns *)
Lemma getListed_elem r api n nm sel objects o : getListed r api n nm sel = Ok objects → o ∈ objects →
  ∃ l, inf api !! r = Some l ∧ o ∈ l ∧ (n = "" ∨ ns o = n ∧ (nm = "" ∨ name o = nm)).
Proof.
  unfold getListed, lister. destruct (inf api !! r) as [l|]; cbn; [|done]. intros Hl Ho. exists l. split; [done|].
  case_bool_decide as Hn; [injection Hl as <-; apply list_elem_of_filter in Ho as [_ Ho]; auto|].
  case_bool_decide as Hm; [injection Hl as <-; apply elem_of_ListNS in Ho as (Ho & <- & _); auto|].
  destruct (Get l n nm) as [o'| |] eqn:Hg; cbn in Hl; [|done..]. injection Hl as <-. apply list_elem_of_singleton in Ho as ->.
  apply Get_Ok in Hg as (? & <- & <-). auto.
Qed.
Lemma GetObjects_elem api n typ nm sel objects o : GetObjects api n typ nm sel = Ok objects → o ∈ objects →
  ∃ r l, inf api !! r = Some l ∧ o ∈ l
    ∧ if decide (typ = "namespace") then r = NS ∧ (nm = "" ∨ name o = nm)
      else r ≠ NS ∧ (n = "" ∨ ns o = n ∧ (nm = "" ∨ name o = nm)).
Proof.
  assert (∀ r, r ≠ NS → typ ≠ "namespace" → getListed r api n nm sel = Ok objects → o ∈ objects → ∃ r l, inf api !! r = Some l ∧ o ∈ l
    ∧ if decide (typ = "namespace") then r = NS ∧ (nm = "" ∨ name o = nm) else r ≠ NS ∧ (n = "" ∨ ns o = n ∧ (nm = "" ∨ name o = nm))) as Hl.
  { intros r Hr Ht Hg Ho. destruct (getListed_elem _ _ _ _ _ _ _ Hg Ho) as (l & ? & ? & ?). exists r, l. rewrite decide_False by done. auto. }
  unfold GetObjects. case_bool_decide as Hns.
  - unfold getNamespaces, lister. destruct (inf api !! NS) as [l|] eqn:Hi; cbn; [|done]. intros Hg Ho. exists NS, l. rewrite decide_True by done.
    case_bool_decide; [injection Hg as <-; apply list_elem_of_filter in Ho as [_ ?]; auto|].
    destruct (list_find _ l) as [[i o']|] eqn:Hf; [|done]. injection Hg as <-. apply list_elem_of_singleton in Ho as ->.
    apply list_find_Some in Hf as (Hl' & ? & _). split; [done|]. split; [by eapply list_elem_of_lookup_2|auto].
  - repeat (case_bool_decide; [first [apply Hl; done|idtac]|]); [| |done].
    + unfold getPods. destruct (getListed PodRes api n nm sel) as [ps| |] eqn:Hg; cbn; [|done..].
      intros [= <-] [_ Ho]%list_elem_of_filter. destruct (getListed_elem _ _ _ _ _ _ _ Hg Ho) as (l & ? & ? & ?).
      exists PodRes, l. rewrite decide_False by done. auto.
    + unfold GetServices. intros Hg Ho. destruct (getListed_elem _ _ _ _ _ _ _ Hg Ho) as (l & ? & ? & ?).
      exists Svc, l. rewrite decide_False by done. auto.
Qed.

(** ** Where the pods of an object are *)
Definition isNamespace (o : object) : bool := match o with NamespaceO _ => true | _ => false end.
(** The cache of namespaces has namespaces, and no other cache has any. *)
Definition namespacesApart (api : API) : Prop := ∀ r l o, inf api !! r = Some l → o ∈ l → isNamespace o = bool_decide (r = NS).
Definition namespaceOf (o : object) : string := if isNamespace o then name o else ns o.
Lemma podsFor_namespace fuel api o f l p : namespacesApart api → podsFor fuel api o f = Ok l → p ∈ l → ns p = namespaceOf o.
Proof.
  intros Hap. revert o l. induction fuel as [|fuel IH]; [done|]. intros o l.
  assert (∀ n sel uid, listedPods api n sel uid f = Ok l → p ∈ l → ns p = n) as Hlp.
  { intros n sel uid. unfold listedPods, lister. destruct (inf api !! PodRes); cbn; [|done]. intros [= <-] Hp.
    apply elem_of_livePods in Hp as (Hp & _). by apply elem_of_ListNS in Hp as (_ & ? & _). }
  assert (∀ r n sel uid, r ≠ NS → (let* objs := lister api r in podsOf (λ o, podsFor fuel api o f) uid (ListNS objs n sel)) = Ok l →
    p ∈ l → ns p = n) as Hof.
  { intros r n sel uid Hr. unfold lister. destruct (inf api !! r) as [objs|] eqn:Hi; cbn; [|done]. unfold podsOf.
    destruct (res_mapM _ _) as [ls| |] eqn:Hm; cbn; [|done..]. intros [= <-] (ps & Hp & Hps)%list_elem_of_join.
    apply res_mapM_Ok in Hm. apply list_elem_of_lookup in Hps as (i & Hps). destruct (Forall2_lookup_r _ _ _ _ _ Hm Hps) as (o' & Ho' & Hf).
    apply list_elem_of_lookup_2, list_elem_of_filter in Ho' as [_ Ho']. apply elem_of_ListNS in Ho' as (Ho' & <- & _).
    rewrite (IH _ _ Hf Hp). unfold namespaceOf. by rewrite (Hap _ _ _ Hi Ho'), bool_decide_false. }
  destruct o; cbn [podsFor]; try apply Hlp; try (by apply Hof); [| |done].
  - case_bool_decide; [by intros [= <-] ?%elem_of_nil|apply Hlp].
  - unfold lister. destruct (inf api !! PodRes) as [pods|]; cbn [res_bind]; [|done]. destruct (Get pods _ _) as [q| |] eqn:Hg; cbn [res_bind]; [|done..].
    intros [= <-] Hp. apply elem_of_livePods in Hp as (->%list_elem_of_singleton & _). by apply Get_Ok in Hg as (_ & ? & _).
Qed.

(** Without a namespace the name is ignored: all objects of the kind are returned. *)
Theorem objects_name_ignored api kind nm sel :
  kind ≠ "namespace" → GetObjects api "" kind nm sel = GetObjects api "" kind "" sel.
Proof.
  intros Hk. unfold GetObjects. rewrite (bool_decide_false (kind = "namespace")) by done.
  repeat (case_bool_decide; [done|]). done.
Qed.

(** * An example *)
Definition ex_labels : strmap := {["app" := "web"]}.
Definition ex_deploy : Meta := mkMeta "web" "ns" "d1" ∅ [].
Definition ex_rsMeta : Meta := mkMeta "web-1" "ns" "r1" ex_labels [mkOwner "Deployment" "web" "d1"].
Definition ex_rs : object := ReplicaSetO ex_rsMeta ex_labels.
Definition ex_pod : object := PodO (mkMeta "web-1-a" "ns" "p1" ex_labels [mkOwner "ReplicaSet" "web-1" "r1"]) "Running" false.
Definition ex_svc : object := ServiceO (mkMeta "web" "ns" "s1" ∅ []) "ClusterIP" (Some ex_labels).
Definition ex_api : API := mkAPI {[PodRes := [ex_pod]; RS := [ex_rs]; JobRes := []; Svc := [ex_svc]]}.

Lemma ex_coherent : coherent (λ _ _ _, None) ex_api ex_deploy ex_labels [ex_pod] [ex_rs].
Proof.
  split; try reflexivity.
  - exists []. split; [reflexivity|]. intros job o Hj. by apply elem_of_nil in Hj.
  - done.
  - intros r ->%list_elem_of_singleton. by do 2 eexists.
  - by intros r1 r2 ->%list_elem_of_singleton ->%list_elem_of_singleton.
  - by intros r1 r2 ->%list_elem_of_singleton ->%list_elem_of_singleton.
  - intros r o ->%list_elem_of_singleton _ ->%list_elem_of_singleton. split; [reflexivity|]. split; [done|]. by intros _.
  - intros p o ->%list_elem_of_singleton ->%list_elem_of_singleton. split; [reflexivity|]. split; [done|]. split; [|done].
    intros _. exists ex_rsMeta, ex_labels. split; [set_solver|]. done.
Qed.

Lemma owner_of_pods_witness :
  GetOwnerKindAndName (λ _ _ _, None) ex_api (meta ex_pod) false = Ok ("deployment", "web")
  ∧ ∃ l, GetPodsFor ex_api (DeploymentO ex_deploy ex_labels) false = Ok l ∧ ex_pod ∈ l.
Proof.
  assert (GetOwnerKindAndName (λ _ _ _, None) ex_api (meta ex_pod) false = Ok ("deployment", "web")) as Ho by (vm_compute; reflexivity).
  split; [exact Ho|]. apply (owner_of_pods (λ _ _ _, None) ex_api ex_deploy ex_labels [ex_pod] [ex_rs] false ex_pod ex_coherent).
  - set_solver.
  - reflexivity.
  - reflexivity.
  - exact Ho.
Defined.

Lemma owner_apis_agree_witness :
  GetOwnerKindAndName (λ _ _ _, None) ex_api (meta ex_pod) true = GetOwnerKindAndNameMeta (λ _ _ _, None) ex_api (meta ex_pod) true.
Proof. apply owner_apis_agree; eexists; reflexivity. Defined.

Lemma services_for_spec_witness : ∃ svcs, GetServicesFor ex_api ex_pod false = Ok svcs ∧ ex_svc ∈ svcs.
Proof.
  destruct (services_for_spec ex_api ex_pod false [ex_pod] "ns") as (svcs & Hs & Hiff).
  - split; [|split; eexists; reflexivity]. intros l o Hl Hin. vm_compute in Hl. injection Hl as <-.
    apply list_elem_of_singleton in Hin as ->. do 3 eexists. reflexivity.
  - discriminate.
  - vm_compute. reflexivity.
  - reflexivity.
  - discriminate.
  - exists svcs. split; [exact Hs|]. apply Hiff. exists [ex_svc], [ex_pod]. split; [reflexivity|]. split; [apply list_elem_of_singleton; reflexivity|].
    split; [reflexivity|]. split; [vm_compute; reflexivity|]. exists ex_pod, ex_pod.
    split; [apply list_elem_of_singleton; reflexivity|]. split; [apply list_elem_of_singleton; reflexivity|reflexivity].
Defined.
