(* ===== verification/Version.v ===== *)
(** Versions: [pkg/version] (channels of Linkerd releases) and [pkg/k8s/version.go] (the version
    of the Kubernetes API server).  The request for the latest versions goes over HTTP; the map
    it is decoded to is the input here. *)
From S2P Require Import Prelude GoStd.

#[local] Open Scope string_scope.
#[local] Open Scope list_scope.
#[local] Open Scope Z_scope.
#[local] Open Scope go_scope.

(** * Release channels *)
Record channelVersion := mkChannelVersion {
  cv_channel : string; cv_version : string; cv_hotpatch : option Z; cv_original : string }.

#[export] Instance channelVersion_eq_dec : EqDecision channelVersion.
Proof. solve_decision. Defined.

Definition hotpatchSuffix : string := "Hotpatch".

Definition cv_String (cv : channelVersion) : string := cv_original cv.

Definition updateChannel (cv : channelVersion) : string :=
  match cv_hotpatch cv with Some _ => cv_channel cv +:+ hotpatchSuffix | None => cv_channel cv end.

Definition versionWithHotpatch (cv : channelVersion) : string :=
  match cv_hotpatch cv with None => cv_version cv | Some h => cv_version cv +:+ "-" +:+ strconv.Itoa h end.

Definition hotpatchEqual (cv other : channelVersion) : bool :=
  match cv_hotpatch cv, cv_hotpatch other with
  | None, None => true
  | Some h, Some h' => bool_decide (h = h')
  | _, _ => false
  end.

(** The first of the parts that is a number. *)
Fixpoint firstNumber (parts : list string) : option Z :=
  match parts with
  | [] => None
  | part :: parts => match strconv.ParseInt part 64 with Some i => Some i | None => firstNumber parts end
  end.

Definition parseChannelVersion (cv : string) : res channelVersion :=
  match strings.Split cv "-" with
  | channel :: version :: parts => Ok (mkChannelVersion channel version (firstNumber parts) cv)
  | _ => Err ("unsupported version format: " +:+ cv)
  end.

Definition IsReleaseChannel (version : string) : res bool :=
  let* cv := parseChannelVersion version in
  Ok (bool_decide (cv_channel cv = "edge" ∨ cv_channel cv = "stable")).

(** version.go: [match]. *)
Definition version_match (expectedVersion actualVersion : string) : res () :=
  if bool_decide (expectedVersion = "") then Err "expected version is empty"
  else if bool_decide (actualVersion = "") then Err "actual version is empty"
  else
    let* actual := parseChannelVersion actualVersion in
    let* expected := parseChannelVersion expectedVersion in
    if bool_decide (cv_channel actual ≠ cv_channel expected)
    then Err ("mismatched channels: running " +:+ cv_String actual +:+ " but retrieved " +:+ cv_String expected)
    else if bool_decide (cv_version actual ≠ cv_version expected) || negb (hotpatchEqual actual expected)
    then Err ("is running version " +:+ versionWithHotpatch actual +:+ " but the latest " +:+ cv_channel actual +:+
              " version is " +:+ versionWithHotpatch expected)
    else Ok ().

(** [Channels] is its array. *)
Definition Channels : Type := list channelVersion.

Definition NewChannels (channel : string) : res Channels :=
  let* cv := parseChannelVersion channel in Ok [cv].

Definition Channels_Empty (c : Channels) : bool := bool_decide (c = []).

Definition Match (c : Channels) (actualVersion : string) : res () :=
  if bool_decide (actualVersion = "") then Err "actual version is empty"
  else if Channels_Empty c then Err "unable to determine version channel"
  else
    let* actual := parseChannelVersion actualVersion in
    match list_find (λ cv, updateChannel cv = updateChannel actual) c with
    | Some (_, cv) => version_match (cv_String cv) actualVersion
    | None => Err ("unsupported version channel: " +:+ actualVersion)
    end.

(** The loop of [getLatestVersions] over the decoded response. *)
Definition versionOf (c v : string) : res channelVersion :=
  let* cv := parseChannelVersion v in
  if bool_decide (c ≠ updateChannel cv)
  then Err ("unexpected versioncheck response: channel in " +:+ cv_String cv +:+ " does not match " +:+ c)
  else Ok cv.
Definition getLatestVersions `{!MapRange} (versionRsp : gmap string string) : res Channels :=
  res_mapM (λ e, versionOf e.1 e.2) (range versionRsp).

(** * The version of Kubernetes *)
Definition isVersionChar (a : ascii) : bool := netip.is_dec a || bool_decide (a = "."%char).
(** What precedes the first character that is neither a digit nor a dot. *)
Fixpoint revision (s : string) : string :=
  match s with
  | EmptyString => ""
  | String a s => if isVersionChar a then String a (revision s) else ""
  end.
Definition TrimPrefix_v (s : string) : string :=
  match s with String "v" s => s | _ => s end.

(** The segments are stored in an array of three; a fourth is out of range. *)
Fixpoint storeSegments (i : nat) (segments : list string) (version : Z * Z * Z) : res (Z * Z * Z) :=
  match segments with
  | [] => Ok version
  | segment :: segments =>
      match strconv.Atoi (strings.TrimSpace segment), version with
      | None, _ => Err "unknown version string format"
      | Some v, (a, b, c) =>
          match i with
          | 0%nat => storeSegments 1 segments (v, b, c)
          | 1%nat => storeSegments 2 segments (a, v, c)
          | 2%nat => storeSegments 3 segments (a, b, v)
          | _ => Panic
          end
      end
  end.
Definition getK8sVersion (versionString : string) : res (Z * Z * Z) :=
  let split := strings.Split (revision (TrimPrefix_v versionString)) "." in
  if (length split <? 3)%nat then Err ("unknown version string format [" +:+ versionString +:+ "]")
  else storeSegments 0 split (0, 0, 0).

Definition isCompatibleVersion (minimalRequirementVersion actualVersion : Z * Z * Z) : bool :=
  let '(m0, m1, m2) := minimalRequirementVersion in
  let '(a0, a1, a2) := actualVersion in
  if m0 <? a0 then true
  else if (m0 =? a0) && (m1 <? a1) then true
  else if (m0 =? a0) && (m1 =? a1) && (m2 <=? a2) then true
  else false.

Definition minAPIVersion : Z * Z * Z := (1, 22, 0).

Definition CheckVersion (versionInfo : string) : res () :=
  let* apiVersion := getK8sVersion versionInfo in
  if isCompatibleVersion minAPIVersion apiVersion then Ok () else Err "Kubernetes is on an older version".

(** * Properties *)
(** The versions that are required are the upward closed part of the lexicographic order. *)
Definition version_le (v w : Z * Z * Z) : Prop :=
  let '(a, b, c) := v in let '(a', b', c') := w in
  a < a' ∨ (a = a' ∧ (b < b' ∨ (b = b' ∧ c ≤ c'))).

Lemma isCompatibleVersion_le m a : isCompatibleVersion m a = true ↔ version_le m a.
Proof.
  destruct m as [[m0 m1] m2], a as [[a0 a1] a2]. unfold isCompatibleVersion, version_le.
  destruct (m0 <? a0) eqn:?, (m0 =? a0) eqn:?, (m1 <? a1) eqn:?, (m1 =? a1) eqn:?, (m2 <=? a2) eqn:?;
    simpl; rewrite ?Z.ltb_lt, ?Z.ltb_ge, ?Z.eqb_eq, ?Z.eqb_neq, ?Z.leb_le, ?Z.leb_gt in *; split; intros; try lia; done.
Qed.

Lemma getLatest_elements `{!MapRange} rsp c :
  getLatestVersions rsp = Ok c → Forall2 (λ e cv, versionOf e.1 e.2 = Ok cv) (range rsp) c.
Proof. apply res_mapM_Ok. Qed.

Lemma versionOf_Ok c v cv : versionOf c v = Ok cv ↔ parseChannelVersion v = Ok cv ∧ updateChannel cv = c.
Proof.
  unfold versionOf. destruct (parseChannelVersion v) as [cv'| |]; cbn [res_bind]; [|naive_solver..].
  case_bool_decide; naive_solver.
Qed.

Lemma parseChannelVersion_original v cv : parseChannelVersion v = Ok cv → cv_original cv = v ∧ v ≠ "".
Proof.
  unfold parseChannelVersion. destruct (strings.Split v "-") as [|a [|b l]] eqn:Hs; [done..|].
  intros [= <-]. split; [done|]. by intros ->.
Qed.

(** Versions that are the same up to build information. *)
Definition sameVersion (v w : string) : Prop :=
  ∃ cv cw, parseChannelVersion v = Ok cv ∧ parseChannelVersion w = Ok cw ∧
    cv_channel cv = cv_channel cw ∧ cv_version cv = cv_version cw ∧ cv_hotpatch cv = cv_hotpatch cw.

Lemma hotpatchEqual_spec cv cw : hotpatchEqual cv cw = true ↔ cv_hotpatch cv = cv_hotpatch cw.
Proof. unfold hotpatchEqual. destruct (cv_hotpatch cv), (cv_hotpatch cw); rewrite ?bool_decide_eq_true; naive_solver. Qed.

Lemma version_match_spec e a : version_match e a = Ok () ↔ sameVersion a e.
Proof.
  unfold version_match, sameVersion. split.
  - do 2 (case_bool_decide; [done|]).
    destruct (parseChannelVersion a) as [cv| |], (parseChannelVersion e) as [cw| |]; cbn [res_bind]; try done.
    case_bool_decide; [done|]. destruct (bool_decide (cv_version cv ≠ cv_version cw) || negb (hotpatchEqual cv cw)) eqn:Hb; [done|].
    apply orb_false_iff in Hb as [Hb%bool_decide_eq_false Hh%negb_false_iff%hotpatchEqual_spec].
    intros _. exists cv, cw. split_and!; try done; by apply dec_stable.
  - intros (cv & cw & Ha & He & Hc & Hv & Hh).
    destruct (parseChannelVersion_original _ _ Ha) as [_ Hna], (parseChannelVersion_original _ _ He) as [_ Hne].
    rewrite !bool_decide_false, Ha, He by done. cbn [res_bind]. rewrite bool_decide_false by naive_solver.
    rewrite bool_decide_false by naive_solver. apply hotpatchEqual_spec in Hh. by rewrite Hh.
Qed.

(** Matching against the latest versions.  With the channels of a response, a version matches
    exactly if the response has, for the update channel of the version, a version that is the
    same up to build information; the order in which the response was read does not matter. *)
Theorem channels_match `{!MapRange} rsp c v :
  getLatestVersions rsp = Ok c →
  Match c v = Ok () ↔ ∃ cv w, parseChannelVersion v = Ok cv ∧ rsp !! updateChannel cv = Some w ∧ sameVersion v w.
Proof.
  intros Hget%getLatest_elements. unfold Match. split.
  - case_bool_decide; [done|]. destruct (Channels_Empty c); [done|].
    destruct (parseChannelVersion v) as [cv| |] eqn:Hv; [|done..]. cbn [res_bind].
    destruct (list_find _ c) as [[i cw]|] eqn:Hf; [|done]. apply list_find_Some in Hf as (Hi & Hup & _).
    intros Hm%version_match_spec.
    destruct (Forall2_lookup_r _ _ _ _ _ Hget Hi) as ([ch w] & Hlk & Hof). apply versionOf_Ok in Hof as [Hw Hch]. simpl in *.
    destruct (parseChannelVersion_original _ _ Hw) as [Ho _]. unfold cv_String in Hm. rewrite Ho in Hm.
    exists cv, w. split; [done|]. split; [|done]. rewrite <-Hup, Hch. apply elem_of_range. by eapply list_elem_of_lookup_2.
  - intros (cv & w & Hv & Hlk & Hs). destruct (parseChannelVersion_original _ _ Hv) as [_ Hne].
    rewrite bool_decide_false, Hv by done. cbn [res_bind].
    apply elem_of_range, list_elem_of_lookup_1 in Hlk as [i Hi].
    destruct (Forall2_lookup_l _ _ _ _ _ Hget Hi) as (cw & Hcw & Hof). apply versionOf_Ok in Hof as [Hw Hup]. simpl in *.
    unfold Channels_Empty. rewrite bool_decide_false by (intros ->; done).
    destruct (list_find _ c) as [[j cw']|] eqn:Hf; [|by apply list_find_None, Forall_forall with (x := cw) in Hf;
      [|eapply list_elem_of_lookup_2]]. apply list_find_Some in Hf as (Hj & Hup' & _).
    destruct (Forall2_lookup_r _ _ _ _ _ Hget Hj) as ([ch' w'] & Hlk' & Hof). apply versionOf_Ok in Hof as [Hw' Hch']. simpl in *.
    assert (w' = w) as ->.
    { apply list_elem_of_lookup_2, elem_of_range in Hlk'. apply list_elem_of_lookup_2, elem_of_range in Hi. congruence. }
    destruct (parseChannelVersion_original _ _ Hw') as [Ho _]. unfold cv_String. rewrite Ho. by apply version_match_spec.
Qed.

Definition ex_response : gmap string string :=
  {["stable" := "stable-2.14.10"; "edge" := "edge-24.11.8"; "edgeHotpatch" := "edge-24.11.8-1"]}.

Lemma channels_match_witness :
  ∃ c, getLatestVersions (H := range_in_order) ex_response = Ok c
       ∧ Match c "edge-24.11.8-dev" = Ok () ∧ Match c "edge-24.11.7" ≠ Ok ().
Proof.
  eexists. split; [vm_compute; reflexivity|]. split.
  - apply (channels_match (H := range_in_order) ex_response); [vm_compute; reflexivity|].
    eexists _, "edge-24.11.8". split; [vm_compute; reflexivity|]. split; [vm_compute; reflexivity|].
    eexists _, _. split; [vm_compute; reflexivity|]. split; [vm_compute; reflexivity|]. done.
  - vm_compute. discriminate.
Defined.

(** A version of Kubernetes with four numbers ends the process: the fourth is stored outside of
    the array. *)
Lemma getK8sVersion_panics : getK8sVersion "v1.22.3.4" = Panic.
Proof. vm_compute. reflexivity. Qed.
