(* ===== verification/Health.v ===== *)
(** Running health checks: the checkers, categories and the runner of
    [pkg/healthcheck/healthcheck.go], the ways its results are shown
    ([pkg/healthcheck/healthcheck_output.go]), and reading them back from an extension
    ([cli/cmd/check_extensions.go]).

    The runner does not depend on what a check looks at: [HC] is what the checks share (the
    fields of [HealthChecker]), [Env] is what an attempt sees of the cluster.  The clock moves
    by the time an attempt takes and by the time the runner sleeps. *)
From S2P Require Import Prelude GoStd Version.

#[local] Open Scope string_scope.
#[local] Open Scope list_scope.
#[local] Open Scope Z_scope.
#[local] Open Scope go_scope.

(** * Errors *)
(** [Wrapped] is [fmt.Errorf] with [%w]: the text, and the error [errors.As] finds in it. *)
Inductive error :=
  | SkipError (reason : string)
  | VerboseSuccess (message : string)
  | NotFound (message : string)
  | ResourceError (resourceName : string) (names : list string)
  | CategoryError (category : string) (err : error)
  | Wrapped (message : string) (err : error)
  | Failure (message : string).

#[export] Instance error_eq_dec : EqDecision error.
Proof. solve_decision. Defined.

Fixpoint Error (e : error) : string :=
  match e with
  | SkipError reason => reason
  | VerboseSuccess _ => ""
  | ResourceError resourceName names => resourceName +:+ " found but should not exist: " +:+ strings.Join names " "
  | CategoryError _ err => Error err
  | NotFound message | Wrapped message _ | Failure message => message
  end.

(** [errors.As]: a [CategoryError] has no [Unwrap]. *)
Fixpoint asSkip (e : error) : option string :=
  match e with SkipError reason => Some reason | Wrapped _ e => asSkip e | _ => None end.
Fixpoint asVerbose (e : error) : option string :=
  match e with VerboseSuccess message => Some message | Wrapped _ e => asVerbose e | _ => None end.
Fixpoint IsNotFound (e : error) : bool :=
  match e with NotFound _ => true | Wrapped _ e => IsNotFound e | _ => false end.
Fixpoint IsCategoryError (e : error) (categoryID : string) : bool :=
  match e with CategoryError c _ => bool_decide (c = categoryID) | Wrapped _ e => IsCategoryError e categoryID | _ => false end.

(** What a check ends with: a value, an error, or a crash of the process. *)
Inductive result (A : Type) := Ret (a : A) | Throw (e : error) | Crash.
Arguments Ret {A} a.
Arguments Throw {A} e.
Arguments Crash {A}.

Definition ofRes {A} (r : res A) : result A :=
  match r with Ok a => Ret a | Err e => Throw (Failure e) | Panic => Crash end.

(** * Results *)
Record CheckResult := mkCheckResult {
  r_Category : string; r_Description : string; r_HintURL : string; r_Retry : bool; r_Warning : bool; r_Err : option error }.

#[export] Instance CheckResult_eq_dec : EqDecision CheckResult.
Proof. solve_decision. Defined.

(** * Hints *)
Definition DefaultHintBaseURL : string := "https://linkerd.io/2/checks/#".

Fixpoint digitRun (s : string) : string * string :=
  match s with
  | String a s' => if netip.is_dec a then let '(d, r) := digitRun s' in (String a d, r) else ("", s)
  | EmptyString => ("", "")
  end.
Fixpoint stripPrefix (p s : string) : option string :=
  match p, s with
  | EmptyString, s => Some s
  | String a p, String b s => if bool_decide (a = b) then stripPrefix p s else None
  | _, _ => None
  end.
(** The expression [stable-(\d\.\d+)\.], at the start of a text and at its first match. *)
Definition stableHere (s : string) : option string :=
  match stripPrefix "stable-" s with
  | Some (String d (String "." s)) =>
      if netip.is_dec d then
        match digitRun s with
        | (String x y, String "." _) => Some (String d (String "." (String x y)))
        | _ => None
        end
      else None
  | _ => None
  end.
Fixpoint reStableVersion (s : string) : option string :=
  match stableHere s, s with
  | Some v, _ => Some v
  | None, String _ s => reStableVersion s
  | None, EmptyString => None
  end.
Definition HintBaseURL (ver : string) : string :=
  match reStableVersion ver with
  | None => DefaultHintBaseURL
  | Some v => "https://linkerd.io/" +:+ v +:+ "/checks/#"
  end.

Section runner.
Context {HC Env : Type}.

(** A check reads and writes the checker, sees the cluster, and reads the clock. *)
Definition M (A : Type) : Type := HC → Env → Z → result A * HC.

#[global] Instance M_ret : MRet M := λ _ a hc _ _, (Ret a, hc).
#[global] Instance M_bind : MBind M := λ _ _ k m hc env now,
  match m hc env now with
  | (Ret a, hc) => k a hc env now
  | (Throw e, hc) => (Throw e, hc)
  | (Crash, hc) => (Crash, hc)
  end.
Definition throw {A} (e : error) : M A := λ hc _ _, (Throw e, hc).
Definition fail {A} (message : string) : M A := throw (Failure message).
Definition crash {A} : M A := λ hc _ _, (Crash, hc).
Definition lift {A} (r : result A) : M A := λ hc _ _, (r, hc).
Definition gets {A} (f : HC → A) : M A := λ hc _ _, (Ret (f hc), hc).
Definition modify (f : HC → HC) : M () := λ hc _ _, (Ret (), f hc).
Definition timeNow : M Z := λ hc _ now, (Ret now, hc).
(** The error of a call as a value. *)
Definition try {A} (m : M A) : M (error + A) := λ hc env now,
  match m hc env now with
  | (Ret a, hc) => (Ret (inr a), hc)
  | (Throw e, hc) => (Ret (inl e), hc)
  | (Crash, hc) => (Crash, hc)
  end.

(** * Checkers and categories *)
(** A deadline that was never set is the zero time, which is always past. *)
Record Checker := mkChecker {
  description : string; hintAnchor : string; fatal : bool; warning : bool;
  retryDeadline : option Z; surfaceErrorOnRetry : bool; check : option (M ()) }.

Definition NewChecker (description : string) : Checker := mkChecker description "" false false None false None.
Definition WithHintAnchor (hint : string) (c : Checker) : Checker :=
  mkChecker (description c) hint (fatal c) (warning c) (retryDeadline c) (surfaceErrorOnRetry c) (check c).
Definition Fatal (c : Checker) : Checker :=
  mkChecker (description c) (hintAnchor c) true (warning c) (retryDeadline c) (surfaceErrorOnRetry c) (check c).
Definition Warning (c : Checker) : Checker :=
  mkChecker (description c) (hintAnchor c) (fatal c) true (retryDeadline c) (surfaceErrorOnRetry c) (check c).
Definition WithRetryDeadline (retryDeadLine : option Z) (c : Checker) : Checker :=
  mkChecker (description c) (hintAnchor c) (fatal c) (warning c) retryDeadLine (surfaceErrorOnRetry c) (check c).
Definition SurfaceErrorOnRetry (c : Checker) : Checker :=
  mkChecker (description c) (hintAnchor c) (fatal c) (warning c) (retryDeadline c) true (check c).
Definition WithCheck (f : M ()) (c : Checker) : Checker :=
  mkChecker (description c) (hintAnchor c) (fatal c) (warning c) (retryDeadline c) (surfaceErrorOnRetry c) (Some f).

Record Category := mkCategory { ID : string; checkers : list Checker; enabled : bool; hintBaseURL : string }.

Definition NewCategory (version id : string) (checkers : list Checker) (enabled : bool) : Category :=
  mkCategory id checkers enabled (HintBaseURL version).
Definition WithHintBaseURL (url : string) (c : Category) : Category := mkCategory (ID c) (checkers c) (enabled c) url.

(** The end of [NewHealthChecker]: the categories asked for are enabled. *)
Definition enableCategories (categoryIDs : list string) (categories : list Category) : list Category :=
  (λ c, if bool_decide (ID c ∈ categoryIDs) then mkCategory (ID c) (checkers c) true (hintBaseURL c) else c) <$> categories.
Definition AppendCategories (more categories : list Category) : list Category := categories ++ more.

(** * The runner *)
Definition second : Z := 1000000000.
Definition retryWindow : Z := 5 * second.

(** What the attempts see, how long they take, and how long the sleep after each is. *)
Record World := mkWorld { envAt : nat → Env; took : nat → Z; slept : nat → Z }.
Record Run := mkRun { attempts : nat; clock : Z; checker : HC; observed : list CheckResult }.

Inductive ended := Passed | NotPassed | Crashed | NoFuel.

(** [time.Now().Before(c.retryDeadline)]. *)
Definition beforeDeadline (now : Z) (deadline : option Z) : bool :=
  match deadline with None => false | Some d => now <? d end.

(** The result that is observed after an attempt, up to retrying. *)
Definition resultOf (category : Category) (c : Checker) (err : option error) : CheckResult :=
  let verbose := err ≫= asVerbose in
  mkCheckResult (ID category)
    (match verbose with Some message => description c +:+ String "010" message | None => description c end)
    (hintBaseURL category +:+ hintAnchor c) false (warning c)
    (match verbose, err with None, Some e => Some (CategoryError (ID category) e) | _, _ => None end).
Definition asRetry (c : Checker) (r : CheckResult) : CheckResult :=
  mkCheckResult (r_Category r) (r_Description r) (r_HintURL r) true (r_Warning r)
    (if surfaceErrorOnRetry c then r_Err r else Some (Failure "waiting for check to complete")).

Fixpoint runCheck (fuel : nat) (w : World) (category : Category) (c : Checker) (f : M ()) (st : Run) : ended * Run :=
  match fuel with
  | O => (NoFuel, st)
  | S fuel =>
      let i := attempts st in
      let '(r, hc) := f (checker st) (envAt w i) (clock st) in
      let now := clock st + took w i in
      match r with
      | Crash => (Crashed, mkRun (S i) now hc (observed st))
      | _ =>
          let err := match r with Throw e => Some e | _ => None end in
          match err ≫= asSkip with
          | Some _ => (Passed, mkRun (S i) now hc (observed st))
          | None =>
              let checkResult := resultOf category c err in
              if bool_decide (r_Err checkResult ≠ None) && beforeDeadline now (retryDeadline c) then
                runCheck fuel w category c f
                  (mkRun (S i) (now + slept w i) hc (observed st ++ [asRetry c checkResult]))
              else
                (if bool_decide (r_Err checkResult = None) then Passed else NotPassed,
                 mkRun (S i) now hc (observed st ++ [checkResult]))
          end
      end
  end.

(** As many attempts as fit before the deadline, and one. *)
Definition enoughAttempts (c : Checker) (now : Z) : nat :=
  match retryDeadline c with
  | None => 1%nat
  | Some d => S (Z.to_nat ((d - now) / retryWindow + 1))
  end.

(** Going on with the next check, returning after a fatal one, or not coming back. *)
Inductive flow := Continue (success warning : bool) | Return (success warning : bool) | Broken (e : ended).

Fixpoint runCheckers (w : World) (c : Category) (cs : list Checker) (success warn : bool) (st : Run) : flow * Run :=
  match cs with
  | [] => (Continue success warn, st)
  | ck :: cs =>
      match check ck with
      | None => runCheckers w c cs success warn st
      | Some f =>
          match runCheck (enoughAttempts ck (clock st)) w c ck f st with
          | (Passed, st) => runCheckers w c cs success warn st
          | (NotPassed, st) =>
              let success := if warning ck then success else false in
              let warn := if warning ck then true else warn in
              if fatal ck then (Return success warn, st) else runCheckers w c cs success warn st
          | (e, st) => (Broken e, st)
          end
      end
  end.

Fixpoint runCategories (w : World) (cs : list Category) (success warn : bool) (st : Run) : flow * Run :=
  match cs with
  | [] => (Return success warn, st)
  | c :: cs =>
      if enabled c then
        match runCheckers w c (checkers c) success warn st with
        | (Continue success warn, st) => runCategories w cs success warn st
        | other => other
        end
      else runCategories w cs success warn st
  end.

Definition HealthChecker_RunChecks (w : World) (categories : list Category) (st : Run) : flow * Run :=
  runCategories w categories true false st.

(** [RunWithExitOnError]: the observer ends the process at the first failure that counts. *)
Definition exitsOn (r : CheckResult) : bool :=
  negb (r_Retry r) && bool_decide (r_Err r ≠ None) && negb (r_Warning r).
Inductive exiting := Exits | Returns (success warning : bool) | Fails.
Definition RunWithExitOnError (w : World) (categories : list Category) (st : Run) : exiting :=
  match HealthChecker_RunChecks w categories st with
  | (e, st') =>
      if existsb exitsOn (drop (length (observed st)) (observed st')) then Exits
      else match e with Return s wn | Continue s wn => Returns s wn | Broken _ => Fails end
  end.
End runner.

Arguments M : clear implicits.
Arguments Checker : clear implicits.
Arguments Category : clear implicits.
Arguments World : clear implicits.
Arguments Run : clear implicits.

(** * Results that are already there *)
(** [CheckResults.RunChecks]; every result is passed to the observer in turn. *)
Definition runResult (acc : bool * bool) (r : CheckResult) : bool * bool :=
  match r_Err r with
  | None => acc
  | Some _ => if r_Warning r then (acc.1, true) else (false, acc.2)
  end.
Definition CheckResults_RunChecks (results : list CheckResult) : bool * bool := foldl runResult (true, false) results.

(** * JSON output *)
Inductive CheckResultStr := CheckSuccess | CheckWarn | CheckErr.
Record Check := mkCheck { c_Description : string; c_Hint : string; c_Error : string; c_Result : CheckResultStr }.
Record CheckCategory := mkCheckCategory { cc_Name : string; cc_Checks : list Check }.
Record CheckOutput := mkCheckOutput { co_Success : bool; co_Categories : list CheckCategory }.

Definition checkOf (r : CheckResult) : Check :=
  match r_Err r with
  | None => mkCheck (r_Description r) "" "" CheckSuccess
  | Some e => mkCheck (r_Description r) (r_HintURL r) (Error e) (if r_Warning r then CheckWarn else CheckErr)
  end.

Definition collectJSONOutput (categories : list CheckCategory) (r : CheckResult) : list CheckCategory :=
  let categories :=
    match last categories with
    | Some c => if bool_decide (cc_Name c = r_Category r) then categories
                else categories ++ [mkCheckCategory (r_Category r) []]
    | None => [mkCheckCategory (r_Category r) []]
    end in
  if r_Retry r then categories
  else match last categories with
       | Some c => take (length categories - 1) categories ++ [mkCheckCategory (cc_Name c) (cc_Checks c ++ [checkOf r])]
       | None => categories
       end.
Definition runChecksJSON (observations : list CheckResult) (success : bool) : CheckOutput :=
  mkCheckOutput success (foldl collectJSONOutput [] observations).

(** check_extensions.go: the results an extension printed; what [json.Unmarshal] gives is the
    argument. *)
Definition checkResultOf (category : string) (c : Check) : CheckResult :=
  mkCheckResult category (c_Description c) (c_Hint c) false
    (match c_Result c with CheckWarn => true | _ => false end)
    (if bool_decide (c_Error c = "") then None else Some (Failure (c_Error c))).
Definition parseJSONCheckOutput (checks : option CheckOutput) : option (list CheckResult) :=
  (λ o, co_Categories o ≫= λ cat, checkResultOf (cc_Name cat) <$> cc_Checks cat) <$> checks.

(** * Table output *)
(** Lines as they are written; colours, and the spinner that shows a check is being retried,
    are left out. *)
Inductive status := okStatus | warnStatus | failStatus.
Inductive line := Blank | CategoryLine (name : string) | Dashes (n : nat) | StatusLine (s : status) (description : string)
  | ErrorLine (message : string) | HintLine (url : string) | StatusOf (s : status).

Definition getResultStatus (r : CheckResult) : status :=
  match r_Err r with None => okStatus | Some _ => if r_Warning r then warnStatus else failStatus end.
Definition printCategory (last : string) (r : CheckResult) : list line * string :=
  if bool_decide (last = r_Category r) then ([], last)
  else ((if bool_decide (last ≠ "") then [Blank] else []) ++
        [CategoryLine (r_Category r); Dashes (String.length (r_Category r))], r_Category r).
Definition printResultDescription (s : status) (r : CheckResult) : list line :=
  StatusLine s (r_Description r) ::
  match r_Err r with
  | None => []
  | Some e => ErrorLine (Error e) :: (if bool_decide (r_HintURL r ≠ "") then [HintLine (r_HintURL r)] else [])
  end.
Definition prettyPrintResults (short : bool) (acc : list line * string) (r : CheckResult) : list line * string :=
  if short && bool_decide (r_Err r = None) then acc
  else
    let '(lines, last) := printCategory acc.2 r in
    (acc.1 ++ lines ++ (if r_Retry r then [] else printResultDescription (getResultStatus r) r), last).
Definition runChecksTable (short : bool) (observations : list CheckResult) (success warning : bool) : list line :=
  (foldl (prettyPrintResults short) ([], "") observations).1 ++
  (if negb short || negb success || warning then [Blank] else []).
Definition PrintChecksResult (json success : bool) : list line :=
  if json then [] else [StatusOf (if success then okStatus else failStatus)].
