(* ===== verification/HealthProps.v ===== *)
(** What the runner of health checks promises: it ends, its verdict is that of the results it
    showed, checks run in order up to the first fatal failure, and the verdict survives being
    printed as JSON and read back. *)
From Stdlib Require Import DecimalString.
From S2P Require Import Prelude GoStd Version Health.

#[local] Open Scope string_scope.
#[local] Open Scope list_scope.
#[local] Open Scope Z_scope.
#[local] Open Scope go_scope.

(** The results that are not those of an attempt that is retried. *)
Definition finals (l : list CheckResult) : list CheckResult := filter (λ r, r_Retry r = false) l.

Lemma finals_app l k : finals (l ++ k) = finals l ++ finals k.
Proof. apply filter_app. Qed.

Section runner.
Context {HC Env : Type}.
Implicit Types (w : World Env) (c : Category HC Env) (ck : Checker HC Env) (st : Run HC).

(** Time passes: no attempt takes less than none, and sleeping is not cut short. *)
Definition steady w : Prop := (∀ i, 0 ≤ took w i) ∧ (∀ i, retryWindow ≤ slept w i).

(** * Termination *)
Lemma enoughAttempts_step ck d now now' n :
  retryDeadline ck = Some d → now < d → now + retryWindow ≤ now' →
  (enoughAttempts ck now ≤ S n)%nat → (enoughAttempts ck now' ≤ n)%nat.
Proof.
  unfold enoughAttempts. intros -> Hd Hw He. unfold retryWindow, second in *.
  assert ((d - now') / (5 * 1000000000) + 1 ≤ (d - now) / (5 * 1000000000)).
  { transitivity ((d - now - 1 * (5 * 1000000000)) / (5 * 1000000000) + 1).
    - apply Z.add_le_mono_r, Z.div_le_mono; lia.
    - replace (d - now - 1 * (5 * 1000000000)) with ((d - now) + (-1) * (5 * 1000000000)) by lia.
      rewrite Z.div_add by lia. lia. }
  assert (0 ≤ (d - now) / (5 * 1000000000)) by (apply Z.div_pos; lia). lia.
Qed.

Lemma runCheck_fuel w c ck f fuel st :
  steady w → (enoughAttempts ck (clock st) ≤ fuel)%nat → (runCheck fuel w c ck f st).1 ≠ NoFuel.
Proof.
  intros [Ht Hs]. revert st. induction fuel as [|fuel IH]; intros st He; [unfold enoughAttempts in He; destruct (retryDeadline ck); lia|].
  cbn [runCheck]. destruct (f _ _ _) as [r hc]. destruct r as [[]|e|]; [..|done].
  - by cbn.
  - cbn. destruct (asSkip e); [done|]. cbn.
    destruct (_ && beforeDeadline _ _) eqn:Hb; [|by repeat case_match].
    apply andb_true_iff in Hb as [_ Hb]. apply IH. unfold beforeDeadline in Hb.
    destruct (retryDeadline ck) as [d|] eqn:Hd; [|done]. apply Z.ltb_lt in Hb. cbn.
    specialize (Ht (attempts st)). specialize (Hs (attempts st)).
    apply (enoughAttempts_step ck d (clock st)); [done|lia..|done].
Qed.

Lemma runCheckers_fuel w c cs s wn st : steady w → (runCheckers w c cs s wn st).1 ≠ Broken NoFuel.
Proof.
  intros Hw. revert s wn st. induction cs as [|ck cs IH]; intros s wn st; [done|]. cbn.
  destruct (check ck) as [f|]; [|apply IH].
  pose proof (runCheck_fuel w c ck f (enoughAttempts ck (clock st)) st Hw (le_n _)) as Hf.
  destruct (runCheck _ _ _ _ _ _) as [[] st']; cbn in *; [apply IH| |done..].
  destruct (fatal ck); [done|apply IH].
Qed.

(** Running health checks ends.  Whatever the checks answer and however often they fail, with
    the attempts that fit before the deadline of each check the runner comes to an end; with
    no deadline every check is attempted once. *)
Lemma run_terminates w cats st : steady w → (HealthChecker_RunChecks w cats st).1 ≠ Broken NoFuel.
Proof.
  intros Hw. unfold HealthChecker_RunChecks. generalize true, false. revert st.
  induction cats as [|c cats IH]; intros st s wn; [done|]. cbn. destruct (enabled c); [|apply IH].
  pose proof (runCheckers_fuel w c (checkers c) s wn st Hw) as Hf.
  destruct (runCheckers _ _ _ _ _ _) as [[s' wn'|s' wn'|e] st']; [apply IH|done..].
Qed.

(** * Verdict and order *)
(** What came of one check: nothing if it was skipped, or one result of it that is not to be
    retried. *)
Definition outcomeOf c ck (o : option CheckResult) : Prop := o = None ∨ ∃ err, o = Some (resultOf c ck err).
Definition outcomeFails (o : option CheckResult) : bool :=
  match o with Some r => bool_decide (r_Err r ≠ None) | None => false end.

Lemma runCheck_outcome fuel w c ck f st e st' :
  runCheck fuel w c ck f st = (e, st') → e = Passed ∨ e = NotPassed →
  ∃ l o, observed st' = observed st ++ l ∧ finals l = option_list o ∧ outcomeOf c ck o
         ∧ (e = NotPassed ↔ outcomeFails o = true).
Proof.
  revert st. induction fuel as [|fuel IH]; intros st; [intros [= <- _] [|]; done|]. cbn [runCheck].
  destruct (f _ _ _) as [r hc]. destruct r as [[]|err|]; [..|intros [= <- _] [|]; done].
  - cbn. intros [= <- <-] _. eexists [_], (Some _). split_and!; [done|done|right; by exists None|done].
  - cbn. destruct (asSkip err); [intros [= <- <-] _; exists [], None; split_and!; [by rewrite app_nil_r|done|by left|done]|].
    destruct (_ && beforeDeadline _ _) eqn:Hb.
    + intros Hr He. destruct (IH _ Hr He) as (l & o & Ho & Hl & Hof & Hf).
      eexists (_ :: l), o. cbn in Ho. rewrite <-app_assoc in Ho. split; [exact Ho|]. by split_and!.
    + cbn. intros [= <- <-] _. eexists [_], (Some (resultOf c ck (Some err))). split_and!; [done|done|right; by eexists|].
      cbn. destruct (asVerbose err); cbn; split; congruence.
Qed.

Definition passes (o : Category HC Env * Checker HC Env * option CheckResult) : Prop :=
  outcomeFails o.2 = true → fatal o.1.2 = false.
(** The checks of the enabled categories, in order. *)
Definition scheduledIn c : list (Category HC Env * Checker HC Env) :=
  pair c <$> filter (λ ck, check ck ≠ None) (checkers c).
Definition scheduled (cats : list (Category HC Env)) : list (Category HC Env * Checker HC Env) :=
  filter (λ c, enabled c = true) cats ≫= scheduledIn.

(** The outcomes of a run over a schedule: those of its first checks, none of them a fatal
    failure but the last if the rest did not run. *)
Record ranOver (schedule : list (Category HC Env * Checker HC Env)) (stopped : bool)
    (outs : list (Category HC Env * Checker HC Env * option CheckResult)) : Prop := {
  ran_prefix : if stopped then outs.*1 `prefix_of` schedule else outs.*1 = schedule;
  ran_outcomes : Forall (λ o, outcomeOf o.1.1 o.1.2 o.2) outs;
  ran_passing : if stopped then ∃ before o, outs = before ++ [o] ∧ Forall passes before ∧ ¬ passes o
                else Forall passes outs }.

Lemma ranOver_cons c ck o schedule stopped outs :
  outcomeOf c ck o → passes (c, ck, o) → ranOver schedule stopped outs →
  ranOver ((c, ck) :: schedule) stopped ((c, ck, o) :: outs).
Proof.
  intros Ho Hp [Hpre Hout Hpass]. split.
  - destruct stopped; cbn; [by apply prefix_cons|by rewrite Hpre].
  - by constructor.
  - destruct stopped; [|by constructor]. destruct Hpass as (b & o' & -> & Hb & Ho').
    exists ((c, ck, o) :: b), o'. split; [done|]. split; [by constructor|done].
Qed.
Lemma ranOver_stop c ck o schedule :
  outcomeOf c ck o → ¬ passes (c, ck, o) → ranOver ((c, ck) :: schedule) true [(c, ck, o)].
Proof.
  intros Ho Hp. split; [cbn; by apply prefix_cons, prefix_nil|by constructor|]. exists [], (c, ck, o). by split_and!.
Qed.
Lemma ranOver_app s1 s2 stopped outs1 outs2 :
  ranOver s1 false outs1 → ranOver s2 stopped outs2 → ranOver (s1 ++ s2) stopped (outs1 ++ outs2).
Proof.
  intros [H1 H2 H3] [K1 K2 K3]. split.
  - rewrite fmap_app, H1. destruct stopped; [by apply prefix_app|by rewrite K1].
  - by apply Forall_app.
  - destruct stopped; [|by apply Forall_app]. destruct K3 as (b & o & -> & Hb & Ho).
    exists (outs1 ++ b), o. rewrite <-app_assoc. split; [done|]. split; [by apply Forall_app|done].
Qed.
Lemma ranOver_stop_app s1 s2 outs : ranOver s1 true outs → ranOver (s1 ++ s2) true outs.
Proof. intros [H1 H2 H3]. split; [cbn in *; by apply prefix_app_r|done..]. Qed.

(** A flow that came back, and what it says. *)
Definition came (e : flow) (stopped s wn : bool) : Prop := e = if stopped then Return s wn else Continue s wn.

Lemma runResult_outcome ck c o s wn :
  outcomeOf c ck o →
  foldl runResult (s, wn) (option_list o)
  = if outcomeFails o then (if warning ck then (s, true) else (false, wn)) else (s, wn).
Proof.
  intros [->|(err & ->)]; [done|]. unfold runResult, resultOf. destruct err as [e|]; [|done]. cbn. by destruct (asVerbose e), (warning ck).
Qed.

Lemma runCheckers_ran w c cs s wn st stopped s' wn' e st' :
  runCheckers w c cs s wn st = (e, st') → came e stopped s' wn' →
  ∃ l outs, observed st' = observed st ++ l ∧ finals l = outs ≫= (λ o, option_list o.2)
    ∧ ranOver (pair c <$> filter (λ ck, check ck ≠ None) cs) stopped outs
    ∧ foldl runResult (s, wn) (finals l) = (s', wn').
Proof.
  unfold came. revert s wn st. induction cs as [|ck cs IH]; intros s wn st.
  { cbn. intros [= <- <-] He. destruct stopped; [done|]. injection He as <- <-. exists [], [].
    split_and!; [by rewrite app_nil_r|done| |done]. split; [done|constructor|constructor]. }
  cbn [runCheckers]. destruct (check ck) as [f|] eqn:Hck.
  2:{ intros Hr He. rewrite filter_cons_False by (by rewrite Hck; intros []). by apply (IH _ _ _ Hr). }
  rewrite filter_cons_True by (by rewrite Hck). cbn [fmap list_fmap].
  destruct (runCheck _ _ _ _ _ _) as [e1 st1] eqn:Hrun. destruct e1; [| |intros [= <- <-] He; by destruct stopped..].
  - destruct (runCheck_outcome _ _ _ _ _ _ _ _ Hrun (or_introl eq_refl)) as (l & o & Hobs & Hl & Hof & Hfail).
    intros Hr He. destruct (IH _ _ _ Hr He) as (l2 & outs & Hobs2 & Hl2 & Hran & Hfold).
    assert (outcomeFails o = false) as Hok by (destruct (outcomeFails o); [discriminate (proj2 Hfail eq_refl)|done]).
    exists (l ++ l2), ((c, ck, o) :: outs). split; [by rewrite Hobs2, Hobs, app_assoc|]. rewrite finals_app, Hl, Hl2.
    split; [done|]. split; [apply ranOver_cons; [done| |done]; unfold passes; cbn; by rewrite Hok|].
    rewrite foldl_app, (runResult_outcome ck c), Hok by done. by rewrite <-Hl2.
  - destruct (runCheck_outcome _ _ _ _ _ _ _ _ Hrun (or_intror eq_refl)) as (l & o & Hobs & Hl & Hof & Hfail).
    assert (outcomeFails o = true) as Hok by (by apply Hfail).
    destruct (fatal ck) eqn:Hfatal.
    + intros [= <- <-] He. destruct stopped; [|done]. injection He as <- <-. exists l, [(c, ck, o)].
      split; [done|]. rewrite Hl. cbn. split; [by rewrite app_nil_r|].
      split; [apply ranOver_stop; [done|]; unfold passes; cbn; rewrite Hok, Hfatal; by intros Hx; specialize (Hx eq_refl)|].
      rewrite (runResult_outcome ck c), Hok by done. by destruct (warning ck).
    + intros Hr He. destruct (IH _ _ _ Hr He) as (l2 & outs & Hobs2 & Hl2 & Hran & Hfold).
      exists (l ++ l2), ((c, ck, o) :: outs). split; [by rewrite Hobs2, Hobs, app_assoc|]. rewrite finals_app, Hl, Hl2.
      split; [done|]. split; [apply ranOver_cons; [done| |done]; unfold passes; by cbn|].
      rewrite foldl_app, (runResult_outcome ck c), Hok, <-Hl2 by done. by destruct (warning ck).
Qed.

Lemma scheduled_cons c cats : scheduled (c :: cats) = (if enabled c then scheduledIn c else []) ++ scheduled cats.
Proof. unfold scheduled. destruct (enabled c) eqn:He; [by rewrite filter_cons_True|by rewrite filter_cons_False by congruence]. Qed.

Lemma runCategories_ran w cats s wn st s' wn' st' :
  runCategories w cats s wn st = (Return s' wn', st') →
  ∃ l stopped outs, observed st' = observed st ++ l ∧ finals l = outs ≫= (λ o, option_list o.2)
    ∧ ranOver (scheduled cats) stopped outs ∧ foldl runResult (s, wn) (finals l) = (s', wn').
Proof.
  revert s wn st. induction cats as [|c cats IH]; intros s wn st.
  { cbn. intros [= <- <- <-]. exists [], false, []. split_and!; [by rewrite app_nil_r|done| |done]. split; [done|constructor|constructor]. }
  rewrite scheduled_cons. cbn [runCategories]. destruct (enabled c); [|apply IH].
  destruct (runCheckers _ _ _ _ _ _) as [[s1 wn1|s1 wn1|e] st1] eqn:Hr; [| |done].
  - destruct (runCheckers_ran _ _ _ _ _ _ false s1 wn1 _ _ Hr eq_refl) as (l & outs & Hobs & Hl & Hran & Hf).
    intros Hrest. destruct (IH _ _ _ Hrest) as (l2 & stopped & outs2 & Hobs2 & Hl2 & Hran2 & Hf2).
    exists (l ++ l2), stopped, (outs ++ outs2). split; [by rewrite Hobs2, Hobs, app_assoc|].
    rewrite finals_app, bind_app, foldl_app, Hf, Hf2, Hl, Hl2. split; [done|]. split; [by apply ranOver_app|done].
  - intros [= <- <- <-]. destruct (runCheckers_ran _ _ _ _ _ _ true s1 wn1 _ _ Hr eq_refl) as (l & outs & Hobs & Hl & Hran & Hf).
    exists l, true, outs. split_and!; [done|done|by apply ranOver_stop_app|done].
Qed.

End runner.

(** * JSON *)
Definition flatten (cats : list CheckCategory) : list CheckResult :=
  cats ≫= λ cat, checkResultOf (cc_Name cat) <$> cc_Checks cat.
(** A result as it comes back: the text of its error, and the hint only if there is one. *)
Definition shown (r : CheckResult) : CheckResult := checkResultOf (r_Category r) (checkOf r).

Lemma flatten_app l k : flatten (l ++ k) = flatten l ++ flatten k.
Proof. apply bind_app. Qed.

Lemma collect_flatten cats r :
  flatten (collectJSONOutput cats r) = flatten cats ++ (if r_Retry r then [] else [shown r]).
Proof.
  unfold collectJSONOutput.
  set (cats' := match last cats with Some c => _ | None => _ end).
  assert (flatten cats' = flatten cats ∧ ∃ init c, cats' = init ++ [c] ∧ cc_Name c = r_Category r) as [Hflat (init & c & Hc & Hn)].
  { subst cats'. destruct (last cats) as [c|] eqn:Hl.
    - apply last_Some in Hl as [init ->]. case_bool_decide.
      + split; [done|]. by exists init, c.
      + rewrite (flatten_app (init ++ [c])). cbn. rewrite app_nil_r. split; [done|]. by eexists (init ++ [c]), _.
    - apply last_None in Hl as ->. split; [done|]. by exists [], (mkCheckCategory (r_Category r) []). }
  clearbody cats'. destruct (r_Retry r); [by rewrite app_nil_r|].
  rewrite <-Hflat, Hc, last_snoc, length_app, Nat.add_sub, take_app_length.
  rewrite !flatten_app. cbn. rewrite !app_nil_r, fmap_app, app_assoc. cbn. unfold shown. by rewrite Hn.
Qed.

Lemma json_flatten cats l : flatten (foldl collectJSONOutput cats l) = flatten cats ++ (shown <$> finals l).
Proof.
  revert cats. induction l as [|r l IH]; intros cats; cbn [foldl]; [by rewrite app_nil_r|].
  rewrite IH, collect_flatten, <-app_assoc. f_equal. unfold finals.
  destruct (r_Retry r) eqn:Hr; [by rewrite filter_cons_False by congruence|by rewrite filter_cons_True].
Qed.

(** Errors that say something. *)
Definition spoken (r : CheckResult) : Prop := ∀ e, r_Err r = Some e → Error e ≠ "".

Lemma runResult_shown acc r : spoken r → runResult acc (shown r) = runResult acc r.
Proof.
  unfold spoken, runResult, shown, checkResultOf, checkOf. destruct (r_Err r) as [e|]; [|done]. intros Hs. cbn.
  rewrite bool_decide_false by (by apply Hs). by destruct (r_Warning r).
Qed.

(** C26: An extension's verdict reaches the command that ran it.  If an extension runs its checks and
    prints them as JSON, and JSON is decoded to what was encoded, then the command reads exactly
    the results that were not retried, and its verdict over them is the extension's own,
    provided no failure has an empty text. *)
Theorem extension_verdict {HC Env} (w : World Env) (cats : list (Category HC Env)) st s wn st'
    (marshal : CheckOutput → string) (unmarshal : string → option CheckOutput) :
  (∀ o, unmarshal (marshal o) = Some o) → observed st = [] →
  HealthChecker_RunChecks w cats st = (Return s wn, st') → Forall spoken (finals (observed st')) →
  ∃ results, parseJSONCheckOutput (unmarshal (marshal (runChecksJSON (observed st') s))) = Some results
    ∧ results = shown <$> finals (observed st') ∧ CheckResults_RunChecks results = (s, wn).
Proof.
  intros Hjson Hnil Hrun Hsp. destruct (runCategories_ran _ _ _ _ _ _ _ _ Hrun) as (l & _ & _ & Hobs & _ & _ & Hf).
  rewrite Hnil in Hobs. cbn in Hobs. subst l. eexists. rewrite Hjson. split; [reflexivity|]. fold (flatten (foldl collectJSONOutput [] (observed st'))).
  cbn. fold (flatten (foldl collectJSONOutput [] (observed st'))). rewrite json_flatten. split; [done|]. cbn.
  unfold CheckResults_RunChecks. rewrite <-Hf. generalize (true, false). clear Hf Hrun.
  induction Hsp as [|r rs Hr Hrs IH]; intros acc; [done|]. cbn. by rewrite runResult_shown.
Qed.

(** A failure whose error has no text is taken for a success: the error is left out of the JSON,
    and its absence is all the command looks at. *)
Lemma empty_error_lost r e :
  r_Retry r = false → r_Warning r = false → r_Err r = Some e → Error e = "" →
  CheckResults_RunChecks [r] = (false, false)
  ∧ ∃ results, parseJSONCheckOutput (Some (runChecksJSON [r] false)) = Some results ∧ CheckResults_RunChecks results = (true, false).
Proof.
  intros Hr Hw He Ht. split; [unfold CheckResults_RunChecks; cbn; unfold runResult; by rewrite He, Hw|].
  exists [shown r]. split.
  - change (Some (flatten (foldl collectJSONOutput [] [r])) = Some [shown r]). rewrite json_flatten.
    unfold finals. by rewrite filter_cons_True.
  - unfold shown, checkOf, checkResultOf, CheckResults_RunChecks. rewrite He. cbn. by rewrite Ht.
Qed.

(** * Exiting on errors *)
Lemma exits_runResult l acc : acc.1 = true → (foldl runResult acc (finals l)).1 = negb (existsb exitsOn l).
Proof.
  revert acc. induction l as [|r l IH]; intros acc Ha; [done|]. unfold finals in *. cbn [existsb].
  destruct (r_Retry r) eqn:Hr; [rewrite filter_cons_False by congruence; unfold exitsOn at 1; rewrite Hr; by apply IH|].
  rewrite filter_cons_True by done. cbn [foldl]. unfold exitsOn at 1, runResult at 2. rewrite Hr. cbn.
  destruct (r_Err r); cbn; [|by apply IH]. destruct (r_Warning r); cbn; [by apply IH|].
  clear. induction (filter _ l) as [|x k IH]; [done|]. cbn. unfold runResult at 2. destruct (r_Err x); [|done].
  destruct (r_Warning x); [|done]. cbn. clear IH. by induction k as [|y k IH]; cbn; [|unfold runResult at 2; cbn; destruct (r_Err y), (r_Warning y)].
Qed.

(** A run is broken off only by a crash or for want of fuel. *)
Lemma RunChecks_broken {HC Env} (w : World Env) (cats : list (Category HC Env)) st e :
  (HealthChecker_RunChecks w cats st).1 = Broken e → e = Crashed ∨ e = NoFuel.
Proof.
  assert (∀ (c : Category HC Env) cs s wn st, (runCheckers w c cs s wn st).1 = Broken e → e = Crashed ∨ e = NoFuel) as Hc.
  { intros c cs. induction cs as [|ck cs IH]; intros s wn st'; [done|]. cbn. destruct (check ck); [|apply IH].
    destruct (runCheck _ _ _ _ _ _) as [[] ?]; [apply IH| |intros [= <-]; eauto..]. destruct (fatal ck); [done|apply IH]. }
  unfold HealthChecker_RunChecks. generalize true, false. revert st.
  induction cats as [|c cats IH]; intros st a b; [done|]. cbn. destruct (enabled c); [|apply IH].
  pose proof (Hc c (checkers c) a b st) as Hc'. destruct (runCheckers _ _ _ _ _ _) as [[]?]; [apply IH|done|exact Hc'].
Qed.

Lemma RunChecks_not_Continue {HC Env} (w : World Env) (cats : list (Category HC Env)) st s wn :
  (HealthChecker_RunChecks w cats st).1 ≠ Continue s wn.
Proof.
  unfold HealthChecker_RunChecks. generalize true, false. revert st.
  induction cats as [|c cats IH]; intros st a b; [done|]. cbn. destruct (enabled c); [|apply IH].
  destruct (runCheckers _ _ _ _ _ _) as [[]?]; [apply IH|done..].
Qed.

(** [RunWithExitOnError] only returns when all checks passed, up to warnings: otherwise it ends
    the process. *)
Lemma exit_on_error {HC Env} (w : World Env) (cats : list (Category HC Env)) st s wn :
  RunWithExitOnError w cats st = Returns s wn → s = true.
Proof.
  unfold RunWithExitOnError. pose proof (RunChecks_not_Continue w cats st) as Hnc.
  destruct (HealthChecker_RunChecks w cats st) as [[s' wn'|s' wn'|e] st'] eqn:Hrun; [by destruct (Hnc s' wn')| |by destruct (existsb _ _)].
  destruct (runCategories_ran _ _ _ _ _ _ _ _ Hrun) as (l & _ & _ & Hobs & _ & _ & Hf).
  rewrite Hobs, drop_app_length. pose proof (exits_runResult l (true, false) eq_refl) as He. rewrite Hf in He. cbn in He.
  destruct (existsb exitsOn l); [done|]. by intros [= <- _].
Qed.

(** * Tables *)
Definition statusLine (l : line) : option (status * string) := match l with StatusLine s d => Some (s, d) | _ => None end.
Definition statusOf (short : bool) (r : CheckResult) : option (status * string) :=
  if r_Retry r || (short && bool_decide (r_Err r = None)) then None else Some (getResultStatus r, r_Description r).

Lemma pretty_statuses short acc l :
  omap statusLine (foldl (prettyPrintResults short) acc l).1 = omap statusLine acc.1 ++ omap (statusOf short) l.
Proof.
  revert acc. induction l as [|r l IH]; intros acc; cbn [foldl]; [by rewrite app_nil_r|].
  rewrite IH. cbn [omap list_omap]. unfold prettyPrintResults at 1, statusOf at 2.
  destruct (short && bool_decide (r_Err r = None)); [by rewrite orb_true_r|]. rewrite orb_false_r.
  unfold printCategory. destruct (bool_decide (acc.2 = r_Category r)); cbn; [|case_bool_decide; cbn];
    rewrite ?omap_app; cbn; destruct (r_Retry r); cbn; rewrite ?app_nil_r, <-?app_assoc; try done;
    unfold printResultDescription; cbn; destruct (r_Err r); cbn; try done; by case_bool_decide.
Qed.

(** The table shows the status of every result that is not retried, in order; in short form
    only those that failed. *)
Lemma table_statuses short l s wn : omap statusLine (runChecksTable short l s wn) = omap (statusOf short) l.
Proof.
  unfold runChecksTable. rewrite omap_app, pretty_statuses. cbn. destruct (_ || wn); cbn; by rewrite app_nil_r.
Qed.

(** * Examples *)
(** A check that fails until the third attempt, one that is skipped, and a warning. *)
Definition ex_flaky : M nat () () := λ n _ _, (if (n <? 2)%nat then Throw (Failure "not yet") else Ret (), S n).
Definition ex_category : Category nat () :=
  mkCategory "cat" [mkChecker "flaky" "a" true false (Some (60 * second)) false (Some ex_flaky);
                    mkChecker "skipped" "b" false false None false (Some (throw (SkipError "why")));
                    mkChecker "warns" "c" false true None false (Some (fail "careful"))] true DefaultHintBaseURL.
Definition ex_world : World () := mkWorld (λ _, ()) (λ _, second) (λ _, retryWindow).
Definition ex_start : Run nat := mkRun 0 0 0%nat [].
Definition ex_run : flow * Run nat := HealthChecker_RunChecks ex_world [ex_category] ex_start.

(** An encoding of outputs as text. *)
#[export] Instance CheckResultStr_eq_dec : EqDecision CheckResultStr.
Proof. solve_decision. Defined.
#[export] Instance CheckResultStr_countable : Countable CheckResultStr.
Proof.
  refine (inj_countable' (λ x, match x with CheckSuccess => 0%nat | CheckWarn => 1%nat | CheckErr => 2%nat end)
    (λ n, match n with 0%nat => CheckSuccess | 1%nat => CheckWarn | _ => CheckErr end) _). by intros [].
Defined.
Definition tupled (o : CheckOutput) : bool * list (string * list (string * (string * (string * CheckResultStr)))) :=
  (co_Success o, (λ c, (cc_Name c, (λ k, (c_Description k, (c_Hint k, (c_Error k, c_Result k)))) <$> cc_Checks c)) <$> co_Categories o).
Definition untupled (t : bool * list (string * list (string * (string * (string * CheckResultStr))))) : CheckOutput :=
  mkCheckOutput t.1 ((λ c, mkCheckCategory c.1 ((λ k, mkCheck k.1 k.2.1 k.2.2.1 k.2.2.2) <$> c.2)) <$> t.2).
Lemma untupled_tupled o : untupled (tupled o) = o.
Proof.
  destruct o as [s cats]. unfold untupled, tupled. cbn. f_equal. rewrite <-list_fmap_compose. rewrite <-(list_fmap_id cats) at 2.
  apply list_fmap_ext. intros i [n cs] _. cbn. f_equal. rewrite <-list_fmap_compose. rewrite <-(list_fmap_id cs) at 2.
  apply list_fmap_ext. by intros j [] _.
Qed.
Definition ex_marshal (o : CheckOutput) : string := DecimalString.NilEmpty.string_of_uint (N.to_uint (Npos (encode (tupled o)))).
Definition ex_unmarshal (s : string) : option CheckOutput :=
  n ← strconv.digits s; match n with Npos p => untupled <$> decode p | N0 => None end.
Lemma ex_unmarshal_marshal o : ex_unmarshal (ex_marshal o) = Some o.
Proof. unfold ex_unmarshal, ex_marshal. rewrite strconv.digits_of_N. cbn [mbind option_bind]. rewrite decode_encode. cbn. by rewrite untupled_tupled. Qed.

Lemma ex_steady : steady ex_world.
Proof. split; intros i; cbn; unfold retryWindow, second; lia. Qed.


Lemma extension_verdict_witness : ∃ results,
  parseJSONCheckOutput (ex_unmarshal (ex_marshal (runChecksJSON (observed ex_run.2) true))) = Some results
  ∧ CheckResults_RunChecks results = (true, true).
Proof.
  destruct (extension_verdict ex_world [ex_category] ex_start true true ex_run.2 ex_marshal ex_unmarshal
    ex_unmarshal_marshal eq_refl) as (results & Hp & _ & Hv).
  - vm_compute. reflexivity.
  - vm_compute. repeat constructor; intros e [= <-]; discriminate.
  - exists results. split; [exact Hp|exact Hv].
Defined.
