(* ===== verification/PkgK8s.v ===== *)
(** Helpers over Kubernetes objects that the command line tools share: names of resources and
    the identity of a pod ([pkg/k8s/k8s.go]), the status of a pod, its proxy, and the pods of a
    workload ([pkg/k8s/api.go]), and access reviews ([pkg/k8s/authz.go]).

    The calls of the API server are the class [Clientset]. *)
From S2P Require Import Prelude GoStd K8s.

#[local] Open Scope string_scope.
#[local] Open Scope list_scope.
#[local] Open Scope Z_scope.
#[local] Open Scope go_scope.

(** * Pods with their status *)
Record Termination := mkTermination { ExitCode : Z; Signal : Z; t_Reason : string }.
Record ContainerState := mkContainerState {
  Waiting : option string  (* its reason *); Running : bool; Terminated : option Termination }.
Record ContainerStatus := mkContainerStatus {
  cs_Name : string; cs_Ready : bool; cs_Started : option bool; cs_State : ContainerState }.
Record PodContainer := mkPodContainer {
  pc_Name : string; pc_Image : string; pc_RestartPolicy : option string; pc_Ports : list ContainerPort; pc_Env : list EnvVar }.
Record PodObject := mkPodObject {
  po_Name : string; po_Namespace : string; po_Labels : strmap; po_Annotations : strmap; po_OwnerUIDs : list string;
  po_ServiceAccountName : string; po_HostNetwork : bool;
  po_InitContainers : list PodContainer; po_Containers : list PodContainer;
  po_Phase : string; po_Reason : string; po_PodIP : string; po_Conditions : list (string * string)  (* reason and message *);
  po_InitContainerStatuses : list ContainerStatus; po_ContainerStatuses : list ContainerStatus }.

Definition allContainers (pod : PodObject) : list PodContainer := po_InitContainers pod ++ po_Containers pod.

(** * The status of a pod *)
Definition isRestartableInitContainer (initContainer : option PodContainer) : res bool :=
  match initContainer with
  | None => Panic
  | Some c => Ok (match pc_RestartPolicy c with None => false | Some p => bool_decide (p = "Always") end)
  end.

(** The map of the init containers: of two with the same name the last is kept. *)
Definition initContainerNamed (pod : PodObject) (n : string) : option PodContainer :=
  last (filter (λ c, pc_Name c = n) (po_InitContainers pod)).

(** Why an init container keeps the pod from having been initialised, if it does. *)
Definition initReason (pod : PodObject) (i : nat) (container : ContainerStatus) : res (option string) :=
  let progress := "Init:" +:+ strconv.Itoa (Z.of_nat i) +:+ "/" +:+ strconv.Itoa (Z.of_nat (length (po_InitContainers pod))) in
  let waiting :=
    match Waiting (cs_State container) with
    | Some reason => if bool_decide (reason ≠ "" ∧ reason ≠ "PodInitializing") then "Init:" +:+ reason else progress
    | None => progress
    end in
  let restartable (otherwise : string) :=
    let* r := isRestartableInitContainer (initContainerNamed pod (cs_Name container)) in
    if r && bool_decide (cs_Started container = Some true) && cs_Ready container then Ok None else Ok (Some otherwise) in
  match Terminated (cs_State container) with
  | Some t =>
      if bool_decide (ExitCode t = 0 ∧ Signal t = 0) then Ok None
      else restartable
             (if bool_decide (t_Reason t = "") then
                if bool_decide (Signal t ≠ 0) then "Init:Signal:" +:+ strconv.Itoa (Signal t)
                else "Init:ExitCode:" +:+ strconv.Itoa (ExitCode t)
              else "Init:" +:+ t_Reason t)
  | None => restartable waiting
  end.
Fixpoint initializing (pod : PodObject) (i : nat) (statuses : list ContainerStatus) : res (option string) :=
  match statuses with
  | [] => Ok None
  | container :: statuses =>
      let* reason := initReason pod i container in
      match reason with Some r => Ok (Some r) | None => initializing pod (S i) statuses end
  end.

(** One container, given the reason so far and whether a container is running. *)
Definition containerReason (acc : string * bool) (container : ContainerStatus) : string * bool :=
  let '(reason, hasRunning) := acc in
  let st := cs_State container in
  let waiting := default "" (Waiting st) in
  if bool_decide (waiting ≠ "") then (waiting, hasRunning)
  else match Terminated st with
       | Some t =>
           if bool_decide (t_Reason t ≠ "") then (t_Reason t, hasRunning)
           else if bool_decide (Signal t ≠ 0) then ("Signal:" +:+ strconv.Itoa (Signal t), hasRunning)
           else ("ExitCode:" +:+ strconv.Itoa (ExitCode t), hasRunning)
       | None => (reason, hasRunning || (cs_Ready container && Running st))
       end.

Definition GetPodStatus (pod : PodObject) : res string :=
  let reason := if bool_decide (po_Reason pod ≠ "") then po_Reason pod else po_Phase pod in
  let* init := initializing pod 0 (po_InitContainerStatuses pod) in
  match init with
  | Some r => Ok r
  | None =>
      let '(reason, hasRunning) := foldl containerReason (reason, false) (reverse (po_ContainerStatuses pod)) in
      Ok (if bool_decide (reason = "Completed") && hasRunning then "Running" else reason)
  end.

(** * The proxy of a pod *)
Definition GetProxyReady (pod : PodObject) : bool :=
  match list_find (λ c, cs_Name c = ProxyContainerName) (po_InitContainerStatuses pod ++ po_ContainerStatuses pod) with
  | Some (_, c) => cs_Ready c
  | None => false
  end.

Definition GetProxyVersion (pod : PodObject) : string :=
  match list_find (λ c, pc_Name c = ProxyContainerName) (allContainers pod) with
  | Some (_, c) => if strings.Contains (pc_Image c) "@" then "" else default "" (last (strings.Split (pc_Image c) ":"))
  | None => ""
  end.

(** [strings.ReplaceAll], for a text that is not empty. *)
Fixpoint replaceAll (fuel : nat) (s old new : string) : string :=
  match fuel with
  | O => s
  | S fuel =>
      if String.prefix old s
      then new +:+ replaceAll fuel (String.substring (String.length old) (String.length s - String.length old) s) old new
      else match s with EmptyString => "" | String a s => String a (replaceAll fuel s old new) end
  end.
Definition ReplaceAll (s old new : string) : string := replaceAll (S (String.length s)) s old new.

Definition PodIdentity (pod : PodObject) : res string :=
  if bool_decide (po_Phase pod ≠ PodRunning) then Err ("pod not running: " +:+ po_Name pod)
  else
    let envs := filter (λ c, pc_Name c = ProxyContainerName) (allContainers pod) ≫= pc_Env in
    match list_find (λ e, env_Name e = "LINKERD2_PROXY_IDENTITY_LOCAL_NAME") envs with
    | Some (_, env) => Ok (ReplaceAll (env_Value env) "$(_pod_sa).$(_pod_ns)" (po_ServiceAccountName pod +:+ "." +:+ po_Namespace pod))
    | None => Ok ""
    end.

(** * Names of resources *)
Record resourceName := mkResourceName { short : string; full : string; plural : string }.
Definition resourceNames : list resourceName := [
  mkResourceName "cj" "cronjob" "cronjobs"; mkResourceName "ds" "daemonset" "daemonsets";
  mkResourceName "deploy" "deployment" "deployments"; mkResourceName "job" "job" "jobs";
  mkResourceName "meshtlsauthn" "meshtlsauthentication" "meshtlsauthentications";
  mkResourceName "ns" "namespace" "namespaces"; mkResourceName "netauthn" "networkauthentication" "networkauthentications";
  mkResourceName "networkauthn" "networkauthentication" "networkauthentications"; mkResourceName "po" "pod" "pods";
  mkResourceName "rc" "replicationcontroller" "replicationcontrollers"; mkResourceName "rs" "replicaset" "replicasets";
  mkResourceName "svc" "service" "services"; mkResourceName "sp" "serviceprofile" "serviceprofiles";
  mkResourceName "saz" "serverauthorization" "serverauthorizations";
  mkResourceName "serverauthz" "serverauthorization" "serverauthorizations";
  mkResourceName "srvauthz" "serverauthorization" "serverauthorizations"; mkResourceName "srv" "server" "servers";
  mkResourceName "ap" "authorizationpolicy" "authorizationpolicies"; mkResourceName "httproute" "httproute" "httproutes";
  mkResourceName "authzpolicy" "authorizationpolicy" "authorizationpolicies"; mkResourceName "sts" "statefulset" "statefulsets";
  mkResourceName "ln" "link" "links"; mkResourceName "all" "all" "all"].

Definition friendly (friendlyName : string) (n : resourceName) : Prop :=
  friendlyName = short n ∨ friendlyName = full n ∨ friendlyName = plural n.
#[export] Instance friendly_dec s n : Decision (friendly s n).
Proof. unfold friendly. apply _. Defined.

Definition CanonicalResourceNameFromFriendlyName (friendlyName : string) : res string :=
  match list_find (friendly friendlyName) resourceNames with
  | Some (_, n) => Ok (full n)
  | None => Err ("cannot find Kubernetes canonical name from friendly name [" +:+ friendlyName +:+ "]")
  end.
Definition PluralResourceNameFromFriendlyName (friendlyName : string) : res string :=
  match list_find (friendly friendlyName) resourceNames with
  | Some (_, n) => Ok (plural n)
  | None => Err ("cannot find Kubernetes canonical name from friendly name [" +:+ friendlyName +:+ "]")
  end.
Definition ShortNameFromCanonicalResourceName (canonicalName : string) : string :=
  match canonicalName with
  | "cronjob" => "cj" | "daemonset" => "ds" | "deployment" => "deploy" | "job" => "job" | "namespace" => "ns"
  | "pod" => "po" | "replicationcontroller" => "rc" | "replicaset" => "rs" | "service" => "svc"
  | "serviceprofile" => "sp" | "statefulset" => "sts" | _ => ""
  end.
Definition KindToL5DLabel (k8sKind : string) : string := if bool_decide (k8sKind = "job") then "k8s_job" else k8sKind.

(** * Access reviews *)
Record reviewStatus := mkReview { Allowed : bool; rs_Reason : string }.
(** [schema.GroupKind.String]. *)
Definition GroupKind (group kind : string) : string := if bool_decide (group = "") then kind else kind +:+ "." +:+ group.
Definition evaluateAccessReviewStatus (group resource : string) (st : reviewStatus) : res () :=
  if Allowed st then Ok ()
  else if bool_decide (rs_Reason st ≠ "") then Err ("not authorized to access " +:+ GroupKind group resource +:+ ": " +:+ rs_Reason st)
  else Err ("not authorized to access " +:+ GroupKind group resource).

(** * The API server, for one namespace *)
Record Workload := mkWorkload { wl_Name : string; wl_UID : string; wl_Selector : option strmap; wl_OwnerUIDs : list string }.
Class Clientset := {
  getWorkload : string → string → res Workload  (* kind and name *);
  listJobs : res (list Workload);
  listReplicaSets : strmap → res (list Workload);
  getPod : string → res PodObject;
  listPodsSelected : strmap → res (list PodObject);
  createReview : string → string → string → string → string → string → res reviewStatus
    (* namespace, verb, group, version, resource, name *);
  serverResources : string → res (string * list string)  (* group version, kinds *);
  countEndpointSlices : res nat }.

Section clientset.
Context `{!Clientset}.

Definition ResourceAuthz (namespace verb group version resource name : string) : res () :=
  let* st := createReview namespace verb group version resource name in evaluateAccessReviewStatus group resource st.

(** Is a kind served, and what to do then. *)
Definition whenServed (groupVersion kind : string) (found : res ()) (missing : string) : res () :=
  let* r := serverResources groupVersion in
  if bool_decide (r.1 = groupVersion ∧ kind ∈ r.2) then found else Err missing.
Definition ServiceProfilesAccess : res () :=
  whenServed "linkerd.io/v1alpha2" "ServiceProfile" (ResourceAuthz "" "list" "linkerd.io" "" "serviceprofiles" "")
    "ServiceProfile CRD not found".
Definition ServersAccess : res () :=
  whenServed "policy.linkerd.io/v1beta3" "Server" (ResourceAuthz "" "list" "policy.linkerd.io" "" "servers" "")
    "server CRD (policy.linkerd.io/v1beta3) not found".
Definition ExtWorkloadAccess : res () :=
  whenServed "workload.linkerd.io/v1alpha1" "ExternalWorkload"
    (ResourceAuthz "" "list" "workload.linkerd.io" "" "externalworkloads" "") "ExternalWorkload CRD not found".
Definition checkEndpointSlicesExist : res () :=
  let* n := countEndpointSlices in
  if (0 <? n)%nat then Ok () else Err "no EndpointSlice resources exist in the cluster".
Definition EndpointSliceAccess : res () :=
  whenServed "discovery.k8s.io/v1" "EndpointSlice" checkEndpointSlicesExist "EndpointSlice resource not found".
Definition ClusterAccess : res () := ResourceAuthz "" "list" "" "" "pods" "".

(** * The pods of a workload *)
Definition isOwnerUID (u : string) (ownerRefs : list string) : bool := bool_decide (u ∈ ownerRefs).

(** [matchLabels] of a selector that is a pointer, and of one that is a map. *)
Definition matchLabels (w : Workload) : res strmap := match wl_Selector w with Some m => Ok m | None => Panic end.

(** The pods of the objects of a list that satisfy a condition, one after the other. *)
Definition podsOfOwned (pods : Workload → res (list PodObject)) (owned : Workload → bool) (l : list Workload)
    : res (list PodObject) :=
  let* ls := res_mapM pods (filter (λ w, owned w = true) l) in Ok (mjoin ls).

Definition ownedPods (labels : strmap) (ownerUID : string) : res (list PodObject) :=
  let* pods := listPodsSelected labels in
  Ok (if bool_decide (ownerUID = "") then pods else filter (λ p, isOwnerUID ownerUID (po_OwnerUIDs p) = true) pods).

(** Cron jobs lead to jobs and deployments to replica sets, and no further. *)
Fixpoint getPodsFor (fuel : nat) (resource : string) : res (list PodObject) :=
  match fuel with
  | O => Panic
  | S fuel =>
      match strings.Split resource "/" with
      | [_] => Err "no resource name provided"
      | [kind; name] =>
          let* typ := CanonicalResourceNameFromFriendlyName kind in
          if bool_decide (typ = "pod") then let* pod := getPod name in Ok [pod]
          else if bool_decide (typ = "cronjob") then
            let* jobs := listJobs in
            podsOfOwned (λ job, getPodsFor fuel ("job/" +:+ wl_Name job)) (λ job, isOwnerUID (wl_UID job) (wl_OwnerUIDs job)) jobs
          else if bool_decide (typ = "deployment") then
            let* d := getWorkload typ name in
            let* labels := matchLabels d in
            let* rss := listReplicaSets labels in
            podsOfOwned (λ rs, getPodsFor fuel ("replicaset/" +:+ wl_Name rs)) (λ rs, isOwnerUID (wl_UID d) (wl_OwnerUIDs rs)) rss
          else if bool_decide (typ = "replicationcontroller") then
            let* rc := getWorkload typ name in ownedPods (default ∅ (wl_Selector rc)) (wl_UID rc)
          else if bool_decide (typ ∈ ["daemonset"; "job"; "replicaset"; "statefulset"]) then
            let* w := getWorkload typ name in
            let* labels := matchLabels w in ownedPods labels (wl_UID w)
          else Err ("unsupported resource type: " +:+ name)
      | _ => Err ("invalid resource string: " +:+ resource)
      end
  end.
Definition pkg_GetPodsFor (resource : string) : res (list PodObject) := getPodsFor 2 resource.

(** * Properties *)
Lemma filter_nothing {A} (P : A → Prop) `{∀ x, Decision (P x)} (l : list A) : Forall (λ x, ¬ P x) l → filter P l = [].
Proof. induction 1 as [|x l Hx Hl IH]; [done|]. by rewrite filter_cons_False. Qed.

(** A cron job has no pods here: the jobs that are looked at are those that own themselves. *)
Lemma cronjob_without_pods name jobs :
  strings.Contains name "/" = false → listJobs = Ok jobs → Forall (λ j, wl_UID j ∉ wl_OwnerUIDs j) jobs →
  pkg_GetPodsFor ("cronjob" +:+ String "/" name) = Ok [].
Proof.
  intros Hn Hj Hno. unfold pkg_GetPodsFor. cbn [getPodsFor]. rewrite strings.Split_app by done.
  rewrite strings.Split_absent by done.
  assert (CanonicalResourceNameFromFriendlyName "cronjob" = Ok "cronjob") as -> by (vm_compute; reflexivity).
  cbn [res_bind]. rewrite bool_decide_false, bool_decide_true, Hj by done. cbn [res_bind]. unfold podsOfOwned.
  rewrite filter_nothing; [done|]. eapply Forall_impl; [exact Hno|]. intros j Hj' ?%bool_decide_eq_true. by apply Hj'.
Qed.
End clientset.

(** Every name of a resource has one canonical name, which names the same resource. *)
Lemma canonical_idempotent s t :
  CanonicalResourceNameFromFriendlyName s = Ok t → CanonicalResourceNameFromFriendlyName t = Ok t.
Proof.
  unfold CanonicalResourceNameFromFriendlyName at 1. destruct (list_find _ resourceNames) as [[i n]|] eqn:Hf; [|done].
  intros [= <-]. apply list_find_Some in Hf as (Hi & _ & _). apply list_elem_of_lookup_2 in Hi.
  assert (Forall (λ n, CanonicalResourceNameFromFriendlyName (full n) = Ok (full n)) resourceNames) as Hall
    by (repeat constructor; vm_compute; reflexivity).
  rewrite Forall_forall in Hall. by apply Hall.
Qed.

(** A pod is well formed if every init container that has a status is one of its containers.
    Then its status can be determined; otherwise a nil pointer may be read. *)
Definition statusesKnown (pod : PodObject) : Prop :=
  Forall (λ s, cs_Name s ∈ pc_Name <$> po_InitContainers pod) (po_InitContainerStatuses pod).

Lemma initContainerNamed_Some pod n : n ∈ pc_Name <$> po_InitContainers pod → is_Some (initContainerNamed pod n).
Proof.
  intros (c & -> & Hc)%list_elem_of_fmap. unfold initContainerNamed. apply last_is_Some. intros Hnil.
  assert (c ∈ filter (λ c', pc_Name c' = pc_Name c) (po_InitContainers pod)) as Hin by (by apply list_elem_of_filter).
  rewrite Hnil in Hin. by apply elem_of_nil in Hin.
Qed.

Lemma initReason_ok pod i s : cs_Name s ∈ pc_Name <$> po_InitContainers pod → is_ok (initReason pod i s) = true.
Proof.
  intros [c Hc]%initContainerNamed_Some. unfold initReason. rewrite Hc. cbn [isRestartableInitContainer res_bind].
  repeat case_match; done.
Qed.

Lemma GetPodStatus_ok pod : statusesKnown pod → ∃ s, GetPodStatus pod = Ok s.
Proof.
  intros Hk. unfold GetPodStatus.
  assert (∀ i, is_ok (initializing pod i (po_InitContainerStatuses pod)) = true) as Hi.
  { unfold statusesKnown in Hk. induction Hk as [|s l Hs Hl IH]; intros i; [done|]. cbn.
    pose proof (initReason_ok pod i s Hs) as Hr. destruct (initReason pod i s) as [[r|]| |]; cbn; [done|apply IH|done..]. }
  specialize (Hi 0%nat). destruct (initializing _ _ _) as [[r|]| |]; [cbn; eauto| |done..]. cbn.
  destruct (foldl _ _ _) as [r b]. by eexists.
Qed.
