(* ===== verification/IssuerCerts.v ===== *)
(** The issuer's certificates as the tools check them: [pkg/issuercerts].

    Secrets are maps of strings; algorithms of certificates, which [Tls] does not record, are
    the class [Algorithms].  The clock is in UTC: a day has 24 hours. *)
From S2P Require Import Prelude GoStd K8s Tls.

#[local] Open Scope string_scope.
#[local] Open Scope list_scope.
#[local] Open Scope Z_scope.
#[local] Open Scope go_scope.

Record IssuerCertData := mkIssuerCertData {
  ic_TrustAnchors : string; ic_IssuerCrt : string; ic_IssuerKey : string; ic_Expiry : option Z }.

Inductive KeyAlgorithm := ECDSA | RSA | OtherAlgorithm.
#[export] Instance KeyAlgorithm_eq_dec : EqDecision KeyAlgorithm.
Proof. solve_decision. Defined.
Inductive SignatureAlgorithm := ECDSAWithSHA256 | SHA256WithRSA | OtherSignature.
#[export] Instance SignatureAlgorithm_eq_dec : EqDecision SignatureAlgorithm.
Proof. solve_decision. Defined.

Class Algorithms := {
  PublicKeyAlgorithm : Certificate → KeyAlgorithm;
  SignatureAlgorithmOf : Certificate → SignatureAlgorithm;
  curveBitSize : PublicKey → Z }.

Definition expirationWarningThresholdInDays : Z := 60.
Definition day : Z := 24 * hour.

(** The keys of the secret. *)
Definition IdentityIssuerCrtName : string := "crt.pem".
Definition IdentityIssuerKeyName : string := "key.pem".
Definition IdentityIssuerTrustAnchorsNameExternal : string := "ca.crt".
Definition TLSCertKey : string := "tls.crt".
Definition TLSPrivateKeyKey : string := "tls.key".

Definition keyOf (data : strmap) (key : string) : res string :=
  match data !! key with Some v => Ok v | None => Err ("key " +:+ key +:+ " needs to exist in secret linkerd-identity-issuer") end.

Definition bitLen (n : Z) : Z := if n <=? 0 then 0 else Z.log2 n + 1.

Definition CheckCertValidityPeriod (now : Z) (cert : Certificate) : res () :=
  if now <? NotBefore cert then Err "not valid before"
  else if NotAfter cert <? now then Err "not valid anymore"
  else Ok ().

Definition CheckExpiringSoon (now : Z) (cert : Certificate) : res () :=
  if NotAfter cert <? now + expirationWarningThresholdInDays * day then Err "will expire" else Ok ().

Section algorithms.
Context `{!Algorithms}.

Definition checkECDSACertRequirements (cert : Certificate) : res () :=
  match crtPublicKey cert with
  | ECDSAPublic _ _ =>
      if bool_decide (curveBitSize (crtPublicKey cert) ≠ 256) then Err "must use P-256 curve for public key"
      else if bool_decide (SignatureAlgorithmOf cert ≠ ECDSAWithSHA256 ∧ SignatureAlgorithmOf cert ≠ SHA256WithRSA)
      then Err "must be signed by an ECDSA P-256 key"
      else Ok ()
  | _ => Err "expected ecdsa.PublicKey"
  end.

Definition checkRSACertRequirements (cert : Certificate) : res () :=
  match crtPublicKey cert with
  | RSAPublic n _ =>
      if bool_decide (bitLen n ≠ 2048 ∧ bitLen n ≠ 4096) then Err "RSA must use at least 2084 bit public key"
      else if bool_decide (SignatureAlgorithmOf cert ≠ SHA256WithRSA) then Err "must be signed by an RSA 2048/4096 bit key"
      else Ok ()
  | _ => Err "expected rsa.PublicKey"
  end.

Definition CheckIssuerCertAlgoRequirements (cert : Certificate) : res () :=
  match PublicKeyAlgorithm cert with
  | ECDSA => checkECDSACertRequirements cert
  | _ => Err "issuer certificate must use ECDSA for public key algorithm"
  end.

Definition CheckTrustAnchorAlgoRequirements (cert : Certificate) : res () :=
  match PublicKeyAlgorithm cert with
  | ECDSA => checkECDSACertRequirements cert
  | RSA => checkRSACertRequirements cert
  | OtherAlgorithm => Err "trust anchor must use ECDSA or RSA for public key algorithm"
  end.

Context `{!X509} `{!PEM}.

Definition FetchIssuerData (secret : strmap) (trustAnchors : string) : res IssuerCertData :=
  let* crt := keyOf secret IdentityIssuerCrtName in
  let* key := keyOf secret IdentityIssuerKeyName in
  let* cert := DecodePEMCrt crt in
  Ok (mkIssuerCertData trustAnchors crt key (Some (NotAfter (crtCertificate cert)))).

Definition FetchExternalIssuerData (secret : strmap) : res IssuerCertData :=
  let* anchors := keyOf secret IdentityIssuerTrustAnchorsNameExternal in
  let* crt := keyOf secret TLSCertKey in
  let* key := keyOf secret TLSPrivateKeyKey in
  let* cert := DecodePEMCrt crt in
  Ok (mkIssuerCertData anchors crt key (Some (NotAfter (crtCertificate cert)))).

(** Files that cannot be read are [None]. *)
Definition ReadFile (file : option string) : res string := match file with Some s => Ok s | None => Err "open" end.
Definition LoadIssuerCrtAndKeyFromFiles (keyPEMFile crtPEMFile : option string) : res (string * string) :=
  let* key := ReadFile keyPEMFile in
  let* crt := ReadFile crtPEMFile in
  Ok (key, crt).
Definition LoadIssuerDataFromFiles (keyPEMFile crtPEMFile trustPEMFile : option string) : res IssuerCertData :=
  let* kc := LoadIssuerCrtAndKeyFromFiles keyPEMFile crtPEMFile in
  let* anchors := ReadFile trustPEMFile in
  Ok (mkIssuerCertData anchors kc.2 kc.1 None).

Definition VerifyAndBuildCreds (now : Z) (ic : IssuerCertData) : res Cred :=
  let* creds := ValidateAndCreateCreds (ic_IssuerCrt ic) (ic_IssuerKey ic) in
  let cert := crtCertificate (credCrt creds) in
  let* _ := CheckCertValidityPeriod now cert in
  let* _ := CheckIssuerCertAlgoRequirements cert in
  if negb (IsCA cert) then Err "issuer cert is not a CA"
  else
    let* anchors := DecodePEMCertPool (ic_TrustAnchors ic) in
    match Verify (credCrt creds) anchors "" now with
    | Some _ => Err "verify"
    | None => Ok creds
    end.

(** * Properties *)
(** Credentials that were built are usable by the identity service: the certificate is valid
    now, belongs to an authority, has a P-256 key, and is verified by the trust anchors. *)
Lemma VerifyAndBuildCreds_sound now ic creds :
  VerifyAndBuildCreds now ic = Ok creds →
  let cert := crtCertificate (credCrt creds) in
  ValidateAndCreateCreds (ic_IssuerCrt ic) (ic_IssuerKey ic) = Ok creds
  ∧ NotBefore cert ≤ now ≤ NotAfter cert ∧ IsCA cert = true
  ∧ (∃ x y, crtPublicKey cert = ECDSAPublic x y) ∧ curveBitSize (crtPublicKey cert) = 256
  ∧ ∃ anchors, DecodePEMCertPool (ic_TrustAnchors ic) = Ok anchors ∧ Verify (credCrt creds) anchors "" now = None.
Proof.
  unfold VerifyAndBuildCreds. destruct (ValidateAndCreateCreds _ _) as [creds'| |]; [|done..]. cbn [res_bind].
  unfold CheckCertValidityPeriod. destruct (now <? _) eqn:Hb; [done|]. destruct (_ <? now) eqn:Ha; [done|]. cbn [res_bind].
  unfold CheckIssuerCertAlgoRequirements. destruct (PublicKeyAlgorithm _); [|done..].
  unfold checkECDSACertRequirements. destruct (crtPublicKey (crtCertificate (credCrt creds'))) as [x y| |] eqn:Hk; [|done..].
  case_bool_decide; [done|]. case_bool_decide; [done|]. cbn [res_bind].
  destruct (IsCA _) eqn:Hca; [|done]. cbn. destruct (DecodePEMCertPool _) as [anchors| |] eqn:Hd; [|done..]. cbn.
  destruct (Verify _ _ _ _) eqn:Hv; [done|]. intros [= <-]. cbn. rewrite Hk.
  apply Z.ltb_ge in Hb, Ha. split_and!; [done|lia|lia|done|by eexists _, _|lia|by eexists].
Qed.

(** A certificate that is not about to expire and is valid now stays valid for sixty days. *)
Lemma valid_for_days now cert t :
  CheckCertValidityPeriod now cert = Ok () → CheckExpiringSoon now cert = Ok () →
  now ≤ t ≤ now + expirationWarningThresholdInDays * day → CheckCertValidityPeriod t cert = Ok ().
Proof.
  unfold CheckCertValidityPeriod, CheckExpiringSoon.
  destruct (Z.ltb_spec now (NotBefore cert)); [done|]. destruct (Z.ltb_spec (NotAfter cert) now); [done|].
  destruct (Z.ltb_spec (NotAfter cert) (now + expirationWarningThresholdInDays * day)); [done|]. intros _ _ Ht.
  rewrite (proj2 (Z.ltb_ge _ _)) by lia. by rewrite (proj2 (Z.ltb_ge _ _)) by lia.
Qed.
End algorithms.
