(* ===== verification/IPNet.v ===== *)
(** Networks: what the sources use of [net.ParseCIDR], [net.ParseIP], [net.IPNet] and
    [net.IPMask], and the comparisons of [pkg/healthcheck/healthcheck.go] built on them:
    whether a list of networks contains an address or another network.

    An address is its 4 or 16 bytes, as in Go; nil has no bytes. *)
From S2P Require Import Prelude GoStd Addr.

#[local] Open Scope string_scope.
#[local] Open Scope list_scope.
#[local] Open Scope Z_scope.

Record IPNet := mkIPNet { net_IP : list Z; net_Mask : list Z }.

#[export] Instance IPNet_eq_dec : EqDecision IPNet.
Proof. solve_decision. Defined.

(** * Package net *)
Definition To4 (ip : list Z) : option (list Z) :=
  if bool_decide (length ip = 4%nat) then Some ip
  else if bool_decide (length ip = 16%nat ∧ take 12 ip = v4InV6Prefix) then Some (drop 12 ip)
  else None.

Definition maskByte (ones : nat) (i : nat) : Z := 256 - 2 ^ (8 - Z.of_nat (Nat.min 8 (ones - 8 * i))).
(** [net.CIDRMask] with so many bytes. *)
Definition CIDRMask (ones bytes : nat) : list Z := maskByte ones <$> seq 0 bytes.

Definition land_bytes (l m : list Z) : list Z := zip_with Z.land l m.

(** The mask of an IPv4 network applies to the last four bytes of a mapped address. *)
Definition IP_Mask (ip m : list Z) : list Z :=
  if bool_decide (length m = 4%nat ∧ length ip = 16%nat ∧ take 12 ip = v4InV6Prefix) then land_bytes (drop 12 ip) m
  else if bool_decide (length ip = length m) then land_bytes ip m
  else [].

Definition As16 (a : netip.Addr) : list Z := match a with netip.Addr4 b => v4InV6Prefix ++ b | netip.Addr6 b => b end.
Definition addrBytes (a : netip.Addr) : nat := match a with netip.Addr4 _ => 4%nat | netip.Addr6 _ => 16%nat end.

Definition ParseCIDR (s : string) : option (list Z * IPNet) :=
  '(addr, mask) ← cut_first s "/";
  if strings.Contains addr "%" then None else
  a ← netip.ParseAddr addr;
  n ← strconv.digits mask;
  if bool_decide (N.to_nat n ≤ 8 * addrBytes a)%nat then
    let m := CIDRMask (N.to_nat n) (addrBytes a) in
    Some (As16 a, mkIPNet (IP_Mask (As16 a) m) m)
  else None.

(** [net.ParseIP]: no zones; an address that cannot be read is nil. *)
Definition ParseIP (s : string) : list Z :=
  if strings.Contains s "%" then [] else match netip.ParseAddr s with Some a => As16 a | None => [] end.

(** [simpleMaskLength] and [IPMask.Size]. *)
Fixpoint leadingOnes (fuel : nat) (v : Z) : nat * Z :=
  match fuel with
  | O => (O, v)
  | S fuel => if Z.testbit v 7 then let '(n, v) := leadingOnes fuel (Z.land (Z.shiftl v 1) 255) in (S n, v) else (O, v)
  end.
Fixpoint simpleMaskLength (mask : list Z) : option nat :=
  match mask with
  | [] => Some O
  | v :: mask =>
      if bool_decide (v = 255) then (λ n, 8 + n)%nat <$> simpleMaskLength mask
      else let '(n, v) := leadingOnes 8 v in
           if bool_decide (v = 0 ∧ Forall (.= 0) mask) then Some n else None
  end.
Definition Mask_Size (mask : list Z) : nat := default O (simpleMaskLength mask).

Definition networkNumberAndMask (n : IPNet) : list Z * list Z :=
  let number := default (net_IP n) (To4 (net_IP n)) in
  if bool_decide (length number = 4%nat ∨ length number = 16%nat) then
    if bool_decide (length (net_Mask n) = length number) then (number, net_Mask n)
    else if bool_decide (length (net_Mask n) = 16%nat ∧ length number = 4%nat) then (number, drop 12 (net_Mask n))
    else ([], [])
  else ([], []).

Definition Contains (n : IPNet) (ip : list Z) : bool :=
  let '(nn, m) := networkNumberAndMask n in
  let ip := default ip (To4 ip) in
  bool_decide (length ip = length nn) && bool_decide (land_bytes nn m = land_bytes ip m).

(** * healthcheck.go *)
Definition cluterNetworksContainCIDR (clusterIPNets : list IPNet) (podIPNet : IPNet) (podIP : list Z) : bool :=
  existsb (λ c, Contains c podIP && (Mask_Size (net_Mask c) <=? Mask_Size (net_Mask podIPNet))%nat) clusterIPNets.

Definition clusterNetworksContainIP (clusterIPNets : list IPNet) (ip : string) : bool :=
  existsb (λ c, Contains c (ParseIP ip)) clusterIPNets.

(** * Bits *)
(** Bit [i] of a list of bytes, from the first bit of the first byte. *)
Definition bitAt (l : list Z) (i : nat) : bool := Z.testbit (l !!! (i / 8)%nat) (Z.of_nat (7 - i mod 8)).

Definition maskByteBits (ones : nat) : bool :=
  forallb (λ j : nat, Bool.eqb (Z.testbit (256 - 2 ^ (8 - Z.of_nat ones)) (Z.of_nat (7 - j))) (j <? ones)%nat) (seq 0 8).

Lemma maskByte_bit ones i j : (j < 8)%nat →
  Z.testbit (maskByte ones i) (Z.of_nat (7 - j)) = (8 * i + j <? ones)%nat.
Proof.
  intros Hj. unfold maskByte. set (k := Nat.min 8 (ones - 8 * i)).
  assert (∀ k, (k < 9)%nat → maskByteBits k = true) as Hall.
  { intros k' Hk'. do 9 (destruct k' as [|k']; [vm_compute; reflexivity|]). lia. }
  specialize (Hall k ltac:(lia)). unfold maskByteBits in Hall. rewrite forallb_forall in Hall.
  specialize (Hall j ltac:(apply in_seq; lia)). apply eqb_prop in Hall. rewrite Hall.
  apply eq_iff_eq_true. rewrite !Nat.ltb_lt. lia.
Qed.

Lemma lookup_CIDRMask ones n i : (i < n)%nat → CIDRMask ones n !!! i = maskByte ones i.
Proof.
  intros Hi. apply list_lookup_total_correct. unfold CIDRMask. rewrite list_lookup_fmap, lookup_seq_lt by done. done.
Qed.

Lemma length_CIDRMask ones n : length (CIDRMask ones n) = n.
Proof. unfold CIDRMask. by rewrite length_fmap, length_seq. Qed.

Lemma CIDRMask_bit ones n i : (i < 8 * n)%nat → bitAt (CIDRMask ones n) i = (i <? ones)%nat.
Proof.
  intros Hi. unfold bitAt. rewrite lookup_CIDRMask by (apply Nat.Div0.div_lt_upper_bound; lia).
  rewrite maskByte_bit by (apply Nat.mod_upper_bound; lia). by rewrite <-Nat.div_mod_eq.
Qed.

Lemma lookup_land_bytes l m i : length l = length m → (i < length l)%nat → land_bytes l m !!! i = Z.land (l !!! i) (m !!! i).
Proof.
  intros Hl Hi. destruct (lookup_lt_is_Some_2 l i Hi) as [x Hx]. destruct (lookup_lt_is_Some_2 m i) as [y Hy]; [lia|].
  apply list_lookup_total_correct. unfold land_bytes. rewrite lookup_zip_with, Hx, Hy. cbn. do 2 f_equal; symmetry; by apply list_lookup_total_correct.
Qed.

Lemma byte_bits_eq x y : is_byte x → is_byte y → (∀ j, (j < 8)%nat → Z.testbit x (Z.of_nat (7 - j)) = Z.testbit y (Z.of_nat (7 - j))) → x = y.
Proof.
  intros Hx Hy Hb. apply Z.bits_inj'. intros n Hn. destruct (decide (n < 8)) as [Hn8|Hn8].
  - specialize (Hb (Z.to_nat (7 - n)) ltac:(lia)). by replace (Z.of_nat (7 - Z.to_nat (7 - n))) with n in Hb by lia.
  - unfold is_byte in *. rewrite !Z.testbit_eqb by lia.
    assert (∀ z, 0 ≤ z < 256 → z / 2 ^ n = 0) as Hz.
    { intros z Hz. apply Z.div_small. split; [lia|]. apply (Z.lt_le_trans _ (2 ^ 8)); [lia|]. apply Z.pow_le_mono_r; lia. }
    by rewrite (Hz x), (Hz y).
Qed.

Lemma is_byte_land x y : is_byte x → is_byte (Z.land x y).
Proof.
  unfold is_byte. intros Hx. assert (Z.land x y = Z.land x y mod 256) as ->; [|apply Z.mod_pos_bound; lia].
  rewrite <-land_255, <-Z.land_assoc, (Z.land_comm y), Z.land_assoc, land_255. by rewrite (Z.mod_small x) by lia.
Qed.

(** Masked bytes agree exactly if the bits under the mask do. *)
Lemma land_mask_eq l k ones n :
  length l = n → length k = n → Forall is_byte l → Forall is_byte k → (ones ≤ 8 * n)%nat →
  land_bytes l (CIDRMask ones n) = land_bytes k (CIDRMask ones n) ↔ ∀ i, (i < ones)%nat → bitAt l i = bitAt k i.
Proof.
  intros Hl Hk Hbl Hbk Hones. assert (length (CIDRMask ones n) = n) as Hm by apply length_CIDRMask. split.
  - intros Heq i Hi. assert (i / 8 < n)%nat as Hin by (apply Nat.Div0.div_lt_upper_bound; lia).
    assert (land_bytes l (CIDRMask ones n) !!! (i / 8)%nat = land_bytes k (CIDRMask ones n) !!! (i / 8)%nat) as Hb by by rewrite Heq.
    rewrite !lookup_land_bytes in Hb by congruence || lia.
    pose proof (CIDRMask_bit ones n i ltac:(lia)) as Hbit. unfold bitAt in *. rewrite (proj2 (Nat.ltb_lt _ _)) in Hbit by done.
    apply (f_equal (λ z, Z.testbit z (Z.of_nat (7 - i mod 8)))) in Hb. by rewrite !Z.land_spec, Hbit, !andb_true_r in Hb.
  - intros Hbits. apply list_eq_same_length with (n := n); [unfold land_bytes; rewrite length_zip_with; lia..|].
    intros i x y Hi Hx Hy. apply list_lookup_total_correct in Hx, Hy. subst x y.
    rewrite !lookup_land_bytes by congruence || lia.
    assert (is_byte (l !!! i) ∧ is_byte (k !!! i)) as [Hli Hki].
    { split; eapply Forall_lookup_total_1; try done; lia. }
    apply byte_bits_eq; [by apply is_byte_land..|]. intros j Hj. rewrite !Z.land_spec, lookup_CIDRMask by done.
    rewrite maskByte_bit by done. destruct (Nat.ltb_spec (8 * i + j) ones) as [Hlt|]; [|by rewrite !andb_false_r].
    rewrite !andb_true_r. specialize (Hbits _ Hlt). unfold bitAt in Hbits.
    replace (8 * i + j)%nat with (j + i * 8)%nat in Hbits by lia.
    rewrite Nat.div_add, Nat.Div0.mod_add, (Nat.div_small j 8), (Nat.mod_small j 8) in Hbits by lia. done.
Qed.

Lemma Mask_Size_CIDRMask ones n : n = 4%nat ∨ n = 16%nat → (ones ≤ 8 * n)%nat → Mask_Size (CIDRMask ones n) = ones.
Proof.
  intros Hn Ho.
  assert (forallb (λ o, (Mask_Size (CIDRMask o 4) =? o)%nat) (seq 0 33) = true) as H4 by (vm_compute; reflexivity).
  assert (forallb (λ o, (Mask_Size (CIDRMask o 16) =? o)%nat) (seq 0 129) = true) as H16 by (vm_compute; reflexivity).
  rewrite forallb_forall in H4, H16. apply Nat.eqb_eq. destruct Hn as [-> | ->]; [apply H4|apply H16]; apply in_seq; lia.
Qed.

(** Another address that differs in one bit. *)
Definition flip (l : list Z) (i : nat) : list Z := alter (λ z, Z.lxor z (2 ^ Z.of_nat (7 - i mod 8))) (i / 8)%nat l.

Lemma flip_bit l i j : (i < 8 * length l)%nat → (j < 8 * length l)%nat →
  bitAt (flip l i) j = if bool_decide (i = j) then negb (bitAt l j) else bitAt l j.
Proof.
  intros Hi Hj. assert (i / 8 < length l)%nat as Hi8 by (apply Nat.Div0.div_lt_upper_bound; lia).
  unfold bitAt, flip. destruct (decide (i / 8 = j / 8)%nat) as [Heq|Hne].
  - rewrite <-Heq. destruct (lookup_lt_is_Some_2 l _ Hi8) as [x Hx].
    rewrite (list_lookup_total_correct (alter _ _ l) _ (Z.lxor x (2 ^ Z.of_nat (7 - i mod 8)))) by (by rewrite list_lookup_alter_eq, Hx).
    rewrite (list_lookup_total_correct l _ x Hx), Z.lxor_spec, Z.pow2_bits_eqb by lia.
    pose proof (Nat.mod_upper_bound i 8). pose proof (Nat.mod_upper_bound j 8).
    pose proof (Nat.div_mod_eq i 8). pose proof (Nat.div_mod_eq j 8). case_bool_decide as Hij.
    + subst j. rewrite Z.eqb_refl. by destruct (Z.testbit x _).
    + rewrite (proj2 (Z.eqb_neq _ _)) by lia. by destruct (Z.testbit x _).
  - rewrite bool_decide_false by congruence.
    destruct (lookup_lt_is_Some_2 l (j / 8)%nat) as [x Hx]; [apply Nat.Div0.div_lt_upper_bound; lia|].
    rewrite (list_lookup_total_correct l _ x Hx). by rewrite (list_lookup_total_correct _ _ x) by (by rewrite list_lookup_alter_ne).
Qed.

Lemma length_flip l i : length (flip l i) = length l.
Proof. apply length_alter. Qed.

Lemma is_byte_lxor x y : is_byte x → is_byte y → is_byte (Z.lxor x y).
Proof.
  unfold is_byte. intros Hx Hy. assert (Z.lxor x y = Z.lxor x y mod 256) as ->; [|apply Z.mod_pos_bound; lia].
  rewrite <-land_255. assert (Z.land (Z.lxor x y) 255 = Z.lxor (Z.land x 255) (Z.land y 255)) as ->.
  { apply Z.bits_inj'. intros n _. rewrite Z.land_spec, !Z.lxor_spec, !Z.land_spec.
    by destruct (Z.testbit x n), (Z.testbit y n), (Z.testbit 255 n). }
  rewrite !land_255. by rewrite (Z.mod_small x), (Z.mod_small y) by lia.
Qed.

Lemma flip_bytes l i : Forall is_byte l → Forall is_byte (flip l i).
Proof.
  intros Hl. unfold flip. apply Forall_alter; [done|]. intros x _ Hx. apply is_byte_lxor; [done|].
  unfold is_byte. split; [lia|]. change 256 with (2 ^ 8). apply Z.pow_lt_mono_r; lia.
Qed.

(** * Containment *)
(** A network as the parser makes it: the family, and the number of bits that are fixed. *)
Record network (n : IPNet) (bytes ones : nat) : Prop := {
  nw_family : bytes = 4%nat ∨ bytes = 16%nat;
  nw_ones : (ones ≤ 8 * bytes)%nat;
  nw_mask : net_Mask n = CIDRMask ones bytes;
  nw_length : length (net_IP n) = bytes;
  nw_bytes : Forall is_byte (net_IP n) }.

(** The addresses of a network: those of its family with the same leading bits. *)
Definition inNet (n : IPNet) (ip : list Z) : Prop :=
  length ip = length (net_IP n) ∧ Forall is_byte ip
  ∧ ∀ i, (i < Mask_Size (net_Mask n))%nat → bitAt ip i = bitAt (net_IP n) i.

(** An address in its shortest form. *)
Definition canonical (ip : list Z) : list Z := default ip (To4 ip).

(** A network that is not one of IPv4 addresses written as IPv6. *)
Definition plain (n : IPNet) : Prop := length (net_IP n) = 4%nat ∨ To4 (net_IP n) = None.

Lemma plain_number n bytes ones : network n bytes ones → plain n → networkNumberAndMask n = (net_IP n, net_Mask n).
Proof.
  intros [Hf Ho Hm Hl Hb] Hp. unfold networkNumberAndMask.
  assert (default (net_IP n) (To4 (net_IP n)) = net_IP n) as ->.
  { destruct Hp as [Hp| ->]; [|done]. unfold To4. by rewrite bool_decide_true. }
  rewrite bool_decide_true by (destruct Hf; [left|right]; congruence).
  by rewrite bool_decide_true by (by rewrite Hm, length_CIDRMask, Hl).
Qed.

Lemma canonical_bytes ip : Forall is_byte ip → Forall is_byte (canonical ip).
Proof. intros Hb. unfold canonical, To4. repeat case_bool_decide; cbn; eauto using Forall_drop. Qed.

Lemma Contains_inNet n bytes ones ip :
  network n bytes ones → plain n → Forall is_byte ip → Contains n ip = true ↔ inNet n (canonical ip).
Proof.
  intros Hn Hp Hb. unfold Contains, inNet. rewrite (plain_number _ _ _ Hn Hp). destruct Hn as [Hf Ho Hm Hl Hbn].
  fold (canonical ip). rewrite andb_true_iff, !bool_decide_eq_true, Hm, Mask_Size_CIDRMask by done.
  split.
  - intros [Hlen Heq]. split; [done|]. split; [by apply canonical_bytes|]. intros i Hi. symmetry.
    by apply (land_mask_eq (net_IP n) (canonical ip) ones bytes); [|congruence|by auto using canonical_bytes..|].
  - intros (Hlen & Hcb & Hbits). split; [done|]. apply land_mask_eq; [congruence..|done|done|done|]. intros i Hi. symmetry. by apply Hbits.
Qed.

(** What the parser returns: a network, and an address of it. *)
Lemma ParseAddr_bytes s a : netip.ParseAddr s = Some a → Forall is_byte (As16 a) ∧ length (As16 a) = 16%nat
  ∧ match a with netip.Addr4 b => length b = 4%nat | netip.Addr6 b => length b = 16%nat end.
Proof.
  unfold netip.ParseAddr. destruct (list_find _ _) as [[i c]|]; [|done]. intros Ha.
  assert ((∃ b, netip.parseIPv4Fields s = Some b ∧ a = netip.Addr4 b) ∨ (∃ b, netip.parseIPv6 s = Some b ∧ a = netip.Addr6 b)) as [(b & Hb & ->)|(b & Hb & ->)].
  { repeat (case_match; try done); apply fmap_Some in Ha as (? & ? & ->); eauto. }
  - apply parseIPv4_range in Hb as [Hb Hl]. cbn [As16]. split; [|split; [rewrite length_app, Hl; done|done]].
    apply Forall_app. split; [|done]. repeat constructor; lia.
  - apply parseIPv6_range in Hb as [Hb Hl]. done.
Qed.

Lemma land_bytes_bytes l m : Forall is_byte l → Forall is_byte (land_bytes l m).
Proof.
  intros Hl. revert m. induction Hl as [|x l Hx Hl IH]; intros [|y m]; [constructor..|].
  constructor; [by apply is_byte_land|apply IH].
Qed.

Lemma mapped_To4 b : length b = 4%nat → To4 (v4InV6Prefix ++ b) = Some b.
Proof.
  intros Hb. unfold To4. rewrite length_app, Hb. rewrite bool_decide_false by done. rewrite bool_decide_true.
  - by rewrite drop_app_ge by done.
  - split; [done|]. by rewrite take_app_le by done.
Qed.

Lemma network_made x ones bytes :
  bytes = 4%nat ∨ bytes = 16%nat → (ones ≤ 8 * bytes)%nat → length x = bytes → Forall is_byte x →
  network (mkIPNet (land_bytes x (CIDRMask ones bytes)) (CIDRMask ones bytes)) bytes ones.
Proof.
  intros Hf Ho Hx Hb. split; [done|done|done| |by apply land_bytes_bytes]. change (length (land_bytes x (CIDRMask ones bytes)) = bytes).
  unfold land_bytes. rewrite length_zip_with, length_CIDRMask. lia.
Qed.

Lemma ParseCIDR_network s ip n :
  ParseCIDR s = Some (ip, n) →
  ∃ bytes ones x, network n bytes ones ∧ Forall is_byte ip ∧ net_IP n = land_bytes x (net_Mask n) ∧ length x = bytes
    ∧ Forall is_byte x ∧ (if bool_decide (bytes = 4%nat) then To4 ip = Some x else ip = x).
Proof.
  unfold ParseCIDR. destruct (cut_first s "/") as [[addr mask]|]; [|done]. cbn. destruct (strings.Contains addr "%"); [done|].
  destruct (netip.ParseAddr addr) as [a|] eqn:Ha; [|done]. destruct (strconv.digits mask) as [k|]; [|done]. cbn.
  case_bool_decide as Hk; [|done]. intros [= <- <-]. destruct (ParseAddr_bytes _ _ Ha) as (Hb & Hlen & Hfam).
  exists (addrBytes a), (N.to_nat k). destruct a as [b|b]; cbn [As16 addrBytes] in *.
  - exists b. rewrite (mapped_To4 b Hfam). apply Forall_app in Hb as [_ Hbb].
    assert (IP_Mask (v4InV6Prefix ++ b) (CIDRMask (N.to_nat k) 4) = land_bytes b (CIDRMask (N.to_nat k) 4)) as ->.
    { unfold IP_Mask. rewrite length_CIDRMask, length_app, Hfam. rewrite bool_decide_true; [by rewrite drop_app_ge|].
      split_and!; [done..|]. by rewrite take_app_le by done. }
    split; [apply network_made; [by left|done..]|]. split_and!; [apply Forall_app; split; [repeat constructor; lia|]|..]; done.
  - exists b. assert (IP_Mask b (CIDRMask (N.to_nat k) 16) = land_bytes b (CIDRMask (N.to_nat k) 16)) as ->.
    { unfold IP_Mask. rewrite length_CIDRMask, Hfam. by rewrite bool_decide_false by (by intros [? _]). }
    split; [apply network_made; [by right|done..]|by split_and!].
Qed.

Lemma land_bytes_idemp l m : land_bytes (land_bytes l m) m = land_bytes l m.
Proof.
  revert m. induction l as [|x l IH]; intros [|y m]; [done..|]. unfold land_bytes in *. cbn.
  by rewrite <-Z.land_assoc, Z.land_diag, IH.
Qed.

(** A node's network as it is checked: its addresses, and the address it is written with. *)
Lemma ParseCIDR_inNet s ip n :
  ParseCIDR s = Some (ip, n) → length (net_IP n) = 4%nat ∨ To4 ip = None → inNet n (canonical ip).
Proof.
  intros (bytes & ones & x & Hn & Hb & Hip & Hx & Hbx & Hcan)%ParseCIDR_network Hp.
  assert (canonical ip = x) as ->.
  { unfold canonical. case_bool_decide as Hb4; [by rewrite Hcan|]. subst ip. destruct Hp as [Hp| ->]; [|done].
    rewrite (nw_length _ _ _ Hn) in Hp. done. }
  destruct Hn as [Hf Ho Hm Hl Hbn]. split; [congruence|]. split; [done|]. rewrite Hm, Mask_Size_CIDRMask by done.
  apply (land_mask_eq x (net_IP n) ones bytes); [done..|].
  rewrite Hip, Hm, land_bytes_idemp. done.
Qed.


Definition ex_cluster : option (list Z * IPNet) := Eval vm_compute in ParseCIDR "10.0.0.0/8".
Definition ex_node : option (list Z * IPNet) := Eval vm_compute in ParseCIDR "10.42.1.0/24".
Definition ex_net (o : option (list Z * IPNet)) : IPNet := default (mkIPNet [] []) (snd <$> o).


(** A configured network that is written as IPv6 is not recognised, although it has the same
    addresses: the lengths of masks of different families are compared. *)
Lemma mapped_network_rejected :
  match ParseCIDR "::ffff:10.0.0.0/104", ParseCIDR "10.42.1.0/24" with
  | Some (_, c), Some (podIP, n) => Contains c podIP = true ∧ cluterNetworksContainCIDR [c] n podIP = false
  | _, _ => False
  end.
Proof. vm_compute. split; reflexivity. Qed.
