(* ===== verification/HealthPure.v ===== *)
(** The health checks that only look at what the cluster answered: pods, replica sets, labels,
    sidecars, expected resources and opaque ports ([pkg/healthcheck/healthcheck.go],
    [healthcheck_labels.go], [sidecar.go]). *)
From S2P Require Import Prelude GoStd K8s PortRange Version PkgK8s Health.

#[local] Open Scope string_scope.
#[local] Open Scope list_scope.
#[local] Open Scope Z_scope.

(** * Expected resources *)
(** [shouldExist] negated: the resources that are there but should not be. *)
Definition checkResources `{!MapRange} (resourceName : string) (objects expectedNames : list string) (shouldExist : bool)
    : result () :=
  if shouldExist then
    let expected : gmap string bool := foldl (λ m n, <[n := false]> m) ∅ expectedNames in
    let expected := foldl (λ m o, if bool_decide (is_Some (m !! o)) then <[o := true]> m else m) expected objects in
    let missing := (filter (λ e, e.2 = false) (range expected)).*1 in
    if bool_decide (missing ≠ [])
    then Throw (Failure ("missing " +:+ resourceName +:+ ": " +:+ strings.Join (merge_sort String.le missing) ", "))
    else Ret ()
  else if bool_decide (objects ≠ []) then Throw (ResourceError resourceName objects)
  else Ret ().

Definition crdHasVersion (versions : list string) (version : string) : bool := existsb (λ v, bool_decide (v = version)) versions.

(** * Control plane pods *)
Definition ready (containers : list ContainerStatus) : bool := forallb cs_Ready containers.

(** The component a pod of the control plane belongs to. *)
Definition componentOf (pod : PodObject) : option string :=
  if bool_decide (po_Phase pod = PodRunning) && strings.HasPrefix (po_Name pod) "linkerd-" then
    let parts := strings.Split (po_Name pod) "-" in
    if (4 <=? length parts)%nat then Some (strings.Join (take (length parts - 3) (drop 1 parts)) "-") else None
  else None.

Abbreviation podStatuses := (gmap string (gmap string (list ContainerStatus))).
Definition addPodStatus (statuses : podStatuses) (pod : PodObject) : podStatuses :=
  match componentOf pod with
  | Some name => <[name := <[po_Name pod := po_ContainerStatuses pod]> (default ∅ (statuses !! name))]> statuses
  | None => statuses
  end.
Definition getPodStatuses (pods : list PodObject) : podStatuses := foldl addPodStatus ∅ pods.

(** The loop over the pods of a component: [None] when one is ready, else the error of the last
    container that is not. *)
Fixpoint podsReady (pods : list (string * list ContainerStatus)) (err : option error) : option (option error) :=
  match pods with
  | [] => Some err
  | (pod, containers) :: pods =>
      if ready containers then None
      else podsReady pods
             (match last (filter (λ c, cs_Ready c = false) containers) with
              | Some c => Some (Failure ("pod/" +:+ pod +:+ " container " +:+ cs_Name c +:+ " is not ready"))
              | None => err
              end)
  end.

Fixpoint validateComponents `{!MapRange} (statuses : podStatuses) (names : list string) : result () :=
  match names with
  | [] => Ret ()
  | name :: names =>
      match statuses !! name with
      | None => Throw (Failure ("No running pods for linkerd-" +:+ name))
      | Some pods =>
          match podsReady (range pods) None with
          | None => validateComponents statuses names
          | Some (Some e) => Throw e
          | Some None => Ret ()
          end
      end
  end.
Definition controlPlaneComponents : list string := ["destination"; "identity"; "proxy-injector"].
Definition validateControlPlanePods `{!MapRange} (pods : list PodObject) : result () :=
  validateComponents (getPodStatuses pods) controlPlaneComponents.

Definition checkUnschedulablePods (pods : list PodObject) : result () :=
  match list_find (λ e : string * (string * string), e.2.1 = "Unschedulable")
          (pods ≫= λ pod, (λ c, (po_Name pod, c)) <$> po_Conditions pod) with
  | Some (_, (name, (_, message))) => Throw (Failure (name +:+ ": " +:+ message))
  | None => Ret ()
  end.

Record Condition := mkCondition { cond_Type : string; cond_Status : string; cond_Reason : string; cond_Message : string }.
Definition checkControlPlaneReplicaSets (rst : list (list Condition)) : result () :=
  let errors := (λ r, cond_Reason r +:+ ": " +:+ cond_Message r) <$>
                filter (λ r, cond_Type r = "ReplicaFailure" ∧ cond_Status r = "True") (mjoin rst) in
  if bool_decide (errors ≠ []) then Throw (Failure (strings.Join errors "; ")) else Ret ().

(** [CheckForPods]: the deployments that have a pod with one of two labels. *)
Definition CheckForPods (pods : list PodObject) (deployNames : list string) : result () :=
  let exists_ (n : string) := existsb (λ pod, bool_decide (po_Labels pod !! "linkerd.io/control-plane-component" = Some n
                                                          ∨ po_Labels pod !! "component" = Some n)) pods in
  match list_find (λ n, exists_ n = false) deployNames with
  | Some (_, expected) => Throw (Failure ("Could not find pods for deployment " +:+ expected))
  | None => Ret ()
  end.

(** * Data plane pods *)
Fixpoint podsRunning (pods : list PodObject) : result () :=
  match pods with
  | [] => Ret ()
  | pod :: pods =>
      match GetPodStatus pod with
      | Ok status =>
          if bool_decide (status ∈ ["Completed"; "NodeShutdown"; "Shutdown"; "Terminated"]) then podsRunning pods
          else if bool_decide (status ≠ PodRunning ∧ status ≠ "Evicted")
          then Throw (Failure ("pod " +:+ po_Name pod +:+ " status is " +:+ po_Phase pod))
          else if negb (GetProxyReady pod)
          then Throw (Failure ("container " +:+ ProxyContainerName +:+ " in pod " +:+ po_Name pod +:+ " is not ready"))
          else podsRunning pods
      | _ => Crash
      end
  end.
Definition CheckPodsRunning (pods : list PodObject) (namespace : string) : result () :=
  if bool_decide (pods = [])
  then Throw (Failure ("no " +:+ ProxyContainerName +:+ " containers found" +:+
                       (if bool_decide (namespace ≠ "") then " in the " +:+ namespace +:+ " namespace" else "")))
  else podsRunning pods.

Definition containsProxy (pod : PodObject) : bool := existsb (λ c, bool_decide (pc_Name c = ProxyContainerName)) (allContainers pod).
Definition CheckIfDataPlanePodsExist (pods : list PodObject) : result () :=
  match list_find (λ pod, containsProxy pod = false) pods with
  | Some (_, pod) => Throw (Failure ("could not find proxy container for " +:+ po_Name pod +:+ " pod"))
  | None => Ret ()
  end.

(** The pods that run a version that does not match. *)
Fixpoint outdatedPods (pods : list PodObject) (versions : Channels) : result (list string) :=
  match pods with
  | [] => Ret []
  | pod :: pods =>
      match GetPodStatus pod with
      | Ok status =>
          match outdatedPods pods versions with
          | Ret rest =>
              if bool_decide (status = PodRunning ∧ GetProxyVersion pod ≠ "") && negb (is_ok (Match versions (GetProxyVersion pod)))
              then Ret (("* " +:+ po_Name pod +:+ " (" +:+ GetProxyVersion pod +:+ ")") :: rest)
              else Ret rest
          | other => other
          end
      | _ => Crash
      end
  end.
Definition CheckProxyVersionsUpToDate (pods : list PodObject) (versions : Channels) : result () :=
  match outdatedPods pods versions with
  | Ret outdated =>
      if Channels_Empty versions then Throw (Failure "unable to determine version channel")
      else if bool_decide (outdated ≠ [])
      then Throw (Failure ("some proxies are not running the current version: " +:+ strings.Join outdated "; "))
      else Ret ()
  | Throw e => Throw e
  | Crash => Crash
  end.

Fixpoint CheckIfProxyVersionsMatchWithCLI (version : string) (pods : list PodObject) : result () :=
  match pods with
  | [] => Ret ()
  | pod :: pods =>
      match GetPodStatus pod with
      | Ok status =>
          let proxyVersion := GetProxyVersion pod in
          if bool_decide (status = PodRunning ∧ proxyVersion ≠ "" ∧ proxyVersion ≠ version)
          then Throw (Failure (po_Name pod +:+ " running " +:+ proxyVersion +:+ " but cli running " +:+ version))
          else CheckIfProxyVersionsMatchWithCLI version pods
      | _ => Crash
      end
  end.

(** * Labels and annotations *)
Definition hasAnyPrefix (str : string) (prefixes : list string) : bool := existsb (strings.HasPrefix str) prefixes.
Definition validAsLabelOnly : list string := ["mirror.linkerd.io/exported"].
Definition validAsAnnotationOnly : list string := ["linkerd.io/inject"].
Definition validAsAnnotationPrefixOnly : list string := ["config.linkerd.io"; "config.alpha.linkerd.io"].

Definition getMisconfiguredLabels `{!MapRange} (labels : strmap) : list string :=
  filter (λ l, hasAnyPrefix l validAsAnnotationPrefixOnly || ContainsString l validAsAnnotationOnly = true) (range labels).*1.
Definition getMisconfiguredAnnotations `{!MapRange} (annotations : strmap) : list string :=
  filter (λ a, ContainsString a validAsLabelOnly = true) (range annotations).*1.

(** Objects with something invalid, by namespace and name. *)
Definition misconfigured (what : string) (objects : list (string * string * list string)) : result () :=
  let invalid := (λ o, o.1.1 +:+ "/" +:+ o.1.2 +:+ " " +:+ strings.Join o.2 " ") <$> filter (λ o, o.2 ≠ []) objects in
  if bool_decide (invalid ≠ []) then Throw (Failure (what +:+ ": " +:+ strings.Join invalid "; ")) else Ret ().
Definition checkMisconfiguredPodsLabels `{!MapRange} (pods : list PodObject) : result () :=
  misconfigured "Some labels on data plane pods should be annotations"
    ((λ p, (po_Namespace p, po_Name p, getMisconfiguredLabels (po_Labels p))) <$> pods).
Definition checkMisconfiguredServiceLabels `{!MapRange} (services : list Service) : result () :=
  misconfigured "Some labels on data plane services should be annotations"
    ((λ s, (svc_Namespace s, svc_Name s, getMisconfiguredLabels (svc_Labels s))) <$> services).
Definition checkMisconfiguredServiceAnnotations `{!MapRange} (services : list Service) : result () :=
  misconfigured "Some annotations on data plane services should be labels"
    ((λ s, (svc_Namespace s, svc_Name s, getMisconfiguredAnnotations (svc_Annotations s))) <$> services).

(** * Sidecars *)
Definition proxySidecar (c : PodContainer) : bool :=
  strings.HasPrefix (pc_Image c) "cr.l5d.io/linkerd/proxy:" || strings.HasPrefix (pc_Image c) "gcr.io/istio-release/proxyv2:"
  || bool_decide (pc_Name c = ProxyContainerName) || bool_decide (pc_Name c = "istio-proxy").
Definition initSidecar (c : PodContainer) : bool :=
  strings.HasPrefix (pc_Image c) "cr.l5d.io/linkerd/proxy-init:" || strings.HasPrefix (pc_Image c) "gcr.io/istio-release/proxy_init:"
  || bool_decide (pc_Name c = "linkerd-init") || bool_decide (pc_Name c = "istio-init").
Definition HasExistingSidecars (pod : PodObject) : bool :=
  existsb proxySidecar (allContainers pod) || existsb initSidecar (po_InitContainers pod).

(** * Opaque ports *)
Definition IntVal (p : IntOrString) : Z := match p with FromInt i => i | FromString _ => 0 end.
Definition StrVal (p : IntOrString) : string := match p with FromInt _ => "" | FromString s => s end.
Definition isInt (p : IntOrString) : bool := match p with FromInt _ => true | FromString _ => false end.

Definition opaquePorts (annotations : strmap) : list string :=
  match annotations !! ProxyOpaquePortsAnnotation with Some v => strings.Split v "," | None => [] end.
Definition containerPorts (pod : PodObject) : list ContainerPort := po_Containers pod ≫= pc_Ports.

(** The first container port a service port would target. *)
Definition checkPodPorts (service : Service) (pod : PodObject) (podPorts : list string) (port : Z) : result () :=
  let targets := filter (λ sp, sp_Port sp = port) (svc_Ports service) ≫= λ sp, (λ cp, (sp, cp)) <$> containerPorts pod in
  match list_find (λ e : ServicePort * ContainerPort,
          cp_ContainerPort e.2 = IntVal (sp_TargetPort e.1) ∨ cp_Name e.2 = StrVal (sp_TargetPort e.1)) targets with
  | Some (_, (sp, cp)) =>
      let strPort := strconv.Itoa (if isInt (sp_TargetPort sp) then IntVal (sp_TargetPort sp) else cp_ContainerPort cp) in
      if ContainsString strPort podPorts then Ret ()
      else Throw (Failure ("service " +:+ svc_Name service +:+ " expects target port " +:+ strPort +:+ " to be opaque; add it to pod " +:+
                           po_Name pod +:+ " " +:+ ProxyOpaquePortsAnnotation +:+ " annotation"))
  | None => Ret ()
  end.

Fixpoint serviceIntPorts (service : Service) (svcPorts : list string) (port : Z) (ports : list ServicePort) : result bool :=
  match ports with
  | [] => Ret false
  | p :: ports =>
      if bool_decide (sp_TargetPort p = FromInt 0 ∧ sp_Port p = port)
      then Throw (Failure ("service " +:+ svc_Name service +:+ " targets the opaque port " +:+ strconv.Itoa port))
      else if bool_decide (IntVal (sp_TargetPort p) = port) then
        if ContainsString (strconv.Itoa (sp_Port p)) svcPorts then Ret true
        else Throw (Failure ("service " +:+ svc_Name service +:+ " targets the opaque port " +:+ strconv.Itoa port +:+ " through " +:+
                             strconv.Itoa (sp_Port p)))
      else serviceIntPorts service svcPorts port ports
  end.
Definition checkServiceIntPorts (service : Service) (svcPorts : list string) (port : Z) : result bool :=
  serviceIntPorts service svcPorts port (svc_Ports service).

Definition checkServiceNamePorts (service : Service) (pod : PodObject) (port : Z) (svcPorts : list string) : result () :=
  let targets := filter (λ p, StrVal (sp_TargetPort p) ≠ "") (svc_Ports service) ≫= λ p, (λ cp, (p, cp)) <$> containerPorts pod in
  match list_find (λ e : ServicePort * ContainerPort,
          cp_ContainerPort e.2 = port ∧ cp_Name e.2 = StrVal (sp_TargetPort e.1)) targets with
  | Some (_, (p, cp)) =>
      if ContainsString (strconv.Itoa (sp_Port p)) svcPorts then Ret ()
      else Throw (Failure ("service " +:+ svc_Name service +:+ " targets the opaque port " +:+ cp_Name cp +:+ " through " +:+
                           strconv.Itoa (sp_Port p)))
  | None => Ret ()
  end.

Definition notAPort (p : string) (pod : PodObject) : error :=
  Failure ("failed to convert " +:+ p +:+ " to port number for pod " +:+ po_Name pod).

(** The two loops of [misconfiguredOpaqueAnnotation]. *)
Fixpoint servicePortsOpaque (service : Service) (pod : PodObject) (podPorts ports : list string) : result () :=
  match ports with
  | [] => Ret ()
  | p :: ports =>
      match strconv.Atoi p with
      | None => Throw (notAPort p pod)
      | Some port =>
          match checkPodPorts service pod podPorts port with
          | Ret _ => servicePortsOpaque service pod podPorts ports
          | other => other
          end
      end
  end.
Fixpoint podPortsOpaque (service : Service) (pod : PodObject) (svcPorts ports : list string) : result () :=
  match ports with
  | [] => Ret ()
  | p :: ports =>
      if ContainsString p svcPorts then podPortsOpaque service pod svcPorts ports
      else match strconv.Atoi p with
           | None => Throw (notAPort p pod)
           | Some port =>
               match checkServiceIntPorts service svcPorts port with
               | Ret true => podPortsOpaque service pod svcPorts ports
               | Ret false =>
                   match checkServiceNamePorts service pod port svcPorts with
                   | Ret _ => podPortsOpaque service pod svcPorts ports
                   | other => other
                   end
               | Throw e => Throw e
               | Crash => Crash
               end
           end
  end.
Definition misconfiguredOpaqueAnnotation (service : Service) (pod : PodObject) : result () :=
  let svcPorts := opaquePorts (svc_Annotations service) in
  let podPorts := opaquePorts (po_Annotations pod) in
  match servicePortsOpaque service pod podPorts svcPorts with
  | Ret _ => podPortsOpaque service pod svcPorts podPorts
  | other => other
  end.
