(* ===== verification/HealthChecks.v ===== *)
(** The health checks: everything [pkg/healthcheck/healthcheck.go] asks the cluster, the state
    the checks share, and the categories they are grouped in.

    [Cluster] is what the API server answers to one attempt of a check, an argument of every
    theorem; decoding YAML is the class [Decoding].  An answer of [Get] that is used although the
    call failed is kept with its object. *)
From S2P Require Import Prelude GoStd K8s PortRange Version PkgK8s Tls IssuerCerts IPNet Health HealthPure.

#[local] Open Scope string_scope.
#[local] Open Scope list_scope.
#[local] Open Scope Z_scope.

(** * Data *)
(** The fields of [l5dcharts.Values] the checks read; pointers are options. *)
Record ConfigValues := mkConfigValues {
  cfg_CNIEnabled : bool; cfg_ClusterNetworks : string; cfg_HighAvailability : bool; cfg_DisableHeartBeat : bool;
  cfg_ProxyInitRunAsRoot : option bool; cfg_IssuerScheme : option string;
  cfg_IdentityTrustAnchorsPEM : string; cfg_LinkerdVersion : string }.
Record ConfigMapObject := mkConfigMap { cm_UID : string; cm_Data : strmap }.
Record NodeCondition := mkNodeCondition { nc_Type : string; nc_Status : string; nc_LastHeartbeatTime : Z }.
Record Node := mkNode { nd_Name : string; nd_PodCIDR : string; nd_Conditions : list NodeCondition; nd_ContainerRuntimeVersion : string }.
(** An object of the install manifest; [None] stands for a block of comments. *)
Record ManifestObject := mkManifestObject { mo_Kind : string; mo_Name : string; mo_Namespace : string }.

Inductive kind := ClusterRoleKind | ClusterRoleBindingKind | ServiceAccountKind | ConfigMapKind | RoleKind | RoleBindingKind
  | MutatingWebhookKind | ValidatingWebhookKind.

(** The errors of a call: the object does not exist, or something else. *)
Inductive callError := CallNotFound (message : string) | CallFailed (message : string).
Definition ofCall (e : callError) : error := match e with CallNotFound m => NotFound m | CallFailed m => Failure m end.

Abbreviation answer A := (callError + A)%type.
Record Cluster := mkCluster {
  c_newAPI : answer ();
  c_version : answer string;
  c_namespace : string → answer ();
  c_configMap : string → string → option ConfigMapObject * option callError;
  c_secret : string → string → answer strmap;
  c_deployment : string → string → answer Z  (* available replicas *);
  c_daemonSet : string → string → option (Z * Z) * option callError  (* desired and ready *);
  c_exists : kind → string → string → answer ();
  c_names : kind → string → string → answer (list string)  (* namespace, selector *);
  c_mutatingWebhooks : string → answer (list string)  (* bundles *);
  c_validatingWebhooks : string → answer (list string);
  c_crd : string → answer (list string);
  c_apiService : string → answer (string * list Condition);
  c_pods : string → string → answer (list PodObject)  (* namespace, selector *);
  c_services : string → answer (list Service);
  c_nodes : answer (list Node);
  c_nodePages : list (answer (list Node))  (* page by page, up to the one without a token *);
  c_replicaSets : string → answer (list (list Condition));
  c_labelled : string → answer (list (string * strmap))  (* namespaces with a label *);
  c_review : string → string → string → string → string → answer reviewStatus;
  c_dryRun : ManifestObject → option callError;
  c_latest : string → answer strmap  (* the response to an installation with this id *);
  c_listerServices : string → answer (list Service);
  c_listerEndpoints : string → string → answer (list EndpointSubset);
  c_listerPod : string → string → answer PodObject }.

Class Decoding := {
  decodeValues : string → answer ConfigValues;
  decodeValuesPointer : string → answer (option ConfigValues);
  decodeCRD : string → answer (string * list string);
  splitDocuments : string → list string  (* at lines that are three dashes *);
  readManifest : string → list (answer (option ManifestObject)) }.

Record HealthChecker := mkHealthChecker {
  ControlPlaneNamespace : string; CNINamespace : string; DataPlaneNamespace : string; VersionOverride : string;
  RetryDeadline : option Z; CNIEnabled : bool; InstallManifest : string; CRDManifest : string;
  kubeAPI : bool; kubeVersion : option string; controlPlanePods : list PodObject; LatestVersions : Channels;
  serverVersion : string; linkerdConfig : option ConfigValues; hc_uuid : string;
  issuerCert : option Cred; trustAnchors : list Certificate; cniDaemonSet : option (Z * Z) }.

Definition set_kubeAPI (h : HealthChecker) : HealthChecker :=
  mkHealthChecker (ControlPlaneNamespace h) (CNINamespace h) (DataPlaneNamespace h) (VersionOverride h) (RetryDeadline h) (CNIEnabled h)
    (InstallManifest h) (CRDManifest h) true (kubeVersion h) (controlPlanePods h) (LatestVersions h) (serverVersion h)
    (linkerdConfig h) (hc_uuid h) (issuerCert h) (trustAnchors h) (cniDaemonSet h).
Definition set_kubeVersion (v : option string) (h : HealthChecker) : HealthChecker :=
  mkHealthChecker (ControlPlaneNamespace h) (CNINamespace h) (DataPlaneNamespace h) (VersionOverride h) (RetryDeadline h) (CNIEnabled h)
    (InstallManifest h) (CRDManifest h) (kubeAPI h) v (controlPlanePods h) (LatestVersions h) (serverVersion h)
    (linkerdConfig h) (hc_uuid h) (issuerCert h) (trustAnchors h) (cniDaemonSet h).
Definition set_controlPlanePods (l : list PodObject) (h : HealthChecker) : HealthChecker :=
  mkHealthChecker (ControlPlaneNamespace h) (CNINamespace h) (DataPlaneNamespace h) (VersionOverride h) (RetryDeadline h) (CNIEnabled h)
    (InstallManifest h) (CRDManifest h) (kubeAPI h) (kubeVersion h) l (LatestVersions h) (serverVersion h)
    (linkerdConfig h) (hc_uuid h) (issuerCert h) (trustAnchors h) (cniDaemonSet h).
Definition set_LatestVersions (v : Channels) (h : HealthChecker) : HealthChecker :=
  mkHealthChecker (ControlPlaneNamespace h) (CNINamespace h) (DataPlaneNamespace h) (VersionOverride h) (RetryDeadline h) (CNIEnabled h)
    (InstallManifest h) (CRDManifest h) (kubeAPI h) (kubeVersion h) (controlPlanePods h) v (serverVersion h)
    (linkerdConfig h) (hc_uuid h) (issuerCert h) (trustAnchors h) (cniDaemonSet h).
Definition set_serverVersion (v : string) (h : HealthChecker) : HealthChecker :=
  mkHealthChecker (ControlPlaneNamespace h) (CNINamespace h) (DataPlaneNamespace h) (VersionOverride h) (RetryDeadline h) (CNIEnabled h)
    (InstallManifest h) (CRDManifest h) (kubeAPI h) (kubeVersion h) (controlPlanePods h) (LatestVersions h) v
    (linkerdConfig h) (hc_uuid h) (issuerCert h) (trustAnchors h) (cniDaemonSet h).
(** [CNIEnabled] follows the configuration, if there is one. *)
Definition set_config (u : string) (v : option ConfigValues) (h : HealthChecker) : HealthChecker :=
  mkHealthChecker (ControlPlaneNamespace h) (CNINamespace h) (DataPlaneNamespace h) (VersionOverride h) (RetryDeadline h)
    (match v with Some c => cfg_CNIEnabled c | None => CNIEnabled h end)
    (InstallManifest h) (CRDManifest h) (kubeAPI h) (kubeVersion h) (controlPlanePods h) (LatestVersions h) (serverVersion h)
    v u (issuerCert h) (trustAnchors h) (cniDaemonSet h).
Definition set_identity (c : option Cred) (a : list Certificate) (h : HealthChecker) : HealthChecker :=
  mkHealthChecker (ControlPlaneNamespace h) (CNINamespace h) (DataPlaneNamespace h) (VersionOverride h) (RetryDeadline h) (CNIEnabled h)
    (InstallManifest h) (CRDManifest h) (kubeAPI h) (kubeVersion h) (controlPlanePods h) (LatestVersions h) (serverVersion h)
    (linkerdConfig h) (hc_uuid h) c a (cniDaemonSet h).
Definition set_cniDaemonSet (d : option (Z * Z)) (h : HealthChecker) : HealthChecker :=
  mkHealthChecker (ControlPlaneNamespace h) (CNINamespace h) (DataPlaneNamespace h) (VersionOverride h) (RetryDeadline h) (CNIEnabled h)
    (InstallManifest h) (CRDManifest h) (kubeAPI h) (kubeVersion h) (controlPlanePods h) (LatestVersions h) (serverVersion h)
    (linkerdConfig h) (hc_uuid h) (issuerCert h) (trustAnchors h) d.

Definition H (A : Type) : Type := M HealthChecker Cluster A.
#[export] Instance H_ret : MRet H := M_ret.
#[export] Instance H_bind : MBind H := M_bind.

(** * Calls *)
(** The client is nil until it was initialised: a call on it then crashes. *)
Definition client : H Cluster := λ hc c _, (if kubeAPI hc then Ret c else Crash, hc).
Definition ofAnswer {A} (a : answer A) : result A := match a with inr a => Ret a | inl e => Throw (ofCall e) end.
Definition call {A} (f : Cluster → answer A) : H A := c ← client; lift (ofAnswer (f c)).

(** [Get] of an object whose error is looked at before the object. *)
Definition ofGet {A} (a : option A * option callError) : result A :=
  match a with (_, Some e) => Throw (ofCall e) | (Some o, None) => Ret o | (None, None) => Crash end.
Definition getConfigMap (ns name : string) : H ConfigMapObject := c ← client; lift (ofGet (c_configMap c ns name)).

Definition NamespaceExists (ns : string) : H bool :=
  r ← try (call (λ c, c_namespace c ns));
  match r with inr _ => mret true | inl e => if IsNotFound e then mret false else throw e end.
Definition CheckNamespace (ns : string) (shouldExist : bool) : H () :=
  exists_ ← NamespaceExists ns;
  if shouldExist && negb exists_ then fail ("The " +:+ ns +:+ " namespace does not exist")
  else if negb shouldExist && exists_ then fail ("The " +:+ ns +:+ " namespace already exists")
  else mret ().

Definition controlPlaneComponentsSelector : string := "linkerd.io/control-plane-ns,!linkerd.io/cni-resource".

Section checks.
Context `{!MapRange} `{!Decoding} `{!X509} `{!PEM} `{!Algorithms} (version : string).

(** * Configuration *)
Definition FetchCurrentConfiguration (ns : string) : H (ConfigMapObject * option ConfigValues) :=
  configMap ← getConfigMap ns "linkerd-config";
  let rawValues := get (cm_Data configMap) "values" in
  if bool_decide (rawValues = "") then mret (configMap, None)
  else values ← lift (ofAnswer (decodeValues rawValues)); mret (configMap, Some values).

Definition checkLinkerdConfigConfigMap : H (string * option ConfigValues) :=
  ns ← gets ControlPlaneNamespace; r ← FetchCurrentConfiguration ns; mret (cm_UID r.1, r.2).
Definition InitializeLinkerdGlobalConfig : H () := r ← checkLinkerdConfigConfigMap; modify (set_config r.1 r.2).
Definition InitializeKubeAPIClient : H () := λ hc c _,
  match c_newAPI c with inr _ => (Ret (), set_kubeAPI hc) | inl e => (Throw (ofCall e), hc) end.

Definition GetServerVersion (ns : string) : H string :=
  r ← try (getConfigMap ns "linkerd-config");
  match r with
  | inl e => throw (Wrapped "failed to fetch linkerd-config" e)
  | inr cm =>
      match cm_Data cm !! "values" with
      | None => fail "failed to load values from linkerd-config"
      | Some raw =>
          match decodeValuesPointer raw with
          | inl e => throw (Wrapped "failed to load values from linkerd-config" (ofCall e))
          | inr None => crash
          | inr (Some values) => mret (cfg_LinkerdVersion values)
          end
      end
  end.

(** [hc.linkerdConfig.X] of a configuration that is nil. *)
Definition config {A} (f : ConfigValues → A) : H A :=
  o ← gets linkerdConfig; match o with Some v => mret (f v) | None => crash end.

Definition CheckIfLinkerdExists (ns : string) : H bool :=
  r ← try (call (λ c, c_namespace c ns));
  match r with
  | inl e => if IsNotFound e then mret false else throw e
  | inr _ =>
      r ← try (FetchCurrentConfiguration ns);
      match r with
      | inl e => if IsNotFound e then mret false else throw e
      | inr _ => mret true
      end
  end.

(** * Resources *)
Definition checkKind (k : kind) (resourceName ns selector : string) (expected : list string) (shouldExist : bool) : H () :=
  names ← call (λ c, c_names c k ns selector); lift (checkResources resourceName names expected shouldExist).
Definition CheckClusterRoles (shouldExist : bool) (expected : list string) (selector : string) : H () :=
  checkKind ClusterRoleKind "ClusterRoles" "" selector expected shouldExist.
Definition CheckClusterRoleBindings (shouldExist : bool) (expected : list string) (selector : string) : H () :=
  checkKind ClusterRoleBindingKind "ClusterRoleBindings" "" selector expected shouldExist.
Definition CheckConfigMaps (ns : string) (shouldExist : bool) (expected : list string) (selector : string) : H () :=
  checkKind ConfigMapKind "ConfigMaps" ns selector expected shouldExist.
Definition CheckServiceAccounts (expected : list string) (ns selector : string) : H () :=
  checkKind ServiceAccountKind "ServiceAccounts" ns selector expected true.
Definition CheckRoles (shouldExist : bool) (ns : string) (expected : list string) (selector : string) : H () :=
  checkKind RoleKind "Roles" ns selector expected shouldExist.
Definition CheckRoleBindings (shouldExist : bool) (ns : string) (expected : list string) (selector : string) : H () :=
  checkKind RoleBindingKind "RoleBindings" ns selector expected shouldExist.
Definition checkMutatingWebhookConfigurations (shouldExist : bool) : H () :=
  checkKind MutatingWebhookKind "MutatingWebhookConfigurations" "" controlPlaneComponentsSelector
    ["linkerd-proxy-injector-webhook-config"] shouldExist.
Definition checkValidatingWebhookConfigurations (shouldExist : bool) : H () :=
  checkKind ValidatingWebhookKind "ValidatingWebhookConfigurations" "" controlPlaneComponentsSelector
    ["linkerd-sp-validator-webhook-config"] shouldExist.
Definition expectedRBACNames (ns : string) : list string :=
  ["linkerd-" +:+ ns +:+ "-identity"; "linkerd-" +:+ ns +:+ "-proxy-injector"].
Definition ExpectedServiceAccountNames : list string := ["linkerd-destination"; "linkerd-identity"; "linkerd-proxy-injector"].

(** The names and last versions of the definitions in the manifest. *)
Fixpoint expectedCRDs (docs : list string) : result (list (string * string)) :=
  match docs with
  | [] => Ret []
  | doc :: docs =>
      match decodeCRD doc with
      | inl e => Throw (ofCall e)
      | inr (name, versions) =>
          match expectedCRDs docs with
          | Ret rest => match last versions with Some v => Ret ((name, v) :: rest) | None => Ret rest end
          | other => other
          end
      end
  end.
Fixpoint missingCRDs (crds : list (string * string)) : H (list string) :=
  match crds with
  | [] => mret []
  | (name, v) :: crds =>
      r ← try (call (λ c, c_crd c name));
      match r with
      | inl e => if IsNotFound e then rest ← missingCRDs crds; mret (("missing " +:+ name) :: rest) else throw e
      | inr versions =>
          rest ← missingCRDs crds;
          mret (if crdHasVersion versions v then rest else ("CRD " +:+ name +:+ " is missing version " +:+ v) :: rest)
      end
  end.
Definition CheckCustomResourceDefinitions (expectedCRDManifests : string) : H () :=
  crds ← lift (expectedCRDs (splitDocuments expectedCRDManifests));
  errMsgs ← missingCRDs crds;
  if bool_decide (errMsgs ≠ []) then fail (strings.Join errMsgs ", ") else mret ().

Definition CheckAPIService (serviceName : string) : H () :=
  st ← call (λ c, c_apiService c serviceName);
  match list_find (λ c, cond_Type c = "Available") st.2 with
  | Some (_, c) => if bool_decide (cond_Status c = "True") then mret () else fail (cond_Reason c +:+ ": " +:+ cond_Message c)
  | None => fail (st.1 +:+ " service not available")
  end.

Definition linkerdHAControlPlaneComponents : list string := ["linkerd-destination"; "linkerd-identity"; "linkerd-proxy-injector"].
Fixpoint faultyDeployments (ns : string) (components : list string) : H (list string) :=
  match components with
  | [] => mret []
  | component :: components =>
      n ← call (λ c, c_deployment c ns component);
      rest ← faultyDeployments ns components;
      mret (if n <=? 1 then component :: rest else rest)
  end.
Definition checkMinReplicasAvailable : H () :=
  ns ← gets ControlPlaneNamespace;
  faulty ← faultyDeployments ns linkerdHAControlPlaneComponents;
  if bool_decide (faulty ≠ []) then fail ("not enough replicas available for " +:+ strings.Join faulty " ") else mret ().

(** * Permissions *)
Definition CheckCanPerformAction (verb ns group ver resource : string) : H () :=
  initialised ← gets kubeAPI;
  if negb initialised then fail "unexpected error: Kubernetes ClientSet not initialized"
  else st ← call (λ c, c_review c ns verb group ver resource); lift (ofRes (evaluateAccessReviewStatus group resource st)).
Definition checkCanCreate (group ver resource : string) : H () :=
  ns ← gets ControlPlaneNamespace; CheckCanPerformAction "create" ns group ver resource.
Definition checkCanGet (group ver resource : string) : H () :=
  ns ← gets ControlPlaneNamespace; CheckCanPerformAction "get" ns group ver resource.

Fixpoint dryRuns (docs : list (answer (option ManifestObject))) : H (list string) :=
  match docs with
  | [] => mret []
  | inl e :: _ => throw (Wrapped "error reading install manifest" (ofCall e))
  | inr None :: docs => dryRuns docs
  | inr (Some o) :: docs =>
      if bool_decide (mo_Namespace o ≠ "") then dryRuns docs
      else c ← client; rest ← dryRuns docs;
           mret (match c_dryRun c o with
                 | Some e => ("cannot create " +:+ mo_Kind o +:+ "/" +:+ mo_Name o +:+ ": " +:+ Error (ofCall e)) :: rest
                 | None => rest
                 end)
  end.
Definition checkCanCreateNonNamespacedResources : H () :=
  manifest ← gets InstallManifest;
  errs ← dryRuns (readManifest manifest);
  if bool_decide (errs ≠ []) then fail (strings.Join errs "; ") else mret ().

Definition checkExtensionAPIServerAuthentication : H () :=
  initialised ← gets kubeAPI;
  if negb initialised then fail "unexpected error: Kubernetes ClientSet not initialized"
  else m ← getConfigMap "kube-system" "extension-apiserver-authentication";
       if bool_decide (get (cm_Data m) "requestheader-client-ca-file" = "") then fail "--requestheader-client-ca-file is not configured"
       else mret ().

(** * Clocks, namespaces of extensions, container runtimes *)
Definition AllowedClockSkew : Z := 5 * 60 * second + DefaultClockSkewAllowance.
Definition skewed (now : Z) (c : NodeCondition) : bool :=
  bool_decide (nc_Type c = "Ready" ∧ nc_Status c = "True")
  && ((AllowedClockSkew <? now - nc_LastHeartbeatTime c) || (now - nc_LastHeartbeatTime c <? - AllowedClockSkew)).
Definition clockSkewNodes (now : Z) (nodes : list Node) : list string :=
  nodes ≫= λ node, (λ _, nd_Name node) <$> filter (λ c, skewed now c = true) (nd_Conditions node).
Definition checkClockSkew : H () :=
  initialised ← gets kubeAPI;
  if negb initialised then fail "unexpected error: Kubernetes ClientSet not initialized"
  else nodes ← call c_nodes; now ← timeNow;
       let skew := clockSkewNodes now nodes in
       if bool_decide (skew ≠ []) then fail ("clock skew detected for node(s): " +:+ strings.Join skew ", ") else mret ().

Definition extensionFrequencies (namespaces : list (string * strmap)) : gmap string (list string) :=
  foldl (λ freq ns, let ext := get ns.2 "linkerd.io/extension" in <[ext := default [] (freq !! ext) ++ [ns.1]]> freq) ∅ namespaces.
Definition duplicatedExtensions (namespaces : list (string * strmap)) : list (string * list string) :=
  filter (λ e, length e.2 ≠ 1%nat) (range (extensionFrequencies namespaces)).
Definition checkExtensionNsLabels : H () :=
  initialised ← gets kubeAPI;
  if negb initialised then fail "unexpected error: Kubernetes ClientSet not initialized"
  else r ← try (call (λ c, c_labelled c "linkerd.io/extension"));
       match r with
       | inl e => throw (Wrapped "unexpected error when retrieving namespaces" e)
       | inr namespaces =>
           let errs := (λ e, "label linkerd.io/extension=" +:+ e.1 +:+ " is present on more than one namespace: " +:+ strings.Join e.2 " ")
                         <$> duplicatedExtensions namespaces in
           if bool_decide (errs ≠ []) then fail ("some extensions have invalid configuration: " +:+ strings.Join errs "; ") else mret ()
       end.

Fixpoint dockerNodes (pages : list (answer (list Node))) : result bool :=
  match pages with
  | [] => Ret false
  | inl e :: _ => Throw (ofCall e)
  | inr nodes :: pages =>
      match dockerNodes pages with
      | Ret rest => Ret (existsb (λ n, strings.HasPrefix (nd_ContainerRuntimeVersion n) "docker:") nodes || rest)
      | other => other
      end
  end.
Definition CheckNodesHaveNonDockerRuntime : H () :=
  c ← client; hasDockerNodes ← lift (dockerNodes (c_nodePages c));
  if (hasDockerNodes : bool)
  then fail "there are nodes using the docker container runtime and proxy-init container must run as root user."
  else mret ().

(** * Cluster networks *)
Definition ParseNet (s : string) : result (list Z * IPNet) :=
  match ParseCIDR s with Some n => Ret n | None => Throw (Failure ("invalid CIDR address: " +:+ s)) end.
Fixpoint parseNets (l : list string) : result (list (list Z * IPNet)) :=
  match l with
  | [] => Ret []
  | s :: l => match ParseNet s with
              | Ret n => match parseNets l with Ret ns => Ret (n :: ns) | Throw e => Throw e | Crash => Crash end
              | Throw e => Throw e
              | Crash => Crash
              end
  end.
Definition clusterIPNets : H (list IPNet) :=
  networks ← config cfg_ClusterNetworks; nets ← lift (parseNets (strings.Split networks ",")); mret nets.*2.

Definition badPodCIDRs (nets : list IPNet) (cidrs : list string) : result (list string) :=
  match parseNets cidrs with
  | Ret ns => Ret ((filter (λ e, cluterNetworksContainCIDR nets e.2.2 e.2.1 = false) (zip cidrs ns)).*1)
  | Throw e => Throw e
  | Crash => Crash
  end.
Definition checkClusterNetworks : H () :=
  nodes ← call c_nodes;
  nets ← clusterIPNets;
  let cidrs := filter (λ s, s ≠ "") (nd_PodCIDR <$> nodes) in
  bad ← lift (badPodCIDRs nets cidrs);
  if bool_decide (cidrs = []) then throw (SkipError "skipping check because the nodes aren't exposing podCIDR")
  else if bool_decide (bad ≠ [])
  then fail ("node has podCIDR(s) " +:+ strings.Join (merge_sort String.le bad) " " +:+ " which are not contained in the Linkerd clusterNetworks.")
  else mret ().
Definition checkClusterNetworksContainAllPods : H () :=
  nets ← clusterIPNets;
  pods ← call (λ c, c_pods c "" "");
  match list_find (λ pod, po_HostNetwork pod = false ∧ po_PodIP pod ≠ "" ∧ clusterNetworksContainIP nets (po_PodIP pod) = false) pods with
  | Some (_, pod) => fail ("the Linkerd clusterNetworks do not include pod " +:+ po_Namespace pod +:+ "/" +:+ po_Name pod)
  | None => mret ()
  end.
Definition checkClusterNetworksContainAllServices : H () :=
  nets ← clusterIPNets;
  svcs ← call (λ c, c_services c "");
  match list_find (λ svc, svc_ClusterIP svc ≠ "" ∧ svc_ClusterIP svc ≠ "None" ∧ clusterNetworksContainIP nets (svc_ClusterIP svc) = false) svcs with
  | Some (_, svc) => fail ("the Linkerd clusterNetworks do not include svc " +:+ svc_Namespace svc +:+ "/" +:+ svc_Name svc)
  | None => mret ()
  end.

(** * Certificates *)
Definition checkCertificatesConfig : H (Cred * list Certificate) :=
  ns ← gets ControlPlaneNamespace;
  r ← FetchCurrentConfiguration ns;
  match r.2 with
  | None => crash
  | Some values =>
      match cfg_IssuerScheme values with
      | None => crash
      | Some scheme =>
          secret ← call (λ c, c_secret c ns "linkerd-identity-issuer");
          data ← lift (ofRes (if bool_decide (scheme = "" ∨ scheme = "linkerd.io/tls")
                              then FetchIssuerData secret (cfg_IdentityTrustAnchorsPEM values)
                              else FetchExternalIssuerData secret));
          issuerCreds ← lift (ofRes (ValidateAndCreateCreds (ic_IssuerCrt data) (ic_IssuerKey data)));
          anchors ← lift (ofRes (DecodePEMCertificates (ic_TrustAnchors data)));
          mret (issuerCreds, anchors)
      end
  end.

Definition fetchProxyInjectorCaBundle : H (list Certificate) :=
  ws ← call (λ c, c_mutatingWebhooks c "linkerd-proxy-injector-webhook-config");
  match ws with [b] => lift (ofRes (DecodePEMCertificates b)) | _ => fail "expected 1 webhooks" end.
Definition fetchWebhookCaBundle (webhook : string) : H (list Certificate) :=
  ws ← call (λ c, c_validatingWebhooks c webhook);
  match ws with [b] => lift (ofRes (DecodePEMCertificates b)) | _ => fail "expected 1 webhooks" end.
Definition credsOfSecret (crtKey keyKey ns secretName : string) : H Cred :=
  data ← call (λ c, c_secret c ns secretName);
  match data !! crtKey, data !! keyKey with
  | None, _ => fail ("key " +:+ crtKey +:+ " needs to exist in secret " +:+ secretName)
  | _, None => fail ("key " +:+ keyKey +:+ " needs to exist in secret " +:+ secretName)
  | Some crt, Some key => lift (ofRes (ValidateAndCreateCreds crt key))
  end.
Definition FetchCredsFromSecret (ns secretName : string) : H Cred := credsOfSecret "tls.crt" "tls.key" ns secretName.
Definition FetchCredsFromOldSecret (ns secretName : string) : H Cred := credsOfSecret "crt.pem" "key.pem" ns secretName.
(** The secret of the current name, or of the old one. *)
Definition FetchCreds (ns secretName oldSecretName : string) : H Cred :=
  r ← try (FetchCredsFromSecret ns secretName);
  match r with
  | inr cred => mret cred
  | inl e => if IsNotFound e then FetchCredsFromOldSecret ns oldSecretName else throw e
  end.

Definition failing (f : Certificate → res ()) (certs : list Certificate) : list Certificate := filter (λ c, is_ok (f c) = false) certs.
Definition CheckCertAndAnchors (cred : Cred) (anchors : list Certificate) (identityName : string) : H () :=
  now ← timeNow;
  if bool_decide (failing (CheckCertValidityPeriod now) anchors ≠ []) then fail "anchors not within their validity period"
  else if negb (is_ok (CheckCertValidityPeriod now (crtCertificate (credCrt cred)))) then fail "certificate is not within its validity period"
  else match Verify (credCrt cred) anchors identityName now with
       | Some _ => fail "cert is not issued by the trust anchor"
       | None => mret ()
       end.
Definition CheckCertAndAnchorsExpiringSoon (cred : Cred) : H () :=
  now ← timeNow;
  if bool_decide (failing (CheckExpiringSoon now) (TrustChain (credCrt cred)) ≠ []) then fail "Anchors expiring soon"
  else if negb (is_ok (CheckExpiringSoon now (crtCertificate (credCrt cred)))) then fail "certificate will expire"
  else mret ().

(** * Trust anchors of the proxies *)
Record MeshedPodIdentityData := mkMeshedPod { mp_Name : string; mp_Namespace : string; mp_Anchors : string }.
Definition EnvTrustAnchors : string := "LINKERD2_PROXY_IDENTITY_TRUST_ANCHORS".
Definition meshedPodData (pod : PodObject) : list MeshedPodIdentityData :=
  filter (λ c, pc_Name c = ProxyContainerName) (allContainers pod) ≫= λ c,
  (λ e, mkMeshedPod (po_Name pod) (po_Namespace pod) (strings.TrimSpace (env_Value e))) <$>
    filter (λ e, env_Name e = EnvTrustAnchors) (pc_Env c).
Definition GetMeshedPodsIdentityData (ns : string) : H (list MeshedPodIdentityData) :=
  pods ← call (λ c, c_pods c ns ControllerNSLabel); mret (pods ≫= meshedPodData).
(** The object is read before the error is looked at. *)
Definition FetchTrustBundle (ns : string) : H string :=
  c ← client;
  match c_configMap c ns "linkerd-identity-trust-roots" with
  | (None, _) => crash
  | (Some _, Some e) => throw (ofCall e)
  | (Some cm, None) => mret (get (cm_Data cm) "ca-bundle.crt")
  end.
Definition offendingPods (controlPlaneNS trustAnchorsPem : string) (pods : list MeshedPodIdentityData) : list MeshedPodIdentityData :=
  filter (λ p, mp_Namespace p ≠ controlPlaneNS ∧ strings.TrimSpace (mp_Anchors p) ≠ strings.TrimSpace trustAnchorsPem) pods.
Definition checkPodsProxiesCertificate (targetNamespace controlPlaneNS : string) : H () :=
  meshedPods ← GetMeshedPodsIdentityData targetNamespace;
  trustAnchorsPem ← FetchTrustBundle controlPlaneNS;
  let offending := offendingPods controlPlaneNS trustAnchorsPem meshedPods in
  if bool_decide (offending = []) then mret ()
  else fail ("Some pods do not have the current trust bundle and must be restarted: " +:+
             strings.Join ((λ p, if bool_decide (targetNamespace = "") then mp_Namespace p +:+ "/" +:+ mp_Name p else mp_Name p) <$> offending) " ").
Definition CheckProxyHealth (controlPlaneNS ns : string) : H () :=
  pods ← call (λ c, c_pods c ns ControllerNSLabel);
  lift (CheckPodsRunning pods controlPlaneNS);;
  checkPodsProxiesCertificate ns controlPlaneNS.

(** * Data plane *)
Definition GetDataPlanePods : H (list PodObject) :=
  cns ← gets ControlPlaneNamespace; dns ← gets DataPlaneNamespace;
  call (λ c, c_pods c dns (ControllerNSLabel +:+ "=" +:+ cns)).
Definition GetServices : H (list Service) := dns ← gets DataPlaneNamespace; call (λ c, c_services c dns).

(** The pods an object of endpoints targets, each once. *)
Fixpoint podsNamed (ns : string) (names : list string) : H (list PodObject) :=
  match names with
  | [] => mret []
  | n :: names => pod ← call (λ c, c_listerPod c ns n); rest ← podsNamed ns names; mret (pod :: rest)
  end.
Definition targetNames (subsets : list EndpointSubset) : list string :=
  subsets ≫= λ s, omap (λ a, match ea_TargetRef a with
                             | Some r => if bool_decide (ref_Kind r = "Pod") then Some (ref_Name r) else None
                             | None => None
                             end) (es_Addresses s).
Definition getEndpointsPods (ns : string) (subsets : list EndpointSubset) : H (gmap string PodObject) :=
  let names := targetNames subsets in pods ← podsNamed ns names; mret (list_to_map (zip names pods)).
Fixpoint opaqueErrors (services : list Service) : H (list string) :=
  match services with
  | [] => mret []
  | service :: services =>
      if bool_decide (svc_ClusterIP service = "None") then opaqueErrors services
      else
        endpoints ← call (λ c, c_listerEndpoints c (svc_Namespace service) (svc_Name service));
        pods ← getEndpointsPods (svc_Namespace service) endpoints;
        rest ← opaqueErrors services;
        mret (omap (λ e, match misconfiguredOpaqueAnnotation service e.2 with Throw err => Some (Error err) | _ => None end) (range pods) ++ rest)
  end.
Definition checkMisconfiguredOpaquePortAnnotations : H () :=
  dns ← gets DataPlaneNamespace;
  services ← call (λ c, c_listerServices c dns);
  errStrings ← opaqueErrors services;
  if bool_decide (errStrings ≠ []) then fail (strings.Join errStrings "; ") else mret ().

(** * Categories *)
(** [hc.x, err = f()]: the field is also assigned, with the zero value, when the call fails. *)
Definition assign {A} (m : H A) (set : option A → HealthChecker → HealthChecker) : H () :=
  r ← try m;
  match r with inr a => modify (set (Some a)) | inl e => modify (set None);; throw e end.

Definition KubernetesAPIChecks : string := "kubernetes-api".
Definition KubernetesVersionChecks : string := "kubernetes-version".
Definition LinkerdPreInstallChecks : string := "pre-kubernetes-setup".
Definition LinkerdCRDChecks : string := "linkerd-crd".
Definition LinkerdConfigChecks : string := "linkerd-config".
Definition LinkerdIdentity : string := "linkerd-identity".
Definition LinkerdWebhooksAndAPISvcTLS : string := "linkerd-webhooks-and-apisvc-tls".
Definition LinkerdIdentityDataPlane : string := "linkerd-identity-data-plane".
Definition LinkerdControlPlaneExistenceChecks : string := "linkerd-existence".
Definition LinkerdVersionChecks : string := "linkerd-version".
Definition LinkerdControlPlaneVersionChecks : string := "control-plane-version".
Definition LinkerdDataPlaneChecks : string := "linkerd-data-plane".
Definition LinkerdControlPlaneProxyChecks : string := "linkerd-control-plane-proxy".
Definition LinkerdHAChecks : string := "linkerd-ha-checks".
Definition LinkerdCNIPluginChecks : string := "linkerd-cni-plugin".
Definition LinkerdExtensionChecks : string := "linkerd-extension-checks".

Abbreviation checker_ := (Checker HealthChecker Cluster).
Abbreviation category_ := (Category HealthChecker Cluster).

(** A checker, one that is fatal, one that warns. *)
Definition plainCheck (description hint : string) (f : H ()) : checker_ := WithCheck f (WithHintAnchor hint (NewChecker description)).
Definition fatalCheck (description hint : string) (f : H ()) : checker_ := Fatal (plainCheck description hint f).
Definition warningCheck (description hint : string) (f : H ()) : checker_ := Warning (plainCheck description hint f).

Definition kubernetesAPICategory : category_ :=
  NewCategory version KubernetesAPIChecks
    [fatalCheck "can initialize the client" "k8s-api" InitializeKubeAPIClient;
     fatalCheck "can query the Kubernetes API" "k8s-api" (assign (call c_version) set_kubeVersion)] false.

Definition kubernetesVersionCategory : category_ :=
  NewCategory version KubernetesVersionChecks
    [plainCheck "is running the minimum Kubernetes API version" "k8s-version"
       (v ← gets kubeVersion; match v with Some v => lift (ofRes (CheckVersion v)) | None => crash end)] false.

Definition preInstallCategory : category_ :=
  NewCategory version LinkerdPreInstallChecks
    [plainCheck "control plane namespace does not already exist" "pre-ns"
       (ns ← gets ControlPlaneNamespace; CheckNamespace ns false);
     plainCheck "can create non-namespaced resources" "pre-k8s-cluster-k8s" checkCanCreateNonNamespacedResources;
     plainCheck "can create ServiceAccounts" "pre-k8s" (checkCanCreate "" "v1" "serviceaccounts");
     plainCheck "can create Services" "pre-k8s" (checkCanCreate "" "v1" "services");
     plainCheck "can create Deployments" "pre-k8s" (checkCanCreate "apps" "v1" "deployments");
     plainCheck "can create CronJobs" "pre-k8s" (checkCanCreate "batch" "v1beta1" "cronjobs");
     plainCheck "can create ConfigMaps" "pre-k8s" (checkCanCreate "" "v1" "configmaps");
     plainCheck "can create Secrets" "pre-k8s" (checkCanCreate "" "v1" "secrets");
     plainCheck "can read Secrets" "pre-k8s" (checkCanGet "" "v1" "secrets");
     plainCheck "can read extension-apiserver-authentication configmap" "pre-k8s" checkExtensionAPIServerAuthentication;
     warningCheck "no clock skew detected" "pre-k8s-clock-skew" checkClockSkew] false.

Definition checkCRDs : H () := crds ← gets CRDManifest; CheckCustomResourceDefinitions crds.
Definition crdCategory (deadline : option Z) : category_ :=
  NewCategory version LinkerdCRDChecks
    [WithRetryDeadline deadline (fatalCheck "control plane CustomResourceDefinitions exist" "l5d-existence-crd" checkCRDs)] false.

Definition existenceCategory (deadline : option Z) : category_ :=
  NewCategory version LinkerdControlPlaneExistenceChecks
    [fatalCheck "'linkerd-config' config map exists" "l5d-existence-linkerd-config" InitializeLinkerdGlobalConfig;
     fatalCheck "heartbeat ServiceAccount exist" "l5d-existence-sa"
       (disabled ← config cfg_DisableHeartBeat; ns ← gets ControlPlaneNamespace;
        if (disabled : bool) then mret () else CheckServiceAccounts ["linkerd-heartbeat"] ns controlPlaneComponentsSelector);
     WithRetryDeadline deadline (fatalCheck "control plane replica sets are ready" "l5d-existence-replicasets"
       (ns ← gets ControlPlaneNamespace; rs ← call (λ c, c_replicaSets c ns); lift (checkControlPlaneReplicaSets rs)));
     SurfaceErrorOnRetry (WithRetryDeadline deadline (warningCheck "no unschedulable pods" "l5d-existence-unschedulable-pods"
       (ns ← gets ControlPlaneNamespace; pods ← call (λ c, c_pods c ns ""); lift (checkUnschedulablePods pods))));
     SurfaceErrorOnRetry (WithRetryDeadline deadline (fatalCheck "control plane pods are ready" "l5d-api-control-ready"
       (ns ← gets ControlPlaneNamespace; pods ← call (λ c, c_pods c ns "linkerd.io/control-plane-component");
        modify (set_controlPlanePods pods);; lift (validateControlPlanePods pods))));
     plainCheck "cluster networks contains all node podCIDRs" "l5d-cluster-networks-cidr"
       (InitializeLinkerdGlobalConfig;; checkClusterNetworks);
     plainCheck "cluster networks contains all pods" "l5d-cluster-networks-pods" checkClusterNetworksContainAllPods;
     plainCheck "cluster networks contains all services" "l5d-cluster-networks-pods" checkClusterNetworksContainAllServices] false.

(** The configuration is read again, for a run that has not read it. *)
Definition checkRunAsRoot : H () :=
  r ← try InitializeLinkerdGlobalConfig;
  match r with
  | inl e => if IsNotFound e then throw (SkipError "skipping check because ConigMap does not exist") else throw e
  | inr _ =>
      o ← gets linkerdConfig;
      if bool_decide (o ≫= cfg_ProxyInitRunAsRoot = Some true) then mret () else CheckNodesHaveNonDockerRuntime
  end.
Definition configCategory : category_ :=
  NewCategory version LinkerdConfigChecks
    [fatalCheck "control plane Namespace exists" "l5d-existence-ns" (ns ← gets ControlPlaneNamespace; CheckNamespace ns true);
     fatalCheck "control plane ClusterRoles exist" "l5d-existence-cr"
       (ns ← gets ControlPlaneNamespace; CheckClusterRoles true (expectedRBACNames ns) controlPlaneComponentsSelector);
     fatalCheck "control plane ClusterRoleBindings exist" "l5d-existence-crb"
       (ns ← gets ControlPlaneNamespace; CheckClusterRoleBindings true (expectedRBACNames ns) controlPlaneComponentsSelector);
     fatalCheck "control plane ServiceAccounts exist" "l5d-existence-sa"
       (ns ← gets ControlPlaneNamespace; CheckServiceAccounts ExpectedServiceAccountNames ns controlPlaneComponentsSelector);
     fatalCheck "control plane CustomResourceDefinitions exist" "l5d-existence-crd" checkCRDs;
     fatalCheck "control plane MutatingWebhookConfigurations exist" "l5d-existence-mwc" (checkMutatingWebhookConfigurations true);
     fatalCheck "control plane ValidatingWebhookConfigurations exist" "l5d-existence-vwc" (checkValidatingWebhookConfigurations true);
     plainCheck "proxy-init container runs as root user if docker container runtime is used" "l5d-proxy-init-run-as-root" checkRunAsRoot] false.

Definition linkerdCNIResourceName : string := "linkerd-cni".
Definition whenCNI (m : string → H ()) : H () :=
  enabled_ ← gets CNIEnabled; ns ← gets CNINamespace;
  if negb enabled_ then throw (SkipError "skipping check because CNI is not enabled") else m ns.
(** The object exists; if not, the error says so. *)
Definition checkExists (k : kind) (what ns : string) : H () :=
  r ← try (call (λ c, c_exists c k ns linkerdCNIResourceName));
  match r with
  | inr _ => mret ()
  | inl e => if IsNotFound e then fail ("missing " +:+ what +:+ ": " +:+ linkerdCNIResourceName) else throw e
  end.
(** The daemon set is stored whether or not the call failed. *)
Definition fetchDaemonSet (ns : string) : H (option callError) :=
  c ← client;
  let '(ds, err) := c_daemonSet c ns linkerdCNIResourceName in
  modify (set_cniDaemonSet ds);;
  match err with
  | Some (CallNotFound _) => fail ("missing DaemonSet: " +:+ linkerdCNIResourceName)
  | Some (CallFailed _) => mret err
  | None => mret err
  end.
Definition checkDaemonSetReady (ns : string) : H () :=
  _ ← fetchDaemonSet ns;
  ds ← gets cniDaemonSet;
  match ds with
  | None => crash
  | Some (scheduled, nready) =>
      if bool_decide (scheduled ≠ nready)
      then fail ("number ready: " +:+ strconv.Itoa nready +:+ ", number scheduled: " +:+ strconv.Itoa scheduled) else mret ()
  end.
Definition cniCategory (deadline : option Z) : category_ :=
  NewCategory version LinkerdCNIPluginChecks
    [fatalCheck "cni plugin ConfigMap exists" "cni-plugin-cm-exists"
       (whenCNI (λ ns, c ← client; match (c_configMap c ns "linkerd-cni-config").2 with Some e => throw (ofCall e) | None => mret () end));
     fatalCheck "cni plugin ClusterRole exists" "cni-plugin-cr-exists" (whenCNI (λ _, checkExists ClusterRoleKind "ClusterRole" ""));
     fatalCheck "cni plugin ClusterRoleBinding exists" "cni-plugin-crb-exists"
       (whenCNI (λ _, checkExists ClusterRoleBindingKind "ClusterRoleBinding" ""));
     fatalCheck "cni plugin ServiceAccount exists" "cni-plugin-sa-exists" (whenCNI (checkExists ServiceAccountKind "ServiceAccount"));
     fatalCheck "cni plugin DaemonSet exists" "cni-plugin-ds-exists"
       (whenCNI (λ ns, err ← fetchDaemonSet ns; match err with Some e => throw (ofCall e) | None => mret () end));
     SurfaceErrorOnRetry (WithRetryDeadline deadline (fatalCheck "cni plugin pod is running on all nodes" "cni-plugin-ready"
       (whenCNI checkDaemonSetReady)))] false.

(** A condition on all trust anchors, and one on the issuer's certificate. *)
Definition checkAnchors (f : Z → Certificate → res ()) (message : string) : H () :=
  now ← timeNow; anchors ← gets trustAnchors;
  if bool_decide (failing (f now) anchors ≠ []) then fail message else mret ().
Definition issuerCertificate : H Cred := o ← gets issuerCert; match o with Some c => mret c | None => crash end.
Definition checkIssuer (f : Z → Certificate → res ()) (message : string) : H () :=
  now ← timeNow; cred ← issuerCertificate;
  if is_ok (f now (crtCertificate (credCrt cred))) then mret () else fail message.
Definition set_identityResult (r : option (Cred * list Certificate)) : HealthChecker → HealthChecker :=
  match r with Some (c, a) => set_identity (Some c) a | None => set_identity None [] end.
Definition identityCategory : category_ :=
  NewCategory version LinkerdIdentity
    [fatalCheck "certificate config is valid" "l5d-identity-cert-config-valid" (assign checkCertificatesConfig set_identityResult);
     fatalCheck "trust anchors are using supported crypto algorithm" "l5d-identity-trustAnchors-use-supported-crypto"
       (checkAnchors (λ _, CheckTrustAnchorAlgoRequirements) "Invalid trustAnchors");
     fatalCheck "trust anchors are within their validity period" "l5d-identity-trustAnchors-are-time-valid"
       (checkAnchors CheckCertValidityPeriod "Invalid anchors");
     warningCheck "trust anchors are valid for at least 60 days" "l5d-identity-trustAnchors-not-expiring-soon"
       (checkAnchors CheckExpiringSoon "Anchors expiring soon");
     fatalCheck "issuer cert is using supported crypto algorithm" "l5d-identity-issuer-cert-uses-supported-crypto"
       (checkIssuer (λ _, CheckIssuerCertAlgoRequirements) "issuer certificate");
     fatalCheck "issuer cert is within its validity period" "l5d-identity-issuer-cert-is-time-valid"
       (checkIssuer CheckCertValidityPeriod "issuer certificate is not valid");
     warningCheck "issuer cert is valid for at least 60 days" "l5d-identity-issuer-cert-not-expiring-soon"
       (checkIssuer CheckExpiringSoon "issuer certificate will expire");
     plainCheck "issuer cert is issued by the trust anchor" "l5d-identity-issuer-cert-issued-by-trust-anchor"
       (now ← timeNow; cred ← issuerCertificate; anchors ← gets trustAnchors;
        match Verify (credCrt cred) anchors "" now with Some _ => fail "verify" | None => mret () end)] false.

Definition webhookCert (bundle : H (list Certificate)) (secretName oldName service : string) : H () :=
  anchors ← bundle; ns ← gets ControlPlaneNamespace;
  cert ← FetchCreds ns secretName oldName;
  CheckCertAndAnchors cert anchors (service +:+ "." +:+ ns +:+ ".svc").
Definition webhookExpiring (secretName oldName : string) : H () :=
  ns ← gets ControlPlaneNamespace; cert ← FetchCreds ns secretName oldName; CheckCertAndAnchorsExpiringSoon cert.
(** Something that is not found means the validator is not installed. *)
Definition orSkip {A} (m : H A) : H A :=
  r ← try m;
  match r with inr a => mret a | inl e => throw (if IsNotFound e then SkipError "policy-validator not installed" else e) end.
Definition policyValidatorTLSSecretName : string := "linkerd-policy-validator-k8s-tls".
Definition webhooksCategory : category_ :=
  NewCategory version LinkerdWebhooksAndAPISvcTLS
    [fatalCheck "proxy-injector webhook has valid cert" "l5d-proxy-injector-webhook-cert-valid"
       (webhookCert fetchProxyInjectorCaBundle "linkerd-proxy-injector-k8s-tls" "linkerd-proxy-injector-tls" "linkerd-proxy-injector");
     warningCheck "proxy-injector cert is valid for at least 60 days" "l5d-proxy-injector-webhook-cert-not-expiring-soon"
       (webhookExpiring "linkerd-proxy-injector-k8s-tls" "linkerd-proxy-injector-tls");
     fatalCheck "sp-validator webhook has valid cert" "l5d-sp-validator-webhook-cert-valid"
       (webhookCert (fetchWebhookCaBundle "linkerd-sp-validator-webhook-config") "linkerd-sp-validator-k8s-tls"
          "linkerd-sp-validator-tls" "linkerd-sp-validator");
     warningCheck "sp-validator cert is valid for at least 60 days" "l5d-sp-validator-webhook-cert-not-expiring-soon"
       (webhookExpiring "linkerd-sp-validator-k8s-tls" "linkerd-sp-validator-tls");
     fatalCheck "policy-validator webhook has valid cert" "l5d-policy-validator-webhook-cert-valid"
       (anchors ← orSkip (fetchWebhookCaBundle "linkerd-policy-validator-webhook-config"); ns ← gets ControlPlaneNamespace;
        cert ← orSkip (FetchCredsFromSecret ns policyValidatorTLSSecretName);
        CheckCertAndAnchors cert anchors ("linkerd-policy-validator." +:+ ns +:+ ".svc"));
     warningCheck "policy-validator cert is valid for at least 60 days" "l5d-policy-validator-webhook-cert-not-expiring-soon"
       (ns ← gets ControlPlaneNamespace; cert ← orSkip (FetchCredsFromSecret ns policyValidatorTLSSecretName);
        CheckCertAndAnchorsExpiringSoon cert)] false.

Definition identityDataPlaneCategory : category_ :=
  NewCategory version LinkerdIdentityDataPlane
    [warningCheck "data plane proxies certificate match CA" "l5d-identity-data-plane-proxies-certs-match-ca"
       (dns ← gets DataPlaneNamespace; cns ← gets ControlPlaneNamespace; checkPodsProxiesCertificate dns cns)] false.

(** The override, or the answer for the id of the installation; no client is needed. *)
Definition latestVersions : H Channels := λ hc c _,
  (if bool_decide (VersionOverride hc ≠ "") then ofRes (NewChannels (VersionOverride hc))
   else match c_latest c (if bool_decide (hc_uuid hc ≠ "") then hc_uuid hc else "unknown") with
        | inr rsp => ofRes (getLatestVersions rsp)
        | inl e => Throw (ofCall e)
        end, hc).
Definition checkMatch (v : string) : H () := versions ← gets LatestVersions; lift (ofRes (Match versions v)).
Definition versionCategory : category_ :=
  NewCategory version LinkerdVersionChecks
    [warningCheck "can determine the latest version" "l5d-version-latest" (assign latestVersions (λ o, set_LatestVersions (default [] o)));
     warningCheck "cli is up-to-date" "l5d-version-cli" (checkMatch version)] false.

Definition controlPlaneVersionCategory (deadline : option Z) : category_ :=
  NewCategory version LinkerdControlPlaneVersionChecks
    [WithRetryDeadline deadline (fatalCheck "can retrieve the control plane version" "l5d-version-control"
       (ns ← gets ControlPlaneNamespace; assign (GetServerVersion ns) (λ o, set_serverVersion (default "" o))));
     warningCheck "control plane is up-to-date" "l5d-version-control" (v ← gets serverVersion; checkMatch v);
     warningCheck "control plane and cli versions match" "l5d-version-control"
       (v ← gets serverVersion;
        if bool_decide (v ≠ version) then fail ("control plane running " +:+ v +:+ " but cli running " +:+ version) else mret ())] false.

Definition controlPlanePodsOf : H (list PodObject) := ns ← gets ControlPlaneNamespace; call (λ c, c_pods c ns ControllerNSLabel).
Definition upToDate (m : H (list PodObject)) : H () :=
  pods ← m; versions ← gets LatestVersions; lift (CheckProxyVersionsUpToDate pods versions).
Definition controlPlaneProxyCategory (deadline : option Z) : category_ :=
  NewCategory version LinkerdControlPlaneProxyChecks
    [SurfaceErrorOnRetry (WithRetryDeadline deadline (fatalCheck "control plane proxies are healthy" "l5d-cp-proxy-healthy"
       (ns ← gets ControlPlaneNamespace; CheckProxyHealth ns ns)));
     warningCheck "control plane proxies are up-to-date" "l5d-cp-proxy-version" (upToDate controlPlanePodsOf);
     warningCheck "control plane proxies and cli versions match" "l5d-cp-proxy-cli-version"
       (pods ← controlPlanePodsOf; lift (CheckIfProxyVersionsMatchWithCLI version pods))] false.

Definition dataPlaneCategory (deadline : option Z) : category_ :=
  NewCategory version LinkerdDataPlaneChecks
    [fatalCheck "data plane namespace exists" "l5d-data-plane-exists"
       (ns ← gets DataPlaneNamespace; if bool_decide (ns = "") then mret () else CheckNamespace ns true);
     WithRetryDeadline deadline (fatalCheck "data plane proxies are ready" "l5d-data-plane-ready"
       (pods ← GetDataPlanePods; ns ← gets DataPlaneNamespace; lift (CheckPodsRunning pods ns)));
     warningCheck "data plane is up-to-date" "l5d-data-plane-version" (upToDate GetDataPlanePods);
     warningCheck "data plane and cli versions match" "l5d-data-plane-cli-version"
       (pods ← GetDataPlanePods; lift (CheckIfProxyVersionsMatchWithCLI version pods));
     warningCheck "data plane pod labels are configured correctly" "l5d-data-plane-pod-labels"
       (pods ← GetDataPlanePods; lift (checkMisconfiguredPodsLabels pods));
     warningCheck "data plane service labels are configured correctly" "l5d-data-plane-services-labels"
       (services ← GetServices; lift (checkMisconfiguredServiceLabels services));
     warningCheck "data plane service annotations are configured correctly" "l5d-data-plane-services-annotations"
       (services ← GetServices; lift (checkMisconfiguredServiceAnnotations services));
     warningCheck "opaque ports are properly annotated" "linkerd-opaque-ports-definition" checkMisconfiguredOpaquePortAnnotations] false.

Definition haCategory (deadline : option Z) : category_ :=
  NewCategory version LinkerdHAChecks
    [WithRetryDeadline deadline (warningCheck "multiple replicas of control plane pods" "l5d-control-plane-replicas"
       (ha ← config cfg_HighAvailability;
        if (ha : bool) then checkMinReplicasAvailable else throw (SkipError "not run for non HA installs")))] false.

Definition extensionCategory : category_ :=
  NewCategory version LinkerdExtensionChecks
    [warningCheck "namespace configuration for extensions" "l5d-extension-namespaces" checkExtensionNsLabels] false.

Definition allCategories (deadline : option Z) : list category_ :=
  [kubernetesAPICategory; kubernetesVersionCategory; preInstallCategory; crdCategory deadline; existenceCategory deadline; configCategory;
   cniCategory deadline; identityCategory; webhooksCategory; identityDataPlaneCategory; versionCategory;
   controlPlaneVersionCategory deadline; controlPlaneProxyCategory deadline; dataPlaneCategory deadline; haCategory deadline;
   extensionCategory].

(** The categories of a checker, those asked for enabled. *)
Definition NewHealthChecker (categoryIDs : list string) (options : HealthChecker) : list category_ :=
  enableCategories categoryIDs (allCategories (RetryDeadline options)).
Definition NewWithCoreChecks (options : HealthChecker) : list category_ :=
  NewHealthChecker [KubernetesAPIChecks; LinkerdControlPlaneExistenceChecks] options.
End checks.
