(* ===== verification/HealthSafety.v ===== *)
(** The order of the health checks keeps them from reading what is not there yet: with the
    categories [linkerd check] asks for, no check crashes on a cluster whose objects are well
    formed. *)
From S2P Require Import IdentityProps.
From S2P Require Import Prelude GoStd K8s PortRange Version PkgK8s Tls IssuerCerts IPNet Health HealthPure HealthChecks.

#[local] Open Scope string_scope.
#[local] Open Scope list_scope.
#[local] Open Scope Z_scope.
#[local] Open Scope go_scope.

(** * Functions that return *)
Definition returns {A} (r : result A) : Prop := r ≠ Crash.

Lemma ofRes_returns {A} (r : res A) : r ≠ Panic → returns (ofRes r).
Proof. by destruct r. Qed.

Lemma res_bind_not_Panic {A B} (c : res A) (k : A → res B) : c ≠ Panic → (∀ a, k a ≠ Panic) → res_bind c k ≠ Panic.
Proof. intros Hc Hk. destruct c; cbn; [apply Hk|done|done]. Qed.

Section pem.
Context `{!X509} `{!PEM}.

Lemma decodeLoop_not_Panic fuel buf certs : decodeLoop fuel buf certs ≠ Panic.
Proof.
  revert buf certs. induction fuel as [|fuel IH]; intros [|a buf] certs; [done..|].
  cbn [decodeLoop]. apply res_bind_not_Panic; [unfold decodeCertificatePEM; repeat case_match; done|]. intros [o rest]. apply IH.
Qed.
Lemma DecodePEMCertificates_not_Panic txt : DecodePEMCertificates txt ≠ Panic.
Proof. apply decodeLoop_not_Panic. Qed.
Lemma DecodePEMCrt_not_Panic txt : DecodePEMCrt txt ≠ Panic.
Proof. apply res_bind_not_Panic; [apply DecodePEMCertificates_not_Panic|]. by intros []. Qed.
Lemma ValidateAndCreateCreds_not_Panic crt key : ValidateAndCreateCreds crt key ≠ Panic.
Proof.
  apply res_bind_not_Panic; [unfold DecodePEMKey; repeat case_match; done|]. intros k.
  apply res_bind_not_Panic; [apply DecodePEMCrt_not_Panic|]. intros c. by case_match.
Qed.
Lemma keyOf_not_Panic data key : keyOf data key ≠ Panic.
Proof. unfold keyOf. by case_match. Qed.
Lemma FetchIssuerData_not_Panic secret anchors : FetchIssuerData secret anchors ≠ Panic.
Proof. repeat (apply res_bind_not_Panic; [apply keyOf_not_Panic || apply DecodePEMCrt_not_Panic|intros]). done. Qed.
Lemma FetchExternalIssuerData_not_Panic secret : FetchExternalIssuerData secret ≠ Panic.
Proof. repeat (apply res_bind_not_Panic; [apply keyOf_not_Panic || apply DecodePEMCrt_not_Panic|intros]). done. Qed.
End pem.

Lemma parseChannelVersion_not_Panic v : parseChannelVersion v ≠ Panic.
Proof. unfold parseChannelVersion. by repeat case_match. Qed.
Lemma version_match_not_Panic e a : version_match e a ≠ Panic.
Proof.
  unfold version_match. repeat case_bool_decide; try done.
  apply res_bind_not_Panic; [apply parseChannelVersion_not_Panic|]. intros cv.
  apply res_bind_not_Panic; [apply parseChannelVersion_not_Panic|]. intros cw. by repeat case_match.
Qed.
Lemma Match_not_Panic c v : Match c v ≠ Panic.
Proof.
  unfold Match. case_bool_decide; [done|]. case_match; [done|].
  apply res_bind_not_Panic; [apply parseChannelVersion_not_Panic|]. intros cv. destruct (list_find _ _) as [[]|]; [apply version_match_not_Panic|done].
Qed.
Lemma NewChannels_not_Panic v : NewChannels v ≠ Panic.
Proof. by apply res_bind_not_Panic; [apply parseChannelVersion_not_Panic|]. Qed.
Lemma getLatestVersions_not_Panic `{!MapRange} rsp : getLatestVersions rsp ≠ Panic.
Proof.
  unfold getLatestVersions. induction (range rsp) as [|e l IH]; [done|]. cbn [res_mapM].
  apply res_bind_not_Panic; [|intros; by apply res_bind_not_Panic].
  apply res_bind_not_Panic; [apply parseChannelVersion_not_Panic|]. intros cv. by case_bool_decide.
Qed.

(** The checks over pods return if the status of every pod can be determined. *)
Lemma podsRunning_returns pods : Forall statusesKnown pods → returns (podsRunning pods).
Proof.
  induction 1 as [|pod pods Hp Hps IH]; [done|]. cbn. destruct (GetPodStatus_ok pod Hp) as [s ->].
  repeat case_match; done.
Qed.
Lemma CheckPodsRunning_returns pods ns : Forall statusesKnown pods → returns (CheckPodsRunning pods ns).
Proof. intros Hp. unfold CheckPodsRunning. case_bool_decide; [done|]. by apply podsRunning_returns. Qed.
Lemma CheckProxyVersionsUpToDate_returns pods vs : Forall statusesKnown pods → returns (CheckProxyVersionsUpToDate pods vs).
Proof.
  intros Hp. assert (∃ l, outdatedPods pods vs = Ret l) as [l Hl].
  { induction Hp as [|pod pods Hp Hps [l IH]]; [by eexists|]. cbn. destruct (GetPodStatus_ok pod Hp) as [s ->]. rewrite IH. case_match; eauto. }
  unfold CheckProxyVersionsUpToDate. rewrite Hl. by repeat case_match.
Qed.
Lemma CheckIfProxyVersionsMatchWithCLI_returns v pods : Forall statusesKnown pods → returns (CheckIfProxyVersionsMatchWithCLI v pods).
Proof. induction 1 as [|pod pods Hp Hps IH]; [done|]. cbn. destruct (GetPodStatus_ok pod Hp) as [s ->]. by case_bool_decide. Qed.

Lemma checkResources_returns `{!MapRange} r objs names b : returns (checkResources r objs names b).
Proof. unfold checkResources. by repeat case_match. Qed.
Lemma validateComponents_returns `{!MapRange} st names : returns (validateComponents st names).
Proof. induction names as [|n names IH]; [done|]. cbn. repeat case_match; done. Qed.
Lemma misconfigured_returns w l : returns (misconfigured w l).
Proof. unfold misconfigured. by case_bool_decide. Qed.
Lemma parseNets_returns l : returns (parseNets l).
Proof. induction l as [|s l IH]; [done|]. cbn. unfold ParseNet. by destruct (ParseCIDR s), (parseNets l). Qed.
Lemma badPodCIDRs_returns nets l : returns (badPodCIDRs nets l).
Proof. unfold badPodCIDRs. pose proof (parseNets_returns l). by destruct (parseNets l). Qed.
Lemma dockerNodes_returns pages : returns (dockerNodes pages).
Proof. induction pages as [|[e|nodes] pages IH]; [done..|]. cbn. by destruct (dockerNodes pages). Qed.
Lemma expectedCRDs_returns `{!Decoding} docs : returns (expectedCRDs docs).
Proof. induction docs as [|d docs IH]; [done|]. cbn. destruct (decodeCRD d) as [|[]]; [done|]. destruct (expectedCRDs docs); by repeat case_match. Qed.

Create HintDb health.
#[export] Hint Resolve ofRes_returns ValidateAndCreateCreds_not_Panic DecodePEMCertificates_not_Panic FetchIssuerData_not_Panic
  FetchExternalIssuerData_not_Panic Match_not_Panic CheckPodsRunning_returns CheckProxyVersionsUpToDate_returns
  CheckIfProxyVersionsMatchWithCLI_returns checkResources_returns validateComponents_returns misconfigured_returns parseNets_returns
  badPodCIDRs_returns dockerNodes_returns expectedCRDs_returns : health.

Section safety.
Context `{!MapRange} `{!Decoding} `{!X509} `{!PEM} `{!Algorithms} (version : string).

(** A cluster whose objects are well formed: clients return an object also with an error, the
    configuration of Linkerd is there and names the scheme of the issuer, the version of
    Kubernetes has at most three numbers, and containers with a status are containers of
    their pod. *)
Record wellFormed (c : Cluster) : Prop := {
  wf_configMap ns n : is_Some (c_configMap c ns n).1;
  wf_daemonSet ns n : is_Some (c_daemonSet c ns n).1;
  wf_values ns cm : c_configMap c ns "linkerd-config" = (Some cm, None) → get (cm_Data cm) "values" ≠ "";
  wf_scheme ns cm v : c_configMap c ns "linkerd-config" = (Some cm, None) →
    decodeValues (get (cm_Data cm) "values") = inr v → is_Some (cfg_IssuerScheme v);
  wf_pointer ns cm raw : c_configMap c ns "linkerd-config" = (Some cm, None) → cm_Data cm !! "values" = Some raw →
    decodeValuesPointer raw ≠ inr None;
  wf_version v : c_version c = inr v → CheckVersion v ≠ Panic;
  wf_pods ns sel pods : c_pods c ns sel = inr pods → Forall statusesKnown pods }.

(** From a state with [P], a check does not crash, keeps [P], and returns a value with [Q]. *)
Definition safe {A} (P : HealthChecker → Prop) (m : H A) (Q : A → Prop) : Prop :=
  ∀ hc c now, wellFormed c → P hc →
  match m hc c now with (Ret a, hc') => Q a ∧ P hc' | (Throw _, hc') => P hc' | (Crash, _) => False end.

(** What all checks after those of the API may rely on, and keep. *)
Record invariant (P : HealthChecker → Prop) : Prop := {
  inv_api hc : P hc → kubeAPI hc = true;
  inv_pods hc l : P hc → P (set_controlPlanePods l hc);
  inv_latest hc v : P hc → P (set_LatestVersions v hc);
  inv_server hc v : P hc → P (set_serverVersion v hc);
  inv_cni hc d : P hc → P (set_cniDaemonSet d hc);
  inv_config hc u v : P hc → P (set_config u (Some v) hc);
  inv_identity hc o a : P hc → P (set_identity o a hc) }.

Abbreviation anyP := (HealthChecker → Prop).

Lemma hc_safe_bind {A B} (P : anyP) (m : H A) (k : A → H B) R Q :
  safe P m R → (∀ a, R a → safe P (k a) Q) → safe P (m ≫= k) Q.
Proof.
  intros Hm Hk hc c now Hc HP. specialize (Hm hc c now Hc HP). unfold mbind, H_bind, M_bind.
  destruct (m hc c now) as [[a|e|] hc']; [|done..]. destruct Hm as [HR HP']. by apply Hk.
Qed.
Lemma safe_bindT {A B} (P : anyP) (m : H A) (k : A → H B) Q :
  safe P m (λ _, True) → (∀ a, safe P (k a) Q) → safe P (m ≫= k) Q.
Proof. intros Hm Hk. by eapply hc_safe_bind. Qed.
Lemma hc_safe_weaken {A} (P : anyP) (m : H A) (R Q : A → Prop) : safe P m R → (∀ a, R a → Q a) → safe P m Q.
Proof.
  intros Hm HQ hc c now Hc HP. specialize (Hm hc c now Hc HP). destruct (m hc c now) as [[a|e|] hc']; [|done..].
  destruct Hm. auto.
Qed.
Lemma hc_safe_ret {A} (P : anyP) (a : A) (Q : A → Prop) : Q a → safe P (mret a) Q.
Proof. by intros HQ hc c now _ HP. Qed.
Lemma safe_throw {A} (P : anyP) e (Q : A → Prop) : safe P (throw e) Q.
Proof. by intros hc c now _ HP. Qed.
Lemma safe_lift {A} (P : anyP) (r : result A) : returns r → safe P (lift r) (λ _, True).
Proof. intros Hr hc c now _ HP. unfold lift. by destruct r. Qed.
Lemma safe_gets {A} (P : anyP) (f : HealthChecker → A) : safe P (gets f) (λ _, True).
Proof. by intros hc c now _ HP. Qed.
Lemma safe_timeNow (P : anyP) : safe P timeNow (λ _, True).
Proof. by intros hc c now _ HP. Qed.
Lemma hc_safe_modify (P : anyP) f : (∀ hc, P hc → P (f hc)) → safe P (modify f) (λ _, True).
Proof. intros Hf hc c now _ HP. split; [done|by apply Hf]. Qed.
Lemma safe_try {A} (P : anyP) (m : H A) Q : safe P m Q → safe P (try m) (λ r, match r with inr a => Q a | inl _ => True end).
Proof.
  intros Hm hc c now Hc HP. specialize (Hm hc c now Hc HP). unfold try. by destruct (m hc c now) as [[a|e|] hc'].
Qed.
Lemma safe_tryT {A} (P : anyP) (m : H A) : safe P m (λ _, True) → safe P (try m) (λ _, True).
Proof. intros Hm. eapply hc_safe_weaken; [by apply safe_try|done]. Qed.

Section invariant.
Context (P : anyP) (HPinv : invariant P).

Lemma safe_client : safe P client wellFormed.
Proof. intros hc c now Hc HP. unfold client. by rewrite (inv_api _ HPinv _ HP). Qed.
Lemma safe_clientT : safe P client (λ _, True).
Proof. eapply hc_safe_weaken; [apply safe_client|done]. Qed.
Lemma hc_safe_call {A} (f : Cluster → answer A) Q : (∀ c a, wellFormed c → f c = inr a → Q a) → safe P (call f) Q.
Proof.
  intros HQ. eapply hc_safe_bind; [apply safe_client|]. intros c Hc hc c' now _ HP. unfold lift. destruct (f c) eqn:Hf; cbn; eauto.
Qed.
Lemma safe_callT {A} (f : Cluster → answer A) : safe P (call f) (λ _, True).
Proof. by apply hc_safe_call. Qed.
Lemma safe_getConfigMap ns n : safe P (getConfigMap ns n) (λ cm, ∃ c, wellFormed c ∧ c_configMap c ns n = (Some cm, None)).
Proof.
  eapply hc_safe_bind; [apply safe_client|]. intros c Hc hc c' now _ HP. unfold lift.
  destruct (wf_configMap c Hc ns n) as [cm Hcm]. destruct (c_configMap c ns n) as [o e] eqn:Hg. cbn in Hcm. subst o.
  destruct e; cbn; eauto.
Qed.
End invariant.
End safety.

(** Going through the body of a check. *)
Ltac safe_go :=
  lazymatch goal with
  | |- safe _ (mbind _ (call (λ c, c_pods c _ _))) _ =>
      eapply hc_safe_bind; [eapply hc_safe_call; [eassumption|intros ? ? ? ?; eapply wf_pods; eassumption]|intros; safe_go]
  | |- safe _ (mbind _ _) _ => eapply safe_bindT; [safe_go|intros; safe_go]
  | |- safe _ (mret _) _ => apply hc_safe_ret; done
  | |- safe _ (throw _) _ => apply safe_throw
  | |- safe _ (fail _) _ => apply safe_throw
  | |- safe _ (gets _) _ => apply safe_gets
  | |- safe _ timeNow _ => apply safe_timeNow
  | |- safe _ (call _) _ => apply safe_callT; eassumption
  | |- safe _ client _ => apply safe_clientT; eassumption
  | |- safe _ (lift _) _ => apply safe_lift; eauto with health
  | |- safe _ (try _) _ => apply safe_tryT; safe_go
  | |- safe _ (if ?b then _ else _) _ => destruct b; safe_go
  | |- safe _ (match ?x with _ => _ end) _ => destruct x; safe_go
  | |- safe _ (let '(_, _) := ?x in _) _ => destruct x; safe_go
  | |- safe _ ?m _ => let h := eval cbv beta zeta in m in first [progress change m with h; safe_go | eauto with health]
  | |- _ => idtac
  end.

Section checks.
Context `{!MapRange} `{!Decoding} `{!X509} `{!PEM} `{!Algorithms} (version : string).
Context (P : HealthChecker → Prop) (HPinv : invariant P).

Abbreviation ok m := (safe P m (λ _, True)).

Lemma safe_FetchCurrentConfiguration ns :
  safe P (FetchCurrentConfiguration ns) (λ r, ∃ v, r.2 = Some v ∧ is_Some (cfg_IssuerScheme v)).
Proof.
  eapply hc_safe_bind; [by apply safe_getConfigMap|]. intros cm (c & Hc & Hcm). cbv beta zeta.
  rewrite bool_decide_false by (by eapply wf_values). intros hc c' now _ HP. unfold mbind, H_bind, M_bind, lift.
  destruct (decodeValues _) eqn:Hd; cbn; [done|]. split; [|done]. eexists. split; [done|]. by eapply wf_scheme.
Qed.
Lemma safe_InitializeLinkerdGlobalConfig : ok InitializeLinkerdGlobalConfig.
Proof.
  unfold InitializeLinkerdGlobalConfig, checkLinkerdConfigConfigMap.
  eapply hc_safe_bind with (R := λ r, is_Some r.2); [|intros [u o] [v Hv]; cbn in *; subst o; apply hc_safe_modify; intros; by apply inv_config].
  eapply safe_bindT; [apply safe_gets|]. intros ns. eapply hc_safe_bind; [apply safe_FetchCurrentConfiguration|].
  intros r (v & Hv & _). apply hc_safe_ret. cbn. rewrite Hv. done.
Qed.
Lemma safe_GetServerVersion ns : ok (GetServerVersion ns).
Proof.
  eapply hc_safe_bind; [apply safe_try; by apply safe_getConfigMap|]. intros [e|cm] Hcm; [apply safe_throw|].
  destruct Hcm as (c & Hc & Hcm). destruct (cm_Data cm !! "values") as [raw|] eqn:Hraw; [|apply safe_throw].
  pose proof (wf_pointer c Hc _ _ _ Hcm Hraw). destruct (decodeValuesPointer raw) as [e|[v|]]; [apply safe_throw|by apply hc_safe_ret|done].
Qed.
Lemma safe_CheckNamespace ns b : ok (CheckNamespace ns b).
Proof. unfold CheckNamespace, NamespaceExists. safe_go. Qed.
Lemma safe_checkKind k r ns sel names b : ok (checkKind k r ns sel names b).
Proof. unfold checkKind. safe_go. Qed.
Lemma safe_missingCRDs crds : ok (missingCRDs crds).
Proof. induction crds as [|[n v] crds IH]; cbn [missingCRDs]; [by apply hc_safe_ret|]. safe_go; apply IH. Qed.
Lemma safe_checkCRDs : ok checkCRDs.
Proof. unfold checkCRDs, CheckCustomResourceDefinitions. safe_go. apply safe_missingCRDs. Qed.
Lemma safe_faulty ns l : ok (faultyDeployments ns l).
Proof. induction l as [|x l IH]; cbn [faultyDeployments]; [by apply hc_safe_ret|]. safe_go; apply IH. Qed.
Lemma safe_checkMinReplicas : ok checkMinReplicasAvailable.
Proof. unfold checkMinReplicasAvailable. safe_go. apply safe_faulty. Qed.
Lemma evaluateAccessReviewStatus_returns g r st : returns (ofRes (evaluateAccessReviewStatus g r st)).
Proof. apply ofRes_returns. unfold evaluateAccessReviewStatus. by repeat case_match. Qed.
Lemma safe_CheckCanPerformAction a b c d e : ok (CheckCanPerformAction a b c d e).
Proof. unfold CheckCanPerformAction. safe_go. apply evaluateAccessReviewStatus_returns. Qed.
Lemma safe_dryRuns docs : ok (dryRuns docs).
Proof. induction docs as [|[e|[o|]] docs IH]; cbn [dryRuns]; safe_go; apply IH. Qed.
Lemma safe_authentication : ok checkExtensionAPIServerAuthentication.
Proof.
  unfold checkExtensionAPIServerAuthentication. safe_go.
  eapply hc_safe_weaken; [by apply safe_getConfigMap|done].
Qed.
Lemma safe_checkClockSkew : ok checkClockSkew.
Proof. unfold checkClockSkew. safe_go. Qed.
Lemma safe_checkExtensionNsLabels : ok checkExtensionNsLabels.
Proof. unfold checkExtensionNsLabels. safe_go. Qed.
Lemma safe_NonDocker : ok CheckNodesHaveNonDockerRuntime.
Proof. unfold CheckNodesHaveNonDockerRuntime. safe_go. Qed.
Lemma safe_checkRunAsRoot : ok checkRunAsRoot.
Proof. unfold checkRunAsRoot. safe_go; [apply safe_InitializeLinkerdGlobalConfig|apply safe_NonDocker]. Qed.

Lemma safe_checkCertificatesConfig : ok checkCertificatesConfig.
Proof.
  unfold checkCertificatesConfig. eapply safe_bindT; [apply safe_gets|]. intros ns.
  eapply hc_safe_bind; [apply safe_FetchCurrentConfiguration|]. intros r (v & Hv & [s Hs]). rewrite Hv, Hs. safe_go.
  apply ofRes_returns. case_bool_decide; auto with health.
Qed.
Lemma safe_credsOfSecret a b ns n : ok (credsOfSecret a b ns n).
Proof. unfold credsOfSecret. safe_go. Qed.
Lemma safe_FetchCreds ns a b : ok (FetchCreds ns a b).
Proof. unfold FetchCreds, FetchCredsFromSecret, FetchCredsFromOldSecret. safe_go; apply safe_credsOfSecret. Qed.
Lemma safe_fetchWebhookCaBundle w : ok (fetchWebhookCaBundle w).
Proof. unfold fetchWebhookCaBundle. safe_go. Qed.
Lemma safe_fetchProxyInjectorCaBundle : ok fetchProxyInjectorCaBundle.
Proof. unfold fetchProxyInjectorCaBundle. safe_go. Qed.
Lemma safe_CheckCertAndAnchors cred anchors n : ok (CheckCertAndAnchors cred anchors n).
Proof. unfold CheckCertAndAnchors. safe_go. Qed.
Lemma safe_CheckCertAndAnchorsExpiringSoon cred : ok (CheckCertAndAnchorsExpiringSoon cred).
Proof. unfold CheckCertAndAnchorsExpiringSoon. safe_go. Qed.
Lemma safe_webhookCert b s o n : ok b → ok (webhookCert b s o n).
Proof. intros Hb. unfold webhookCert. safe_go; first [exact Hb|apply safe_FetchCreds|apply safe_CheckCertAndAnchors]. Qed.
Lemma safe_webhookExpiring s o : ok (webhookExpiring s o).
Proof. unfold webhookExpiring. safe_go; [apply safe_FetchCreds|apply safe_CheckCertAndAnchorsExpiringSoon]. Qed.
Lemma safe_orSkip {A} (m : H A) : ok m → ok (orSkip m).
Proof. intros Hm. unfold orSkip. safe_go; exact Hm. Qed.
Lemma safe_FetchTrustBundle ns : ok (FetchTrustBundle ns).
Proof.
  eapply hc_safe_bind; [by apply safe_client|]. intros c Hc. destruct (wf_configMap c Hc ns "linkerd-identity-trust-roots") as [cm Hcm].
  destruct (c_configMap c ns _) as [o e]. cbn in Hcm. subst o. destruct e; [apply safe_throw|by apply hc_safe_ret].
Qed.
Lemma safe_checkPodsProxiesCertificate a b : ok (checkPodsProxiesCertificate a b).
Proof. unfold checkPodsProxiesCertificate, GetMeshedPodsIdentityData. safe_go. apply safe_FetchTrustBundle. Qed.
Lemma safe_CheckProxyHealth a b : ok (CheckProxyHealth a b).
Proof. unfold CheckProxyHealth. safe_go. apply safe_checkPodsProxiesCertificate. Qed.
Lemma safe_GetDataPlanePods : safe P GetDataPlanePods (Forall statusesKnown).
Proof.
  unfold GetDataPlanePods. do 2 (eapply safe_bindT; [apply safe_gets|intros]).
  apply hc_safe_call; [done|]. intros c pods Hc Hp. by eapply wf_pods.
Qed.
Lemma safe_controlPlanePodsOf : safe P controlPlanePodsOf (Forall statusesKnown).
Proof.
  unfold controlPlanePodsOf. eapply safe_bindT; [apply safe_gets|intros].
  apply hc_safe_call; [done|]. intros c pods Hc Hp. by eapply wf_pods.
Qed.
Lemma safe_withPods (m : H (list PodObject)) (k : list PodObject → H ()) :
  safe P m (Forall statusesKnown) → (∀ pods, Forall statusesKnown pods → ok (k pods)) → ok (m ≫= k).
Proof. apply hc_safe_bind. Qed.
Lemma safe_upToDate m : safe P m (Forall statusesKnown) → ok (upToDate m).
Proof. intros Hm. apply safe_withPods; [done|]. intros pods Hp. safe_go. Qed.
Lemma safe_podsNamed ns names : ok (podsNamed ns names).
Proof. induction names as [|n names IH]; cbn [podsNamed]; [by apply hc_safe_ret|]. safe_go; apply IH. Qed.
Lemma safe_opaqueErrors services : ok (opaqueErrors services).
Proof.
  induction services as [|s services IH]; cbn [opaqueErrors]; [by apply hc_safe_ret|]. unfold getEndpointsPods.
  safe_go; try apply IH. apply safe_podsNamed.
Qed.
Lemma safe_opaque : ok checkMisconfiguredOpaquePortAnnotations.
Proof. unfold checkMisconfiguredOpaquePortAnnotations. safe_go. apply safe_opaqueErrors. Qed.
Lemma safe_latestVersions : ok latestVersions.
Proof.
  intros hc c now _ HP. unfold latestVersions. case_bool_decide.
  - pose proof (NewChannels_not_Panic (VersionOverride hc)). by destruct (NewChannels _).
  - destruct (c_latest c _) as [e|rsp]; [done|]. pose proof (getLatestVersions_not_Panic rsp). by destruct (getLatestVersions rsp).
Qed.
Lemma safe_assign {A} (m : H A) set : ok m → (∀ o hc, P hc → P (set o hc)) → ok (assign m set).
Proof. intros Hm Hs. unfold assign. safe_go; apply hc_safe_modify; apply Hs. Qed.
Lemma safe_whenCNI m : (∀ ns, ok (m ns)) → ok (whenCNI m).
Proof. intros Hm. unfold whenCNI. safe_go; apply Hm. Qed.
Lemma safe_checkExists k w ns : ok (checkExists k w ns).
Proof. unfold checkExists. safe_go. Qed.
Lemma safe_fetchDaemonSet ns : ok (fetchDaemonSet ns).
Proof. unfold fetchDaemonSet. safe_go; apply hc_safe_modify; intros; by apply inv_cni. Qed.
Lemma safe_checkDaemonSetReady ns : ok (checkDaemonSetReady ns).
Proof.
  intros hc c now Hc HP. unfold checkDaemonSetReady, fetchDaemonSet, client, mbind, H_bind, M_bind. rewrite (inv_api _ HPinv _ HP).
  destruct (wf_daemonSet c Hc ns linkerdCNIResourceName) as [[d r] Hd]. destruct (c_daemonSet c ns _) as [o e]. cbn in Hd. subst o.
  cbn. pose proof (inv_cni _ HPinv hc (Some (d, r)) HP). destruct e as [[]|]; cbn; try done; by case_bool_decide.
Qed.
End checks.

(** * Errors that are failures *)
Definition failure (e : error) : Prop := asSkip e = None ∧ asVerbose e = None.
Definition plainErrors {A} (m : H A) : Prop := ∀ hc c now e hc', m hc c now = (Throw e, hc') → failure e.

Lemma failure_ofCall e : failure (ofCall e).
Proof. by destruct e. Qed.
Lemma plain_bind {A B} (m : H A) (k : A → H B) : plainErrors m → (∀ a, plainErrors (k a)) → plainErrors (m ≫= k).
Proof.
  intros Hm Hk hc c now e hc'. unfold mbind, H_bind, M_bind. destruct (m hc c now) as [[a|e'|] hc''] eqn:He; [apply Hk| |done].
  intros [= <- <-]. by eapply Hm.
Qed.
Lemma plain_ret {A} (a : A) : plainErrors (mret a).
Proof. by intros hc c now e hc'. Qed.
Lemma plain_gets {A} (f : HealthChecker → A) : plainErrors (gets f).
Proof. by intros hc c now e hc'. Qed.
Lemma plain_modify f : plainErrors (modify f).
Proof. by intros hc c now e hc'. Qed.
Lemma plain_crash {A} : plainErrors (@crash _ _ A).
Proof. by intros hc c now e hc'. Qed.
Lemma plain_ofRes {A} (r : res A) : plainErrors (lift (ofRes r)).
Proof. intros hc c now e hc'. unfold lift. destruct r; cbn; [done| |done]. by intros [= <- <-]. Qed.
Lemma plain_ofAnswer {A} (a : answer A) : plainErrors (lift (ofAnswer a)).
Proof. intros hc c now e hc'. unfold lift. destruct a; cbn; [|done]. intros [= <- <-]. apply failure_ofCall. Qed.
Lemma plain_client : plainErrors client.
Proof. intros hc c now e hc'. unfold client. by destruct (kubeAPI hc). Qed.
Lemma plain_call {A} (f : Cluster → answer A) : plainErrors (call f).
Proof. apply plain_bind; [apply plain_client|]. intros c. apply plain_ofAnswer. Qed.
Lemma plain_getConfigMap ns n : plainErrors (getConfigMap ns n).
Proof.
  apply plain_bind; [apply plain_client|]. intros c hc c' now e hc'. unfold lift. destruct (c_configMap c ns n) as [[]  []]; cbn; try done;
    intros [= <- <-]; apply failure_ofCall.
Qed.
Lemma plain_FetchCurrentConfiguration `{!Decoding} ns : plainErrors (FetchCurrentConfiguration ns).
Proof.
  apply plain_bind; [apply plain_getConfigMap|]. intros cm. cbv zeta. case_bool_decide; [apply plain_ret|].
  apply plain_bind; [apply plain_ofAnswer|]. intros v. apply plain_ret.
Qed.
Lemma plain_checkCertificatesConfig `{!Decoding} `{!X509} `{!PEM} : plainErrors checkCertificatesConfig.
Proof.
  apply plain_bind; [apply plain_gets|]. intros ns. apply plain_bind; [apply plain_FetchCurrentConfiguration|]. intros r.
  destruct r.2 as [v|]; [|apply plain_crash]. destruct (cfg_IssuerScheme v) as [s|]; [|apply plain_crash].
  apply plain_bind; [apply plain_call|]. intros secret. do 3 (apply plain_bind; [apply plain_ofRes|intros]). apply plain_ret.
Qed.

Section run.
Context `{!MapRange} `{!Decoding} `{!X509} `{!PEM} `{!Algorithms} (version : string).
Context (w : World Cluster) (Hworld : ∀ i, wellFormed (envAt w i)).
Implicit Types (st : Run HealthChecker) (P Q R : HealthChecker → Prop).

(** A check that establishes [Q] when it passes. *)
Definition upgrades P (f : H ()) Q : Prop :=
  ∀ hc c now, wellFormed c → P hc →
  match f hc c now with (Ret _, hc') => Q hc' | (Throw e, hc') => P hc' ∧ failure e | (Crash, _) => False end.

Lemma runCheck_upgrades fuel c ck f st P Q :
  upgrades P f Q → P (checker st) →
  let '(e, st') := runCheck fuel w c ck f st in e ≠ Crashed ∧ (e = Passed → Q (checker st')).
Proof.
  intros Hf. revert st. induction fuel as [|fuel IH]; intros st HP; [done|]. cbn [runCheck].
  specialize (Hf (checker st) (envAt w (attempts st)) (clock st) (Hworld _) HP).
  destruct (f _ _ _) as [[[]|e|] hc]; [done| |done]. destruct Hf as (HP' & Hs & Hv). cbn. rewrite Hs. cbn. rewrite Hv. cbn.
  destruct (beforeDeadline _ _); [apply IH; done|]. split; [done|]. by intros ?.
Qed.

Lemma runCheck_safe fuel c ck f st P :
  safe P f (λ _, True) → P (checker st) →
  let '(e, st') := runCheck fuel w c ck f st in e ≠ Crashed ∧ P (checker st').
Proof.
  intros Hf. revert st. induction fuel as [|fuel IH]; intros st HP; [done|]. cbn [runCheck].
  specialize (Hf (checker st) (envAt w (attempts st)) (clock st) (Hworld _) HP).
  destruct (f _ _ _) as [[[]|e|] hc]; [by destruct Hf| |done]. cbn. destruct (asSkip e); [done|].
  destruct (_ && beforeDeadline _ _); [by apply IH|]. split; [by case_match|done].
Qed.

Definition ends R (x : flow * Run HealthChecker) : Prop := x.1 ≠ Broken Crashed ∧ ∀ s wn, x.1 = Continue s wn → R (checker x.2).
Definition safeChecker P (ck : Checker HealthChecker Cluster) : Prop := ∀ f, check ck = Some f → safe P f (λ _, True).

Lemma runCheckers_safe c cs s wn st P :
  Forall (safeChecker P) cs → P (checker st) → ends P (runCheckers w c cs s wn st).
Proof.
  intros Hcs. revert s wn st. induction Hcs as [|ck cs Hck Hcs IH]; intros s wn st HP; [split; [done|]; by intros|].
  cbn [runCheckers]. destruct (check ck) as [f|] eqn:Hf; [|by apply IH].
  pose proof (runCheck_safe (enoughAttempts ck (clock st)) c ck f st P (Hck _ Hf) HP) as Hr.
  destruct (runCheck _ _ _ _ _ _) as [[] st']; destruct Hr as [He HP']; [by apply IH| |done|by split].
  destruct (fatal ck); [by split|by apply IH].
Qed.

Lemma runCheckers_upgrade c ck cs f s wn st P Q R :
  check ck = Some f → fatal ck = true → upgrades P f Q → P (checker st) →
  (∀ s wn st', Q (checker st') → ends R (runCheckers w c cs s wn st')) → ends R (runCheckers w c (ck :: cs) s wn st).
Proof.
  intros Hck Hfatal Hf HP Hrest. cbn [runCheckers]. rewrite Hck, Hfatal.
  pose proof (runCheck_upgrades (enoughAttempts ck (clock st)) c ck f st P Q Hf HP) as Hr.
  destruct (runCheck _ _ _ _ _ _) as [[] st']; destruct Hr as [He HQ]; [by apply Hrest, HQ|by split|done|by split].
Qed.

Lemma runCategories_cons c cs s wn st P R :
  P (checker st) → (∀ hc, P hc → enabled c = false → R hc) →
  (enabled c = true → ends R (runCheckers w c (checkers c) s wn st)) →
  (∀ s wn st', R (checker st') → (runCategories w cs s wn st').1 ≠ Broken Crashed) →
  (runCategories w (c :: cs) s wn st).1 ≠ Broken Crashed.
Proof.
  intros HP Hdis Hen Hrest. cbn [runCategories]. destruct (enabled c) eqn:He; [|by apply Hrest, Hdis].
  destruct (Hen eq_refl) as [Hnc Hcont]. destruct (runCheckers _ _ _ _ _ _) as [[s' wn'|s' wn'|e] st']; [|done..].
  apply Hrest. by apply (Hcont s' wn').
Qed.
End run.

(** * What is known when *)
Definition knowsAPI (hc : HealthChecker) : Prop := kubeAPI hc = true.
Definition knowsVersion (hc : HealthChecker) : Prop := knowsAPI hc ∧ ∃ v, kubeVersion hc = Some v ∧ CheckVersion v ≠ Panic.
Definition knowsConfig (hc : HealthChecker) : Prop := knowsVersion hc ∧ is_Some (linkerdConfig hc).

Lemma knowsVersion_invariant : invariant knowsVersion.
Proof. by split; intros hc *; intros [? ?]. Qed.
Lemma knowsConfig_invariant : invariant knowsConfig.
Proof. split; intros hc *; intros [[? ?] ?]; try done; by split_and!. Qed.
Lemma knowsConfig_version hc : knowsConfig hc → knowsVersion hc.
Proof. by intros []. Qed.

Ltac checkers_go := repeat (first [apply Forall_nil_2 | apply Forall_cons_2]);
  try (intros ? [= <-]; cbn [Health.check plainCheck fatalCheck warningCheck WithCheck WithHintAnchor NewChecker Fatal Warning WithRetryDeadline SurfaceErrorOnRetry]).

Section categories.
Context `{!MapRange} `{!Decoding} `{!X509} `{!PEM} `{!Algorithms} (version : string).

Lemma upgrades_client : upgrades (λ _, True) InitializeKubeAPIClient knowsAPI.
Proof. intros hc c now Hc _. unfold InitializeKubeAPIClient. destruct (c_newAPI c); [|done]. split; [done|apply failure_ofCall]. Qed.
Lemma upgrades_version : upgrades knowsAPI (assign (call c_version) set_kubeVersion) knowsVersion.
Proof.
  intros hc c now Hc HP. unfold assign, call, client, try, mbind, H_bind, M_bind. rewrite HP.
  destruct (c_version c) as [e|v] eqn:Hv; cbn; [split; [done|apply failure_ofCall]|].
  split; [done|]. eexists. split; [done|]. by eapply wf_version.
Qed.
Lemma upgrades_config : upgrades knowsVersion InitializeLinkerdGlobalConfig knowsConfig.
Proof.
  intros hc c now Hc HP. pose proof (safe_InitializeLinkerdGlobalConfig knowsVersion knowsVersion_invariant hc c now Hc HP) as Hs.
  assert (plainErrors InitializeLinkerdGlobalConfig) as Hp.
  { apply plain_bind; [|intros; apply plain_modify]. apply plain_bind; [apply plain_gets|]. intros ns.
    apply plain_bind; [apply plain_FetchCurrentConfiguration|]. intros; apply plain_ret. }
  specialize (Hp hc c now).
  pose proof (safe_FetchCurrentConfiguration knowsVersion knowsVersion_invariant (ControlPlaneNamespace hc) hc c now Hc HP) as Hf.
  unfold InitializeLinkerdGlobalConfig, checkLinkerdConfigConfigMap, gets, mbind, H_bind, M_bind in *.
  destruct (FetchCurrentConfiguration _ _ _ _) as [[[cm o]|e|] hc']; cbn in *; [|split; [done|by eapply Hp]|done].
  destruct Hf as [(v & -> & _) HP']. split; [apply Hs|]. by eexists.
Qed.
Lemma upgrades_issuer P : invariant P →
  upgrades P (assign checkCertificatesConfig set_identityResult) (λ hc, P hc ∧ is_Some (issuerCert hc)).
Proof.
  intros HP hc c now Hc Hhc. pose proof (safe_checkCertificatesConfig P HP hc c now Hc Hhc) as Hs.
  pose proof (plain_checkCertificatesConfig hc c now) as Hp. unfold assign, try, mbind, H_bind, M_bind.
  destruct (checkCertificatesConfig hc c now) as [[[cred anchors]|e|] hc']; [|..|done]; cbn.
  - destruct Hs as [_ Hs]. split; [by apply inv_identity|by eexists].
  - split; [by apply inv_identity|by eapply Hp].
Qed.

Lemma safe_config_f {A} P (f : ConfigValues → A) : (∀ hc, P hc → is_Some (linkerdConfig hc)) → safe P (config f) (λ _, True).
Proof. intros HP hc c now _ Hhc. unfold config, gets, mbind, H_bind, M_bind. by destruct (HP hc Hhc) as [v ->]. Qed.

Section inv.
Context (P : HealthChecker → Prop) (HP : invariant P).

Lemma version_safe : (∀ hc, P hc → knowsVersion hc) → Forall (safeChecker P) (checkers (kubernetesVersionCategory version)).
Proof.
  intros HK. checkers_go. intros hc c now Hc Hhc. destruct (HK hc Hhc) as [_ (v & Hv & Hn)].
  unfold gets, mbind, H_bind, M_bind, lift. rewrite Hv. by destruct (CheckVersion v).
Qed.
Lemma preInstall_safe : Forall (safeChecker P) (checkers (preInstallCategory version)).
Proof.
  checkers_go; unfold checkCanCreate, checkCanGet, checkCanCreateNonNamespacedResources; safe_go;
    eauto using safe_CheckNamespace, safe_dryRuns, safe_CheckCanPerformAction, safe_authentication, safe_checkClockSkew.
Qed.
Lemma crd_safe d : Forall (safeChecker P) (checkers (crdCategory version d)).
Proof. checkers_go. by apply safe_checkCRDs. Qed.
Lemma configs_safe : Forall (safeChecker P) (checkers (configCategory version)).
Proof.
  checkers_go; unfold CheckClusterRoles, CheckClusterRoleBindings, CheckServiceAccounts, checkMutatingWebhookConfigurations,
    checkValidatingWebhookConfigurations; safe_go; eauto using safe_CheckNamespace, safe_checkKind, safe_checkCRDs, safe_checkRunAsRoot.
Qed.
Lemma cni_safe d : Forall (safeChecker P) (checkers (cniCategory version d)).
Proof.
  checkers_go; apply safe_whenCNI; intros; safe_go; eauto using safe_checkExists, safe_fetchDaemonSet, safe_checkDaemonSetReady.
Qed.
Lemma webhooks_safe : Forall (safeChecker P) (checkers (webhooksCategory version)).
Proof.
  checkers_go; eauto using safe_webhookCert, safe_webhookExpiring, safe_fetchProxyInjectorCaBundle, safe_fetchWebhookCaBundle;
    unfold FetchCredsFromSecret; safe_go;
    eauto using safe_orSkip, safe_fetchWebhookCaBundle, safe_credsOfSecret, safe_CheckCertAndAnchors, safe_CheckCertAndAnchorsExpiringSoon.
Qed.
Lemma identityDataPlane_safe : Forall (safeChecker P) (checkers (identityDataPlaneCategory version)).
Proof. checkers_go. safe_go. by apply safe_checkPodsProxiesCertificate. Qed.
Lemma versions_safe : Forall (safeChecker P) (checkers (versionCategory version)).
Proof.
  checkers_go; [apply safe_assign; [apply safe_latestVersions|intros; by apply inv_latest]|unfold checkMatch; safe_go].
Qed.
Lemma controlPlaneVersion_safe d : Forall (safeChecker P) (checkers (controlPlaneVersionCategory version d)).
Proof.
  checkers_go; unfold checkMatch; safe_go. apply safe_assign; [by apply safe_GetServerVersion|intros; by apply inv_server].
Qed.
Lemma controlPlaneProxy_safe d : Forall (safeChecker P) (checkers (controlPlaneProxyCategory version d)).
Proof.
  checkers_go; [safe_go; by apply safe_CheckProxyHealth|apply safe_upToDate; by apply safe_controlPlanePodsOf|].
  apply safe_withPods; [by apply safe_controlPlanePodsOf|]. intros; safe_go.
Qed.
Lemma dataPlane_safe d : Forall (safeChecker P) (checkers (dataPlaneCategory version d)).
Proof.
  checkers_go; [safe_go; by apply safe_CheckNamespace|..|by apply safe_opaque];
    try (first [apply safe_upToDate; by apply safe_GetDataPlanePods|apply safe_withPods; [by apply safe_GetDataPlanePods|intros; safe_go]]).
  all: unfold checkMisconfiguredPodsLabels, checkMisconfiguredServiceLabels, checkMisconfiguredServiceAnnotations, GetServices; safe_go.
Qed.
Lemma extension_safe : Forall (safeChecker P) (checkers (extensionCategory version)).
Proof. checkers_go. by apply safe_checkExtensionNsLabels. Qed.
Lemma ha_safe d : (∀ hc, P hc → is_Some (linkerdConfig hc)) → Forall (safeChecker P) (checkers (haCategory version d)).
Proof. intros HC. checkers_go. safe_go; [by apply safe_config_f|by apply safe_checkMinReplicas]. Qed.
End inv.

Lemma safe_clusterIPNets P : (∀ hc, P hc → is_Some (linkerdConfig hc)) → safe P clusterIPNets (λ _, True).
Proof. intros HC. unfold clusterIPNets. safe_go. by apply safe_config_f. Qed.
Lemma existence_safe d : Forall (safeChecker knowsConfig) (tail (checkers (existenceCategory version d))).
Proof.
  pose proof knowsConfig_invariant as HK. assert (∀ hc, knowsConfig hc → is_Some (linkerdConfig hc)) as HC by (by intros hc []).
  checkers_go; unfold CheckServiceAccounts, checkClusterNetworks, checkClusterNetworksContainAllPods, checkClusterNetworksContainAllServices;
    safe_go; try (by apply safe_config_f); try (by apply safe_checkKind); try (by apply safe_clusterIPNets);
    try (by apply safe_InitializeLinkerdGlobalConfig).
  all: try (apply safe_lift); try (apply hc_safe_modify; intros; by apply inv_pods).
  all: unfold returns, checkControlPlaneReplicaSets, checkUnschedulablePods, validateControlPlanePods; by repeat case_match || apply validateComponents_returns.
Qed.
Lemma identity_safe P : Forall (safeChecker (λ hc, P hc ∧ is_Some (issuerCert hc))) (tail (checkers (identityCategory version))).
Proof.
  assert (safe (λ hc, P hc ∧ is_Some (issuerCert hc)) issuerCertificate (λ _, True)) as Hi.
  { intros hc c now _ [HP [v Hv]]. unfold issuerCertificate, gets, mbind, H_bind, M_bind. rewrite Hv. cbn. split_and!; [done..|]. by eexists. }
  checkers_go; unfold checkAnchors, checkIssuer; safe_go.
Qed.

Section stages.
Context (w : World Cluster) (Hw : ∀ i, wellFormed (envAt w i)) (ids : list string).
Abbreviation fine cats s wn st := ((runCategories w cats s wn st).1 ≠ Broken Crashed).

(** A category as it is when the identifiers are those asked for. *)
Definition enable (c : Category HealthChecker Cluster) : Category HealthChecker Cluster :=
  if bool_decide (ID c ∈ ids) then mkCategory (ID c) (checkers c) true (hintBaseURL c) else c.
Lemma enable_checkers c : checkers (enable c) = checkers c.
Proof. unfold enable. by case_bool_decide. Qed.
Lemma enable_enabled c : enabled c = false → enabled (enable c) = bool_decide (ID c ∈ ids).
Proof. unfold enable. by case_bool_decide. Qed.

(** One category that turns [P] into [R], and several that keep [P]. *)
Lemma fine_stage c rest s wn st (P R : HealthChecker → Prop) :
  enabled c = false → P (checker st) → (ID c ∉ ids → ∀ hc, P hc → R hc) →
  (ID c ∈ ids → ends R (runCheckers w (enable c) (checkers c) s wn st)) →
  (∀ s wn st', R (checker st') → fine rest s wn st') → fine (enable c :: rest) s wn st.
Proof.
  intros Hc HP Hno Hyes Hrest. apply (runCategories_cons w _ _ _ _ _ P R); [done| | |done]; rewrite enable_enabled by done.
  - intros hc Hhc Hin%bool_decide_eq_false. by apply Hno.
  - intros Hin%bool_decide_eq_true. rewrite enable_checkers. by apply Hyes.
Qed.
Lemma fine_keep cs rest s wn st (P : HealthChecker → Prop) :
  Forall (λ c, Forall (safeChecker P) (checkers c)) cs → P (checker st) →
  (∀ s wn st', P (checker st') → fine rest s wn st') → fine ((enable <$> cs) ++ rest) s wn st.
Proof.
  intros Hcs. revert s wn st. induction Hcs as [|c cs Hc Hcs IH]; intros s wn st HP Hrest; [by apply Hrest|].
  apply (runCategories_cons w _ _ _ _ _ P P); [done|done| |intros; by apply IH].
  intros _. rewrite enable_checkers. by apply runCheckers_safe.
Qed.

Lemma api_stage s wn st : ends knowsVersion (runCheckers w (enable (kubernetesAPICategory version)) (checkers (kubernetesAPICategory version)) s wn st).
Proof.
  eapply runCheckers_upgrade; [done|done|done|apply upgrades_client|done|]. intros s1 wn1 st1 Hx1.
  eapply runCheckers_upgrade; [done|done|done|apply upgrades_version|done|]. intros s2 wn2 st2 Hx2.
  apply runCheckers_safe; [done|constructor|done].
Qed.
Lemma existence_stage d s wn st : knowsVersion (checker st) →
  ends knowsConfig (runCheckers w (enable (existenceCategory version d)) (checkers (existenceCategory version d)) s wn st).
Proof.
  intros Hst. eapply runCheckers_upgrade; [done|done|done|apply upgrades_config|done|].
  intros s1 wn1 st1 Hx1. apply runCheckers_safe; [done|apply existence_safe|done].
Qed.
Lemma identity_stage s wn st P : invariant P → P (checker st) →
  ends P (runCheckers w (enable (identityCategory version)) (checkers (identityCategory version)) s wn st).
Proof.
  intros HP Hst. eapply runCheckers_upgrade; [done|done|done|exact (upgrades_issuer P HP)|done|].
  intros s1 wn1 st1 Hx1.
  destruct (runCheckers_safe w Hw (enable (identityCategory version)) _ s1 wn1 st1 _ (identity_safe P) Hx1) as [Hnc Hc].
  split; [exact Hnc|]. intros s2 wn2 Hx2. by destruct (Hc _ _ Hx2).
Qed.

(** What is known after the control plane's existence was checked, if it was. *)
Definition afterExistence (hc : HealthChecker) : Prop :=
  knowsVersion hc ∧ (LinkerdControlPlaneExistenceChecks ∈ ids → is_Some (linkerdConfig hc)).
Lemma afterExistence_invariant : invariant afterExistence.
Proof. split; intros hc *; intros [Hv HC]; [by destruct Hv|..]; (split; [by apply knowsVersion_invariant|cbn; eauto]). Qed.
End stages.

(** Health checks do not crash.  Whatever else the cluster answers, if its objects are well
    formed, a run whose categories include those of the API, and that of the control plane's
    existence if they include high availability, ends without a crash: every check finds what
    the checks before it were to provide. *)
Lemma run_no_crash w ids options st :
  (∀ i, wellFormed (envAt w i)) → KubernetesAPIChecks ∈ ids →
  (LinkerdHAChecks ∈ ids → LinkerdControlPlaneExistenceChecks ∈ ids) →
  (HealthChecker_RunChecks w (NewHealthChecker version ids options) st).1 ≠ Broken Crashed.
Proof.
  intros Hw Hapi Hha. unfold HealthChecker_RunChecks, NewHealthChecker. change (enableCategories ids) with (fmap (M := list) (enable ids)).
  unfold allCategories. set (d := RetryDeadline options). generalize false at 1. intros wn.
  pose proof knowsVersion_invariant as HV. pose proof (afterExistence_invariant ids) as HA.
  apply (fine_stage w ids _ _ _ _ _ (λ _, True) knowsVersion); [done|done|done|intros _; by apply api_stage|]. intros s1 wn1 st1 Hst1.
  apply (fine_keep w Hw ids [_; _; _]) with (P := knowsVersion); [|done|].
  { apply Forall_cons_2; [by apply version_safe|]. apply Forall_cons_2; [by apply preInstall_safe|]. apply Forall_cons_2; [by apply crd_safe|]. by apply Forall_nil_2. }
  intros s2 wn2 st2 Hst2. apply (fine_stage w ids _ _ _ _ _ knowsVersion (afterExistence ids)); [done|done| | |].
  { intros Hno hc Hhc. split; [done|]. intros Hin. by destruct (Hno Hin). }
  { intros _. destruct (existence_stage w Hw ids d s2 wn2 st2 Hst2) as [Hnc Hc]. split; [exact Hnc|].
    intros s wn' Hx. destruct (Hc _ _ Hx). by split. }
  intros s3 wn3 st3 Hst3. apply (fine_keep w Hw ids [_; _]) with (P := afterExistence ids); [|done|].
  { apply Forall_cons_2; [by apply configs_safe|]. apply Forall_cons_2; [by apply cni_safe|]. by apply Forall_nil_2. }
  intros s4 wn4 st4 Hst4. apply (fine_stage w ids _ _ _ _ _ (afterExistence ids) (afterExistence ids)); [done|done|done|intros _; by apply identity_stage|].
  intros s5 wn5 st5 Hst5. apply (fine_keep w Hw ids [_; _; _; _; _; _]) with (P := afterExistence ids); [|done|].
  { apply Forall_cons_2; [by apply webhooks_safe|]. apply Forall_cons_2; [by apply identityDataPlane_safe|]. apply Forall_cons_2; [by apply versions_safe|].
    apply Forall_cons_2; [by apply controlPlaneVersion_safe|]. apply Forall_cons_2; [by apply controlPlaneProxy_safe|]. apply Forall_cons_2; [by apply dataPlane_safe|]. by apply Forall_nil_2. }
  intros s6 wn6 st6 Hst6. apply (fine_stage w ids _ _ _ _ _ (afterExistence ids) (afterExistence ids)); [done|done|done| |].
  { intros Hin. apply runCheckers_safe; [done| |done]. apply ha_safe; [done|]. intros hc [_ HC]. by apply HC, Hha. }
  intros s7 wn7 st7 Hst7. apply (fine_keep w Hw ids [_]) with (P := afterExistence ids) (rest := []); [|done|done].
  apply Forall_cons_2; [by apply extension_safe|]. by apply Forall_nil_2.
Qed.
End categories.

(** * Crashes and errors that are not seen *)
Section deviations.
Context `{!MapRange} `{!Decoding} `{!X509} `{!PEM} `{!Algorithms} (version : string).

(** A check that passes at once, one that crashes at once, and a category that is not enabled. *)
Lemma runCheckers_pass (w : World Cluster) (c : Category HealthChecker Cluster) ck f cs s wn st hc :
  check ck = Some f → f (checker st) (envAt w (attempts st)) (clock st) = (Ret (), hc) →
  runCheckers w c (ck :: cs) s wn st
  = runCheckers w c cs s wn (mkRun (S (attempts st)) (clock st + took w (attempts st)) hc (observed st ++ [resultOf c ck None])).
Proof.
  intros Hc Hf. cbn [runCheckers]. rewrite Hc. unfold enoughAttempts. destruct (retryDeadline ck); cbn [runCheck]; rewrite Hf; done.
Qed.
Lemma runCheckers_crash (w : World Cluster) (c : Category HealthChecker Cluster) ck f cs s wn st hc :
  check ck = Some f → f (checker st) (envAt w (attempts st)) (clock st) = (Crash, hc) →
  (runCheckers w c (ck :: cs) s wn st).1 = Broken Crashed.
Proof.
  intros Hc Hf. cbn [runCheckers]. rewrite Hc. unfold enoughAttempts. destruct (retryDeadline ck); cbn [runCheck]; rewrite Hf; done.
Qed.
Lemma runCategories_off (w : World Cluster) (c : Category HealthChecker Cluster) cs s wn st : enabled c = false → runCategories w (c :: cs) s wn st = runCategories w cs s wn st.
Proof. intros Hc. cbn [runCategories]. by rewrite Hc. Qed.
Lemma runCategories_on (w : World Cluster) (c : Category HealthChecker Cluster) l cs s wn st :
  enabled c = true → checkers c = l →
  runCategories w (c :: cs) s wn st
  = match runCheckers w c l s wn st with (Continue s wn, st) => runCategories w cs s wn st | other => other end.
Proof. intros Hc <-. cbn [runCategories]. by rewrite Hc. Qed.

(** A configuration without values is accepted by the check for the configuration and crashes
    the next one, which looks into it. *)
Lemma empty_values_crash w options st uid data :
  (∀ i, c_newAPI (envAt w i) = inr () ∧ (∃ v, c_version (envAt w i) = inr v)
        ∧ c_configMap (envAt w i) (ControlPlaneNamespace (checker st)) "linkerd-config" = (Some (mkConfigMap uid data), None)) →
  get data "values" = "" →
  (HealthChecker_RunChecks w (NewWithCoreChecks version options) st).1 = Broken Crashed.
Proof.
  intros Hw Hv. unfold HealthChecker_RunChecks, NewWithCoreChecks, NewHealthChecker, enableCategories, allCategories. cbn [fmap list_fmap].
  rewrite (runCategories_on _ _ (checkers (kubernetesAPICategory version))) by reflexivity. cbn [checkers kubernetesAPICategory NewCategory].
  erewrite runCheckers_pass; [|reflexivity|unfold InitializeKubeAPIClient; rewrite (proj1 (Hw _)); reflexivity].
  destruct (Hw (S (attempts st))) as (_ & [v Hver] & _).
  erewrite runCheckers_pass; [|reflexivity|
    unfold assign, call, client, try, mbind, H_bind, M_bind, lift; cbn [kubeAPI checker attempts set_kubeAPI]; rewrite Hver; reflexivity].
  cbn [runCheckers]. do 3 rewrite runCategories_off by reflexivity. rewrite (runCategories_on _ _ (checkers (existenceCategory version (RetryDeadline options)))) by reflexivity.
  cbn [checkers existenceCategory NewCategory].
  destruct (Hw (S (S (attempts st)))) as (_ & _ & Hcm).
  erewrite runCheckers_pass; [|reflexivity|
    unfold InitializeLinkerdGlobalConfig, checkLinkerdConfigConfigMap, FetchCurrentConfiguration, getConfigMap, client, gets, lift, mbind, H_bind, M_bind;
    cbn [kubeAPI checker attempts set_kubeAPI set_kubeVersion ControlPlaneNamespace]; rewrite Hcm; cbn [ofGet cm_Data]; rewrite Hv; reflexivity].
  match goal with |- context [runCheckers ?w ?c (?ck :: ?cs) ?s ?wn ?st] =>
    pose proof (runCheckers_crash w c ck _ cs s wn st _ eq_refl eq_refl) as Hx; destruct (runCheckers w c (ck :: cs) s wn st) end.
  cbn in Hx. by subst.
Qed.

(** Whether the CNI plugin runs on all nodes is reported as true when the daemon set could not
    be read: an error other than that it does not exist is dropped, and the empty object that
    came with it has as many pods ready as scheduled. *)
Lemma cni_error_passes hc c now ns message :
  kubeAPI hc = true → c_daemonSet c ns linkerdCNIResourceName = (Some (0, 0), Some (CallFailed message)) →
  (checkDaemonSetReady ns hc c now).1 = Ret ().
Proof.
  intros Hk Hd. unfold checkDaemonSetReady, fetchDaemonSet, client, mbind, H_bind, M_bind. rewrite Hk. cbn. rewrite Hd. reflexivity.
Qed.
End deviations.

(** * Example *)
(** A cluster that serves its version and the configuration, and nothing else. *)
Definition ex_values : ConfigValues := mkConfigValues false "10.0.0.0/8" false true None (Some "") "" "edge-24.11.8".
Definition ex_down : callError := CallFailed "down".
Definition ex_clusterState : Cluster :=
  mkCluster (inr ()) (inr "v1.30.2+k3s1") (λ _, inl ex_down) (λ _ _, (Some (mkConfigMap "uid" {["values" := "{}"]}), None))
    (λ _ _, inl ex_down) (λ _ _, inl ex_down) (λ _ _, (Some (0, 0), Some ex_down)) (λ _ _ _, inl ex_down) (λ _ _ _, inl ex_down)
    (λ _, inl ex_down) (λ _, inl ex_down) (λ _, inl ex_down) (λ _, inl ex_down) (λ _ _, inr []) (λ _, inl ex_down) (inl ex_down) []
    (λ _, inl ex_down) (λ _, inl ex_down) (λ _ _ _ _ _, inl ex_down) (λ _, Some ex_down) (λ _, inl ex_down) (λ _, inl ex_down)
    (λ _ _, inl ex_down) (λ _ _, inl ex_down).
Definition ex_decoding : Decoding :=
  {| decodeValues := λ _, inr ex_values; decodeValuesPointer := λ _, inr (Some ex_values); decodeCRD := λ _, inl ex_down;
     splitDocuments := λ s, [s]; readManifest := λ _, [] |}.
Definition ex_algorithms : Algorithms :=
  {| PublicKeyAlgorithm := λ _, ECDSA; SignatureAlgorithmOf := λ _, ECDSAWithSHA256; curveBitSize := λ _, 256 |}.
Definition ex_clusterWorld : World Cluster := mkWorld (λ _, ex_clusterState) (λ _, second) (λ _, retryWindow).
Definition ex_options : HealthChecker :=
  mkHealthChecker "linkerd" "linkerd-cni" "" "" (Some (12 * second)) false "" "" false None [] [] "" None "" None [] None.
Definition ex_ids : list string := [KubernetesAPIChecks; KubernetesVersionChecks; LinkerdVersionChecks; LinkerdConfigChecks;
  LinkerdControlPlaneExistenceChecks; LinkerdIdentity; LinkerdHAChecks].

Lemma ex_wellFormed : wellFormed (H1 := ex_decoding) ex_clusterState.
Proof.
  split; cbn.
  - by eexists.
  - by eexists.
  - by intros ns cm [= <-].
  - intros ns cm v _ [= <-]. by eexists.
  - by intros.
  - by intros v [= <-].
  - by intros ns sel pods [= <-].
Qed.
