(* ===== verification/HealthCheckProps.v ===== *)
(** What the health checks over single answers decide: expected resources, the readiness of the
    control plane, the namespaces of extensions, clocks, the state of proxies, and opaque ports
    of services and pods. *)
From S2P Require Import Prelude GoStd K8s PortRange Version PkgK8s Health HealthPure HealthChecks.

#[local] Open Scope string_scope.
#[local] Open Scope list_scope.
#[local] Open Scope Z_scope.

(** * Expected resources *)
Lemma lookup_expected names n : foldl (λ (m : gmap string bool) n, <[n := false]> m) ∅ names !! n = if bool_decide (n ∈ names) then Some false else None.
Proof.
  induction names as [|x names IH] using rev_ind; [done|]. rewrite foldl_app. cbn. destruct (decide (x = n)) as [->|Hne].
  - rewrite lookup_insert_eq. rewrite bool_decide_true; [done|]. set_solver.
  - rewrite lookup_insert_ne, IH by done. by rewrite (bool_decide_ext (n ∈ names ++ [x]) (n ∈ names)) by set_solver.
Qed.
Lemma lookup_found objs (m : gmap string bool) n :
  foldl (λ m o, if bool_decide (is_Some (m !! o)) then <[o := true]> m else m) m objs !! n
  = (λ b, b || bool_decide (n ∈ objs)) <$> m !! n.
Proof.
  revert m. induction objs as [|o objs IH]; intros m; cbn [foldl].
  { destruct (m !! n); cbn; [|done]. by rewrite bool_decide_false, orb_false_r by set_solver. }
  rewrite IH. destruct (decide (is_Some (m !! o))) as [Ho|Ho]; [rewrite (bool_decide_true (is_Some _)) by done|rewrite (bool_decide_false (is_Some _)) by done].
  - destruct (decide (o = n)) as [->|Hne].
    + rewrite lookup_insert_eq. destruct Ho as [b ->]. cbn. f_equal. rewrite (bool_decide_true (n ∈ n :: objs)) by set_solver. by rewrite orb_true_r.
    + rewrite lookup_insert_ne by done. destruct (m !! n); cbn; [|done]. do 2 f_equal. apply bool_decide_ext. set_solver.
  - destruct (m !! n) eqn:Hn; cbn; [|done]. do 2 f_equal. apply bool_decide_ext.
    assert (n ≠ o) by (intros ->; apply Ho; by eexists). set_solver.
Qed.

(** The names that are missing. *)
Definition missingNames (objects expectedNames : list string) : list string :=
  merge_sort String.le (remove_dups (filter (.∉ objects) expectedNames)).

(** Resources that should exist are looked for by name.  The check passes exactly if every
    expected name is that of an object, and its error lists each missing name once, sorted,
    in whichever order the map was read. *)
Lemma checkResources_exist `{!MapRange} what objects names :
  checkResources what objects names true
  = if bool_decide (missingNames objects names = []) then Ret ()
    else Throw (Failure ("missing " +:+ what +:+ ": " +:+ strings.Join (missingNames objects names) ", ")).
Proof.
  unfold checkResources. set (m := foldl _ (foldl _ ∅ names) objects).
  assert ((filter (λ e, e.2 = false) (range m)).*1 ≡ₚ remove_dups (filter (.∉ objects) names)) as Hperm.
  { apply NoDup_Permutation; [apply NoDup_fmap_filter, NoDup_range_keys|apply NoDup_remove_dups|]. intros n.
    rewrite elem_of_remove_dups, list_elem_of_filter, list_elem_of_fmap. split.
    - intros ([n' b] & -> & [Hb Hin]%list_elem_of_filter). apply elem_of_range in Hin. cbn in *. subst b m.
      rewrite lookup_found, lookup_expected in Hin.
      destruct (decide (n' ∈ names)); [rewrite (bool_decide_true (n' ∈ names)) in Hin by done|by rewrite (bool_decide_false (n' ∈ names)) in Hin].
      destruct (decide (n' ∈ objects)); [by rewrite bool_decide_true in Hin|by split].
    - intros [Hno Hin]. exists (n, false). split; [done|]. apply list_elem_of_filter. split; [done|]. apply elem_of_range. subst m.
      rewrite lookup_found, lookup_expected. rewrite (bool_decide_true (n ∈ names)) by done. cbn. by rewrite (bool_decide_false (n ∈ objects)). }
  assert (merge_sort String.le (filter (λ e, e.2 = false) (range m)).*1 = missingNames objects names) as Hsort.
  { unfold missingNames. apply (StronglySorted_unique String.le); [apply StronglySorted_merge_sort; apply _..|]. by rewrite !merge_sort_Permutation, Hperm. }
  rewrite Hsort.
  assert ((filter (λ e, e.2 = false) (range m)).*1 = [] ↔ missingNames objects names = []) as Hnil.
  { rewrite <-Hsort. split; [by intros ->|]. intros Hs. apply Permutation_nil. symmetry. by rewrite <-Hs, merge_sort_Permutation. }
  case_bool_decide as H1; case_bool_decide as H2; naive_solver.
Qed.

(** * The control plane *)
Lemma getPodStatuses_lookup pods name :
  NoDup (po_Name <$> pods) →
  (∀ m, getPodStatuses pods !! name = Some m → ∀ n cs,
     m !! n = Some cs ↔ ∃ pod, pod ∈ pods ∧ componentOf pod = Some name ∧ po_Name pod = n ∧ po_ContainerStatuses pod = cs)
  ∧ (getPodStatuses pods !! name = None ↔ ∀ pod, pod ∈ pods → componentOf pod ≠ Some name).
Proof.
  induction pods as [|pod pods IH] using rev_ind; [split; [done|]; split; [intros _ ? ?%elem_of_nil; done|done]|].
  rewrite fmap_app, NoDup_app. intros (Hnd & Hdis & _). destruct (IH Hnd) as [Hsome Hnone]. clear IH.
  assert (∀ p, p ∈ pods → po_Name p ≠ po_Name pod) as Hfresh.
  { intros p Hp Heq. apply (Hdis (po_Name p)); [by apply list_elem_of_fmap_2|]. cbn. rewrite Heq. set_solver. }
  unfold getPodStatuses. rewrite foldl_app. fold (getPodStatuses pods). cbn [foldl]. unfold addPodStatus.
  destruct (componentOf pod) as [c|] eqn:Hc.
  2:{ split; [intros m Hm n cs; rewrite (Hsome m Hm)|rewrite Hnone].
      - split; intros (p & Hp & Hcp & ?); exists p; (split; [|done]); [set_solver|].
        apply elem_of_app in Hp as [|Hp%list_elem_of_singleton]; [done|]. subst p. congruence.
      - split; [|set_solver]. intros Hall p [Hp|Hp%list_elem_of_singleton]%elem_of_app; [by apply Hall|]. subst p. congruence. }
  destruct (decide (c = name)) as [->|Hne].
  - rewrite lookup_insert_eq. split; [|split; [done|]; intros Hall; destruct (Hall pod); [set_solver|done]].
    intros m [= <-] n cs. destruct (decide (n = po_Name pod)) as [->|Hn].
    + rewrite lookup_insert_eq. split; [intros [= <-]; exists pod; split_and!; [set_solver|done..]|].
      intros (p & [Hp|Hp%list_elem_of_singleton]%elem_of_app & Hcp & Hnp & Hcs); [by destruct (Hfresh p Hp)|]. congruence.
    + rewrite lookup_insert_ne by done. destruct (getPodStatuses pods !! name) as [m|] eqn:Hm; cbn.
      * rewrite (Hsome m eq_refl). split; intros (p & Hp & Hcp & Hnp & Hcs); exists p; (split; [|done]); [set_solver|].
        apply elem_of_app in Hp as [|Hp%list_elem_of_singleton]; [done|]. subst p. congruence.
      * rewrite lookup_empty. split; [done|]. intros (p & [Hp|Hp%list_elem_of_singleton]%elem_of_app & Hcp & Hnp & Hcs).
        { by destruct (proj1 Hnone eq_refl p Hp). } subst p. congruence.
  - rewrite lookup_insert_ne by done. split; [intros m Hm n cs; rewrite (Hsome m Hm)|rewrite Hnone].
    + split; intros (p & Hp & Hcp & ?); exists p; (split; [|done]); [set_solver|].
      apply elem_of_app in Hp as [|Hp%list_elem_of_singleton]; [done|]. subst p. congruence.
    + split; [|set_solver]. intros Hall p [Hp|Hp%list_elem_of_singleton]%elem_of_app; [by apply Hall|]. subst p. congruence.
Qed.

Lemma podsReady_spec pods err : podsReady pods err = None ↔ ∃ n cs, (n, cs) ∈ pods ∧ ready cs = true.
Proof.
  revert err. induction pods as [|[n cs] pods IH]; intros err; cbn.
  { split; [done|]. by intros (? & ? & ?%elem_of_nil & _). }
  destruct (ready cs) eqn:Hr.
  - split; [|done]. intros _. exists n, cs. split; [apply list_elem_of_here|done].
  - rewrite IH. split.
    + intros (n' & cs' & Hin & Hr'). exists n', cs'. split; [by apply list_elem_of_further|done].
    + intros (n' & cs' & [[= -> ->]|Hin]%elem_of_cons & Hr'); [congruence|]. by exists n', cs'.
Qed.
Lemma podsReady_error pods err : err ≠ None ∨ pods ≠ [] → podsReady pods err ≠ Some None.
Proof.
  revert err. induction pods as [|[n cs] pods IH]; intros err He; cbn; [destruct He; [destruct err|]; done|].
  destruct (ready cs) eqn:Hr; [done|]. apply IH. left.
  assert (∃ c, c ∈ cs ∧ cs_Ready c = false) as (c & Hc & Hn).
  { unfold ready in Hr. clear -Hr. induction cs as [|c cs IH]; [done|]. cbn in Hr. apply andb_false_iff in Hr as [Hr|Hr].
    - exists c. split; [apply list_elem_of_here|done].
    - destruct (IH Hr) as (c' & Hc' & ?). exists c'. split; [by apply list_elem_of_further|done]. }
  assert (is_Some (last (filter (λ c, cs_Ready c = false) cs))) as [x ->]; [|done].
  apply last_is_Some. intros Hnil. assert (c ∈ filter (λ c, cs_Ready c = false) cs) as Hin by (by apply list_elem_of_filter).
  rewrite Hnil in Hin. by apply elem_of_nil in Hin.
Qed.

(** The control plane is ready.  With pods of different names, the check passes exactly if for
    each of the three components some running pod that is named after it has all its
    containers ready. *)
Theorem control_plane_ready `{!MapRange} pods :
  NoDup (po_Name <$> pods) →
  validateControlPlanePods pods = Ret ()
  ↔ ∀ name, name ∈ controlPlaneComponents → ∃ pod, pod ∈ pods ∧ componentOf pod = Some name ∧ ready (po_ContainerStatuses pod) = true.
Proof.
  intros Hnd. unfold validateControlPlanePods. induction controlPlaneComponents as [|name names IH]; cbn [validateComponents].
  { split; [|done]. by intros _ ? ?%elem_of_nil. }
  destruct (getPodStatuses_lookup pods name Hnd) as [Hsome Hnone].
  destruct (getPodStatuses pods !! name) as [m|] eqn:Hm.
  - specialize (Hsome m eq_refl).
    assert (podsReady (range m) None = None ↔ ∃ pod, pod ∈ pods ∧ componentOf pod = Some name ∧ ready (po_ContainerStatuses pod) = true) as Hr.
    { rewrite podsReady_spec. split.
      - intros (n & cs & Hin%elem_of_range & Hr). apply Hsome in Hin as (pod & Hp & Hc & _ & <-). by exists pod.
      - intros (pod & Hp & Hc & Hr). exists (po_Name pod), (po_ContainerStatuses pod). split; [|done]. apply elem_of_range, Hsome. by exists pod. }
    assert (range m ≠ []) as Hne.
    { intros Hnil. assert (∃ pod, pod ∈ pods ∧ componentOf pod = Some name) as (pod & Hp & Hc).
      { destruct (decide (Exists (λ p, componentOf p = Some name) pods)) as [(p & Hp & ?)%Exists_exists|Hno]; [by exists p|].
        discriminate (proj2 Hnone (λ p Hp Hc, Hno (proj2 (Exists_exists _ _) (ex_intro _ p (conj Hp Hc))))). }
      assert ((po_Name pod, po_ContainerStatuses pod) ∈ range m) as Hin by (apply elem_of_range, Hsome; by exists pod).
      rewrite Hnil in Hin. by apply elem_of_nil in Hin. }
    pose proof (podsReady_error (range m) None (or_intror Hne)) as He.
    destruct (podsReady (range m) None) as [[e|]|] eqn:Hp; [|done|].
    + split; [done|]. intros Hall. discriminate (proj2 Hr (Hall name (list_elem_of_here _ _))).
    + rewrite IH. split; [|intros Hall n Hn; apply Hall; by apply list_elem_of_further].
      intros Hall n [->|Hn]%elem_of_cons; [by apply Hr|by apply Hall].
  - split; [done|]. intros Hall. destruct (Hall name) as (pod & Hp & Hc & _); [apply list_elem_of_here|]. by destruct (proj1 Hnone eq_refl pod Hp).
Qed.

(** * Namespaces of extensions *)
Definition label (ns : string * strmap) : string := get ns.2 "linkerd.io/extension".

Lemma extensionFrequencies_lookup namespaces ext :
  default [] (extensionFrequencies namespaces !! ext)
  = (filter (λ ns, label ns = ext) namespaces).*1.
Proof.
  unfold extensionFrequencies. induction namespaces as [|ns namespaces IH] using rev_ind; [done|].
  rewrite foldl_app, filter_app, fmap_app, <-IH. cbn [foldl]. cbv zeta.
  fold (label ns). destruct (decide (label ns = ext)) as [<-|Hne].
  - rewrite lookup_insert_eq, filter_cons_True by done. done.
  - rewrite lookup_insert_ne, filter_cons_False by done. by rewrite app_nil_r.
Qed.

Lemma extensionFrequencies_nonempty namespaces ext l : extensionFrequencies namespaces !! ext = Some l → l ≠ [].
Proof.
  unfold extensionFrequencies. induction namespaces as [|ns namespaces IH] using rev_ind; [done|].
  rewrite foldl_app. cbn. intros [[_ <-]|[_ H]]%lookup_insert_Some; [by destruct (default _ _)|by apply IH].
Qed.

(** Every extension has one namespace: nothing is reported exactly if no two namespaces have the
    same value of the label. *)
Lemma extensions_unique `{!MapRange} namespaces :
  duplicatedExtensions namespaces = [] ↔ NoDup (label <$> namespaces).
Proof.
  assert (duplicatedExtensions namespaces = [] ↔ ∀ ext, length (filter (λ ns, label ns = ext) namespaces) ≤ 1)%nat as ->.
  { unfold duplicatedExtensions. split.
    - intros Hnil ext. rewrite <-(length_fmap fst), <-(extensionFrequencies_lookup namespaces ext).
      destruct (extensionFrequencies namespaces !! ext) as [l|] eqn:Hl; cbn; [|lia].
      destruct (decide (length l = 1)%nat); [lia|].
      assert ((ext, l) ∈ filter (λ e, length e.2 ≠ 1%nat) (range (extensionFrequencies namespaces))) as Hin.
      { apply list_elem_of_filter. split; [done|]. by apply elem_of_range. }
      rewrite Hnil in Hin. by apply elem_of_nil in Hin.
    - intros Hall. apply elem_of_nil_inv. intros [ext l] [Hlen Hin%elem_of_range]%list_elem_of_filter. cbn in Hlen.
      pose proof (extensionFrequencies_nonempty _ _ _ Hin). pose proof (extensionFrequencies_lookup namespaces ext) as Hf.
      rewrite Hin in Hf. cbn in Hf. specialize (Hall ext). rewrite <-(length_fmap fst), <-Hf in Hall.
      destruct l as [|? [|]]; [done|done|cbn in Hall; lia]. }
  induction namespaces as [|ns namespaces IH]; [split; [constructor|cbn; lia]|]. cbn [fmap list_fmap]. rewrite NoDup_cons, <-IH.
  split.
  - intros Hall. split.
    + intros (ns' & Heq & Hin)%list_elem_of_fmap. specialize (Hall (label ns)). rewrite filter_cons_True in Hall by done. cbn in Hall.
      assert (ns' ∈ filter (λ x, label x = label ns) namespaces) as Hf by (by apply list_elem_of_filter).
      destruct (filter _ namespaces); [by apply elem_of_nil in Hf|cbn in Hall; lia].
    + intros ext. specialize (Hall ext). destruct (decide (label ns = ext)); [rewrite filter_cons_True in Hall by done|by rewrite filter_cons_False in Hall by done].
      cbn in Hall. lia.
  - intros [Hno Hall] ext. destruct (decide (label ns = ext)) as [<-|]; [|by rewrite filter_cons_False].
    rewrite filter_cons_True by done. replace (filter (λ x, label x = label ns) namespaces) with (@nil (string * strmap)); [cbn; lia|].
    symmetry. apply elem_of_nil_inv. intros x [Hx Hin]%list_elem_of_filter. apply Hno. rewrite <-Hx. by apply list_elem_of_fmap_2.
Qed.

(** * Proxies *)
(** Pods that need no proxy any more, and pods whose proxy works. *)
Definition finished (status : string) : Prop := status ∈ ["Completed"; "NodeShutdown"; "Shutdown"; "Terminated"].
Definition podHealthy (pod : PodObject) : Prop :=
  ∃ status, GetPodStatus pod = Ok status ∧
    (finished status ∨ ((status = PodRunning ∨ status = "Evicted") ∧ GetProxyReady pod = true)).

(** The data plane is healthy exactly if there are pods, and each is done or has its proxy
    ready and is running, or was evicted. *)
Lemma CheckPodsRunning_spec pods ns : CheckPodsRunning pods ns = Ret () ↔ pods ≠ [] ∧ Forall podHealthy pods.
Proof.
  assert (podsRunning pods = Ret () ↔ Forall podHealthy pods) as Hr.
  { induction pods as [|pod pods IH]; [done|]. cbn. rewrite Forall_cons, <-IH. unfold podHealthy, finished.
    destruct (GetPodStatus pod) as [s| |]; [|split; [done|by intros [(? & [=] & _) _]]..].
    destruct (decide (s ∈ ["Completed"; "NodeShutdown"; "Shutdown"; "Terminated"])) as [Hf|Hf].
    { rewrite bool_decide_true by done. split; [intros; split; [exists s; auto|done]|by intros []]. }
    rewrite bool_decide_false by done. case_bool_decide as Hs.
    { split; [done|]. intros [(s' & [= <-] & [?|[? _]]) _]; [done|]. naive_solver. }
    destruct (GetProxyReady pod); cbn.
    - split; [|by intros []]. intros Hp. split; [|done]. exists s. split; [done|]. right. split; [|done].
      destruct (decide (s = PodRunning)); [by left|]. right. apply dec_stable. naive_solver.
    - split; [done|]. intros [(s' & [= <-] & [?|[_ ?]]) _]; done. }
  unfold CheckPodsRunning. case_bool_decide; [split; [done|by intros []]|]. rewrite Hr. naive_solver.
Qed.

(** Clocks are compared with the last heartbeat of ready nodes, within the allowance. *)
Lemma clockSkew_spec now nodes :
  clockSkewNodes now nodes = [] ↔
  ∀ n c, n ∈ nodes → c ∈ nd_Conditions n → nc_Type c = "Ready" → nc_Status c = "True" →
         Z.abs (now - nc_LastHeartbeatTime c) ≤ AllowedClockSkew.
Proof.
  assert (∀ c, skewed now c = true ↔ nc_Type c = "Ready" ∧ nc_Status c = "True" ∧ AllowedClockSkew < Z.abs (now - nc_LastHeartbeatTime c)) as Hs.
  { intros c. unfold skewed. rewrite andb_true_iff, orb_true_iff, bool_decide_eq_true, !Z.ltb_lt.
    assert (0 ≤ AllowedClockSkew) by (unfold AllowedClockSkew, second, Tls.DefaultClockSkewAllowance; lia).
    set (x := now - nc_LastHeartbeatTime c) in *. clearbody x. set (a := AllowedClockSkew) in *. clearbody a. split.
    - intros [[? ?] [?|?]]; (split; [done|]); (split; [done|]); lia.
    - intros (? & ? & ?). split; [done|]. lia. }
  unfold clockSkewNodes. split.
  - intros Hnil n c Hn Hc Ht Hst. destruct (Z.le_gt_cases (Z.abs (now - nc_LastHeartbeatTime c)) AllowedClockSkew); [done|].
    assert (nd_Name n ∈ nodes ≫= λ node, (λ _ : NodeCondition, nd_Name node) <$> filter (λ c, skewed now c = true) (nd_Conditions node)) as Hin.
    { apply list_elem_of_bind. exists n. split; [|done]. apply list_elem_of_fmap. exists c. split; [done|]. apply list_elem_of_filter.
      split; [|done]. apply Hs. split_and!; [done..|lia]. }
    rewrite Hnil in Hin. by apply elem_of_nil in Hin.
  - intros Hall. apply elem_of_nil_inv. intros x (n & (c & _ & [Hsk Hc]%list_elem_of_filter)%list_elem_of_fmap & Hn)%list_elem_of_bind.
    apply Hs in Hsk as (Ht & Hst & Hlt). specialize (Hall n c Hn Hc Ht Hst). lia.
Qed.

(** * Opaque ports *)
Definition validPort (n : Z) : Prop := 0 < n < 65536.
(** The container port a service port sends traffic to, by number or by name. *)
Definition targets (sp : ServicePort) (cp : ContainerPort) : Prop :=
  match sp_TargetPort sp with
  | FromInt i => cp_ContainerPort cp = i
  | FromString s => s ≠ "" ∧ cp_Name cp = s
  end.

(** Objects as the API server accepts them: ports are numbers of ports, the ports of a service
    differ, names of container ports differ unless they are empty, and so do their numbers;
    and no two ports of the service go to one container port. *)
Record portsValid (service : Service) (pod : PodObject) : Prop := {
  pv_service sp : sp ∈ svc_Ports service → validPort (sp_Port sp) ∧ sp_TargetPort sp ≠ FromInt 0;
  pv_pod cp : cp ∈ containerPorts pod → validPort (cp_ContainerPort cp);
  pv_servicePorts sp sp' : sp ∈ svc_Ports service → sp' ∈ svc_Ports service → sp_Port sp = sp_Port sp' → sp = sp';
  pv_names cp cp' : cp ∈ containerPorts pod → cp' ∈ containerPorts pod → cp_Name cp = cp_Name cp' → cp_Name cp ≠ "" → cp = cp';
  pv_numbers cp cp' : cp ∈ containerPorts pod → cp' ∈ containerPorts pod → cp_ContainerPort cp = cp_ContainerPort cp' → cp = cp';
  pv_targets sp sp' cp : sp ∈ svc_Ports service → sp' ∈ svc_Ports service → cp ∈ containerPorts pod →
    targets sp cp → targets sp' cp → sp = sp' }.

Lemma ContainsString_spec s l : ContainsString s l = true ↔ s ∈ l.
Proof.
  induction l as [|x l IH]; cbn; [split; [done|by intros ?%elem_of_nil]|]. case_bool_decide as Hx; [subst; set_solver|].
  rewrite IH, elem_of_cons. naive_solver.
Qed.

Lemma servicePortsOpaque_each service pod podPorts ports p port :
  servicePortsOpaque service pod podPorts ports = Ret () → p ∈ ports → strconv.Atoi p = Some port →
  checkPodPorts service pod podPorts port = Ret ().
Proof.
  induction ports as [|q ports IH]; [by intros _ ?%elem_of_nil|]. cbn. intros Hr Hin Hp.
  destruct (strconv.Atoi q) as [n|] eqn:Hq; [|done]. destruct (checkPodPorts service pod podPorts n) as [[]|e|] eqn:Hc; [|done..].
  apply elem_of_cons in Hin as [->|Hin]; [congruence|by apply IH].
Qed.
Lemma podPortsOpaque_each service pod svcPorts ports p port :
  podPortsOpaque service pod svcPorts ports = Ret () → p ∈ ports → p ∉ svcPorts → strconv.Atoi p = Some port →
  checkServiceIntPorts service svcPorts port = Ret true
  ∨ (checkServiceIntPorts service svcPorts port = Ret false ∧ checkServiceNamePorts service pod port svcPorts = Ret ()).
Proof.
  induction ports as [|q ports IH]; [by intros _ ?%elem_of_nil|]. cbn. intros Hr Hin Hno Hp.
  destruct (decide (p = q)) as [<-|Hne].
  - destruct (ContainsString p svcPorts) eqn:Hc; [by apply ContainsString_spec in Hc|]. rewrite Hp in Hr.
    destruct (checkServiceIntPorts service svcPorts port) as [[]|e|]; [by left| |done..]. right. split; [done|].
    by destruct (checkServiceNamePorts service pod port svcPorts) as [[]|e|].
  - apply elem_of_cons in Hin as [->|Hin]; [done|]. destruct (ContainsString q svcPorts); [by apply IH|].
    destruct (strconv.Atoi q) as [n|]; [|done]. destruct (checkServiceIntPorts service svcPorts n) as [[]|e|]; [by apply IH| |done..].
    destruct (checkServiceNamePorts service pod n svcPorts) as [[]|e|]; [by apply IH|done..].
Qed.

Section opaque.
Context (service : Service) (pod : PodObject) (Hv : portsValid service pod).

Lemma checkPodPorts_sound podPorts sp cp :
  sp ∈ svc_Ports service → cp ∈ containerPorts pod → targets sp cp →
  checkPodPorts service pod podPorts (sp_Port sp) = Ret () → strconv.Itoa (cp_ContainerPort cp) ∈ podPorts.
Proof.
  intros Hsp Hcp Ht. unfold checkPodPorts.
  destruct (list_find _ _) as [[i [sp' cp']]|] eqn:Hf.
  - apply list_find_Some in Hf as (Hi%list_elem_of_lookup_2 & Hm & _). cbn in Hm.
    apply list_elem_of_bind in Hi as (x & (y & [= <- <-] & Hcp')%list_elem_of_fmap & [Hport Hsp']%list_elem_of_filter).
    assert (sp' = sp) as -> by (eapply pv_servicePorts; eauto).
    destruct (ContainsString _ podPorts) eqn:Hc; [|done]. intros _. apply ContainsString_spec in Hc. unfold targets in Ht.
    destruct (pv_service _ _ Hv _ Hsp) as [_ Hnz]. destruct (sp_TargetPort sp) as [n|s]; cbn in *; [congruence|].
    destruct Ht as [Hs Hn]. destruct Hm as [Hm|Hm]; [destruct (pv_pod _ _ Hv _ Hcp'); lia|].
    assert (cp = cp') as -> by (eapply pv_names; eauto; congruence). done.
  - apply list_find_None in Hf. rewrite Forall_forall in Hf. destruct (Hf (sp, cp)).
    + apply list_elem_of_bind. exists sp. split; [by apply list_elem_of_fmap_2|by apply list_elem_of_filter].
    + cbn. unfold targets in Ht. destruct (sp_TargetPort sp); cbn; [by left|]. right. by destruct Ht.
Qed.

Lemma serviceIntPorts_found svcPorts port ports :
  serviceIntPorts service svcPorts port ports = Ret true →
  ∃ sp, sp ∈ ports ∧ IntVal (sp_TargetPort sp) = port ∧ strconv.Itoa (sp_Port sp) ∈ svcPorts.
Proof.
  induction ports as [|p ports IH]; [done|]. cbn. case_bool_decide; [done|]. case_bool_decide as Hi.
  - destruct (ContainsString _ svcPorts) eqn:Hc; [|done]. apply ContainsString_spec in Hc. intros _. exists p. set_solver.
  - intros (sp & Hsp & ? & ?)%IH. exists sp. set_solver.
Qed.
Lemma serviceIntPorts_absent svcPorts port ports sp :
  serviceIntPorts service svcPorts port ports = Ret false → sp ∈ ports → IntVal (sp_TargetPort sp) ≠ port.
Proof.
  induction ports as [|p ports IH]; [by intros _ ?%elem_of_nil|]. cbn. case_bool_decide; [done|]. case_bool_decide as Hi.
  - by destruct (ContainsString _ svcPorts).
  - intros Hr [->|Hin]%elem_of_cons; [done|by apply IH].
Qed.

Lemma servicePort_sound svcPorts sp cp :
  sp ∈ svc_Ports service → cp ∈ containerPorts pod → targets sp cp →
  (checkServiceIntPorts service svcPorts (cp_ContainerPort cp) = Ret true
   ∨ (checkServiceIntPorts service svcPorts (cp_ContainerPort cp) = Ret false
      ∧ checkServiceNamePorts service pod (cp_ContainerPort cp) svcPorts = Ret ())) →
  strconv.Itoa (sp_Port sp) ∈ svcPorts.
Proof.
  intros Hsp Hcp Ht [Hr|[Hr Hn]].
  - apply serviceIntPorts_found in Hr as (sp' & Hsp' & Hi & Hin).
    destruct (pv_pod _ _ Hv _ Hcp) as [Hpos _].
    assert (targets sp' cp) as Ht' by (unfold targets; destruct (sp_TargetPort sp'); cbn in Hi; [done|lia]).
    by assert (sp' = sp) as -> by (eapply pv_targets; eauto).
  - pose proof (serviceIntPorts_absent _ _ _ sp Hr Hsp) as Hno. unfold targets in Ht.
    destruct (sp_TargetPort sp) as [n|s] eqn:Htp; cbn in Hno; [done|]. destruct Ht as [Hs Hname]. unfold checkServiceNamePorts in Hn.
    destruct (list_find _ _) as [[i [sp' cp']]|] eqn:Hf.
    + apply list_find_Some in Hf as (Hi%list_elem_of_lookup_2 & [Hnum Hnm] & _). cbn in *.
      apply list_elem_of_bind in Hi as (x & (y & [= <- <-] & Hcp')%list_elem_of_fmap & [Hne Hsp']%list_elem_of_filter).
      destruct (ContainsString _ svcPorts) eqn:Hc; [|done]. apply ContainsString_spec in Hc.
      assert (cp' = cp) as -> by (by eapply pv_numbers).
      assert (sp' = sp) as ->; [|done]. eapply pv_targets; eauto; unfold targets; [|by rewrite Htp].
      destruct (sp_TargetPort sp'); cbn in *; done.
    + apply list_find_None in Hf. rewrite Forall_forall in Hf. destruct (Hf (sp, cp)).
      * apply list_elem_of_bind. exists sp. split; [by apply list_elem_of_fmap_2|]. apply list_elem_of_filter. by rewrite Htp.
      * cbn. by rewrite Htp.
Qed.
End opaque.

(** Opaque ports agree.  If the annotations of a service and a pod pass, then for every service
    port and the container port it goes to: if the service port is opaque so is the container
    port, and if the container port is opaque so is the service port, unless the number of the
    container port itself is among the service's opaque ports. *)
Theorem opaque_ports_agree service pod sp cp :
  portsValid service pod → misconfiguredOpaqueAnnotation service pod = Ret () →
  sp ∈ svc_Ports service → cp ∈ containerPorts pod → targets sp cp →
  let svcPorts := opaquePorts (svc_Annotations service) in
  let podPorts := opaquePorts (po_Annotations pod) in
  (strconv.Itoa (sp_Port sp) ∈ svcPorts → strconv.Itoa (cp_ContainerPort cp) ∈ podPorts)
  ∧ (strconv.Itoa (cp_ContainerPort cp) ∈ podPorts →
     strconv.Itoa (sp_Port sp) ∈ svcPorts ∨ strconv.Itoa (cp_ContainerPort cp) ∈ svcPorts).
Proof.
  intros Hv Hm Hsp Hcp Ht svcPorts podPorts. unfold misconfiguredOpaqueAnnotation in Hm. fold svcPorts podPorts in Hm.
  destruct (servicePortsOpaque service pod podPorts svcPorts) as [[]|e|] eqn:Hs; [|done..].
  destruct (pv_service _ _ Hv _ Hsp) as [Hport _]. destruct (pv_pod _ _ Hv _ Hcp) as [Hcpos Hcmax]. unfold validPort in *. split.
  - intros Hin. eapply checkPodPorts_sound; eauto. eapply servicePortsOpaque_each; [done|exact Hin|]. apply strconv.Atoi_Itoa. lia.
  - intros Hin. destruct (decide (strconv.Itoa (cp_ContainerPort cp) ∈ svcPorts)); [by right|left].
    eapply servicePort_sound; eauto. eapply podPortsOpaque_each; [done|exact Hin|done|]. apply strconv.Atoi_Itoa. lia.
Qed.

(** * Examples *)
Definition ex_service : Service :=
  mkService "web" "ns" "" ∅ {[ProxyOpaquePortsAnnotation := "80"]} "ClusterIP" "10.0.0.1" [] None
    [mkServicePort "http" 80 "TCP" (FromString "http"); mkServicePort "admin" 81 "TCP" (FromInt 9090)] None false.
Definition ex_container (ports : list ContainerPort) : PodContainer := mkPodContainer "web" "web:1" None ports [].
Definition ex_podWith (annotation : string) (ports : list ContainerPort) : PodObject :=
  mkPodObject "web-1" "ns" ∅ {[ProxyOpaquePortsAnnotation := annotation]} [] "default" false [] [ex_container ports] "Running" "" "10.0.0.2" [] [] [].
Definition ex_pod : PodObject := ex_podWith "8080" [mkContainerPort "http" 8080 0; mkContainerPort "admin" 9090 0].

Lemma ex_portsValid : portsValid ex_service ex_pod.
Proof.
  assert (svc_Ports ex_service = [mkServicePort "http" 80 "TCP" (FromString "http"); mkServicePort "admin" 81 "TCP" (FromInt 9090)]) as Hs by reflexivity.
  assert (containerPorts ex_pod = [mkContainerPort "http" 8080 0; mkContainerPort "admin" 9090 0]) as Hp by reflexivity.
  split; rewrite ?Hs, ?Hp; unfold validPort, targets.
  - intros sp [->|[->|[]%elem_of_nil]%elem_of_cons]%elem_of_cons; cbn; split; (lia || done).
  - intros cp [->|[->|[]%elem_of_nil]%elem_of_cons]%elem_of_cons; cbn; lia.
  - intros sp sp' [->|[->|[]%elem_of_nil]%elem_of_cons]%elem_of_cons [->|[->|[]%elem_of_nil]%elem_of_cons]%elem_of_cons; cbn; done.
  - intros sp sp' [->|[->|[]%elem_of_nil]%elem_of_cons]%elem_of_cons [->|[->|[]%elem_of_nil]%elem_of_cons]%elem_of_cons; cbn; done.
  - intros sp sp' [->|[->|[]%elem_of_nil]%elem_of_cons]%elem_of_cons [->|[->|[]%elem_of_nil]%elem_of_cons]%elem_of_cons; cbn; done.
  - intros sp sp' cp [->|[->|[]%elem_of_nil]%elem_of_cons]%elem_of_cons [->|[->|[]%elem_of_nil]%elem_of_cons]%elem_of_cons
      [->|[->|[]%elem_of_nil]%elem_of_cons]%elem_of_cons; cbn; naive_solver.
Qed.

Lemma opaque_ports_agree_witness :
  strconv.Itoa 8080 ∈ opaquePorts (po_Annotations ex_pod) ∧ misconfiguredOpaqueAnnotation ex_service ex_pod = Ret ().
Proof.
  assert (misconfiguredOpaqueAnnotation ex_service ex_pod = Ret ()) as Hm by (vm_compute; reflexivity). split; [|exact Hm].
  apply (opaque_ports_agree ex_service ex_pod (mkServicePort "http" 80 "TCP" (FromString "http")) (mkContainerPort "http" 8080 0)
    ex_portsValid Hm).
  - apply list_elem_of_here.
  - apply list_elem_of_here.
  - by split.
  - vm_compute. apply list_elem_of_here.
Defined.

(** A range of ports, which the annotation allows, is reported as an error. *)
Lemma range_rejected :
  ParsePorts "4000-4002" = {[4000; 4001; 4002]} ∧
  misconfiguredOpaqueAnnotation ex_service (ex_podWith "4000-4002" []) = Throw (notAPort "4000-4002" ex_pod).
Proof. split; vm_compute; reflexivity. Qed.

(** A container port without a name is taken for the target of every service port that goes to
    a number: the pod is blamed for a port it does not have. *)
Definition ex_numbered : Service :=
  mkService "web" "ns" "" ∅ {[ProxyOpaquePortsAnnotation := "81"]} "ClusterIP" "10.0.0.1" [] None
    [mkServicePort "admin" 81 "TCP" (FromInt 9090)] None false.
Lemma unnamed_port_blamed :
  misconfiguredOpaqueAnnotation ex_numbered (ex_podWith "8080" [mkContainerPort "" 8080 0]) ≠ Ret ()
  ∧ misconfiguredOpaqueAnnotation ex_numbered (ex_podWith "8080" [mkContainerPort "http" 8080 0]) = Ret ().
Proof. split; [vm_compute; discriminate|vm_compute; reflexivity]. Qed.

Definition ex_component (n : string) : PodObject :=
  mkPodObject ("linkerd-" +:+ n +:+ "-5b9-x7") "linkerd" ∅ ∅ [] "" false [] [] "Running" "" "" [] []
    [mkContainerStatus "c" true None (mkContainerState None true None)].
Definition ex_controlPlane : list PodObject := ex_component <$> controlPlaneComponents.
Lemma control_plane_ready_witness :
  validateControlPlanePods (H := range_in_order) ex_controlPlane = Ret ().
Proof.
  apply (control_plane_ready (H0 := range_in_order) ex_controlPlane).
  - apply (bool_decide_unpack _). vm_compute. exact I.
  - intros name Hin. exists (ex_component name). split; [by apply list_elem_of_fmap_2|]. split; [|reflexivity].
    apply elem_of_cons in Hin as [->|[->|[->|[]%elem_of_nil]%elem_of_cons]%elem_of_cons]; vm_compute; reflexivity.
Defined.
