(* ===== verification/Check.v ===== *)
(** The command [linkerd check]: its flags, the categories it runs and its exit code
    ([cli/cmd/check.go]), and the checks of extensions ([cli/cmd/check_extensions.go]).

    Files, executables and the processes that are run are the record [System]; rendering the
    manifests is an argument. *)
From S2P Require Import IdentityProps.
From S2P Require Import Prelude GoStd K8s Version PkgK8s Tls IssuerCerts Health HealthProps HealthPure HealthChecks HealthSafety.

#[local] Open Scope string_scope.
#[local] Open Scope list_scope.
#[local] Open Scope Z_scope.
#[local] Open Scope go_scope.

(** * Flags and categories *)
Record checkOptions := mkCheckOptions {
  versionOverride : string; preInstallOnly : bool; crdsOnly : bool; dataPlaneOnly : bool; wait : Z;
  o_namespace : string; cniEnabled : bool; output : string; cliVersionOverride : string }.

Definition newCheckOptions : checkOptions := mkCheckOptions "" false false false (300 * second) "" false "table" "".

Definition validate (o : checkOptions) : res () :=
  if preInstallOnly o && dataPlaneOnly o then Err "--pre and --proxy flags are mutually exclusive"
  else if preInstallOnly o && crdsOnly o then Err "--pre and --crds flags are mutually exclusive"
  else if negb (preInstallOnly o) && cniEnabled o then Err "--linkerd-cni-enabled can only be used with --pre"
  else if bool_decide (output o ∉ ["table"; "json"; "short"]) then Err "Invalid output type"
  else Ok ().

(** No category has this identifier. *)
Definition LinkerdOpaquePortsDefinitionChecks : string := "linkerd-opaque-ports-definition".

Definition checkCategories (o : checkOptions) : list string :=
  [KubernetesAPIChecks; KubernetesVersionChecks; LinkerdVersionChecks] ++
  (if preInstallOnly o then LinkerdPreInstallChecks :: (if cniEnabled o then [LinkerdCNIPluginChecks] else [])
   else if crdsOnly o then [LinkerdCRDChecks]
   else [LinkerdConfigChecks; LinkerdControlPlaneExistenceChecks; LinkerdIdentity; LinkerdWebhooksAndAPISvcTLS;
         LinkerdControlPlaneProxyChecks] ++
        (if dataPlaneOnly o then [LinkerdDataPlaneChecks; LinkerdIdentityDataPlane; LinkerdOpaquePortsDefinitionChecks]
         else [LinkerdControlPlaneVersionChecks; LinkerdExtensionChecks]) ++
        [LinkerdCNIPluginChecks; LinkerdHAChecks]).

(** The options of the checker; the deadline is that of the whole command. *)
Definition checkerOptions (o : checkOptions) (now : Z) (ns cniNs installManifest crdManifest : string) : HealthChecker :=
  mkHealthChecker ns cniNs (o_namespace o) (versionOverride o) (Some (now + wait o)) (cniEnabled o) installManifest crdManifest
    false None [] [] "" None "" None [] None.

(** * Extensions *)
Record extension := mkExtension { ext_path : string; ext_builtin : string }.

#[export] Instance extension_eq_dec : EqDecision extension.
Proof. solve_decision. Defined.

Record System := mkSystem {
  globs : list (option (list string))  (* the matches of linkerd-* in each directory of the path *);
  LookPath : string → option string;
  metadata : string → option (string * string)  (* the name and checks an executable announces *);
  self : string  (* os.Args[0] *);
  namespaceLabels : option (list string)  (* the extensions installed in the cluster *);
  run : string → list string → string * string  (* the output and the errors of a command *);
  unmarshal : string → option CheckOutput }.

Definition builtInChecks : list string := ["jaeger"; "multicluster"; "viz"].

Definition fileName (path : string) : string := default "" (last (strings.Split path "/")).
Definition suffix (s : string) : string := default "" (stripPrefix "linkerd-" (fileName s)).

Fixpoint collectMatches (LookPath : string → option string) (matches : list string) (acc : list string * gset string)
    : list string * gset string :=
  match matches with
  | [] => acc
  | m :: matches =>
      let '(executables, seen) := acc in
      collectMatches LookPath matches
        (if bool_decide (suffix m ∈ seen) then acc
         else match LookPath m with Some path => (executables ++ [path], {[suffix m]} ∪ seen) | None => acc end)
  end.
Definition findCLIExtensionsOnPath (sys : System) : list string :=
  (foldl (λ acc g, match g with Some matches => collectMatches (LookPath sys) (merge_sort String.le matches) acc | None => acc end)
     ([], ∅) (globs sys)).1.

(** Names are compared without regard to case, here of ASCII letters. *)
Definition isAlwaysCheck (sys : System) (path : string) : bool :=
  match metadata sys path with
  | Some (name, checks) => bool_decide (strings.ToLower name = strings.ToLower (fileName path) ∧ checks = "always")
  | None => false
  end.
Definition findAlwaysChecks (sys : System) (cliExtensions : list string) : list extension :=
  (λ e, mkExtension e "") <$> filter (λ e, isAlwaysCheck sys e = true) cliExtensions.

(** The executables whose extension is in the cluster; each takes its label out of the set. *)
Fixpoint onCluster (cliExtensions : list string) (labels : gset string) : list extension * gset string :=
  match cliExtensions with
  | [] => ([], labels)
  | e :: es =>
      if bool_decide (suffix e ∈ labels)
      then let '(exts, rest) := onCluster es (labels ∖ {[suffix e]}) in (mkExtension e "" :: exts, rest)
      else onCluster es labels
  end.

(** The order of the result. *)
Definition ext_le (a b : extension) : Prop :=
  if bool_decide (ext_path a ≠ ext_path b) then String.le (fileName (ext_path a)) (fileName (ext_path b))
  else String.le (ext_builtin a) (ext_builtin b).
#[export] Instance ext_le_dec a b : Decision (ext_le a b).
Proof. unfold ext_le. destruct (bool_decide _); apply _. Defined.

Definition findExtensions (sys : System) (nsLabels : list string) : list extension * list string :=
  let cliExtensions := findCLIExtensionsOnPath sys in
  let always := findAlwaysChecks sys cliExtensions in
  let alwaysSuffixSet : gset string := list_to_set ((λ e, suffix (ext_path e)) <$> always) in
  let nsLabelSet : gset string := list_to_set nsLabels ∖ alwaysSuffixSet in
  let '(cluster, rest) := onCluster cliExtensions nsLabelSet in
  let builtin := filter (.∈ builtInChecks) (elements rest) in
  let missing := filter (.∉ builtInChecks) (elements rest) in
  (merge_sort ext_le (always ++ cluster ++ (mkExtension (self sys) <$> builtin)),
   merge_sort String.le ((λ l, "linkerd-" +:+ l) <$> missing)).

Definition extensionArgs (flags : list string) (e : extension) : list string :=
  (if bool_decide (ext_builtin e ≠ "") then [ext_builtin e] else []) ++ "check" :: flags.

(** The results of one extension, and whether its output could be read. *)
Definition extensionResults (sys : System) (version : string) (flags : list string) (e : extension) : list CheckResult * bool :=
  let '(stdout, stderr) := run sys (ext_path e) (extensionArgs flags e) in
  match parseJSONCheckOutput (unmarshal sys stdout) with
  | Some results => (results, true)
  | None =>
      ([mkCheckResult (fileName (ext_path e)) ("Running: " +:+ ext_path e +:+ " " +:+ strings.Join (extensionArgs flags e) " ")
          (HintBaseURL version +:+ "extensions") false false
          (Some (Failure (if bool_decide (stderr ≠ "") then stderr else "invalid extension check output")))], false)
  end.
Definition missingResult (version m : string) : CheckResult :=
  mkCheckResult m ("Linkerd extension command " +:+ m +:+ " exists") (HintBaseURL version +:+ "extensions") false true
    (Some (Failure ("exec: " +:+ m +:+ ": executable file not found in $PATH"))).

Definition combine (acc : bool * bool) (verdict : bool * bool) : bool * bool := (acc.1 && verdict.1, acc.2 || verdict.2).
Definition runExtension (sys : System) (version : string) (flags : list string) (acc : bool * bool) (e : extension) : bool * bool :=
  let '(results, read) := extensionResults sys version flags e in
  combine (combine acc (read, false)) (CheckResults_RunChecks results).
Definition runMissing (version : string) (acc : bool * bool) (m : string) : bool * bool :=
  combine acc (CheckResults_RunChecks [missingResult version m]).
Definition runExtensionsChecks (sys : System) (version : string) (extensions : list extension) (missing flags : list string) : bool * bool :=
  foldl (runMissing version) (foldl (runExtension sys version flags) (true, false) extensions) missing.

(** [None] when the namespaces of the extensions could not be listed. *)
Definition runExtensionChecks (sys : System) (version : string) (flags : list string) : option (bool * bool) :=
  nsLabels ← namespaceLabels sys;
  let '(extensions, missing) := findExtensions sys nsLabels in
  Some (if bool_decide (extensions = [] ∧ missing = []) then (true, false)
        else runExtensionsChecks sys version extensions missing flags).

(** The flags an extension is run with; [lookup] gives the value of a flag the command defines. *)
Definition extensionFlags : list string :=
  ["api-addr"; "context"; "as"; "as-group"; "kubeconfig"; "linkerd-namespace"; "verbose"; "namespace"; "proxy"; "wait"].
Definition getExtensionCheckFlags (lookup : string → option string) : list string :=
  omap (λ f, val ← lookup f; if bool_decide (val ≠ "") then Some ("--" +:+ f +:+ "=" +:+ val) else None) extensionFlags
  ++ ["--output=json"].

(** * The command *)
Inductive exit := Invalid (message : string) | Exit (code : Z) | Panics | Hangs.

Section command.
Context `{!MapRange} `{!Decoding} `{!X509} `{!PEM} `{!Algorithms}.

Definition configureAndRunChecks (o : checkOptions) (w : World Cluster) (sys : System) (version : string) (now : Z) (ns cniNs : string)
    (crds install : option string) (lookup : string → option string) : exit :=
  match validate o with
  | Ok _ =>
      let version := if bool_decide (cliVersionOverride o ≠ "") then cliVersionOverride o else version in
      match crds with
      | None => Invalid "render"
      | Some crdManifest =>
          match (if preInstallOnly o then install else Some "") with
          | None => Exit 1
          | Some installManifest =>
              let options := checkerOptions o now ns cniNs installManifest crdManifest in
              match (HealthChecker_RunChecks w (NewHealthChecker version (checkCategories o) options) (mkRun 0 now options [])).1 with
              | Return success _ | Continue success _ =>
                  if preInstallOnly o || crdsOnly o then Exit (if success then 0 else 1)
                  else match runExtensionChecks sys version (getExtensionCheckFlags lookup) with
                       | None => Exit 1
                       | Some (extensionSuccess, _) => Exit (if success && extensionSuccess then 0 else 1)
                       end
              | Broken NoFuel => Hangs
              | Broken _ => Panics
              end
          end
      end
  | Err e => Invalid e
  | Panic => Panics
  end.
End command.

(** * Which extensions are checked *)
Definition extName (e : extension) : string := if bool_decide (ext_builtin e ≠ "") then ext_builtin e else suffix (ext_path e).

(** Looking a path up does not change the name of the file. *)
Definition keepsName (LookPath : string → option string) : Prop := ∀ m p, LookPath m = Some p → suffix p = suffix m.

Lemma collectMatches_spec look matches acc :
  keepsName look → NoDup (suffix <$> acc.1) → acc.2 = list_to_set (suffix <$> acc.1) →
  NoDup (suffix <$> (collectMatches look matches acc).1)
  ∧ (collectMatches look matches acc).2 = list_to_set (suffix <$> (collectMatches look matches acc).1).
Proof.
  intros Hk. revert acc. induction matches as [|m matches IH]; intros [exes seen] Hnd Hs; [done|]. cbn [collectMatches].
  cbn in Hnd, Hs. subst seen. case_bool_decide as Hin; [by apply IH|]. destruct (look m) as [path|] eqn:Hl; [|by apply IH].
  pose proof (Hk _ _ Hl) as Hsuf.
  apply IH; cbn [fst snd]; rewrite fmap_app; cbn [fmap list_fmap]; rewrite Hsuf; [|set_solver].
  apply NoDup_app. split; [done|]. split; [|apply NoDup_singleton]. set_solver.
Qed.

Lemma executables_unique sys : keepsName (LookPath sys) → NoDup (suffix <$> findCLIExtensionsOnPath sys).
Proof.
  intros Hk. unfold findCLIExtensionsOnPath.
  cut (∀ gs acc, NoDup (suffix <$> acc.1) → acc.2 = list_to_set (suffix <$> acc.1) →
    NoDup (suffix <$> (foldl (λ acc g, match g with Some matches => collectMatches (LookPath sys) (merge_sort String.le matches) acc | None => acc end)
      acc gs).1)); [intros H; apply H; [constructor|done]|].
  induction gs as [|[g|] gs IH]; intros acc Hnd Hs; cbn [foldl]; [done| |by apply IH].
  destruct (collectMatches_spec (LookPath sys) (merge_sort String.le g) acc Hk Hnd Hs). by apply IH.
Qed.

(** The executables taken for labels, and the labels that are left. *)
Lemma onCluster_spec es labels :
  NoDup (suffix <$> es) →
  extName <$> (onCluster es labels).1 = filter (.∈ labels) (suffix <$> es)
  ∧ (onCluster es labels).2 = labels ∖ list_to_set (suffix <$> es).
Proof.
  revert labels. induction es as [|e es IH]; intros labels; [intros _; split; [done|set_solver]|].
  cbn [fmap list_fmap onCluster]. rewrite NoDup_cons. intros [Hni Hnd]. case_bool_decide as Hin.
  - destruct (IH (labels ∖ {[suffix e]}) Hnd) as [H1 H2]. destruct (onCluster es _) as [exts rest]. cbn [fst snd] in *. subst rest.
    rewrite filter_cons_True by done. split; [|set_solver]. cbn [fmap list_fmap]. rewrite H1. f_equal. apply filter_iff_in. set_solver.
  - destruct (IH labels Hnd) as [-> ->]. rewrite filter_cons_False by done. split; [done|set_solver].
Qed.

(** The extensions that are run, before they are sorted: those that always are, those installed
    whose executable was found, and those installed that are built in. *)
Definition toRun (sys : System) (labels : list string) : list string :=
  let exes := suffix <$> findCLIExtensionsOnPath sys in
  let always := suffix <$> filter (λ e, isAlwaysCheck sys e = true) (findCLIExtensionsOnPath sys) in
  let installed : gset string := list_to_set labels ∖ list_to_set always in
  always ++ filter (.∈ installed) exes ++ filter (.∈ builtInChecks) (elements (installed ∖ list_to_set exes)).

Lemma findExtensions_names sys labels :
  keepsName (LookPath sys) →
  extName <$> (findExtensions sys labels).1 ≡ₚ toRun sys labels
  ∧ (findExtensions sys labels).2 ≡ₚ (λ l, "linkerd-" +:+ l) <$>
      filter (.∉ builtInChecks) (elements (list_to_set labels ∖ list_to_set (suffix <$> filter (λ e, isAlwaysCheck sys e = true) (findCLIExtensionsOnPath sys))
        ∖ list_to_set (suffix <$> findCLIExtensionsOnPath sys) : gset string)).
Proof.
  intros Hk. pose proof (executables_unique sys Hk) as Hnd. unfold findExtensions, toRun, findAlwaysChecks.
  set (exes := findCLIExtensionsOnPath sys) in *. set (always := filter _ exes).
  assert (((λ e, suffix (ext_path e)) <$> ((λ e, mkExtension e "") <$> always)) = suffix <$> always) as ->
    by (rewrite <-list_fmap_compose; done).
  destruct (onCluster_spec exes (list_to_set labels ∖ list_to_set (suffix <$> always)) Hnd) as [H1 H2].
  destruct (onCluster exes _) as [cluster rest]. cbn in H1, H2. subst rest. cbn [fst snd]. split; [|apply merge_sort_Permutation].
  rewrite merge_sort_Permutation, !fmap_app, H1.
  assert (extName <$> ((λ e, mkExtension e "") <$> always) = suffix <$> always) as -> by (rewrite <-list_fmap_compose; done).
  do 2 f_equiv. rewrite <-list_fmap_compose. rewrite (Forall_fmap_ext_1 _ id), list_fmap_id; [done|].
  apply Forall_forall. intros l [Hl _]%list_elem_of_filter. unfold extName. cbn.
  destruct (bool_decide_reflect (l ≠ "")) as [?|Hn]; [done|]. apply dec_stable in Hn. subst l. unfold builtInChecks in Hl. set_solver.
Qed.

Lemma elem_of_toRun sys labels l :
  l ∈ toRun sys labels ↔
  (∃ e, e ∈ findCLIExtensionsOnPath sys ∧ suffix e = l ∧ isAlwaysCheck sys e = true)
  ∨ l ∈ labels ∧ (l ∈ suffix <$> findCLIExtensionsOnPath sys ∨ l ∈ builtInChecks).
Proof.
  unfold toRun. set (exes := findCLIExtensionsOnPath sys). set (always := filter _ exes).
  assert (l ∈ suffix <$> always ↔ ∃ e, e ∈ exes ∧ suffix e = l ∧ isAlwaysCheck sys e = true) as <-.
  { rewrite list_elem_of_fmap. unfold always. setoid_rewrite list_elem_of_filter. split; [intros (e & -> & ? & ?)|intros (e & ? & <- & ?)]; by exists e. }
  rewrite !elem_of_app, !list_elem_of_filter, elem_of_elements, !elem_of_difference, !elem_of_list_to_set.
  destruct (decide (l ∈ suffix <$> always)), (decide (l ∈ suffix <$> exes)); tauto.
Qed.

Lemma toRun_NoDup sys labels : keepsName (LookPath sys) → NoDup (toRun sys labels).
Proof.
  intros Hk. pose proof (executables_unique sys Hk) as Hnd. unfold toRun. rewrite !NoDup_app.
  split; [by apply NoDup_fmap_filter|]. split.
  { intros l Hl. rewrite elem_of_app, !list_elem_of_filter, elem_of_elements, !elem_of_difference, !elem_of_list_to_set. tauto. }
  split; [by apply NoDup_filter|]. split; [|apply NoDup_filter, NoDup_elements].
  intros l [_ Hl]%list_elem_of_filter. rewrite list_elem_of_filter, elem_of_elements, !elem_of_difference, !elem_of_list_to_set. tauto.
Qed.

Lemma elem_of_missing sys labels m :
  keepsName (LookPath sys) →
  m ∈ (findExtensions sys labels).2 ↔
  ∃ l, m = ("linkerd-" +:+ l) ∧ l ∈ labels ∧ (l ∉ builtInChecks) ∧ l ∉ (suffix <$> findCLIExtensionsOnPath sys).
Proof.
  intros Hk. rewrite (proj2 (findExtensions_names sys labels Hk)), list_elem_of_fmap. apply exist_proper. intros l.
  rewrite list_elem_of_filter, elem_of_elements, !elem_of_difference, !elem_of_list_to_set.
  pose proof (list_elem_of_fmap suffix (filter (λ e, isAlwaysCheck sys e = true) (findCLIExtensionsOnPath sys)) l) as Ha.
  assert (l ∈ suffix <$> filter (λ e, isAlwaysCheck sys e = true) (findCLIExtensionsOnPath sys) → l ∈ suffix <$> findCLIExtensionsOnPath sys).
  { rewrite Ha. intros (e & -> & [_ ?]%list_elem_of_filter). by apply list_elem_of_fmap_2. }
  tauto.
Qed.


(** * Every run answers *)
(** What an extension printed could be read and has no error that is not a warning. *)
Definition extensionPasses (sys : System) (flags : list string) (e : extension) : Prop :=
  ∃ results, parseJSONCheckOutput (unmarshal sys (run sys (ext_path e) (extensionArgs flags e)).1) = Some results
             ∧ (CheckResults_RunChecks results).1 = true.

Lemma runExtensionsChecks_success sys version extensions missing flags :
  (runExtensionsChecks sys version extensions missing flags).1 = true ↔
  ∀ e, e ∈ extensions → extensionPasses sys flags e.
Proof.
  unfold runExtensionsChecks.
  assert (∀ ms acc, (foldl (runMissing version) acc ms).1 = acc.1) as ->.
  { induction ms as [|m ms IH]; intros acc; [done|]. cbn [foldl]. rewrite IH. by destruct acc as [[] ?]. }
  assert (∀ acc, (foldl (runExtension sys version flags) acc extensions).1 = true ↔ acc.1 = true ∧ ∀ e, e ∈ extensions →
    (extensionResults sys version flags e).2 = true ∧ (CheckResults_RunChecks (extensionResults sys version flags e).1).1 = true) as Hf.
  { induction extensions as [|e es IH]; intros acc; [set_solver|]. cbn [foldl]. rewrite IH. unfold runExtension.
    destruct (extensionResults _ _ _ e) as [results read] eqn:He. unfold combine. cbn [fst snd]. rewrite !andb_true_iff.
    setoid_rewrite elem_of_cons. split.
    - intros [[[? ?] ?] ?]. split; [done|]. intros x [->|?]; [by rewrite He|eauto].
    - intros [? H]. destruct (H e (or_introl eq_refl)) as [? ?]. rewrite He in *. cbn in *. eauto 10. }
  rewrite Hf. cbn [fst]. split.
  - intros [_ H] e He. destruct (H e He) as [Hr Hs]. clear -Hr Hs. unfold extensionPasses, extensionResults in *.
    destruct (run _ _ _) as [out err]. cbn. destruct (parseJSONCheckOutput _); cbn in *; [eauto|done].
  - intros H. split; [done|]. intros e He. destruct (H e He) as (results & Hp & Hs). unfold extensionResults.
    destruct (run _ _ _) as [out err]. cbn in Hp. by rewrite Hp.
Qed.

Lemma runExtensionChecks_success sys version flags :
  (∃ warn, runExtensionChecks sys version flags = Some (true, warn)) ↔
  ∃ labels, namespaceLabels sys = Some labels ∧ ∀ e, e ∈ (findExtensions sys labels).1 → extensionPasses sys flags e.
Proof.
  unfold runExtensionChecks. destruct (namespaceLabels sys) as [labels|]; cbn [mbind option_bind];
    [|split; [by intros [? ?]|by intros (? & ? & _)]].
  destruct (findExtensions sys labels) as [exts missing] eqn:Hfe.
  trans (∀ e, e ∈ exts → extensionPasses sys flags e).
  - rewrite <-runExtensionsChecks_success with (version := version) (missing := missing). case_bool_decide as Hno.
    + destruct Hno as [-> ->]. split; [done|]. intros _. by exists false.
    + destruct (runExtensionsChecks _ _ _ _ _) as [s wn]. cbn. split; [by intros (? & [= -> _])|intros ->; eauto].
  - split; [intros H; exists labels; by rewrite Hfe|]. intros (l & [= <-] & H). by rewrite Hfe in H.
Qed.

Section answers.
Context `{!MapRange} `{!Decoding} `{!X509} `{!PEM} `{!Algorithms}.

(** What the categories of the command give to those that rely on them. *)
Lemma checkCategories_ordered o :
  KubernetesAPIChecks ∈ checkCategories o
  ∧ (LinkerdHAChecks ∈ checkCategories o → LinkerdControlPlaneExistenceChecks ∈ checkCategories o).
Proof.
  split; [set_solver|]. unfold checkCategories. destruct (preInstallOnly o), (crdsOnly o), (cniEnabled o), (dataPlaneOnly o);
    intros Hin; first [by apply (bool_decide_unpack _)|by apply (bool_decide_pack _) in Hin].
Qed.

(** The run of the checker of the command. *)
Definition mainRun (o : checkOptions) (w : World Cluster) (version : string) (now : Z) (ns cniNs installManifest crdManifest : string) : flow :=
  let version := if bool_decide (cliVersionOverride o ≠ "") then cliVersionOverride o else version in
  let options := checkerOptions o now ns cniNs installManifest crdManifest in
  (HealthChecker_RunChecks w (NewHealthChecker version (checkCategories o) options) (mkRun 0 now options [])).1.

Lemma mainRun_returns o w version now ns cniNs installManifest crdManifest :
  steady w → (∀ i, wellFormed (envAt w i)) → ∃ success warn, mainRun o w version now ns cniNs installManifest crdManifest = Return success warn.
Proof.
  intros Hs Hwf. destruct (checkCategories_ordered o) as [Hapi Hha]. unfold mainRun.
  set (v := if bool_decide _ then _ else _). set (options := checkerOptions _ _ _ _ _ _).
  pose proof (run_no_crash v w (checkCategories o) options (mkRun 0 now options []) Hwf Hapi Hha) as Hnc.
  pose proof (run_terminates w (NewHealthChecker v (checkCategories o) options) (mkRun 0 now options []) Hs) as Hnf.
  pose proof (RunChecks_not_Continue w (NewHealthChecker v (checkCategories o) options) (mkRun 0 now options [])) as Hcont.
  pose proof (RunChecks_broken w (NewHealthChecker v (checkCategories o) options) (mkRun 0 now options [])) as Hend.
  destruct (HealthChecker_RunChecks _ _ _) as [[s wn|s wn|e] st]; cbn in *; [by destruct (Hcont s wn)|eauto|]. by destruct (Hend e eq_refl) as [->| ->].
Qed.

End answers.

(** * Examples *)
(** Two extensions are installed: one has an executable on the path, the other has not and is
    not built in; a third is always checked. *)
Definition ex_system : System :=
  mkSystem [Some ["/opt/bin/linkerd-smi"; "/opt/bin/linkerd-audit"]; None; Some ["/bin/linkerd-smi"]] Some
    (λ p, if bool_decide (p = "/opt/bin/linkerd-audit") then Some ("Linkerd-Audit", "always") else None) "/bin/linkerd"
    (Some ["smi"; "viz"; "buoyant"]) (λ _ _, ("ok", "")) (λ _, Some (mkCheckOutput true [])).


