(* ===== verification/VizApi.v ===== *)
(** Requests to the metrics API of the viz extension, the labels of its queries and the queries
    themselves: [viz/metrics-api/util/api_utils.go], [viz/pkg/util/util.go],
    [viz/pkg/prometheus/prometheus.go] and [viz/metrics-api/prometheus.go].

    Prometheus, the text of its label sets and [time.ParseDuration] are parameters. *)
From Stdlib Require Import QArith Qround.
From S2P Require Import Prelude GoStd K8s PkgK8s.

#[local] Open Scope string_scope.
#[local] Open Scope list_scope.
#[local] Open Scope Z_scope.
#[local] Open Scope go_scope.

(** * Messages *)
Record Resource := mkResource { r_Namespace : string; r_Type : string; r_Name : string }.
#[export] Instance Resource_eq_dec : EqDecision Resource.
Proof. solve_decision. Defined.

(** The one-of of the requests; [Unset] when no alternative was chosen. *)
Inductive Outbound := Unset | NoneO | ToResource (r : Resource) | FromResource (r : Resource).
Definition GetToResource (o : Outbound) : option Resource := match o with ToResource r => Some r | _ => None end.
Definition GetFromResource (o : Outbound) : option Resource := match o with FromResource r => Some r | _ => None end.

Record StatSummaryRequest := mkStatSummaryRequest {
  q_Resource : option Resource  (* of the selector *); q_LabelSelector : string; q_TimeWindow : string;
  q_Outbound : Outbound; q_SkipStats : bool; q_TcpStats : bool }.
Record TopRoutesRequest := mkTopRoutesRequest {
  t_Resource : option Resource; t_LabelSelector : string; t_TimeWindow : string; t_Outbound : Outbound }.
Record GatewaysRequest := mkGatewaysRequest { g_RemoteClusterName : string; g_GatewayNamespace : string; g_TimeWindow : string }.

(** * Building requests *)
Definition defaultMetricTimeWindow : string := "1m".
Definition metricTimeWindowLowerBound : Z := 15 * 1000000000.

Record StatsBaseRequestParams := mkStatsBase {
  p_TimeWindow : string; p_Namespace : string; p_ResourceType : string; p_ResourceName : string; p_AllNamespaces : bool }.
Record StatsSummaryRequestParams := mkStatsParams {
  p_Base : StatsBaseRequestParams; p_To : Resource; p_From : Resource; p_SkipStats : bool; p_TCPStats : bool; p_LabelSelector : string }.
Record TopRoutesRequestParams := mkTopRoutesParams { tp_Base : StatsBaseRequestParams; tp_To : Resource; tp_LabelSelector : string }.

(** Whether any part of a resource was given. *)
Definition given (r : Resource) : bool := bool_decide (r_Name r ≠ "" ∨ r_Type r ≠ "" ∨ r_Namespace r ≠ "").
Definition targetNamespace (p : StatsBaseRequestParams) : string :=
  if p_AllNamespaces p then "" else if bool_decide (p_Namespace p = "") then "default" else p_Namespace p.

(** The other end of the traffic; what is not given is that of the target. *)
Definition otherResource (r : Resource) (targetNs resourceType : string) : res Resource :=
  let ns := if bool_decide (r_Namespace r = "") then targetNs else r_Namespace r in
  let* typ := CanonicalResourceNameFromFriendlyName (if bool_decide (r_Type r = "") then resourceType else r_Type r) in
  Ok (mkResource ns typ (r_Name r)).

Section requests.
Context (ParseDuration : string → option Z).

Definition ValidateTimeWindow (window : string) : res string :=
  if bool_decide (window = "") then Ok defaultMetricTimeWindow
  else match ParseDuration window with
       | None => Err "invalid duration"
       | Some w => if w <? metricTimeWindowLowerBound then Err "metrics time window needs to be at least 15s" else Ok window
       end.

Definition BuildStatSummaryRequest (p : StatsSummaryRequestParams) : res StatSummaryRequest :=
  let b := p_Base p in
  let* window := ValidateTimeWindow (p_TimeWindow b) in
  if p_AllNamespaces b && bool_decide (p_ResourceName b ≠ "")
  then Err "stats for a resource cannot be retrieved by name across all namespaces"
  else
    let ns := targetNamespace b in
    let* resourceType := CanonicalResourceNameFromFriendlyName (p_ResourceType b) in
    let* to := if given (p_To p) then let* r := otherResource (p_To p) ns resourceType in Ok (ToResource r) else Ok Unset in
    let* out := if given (p_From p) then let* r := otherResource (p_From p) ns resourceType in Ok (FromResource r) else Ok to in
    Ok (mkStatSummaryRequest (Some (mkResource ns resourceType (p_ResourceName b))) (p_LabelSelector p) window out
          (p_SkipStats p) (p_TCPStats p)).

Definition BuildTopRoutesRequest (p : TopRoutesRequestParams) : res TopRoutesRequest :=
  let b := tp_Base p in
  let* window := if bool_decide (p_TimeWindow b = "") then Ok defaultMetricTimeWindow
                 else match ParseDuration (p_TimeWindow b) with None => Err "invalid duration" | Some _ => Ok (p_TimeWindow b) end in
  if p_AllNamespaces b && bool_decide (p_ResourceName b ≠ "")
  then Err "routes for a resource cannot be retrieved by name across all namespaces"
  else
    let ns := targetNamespace b in
    let* resourceType := CanonicalResourceNameFromFriendlyName (p_ResourceType b) in
    let* out := if given (tp_To p) then let* r := otherResource (tp_To p) ns resourceType in Ok (ToResource r) else Ok NoneO in
    Ok (mkTopRoutesRequest (Some (mkResource ns resourceType (p_ResourceName b))) (tp_LabelSelector p) window out).
End requests.

Definition BuildEdgesRequest (namespace resourceType : string) (allNamespaces : bool) : res Resource :=
  let* typ := CanonicalResourceNameFromFriendlyName resourceType in
  Ok (mkResource (if allNamespaces then "" else namespace) typ "").

(** ** Resources from the command line *)
Definition buildResource (namespace resType nm : string) : res Resource :=
  let* canonicalType := CanonicalResourceNameFromFriendlyName resType in
  Ok (mkResource (if bool_decide (canonicalType = "namespace") then "" else namespace) canonicalType nm).

Definition parseResource (namespace resType arg : string) : res Resource :=
  if bool_decide (resType ≠ "") then buildResource namespace resType arg
  else match strings.Split arg "/" with
       | [typ] => buildResource namespace typ ""
       | [typ; nm] => buildResource namespace typ nm
       | _ => Err ("Invalid resource string: " +:+ arg)
       end.

Definition validateResources (args : list string) : res () :=
  if (size (list_to_set args : gset string) <? length args)%nat then Err "cannot supply duplicate resources"
  else if bool_decide ("all" ∈ args) && (1 <? length args)%nat then Err "'all' can't be supplied alongside other resources"
  else Ok ().

Definition parseResources (namespace resType : string) (args : list string) : res (list Resource) :=
  let* _ := validateResources args in res_mapM (parseResource namespace resType) args.

Definition BuildResources (namespace : string) (args : list string) : res (list Resource) :=
  match args with
  | [] => Err "No resource arguments provided"
  | [_] => parseResources namespace "" args
  | first :: rest =>
      match CanonicalResourceNameFromFriendlyName first with
      | Ok typ => if bool_decide (typ ≠ "all") then parseResources namespace first rest else parseResources namespace "" args
      | _ => parseResources namespace "" args
      end
  end.
Definition BuildResource (namespace arg : string) : res Resource :=
  let* rs := BuildResources namespace [arg] in match rs with r :: _ => Ok r | [] => Panic end.

(** * Labels *)
Abbreviation LabelSet := strmap.
Abbreviation LabelNames := (list string).
(** [labels.Merge(other)]: the values of the other set win. *)
Definition Merge (labels other : LabelSet) : LabelSet := other ∪ labels.

Definition NamespaceLabel : string := "namespace".
Definition DstNamespaceLabel : string := "dst_namespace".
Definition GatewayNameLabel : string := "gateway_name".
Definition GatewayNamespaceLabel : string := "gateway_namespace".
Definition RemoteClusterNameLabel : string := "target_cluster_name".
Definition AuthorityLabel : string := "authority".
Definition ServerKindLabel : string := "srv_kind".
Definition ServerNameLabel : string := "srv_name".
Definition AuthorizationKindLabel : string := "authz_kind".
Definition AuthorizationNameLabel : string := "authz_name".
Definition RouteKindLabel : string := "route_kind".
Definition RouteNameLabel : string := "route_name".

Definition ResourceType (r : Resource) : string := KindToL5DLabel (r_Type r).
Definition shouldAddNamespaceLabel (r : Resource) : bool := bool_decide (r_Type r ≠ "namespace" ∧ r_Namespace r ≠ "").

Definition GroupByLabelNames (r : Resource) : LabelNames :=
  NamespaceLabel :: (if bool_decide (r_Type r ≠ "namespace") then [ResourceType r] else []).
Definition QueryLabels (resource : option Resource) : LabelSet :=
  match resource with
  | None => ∅
  | Some r =>
      let named : LabelSet :=
        if bool_decide (r_Name r = "") then ∅
        else if bool_decide (r_Type r = "server") then {[ServerKindLabel := "server"; ServerNameLabel := r_Name r]}
        else if bool_decide (r_Type r = "serverauthorization") then
          {[AuthorizationKindLabel := "serverauthorization"; AuthorizationNameLabel := r_Name r]}
        else if bool_decide (r_Type r = "authorizationpolicy") then
          {[AuthorizationKindLabel := "authorizationpolicy"; AuthorizationNameLabel := r_Name r]}
        else if bool_decide (r_Type r = "httproute") then {[RouteNameLabel := r_Name r]}
        else if bool_decide (r_Type r ≠ "service") then {[ResourceType r := r_Name r]}
        else ∅ in
      if shouldAddNamespaceLabel r then <[NamespaceLabel := r_Namespace r]> named else named
  end.
Definition DstGroupByLabelNames (r : Resource) : LabelNames :=
  DstNamespaceLabel :: (if bool_decide (r_Type r ≠ "namespace") then ["dst_" +:+ ResourceType r] else []).
Definition DstQueryLabels (r : Resource) : LabelSet :=
  if bool_decide (r_Name r = "") then ∅
  else let set : LabelSet := {["dst_" +:+ ResourceType r := r_Name r]} in
       if shouldAddNamespaceLabel r then <[DstNamespaceLabel := r_Namespace r]> set else set.

Definition promDirectionLabels (direction : string) : LabelSet := {["direction" := direction]}.
Definition promPeerLabel (peer : string) : LabelSet := {["peer" := peer]}.

(** * Queries *)
Inductive promType :=
  | promGatewayAlive | promRequests | promAllowedRequests | promDeniedRequests | promActualRequests
  | promTCPConnections | promTCPReadBytes | promTCPWriteBytes | promLatencyP50 | promLatencyP95 | promLatencyP99.
#[export] Instance promType_eq_dec : EqDecision promType.
Proof. solve_decision. Defined.

(** A sample, whose value may be NaN ([None]). *)
Record Sample := mkSample { Metric : LabelSet; Value : option Q; Timestamp : Z }.
Definition label (s : Sample) (name : string) : string := get (Metric s) name.

(** [math.Round]: to the nearest integer, halves away from zero. *)
Definition Round (q : Q) : Z :=
  if Qle_bool 0 q then Qfloor (q + (1 # 2))%Q else - Qfloor (- q + (1 # 2))%Q.

(** What the results and the replies of the server need of the rest of the world: the conversion
    of numbers that are no [uint64], the text of label sets and names, the order in which
    goroutines report. *)
Class Prom := {
  uint64Of : Z → Z;
  uint64Of_range : ∀ z, 0 ≤ uint64Of z < 2^64;
  uint64Of_id : ∀ z, 0 ≤ z < 2^64 → uint64Of z = z;
  labelSetString : LabelSet → string;
  labelNamesString : LabelNames → string;
  arrive : ∀ {A : Type}, list A → list A;
  arrive_perm : ∀ {A : Type} (l : list A), arrive l ≡ₚ l }.

(** A panic in any goroutine ends the process. *)
Definition isPanic {A} (r : res A) : bool := match r with Panic => true | _ => false end.

Section prom.
Context `{!MapRange} `{!Prom}.

Definition extractSampleValue (s : Sample) : Z := match Value s with None => 0 | Some q => uint64Of (Round q) end.

Definition quotes : string := String "034" "".
(** The quoted form of a label value, for text in ASCII. *)
Definition escape (a : ascii) : string :=
  if bool_decide (a = "034"%char) then "\" +:+ quotes else if bool_decide (a = "\"%char) then "\\"
  else if bool_decide (a = "010"%char) then "\n" else if bool_decide (a = "009"%char) then "\t" else String a "".
Fixpoint escaped (s : string) : string := match s with EmptyString => "" | String a s => escape a +:+ escaped s end.
Definition Quote (s : string) : string := quotes +:+ escaped s +:+ quotes.

Definition pairString (e : string * string) : string := e.1 +:+ "=" +:+ Quote e.2.
Definition braces (l : list string) : string := "{" +:+ strings.Join (merge_sort String.le l) ", " +:+ "}".
Definition generateLabelStringWithExclusion (l : LabelSet) (labelNames : list string) : string :=
  braces ((pairString <$> range l) ++ ((λ n, n +:+ "!=" +:+ quotes +:+ quotes) <$> labelNames)).
Definition generateLabelStringWithRegex (l : LabelSet) (labelName stringToMatch : string) : string :=
  braces ((pairString <$> range l) ++ [labelName +:+ "=~" +:+ quotes +:+ "^" +:+ stringToMatch +:+ ".*" +:+ quotes]).

Definition promTypeString (pt : promType) : string :=
  match pt with promLatencyP50 => "0.5" | promLatencyP95 => "0.95" | promLatencyP99 => "0.99" | _ => "" end.

(** The templates; each takes what its [%s] stand for. *)
Definition reqQuery (labels window groupBy : string) : string :=
  "sum(increase(response_total" +:+ labels +:+ "[" +:+ window +:+ "])) by (" +:+ groupBy +:+ ", classification, tls)".
Definition latencyQuantileQuery (q labels window groupBy : string) : string :=
  "histogram_quantile(" +:+ q +:+ ", sum(irate(response_latency_ms_bucket" +:+ labels +:+ "[" +:+ window +:+ "])) by (le, " +:+ groupBy +:+ "))".
Definition tcpConnectionsQuery (labels groupBy : string) : string :=
  "sum(tcp_open_connections" +:+ labels +:+ ") by (" +:+ groupBy +:+ ")".
Definition tcpReadBytesQuery (labels window groupBy : string) : string :=
  "sum(increase(tcp_read_bytes_total" +:+ labels +:+ "[" +:+ window +:+ "])) by (" +:+ groupBy +:+ ")".
Definition tcpWriteBytesQuery (labels window groupBy : string) : string :=
  "sum(increase(tcp_write_bytes_total" +:+ labels +:+ "[" +:+ window +:+ "])) by (" +:+ groupBy +:+ ")".

Definition generateQuantileQueries (quantileQuery : string → string → string → string → string) (labels window groupBy : string)
    : list (promType * string) :=
  (λ pt, (pt, quantileQuery (promTypeString pt) labels window groupBy)) <$> [promLatencyP50; promLatencyP95; promLatencyP99].

(** ** Asking Prometheus *)
(** The configured instance, if any: its queries, and the scrape interval of its configuration
    if that could be read. *)
Record PrometheusAPI := mkPrometheusAPI { Query : string → res (option (list Sample)); scrapeInterval : option string }.

(** [None] is a result that is no vector. *)
Definition queryProm (api : option PrometheusAPI) (query : string) : res (list Sample) :=
  match api with
  | None => Err "No prometheus instance to connect"
  | Some api =>
      match Query api query with
      | Ok (Some v) => Ok v
      | Ok None => Err "Unexpected query result type (expected Vector)"
      | Err e => Err ("Query failed: " +:+ e)
      | Panic => Panic
      end
  end.

(** One goroutine per query; the results are taken in the order they arrive, and of several
    errors the last is returned. *)
Definition getPrometheusMetrics (api : option PrometheusAPI) (requestQueries latencyQueries : list (promType * string))
    : res (list (promType * list Sample)) :=
  let results := arrive ((λ e, (e.1, queryProm api e.2)) <$> requestQueries ++ latencyQueries) in
  if existsb (λ r, isPanic r.2) results then Panic
  else match last (omap (λ r, match r.2 with Err e => Some e | _ => None end) results) with
       | Some e => Err e
       | None => Ok (omap (λ r, match r.2 with Ok v => Some (r.1, v) | _ => None end) results)
       end.
End prom.
