(* ===== verification/VizStat.v ===== *)
(** The metrics API of the viz extension ([viz/metrics-api]): statistics of workloads, services
    and policy resources, routes, edges, gateways and the lists of pods and services.

    A handler asks the caches of [K8sApi] for the objects and Prometheus for the numbers and
    joins the two.  The parts of objects that [K8sApi] does not have, the dynamic client and the
    parser of label selectors are parameters. *)
From Stdlib Require Import QArith.
From S2P Require Import Prelude GoStd K8s PkgK8s K8sApi VizApi.

#[local] Open Scope string_scope.
#[local] Open Scope list_scope.
#[local] Open Scope Z_scope.
#[local] Open Scope go_scope.

(** * Statistics *)
Record BasicStats := mkBasicStats {
  SuccessCount : Z; FailureCount : Z; LatencyMsP50 : Z; LatencyMsP95 : Z; LatencyMsP99 : Z;
  ActualSuccessCount : Z; ActualFailureCount : Z }.
#[export] Instance BasicStats_eq_dec : EqDecision BasicStats.
Proof. solve_decision. Defined.
Record TcpStats := mkTcpStats { OpenConnections : Z; ReadBytesTotal : Z; WriteBytesTotal : Z }.
#[export] Instance TcpStats_eq_dec : EqDecision TcpStats.
Proof. solve_decision. Defined.
Record ServerStats := mkServerStats { AllowedCount : Z; DeniedCount : Z; Srv : Resource; Route : Resource; Authz : Resource }.

Definition noBasic : BasicStats := mkBasicStats 0 0 0 0 0 0 0.
Definition noTcp : TcpStats := mkTcpStats 0 0 0.
Definition addSuccess (v : Z) (b : BasicStats) : BasicStats :=
  mkBasicStats (u64 (SuccessCount b + v)) (FailureCount b) (LatencyMsP50 b) (LatencyMsP95 b) (LatencyMsP99 b) (ActualSuccessCount b) (ActualFailureCount b).
Definition addFailure (v : Z) (b : BasicStats) : BasicStats :=
  mkBasicStats (SuccessCount b) (u64 (FailureCount b + v)) (LatencyMsP50 b) (LatencyMsP95 b) (LatencyMsP99 b) (ActualSuccessCount b) (ActualFailureCount b).
Definition setP50 (v : Z) (b : BasicStats) : BasicStats :=
  mkBasicStats (SuccessCount b) (FailureCount b) v (LatencyMsP95 b) (LatencyMsP99 b) (ActualSuccessCount b) (ActualFailureCount b).
Definition setP95 (v : Z) (b : BasicStats) : BasicStats :=
  mkBasicStats (SuccessCount b) (FailureCount b) (LatencyMsP50 b) v (LatencyMsP99 b) (ActualSuccessCount b) (ActualFailureCount b).
Definition setP99 (v : Z) (b : BasicStats) : BasicStats :=
  mkBasicStats (SuccessCount b) (FailureCount b) (LatencyMsP50 b) (LatencyMsP95 b) v (ActualSuccessCount b) (ActualFailureCount b).
Definition addActualSuccess (v : Z) (b : BasicStats) : BasicStats :=
  mkBasicStats (SuccessCount b) (FailureCount b) (LatencyMsP50 b) (LatencyMsP95 b) (LatencyMsP99 b) (u64 (ActualSuccessCount b + v)) (ActualFailureCount b).
Definition addActualFailure (v : Z) (b : BasicStats) : BasicStats :=
  mkBasicStats (SuccessCount b) (FailureCount b) (LatencyMsP50 b) (LatencyMsP95 b) (LatencyMsP99 b) (ActualSuccessCount b) (u64 (ActualFailureCount b + v)).

(** ** Keys *)
Record rKey := mkRKey { k_Namespace : string; k_Type : string; k_Name : string }.
#[export] Instance rKey_eq_dec : EqDecision rKey.
Proof. solve_decision. Defined.
#[export] Instance rKey_countable : Countable rKey.
Proof. refine (inj_countable' (λ k, (k_Namespace k, k_Type k, k_Name k)) (λ t, mkRKey t.1.1 t.1.2 t.2) _). by intros []. Defined.

(** The last two names of the grouping are namespace and name; it is never empty. *)
Definition metricToKey (typ : string) (groupBy : LabelNames) (s : Sample) : rKey :=
  match reverse groupBy with
  | nm :: ns :: _ => mkRKey (label s ns) typ (label s nm)
  | [nm] => mkRKey "" typ (label s nm)
  | [] => mkRKey "" typ ""
  end.

Section process.
Context `{!MapRange} `{!Prom}.

(** What one sample does to the statistics of its key. *)
Definition classified (s : Sample) (onSuccess onFailure : Z → BasicStats → BasicStats) (b : BasicStats) : BasicStats :=
  if bool_decide (label s "classification" = "success") then onSuccess (extractSampleValue s) b
  else if bool_decide (label s "classification" = "failure") then onFailure (extractSampleValue s) b
  else b.
Definition onBasic (pt : promType) (s : Sample) : option (BasicStats → BasicStats) :=
  match pt with
  | promRequests => Some (classified s addSuccess addFailure)
  | promLatencyP50 => Some (setP50 (extractSampleValue s))
  | promLatencyP95 => Some (setP95 (extractSampleValue s))
  | promLatencyP99 => Some (setP99 (extractSampleValue s))
  | _ => None
  end.
Definition onTcp (pt : promType) (s : Sample) : option (TcpStats → TcpStats) :=
  let v := extractSampleValue s in
  match pt with
  | promTCPConnections => Some (λ t, mkTcpStats v (ReadBytesTotal t) (WriteBytesTotal t))
  | promTCPReadBytes => Some (λ t, mkTcpStats (OpenConnections t) v (WriteBytesTotal t))
  | promTCPWriteBytes => Some (λ t, mkTcpStats (OpenConnections t) (ReadBytesTotal t) v)
  | _ => None
  end.
Definition newServerStats (s : Sample) : ServerStats :=
  mkServerStats 0 0 (mkResource "" (label s ServerKindLabel) (label s ServerNameLabel))
    (mkResource "" (label s RouteKindLabel) (label s RouteNameLabel))
    (mkResource "" (label s AuthorizationKindLabel) (label s AuthorizationNameLabel)).
Definition onAuthz (pt : promType) (s : Sample) (a : ServerStats) : ServerStats :=
  let v := extractSampleValue s in
  match pt with
  | promAllowedRequests => mkServerStats v (DeniedCount a) (Srv a) (Route a) (Authz a)
  | promDeniedRequests => mkServerStats (AllowedCount a) v (Srv a) (Route a) (Authz a)
  | _ => a
  end.

Record Stats := mkStats { basicStats : gmap rKey BasicStats; tcpStats : gmap rKey TcpStats; authzStats : gmap rKey ServerStats }.

(** An entry is made when it is first needed. *)
Definition upsert {A} (zero : A) (f : option (A → A)) (k : rKey) (m : gmap rKey A) : gmap rKey A :=
  match f with Some f => <[k := f (default zero (m !! k))]> m | None => m end.
Definition processSample (typ : string) (groupBy : LabelNames) (acc : Stats) (e : promType * Sample) : Stats :=
  let k := metricToKey typ groupBy e.2 in
  mkStats (upsert noBasic (onBasic e.1 e.2) k (basicStats acc)) (upsert noTcp (onTcp e.1 e.2) k (tcpStats acc))
    (upsert (newServerStats e.2) (Some (onAuthz e.1 e.2)) k (authzStats acc)).

Definition samples (results : list (promType * list Sample)) : list (promType * Sample) :=
  results ≫= λ r, (λ s, (r.1, s)) <$> r.2.
Definition processPrometheusMetrics (typ : string) (results : list (promType * list Sample)) (groupBy : LabelNames) : Stats :=
  foldl (processSample typ groupBy) (mkStats ∅ ∅ ∅) (samples results).
End process.

(** * The server *)
(** Details of pods that the caches of [K8sApi] leave out. *)
Record containerStatus := mkCS {
  st_Name : string; st_Image : string; st_Ready : bool; st_Waiting : option (string * string);
  st_Terminated : option ((Z * Z) * (string * string)); st_LastWaiting : option (string * string);
  st_LastTerminated : option (string * string) }.
Record podDetail := mkPodDetail {
  pd_Pod : PodObject; pd_Statuses : list containerStatus; pd_InitStatuses : list containerStatus; pd_ResourceVersion : string }.
Record PodError := mkPodError { e_Container : string; e_Image : string; e_Reason : string; e_Message : string }.

Record podStats := mkPodStats {
  s_Status : string; s_InMesh : Z; s_Total : Z; s_Failed : Z; s_Errors : gmap string (list PodError) }.
Record Row := mkRow {
  row_Resource : Resource; row_TimeWindow : string; row_Stats : option BasicStats; row_Tcp : option TcpStats;
  row_Srv : option ServerStats; row_Split : option (string * string * string)  (* apex, leaf and weight *);
  row_Pods : option podStats }.

(** The rows that have a split are sorted; those that have none are left in any order. *)
Definition splitKey (row : Row) : string := match row_Split row with Some (apex, leaf, _) => apex +:+ leaf | None => "" end.
Definition rowLess (a b : Row) : bool :=
  match row_Split a, row_Split b with Some _, Some _ => negb (bool_decide (String.le (splitKey b) (splitKey a))) | _, _ => false end.
Definition rowLe (a b : Row) : Prop := rowLess b a = false.
#[export] Instance rowLe_dec a b : Decision (rowLe a b).
Proof. unfold rowLe. apply _. Defined.
Definition sortTrafficSplitRows (rows : list Row) : list Row := merge_sort rowLe rows.

Record grpcServer := mkServer {
  prometheusAPI : option PrometheusAPI; k8sAPI : API; controllerNamespace : string; clusterDomain : string;
  ignoredNamespaces : list string }.

Class World := {
  ParseDuration : string → option Z;
  ParseSelector : string → res Selector;
  detail : object → podDetail;
  dstOverrides : object → list (string * string)  (* authority and weight of a ServiceProfile *);
  routeNames : object → list string  (* of a ServiceProfile *);
  listPolicy : string → string → Selector → res (list Meta)  (* by type and namespace, with the kind as type *);
  getPolicy : string → string → string → res Meta;
  kindOf : Meta → string;
  listServices : res (list strmap)  (* the labels of mirrored services that are no gateways *) }.

Section server.
Context `{!MapRange} `{!Prom} `{!World} (srv : grpcServer).

Definition getLabelSelector (s : string) : res Selector :=
  if bool_decide (s = "") then Ok Everything else match ParseSelector s with Err _ => Err "invalid label selector" | r => r end.

Definition isPolicyResource (r : option Resource) : bool :=
  match r with
  | Some r => bool_decide (r_Type r ∈ ["server"; "serverauthorization"; "authorizationpolicy"; "httproute"])
  | None => false
  end.

(** Without an instance there is nothing to ask for its configuration. *)
Definition validateTimeWindow (window : string) : res () :=
  match prometheusAPI srv with
  | None => Panic
  | Some api =>
      match scrapeInterval api ≫= ParseDuration with
      | None => Ok ()
      | Some interval =>
          match ParseDuration window with
          | None => Err "invalid duration"
          | Some t => if t <? interval then Err "time window must be at least as long as the Prometheus scrape interval" else Ok ()
          end
      end
  end.

(** ** Pods *)
Definition toPodError (st : containerStatus) (rm : string * string) : PodError := mkPodError (st_Name st) (st_Image st) rm.1 rm.2.
Definition checkContainerErrors (sts : list containerStatus) : list PodError :=
  sts ≫= λ st, if st_Ready st then []
               else (toPodError st <$> option_list (st_Waiting st))
                    ++ (toPodError st <$> option_list (match st_Terminated st with
                          | Some (codes, rm) => if bool_decide (codes.1 ≠ 0 ∨ codes.2 ≠ 0) then Some rm else None
                          | None => None end))
                    ++ (toPodError st <$> option_list (st_LastWaiting st)) ++ (toPodError st <$> option_list (st_LastTerminated st)).
Definition IsMeshed (pod : object) (controllerNS : string) : bool :=
  bool_decide (get (m_Labels (meta pod)) ControllerNSLabel = controllerNS).
Definition countPod (acc : podStats) (pod : object) : podStats :=
  let errors := checkContainerErrors (pd_Statuses (detail pod)) ++ checkContainerErrors (pd_InitStatuses (detail pod)) in
  let failed := isFailed pod in
  mkPodStats (s_Status acc) (if negb failed && IsMeshed pod (controllerNamespace srv) then s_InMesh acc + 1 else s_InMesh acc)
    (if failed then s_Total acc else s_Total acc + 1) (if failed then s_Failed acc + 1 else s_Failed acc)
    (if bool_decide (errors ≠ []) then <[name pod := errors]> (s_Errors acc) else s_Errors acc).
Definition getPodStats (obj : object) : res podStats :=
  let* pods := GetPodsFor (k8sAPI srv) obj true in
  let* status := match obj with PodO _ _ _ => GetPodStatus (pd_Pod (detail obj)) | _ => Ok "" end in
  Ok (foldl countPod (mkPodStats status 0 0 0 ∅) pods).

(** ** Labels of the queries for workloads *)
Definition buildRequestLabels (r : Resource) (out : Outbound) : LabelSet * LabelNames :=
  match out with
  | ToResource to =>
      (Merge (Merge (DstQueryLabels to) (QueryLabels (Some r))) (promDirectionLabels "outbound"), GroupByLabelNames r)
  | FromResource from =>
      (Merge (Merge (QueryLabels (Some from)) (DstQueryLabels r)) (promDirectionLabels "outbound"), DstGroupByLabelNames r)
  | _ => (Merge (QueryLabels (Some r)) (promDirectionLabels "inbound"), GroupByLabelNames r)
  end.
Definition buildTCPStatsRequestLabels (out : Outbound) (labels : LabelSet) : LabelSet :=
  Merge labels (promPeerLabel (match out with ToResource _ | FromResource _ => "dst" | _ => "src" end)).

(** The queries for a workload and the labels of each. *)
Definition statQueries (r : Resource) (out : Outbound) (tcp : bool) (window : string) : list (promType * string) :=
  let '(labels, groupBy) := buildRequestLabels r out in
  let groupBy := labelNamesString groupBy in
  let tcpLabels := labelSetString (buildTCPStatsRequestLabels out labels) in
  (promRequests, reqQuery (labelSetString labels) window groupBy) ::
  (if tcp then [(promTCPConnections, tcpConnectionsQuery (labelSetString labels) groupBy);
                (promTCPReadBytes, tcpReadBytesQuery tcpLabels window groupBy);
                (promTCPWriteBytes, tcpWriteBytesQuery tcpLabels window groupBy)] else []).
Definition statQuantiles (r : Resource) (out : Outbound) (window : string) : list (promType * string) :=
  let '(labels, groupBy) := buildRequestLabels r out in
  generateQuantileQueries latencyQuantileQuery (labelSetString labels) window (labelNamesString groupBy).
Definition getStatMetrics (r : Resource) (out : Outbound) (tcp : bool) (window : string) : res Stats :=
  let* results := getPrometheusMetrics (prometheusAPI srv) (statQueries r out tcp window) (statQuantiles r out window) in
  Ok (processPrometheusMetrics (r_Type r) results (buildRequestLabels r out).2).

(** ** Workloads *)
Definition addObject (typ : string) (acc : res (gmap rKey (Meta * podStats))) (obj : object) : res (gmap rKey (Meta * podStats)) :=
  let* m := acc in
  let* ps := getPodStats obj in
  Ok (<[mkRKey (ns obj) typ (name obj) := (meta obj, ps)]> m).
Definition getKubernetesObjectStats (r : Resource) (labelSelector : string) : res (gmap rKey (Meta * podStats)) :=
  let* sel := getLabelSelector labelSelector in
  let* objects := GetObjects (k8sAPI srv) (r_Namespace r) (r_Type r) (r_Name r) sel in
  foldl (addObject (r_Type r)) (Ok ∅) objects.

Definition getResultKeys (out : Outbound) (objects : gmap rKey (Meta * podStats)) (metrics : gmap rKey BasicStats) : list rKey :=
  match out with Unset | NoneO => (range objects).*1 | _ => (range metrics).*1 end.

Definition workloadRow (typ window : string) (tcp : bool) (stats : Stats) (key : rKey) (obj : Meta * podStats) : Row :=
  mkRow (mkResource (m_Namespace obj.1) typ (m_Name obj.1)) window
    (match basicStats stats !! key with Some b => if bool_decide (b = noBasic) then None else Some b | None => None end)
    (if tcp then tcpStats stats !! key else None) None None (Some obj.2).
Definition k8sResourceQuery (r : Resource) (req : StatSummaryRequest) : res (list Row) :=
  let* objects := getKubernetesObjectStats r (q_LabelSelector req) in
  let* stats := if q_SkipStats req then Ok (mkStats ∅ ∅ ∅)
                else getStatMetrics r (q_Outbound req) (q_TcpStats req) (q_TimeWindow req) in
  let keys := getResultKeys (q_Outbound req) objects (basicStats stats) in
  Ok (omap (λ key, workloadRow (r_Type r) (q_TimeWindow req) (q_TcpStats req) stats key <$> objects !! key) keys).

(** ** Services *)
Definition regexAny : string := ".+".
Definition buildServiceRequestLabels (out : Outbound) : LabelSet * LabelNames :=
  let labels := promDirectionLabels "outbound" in
  (match out with
   | ToResource to => Merge labels (DstQueryLabels to)
   | FromResource from => Merge labels (QueryLabels (Some from))
   | _ => labels
   end, ["dst_namespace"; "dst_service"]).
Definition dstFromAuthority (authority : string) : string :=
  match strings.Split authority "." with
  | nm :: _ :: svc :: _ => if bool_decide (svc = "svc") then nm else authority
  | _ => authority
  end.

(** Namespace, service and destination. *)
Abbreviation dstKey := (string * string * string)%type.
Definition toDst {A} (service : string) (m : gmap rKey A) : gmap dstKey A :=
  foldl (λ acc e, <[(k_Namespace e.1, (if bool_decide (service = regexAny) then k_Name e.1 else service), k_Name e.1) := e.2]> acc)
    ∅ (range m).
Definition getServiceMetrics (r : Resource) (out : Outbound) (tcp : bool) (window : string)
    : res (gmap dstKey BasicStats * gmap dstKey TcpStats) :=
  let '(labels, groupBy) := buildServiceRequestLabels out in
  let service := if bool_decide (r_Name r = "") then regexAny else r_Name r in
  let authority := service +:+ "." +:+ r_Namespace r +:+ ".svc." +:+ clusterDomain srv in
  let reqLabels := generateLabelStringWithRegex labels AuthorityLabel authority in
  let tcpLabels := generateLabelStringWithRegex (Merge labels (promPeerLabel "dst")) AuthorityLabel authority in
  let by_ := labelNamesString groupBy in
  let* results := getPrometheusMetrics (prometheusAPI srv)
    ((promRequests, reqQuery reqLabels window by_) ::
     (if tcp then [(promTCPConnections, tcpConnectionsQuery tcpLabels by_);
                   (promTCPReadBytes, tcpReadBytesQuery tcpLabels window by_);
                   (promTCPWriteBytes, tcpWriteBytesQuery tcpLabels window by_)] else []))
    (generateQuantileQueries latencyQuantileQuery reqLabels window by_) in
  let stats := processPrometheusMetrics (r_Type r) results groupBy in
  Ok (toDst service (basicStats stats), toDst service (tcpStats stats)).

Definition serviceRow (r : Resource) (window : string) (basic : gmap dstKey BasicStats) (tcp : gmap dstKey TcpStats) (e : dstKey * string) : Row :=
  let '((n, service), dst) := e.1 in
  mkRow (mkResource n (r_Type r) service) window (basic !! e.1) (tcp !! e.1) None
    (if bool_decide (e.2 ≠ "") then Some (service, dst, e.2) else None) None.
Definition serviceResourceQuery (r : Resource) (req : StatSummaryRequest) : res (list Row) :=
  let* metrics := if q_SkipStats req then Ok (∅, ∅)
                  else getServiceMetrics r (q_Outbound req) (q_TcpStats req) (q_TimeWindow req) in
  let spName := r_Name r +:+ "." +:+ r_Namespace r +:+ ".svc." +:+ clusterDomain srv in
  let* profiles := lister (k8sAPI srv) SP in
  let overrides := match Get profiles (r_Namespace r) spName with Ok sp => dstOverrides sp | _ => [] end in
  let weights : gmap dstKey string :=
    foldl (λ w d, <[(r_Namespace r, r_Name r, dstFromAuthority d.1) := d.2]> w)
      ((λ _, "") <$> metrics.1) overrides in
  Ok (sortTrafficSplitRows (serviceRow r (q_TimeWindow req) metrics.1 metrics.2 <$> range weights)).

(** ** Policy resources *)
Definition httpAuthzDenyQuery (labels window groupBy : string) : string :=
  "sum(increase(inbound_http_authz_deny_total" +:+ labels +:+ "[" +:+ window +:+ "])) by (" +:+ groupBy +:+ ")".
Definition httpAuthzAllowQuery (labels window groupBy : string) : string :=
  "sum(increase(inbound_http_authz_allow_total" +:+ labels +:+ "[" +:+ window +:+ "])) by (" +:+ groupBy +:+ ")".

Definition getPolicyResourceKeys (r : Resource) (labelSelector : string) : res (list rKey) :=
  let* sel := getLabelSelector labelSelector in
  let* resources := if bool_decide (r_Namespace r = "") then listPolicy (r_Type r) "" sel
                    else if bool_decide (r_Name r = "") then listPolicy (r_Type r) (r_Namespace r) sel
                    else let* o := getPolicy (r_Type r) (r_Namespace r) (r_Name r) in Ok [o] in
  Ok ((λ m, mkRKey (m_Namespace m) (strings.ToLower (kindOf m)) (m_Name m)) <$> resources).

Definition named (l nm : string) : LabelSet := if bool_decide (nm = "") then ∅ else {[l := nm]}.
Definition buildServerRequestLabels (r : Resource) (out : Outbound) : LabelSet * LabelNames :=
  let labels := named NamespaceLabel (r_Namespace r) in
  let '(labels, groupBy) :=
    if bool_decide (r_Type r = "server") then
      (Merge (Merge labels {[ServerKindLabel := "server"]}) (named ServerNameLabel (r_Name r)),
       [ServerKindLabel; NamespaceLabel; ServerNameLabel])
    else if bool_decide (r_Type r = "serverauthorization") then
      (Merge (Merge labels {[AuthorizationKindLabel := "serverauthorization"]}) (named AuthorizationNameLabel (r_Name r)),
       [NamespaceLabel; AuthorizationNameLabel])
    else if bool_decide (r_Type r = "authorizationpolicy") then
      (Merge (Merge labels {[AuthorizationKindLabel := "authorizationpolicy"]}) (named AuthorizationNameLabel (r_Name r)),
       [NamespaceLabel; AuthorizationNameLabel])
    else if bool_decide (r_Type r = "httproute") then
      (Merge labels (named RouteNameLabel (r_Name r)),
       [ServerNameLabel; ServerKindLabel; RouteNameLabel; RouteKindLabel; NamespaceLabel; RouteNameLabel])
    else (labels, []) in
  (match out with ToResource to => Merge labels (QueryLabels (Some to)) | _ => labels end, groupBy).

Definition getPolicyMetrics (r : Resource) (out : Outbound) (tcp : bool) (window : string) : res Stats :=
  let '(labels, groupBy) := buildServerRequestLabels r out in
  let reqLabels := Merge labels (promDirectionLabels "inbound") in
  let tcpLabels := labelSetString (Merge reqLabels (promPeerLabel "src")) in
  let by_ := labelNamesString groupBy in
  let* results := getPrometheusMetrics (prometheusAPI srv)
    ((if bool_decide (r_Type r = "server") && tcp
      then [(promTCPConnections, tcpConnectionsQuery tcpLabels by_);
            (promTCPReadBytes, tcpReadBytesQuery tcpLabels window by_);
            (promTCPWriteBytes, tcpWriteBytesQuery tcpLabels window by_)] else []) ++
     [(promRequests, reqQuery (labelSetString reqLabels) window by_);
      (promAllowedRequests, httpAuthzAllowQuery (labelSetString labels) window by_);
      (promDeniedRequests, httpAuthzDenyQuery (labelSetString labels) window by_)])
    (generateQuantileQueries latencyQuantileQuery (labelSetString reqLabels) window by_) in
  Ok (processPrometheusMetrics (r_Type r) results groupBy).

Definition policyRow (typ window : string) (stats : Stats) (key : rKey) : Row :=
  mkRow (mkResource (k_Namespace key) typ (k_Name key)) window (basicStats stats !! key) (tcpStats stats !! key)
    (authzStats stats !! key) None None.
Definition policyResourceQuery (r : Resource) (req : StatSummaryRequest) : res (list Row) :=
  let* keys := getPolicyResourceKeys r (q_LabelSelector req) in
  let* stats := if q_SkipStats req then Ok (mkStats ∅ ∅ ∅)
                else getPolicyMetrics r (q_Outbound req) (q_TcpStats req) (q_TimeWindow req) in
  Ok (policyRow (r_Type r) (q_TimeWindow req) stats <$> keys).

(** ** The summary *)
Inductive response (A : Type) := Answer (a : A) | Refusal (message : string).
#[global] Arguments Answer {_}.
#[global] Arguments Refusal {_}.

Definition StatAllResourceTypes : list string :=
  ["daemonset"; "statefulset"; "job"; "deployment"; "replicationcontroller"; "pod"; "service"; "cronjob"; "replicaset"].

Definition resourceQuery (req : StatSummaryRequest) (r : Resource) : res (list Row) :=
  if bool_decide (r_Type r = "service") then serviceResourceQuery r req
  else if isPolicyResource (Some r) then policyResourceQuery r req
  else k8sResourceQuery r req.

(** Why a request is refused, if it is. *)
Definition refused (req : StatSummaryRequest) (r : Resource) : option string :=
  let out := q_Outbound req in
  if bool_decide (r_Type <$> GetFromResource out = Some "service") then
    Some "service is not supported as a target on 'from' queries, or as a target with 'to' queries"
  else if bool_decide (is_Some (GetFromResource out)) && (isPolicyResource (Some r) || isPolicyResource (GetFromResource out)) then
    Some "'from' queries are not supported with policy resources, as they have inbound metrics only"
  else if bool_decide (is_Some (GetToResource out)) && (isPolicyResource (Some r) || isPolicyResource (GetToResource out)) then
    Some "'to' queries are not supported with policy resources, as they have inbound metrics only"
  else match out with
       | ToResource o | FromResource o =>
           if bool_decide (r_Type o = "all") then Some "resource type 'all' is not supported as a filter" else None
       | _ => None
       end.

(** The first error that arrives is returned. *)
Definition StatSummary (req : StatSummaryRequest) : res (response (list (list Row))) :=
  match q_Resource req with
  | None => Ok (Refusal "StatSummary request missing Selector Resource")
  | Some r =>
      match refused req r with
      | Some message => Ok (Refusal message)
      | None =>
          match validateTimeWindow (q_TimeWindow req) with
          | Err e => Ok (Refusal ("invalid time window: " +:+ e))
          | Panic => Panic
          | Ok _ =>
              let types := if bool_decide (r_Type r = "all") then StatAllResourceTypes else [r_Type r] in
              let results := arrive ((λ t, resourceQuery req (mkResource (r_Namespace r) t (r_Name r))) <$> types) in
              if existsb isPanic results then Panic else let* tables := res_mapM id results in Ok (Answer tables)
          end
      end
  end.
End server.
