(* ===== verification/VizRoutes.v ===== *)
(** The other handlers of the metrics API: routes ([top_routes.go]), edges ([edges.go]), gateways
    ([gateways.go]), authorizations ([authz.go]), and the lists of [grpc_server.go]. *)
From Stdlib Require Import QArith.
From S2P Require Import Prelude GoStd K8s PkgK8s K8sApi VizApi VizStat.

#[local] Open Scope string_scope.
#[local] Open Scope list_scope.
#[local] Open Scope Z_scope.
#[local] Open Scope go_scope.

(** * Routes *)
Record RouteRow := mkRouteRow { rr_Authority : string; rr_Route : string; rr_TimeWindow : string; rr_Stats : BasicStats }.
Definition DefaultRouteName : string := "[DEFAULT]".
(** Destination and route. *)
Abbreviation dstAndRoute := (string * string)%type.
Abbreviation indexedTable := (gmap (string * string) RouteRow).

Definition routeReqQuery (labels window groupBy : string) : string :=
  "sum(increase(route_response_total" +:+ labels +:+ "[" +:+ window +:+ "])) by (" +:+ groupBy +:+ ", dst, classification)".
Definition actualRouteReqQuery (labels window groupBy : string) : string :=
  "sum(increase(route_actual_response_total" +:+ labels +:+ "[" +:+ window +:+ "])) by (" +:+ groupBy +:+ ", dst, classification)".
Definition routeLatencyQuantileQuery (q labels window groupBy : string) : string :=
  "histogram_quantile(" +:+ q +:+ ", sum(irate(route_response_latency_ms_bucket" +:+ labels +:+ "[" +:+ window +:+ "])) by (le, dst, " +:+ groupBy +:+ "))".

Section routes.
Context `{!MapRange} `{!Prom} `{!World} (srv : grpcServer).

Definition dstLabel (services : string) : string := "dst=~" +:+ quotes +:+ "(" +:+ services +:+ ")(:\\d+)?" +:+ quotes.
Definition renderLabels (labels : LabelSet) (services : list string) : string :=
  braces ((pairString <$> range labels) ++ (if bool_decide (services ≠ []) then [dstLabel (strings.Join services "|")] else [])).
Definition buildRouteLabels (out : Outbound) (dsts : list string) (r : Resource) : string :=
  match out with
  | ToResource _ => renderLabels (Merge (QueryLabels (Some r)) (promDirectionLabels "outbound")) dsts
  | _ => renderLabels (Merge (promDirectionLabels "inbound") (QueryLabels (Some r))) dsts
  end.

(** What a sample does to the statistics of a route. *)
Definition onRoute (pt : promType) (s : Sample) (b : BasicStats) : BasicStats :=
  match pt with
  | promRequests => classified s addSuccess addFailure b
  | promActualRequests => classified s addActualSuccess addActualFailure b
  | promLatencyP50 => setP50 (extractSampleValue s) b
  | promLatencyP95 => setP95 (extractSampleValue s) b
  | promLatencyP99 => setP99 (extractSampleValue s) b
  | _ => b
  end.
Definition routeKey (s : Sample) : dstAndRoute := (default "" (head (strings.Split (label s "dst") ":")), label s "rt_route").
Definition processRouteSample (window : string) (table : indexedTable) (e : promType * Sample) : indexedTable :=
  match table !! routeKey e.2 with
  | None => table
  | Some row => <[routeKey e.2 := mkRouteRow (rr_Authority row) (rr_Route row) window (onRoute e.1 e.2 (rr_Stats row))]> table
  end.
Definition processRouteMetrics (results : list (promType * list Sample)) (window : string) (table : indexedTable) : indexedTable :=
  foldl (processRouteSample window) table (samples results).

(** The rows of a service's profile. *)
Definition profileRows (table : indexedTable) (e : string * object) : indexedTable :=
  let row route display := <[(name e.2, route) := mkRouteRow e.1 display "" noBasic]> in
  row "" DefaultRouteName (foldl (λ t route, row route route t) table (routeNames e.2)).

Definition getRouteMetrics (req : TopRoutesRequest) (profiles : gmap string object) (r : Resource) : res indexedTable :=
  let reqLabels := buildRouteLabels (t_Outbound req) ((λ e, name e.2) <$> range profiles) r in
  let outbound := match t_Outbound req with Unset | NoneO => false | _ => true end in
  let* results := getPrometheusMetrics (prometheusAPI srv)
    ((promRequests, routeReqQuery reqLabels (t_TimeWindow req) "rt_route") ::
     (if outbound then [(promActualRequests, actualRouteReqQuery reqLabels (t_TimeWindow req) "rt_route")] else []))
    (generateQuantileQueries routeLatencyQuantileQuery reqLabels (t_TimeWindow req) "rt_route") in
  Ok (processRouteMetrics results (t_TimeWindow req) (foldl profileRows ∅ (range profiles))).

(** The profiles of the services of the objects, by the name of the service. *)
Definition profilesOf (clientNs : string) (acc : res (gmap string object)) (obj : object) : res (gmap string object) :=
  let* profiles := acc in
  let* services := GetServicesFor (k8sAPI srv) obj false in
  foldl (λ acc svc, let* ps := acc in
                    let* p := GetServiceProfileFor (k8sAPI srv) (meta svc) clientNs (clusterDomain srv) in
                    Ok (<[name svc := p]> ps)) (Ok profiles) services.
Definition topRoutesFor (req : TopRoutesRequest) (r : Resource) (obj : object) : res (string * indexedTable) :=
  let* nm := GetNameOf obj in
  let* sel := getLabelSelector (t_LabelSelector req) in
  let targetResource := mkResource (r_Namespace r) (r_Type r) nm in
  let requested := default targetResource (GetToResource (t_Outbound req)) in
  let* objects := GetObjects (k8sAPI srv) (r_Namespace requested) (r_Type requested) (r_Name requested) sel in
  let* profiles := foldl (profilesOf (r_Namespace r)) (Ok ∅) objects in
  let* table := getRouteMetrics req profiles targetResource in
  Ok (r_Type r +:+ "/" +:+ nm, table).

Definition validateRequest (req : TopRoutesRequest) : option string :=
  match t_Resource req with
  | None => Some "TopRoutes request missing Selector Resource"
  | Some r =>
      match t_Outbound req with
      | NoneO => None
      | _ => if bool_decide (r_Type r = "service") then Some "The service resource type is not supported with 'to' queries" else None
      end
  end.

(** An object whose table cannot be made is skipped. *)
Definition tablesOf (req : TopRoutesRequest) (r : Resource) (objects : list object) : res (list (string * indexedTable)) :=
  let tables := topRoutesFor req r <$> objects in
  if existsb isPanic tables then Panic else Ok (omap (λ t, match t with Ok t => Some t | _ => None end) tables).
Definition TopRoutes (req : TopRoutesRequest) : res (response (list (string * list RouteRow))) :=
  if negb (bool_decide (is_Some (inf (k8sAPI srv) !! SP))) then Ok (Refusal "Routes are not available")
  else match validateRequest req, t_Resource req with
  | Some message, _ => Ok (Refusal message)
  | None, None => Panic
  | None, Some r =>
      let* sel := getLabelSelector (t_LabelSelector req) in
      match validateTimeWindow srv (t_TimeWindow req) with
      | Err e => Ok (Refusal ("invalid time window: " +:+ e))
      | Panic => Panic
      | Ok _ =>
          let* objects := GetObjects (k8sAPI srv) (r_Namespace r) (r_Type r) (r_Name r) sel in
          let* tables := tablesOf req r objects in
          if bool_decide (tables = []) then Ok (Refusal "No Service Profiles found for selected resources")
          else Ok (Answer ((λ t, (t.1, (range t.2).*2)) <$> tables))
      end
  end.

(** * Edges *)
Record Edge := mkEdge { e_Src : Resource; e_Dst : Resource; e_ClientId : string; e_ServerId : string; e_NoIdentityMsg : string }.
(** Source with its namespace, destination with its namespace. *)
Abbreviation edgeKey := ((string * string) * (string * string))%type.
Definition formatMsg (reason : string) : string :=
  match reason with
  | "disabled" => "Disabled" | "loopback" => "Loopback" | "no_authority_in_http_request" => "No Authority In HTTP Request"
  | "not_http" => "Not HTTP" | "not_provided_by_remote" => "Not Provided By Remote"
  | "not_provided_by_service_discovery" => "Not Provided By Service Discovery" | _ => ""
  end.
Definition edgesQuery (metric labels typ : string) : string :=
  "sum(" +:+ metric +:+ labels +:+ ") by (" +:+ typ +:+ ", dst_" +:+ typ +:+ ", pod, server_id, namespace, dst_namespace, no_tls_reason)".

Definition getPodIdentity (pod namespace : string) : res string :=
  let* pods := lister (k8sAPI srv) PodRes in
  let* po := Get pods namespace pod in PodIdentity (pd_Pod (detail po)).

Definition keyOfEdge (typ : string) (s : Sample) : edgeKey :=
  ((label s typ, label s "namespace"), (label s ("dst_" +:+ typ), label s "dst_namespace")).
Definition isZero (s : Sample) : bool := match Value s with Some q => Qeq_bool q 0 | None => false end.
Definition addEdge (typ requestedNs : string) (acc : res (gmap edgeKey Edge)) (s : Sample) : res (gmap edgeKey Edge) :=
  let* edges := acc in
  let key := keyOfEdge typ s in
  if isZero s then Ok edges
  else if bool_decide (requestedNs ≠ "" ∧ requestedNs ≠ key.1.2 ∧ requestedNs ≠ key.2.2) then Ok edges
  else if bool_decide (is_Some (edges !! key)) then Ok edges
  else match getPodIdentity (label s "pod") key.1.2 with
       | Panic => Panic
       | Err _ => Ok edges
       | Ok clientID =>
           Ok (<[key := mkEdge (mkResource key.1.2 typ key.1.1) (mkResource key.2.2 typ key.2.1) clientID (label s "server_id")
                          (formatMsg (label s "no_tls_reason"))]> edges)
       end.
Definition edgeSortKey (e : Edge) : string :=
  r_Namespace (e_Src e) +:+ r_Namespace (e_Dst e) +:+ r_Name (e_Src e) +:+ r_Name (e_Dst e).
End routes.

Definition edgeLe (a b : Edge) : Prop := String.le (edgeSortKey a) (edgeSortKey b).
#[export] Instance edgeLe_dec a b : Decision (edgeLe a b).
Proof. unfold edgeLe. apply _. Defined.
Definition sortEdgeRows (rows : list Edge) : list Edge := merge_sort edgeLe rows.

(** * Gateways *)
Record GatewayRow := mkGatewayRow {
  gw_ClusterName : string; gw_PairedServices : Z; gw_Alive : bool; gw_P50 : Z; gw_P95 : Z; gw_P99 : Z }.
Definition gatewayAliveQuery (labels groupBy : string) : string := "sum(gateway_alive" +:+ labels +:+ ") by (" +:+ groupBy +:+ ")".
Definition gatewayLatencyQuantileQuery (q labels window groupBy : string) : string :=
  "histogram_quantile(" +:+ q +:+ ", sum(irate(gateway_probe_latency_ms_bucket" +:+ labels +:+ "[" +:+ window +:+ "])) by (le, " +:+ groupBy +:+ "))".
Definition buildGatewaysRequestLabels (req : GatewaysRequest) : LabelSet * LabelNames :=
  (Merge (named GatewayNamespaceLabel (g_GatewayNamespace req)) (named RemoteClusterNameLabel (g_RemoteClusterName req)),
   [GatewayNamespaceLabel; RemoteClusterNameLabel; GatewayNameLabel]).

Section handlers.
Context `{!MapRange} `{!Prom} `{!World} (srv : grpcServer).

Definition Edges (resource : option Resource) : res (response (list Edge)) :=
  match resource with
  | None => Ok (Refusal "Edges request missing Selector Resource")
  | Some r =>
      let typ := ResourceType r in
      let labels := generateLabelStringWithExclusion (promDirectionLabels "outbound") [typ; "dst_" +:+ typ] in
      match queryProm (prometheusAPI srv) (edgesQuery "tcp_open_connections" labels typ) with
      | Panic => Panic
      | Err e => Ok (Refusal e)
      | Ok vec =>
          let* edges := foldl (addEdge srv typ (r_Namespace r)) (Ok ∅) vec in
          Ok (Answer (sortEdgeRows (range edges).*2))
      end
  end.

Definition getNumServicesMap : res (gmap string Z) :=
  let* services := listServices in
  Ok (foldl (λ m labels, let c := get labels K8s.RemoteClusterNameLabel in <[c := u64 (default 0 (m !! c) + 1)]> m) ∅ services).

Definition onGateway (pt : promType) (s : Sample) : option (GatewayRow → GatewayRow) :=
  let v := extractSampleValue s in
  match pt with
  | promGatewayAlive => Some (λ g, mkGatewayRow (gw_ClusterName g) (gw_PairedServices g) (0 <? v) (gw_P50 g) (gw_P95 g) (gw_P99 g))
  | promLatencyP50 => Some (λ g, mkGatewayRow (gw_ClusterName g) (gw_PairedServices g) (gw_Alive g) v (gw_P95 g) (gw_P99 g))
  | promLatencyP95 => Some (λ g, mkGatewayRow (gw_ClusterName g) (gw_PairedServices g) (gw_Alive g) (gw_P50 g) v (gw_P99 g))
  | promLatencyP99 => Some (λ g, mkGatewayRow (gw_ClusterName g) (gw_PairedServices g) (gw_Alive g) (gw_P50 g) (gw_P95 g) v)
  | _ => None
  end.
Definition processGatewaySample (numSvcMap : gmap string Z) (rows : gmap string GatewayRow) (e : promType * Sample) : gmap string GatewayRow :=
  let c := label e.2 RemoteClusterNameLabel in
  match onGateway e.1 e.2 with
  | Some f => <[c := f (default (mkGatewayRow c (default 0 (numSvcMap !! c)) false 0 0 0) (rows !! c))]> rows
  | None => rows
  end.
Definition processPrometheusResult (results : list (promType * list Sample)) (numSvcMap : gmap string Z) : gmap string GatewayRow :=
  foldl (processGatewaySample numSvcMap) ∅ (samples results).

Definition getGatewaysMetrics (req : GatewaysRequest) : res (gmap string GatewayRow) :=
  let '(labels, groupBy) := buildGatewaysRequestLabels req in
  let* metrics := getPrometheusMetrics (prometheusAPI srv)
    [(promGatewayAlive, gatewayAliveQuery (labelSetString labels) (labelNamesString groupBy))]
    (generateQuantileQueries gatewayLatencyQuantileQuery (labelSetString labels) (g_TimeWindow req) (labelNamesString groupBy)) in
  let* numSvcMap := getNumServicesMap in
  Ok (processPrometheusResult metrics numSvcMap).
Definition Gateways (req : GatewaysRequest) : res (list GatewayRow) :=
  let* rows := getGatewaysMetrics req in Ok ((range rows).*2).

(** * Authorizations *)
(** Names and kinds of route, server and authorization. *)
Abbreviation rowKey := ((string * string) * (string * string) * (string * string))%type.
Definition authzGroupBy : LabelNames :=
  [RouteKindLabel; RouteNameLabel; AuthorizationKindLabel; AuthorizationNameLabel; ServerKindLabel; ServerNameLabel].
Definition authzKey (s : Sample) : rowKey :=
  ((label s RouteNameLabel, label s RouteKindLabel), (label s ServerNameLabel, label s ServerKindLabel),
   (label s AuthorizationNameLabel, label s AuthorizationKindLabel)).
Definition newAuthzRow (r : Resource) (s : Sample) : Row :=
  let '((route, server), authz) := authzKey s in
  let n := label s NamespaceLabel in
  mkRow r "" (Some noBasic) None
    (Some (mkServerStats 0 0 (mkResource n server.2 server.1) (mkResource n route.2 route.1) (mkResource n authz.2 authz.1))) None None.
Definition onAuthzRow (e : promType * Sample) (row : Row) : Row :=
  mkRow (row_Resource row) (row_TimeWindow row)
    (match onBasic e.1 e.2 with Some f => f <$> row_Stats row | None => row_Stats row end) (row_Tcp row)
    (onAuthz e.1 e.2 <$> row_Srv row) (row_Split row) (row_Pods row).
Definition processAuthzSample (r : Resource) (rows : gmap rowKey Row) (e : promType * Sample) : gmap rowKey Row :=
  <[authzKey e.2 := onAuthzRow e (default (newAuthzRow r e.2) (rows !! authzKey e.2))]> rows.
Definition Authz_ (resource : option Resource) (window : string) : res (response (list Row)) :=
  match resource with
  | None => Ok (Refusal "AuthzRequest missing resource")
  | Some r =>
      let labels := QueryLabels (Some r) in
      let reqLabels := labelSetString (Merge labels (promDirectionLabels "inbound")) in
      let by_ := labelNamesString authzGroupBy in
      match getPrometheusMetrics (prometheusAPI srv)
              [(promRequests, reqQuery reqLabels window by_);
               (promAllowedRequests, httpAuthzAllowQuery (labelSetString labels) window by_);
               (promDeniedRequests, httpAuthzDenyQuery (labelSetString labels) window by_)]
              (generateQuantileQueries latencyQuantileQuery reqLabels window by_) with
      | Panic => Panic
      | Err e => Ok (Refusal e)
      | Ok results => Ok (Answer ((range (foldl (processAuthzSample r) ∅ (samples results))).*2))
      end
  end.

(** * Lists *)
Record PublicPod := mkPublicPod {
  pp_Name : string; pp_Status : string; pp_PodIP : string; pp_ControllerNamespace : string; pp_ControlPlane : bool;
  pp_ProxyReady : bool; pp_ProxyVersion : string; pp_ResourceVersion : string; pp_Owner : option (string * string);
  pp_Added : bool; pp_SinceLastReport : option (Z * Z); pp_Uptime : option (Z * Z) }.

Definition K8sPodToPublicPod (pod : object) (ownerKind ownerName : string) : PublicPod :=
  let d := detail pod in
  let terminating := match pod with PodO _ _ t => t | _ => false end in
  let phase := match pod with PodO _ p _ => p | _ => "" end in
  mkPublicPod (ns pod +:+ "/" +:+ name pod)
    (if bool_decide (po_Reason (pd_Pod d) = "Evicted") then "Evicted" else if terminating then "Terminating" else phase)
    (po_PodIP (pd_Pod d)) (get (m_Labels (meta pod)) ControllerNSLabel)
    (bool_decide (get (m_Labels (meta pod)) "linkerd.io/control-plane-component" ≠ "")) (GetProxyReady (pd_Pod d)) (GetProxyVersion (pd_Pod d))
    (pd_ResourceVersion d)
    (if bool_decide (ownerKind ∈ ["deployment"; "daemonset"; "job"; "replicaset"; "replicationcontroller"; "statefulset"])
     then Some (ownerKind, ns pod +:+ "/" +:+ ownerName) else None) false None None.

Definition podQuery (sel : string) : string := "max(process_start_time_seconds{" +:+ sel +:+ "}) by (pod, namespace)".
Definition shouldIgnore (pod : object) : bool := bool_decide (ns pod ∈ ignoredNamespaces srv).

(** Time since, in seconds and nanoseconds. *)
Definition since (now t : Z) : Z * Z := (Z.quot (now - t) 1000000000, Z.rem (now - t) 1000000000).
(** [int64] of a value; of NaN it is left to the implementation. *)
Definition truncated (v : option Q) : Z := match v with Some q => Z.quot (Qnum q) (Zpos (Qden q)) | None => 0 end.
(** The report of a pod, by its name: when it was made and when the process started. *)
Definition reportsOf (vec : list Sample) : gmap string (Z * Z) :=
  foldl (λ m s, <[label s "pod" := (Timestamp s * 1000000, truncated (Value s) * 1000000000)]> m) ∅ vec.

Definition listed (owner : option Resource) (now : Z) (reports : gmap string (Z * Z)) (acc : res (list PublicPod)) (pod : object)
    : res (list PublicPod) :=
  let* l := acc in
  let target := default (mkResource "" "" "") owner in
  if shouldIgnore pod then Ok l
  else
    let* ow := GetOwnerKindAndName (λ _ _ _, None) (k8sAPI srv) (meta pod) false in
    if bool_decide ((r_Namespace target ≠ "" ∧ r_Namespace target ≠ ns pod) ∨ (r_Type target ≠ "" ∧ r_Type target ≠ ow.1)
                    ∨ (r_Name target ≠ "" ∧ r_Name target ≠ ow.2)) then Ok l
    else
      let item := K8sPodToPublicPod pod ow.1 ow.2 in
      let report := reports !! name pod in
      Ok (l ++ [mkPublicPod (pp_Name item) (pp_Status item) (pp_PodIP item) (pp_ControllerNamespace item) (pp_ControlPlane item)
                  (pp_ProxyReady item) (pp_ProxyVersion item) (pp_ResourceVersion item) (pp_Owner item) (bool_decide (is_Some report))
                  ((λ r, since now r.1) <$> report) ((λ r, since now r.2) <$> report)]).

Definition ListPods (owner : option Resource) (labelSelector : string) (now : Z) : res (list PublicPod) :=
  let* sel := getLabelSelector labelSelector in
  let target := default (mkResource "" "" "") owner in
  let namespace := if bool_decide (r_Namespace target ≠ "") then r_Namespace target
                   else if bool_decide (r_Type target = "namespace") then r_Name target else "" in
  let nsQuery := if bool_decide (namespace ≠ "") then "namespace=" +:+ quotes +:+ namespace +:+ quotes else "" in
  let* vec := match prometheusAPI srv with None => Ok [] | Some _ => queryProm (prometheusAPI srv) (podQuery nsQuery) end in
  let* pods := lister (k8sAPI srv) PodRes in
  let pods := if bool_decide (namespace ≠ "") then ListNS pods namespace sel else List pods sel in
  foldl (listed owner now (reportsOf vec)) (Ok []) pods.

Definition ListServices (namespace : string) : res (list (string * string)) :=
  let* services := GetServices (k8sAPI srv) namespace "" in Ok ((λ s, (name s, ns s)) <$> services).

(** Each check with whether it succeeded. *)
Definition SelfCheck : res (list (string * bool)) :=
  let* _ := lister (k8sAPI srv) PodRes in
  match prometheusAPI srv with
  | None => Ok [("kubernetes", true)]
  | Some _ =>
      match queryProm (prometheusAPI srv) (podQuery "") with
      | Panic => Panic
      | r => Ok [("kubernetes", true); ("prometheus", is_ok r)]
      end
  end.
End handlers.
