(* ===== verification/VizProps.v ===== *)
(** Theorems on the metrics API: the statistics of a table are those of the series that belong to
    its objects, whatever the order in which results arrive. *)
From Stdlib Require Import QArith.
From S2P Require Import Prelude GoStd K8s PkgK8s K8sApi K8sApiProps VizApi VizStat VizRoutes.

#[local] Open Scope string_scope.
#[local] Open Scope list_scope.
#[local] Open Scope Z_scope.
#[local] Open Scope go_scope.

(** * What one key gets *)
Section keys.
Context `{!MapRange} `{!Prom}.

Definition basicStep (b : BasicStats) (e : promType * Sample) : BasicStats :=
  match onBasic e.1 e.2 with Some f => f b | None => b end.
Definition tcpStep (t : TcpStats) (e : promType * Sample) : TcpStats :=
  match onTcp e.1 e.2 with Some f => f t | None => t end.

Lemma processed_basic typ groupBy k l acc :
  default noBasic (basicStats (foldl (processSample typ groupBy) acc l) !! k)
  = foldl basicStep (default noBasic (basicStats acc !! k)) (filter (λ e, metricToKey typ groupBy e.2 = k) l).
Proof.
  revert acc. induction l as [|e l IH]; intros acc; [done|]. cbn [foldl]. rewrite IH, filter_cons. cbn [processSample basicStats].
  unfold upsert, basicStep. case_decide as Hk; cbn [foldl]; destruct (onBasic e.1 e.2); try done.
  - by rewrite Hk, lookup_insert_eq.
  - by rewrite lookup_insert_ne.
Qed.
Lemma processed_tcp typ groupBy k l acc :
  default noTcp (tcpStats (foldl (processSample typ groupBy) acc l) !! k)
  = foldl tcpStep (default noTcp (tcpStats acc !! k)) (filter (λ e, metricToKey typ groupBy e.2 = k) l).
Proof.
  revert acc. induction l as [|e l IH]; intros acc; [done|]. cbn [foldl]. rewrite IH, filter_cons. cbn [processSample tcpStats].
  unfold upsert, tcpStep. case_decide as Hk; cbn [foldl]; destruct (onTcp e.1 e.2); try done.
  - by rewrite Hk, lookup_insert_eq.
  - by rewrite lookup_insert_ne.
Qed.

(** The values of the samples of one type, and of one classification among the requests. *)
Definition valuesOf (pt : promType) (l : list (promType * Sample)) : list Z :=
  (λ e, extractSampleValue e.2) <$> filter (λ e, e.1 = pt) l.
Definition countsOf (class : string) (l : list (promType * Sample)) : list Z :=
  (λ e, extractSampleValue e.2) <$> filter (λ e, e.1 = promRequests ∧ label e.2 "classification" = class) l.
Definition total (l : list Z) : Z := foldr Z.add 0 l.

Lemma total_perm l l' : l ≡ₚ l' → total l = total l'.
Proof. unfold total. induction 1; cbn; lia. Qed.

(** The statistics after the samples of a key: the counts are sums, the quantiles the last
    values. *)
Definition summary (l : list (promType * Sample)) : BasicStats :=
  mkBasicStats (u64 (total (countsOf "success" l))) (u64 (total (countsOf "failure" l)))
    (default 0 (last (valuesOf promLatencyP50 l))) (default 0 (last (valuesOf promLatencyP95 l)))
    (default 0 (last (valuesOf promLatencyP99 l))) 0 0.
Definition tcpSummary (l : list (promType * Sample)) : TcpStats :=
  mkTcpStats (default 0 (last (valuesOf promTCPConnections l))) (default 0 (last (valuesOf promTCPReadBytes l)))
    (default 0 (last (valuesOf promTCPWriteBytes l))).

Lemma valuesOf_snoc pt l e : valuesOf pt (l ++ [e]) = valuesOf pt l ++ (if bool_decide (e.1 = pt) then [extractSampleValue e.2] else []).
Proof. unfold valuesOf. rewrite filter_app, fmap_app. f_equal. rewrite filter_cons, filter_nil. by case_decide; case_bool_decide. Qed.
Lemma countsOf_snoc c l e :
  countsOf c (l ++ [e]) = countsOf c l ++ (if bool_decide (e.1 = promRequests ∧ label e.2 "classification" = c) then [extractSampleValue e.2] else []).
Proof. unfold countsOf. rewrite filter_app, fmap_app. f_equal. rewrite filter_cons, filter_nil. by case_decide; case_bool_decide. Qed.
Lemma total_snoc l v : total (l ++ [v]) = total l + v.
Proof. unfold total. rewrite foldr_app. cbn. induction l as [|x l IH]; cbn; lia. Qed.
Lemma u64_add a b : u64 (u64 a + b) = u64 (a + b).
Proof. unfold u64. by rewrite Zplus_mod_idemp_l. Qed.

Ltac decided := repeat match goal with |- context [bool_decide ?P] =>
  first [rewrite (bool_decide_true P) by done | rewrite (bool_decide_false P) by (done || by intros [? _])] end.

Lemma summary_step l e : basicStep (summary l) e = summary (l ++ [e]).
Proof.
  unfold basicStep, summary. rewrite !countsOf_snoc, !valuesOf_snoc. destruct e as [pt s]. cbn [fst snd].
  destruct pt; cbn [onBasic]; decided; rewrite ?app_nil_r, ?last_snoc; try done.
  unfold classified. destruct (decide (label s "classification" = "success")) as [Hs|Hs].
  - rewrite (bool_decide_true (_ = "success")), bool_decide_true, (bool_decide_false (_ ∧ _ = "failure")) by (intuition congruence).
    rewrite app_nil_r, total_snoc. unfold addSuccess. cbn. by rewrite u64_add.
  - rewrite (bool_decide_false (_ = "success")), (bool_decide_false (_ ∧ _ = "success")) by (intuition congruence). rewrite app_nil_r.
    destruct (decide (label s "classification" = "failure")) as [Hf|Hf].
    + rewrite !bool_decide_true, total_snoc by done. unfold addFailure. cbn. by rewrite u64_add.
    + rewrite (bool_decide_false (_ = "failure")), (bool_decide_false (_ ∧ _ = "failure")) by (intuition congruence). by rewrite app_nil_r.
Qed.
Lemma tcpSummary_step l e : tcpStep (tcpSummary l) e = tcpSummary (l ++ [e]).
Proof.
  unfold tcpStep, tcpSummary. rewrite !valuesOf_snoc. destruct e as [pt s]. cbn [fst snd].
  destruct pt; cbn [onTcp]; decided; by rewrite ?app_nil_r, ?last_snoc.
Qed.
Lemma fold_summary l l0 : foldl basicStep (summary l0) l = summary (l0 ++ l).
Proof. revert l0. induction l as [|e l IH]; intros l0; [by rewrite app_nil_r|]. cbn [foldl]. by rewrite summary_step, IH, <-app_assoc. Qed.
Lemma fold_tcpSummary l l0 : foldl tcpStep (tcpSummary l0) l = tcpSummary (l0 ++ l).
Proof. revert l0. induction l as [|e l IH]; intros l0; [by rewrite app_nil_r|]. cbn [foldl]. by rewrite tcpSummary_step, IH, <-app_assoc. Qed.

Lemma basic_of_key typ groupBy k results :
  default noBasic (basicStats (processPrometheusMetrics typ results groupBy) !! k)
  = summary (filter (λ e, metricToKey typ groupBy e.2 = k) (samples results)).
Proof. unfold processPrometheusMetrics. rewrite processed_basic. cbn [basicStats]. rewrite lookup_empty. exact (fold_summary _ []). Qed.
Lemma tcp_of_key typ groupBy k results :
  default noTcp (tcpStats (processPrometheusMetrics typ results groupBy) !! k)
  = tcpSummary (filter (λ e, metricToKey typ groupBy e.2 = k) (samples results)).
Proof. unfold processPrometheusMetrics. rewrite processed_tcp. cbn [tcpStats]. rewrite lookup_empty. exact (fold_tcpSummary _ []). Qed.
End keys.

(** * Prometheus *)
(** What a query returns, as the documentation of Prometheus has it: the series of the metric
    that have the labels of the selector are grouped by the labels of the [by] clause, and each
    group is aggregated; a label without a value is no label. *)
Section prometheus.
Context {Series : Type} (labelsOf : Series → strmap) (db : promType → list Series) (agg : promType → list Series → option Q) (time : Z).

Definition matches (L : LabelSet) (s : Series) : Prop := map_Forall (λ k v, get (labelsOf s) k = v) L.
#[local] Instance matches_dec L s : Decision (matches L s).
Proof. unfold matches. apply _. Defined.
Definition restrict (G : LabelNames) (m : strmap) : strmap := filter (λ e, e.1 ∈ G) m.
Definition evaluate (pt : promType) (L : LabelSet) (G : LabelNames) : list Sample :=
  (λ g, mkSample g (agg pt (filter (λ s, matches L s ∧ restrict G (labelsOf s) = g) (db pt))) time)
    <$> remove_dups ((λ s, restrict G (labelsOf s)) <$> filter (matches L) (db pt)).

Definition wellLabelled : Prop := ∀ pt s k, s ∈ db pt → labelsOf s !! k ≠ Some "".

Lemma get_restrict G m k : k ∈ G → get (restrict G m) k = get m k.
Proof.
  intros Hk. unfold get, restrict. f_equal. destruct (m !! k) as [v|] eqn:Hm.
  - by apply map_lookup_filter_Some_2.
  - by apply map_lookup_filter_None_2; left.
Qed.
Lemma restrict_eq G m1 m2 :
  (∀ k, m1 !! k ≠ Some "") → (∀ k, m2 !! k ≠ Some "") →
  restrict G m1 = restrict G m2 ↔ ∀ k, k ∈ G → get m1 k = get m2 k.
Proof.
  intros H1 H2. split; [intros Heq k Hk; by rewrite <-(get_restrict G m1 k Hk), Heq, get_restrict|].
  intros Hall. apply map_eq. intros k. destruct (decide (k ∈ G)) as [Hk|Hk].
  - specialize (Hall k Hk). specialize (H1 k). specialize (H2 k). unfold restrict. rewrite !map_lookup_filter. unfold get in Hall.
    destruct (m1 !! k), (m2 !! k); cbn in *; rewrite ?option_guard_True by done; congruence.
  - unfold restrict. rewrite !map_lookup_filter. destruct (m1 !! k), (m2 !! k); cbn; by rewrite ?option_guard_False by done.
Qed.

(** The samples of a query whose labels satisfy a condition that fixes all labels it is grouped
    by but one: a sample for each value that label has among the series that satisfy it. *)
Lemma evaluate_by pt L G (P : strmap → Prop) `{!∀ m, Decision (P m)} t :
  wellLabelled → t ∈ G → (∀ m, P (restrict G m) ↔ P m) →
  (∀ m1 m2, P m1 → P m2 → get m1 t = get m2 t → ∀ k, k ∈ G → get m1 k = get m2 k) →
  Value <$> filter (λ s, P (Metric s)) (evaluate pt L G)
  ≡ₚ (λ v, agg pt (filter (λ s, (matches L s ∧ P (labelsOf s)) ∧ get (labelsOf s) t = v) (db pt)))
      <$> remove_dups ((λ s, get (labelsOf s) t) <$> filter (λ s, matches L s ∧ P (labelsOf s)) (db pt)).
Proof.
  intros Hwl Ht HP Hfix. unfold evaluate.
  set (val := λ g, agg pt (filter (λ s, matches L s ∧ restrict G (labelsOf s) = g) (db pt))).
  set (gs := remove_dups _). set (F := λ v, agg pt (filter (λ s, (matches L s ∧ P (labelsOf s)) ∧ get (labelsOf s) t = v) (db pt))).
  rewrite filter_of_fmap, <-list_fmap_compose.
  assert (∀ g, g ∈ gs → ∃ s, s ∈ db pt ∧ matches L s ∧ g = restrict G (labelsOf s)) as Hgs.
  { intros g Hg. unfold gs in Hg. rewrite elem_of_remove_dups, list_elem_of_fmap in Hg. destruct Hg as (s & -> & [Hm Hs]%list_elem_of_filter). eauto. }
  assert (∀ s1 s2, s1 ∈ db pt → s2 ∈ db pt → P (labelsOf s1) → P (labelsOf s2) → get (labelsOf s1) t = get (labelsOf s2) t →
            restrict G (labelsOf s1) = restrict G (labelsOf s2)) as Hinj.
  { intros s1 s2 H1 H2 HP1 HP2 Heq. apply restrict_eq; [intros k; by eapply Hwl..|]. by apply Hfix. }
  trans (F <$> ((λ g, get g t) <$> filter (λ g, P g) gs)).
  - rewrite <-list_fmap_compose. apply reflexive_eq, Forall_fmap_ext_1, Forall_forall. intros g [HPg Hg]%list_elem_of_filter.
    destruct (Hgs g Hg) as (s & Hs & HL & ->). cbn. unfold F, val. f_equal. apply filter_iff_in. intros s' Hs'.
    rewrite get_restrict by done. apply (proj1 (HP _)) in HPg. split; [|intros [[HL' HP'] Heq]; split; [done|by apply Hinj]].
    intros [HL' Heq]. split; [split; [done|]|by rewrite <-(get_restrict G _ t Ht), Heq, get_restrict].
    apply (proj1 (HP _)). rewrite Heq. by apply HP.
  - apply Permutation_map, NoDup_Permutation; [|apply NoDup_remove_dups|].
    + apply NoDup_fmap_2_strong; [|by apply NoDup_filter, NoDup_remove_dups].
      intros g1 g2 [HP1 Hg1]%list_elem_of_filter [HP2 Hg2]%list_elem_of_filter.
      destruct (Hgs g1 Hg1) as (s1 & Hs1 & _ & ->), (Hgs g2 Hg2) as (s2 & Hs2 & _ & ->). rewrite !get_restrict by done.
      apply Hinj; [done|done|by apply (proj1 (HP _))..].
    + intros v. rewrite elem_of_remove_dups, !list_elem_of_fmap. split.
      * intros (g & -> & [HPg Hg]%list_elem_of_filter). destruct (Hgs g Hg) as (s & Hs & HL & ->). rewrite get_restrict by done.
        exists s. split; [done|]. apply list_elem_of_filter. split; [split; [done|by apply (proj1 (HP _))]|done].
      * intros (s & -> & [[HL HPs] Hs]%list_elem_of_filter). exists (restrict G (labelsOf s)). rewrite get_restrict by done.
        split; [done|]. apply list_elem_of_filter. split; [by apply (proj2 (HP _))|]. unfold gs. rewrite elem_of_remove_dups.
        apply list_elem_of_fmap. exists s. split; [done|]. by apply list_elem_of_filter.
Qed.

(** When it is one of the labels the condition fixes, there is at most one sample. *)
Lemma evaluate_one pt L G (P : strmap → Prop) `{!∀ m, Decision (P m)} t :
  wellLabelled → t ∈ G → (∀ m, P (restrict G m) ↔ P m) → (∀ m1 m2, P m1 → P m2 → ∀ k, k ∈ G → get m1 k = get m2 k) →
  Value <$> filter (λ s, P (Metric s)) (evaluate pt L G)
  = match filter (λ s, matches L s ∧ P (labelsOf s)) (db pt) with [] => [] | l => [agg pt l] end.
Proof.
  intros Hwl Ht HP Hfix. pose proof (evaluate_by pt L G P t Hwl Ht HP (λ m1 m2 H1 H2 _, Hfix m1 m2 H1 H2)) as Hp.
  destruct (filter (λ s, matches L s ∧ P (labelsOf s)) (db pt)) as [|s0 l] eqn:Hl; [by apply Permutation_nil_r in Hp|].
  assert (∀ s, s ∈ s0 :: l → get (labelsOf s) t = get (labelsOf s0) t) as Hsame.
  { intros s Hs. rewrite <-Hl in Hs. apply list_elem_of_filter in Hs as [[_ HPs] _]. eapply Hfix; [done| |done].
    assert (s0 ∈ filter (λ s, matches L s ∧ P (labelsOf s)) (db pt)) as H0 by (rewrite Hl; apply list_elem_of_here).
    by apply list_elem_of_filter in H0 as [[_ ?] _]. }
  assert (remove_dups ((λ s, get (labelsOf s) t) <$> s0 :: l) ≡ₚ [get (labelsOf s0) t]) as Hd.
  { apply NoDup_Permutation; [apply NoDup_remove_dups|apply NoDup_singleton|]. intros v.
    rewrite elem_of_remove_dups, list_elem_of_fmap, list_elem_of_singleton. split; [intros (s & -> & Hs); by apply Hsame|].
    intros ->. exists s0. split; [done|apply list_elem_of_here]. }
  rewrite Hd in Hp. cbn in Hp. apply Permutation_singleton_r in Hp. rewrite Hp. f_equal. f_equal. rewrite <-Hl. apply filter_iff_in.
  intros s Hs. split; [by intros [? _]|]. intros HPs. split; [done|]. apply Hsame. rewrite <-Hl. by apply list_elem_of_filter.
Qed.
End prometheus.

(** ** Selectors *)
Lemma Merge_single L k v : Merge L {[k := v]} = <[k := v]> L.
Proof. unfold Merge. by rewrite insert_union_singleton_l. Qed.

Definition workloadKinds : list string :=
  ["cronjob"; "daemonset"; "deployment"; "job"; "pod"; "replicationcontroller"; "replicaset"; "statefulset"].

Section tables.
Context `{!MapRange} `{!Prom} `{!VizStat.World} {Series : Type} (labelsOf : Series → strmap) (db : promType → list Series)
  (agg : promType → list Series → option Q) (time : Z).

(** The selector and the grouping of each query for a workload. *)
Definition selectorOf (r : Resource) (pt : promType) : LabelSet :=
  let labels := (buildRequestLabels r Unset).1 in
  match pt with promTCPReadBytes | promTCPWriteBytes => buildTCPStatsRequestLabels Unset labels | _ => labels end.
Definition groupOf (r : Resource) (pt : promType) : LabelNames :=
  GroupByLabelNames r ++ match pt with promRequests => ["classification"; "tls"] | _ => [] end.

Definition hasPeer (pt : promType) : bool := match pt with promTCPReadBytes | promTCPWriteBytes => true | _ => false end.
Lemma matches_insert L k v s : L !! k = None → matches labelsOf (<[k := v]> L) s ↔ get (labelsOf s) k = v ∧ matches labelsOf L s.
Proof. intros Hk. unfold matches. by rewrite map_Forall_insert. Qed.
Lemma matches_empty s : matches labelsOf ∅ s.
Proof. apply map_Forall_empty. Qed.

Lemma workload_label r : r_Type r ∈ workloadKinds →
  ResourceType r ≠ "namespace" ∧ ResourceType r ≠ "direction" ∧ ResourceType r ≠ "peer" ∧ ResourceType r ≠ "classification" ∧ ResourceType r ≠ "tls".
Proof.
  intros Hk. unfold ResourceType. apply (Forall_forall (λ t, KindToL5DLabel t ≠ "namespace" ∧ KindToL5DLabel t ≠ "direction" ∧
    KindToL5DLabel t ≠ "peer" ∧ KindToL5DLabel t ≠ "classification" ∧ KindToL5DLabel t ≠ "tls") workloadKinds); [|done].
  repeat constructor; by vm_compute.
Qed.

Lemma QueryLabels_workload r : r_Type r ∈ workloadKinds →
  QueryLabels (Some r) = (if bool_decide (r_Namespace r ≠ "") then <[NamespaceLabel := r_Namespace r]> else id)
                           ((if bool_decide (r_Name r ≠ "") then <[ResourceType r := r_Name r]> else id) ∅).
Proof.
  intros Hr. unfold QueryLabels, shouldAddNamespaceLabel.
  rewrite !(bool_decide_false (r_Type r = _)) by (intros Ht; rewrite Ht in Hr; unfold workloadKinds in Hr; set_solver).
  rewrite (bool_decide_true (r_Type r ≠ "service")) by (intros Ht; rewrite Ht in Hr; unfold workloadKinds in Hr; set_solver).
  assert (r_Type r ≠ "namespace") as Hn by (intros Ht; rewrite Ht in Hr; unfold workloadKinds in Hr; set_solver).
  rewrite (bool_decide_ext (r_Type r ≠ "namespace" ∧ r_Namespace r ≠ "") (r_Namespace r ≠ "")) by tauto.
  destruct (decide (r_Name r = "")) as [He|He].
  - rewrite (bool_decide_true (r_Name r = "")), (bool_decide_false (r_Name r ≠ "")) by tauto. by case_bool_decide.
  - rewrite (bool_decide_false (r_Name r = "")), (bool_decide_true (r_Name r ≠ "")) by tauto. by case_bool_decide.
Qed.

(** Which series the selector of a query takes. *)
Lemma matches_selector r pt s : r_Type r ∈ workloadKinds →
  matches labelsOf (selectorOf r pt) s ↔
  (r_Namespace r ≠ "" → get (labelsOf s) NamespaceLabel = r_Namespace r) ∧ (r_Name r ≠ "" → get (labelsOf s) (ResourceType r) = r_Name r)
  ∧ get (labelsOf s) "direction" = "inbound" ∧ (hasPeer pt = true → get (labelsOf s) "peer" = "src").
Proof.
  intros Hr. destruct (workload_label r Hr) as (Hl1 & Hl2 & Hl3 & _).
  assert (selectorOf r pt = (if hasPeer pt then <["peer" := "src"]> else id) (<["direction" := "inbound"]> (QueryLabels (Some r)))) as ->.
  { unfold selectorOf, buildTCPStatsRequestLabels, promPeerLabel. cbn [buildRequestLabels fst]. unfold promDirectionLabels.
    rewrite !Merge_single. by destruct pt. }
  rewrite QueryLabels_workload by done. unfold NamespaceLabel.
  pose proof (matches_empty s) as He. do 2 case_bool_decide; destruct (hasPeer pt); cbn [id];
    rewrite ?matches_insert by (cbn [id]; repeat (rewrite lookup_insert_ne by done); apply lookup_empty); intuition congruence.
Qed.

(** ** The statistics of an object, from the series that have its labels *)
Definition value (v : option Q) : Z := match v with None => 0 | Some q => uint64Of (Round q) end.
Definition quantileOf (r : Resource) (pt : promType) : Z :=
  match filter (matches labelsOf (selectorOf r pt)) (db pt) with [] => 0 | l => value (agg pt l) end.
Definition classOf (c : string) (r : Resource) (s : Series) : Prop :=
  matches labelsOf (selectorOf r promRequests) s ∧ get (labelsOf s) "classification" = c.
#[local] Instance classOf_dec c r s : Decision (classOf c r s).
Proof. unfold classOf. apply _. Defined.
(** Requests are counted with and without TLS apart, each number rounded, and added. *)
Definition countOf (c : string) (r : Resource) : Z :=
  u64 (total ((λ t, value (agg promRequests (filter (λ s, classOf c r s ∧ get (labelsOf s) "tls" = t) (db promRequests))))
                <$> remove_dups ((λ s, get (labelsOf s) "tls") <$> filter (classOf c r) (db promRequests)))).
Definition statsOf (r : Resource) : BasicStats :=
  mkBasicStats (countOf "success" r) (countOf "failure" r) (quantileOf r promLatencyP50) (quantileOf r promLatencyP95)
    (quantileOf r promLatencyP99) 0 0.
Definition tcpOf (r : Resource) : TcpStats :=
  mkTcpStats (quantileOf r promTCPConnections) (quantileOf r promTCPReadBytes) (quantileOf r promTCPWriteBytes).

(** An object that a request is about. *)
Definition about (r : Resource) (n nm : string) : Prop :=
  (n ≠ "" ∧ nm ≠ "") ∧ (r_Namespace r = "" ∨ r_Namespace r = n) ∧ (r_Name r = "" ∨ r_Name r = nm).
Definition hasKey (r : Resource) (n nm : string) (m : strmap) : Prop :=
  get m NamespaceLabel = n ∧ get m (ResourceType r) = nm.
#[local] Instance hasKey_dec r n nm m : Decision (hasKey r n nm m).
Proof. unfold hasKey. apply _. Defined.

Definition inClass (c : string) (r : Resource) (n nm : string) (m : strmap) : Prop := hasKey r n nm m ∧ get m "classification" = c.
#[local] Instance inClass_dec c r n nm m : Decision (inClass c r n nm m).
Proof. unfold inClass. apply _. Defined.

Lemma groupBy_workload r : r_Type r ∈ workloadKinds → GroupByLabelNames r = [NamespaceLabel; ResourceType r].
Proof.
  intros Hr. unfold GroupByLabelNames. rewrite bool_decide_true; [done|]. intros Ht. rewrite Ht in Hr. unfold workloadKinds in Hr. set_solver.
Qed.
Lemma key_iff r n nm s : r_Type r ∈ workloadKinds →
  metricToKey (r_Type r) (GroupByLabelNames r) s = mkRKey n (r_Type r) nm ↔ hasKey r n nm (Metric s).
Proof.
  intros Hr. rewrite groupBy_workload by done. unfold metricToKey, hasKey, label. cbn. split; [by intros [= -> ->]|by intros [-> ->]].
Qed.

(** Among the series of the request those with the labels of the object are those that a
    request for the object alone would select. *)
Lemma matches_object r n nm pt s : r_Type r ∈ workloadKinds → about r n nm →
  matches labelsOf (selectorOf r pt) s ∧ hasKey r n nm (labelsOf s) ↔ matches labelsOf (selectorOf (mkResource n (r_Type r) nm) pt) s.
Proof.
  intros Hr ((Hn & Hm) & Hns & Hnm). rewrite !matches_selector by done. cbn [r_Namespace r_Name r_Type]. unfold hasKey.
  change (ResourceType (mkResource n (r_Type r) nm)) with (ResourceType r).
  destruct Hns as [-> | ->], Hnm as [-> | ->]; intuition congruence.
Qed.

Lemma quantile_samples r n nm pt : wellLabelled labelsOf db → r_Type r ∈ workloadKinds → about r n nm → pt ≠ promRequests →
  Value <$> filter (λ s, metricToKey (r_Type r) (GroupByLabelNames r) s = mkRKey n (r_Type r) nm)
              (evaluate labelsOf db agg time pt (selectorOf r pt) (groupOf r pt))
  = match filter (matches labelsOf (selectorOf (mkResource n (r_Type r) nm) pt)) (db pt) with [] => [] | l => [agg pt l] end.
Proof.
  intros Hwl Hr Ha Hpt. assert (groupOf r pt = [NamespaceLabel; ResourceType r]) as Hg.
  { unfold groupOf. rewrite groupBy_workload by done. by destruct pt. }
  rewrite (filter_iff_in _ (λ s, hasKey r n nm (Metric s))) by (intros; by apply key_iff).
  rewrite (evaluate_one labelsOf db agg time pt (selectorOf r pt) (groupOf r pt) (hasKey r n nm) NamespaceLabel); [|done|rewrite Hg; set_solver|..].
  - rewrite (filter_iff_in _ (matches labelsOf (selectorOf (mkResource n (r_Type r) nm) pt))); [done|]. intros s _. by apply matches_object.
  - intros m. unfold hasKey. rewrite Hg, !get_restrict by set_solver. done.
  - intros m1 m2 [Ha1 Ha2] [Hb1 Hb2] k. rewrite Hg, !elem_of_cons, elem_of_nil. intros [->|[->|[]]]; congruence.
Qed.

Lemma count_samples r n nm c : wellLabelled labelsOf db → r_Type r ∈ workloadKinds → about r n nm →
  (λ s, value (Value s)) <$> filter (λ s, metricToKey (r_Type r) (GroupByLabelNames r) s = mkRKey n (r_Type r) nm ∧ label s "classification" = c)
              (evaluate labelsOf db agg time promRequests (selectorOf r promRequests) (groupOf r promRequests))
  ≡ₚ (λ t, value (agg promRequests (filter (λ s, classOf c (mkResource n (r_Type r) nm) s ∧ get (labelsOf s) "tls" = t) (db promRequests))))
       <$> remove_dups ((λ s, get (labelsOf s) "tls") <$> filter (classOf c (mkResource n (r_Type r) nm)) (db promRequests)).
Proof.
  intros Hwl Hr Ha. destruct (workload_label r Hr) as (_ & _ & _ & Hl4 & Hl5).
  assert (groupOf r promRequests = [NamespaceLabel; ResourceType r; "classification"; "tls"]) as Hg
    by (unfold groupOf; by rewrite groupBy_workload).
  rewrite (filter_iff_in _ (λ s, inClass c r n nm (Metric s))) by (intros; unfold inClass; by rewrite key_iff).
  assert (∀ s, matches labelsOf (selectorOf r promRequests) s ∧ inClass c r n nm (labelsOf s)
    ↔ classOf c (mkResource n (r_Type r) nm) s) as Hs.
  { intros s. unfold classOf, inClass. rewrite <-(matches_object r n nm) by done. tauto. }
  rewrite (list_fmap_compose Value value).
  etrans; [apply Permutation_map, (evaluate_by labelsOf db agg time promRequests (selectorOf r promRequests) (groupOf r promRequests)
    (inClass c r n nm) "tls"); [done|rewrite Hg; set_solver|..]|].
  3: rewrite <-list_fmap_compose; rewrite (filter_iff_in _ (classOf c (mkResource n (r_Type r) nm))) by (intros; apply Hs);
    apply reflexive_eq, list_fmap_ext; intros i t _; cbn; do 2 f_equal; apply filter_iff_in; intros s _; by rewrite Hs.
  - intros m. unfold inClass, hasKey. rewrite Hg, !get_restrict by set_solver. done.
  - intros m1 m2 [[Ha1 Ha2] Ha3] [[Hb1 Hb2] Hb3] Htls k. rewrite Hg, !elem_of_cons, elem_of_nil. intros [->|[->|[->|[->|[]]]]]; congruence.
Qed.

(** ** Results as they arrive *)
Lemma metrics_answered api qs ls (Q : promType → list Sample → Prop) :
  (∀ pt q, (pt, q) ∈ qs ++ ls → ∃ v, Query api q = Ok (Some v) ∧ Q pt v) →
  ∃ results, getPrometheusMetrics (Some api) qs ls = Ok results ∧ results.*1 ≡ₚ (qs ++ ls).*1 ∧ ∀ pt v, (pt, v) ∈ results → Q pt v.
Proof.
  intros Hans. unfold getPrometheusMetrics. set (rs := arrive _).
  assert (Forall (λ r, ∃ v, r.2 = Ok v ∧ Q r.1 v) rs) as Hrs.
  { unfold rs. rewrite arrive_perm. apply Forall_fmap, Forall_forall. intros [pt q] Hin. destruct (Hans pt q Hin) as (v & Hq & HQ).
    exists v. cbn. by rewrite Hq. }
  assert (rs.*1 ≡ₚ (qs ++ ls).*1) as Hkeys by (unfold rs; rewrite arrive_perm, <-list_fmap_compose; done).
  assert (existsb (λ r, isPanic r.2) rs = false ∧ omap (λ r, match r.2 with Err e => Some e | _ => None end) rs = []
    ∧ (omap (λ r, match r.2 with Ok v => Some (r.1, v) | _ => None end) rs).*1 = rs.*1
    ∧ ∀ pt v, (pt, v) ∈ omap (λ r, match r.2 with Ok v => Some (r.1, v) | _ => None end) rs → Q pt v) as (-> & -> & Hf & HQ).
  { clear Hkeys. induction Hrs as [|[pt r] rs' (v & Hv & HQ) _ (IH1 & IH2 & IH3 & IH4)]; [split_and!; try done; by intros ?? ?%elem_of_nil|].
    cbn in Hv, HQ. subst r. cbn. rewrite IH1, IH2, IH3. split_and!; [done..|]. intros pt' v' [[= -> ->]|Hin]%elem_of_cons; eauto. }
  cbn. eexists. split; [done|]. split; [by rewrite Hf|done].
Qed.

Lemma proj_values pt l : valuesOf pt l = extractSampleValue <$> proj_at pt l.
Proof. unfold valuesOf, proj_at. by rewrite <-list_fmap_compose. Qed.
Lemma proj_filter {E} (P : E → Prop) `{!∀ x, Decision (P x)} (pt : promType) (l : list (promType * E)) :
  proj_at pt (filter (λ e, P e.2) l) = filter P (proj_at pt l).
Proof. unfold proj_at. rewrite filter_of_fmap, !list_filter_filter. f_equal. apply list_filter_iff. tauto. Qed.
Lemma proj_samples results pt v : NoDup results.*1 → (pt, v) ∈ results → proj_at pt (samples results) = v.
Proof.
  intros Hnd Hin. unfold samples. rewrite (list_bind_ext _ (λ r, pair r.1 <$> r.2) results results) by done.
  by rewrite (proj_at_bind results (λ _ v, v) pt v).
Qed.
Lemma counts_proj c l : countsOf c l = extractSampleValue <$> filter (λ s, label s "classification" = c) (proj_at promRequests l).
Proof.
  unfold countsOf, proj_at. rewrite filter_of_fmap, <-list_fmap_compose, list_filter_filter. f_equal. apply list_filter_iff. tauto.
Qed.

(** Prometheus answers the queries of a request as documented, in any order. *)
Definition answered (api : PrometheusAPI) (r : Resource) (tcp : bool) (window : string) : Prop :=
  ∀ pt q, (pt, q) ∈ statQueries r Unset tcp window ++ statQuantiles r Unset window →
  ∃ v, Query api q = Ok (Some v) ∧ v ≡ₚ evaluate labelsOf db agg time pt (selectorOf r pt) (groupOf r pt).

Lemma asked r tcp window :
  (statQueries r Unset tcp window ++ statQuantiles r Unset window).*1
  = promRequests :: (if tcp then [promTCPConnections; promTCPReadBytes; promTCPWriteBytes] else []) ++ [promLatencyP50; promLatencyP95; promLatencyP99].
Proof. by destruct tcp. Qed.

Section results.
Context (r : Resource) (n nm : string) (results : list (promType * list Sample)).
Hypothesis (Hwl : wellLabelled labelsOf db) (Hr : r_Type r ∈ workloadKinds) (Ha : about r n nm) (Hnd : NoDup results.*1)
  (Hres : ∀ pt v, (pt, v) ∈ results → v ≡ₚ evaluate labelsOf db agg time pt (selectorOf r pt) (groupOf r pt)).
Let mine := filter (λ e : promType * Sample, metricToKey (r_Type r) (GroupByLabelNames r) e.2 = mkRKey n (r_Type r) nm) (samples results).

Lemma mine_proj pt :
  proj_at pt mine = filter (λ s, metricToKey (r_Type r) (GroupByLabelNames r) s = mkRKey n (r_Type r) nm) (proj_at pt (samples results)).
Proof. exact (proj_filter (λ s, metricToKey (r_Type r) (GroupByLabelNames r) s = mkRKey n (r_Type r) nm) pt (samples results)). Qed.
Lemma quantile_exact pt : pt ∈ results.*1 → pt ≠ promRequests → default 0 (last (valuesOf pt mine)) = quantileOf (mkResource n (r_Type r) nm) pt.
Proof.
  intros ([pt' v] & Heq & Hin)%list_elem_of_fmap Hpt. cbn in Heq. subst pt'. rewrite proj_values. rewrite mine_proj, (proj_samples _ _ _ Hnd Hin).
  pose proof (quantile_samples r n nm pt Hwl Hr Ha Hpt) as Hq. unfold quantileOf.
  set (key := λ s, metricToKey (r_Type r) (GroupByLabelNames r) s = mkRKey n (r_Type r) nm) in *.
  assert (Value <$> filter key v ≡ₚ Value <$> filter key (evaluate labelsOf db agg time pt (selectorOf r pt) (groupOf r pt))) as Hp
    by (by rewrite (Hres _ _ Hin)).
  rewrite Hq in Hp. assert (extractSampleValue <$> filter key v = value <$> (Value <$> filter key v)) as -> by (by rewrite <-list_fmap_compose).
  destruct (filter _ (db pt)); [apply Permutation_nil_r in Hp|apply Permutation_singleton_r in Hp]; by rewrite Hp.
Qed.
Lemma count_exact c : promRequests ∈ results.*1 → u64 (total (countsOf c mine)) = countOf c (mkResource n (r_Type r) nm).
Proof.
  intros ([pt' v] & Hpt & Hin)%list_elem_of_fmap. cbn in Hpt. subst pt'. rewrite counts_proj. rewrite mine_proj, (proj_samples _ _ _ Hnd Hin).
  unfold countOf. f_equal. apply total_perm. rewrite <-(count_samples r n nm c Hwl Hr Ha), list_filter_filter.
  change extractSampleValue with (λ s, value (Value s)). rewrite (Hres _ _ Hin). apply Permutation_map.
  apply reflexive_eq, list_filter_iff. tauto.
Qed.
End results.

(** The statistics a request collects for an object it is about are those of the series that
    have the labels of the object. *)
Lemma getStatMetrics_exact srv api r tcp window :
  prometheusAPI srv = Some api → wellLabelled labelsOf db → r_Type r ∈ workloadKinds → answered api r tcp window →
  ∃ stats, getStatMetrics srv r Unset tcp window = Ok stats ∧ ∀ n nm, about r n nm →
    default noBasic (basicStats stats !! mkRKey n (r_Type r) nm) = statsOf (mkResource n (r_Type r) nm)
    ∧ (tcp = true → default noTcp (tcpStats stats !! mkRKey n (r_Type r) nm) = tcpOf (mkResource n (r_Type r) nm)).
Proof.
  intros Hapi Hwl Hr Hans. unfold getStatMetrics. rewrite Hapi.
  destruct (metrics_answered api _ _ _ Hans) as (results & -> & Hkeys & Hres). cbn [res_bind buildRequestLabels snd].
  eexists. split; [done|]. intros n nm Ha. rewrite basic_of_key, tcp_of_key. rewrite asked in Hkeys.
  assert (NoDup results.*1) as Hnd by (rewrite Hkeys; destruct tcp; apply (bool_decide_unpack _); reflexivity).
  assert (∀ pt, pt ∈ promRequests :: (if tcp then [promTCPConnections; promTCPReadBytes; promTCPWriteBytes] else [])
    ++ [promLatencyP50; promLatencyP95; promLatencyP99] → pt ∈ results.*1) as Hin by (intros pt; by rewrite Hkeys).
  split.
  - unfold summary, statsOf. f_equal; first [apply count_exact|apply quantile_exact]; try done; apply Hin; set_solver.
  - intros ->. unfold tcpSummary, tcpOf. f_equal; apply quantile_exact; try done; apply Hin; set_solver.
Qed.

(** ** Objects *)
Lemma GetObjects_about k r sel objects : r_Type r ∈ workloadKinds → (r_Namespace r = "" → r_Name r = "") →
  GetObjects k (r_Namespace r) (r_Type r) (r_Name r) sel = Ok objects →
  ∀ o, o ∈ objects → (r_Namespace r = "" ∨ r_Namespace r = ns o) ∧ (r_Name r = "" ∨ r_Name r = name o).
Proof.
  intros Hr Hall Hg o Ho. destruct (GetObjects_elem _ _ _ _ _ _ _ Hg Ho) as (res & l & _ & _ & H').
  rewrite decide_False in H' by (intros Ht; rewrite Ht in Hr; unfold workloadKinds in Hr; set_solver).
  destruct H' as [_ [Hn|[<- [Hm|<-]]]]; auto.
Qed.

Section objects.
Context (srv : grpcServer) (typ : string).

Lemma addObjects_Ok objects m0 : Forall (λ o, is_ok (getPodStats srv o) = true) objects →
  ∃ m, foldl (addObject srv typ) (Ok m0) objects = Ok m
    ∧ (∀ k, is_Some (m !! k) ↔ is_Some (m0 !! k) ∨ ∃ o, o ∈ objects ∧ k = mkRKey (ns o) typ (name o))
    ∧ ∀ k mt ps, m !! k = Some (mt, ps) → m0 !! k = Some (mt, ps) ∨ ∃ o, o ∈ objects ∧ k = mkRKey (ns o) typ (name o) ∧ mt = meta o ∧ getPodStats srv o = Ok ps.
Proof.
  intros Hok. revert m0. induction Hok as [|o objects Ho _ IH]; intros m0.
  { exists m0. split; [done|]. split; [|auto]. intros k. split; [auto|]. intros [?|(o & ?%elem_of_nil & _)]; done. }
  cbn [foldl]. unfold addObject at 2. destruct (getPodStats srv o) as [ps| |] eqn:Hps; [|done..]. cbn [res_bind].
  destruct (IH (<[mkRKey (ns o) typ (name o) := (meta o, ps)]> m0)) as (m & Hm & Hdom & Hval). exists m. split; [done|]. split.
  - intros k. rewrite Hdom, lookup_insert_is_Some. setoid_rewrite elem_of_cons. split.
    + intros [[<-|[_ ?]]|(o' & ? & ->)]; [right; eauto|by left|right; eauto].
    + intros [Hk|(o' & [->|?] & ->)]; [|by left; left|right; eauto]. left. destruct (decide (mkRKey (ns o) typ (name o) = k)); auto.
  - intros k mt ps' Hk. setoid_rewrite elem_of_cons. destruct (Hval k mt ps' Hk) as [Hi|(o' & ? & ? & ? & ?)]; [|right; eauto 6].
    apply lookup_insert_Some in Hi as [[<- [= <- <-]]|[_ ?]]; [right; eauto 6|by left].
Qed.
End objects.

Lemma range_lookups {A B} (f : rKey → A → B) (m : gmap rKey A) :
  omap (λ k, f k <$> m !! k) (range m).*1 ≡ₚ (λ e, f e.1 e.2) <$> map_to_list m.
Proof.
  rewrite range_perm. assert (∀ l, (∀ k v, (k, v) ∈ l → m !! k = Some v) → omap (λ k, f k <$> m !! k) l.*1 = (λ e, f e.1 e.2) <$> l) as Hl.
  { induction l as [|[k v] l IH]; intros Hin; [done|]. cbn. rewrite (Hin k v) by apply list_elem_of_here. cbn. f_equal.
    apply IH. intros k' v' ?. apply Hin. by apply list_elem_of_further. }
  rewrite Hl; [done|]. intros k v. by rewrite elem_of_map_to_list.
Qed.

(** ** The table of a request *)
(** The row that belongs to an object: its pods, and the statistics of the series that have its
    labels. *)
Definition rowOf (srv : grpcServer) (req : StatSummaryRequest) (typ : string) (o : object) (row : Row) : Prop :=
  let obj := mkResource (ns o) typ (name o) in
  row_Resource row = obj ∧ row_TimeWindow row = q_TimeWindow req
  ∧ row_Stats row = (if bool_decide (statsOf obj = noBasic) then None else Some (statsOf obj))
  ∧ (if q_TcpStats req then default noTcp (row_Tcp row) = tcpOf obj else row_Tcp row = None)
  ∧ (∃ pods, getPodStats srv o = Ok pods ∧ row_Pods row = Some pods).

(** The objects of a request can be told apart and counted: each has a namespace and a name, and
    its pods can be listed. *)
Definition countable (srv : grpcServer) (o : object) : Prop :=
  (ns o ≠ "" ∧ name o ≠ "") ∧ is_ok (getPodStats srv o) = true.

Lemma workloadRow_rowOf srv req r stats o mt ps : mt = meta o → getPodStats srv o = Ok ps →
  default noBasic (basicStats stats !! mkRKey (ns o) (r_Type r) (name o)) = statsOf (mkResource (ns o) (r_Type r) (name o)) →
  (q_TcpStats req = true → default noTcp (tcpStats stats !! mkRKey (ns o) (r_Type r) (name o)) = tcpOf (mkResource (ns o) (r_Type r) (name o))) →
  rowOf srv req (r_Type r) o (workloadRow (r_Type r) (q_TimeWindow req) (q_TcpStats req) stats (mkRKey (ns o) (r_Type r) (name o)) (mt, ps)).
Proof.
  intros -> Hps Hb Ht. unfold rowOf, workloadRow. cbn [row_Resource row_TimeWindow row_Stats row_Tcp row_Pods fst snd].
  split_and!; [done|done| | |by eauto].
  - rewrite <-Hb. destruct (basicStats stats !! _); cbn; [done|by rewrite bool_decide_true].
  - destruct (q_TcpStats req); auto.
Qed.

(** The rows of a workload. *)
Lemma workload_table srv req r api objects :
  prometheusAPI srv = Some api → q_Outbound req = Unset → q_SkipStats req = false → r_Type r ∈ workloadKinds →
  (r_Namespace r = "" → r_Name r = "") → wellLabelled labelsOf db → answered api r (q_TcpStats req) (q_TimeWindow req) →
  (let* sel := getLabelSelector (q_LabelSelector req) in GetObjects (k8sAPI srv) (r_Namespace r) (r_Type r) (r_Name r) sel) = Ok objects →
  Forall (countable srv) objects →
  ∃ rows, k8sResourceQuery srv r req = Ok rows ∧ NoDup (row_Resource <$> rows)
    ∧ (∀ row, row ∈ rows → ∃ o, o ∈ objects ∧ rowOf srv req (r_Type r) o row)
    ∧ (∀ o, o ∈ objects → mkResource (ns o) (r_Type r) (name o) ∈ row_Resource <$> rows).
Proof.
  intros Hapi Hout Hskip Hr Hall Hwl Hans Hobj Hc. unfold k8sResourceQuery, getKubernetesObjectStats. rewrite Hout, Hskip.
  destruct (getLabelSelector _) as [sel| |]; cbn [res_bind] in Hobj |- *; [|done..]. rewrite Hobj. cbn [res_bind].
  destruct (addObjects_Ok srv (r_Type r) objects ∅) as (m & -> & Hdom & Hval); [by eapply Forall_impl; [done|intros o [_ ?]]|].
  destruct (getStatMetrics_exact srv api r _ _ Hapi Hwl Hr Hans) as (stats & -> & Hstats). cbn [res_bind getResultKeys].
  set (f := workloadRow (r_Type r) (q_TimeWindow req) (q_TcpStats req) stats).
  eexists. split; [done|]. pose proof (range_lookups f m) as Hrows. rewrite Hrows.
  assert (∀ k mt ps, m !! k = Some (mt, ps) →
    ∃ o, o ∈ objects ∧ k = mkRKey (ns o) (r_Type r) (name o) ∧ mt = meta o ∧ getPodStats srv o = Ok ps) as Hm.
  { intros k mt ps Hk. destruct (Hval k mt ps Hk) as [Hl|?]; [by rewrite lookup_empty in Hl|done]. }
  assert (∀ k v, m !! k = Some v → row_Resource (f k v) = mkResource (k_Namespace k) (r_Type r) (k_Name k) ∧ k_Type k = r_Type r) as Hres.
  { intros k [mt ps] Hk. destruct (Hm k mt ps Hk) as (o & _ & -> & -> & _). done. }
  split_and!.
  - rewrite <-list_fmap_compose. apply NoDup_fmap_2_strong; [|apply NoDup_map_to_list].
    intros [k1 v1] [k2 v2] Hk1%elem_of_map_to_list Hk2%elem_of_map_to_list. unfold compose; cbn [fst snd].
    destruct (Hres _ _ Hk1) as [-> Ht1], (Hres _ _ Hk2) as [-> Ht2]. destruct k1, k2; cbn in *. intros [= -> ->]. subst.
    by rewrite Hk1 in Hk2; injection Hk2 as ->.
  - intros row Hrow. rewrite Hrows in Hrow. apply list_elem_of_fmap in Hrow as ([k [mt ps]] & -> & Hk%elem_of_map_to_list). cbn [fst snd].
    destruct (Hm k mt ps Hk) as (o & Ho & -> & Hmt & Hps). exists o. split; [done|].
    destruct (proj1 (Forall_forall _ _) Hc o Ho) as [Hne _]. destruct (GetObjects_about _ _ _ _ Hr Hall Hobj o Ho).
    destruct (Hstats (ns o) (name o)) as [Hb Ht]; [done|]. by apply workloadRow_rowOf.
  - intros o Ho. destruct (proj2 (Hdom (mkRKey (ns o) (r_Type r) (name o)))) as [v Hv]; [right; eauto|].
    apply list_elem_of_fmap. exists (f (mkRKey (ns o) (r_Type r) (name o)) v). destruct (Hres _ _ Hv) as [-> _]. split; [done|].
    rewrite Hrows. apply list_elem_of_fmap. exists (mkRKey (ns o) (r_Type r) (name o), v). by rewrite elem_of_map_to_list.
Qed.

End tables.

(** ** A concrete cluster *)
Definition ex_prom : Prom := {|
  uint64Of := u64; uint64Of_range := λ z, Z.mod_pos_bound z (2^64) eq_refl; uint64Of_id := λ z Hz, Z.mod_small z (2^64) Hz;
  labelSetString := λ L, braces (pairString <$> map_to_list L); labelNamesString := λ G, strings.Join G ", ";
  arrive := λ A l, reverse l; arrive_perm := λ A l, reverse_Permutation l |}.
Definition ex_podObject : PodObject := mkPodObject "" "" ∅ ∅ [] "" false [] [] "Running" "" "" [] [] [].
Definition ex_world : VizStat.World := {|
  ParseDuration := λ s, if bool_decide (s = "1m") then Some 60 else None;
  ParseSelector := λ _, Err "no selector"; detail := λ _, mkPodDetail ex_podObject [] [] "";
  dstOverrides := λ _, []; routeNames := λ _, []; listPolicy := λ _ _ _, Ok []; getPolicy := λ _ _ _, Err "not found"; kindOf := λ _, "";
  listServices := Ok [] |}.
Definition ex_workload (n nm : string) : object := StatefulSetO (mkMeta nm n (n +:+ nm) ∅ []) {["app" := nm]}.
Definition ex_objects : list object := [ex_workload "prod" "db"; ex_workload "test" "db"].
Definition ex_podOf (n nm : string) : object := PodO (mkMeta "db-0" n "pod" {["app" := nm]} [mkOwner "StatefulSet" nm (n +:+ nm)]) "Running" false.
Definition ex_api : API := mkAPI (<[SS := ex_objects]> (<[PodRes := [ex_podOf "prod" "db"]]> ∅)).
Definition ex_stat : Resource := mkResource "" "statefulset" "".
(** A series has labels and a value. *)
Abbreviation ex_Series := (strmap * Z)%type.
Definition ex_series (n class tls : string) (v : Z) : ex_Series :=
  (list_to_map [("namespace", n); ("statefulset", "db"); ("direction", "inbound"); ("peer", "src"); ("classification", class); ("tls", tls)], v).
Definition ex_db (pt : promType) : list ex_Series :=
  match pt with
  | promRequests => [ex_series "prod" "success" "true" 5; ex_series "prod" "success" "no" 2; ex_series "prod" "failure" "true" 1; ex_series "test" "success" "true" 9]
  | promLatencyP99 => [ex_series "test" "success" "true" 30]
  | promTCPReadBytes => [ex_series "prod" "success" "true" 11]
  | _ => []
  end.
Definition ex_agg (_ : promType) (l : list ex_Series) : option Q := Some (inject_Z (total l.*2)).
Definition ex_query (q : string) : res (option (list Sample)) :=
  Ok (Some (match list_find (λ e, e.2 = q) (statQueries (H0 := ex_prom) ex_stat Unset true "1m" ++ statQuantiles (H0 := ex_prom) ex_stat Unset "1m") with
            | Some (_, (pt, _)) => evaluate fst ex_db ex_agg 0 pt (selectorOf ex_stat pt) (groupOf ex_stat pt)
            | None => []
            end)).
Definition ex_prometheus : PrometheusAPI := mkPrometheusAPI ex_query (Some "1m").
Definition ex_server : grpcServer := mkServer (Some ex_prometheus) ex_api "linkerd" "cluster.local" [].
Definition ex_request : StatSummaryRequest := mkStatSummaryRequest (Some ex_stat) "" "1m" Unset false true.


(** * Limits *)
Section limits.
Context `{!MapRange} `{!Prom} `{!VizStat.World}.

(** The server may be started without a Prometheus; a request for statistics then panics. *)
Lemma no_prometheus_panics srv req r :
  prometheusAPI srv = None → q_Resource req = Some r → refused req r = None → StatSummary srv req = Panic.
Proof. intros Hp Hr Href. unfold StatSummary, validateTimeWindow. by rewrite Hr, Href, Hp. Qed.

(** A destination without a name selects all destinations, whatever its namespace. *)
Lemma to_namespace_ignored r n typ :
  buildRequestLabels r (ToResource (mkResource n typ "")) = buildRequestLabels r (ToResource (mkResource "" typ "")).
Proof. done. Qed.

(** No pod has a namespace as its owner, so that the pods of a namespace, asked for by its
    name, are none. *)
Lemma listed_namespace srv nm now reports l pods :
  Forall (λ p, (∃ ow, GetOwnerKindAndName (λ _ _ _, None) (k8sAPI srv) (meta p) false = Ok ow ∧ ow.1 ≠ "namespace")) pods →
  foldl (listed srv (Some (mkResource "" "namespace" nm)) now reports) (Ok l) pods = Ok l.
Proof.
  induction 1 as [|p pods (ow & How & Hk) _ IH]; [done|]. cbn [foldl]. rewrite <-IH at 2. f_equal.
  unfold listed. cbn [res_bind default id r_Namespace r_Type r_Name]. destruct (shouldIgnore srv p); [done|]. rewrite How. cbn [res_bind].
  rewrite bool_decide_true; [done|]. right; left. split; [done|]. by intros ?.
Qed.

(** A gateway's row is kept by its cluster: of two gateways of a cluster the last result
    counts. *)
Lemma gateways_share_a_row rows num pt s1 s2 : label s1 RemoteClusterNameLabel = label s2 RemoteClusterNameLabel →
  processGatewaySample num (processGatewaySample num rows (pt, s1)) (pt, s2) = processGatewaySample num rows (pt, s2).
Proof.
  intros Hc. unfold processGatewaySample. cbn [fst snd]. rewrite Hc.
  destruct pt; cbn [onGateway]; rewrite ?lookup_insert_eq; cbn [default id]; by rewrite ?insert_insert_eq.
Qed.
End limits.
