(* ===== verification/Tap.v ===== *)
(** The tap server of the viz extension ([viz/tap]): requests ([pkg/requests.go],
    [pkg/protohttp.go]), the API server in front of it ([api/server.go], [api/handlers.go]), the
    taps it starts and the events it passes on ([api/grpc_server.go]), and the webhook that
    enables tap ([injector/webhook.go]).

    The router, the access reviews, protobuf and the proxies are parameters. *)
From Stdlib Require Import SpecFloat.
From S2P Require Import Prelude GoStd K8s PkgK8s K8sApi Addr InjectData InjectValues ProfileTranslator VizApi VizStat.

#[local] Open Scope string_scope.
#[local] Open Scope list_scope.
#[local] Open Scope Z_scope.
#[local] Open Scope go_scope.

(** * Annotations *)
Definition VizTapEnabled : string := "viz.linkerd.io/tap-enabled".
Definition VizTapDisabled : string := "viz.linkerd.io/disable-tap".
Definition isTrue (v : string) : bool := bool_decide (v ≠ "") && default false (ParseBool v).
Definition IsTapEnabled (annotations : strmap) : bool := isTrue (get annotations VizTapEnabled).
Definition IsTapDisabled (annotations : strmap) : bool := isTrue (get annotations VizTapDisabled).

(** * Numbers of type [float32] *)
Definition f32_of_Z (n : Z) : spec_float := binary_normalize 24 128 n 0 false.
Definition f32_div : spec_float → spec_float → spec_float := SFdiv 24 128.
(** Truncation of a finite number. *)
Definition f32_trunc (f : spec_float) : Z :=
  match f with
  | S754_finite s m e => let t := Z.shiftl (Zpos m) e in if s then - t else t
  | _ => 0
  end.

(** * Requests *)
Inductive HttpMatch := MScheme (s : string) | MMethod (s : string) | MAuthority (s : string) | MPath (s : string) | MHttpUnset.
(** [MOther] is [Any], [Not] or none. *)
Inductive Match := MAll (l : list Match) | MDestinations (r : option Resource) | MHttp (m : HttpMatch) | MOther.

Record TapByResourceRequest := mkTapRequest {
  tr_Target : option (option Resource * string)  (* resource and label selector *);
  tr_MaxRps : spec_float; tr_Match : option Match; tr_Headers : bool  (* extraction of headers *) }.
Definition GetResource (req : TapByResourceRequest) : option Resource := tr_Target req ≫= fst.

Definition ValidTargets : list string :=
  ["cronjob"; "daemonset"; "deployment"; "job"; "namespace"; "pod"; "replicaset"; "replicationcontroller"; "statefulset"].
Definition ValidTapDestinations : list string :=
  ["cronjob"; "daemonset"; "deployment"; "job"; "namespace"; "pod"; "replicaset"; "replicationcontroller"; "service"; "statefulset"].

Record TapRequestParams := mkTapParams {
  tp_Resource : string; tp_Namespace : string; tp_ToResource : string; tp_ToNamespace : string; tp_MaxRps : spec_float;
  tp_Scheme : string; tp_Method : string; tp_Authority : string; tp_Path : string; tp_Extract : bool; tp_LabelSelector : string }.
Definition buildMatchHTTP (m : string → HttpMatch) (v : string) : list Match := if bool_decide (v = "") then [] else [MHttp (m v)].
Definition supported (valid : list string) (r : Resource) : res () :=
  if bool_decide (r_Type r ∈ valid) then Ok () else Err ("unsupported resource type [" +:+ r_Type r +:+ "]").
Definition BuildTapByResourceRequest (p : TapRequestParams) : res TapByResourceRequest :=
  let* target := BuildResource (tp_Namespace p) (tp_Resource p) in
  let* _ := supported ValidTargets target in
  let* dst := if bool_decide (tp_ToResource p = "") then Ok []
              else let* d := BuildResource (tp_ToNamespace p) (tp_ToResource p) in
                   let* _ := supported ValidTapDestinations d in Ok [MDestinations (Some d)] in
  Ok (mkTapRequest (Some (Some target, tp_LabelSelector p)) (tp_MaxRps p)
        (Some (MAll (dst ++ buildMatchHTTP MScheme (tp_Scheme p) ++ buildMatchHTTP MMethod (tp_Method p)
                     ++ buildMatchHTTP MAuthority (tp_Authority p) ++ buildMatchHTTP MPath (tp_Path p))))
        (tp_Extract p)).

(** ** The path of a request *)
(** [url.PathEscape]. *)
Definition isAlnum (a : ascii) : bool :=
  let n := N_of_ascii a in ((48 <=? n) && (n <=? 57) || (65 <=? n) && (n <=? 90) || (97 <=? n) && (n <=? 122))%N.
Definition unescaped (a : ascii) : bool := isAlnum a || bool_decide (a ∈ list_ascii_of_string "-_.~$&+:=@").
Definition upperHex (n : N) : ascii := ascii_of_N (if (n <? 10)%N then 48 + n else 55 + n).
Definition escapeByte (a : ascii) : string :=
  let n := N_of_ascii a in String "%" (String (upperHex (n / 16)) (String (upperHex (n mod 16)) "")).
Fixpoint PathEscape (s : string) : string :=
  match s with
  | EmptyString => ""
  | String a s => (if unescaped a then String a "" else escapeByte a) +:+ PathEscape s
  end.

Definition gvGroup : string := "tap.linkerd.io".
Definition gvVersion : string := "v1alpha1".
Definition GroupVersion : string := gvGroup +:+ "/" +:+ gvVersion.
Definition TapReqToURL (req : TapByResourceRequest) : string :=
  let r := default (mkResource "" "" "") (GetResource req) in
  if bool_decide (r_Type r = "namespace") then "/apis/tap.linkerd.io/v1alpha1/watch/namespaces/" +:+ PathEscape (r_Name r) +:+ "/tap"
  else "/apis/tap.linkerd.io/v1alpha1/watch/namespaces/" +:+ PathEscape (r_Namespace r) +:+ "/" +:+ PathEscape (r_Type r +:+ "s")
       +:+ "/" +:+ PathEscape (r_Name r) +:+ "/tap".

(** * Matches for the proxies *)
Inductive Scheme := SRegistered (v : Z) | SUnregistered (s : string).
Inductive ObserveHttp := OScheme (s : Scheme) | OMethod (m : HttpMethod) | OAuthority (exact : string) | OPath (prefix : string).
Inductive ObserveMatch := OAll (l : list ObserveMatch) | ODestinationLabel (k v : string) | OHttp (m : ObserveHttp).

Section matches.
Context `{!MapRange} (Scheme_Registered_value HttpMethod_Registered_value : string → option Z).

Definition ParseScheme (scheme : string) : Scheme :=
  match Scheme_Registered_value (strings.ToUpper scheme) with Some v => SRegistered v | None => SUnregistered (strings.ToUpper scheme) end.

Definition destinationLabels (r : Resource) : strmap :=
  let dst : strmap := if bool_decide (r_Name r ≠ "") then {[PkgK8s.KindToL5DLabel (r_Type r) := r_Name r]} else ∅ in
  if bool_decide (r_Type r ≠ "namespace" ∧ r_Namespace r ≠ "") then <["namespace" := r_Namespace r]> dst else dst.

Definition translateHttp (m : HttpMatch) : res ObserveHttp :=
  match m with
  | MScheme s => Ok (OScheme (ParseScheme s))
  | MMethod s => Ok (OMethod (ParseMethod HttpMethod_Registered_value s))
  | MAuthority s => Ok (OAuthority s)
  | MPath s => Ok (OPath s)
  | MHttpUnset => Err "unknown HTTP match type"
  end.
(** A destination without a resource is a nil pointer whose fields are read. *)
Definition translateMatch (m : Match) : res (list ObserveMatch) :=
  match m with
  | MDestinations (Some r) => Ok ((λ e, ODestinationLabel e.1 e.2) <$> range (destinationLabels r))
  | MDestinations None => Panic
  | MHttp h => let* h := translateHttp h in Ok [OHttp h]
  | MAll _ | MOther => Err "unknown match type"
  end.
Definition makeByResourceMatch (m : option Match) : res ObserveMatch :=
  match m with
  | Some (MAll l) => let* ls := res_mapM translateMatch l in Ok (OAll (mjoin ls))
  | _ => Err "unexpected match specified"
  end.
End matches.

(** * Starting taps *)
(** A tap of a proxy: where it is, the identity it must have, what to observe. *)
Record tapCall := mkTapCall {
  tc_Pod : object; tc_Addr : string; tc_Identity : string; tc_Rps : spec_float; tc_Match : ObserveMatch; tc_Headers : bool }.
Record GRPCTapServer := mkTapServer {
  ts_TapPort : Z; ts_K8sAPI : API; ts_ControllerNamespace : string; ts_TrustDomain : string; ts_IgnoreHeaders : gset string }.

Class TapWorld := {
  podOf : object → Pod  (* the pod of a cache entry *);
  nodeAddresses : object → list (string * string)  (* type and address *);
  Scheme_Registered_value : string → option Z;
  HttpMethod_Registered_value : string → option Z }.

Section taps.
Context `{!MapRange} `{!VizStat.World} `{!TapWorld} (s : GRPCTapServer).

Definition defaultMaxRps : spec_float := f32_of_Z 100.
Definition isZeroFloat (f : spec_float) : bool := match f with S754_zero _ => true | _ => false end.

(** The pods of an object that can be tapped, those that disable it and those not enabled. *)
Inductive tappable := Tappable | Disabled | NotEnabled.
#[export] Instance tappable_eq_dec : EqDecision tappable.
Proof. solve_decision. Defined.
Definition tapStatus (pod : object) : tappable :=
  if IsTapDisabled (pod_Annotations (podOf pod)) then Disabled
  else if negb (IsTapEnabled (pod_Annotations (podOf pod))) then NotEnabled else Tappable.
Definition meshedPods (objects : list object) : res (list object) :=
  let* ls := res_mapM (λ o, GetPodsFor (ts_K8sAPI s) o false) objects in
  Ok (filter (λ p, IsMeshed p (ts_ControllerNamespace s) = true) (mjoin ls)).
Definition withStatus (st : tappable) (pods : list object) : list object := filter (λ p, tapStatus p = st) pods.

Definition newline : string := String "010" "".
Definition bulleted (pods : list object) : string := strings.Join ((λ p, "	* " +:+ name p +:+ newline) <$> pods) "".
Definition noPods (r : Resource) (disabled notEnabled : list object) : string :=
  "no pods to tap for type=" +:+ Quote (r_Type r) +:+ " name=" +:+ Quote (r_Name r) +:+ newline
  +:+ (if bool_decide (disabled = []) then ""
       else strconv.Itoa (Z.of_nat (length disabled)) +:+ " pods found with tap disabled via the " +:+ VizTapDisabled +:+ " annotation:" +:+ newline
            +:+ bulleted disabled +:+ "remove this annotation to make these pods valid tap targets" +:+ newline)
  +:+ (if bool_decide (notEnabled = []) then ""
       else strconv.Itoa (Z.of_nat (length notEnabled)) +:+ " pods found with tap not enabled:" +:+ newline
            +:+ bulleted notEnabled +:+ "restart these pods to enable tap and make them valid tap targets" +:+ newline).

(** The rate is divided between the pods, each getting at least one request per second. *)
Definition rpsPerPod (maxRps : spec_float) (pods : list object) : spec_float :=
  let rps := f32_div maxRps (f32_of_Z (Z.of_nat (length pods))) in if SFltb rps (f32_of_Z 1) then f32_of_Z 1 else rps.
Definition requiredName (r : Resource) (pod : object) : string :=
  let n := if bool_decide (r_Type r = "namespace") then r_Name r else r_Namespace r in
  pod_ServiceAccountName (podOf pod) +:+ "." +:+ n +:+ ".serviceaccount.identity." +:+ ts_ControllerNamespace s +:+ "." +:+ ts_TrustDomain s.

(** [TapByResource] up to the taps it starts. *)
Definition startTaps (req : TapByResourceRequest) : res (list tapCall) :=
  match tr_Target req with
  | None => Err "TapByResource received nil target ResourceSelection"
  | Some (resource, labelSelector) =>
      let* sel := getLabelSelector labelSelector in
      match resource with
      | None => Err "TapByResource received nil target Resource"
      | Some r =>
          let maxRps := if isZeroFloat (tr_MaxRps req) then defaultMaxRps else tr_MaxRps req in
          let* objects := GetObjects (ts_K8sAPI s) (r_Namespace r) (r_Type r) (r_Name r) sel in
          let* meshed := meshedPods objects in
          let pods := withStatus Tappable meshed in
          if bool_decide (pods = []) then Err (noPods r (withStatus Disabled meshed) (withStatus NotEnabled meshed))
          else
            let* m := makeByResourceMatch Scheme_Registered_value HttpMethod_Registered_value (tr_Match req) in
            Ok ((λ pod, mkTapCall pod (pod_PodIP (podOf pod)) (requiredName r pod) (rpsPerPod maxRps pods) m (tr_Headers req)) <$> pods)
      end
  end.
End taps.

(** * The API server *)
Record ClientCert := mkClientCert {
  cc_CommonName : string; cc_DNSNames : list string; cc_EmailAddresses : list string; cc_IPAddresses : list string; cc_URIs : list string }.
Definition isSubjectAlternateName (cert : ClientCert) (nm : string) : bool :=
  bool_decide (nm ∈ cc_DNSNames cert) || bool_decide (nm ∈ cc_EmailAddresses cert)
  || bool_decide (nm ∈ cc_IPAddresses cert) || bool_decide (nm ∈ cc_URIs cert).
Definition validate (allowedNames : list string) (certs : list ClientCert) : res () :=
  if bool_decide (allowedNames = []) then Ok ()
  else if existsb (λ cn, existsb (λ c, bool_decide (cn = cc_CommonName c) || isSubjectAlternateName c cn) certs) allowedNames then Ok ()
  else Err ("no valid CN found. allowed names: [" +:+ strings.Join allowedNames " " +:+ "], client names: ["
            +:+ strings.Join (cc_CommonName <$> certs) " " +:+ "]").

Section auth.
Context (UnmarshalStrings : string → res (list string)).
Definition deserializeStrings (in_ : string) : res (list string) := if bool_decide (in_ = "") then Ok [] else UnmarshalStrings in_.
(** CA certificates, allowed names, and the headers of user and groups. *)
Definition serverAuth (configMap : res strmap) : res (string * list string * string * string) :=
  let* cm := configMap in
  match cm !! "requestheader-client-ca-file" with
  | None => Err "no client CA cert available for apiextension-server"
  | Some pem =>
      let* allowedNames := deserializeStrings (get cm "requestheader-allowed-names") in
      let* usernameHeaders := deserializeStrings (get cm "requestheader-username-headers") in
      let* groupHeaders := deserializeStrings (get cm "requestheader-group-headers") in
      Ok (pem, allowedNames, default "" (head usernameHeaders), default "" (head groupHeaders))
  end.
End auth.

(** ** Routes *)
(** Plural and whether the resource has a namespace. *)
Definition resources : list (string * bool) :=
  [("namespaces", false); ("pods", true); ("replicationcontrollers", true); ("services", true); ("daemonsets", true);
   ("deployments", true); ("replicasets", true); ("statefulsets", true); ("jobs", true); ("cronjobs", true)].
Definition routeOf (r : string * bool) : string :=
  if r.2 then "/apis/" +:+ GroupVersion +:+ "/watch/namespaces/:namespace/" +:+ r.1 +:+ "/:name"
  else "/apis/" +:+ GroupVersion +:+ "/watch/" +:+ r.1 +:+ "/:namespace".
Inductive Handler := RootH | APIsH | APIGroupH | APIResourceListH | HealthzH | MetricsH | OpenAPIH | VersionH | TapH.
(** Method, pattern and handler. *)
Definition routes : list (string * string * Handler) :=
  [("GET", "/", RootH); ("GET", "/apis", APIsH); ("GET", "/apis/" +:+ gvGroup, APIGroupH); ("GET", "/apis/" +:+ GroupVersion, APIResourceListH);
   ("GET", "/healthz", HealthzH); ("GET", "/healthz/log", HealthzH); ("GET", "/healthz/ping", HealthzH); ("GET", "/metrics", MetricsH);
   ("GET", "/openapi/v2", OpenAPIH); ("GET", "/version", VersionH)]
  ++ (resources ≫= λ r, [("GET", routeOf r, RootH); ("POST", routeOf r +:+ "/tap", TapH)]).

(** A pattern is matched segment by segment; a segment that begins with a colon stands for any
    segment, which is the value of the parameter it names. *)
Definition segmentMatches (params : strmap) (pattern segment : string) : Prop :=
  match pattern with String ":" nm => params !! nm = Some segment | _ => pattern = segment end.
Definition patternMatches (params : strmap) (pattern path : string) : Prop :=
  Forall2 (segmentMatches params) (strings.Split pattern "/") (strings.Split path "/")
  ∧ ∀ k, is_Some (params !! k) → String ":" k ∈ strings.Split pattern "/".

Record SubjectAccessReview := mkSAR {
  sar_User : string; sar_Groups : list string; sar_Namespace : string; sar_Verb : string; sar_Group : string; sar_Version : string;
  sar_Resource : string; sar_Subresource : string; sar_Name : string }.

Class APIServer := {
  lookupRoute : list (string * string * Handler) → string → string → option (Handler * strmap);
  lookupRoute_matches : ∀ rs method path h params, lookupRoute rs method path = Some (h, params) →
    ∃ pattern, (method, pattern, h) ∈ rs ∧ patternMatches params pattern path;
  createSAR : SubjectAccessReview → res reviewStatus;
  UnmarshalTapRequest : list Z → res TapByResourceRequest }.

Record httpRequest := mkHttpRequest {
  hr_Method : string; hr_Path : string; hr_Header : string → list string; hr_Body : list Z; hr_Certs : list ClientCert;
  hr_Flushable : bool  (* of its writer *) }.
Record Server := mkServerConfig { sv_AllowedNames : list string; sv_UsernameHeader : string; sv_GroupHeader : string }.

(** [JSONError] with a status; [ProtoError] names its status in a header; [Stream] begins the
    stream of the events of the taps. *)
Inductive Reply := JSONError (status : Z) (message : string) | ProtoError (status : Z) (message : string) | Page (status : Z) | Stream (taps : list tapCall).

Section apiserver.
Context `{!MapRange} `{!VizStat.World} `{!TapWorld} `{!APIServer} (s : GRPCTapServer) (a : Server).

Definition ResourceAuthzForUser (namespace verb group version resource subresource nm user : string) (userGroups : list string) : res () :=
  let* st := createSAR (mkSAR user userGroups namespace verb group version resource subresource nm) in
  evaluateAccessReviewStatus group resource st.

Definition ReadAllLimit (body : list Z) (limit : Z) : res (list Z) :=
  if (limit <=? Z.of_nat (length body)) then Err ("limit reached while reading: " +:+ strconv.Itoa limit) else Ok body.
Definition HTTPRequestToProto (body : list Z) : res TapByResourceRequest :=
  let* b := ReadAllLimit body (100 * 1024 * 1024) in UnmarshalTapRequest b.

Definition resourceOfPath (path : string) : option string :=
  let segments := strings.Split path "/" in
  if bool_decide (length segments = 8%nat) then segments !! 5%nat
  else if bool_decide (length segments = 10%nat) then segments !! 7%nat else None.

Definition handleTap (req : httpRequest) (params : strmap) : res Reply :=
  let namespace := get params "namespace" in
  let nm := get params "name" in
  match resourceOfPath (hr_Path req) with
  | None => Ok (JSONError 400 ("invalid path: " +:+ Quote (hr_Path req)))
  | Some resource =>
      match ResourceAuthzForUser namespace "watch" gvGroup gvVersion resource "tap" nm
              (default "" (head (hr_Header req (sv_UsernameHeader a)))) (hr_Header req (sv_GroupHeader a)) with
      | Panic => Panic
      | Err e => Ok (JSONError 403 ("tap authorization failed (" +:+ e +:+ "), visit https://linkerd.io/tap-rbac for more information"))
      | Ok _ =>
          match HTTPRequestToProto (hr_Body req) with
          | Panic => Panic
          | Err e => Ok (ProtoError 400 e)
          | Ok tapReq =>
              if bool_decide (TapReqToURL tapReq ≠ hr_Path req)
              then Ok (ProtoError 500 ("tap request body did not match APIServer URL: " +:+ Quote (TapReqToURL tapReq) +:+ " != " +:+ Quote (hr_Path req)))
              else if negb (hr_Flushable req) then Ok (ProtoError 500 "streaming not supported by this writer")
              else match startTaps s tapReq with
                   | Panic => Panic
                   | Err e => Ok (ProtoError 500 e)
                   | Ok taps => Ok (Stream taps)
                   end
          end
      end
  end.

(** Name, whether it has a namespace. *)
Definition handleAPIResourceList : list (string * bool) := resources ≫= λ r, [r; (r.1 +:+ "/tap", r.2)].

Definition ServeHTTP (req : httpRequest) : res Reply :=
  match validate (sv_AllowedNames a) (hr_Certs req) with
  | Panic => Panic
  | Err e => Ok (JSONError 400 e)
  | Ok _ =>
      match lookupRoute routes (hr_Method req) (hr_Path req) with
      | None => Ok (Page 404)
      | Some (TapH, params) => handleTap req params
      | Some _ => Ok (Page 200)
      end
  end.
End apiserver.

(** * Events *)
(** [utf8.Valid]. *)
Definition between (lo hi b : Z) : bool := (lo <=? b) && (b <=? hi).
Fixpoint utf8_Valid (bs : list Z) : bool :=
  match bs with
  | [] => true
  | a :: bs =>
      if a <? 128 then utf8_Valid bs
      else if between 194 223 a then match bs with b :: bs => between 128 191 b && utf8_Valid bs | _ => false end
      else if between 224 239 a then
        match bs with
        | b :: c :: bs => between (if a =? 224 then 160 else 128) (if a =? 237 then 159 else 191) b && between 128 191 c && utf8_Valid bs
        | _ => false
        end
      else if between 240 244 a then
        match bs with
        | b :: c :: d :: bs => between (if a =? 240 then 144 else 128) (if a =? 244 then 143 else 191) b && between 128 191 c
                               && between 128 191 d && utf8_Valid bs
        | _ => false
        end
      else false
  end.

Inductive ProxyDirection := UNKNOWN | INBOUND | OUTBOUND.
#[export] Instance ProxyDirection_eq_dec : EqDecision ProxyDirection.
Proof. solve_decision. Defined.
Record StreamId := mkStreamId { si_Base : Z; si_Stream : Z }.
Inductive Eos := ResetErrorCode (c : Z) | GrpcStatusCode (c : Z).
Inductive HeaderValue := ValueStr (b : list Z) | ValueBin (b : list Z).

(** Events of the proxy and of the stream differ in the type of the values of headers.  What
    may be missing is an [option]; getters give zero values for it. *)
Section event.
Context {V : Type}.
Abbreviation Headers := (option (list (string * V))).
Inductive HttpEvent :=
  | RequestInit (id : option StreamId) (method : option HttpMethod) (scheme : option Scheme) (authority path : string) (headers : Headers)
  | ResponseInit (id : option StreamId) (sinceRequestInit : option (Z * Z)) (status : Z) (headers : Headers)
  | ResponseEnd (id : option StreamId) (sinceRequestInit sinceResponseInit : option (Z * Z)) (bytes : Z) (eos : option Eos) (trailers : Headers).
Record TapEvent := mkTapEvent {
  ev_Source : TcpAddress; ev_SourceMeta : option strmap; ev_Destination : TcpAddress; ev_DestinationMeta : option strmap;
  ev_RouteMeta : option strmap; ev_Direction : ProxyDirection; ev_Http : option HttpEvent }.
End event.
#[global] Arguments HttpEvent : clear implicits.
#[global] Arguments TapEvent : clear implicits.

Inductive found := FoundNode (o : object) | FoundPod (o : object) | NotFound.

Section events.
Context `{!MapRange} `{!TapWorld} (s : GRPCTapServer).

Definition translateHeaders (orig : option (list (string * list Z))) : option (list (string * HeaderValue)) :=
  (λ hs : list (string * list Z),
     (λ h, (h.1, if utf8_Valid h.2 then ValueStr h.2 else ValueBin h.2)) <$> filter (λ h, h.1 ∉ ts_IgnoreHeaders s) hs) <$> orig.
Definition translateHttpEvent (e : HttpEvent (list Z)) : HttpEvent HeaderValue :=
  let id i := Some (default (mkStreamId 0 0) i) in
  match e with
  | RequestInit i m sch au p hs => RequestInit (id i) m sch au p (translateHeaders hs)
  | ResponseInit i d st hs => ResponseInit (id i) d st (translateHeaders hs)
  | ResponseEnd i d1 d2 n eos hs => ResponseEnd (id i) d1 d2 n eos (translateHeaders hs)
  end.

Definition indexByIP (o : object) : list string :=
  match o with
  | PodO _ _ _ => [pod_PodIP (podOf o)]
  | _ => snd <$> filter (λ e, e.1 = "InternalIP") (nodeAddresses o)
  end.
Definition ByIndex (l : list object) (ip : string) : list object := filter (λ o, ip ∈ indexByIP o) l.
Definition isRunning (o : object) : bool := match o with PodO _ phase _ => bool_decide (phase = "Running") | _ => false end.
Definition resourceForIP (ip : option IPAddress) : res found :=
  let ipStr := PublicIPToString ip in
  let* nodes := lister (ts_K8sAPI s) Node in
  match ByIndex nodes ipStr with
  | [n] => Ok (FoundNode n)
  | _ =>
      let* pods := lister (ts_K8sAPI s) PodRes in
      match ByIndex pods ipStr with
      | [p] => Ok (FoundPod p)
      | ps => match filter (λ p, isRunning p = true) ps with [p] => Ok (FoundPod p) | _ => Ok NotFound end
      end
  end.

Definition hydrateIPLabels (ip : option IPAddress) (l : strmap) : res strmap :=
  let* r := resourceForIP ip in
  match r with
  | NotFound => Ok l
  | FoundNode n => Ok (<["node" := name n]> l)
  | FoundPod p =>
      let* ow := GetOwnerKindAndName (λ _ _ _, None) (ts_K8sAPI s) (meta p) false in
      Ok (<["namespace" := ns p]> (labels.GetPodLabels ow.1 ow.2 (podOf p) ∪ l))
  end.

Definition translateEvent (orig : TapEvent (list Z)) : res (TapEvent HeaderValue) :=
  let src := NetToPublic (ev_Source orig) in
  let dst := NetToPublic (ev_Destination orig) in
  let* sourceLabels := hydrateIPLabels (Ip src) (default ∅ (ev_SourceMeta orig)) in
  let* destinationLabels :=
    match ev_Direction orig with
    | INBOUND => hydrateIPLabels (Ip dst) (default ∅ (ev_DestinationMeta orig))
    | _ => Ok (default ∅ (ev_DestinationMeta orig))
    end in
  Ok (mkTapEvent src (Some sourceLabels) dst (Some destinationLabels) (Some (default ∅ (ev_RouteMeta orig))) (ev_Direction orig)
        (translateHttpEvent <$> ev_Http orig)).

(** ** The tap of a proxy *)
(** What one call of [Observe] gives: an error, or the events that are received, each with
    whether the client is still there when it arrives, and how the stream ends; and how long it
    takes. *)
Inductive ending := EOF | StreamError.
Inductive window := ObserveError | Observed (events : list (TapEvent (list Z) * bool)) (e : ending) (duration : Z).

Definition tapInterval : Z := 1000000000.
Definition limitOf (maxRps : spec_float) : Z := f32_trunc maxRps.

(** The events of a stream that are sent, and whether the tap goes on. *)
Fixpoint streamLoop (events : list (TapEvent (list Z) * bool)) (e : ending) : res (list (TapEvent HeaderValue) * bool) :=
  match events with
  | [] => Ok ([], match e with EOF => true | StreamError => false end)
  | (ev, present) :: events =>
      let* ev := translateEvent ev in
      if present : bool then let* r := streamLoop events e in Ok (ev :: r.1, r.2) else Ok ([], false)
  end.
(** The windows one after the other: when each began and the events it sent. *)
Fixpoint tapProxy (now : Z) (windows : list window) : res (list (Z * list (TapEvent HeaderValue))) :=
  match windows with
  | [] => Ok []
  | ObserveError :: _ => Ok [(now, [])]
  | Observed events e duration :: windows =>
      let* r := streamLoop events e in
      if r.2 : bool then let* rest := tapProxy (now + Z.max duration tapInterval) windows in Ok ((now, r.1) :: rest)
      else Ok [(now, r.1)]
  end.
End events.

(** * Enabling tap *)
Definition GetProxyContainerPath (pod : Pod) : string :=
  match list_find (λ c, c_Name c = "linkerd-proxy") (pod_Containers pod) with
  | Some (i, _) => "containers/" +:+ strconv.Itoa (Z.of_nat i)
  | None =>
      match list_find (λ c, c_Name c = "linkerd-proxy") (pod_InitContainers pod) with
      | Some (i, _) => "initContainers/" +:+ strconv.Itoa (Z.of_nat i)
      | None => ""
      end
  end.
(** Paths of additions: an annotation, and a variable with its name and value. *)
Inductive patchOp := AddAnnotation (path value : string) | AddEnv (path name value : string).
Definition tpl (proxyPath tapSvcName : string) : list patchOp :=
  [AddAnnotation "/metadata/annotations/viz.linkerd.io~1tap-enabled" "true";
   AddEnv ("/spec/" +:+ proxyPath +:+ "/env/-") "LINKERD2_PROXY_TAP_SVC_NAME" tapSvcName].
(** The patch of a pod that is always allowed, given the annotations of its namespace. *)
Definition Mutate (tapSvcName : string) (pod : res Pod) (namespace : res strmap) : res (option (list patchOp)) :=
  let* pod := pod in
  if bool_decide (GetProxyContainerPath pod = "") || IsTapEnabled (pod_Annotations pod) then Ok None
  else
    let* nsAnnotations := namespace in
    if IsTapDisabled nsAnnotations || IsTapDisabled (pod_Annotations pod) then Ok None
    else Ok (Some (tpl (GetProxyContainerPath pod) tapSvcName)).
