(* ===== verification/TapProps.v ===== *)
(** Theorems on the tap server: what is tapped was reviewed, framed messages are read back, the
    rate of a tap is bounded. *)
From Stdlib Require Import SpecFloat.
From S2P Require Import Prelude GoStd K8s PkgK8s K8sApi K8sApiProps Addr ProfileTranslator VizApi VizStat Tap.

#[local] Open Scope string_scope.
#[local] Open Scope list_scope.
#[local] Open Scope Z_scope.
#[local] Open Scope go_scope.

(** * Paths *)
Lemma upperHex_not_slash n : (n < 16)%N → Ascii.eqb (upperHex n) "/" = false.
Proof. intros Hn. unfold upperHex. destruct n as [|p]; [done|]. repeat (destruct p as [p|p|]; try done; try lia). Qed.
Lemma escapeByte_no_slash a : strings.Contains (escapeByte a) "/" = false.
Proof.
  unfold escapeByte. cbn [strings.Contains]. rewrite !upperHex_not_slash; [done|apply N.mod_lt; lia|].
  apply N.Div0.div_lt_upper_bound. pose proof (N_ascii_bounded a). lia.
Qed.
Lemma PathEscape_no_slash s : strings.Contains (PathEscape s) "/" = false.
Proof.
  induction s as [|a s IH]; [done|]. cbn [PathEscape]. rewrite strings.Contains_app, IH, orb_false_r.
  destruct (unescaped a) eqn:Ha; [|apply escapeByte_no_slash]. cbn. rewrite orb_false_r. apply Ascii.eqb_neq. by intros ->.
Qed.
Definition plain (s : string) : bool := forallb unescaped (list_ascii_of_string s).
Lemma PathEscape_plain s : plain s = true → PathEscape s = s.
Proof.
  unfold plain. induction s as [|a s IH]; [done|]. cbn. intros [-> Hs]%andb_true_iff.
  change (String a (PathEscape s) = String a s). by rewrite IH.
Qed.
(** An escaped text without a percent sign is the text. *)
Lemma PathEscape_id s : strings.Contains (PathEscape s) "%" = false → PathEscape s = s.
Proof.
  induction s as [|a s IH]; [done|]. cbn [PathEscape]. rewrite strings.Contains_app. intros [Ha Hs]%orb_false_iff.
  destruct (unescaped a); [|done]. change (String a (PathEscape s) = String a s). by rewrite IH.
Qed.

Lemma Split_prefix x :
  strings.Split ("/apis/tap.linkerd.io/v1alpha1/watch/namespaces/" +:+ x) "/"
  = ["" ; "apis"; "tap.linkerd.io"; "v1alpha1"; "watch"; "namespaces"] ++ strings.Split x "/".
Proof. done. Qed.
Lemma Split_TapReqToURL req :
  let r := default (mkResource "" "" "") (GetResource req) in
  strings.Split (TapReqToURL req) "/" = ["" ; "apis"; "tap.linkerd.io"; "v1alpha1"; "watch"; "namespaces"] ++
    (if decide (r_Type r = "namespace") then [PathEscape (r_Name r); "tap"]
     else [PathEscape (r_Namespace r); PathEscape (r_Type r +:+ "s"); PathEscape (r_Name r); "tap"]).
Proof.
  cbn zeta. unfold TapReqToURL. set (r := default _ _). pose proof PathEscape_no_slash as Hno. destruct (decide _) as [Ht|Ht].
  - rewrite bool_decide_true by done. rewrite Split_prefix. f_equal.
    change (PathEscape (r_Name r) +:+ "/tap") with (PathEscape (r_Name r) +:+ String "/" "tap"). by rewrite strings.Split_app.
  - rewrite bool_decide_false by done. rewrite Split_prefix. f_equal.
    change (PathEscape (r_Namespace r) +:+ "/" +:+ ?x) with (PathEscape (r_Namespace r) +:+ String "/" x). rewrite strings.Split_app by done.
    change (PathEscape (r_Type r +:+ "s") +:+ "/" +:+ ?x) with (PathEscape (r_Type r +:+ "s") +:+ String "/" x). rewrite strings.Split_app by done.
    change (PathEscape (r_Name r) +:+ "/tap") with (PathEscape (r_Name r) +:+ String "/" "tap"). by rewrite strings.Split_app.
Qed.

(** ** The routes of taps *)
Definition tapPattern (r : string * bool) : list string :=
  ["" ; "apis"; "tap.linkerd.io"; "v1alpha1"; "watch"; "namespaces"; ":namespace"] ++ (if r.2 then [r.1; ":name"; "tap"] else ["tap"]).
Lemma tap_route method pattern : (method, pattern, TapH) ∈ routes →
  ∃ r, r ∈ resources ∧ strings.Split pattern "/" = tapPattern r ∧ r.2 = negb (bool_decide (r.1 = "namespaces")).
Proof.
  assert (forallb (λ e, match e.2 with
    | TapH => existsb (λ r, bool_decide (strings.Split e.1.2 "/" = tapPattern r) && bool_decide (r.2 = negb (bool_decide (r.1 = "namespaces")))) resources
    | _ => true end) routes = true) as Hall by (vm_compute; reflexivity).
  rewrite forallb_forall in Hall. intros Hin%list_elem_of_In. specialize (Hall _ Hin). cbn -[resources] in Hall.
  apply existsb_exists in Hall as (r & Hr%list_elem_of_In & [H1%bool_decide_eq_true H2%bool_decide_eq_true]%andb_true_iff). eauto.
Qed.

(** * What is tapped was reviewed *)
Section authorized.
Context `{!MapRange} `{!VizStat.World} `{!TapWorld} `{!APIServer} (s : GRPCTapServer) (a : Server).

(** The review of a tap of objects of a kind for the user and the groups of a request. *)
Definition sarOf (req : httpRequest) (namespace resource nm : string) : SubjectAccessReview :=
  mkSAR (default "" (head (hr_Header req (sv_UsernameHeader a)))) (hr_Header req (sv_GroupHeader a)) namespace "watch" gvGroup gvVersion
    resource "tap" nm.
Definition allowed (sar : SubjectAccessReview) : Prop := ∃ st, createSAR sar = Ok st ∧ Allowed st = true.
(** The client presented a certificate with one of the allowed names. *)
Definition trusted (req : httpRequest) : Prop :=
  sv_AllowedNames a = [] ∨ ∃ cn c, cn ∈ sv_AllowedNames a ∧ c ∈ hr_Certs req ∧ (cn = cc_CommonName c ∨ isSubjectAlternateName c cn = true).

Lemma ResourceAuthzForUser_Ok namespace verb group version resource subresource nm user groups :
  ResourceAuthzForUser namespace verb group version resource subresource nm user groups = Ok () →
  allowed (mkSAR user groups namespace verb group version resource subresource nm).
Proof.
  unfold ResourceAuthzForUser, evaluateAccessReviewStatus, allowed. destruct (createSAR _) as [st| |]; cbn; [|done..].
  destruct (Allowed st) eqn:Ha; [by eauto|]. by case_bool_decide.
Qed.
Lemma validate_Ok req : validate (sv_AllowedNames a) (hr_Certs req) = Ok () → trusted req.
Proof.
  unfold validate, trusted. case_bool_decide; [by left|]. destruct (existsb _ _) eqn:He; [|done]. intros _. right.
  apply existsb_exists in He as (cn & Hcn%list_elem_of_In & (c & Hc%list_elem_of_In & Hm)%existsb_exists). exists cn, c.
  apply orb_true_iff in Hm as [Hm%bool_decide_eq_true|Hm]; auto.
Qed.

(** The path of a request that is handled by [handleTap] and the request in its body. *)
Lemma tap_path params method pattern path req : (method, pattern, TapH) ∈ routes → patternMatches params pattern path → path = TapReqToURL req →
  let r := default (mkResource "" "" "") (GetResource req) in
  resourceOfPath path = Some (r_Type r +:+ "s")
  ∧ if decide (r_Type r = "namespace") then get params "namespace" = PathEscape (r_Name r) ∧ get params "name" = ""
    else get params "namespace" = PathEscape (r_Namespace r) ∧ get params "name" = PathEscape (r_Name r).
Proof.
  intros Hroute [Hseg Honly] -> r. destruct (tap_route _ _ Hroute) as (res & Hres & Hsplit & Hk).
  rewrite Hsplit in Hseg, Honly. unfold resourceOfPath. pose proof (Split_TapReqToURL req) as Hurl. cbn zeta in Hurl. fold r in Hurl.
  rewrite Hurl in *. clear Hurl Hsplit. unfold tapPattern in *. destruct (decide (r_Type r = "namespace")) as [Ht|Ht], res.2 eqn:Hns.
  - by apply Forall2_length in Hseg.
  - cbn [app] in Hseg. repeat (apply Forall2_cons in Hseg as [? Hseg]). cbn. rewrite Ht. split; [done|]. split.
    + unfold get. by match goal with H : segmentMatches _ ":namespace" _ |- _ => cbn in H; rewrite H end.
    + unfold get. destruct (params !! "name") eqn:Hn; [|done]. specialize (Honly "name" ltac:(eauto)). cbn in Honly. set_solver.
  - cbn [app] in Hseg. repeat (apply Forall2_cons in Hseg as [? Hseg]). cbn.
    match goal with H : segmentMatches _ res.1 _ |- _ => rename H into Hm end.
    assert (res.1 = PathEscape (r_Type r +:+ "s") ∧ strings.Contains res.1 "%" = false) as [Heq Hno].
    { assert (Forall (λ e : string * bool, (∀ seg, segmentMatches params e.1 seg → e.1 = seg) ∧ strings.Contains e.1 "%" = false) resources) as Hall
        by (repeat constructor; by intros).
      rewrite Forall_forall in Hall. destruct (Hall res Hres) as [Hm' ?]. auto. }
    rewrite Heq in Hno. rewrite (PathEscape_id _ Hno). split; [done|].
    unfold get. by repeat match goal with H : segmentMatches _ (String ":" _) _ |- _ => cbn in H; rewrite H; clear H end.
  - by apply Forall2_length in Hseg.
Qed.

Lemma tap_reviewed req taps : ServeHTTP s a req = Ok (Stream taps) →
  trusted req ∧ ∃ tapReq, startTaps s tapReq = Ok taps ∧
    let r := default (mkResource "" "" "") (GetResource tapReq) in
    allowed (if decide (r_Type r = "namespace") then sarOf req (PathEscape (r_Name r)) "namespaces" ""
             else sarOf req (PathEscape (r_Namespace r)) (r_Type r +:+ "s") (PathEscape (r_Name r))).
Proof.
  unfold ServeHTTP. destruct (validate _ _) as [[]| |] eqn:Hv; [|done..]. destruct (lookupRoute _ _ _) as [[h params]|] eqn:Hl; [|done].
  destruct h; try done. apply lookupRoute_matches in Hl as (pattern & Hroute & Hm). unfold handleTap.
  destruct (resourceOfPath _) as [resource|] eqn:Hres; [|done].
  destruct (ResourceAuthzForUser _ _ _ _ _ _ _ _ _) as [[]| |] eqn:Hauth; [|done..]. destruct (HTTPRequestToProto _) as [tapReq| |]; [|done..].
  case_bool_decide as Hurl; [done|]. destruct (hr_Flushable req); [|done]. cbn [negb].
  destruct (startTaps s tapReq) as [taps'| |] eqn:Hst; [|done..]. intros [= <-]. split; [by apply validate_Ok|]. exists tapReq. split; [done|].
  set (r := default _ (GetResource tapReq)).
  apply ResourceAuthzForUser_Ok in Hauth. pose proof (tap_path _ _ _ _ tapReq Hroute Hm (eq_sym Hurl)) as Hp.
  cbn zeta in Hp. fold r in Hp.  destruct Hp as [Hp Hparams]. rewrite Hp in Hres. injection Hres as <-.
  destruct (decide _) as [Ht|Ht]; destruct Hparams as [Hn1 Hn2]; rewrite Hn1, Hn2 in Hauth; [rewrite Ht in Hauth|]; exact Hauth.
Qed.

(** The taps that are started: of pods of the objects asked for that are in the mesh and have tap
    enabled. *)
Lemma startTaps_pod tapReq taps tc : startTaps s tapReq = Ok taps → tc ∈ taps →
  ∃ r sel objects o pods, GetResource tapReq = Some r ∧ GetObjects (ts_K8sAPI s) (r_Namespace r) (r_Type r) (r_Name r) sel = Ok objects
    ∧ o ∈ objects ∧ GetPodsFor (ts_K8sAPI s) o false = Ok pods ∧ tc_Pod tc ∈ pods
    ∧ IsMeshed (tc_Pod tc) (ts_ControllerNamespace s) = true ∧ tapStatus (tc_Pod tc) = Tappable
    ∧ tc_Addr tc = pod_PodIP (podOf (tc_Pod tc)) ∧ tc_Identity tc = requiredName s r (tc_Pod tc).
Proof.
  unfold startTaps, GetResource. destruct (tr_Target tapReq) as [[resource labelSelector]|]; cbn [mbind option_bind fst]; [|done].
  destruct (getLabelSelector _) as [sel| |]; cbn [res_bind]; [|done..]. destruct resource as [r|]; [|done].
  destruct (GetObjects _ _ _ _ _) as [objects| |] eqn:Hobj; cbn [res_bind]; [|done..].
  unfold meshedPods. destruct (res_mapM _ _) as [ls| |] eqn:Hm; cbn [res_bind]; [|done..].
  case_bool_decide; [done|]. destruct (makeByResourceMatch _ _ _) as [m| |]; cbn [res_bind]; [|done..].
  intros [= <-] (pod & -> & Hpod)%list_elem_of_fmap. unfold withStatus in Hpod.
  apply list_elem_of_filter in Hpod as [Hst Hpod]. apply list_elem_of_filter in Hpod as [Hmesh (pods & Hpod & Hpods)%list_elem_of_join].
  apply res_mapM_Ok in Hm. apply list_elem_of_lookup in Hpods as (i & Hpods). destruct (Forall2_lookup_r _ _ _ _ _ Hm Hpods) as (o & Ho & Hf).
  exists r, sel, objects, o, pods. split_and!; try done. by eapply list_elem_of_lookup_2.
Qed.

(** The objects of the caches have plain names, as the API server requires. *)
Definition plainNames (api : API) : Prop := ∀ r l o, inf api !! r = Some l → o ∈ l → plain (name o) = true ∧ plain (ns o) = true.

(** A review that covers a tap of a pod of an object: for all namespaces, or for the namespace of
    the pod and, unless it is for all names, the name of the object. *)
Definition coveredBy (sar : SubjectAccessReview) (typ : string) (o pod : object) : Prop :=
  sar_Resource sar = typ +:+ "s"
  ∧ (sar_Namespace sar = "" ∨ sar_Namespace sar = ns pod ∧ (sar_Name sar = "" ∨ sar_Name sar = name o)).

End authorized.

(** ** A concrete request *)
(** A router that tries the routes in order. *)
Definition paramOf (p : string) : option string := match p with String ":" nm => Some nm | _ => None end.
Lemma paramOf_Some p nm : paramOf p = Some nm → p = String ":" nm.
Proof. destruct p as [|c p]; [done|]. cbn. repeat (case_match; try done). by intros [= ->]. Qed.
Lemma paramOf_None params p v : paramOf p = None → segmentMatches params p v ↔ p = v.
Proof. destruct p as [|c p]; [done|]. cbn. by repeat (case_match; try done). Qed.

Fixpoint matchSegments (ps ss : list string) : option strmap :=
  match ps, ss with
  | [], [] => Some ∅
  | p :: ps, v :: ss =>
      matchSegments ps ss ≫= λ m,
      match paramOf p with
      | Some nm => if decide (m !! nm = None) then Some (<[nm := v]> m) else None
      | None => if decide (p = v) then Some m else None
      end
  | _, _ => None
  end.
Lemma segmentMatches_mono m m' p v : m ⊆ m' → segmentMatches m p v → segmentMatches m' p v.
Proof.
  intros Hm. destruct (paramOf p) as [nm|] eqn:Hp; [|by rewrite !paramOf_None].
  apply paramOf_Some in Hp as ->. cbn. intros Hv. by eapply lookup_weaken.
Qed.
Lemma matchSegments_matches ps ss params : matchSegments ps ss = Some params →
  Forall2 (segmentMatches params) ps ss ∧ ∀ k, is_Some (params !! k) → String ":" k ∈ ps.
Proof.
  revert ss params. induction ps as [|p ps IH]; intros [|v ss] params; cbn [matchSegments]; [|done..|].
  { intros [= <-]. split; [done|]. intros k. by rewrite lookup_empty; intros [? ?]. }
  intros (m & Hm & Hp)%bind_Some. destruct (IH ss m Hm) as [Hs Hk]. destruct (paramOf p) as [nm|] eqn:Hpar.
  - destruct (decide _) as [Hn|]; [|done]. injection Hp as <-. apply paramOf_Some in Hpar as ->. split.
    + constructor; [cbn; by rewrite lookup_insert_eq|]. eapply Forall2_impl; [done|]. intros p' v'. by apply segmentMatches_mono, insert_subseteq.
    + intros k [<-|[_ Hk']]%lookup_insert_is_Some; [apply list_elem_of_here|]. apply list_elem_of_further. auto.
  - destruct (decide (p = v)) as [->|]; [|done]. injection Hp as <-. split; [constructor; [by apply paramOf_None|done]|].
    intros k Hk'. apply list_elem_of_further. auto.
Qed.

Definition firstRoute (rs : list (string * string * Handler)) (method path : string) : option (Handler * strmap) :=
  head (omap (λ e, if decide (e.1.1 = method) then (λ m, (e.2, m)) <$> matchSegments (strings.Split e.1.2 "/") (strings.Split path "/") else None) rs).
Lemma firstRoute_matches rs method path h params : firstRoute rs method path = Some (h, params) →
  ∃ pattern, (method, pattern, h) ∈ rs ∧ patternMatches params pattern path.
Proof.
  unfold firstRoute. intros Hh%head_Some_elem_of. apply list_elem_of_omap in Hh as ([[m p] h'] & Hin & He). cbn in He.
  destruct (decide (m = method)) as [->|]; [|done]. apply fmap_Some in He as (m' & Hm & [= -> ->]). exists p. split; [done|].
  by apply matchSegments_matches.
Qed.

Definition ex_tapRequest : TapByResourceRequest :=
  mkTapRequest (Some (Some (mkResource "prod" "statefulset" "db"), "")) (f32_of_Z 0)
    (Some (MAll [MHttp (MMethod "get"); MDestinations (Some (mkResource "prod" "service" "web"))])) true.
Definition ex_apiserver : APIServer := {|
  lookupRoute := firstRoute; lookupRoute_matches := firstRoute_matches;
  createSAR := λ sar, Ok (mkReview (bool_decide (sar_User sar = "alice" ∧ sar_Namespace sar = "prod")) "");
  UnmarshalTapRequest := λ _, Ok ex_tapRequest |}.
Definition ex_podRecord (annotations : strmap) : Pod :=
  mkPod "db-0" "prod" "" ∅ annotations "db" "" false [] [] "Running" "10.0.0.7" [] "" [] false.
Definition ex_tapWorld : TapWorld := {|
  podOf := λ _, ex_podRecord {[VizTapEnabled := "true"]}; nodeAddresses := λ _, []; Scheme_Registered_value := λ _, None;
  HttpMethod_Registered_value := λ s, if bool_decide (s = "GET") then Some 0 else None |}.
Definition ex_vizWorld : VizStat.World := {|
  ParseDuration := λ _, None; ParseSelector := λ _, Err "no selector"; detail := λ _, mkPodDetail (mkPodObject "" "" ∅ ∅ [] "" false [] [] "" "" "" [] [] []) [] [] "";
  dstOverrides := λ _, []; routeNames := λ _, []; listPolicy := λ _ _ _, Ok []; getPolicy := λ _ _ _, Err "not found"; kindOf := λ _, "";
  listServices := Ok [] |}.
Definition ex_set : object := StatefulSetO (mkMeta "db" "prod" "u1" ∅ []) {["app" := "db"]}.
Definition ex_tapped : object :=
  PodO (mkMeta "db-0" "prod" "u2" (<["app" := "db"]> {[ControllerNSLabel := "linkerd"]}) [mkOwner "StatefulSet" "db" "u1"]) "Running" false.
Definition ex_caches : API := mkAPI (<[SS := [ex_set]]> {[PodRes := [ex_tapped]]}).
Definition ex_tapServer : GRPCTapServer := mkTapServer 4190 ex_caches "linkerd" "cluster.local" ∅.
Definition ex_config : Server := mkServerConfig ["aggregator"] "X-Remote-User" "X-Remote-Group".
Definition ex_http : httpRequest :=
  mkHttpRequest "POST" "/apis/tap.linkerd.io/v1alpha1/watch/namespaces/prod/statefulsets/db/tap"
    (λ h, if bool_decide (h = "X-Remote-User") then ["alice"] else []) [] [mkClientCert "aggregator" [] [] [] []] true.
Definition ex_call : res Reply := ServeHTTP (H := range_in_order) (H0 := ex_vizWorld) (H1 := ex_tapWorld) (H2 := ex_apiserver) ex_tapServer ex_config ex_http.
Definition ex_tap : tapCall :=
  mkTapCall ex_tapped "10.0.0.7" "db.prod.serviceaccount.identity.linkerd.cluster.local" (f32_of_Z 100)
    (OAll (OHttp (OMethod (Registered 0)) :: ((λ e, ODestinationLabel e.1 e.2) <$> map_to_list (destinationLabels (mkResource "prod" "service" "web"))))) true.

Lemma ex_caches_elem r l o : inf ex_caches !! r = Some l → o ∈ l → (r = SS ∧ o = ex_set) ∨ (r = PodRes ∧ o = ex_tapped).
Proof.
  cbn. rewrite lookup_insert_Some, lookup_singleton_Some. intros [[<- <-]|[_ [<- <-]]] ->%list_elem_of_singleton; auto.
Qed.

(** * The rate of a tap *)
Section rate.
Context `{!TapWorld} (s : GRPCTapServer).

(** How many windows can begin in so many nanoseconds, and how many events those send. *)
Definition windowsIn (t : Z) : Z := if t <=? 0 then 0 else (t - 1) / tapInterval + 1.
Definition sentBefore (end_ : Z) (l : list (Z * list (TapEvent HeaderValue))) : Z :=
  foldr (λ e n, (if e.1 <? end_ then Z.of_nat (length e.2) else 0) + n) 0 l.

Lemma windowsIn_step t d : 0 < t → tapInterval ≤ d → windowsIn (t - d) + 1 ≤ windowsIn t.
Proof.
  intros Ht Hd. unfold windowsIn, tapInterval in *. destruct (Z.leb_spec t 0); [lia|].
  destruct (Z.leb_spec (t - d) 0).
  - pose proof (Z.div_pos (t - 1) 1000000000 ltac:(lia) ltac:(lia)). lia.
  - assert ((t - d - 1) / 1000000000 + 1 ≤ (t - 1) / 1000000000); [|lia]. rewrite <-Z.div_add by lia. apply Z.div_le_mono; lia.
Qed.
Lemma streamLoop_sent events e r : streamLoop s events e = Ok r → (length r.1 ≤ length events)%nat.
Proof.
  revert r. induction events as [|[ev present] events IH]; intros r; cbn [streamLoop]; [by intros [= <-]|].
  destruct (translateEvent s ev); cbn [res_bind]; [|done..]. destruct present; [|intros [= <-]; cbn; lia].
  destruct (streamLoop s events e) as [r'| |]; cbn [res_bind]; [|done..]. intros [= <-]. cbn. specialize (IH r' eq_refl). lia.
Qed.

(** C37: If the proxy observes the limit it is given in each call, a tap sends in any time from its
    start at most the limit for each second that has begun. *)
Theorem tap_rate limit now windows l t :
  0 ≤ limit → (∀ events e d, Observed events e d ∈ windows → Z.of_nat (length events) ≤ limit) →
  tapProxy s now windows = Ok l → sentBefore (now + t) l ≤ limit * windowsIn t.
Proof.
  intros Hlim. revert now l t. induction windows as [|w windows IH]; intros now l t Hobs; cbn [tapProxy].
  { intros [= <-]. cbn. unfold windowsIn, tapInterval. destruct (Z.leb_spec t 0); [lia|].
    pose proof (Z.div_pos (t - 1) 1000000000 ltac:(lia) ltac:(lia)). nia. }
  assert (0 ≤ windowsIn t ∧ (0 < t → 1 ≤ windowsIn t)) as [Hw0 Hw1].
  { unfold windowsIn, tapInterval. destruct (Z.leb_spec t 0); [lia|]. pose proof (Z.div_pos (t - 1) 1000000000 ltac:(lia) ltac:(lia)). lia. }
  destruct w as [|events e d]; [intros [= <-]; cbn; case_match; nia|].
  destruct (streamLoop s events e) as [[sent goesOn]| |] eqn:Hs; cbn [res_bind fst snd]; [|done..].
  pose proof (streamLoop_sent _ _ _ Hs) as Hsent. cbn in Hsent. specialize (Hobs events e d ltac:(apply list_elem_of_here)) as Hlen.
  assert ((if now <? now + t then Z.of_nat (length sent) else 0) ≤ if decide (0 < t) then limit else 0) as Hfirst.
  { destruct (decide (0 < t)), (Z.ltb_spec now (now + t)); lia. }
  destruct goesOn; [|intros [= <-]; cbn [sentBefore foldr fst snd]; destruct (decide (0 < t)); nia].
  destruct (tapProxy s _ windows) as [rest| |] eqn:Hrest; cbn [res_bind]; [|done..]. intros [= <-]. cbn [sentBefore foldr fst snd].
  set (d' := Z.max d tapInterval) in *. fold (sentBefore (now + t) rest).
  assert (∀ events e d, Observed events e d ∈ windows → Z.of_nat (length events) ≤ limit) as Hobs'
    by (intros; eapply Hobs; by apply list_elem_of_further).
  pose proof (IH (now + d') rest (t - d') Hobs' Hrest) as Hr. replace (now + d' + (t - d')) with (now + t) in Hr by lia.
  destruct (decide (0 < t)) as [Ht|Ht]; [pose proof (windowsIn_step t d' Ht ltac:(lia)); nia|].
  assert (windowsIn (t - d') = 0) as Hz by (unfold windowsIn; destruct (Z.leb_spec (t - d') 0); unfold d', tapInterval in *; lia). nia.
Qed.

(** ** Headers *)
(** No header that is to be ignored leaves the server. *)
Definition headersOf {V} (e : HttpEvent V) : list (string * V) :=
  match e with RequestInit _ _ _ _ _ hs | ResponseInit _ _ _ hs | ResponseEnd _ _ _ _ _ hs => default [] hs end.
Lemma ignored_headers orig ev e h v : translateEvent s orig = Ok ev → ev_Http ev = Some e → (h, v) ∈ headersOf e → h ∉ ts_IgnoreHeaders s.
Proof.
  unfold translateEvent. destruct (hydrateIPLabels _ _ _) as [l1| |]; cbn [res_bind]; [|done..].
  destruct (match ev_Direction orig with INBOUND => _ | _ => _ end) as [l2| |]; cbn [res_bind]; [|done..]. intros [= <-]. cbn [ev_Http].
  intros (e0 & _ & ->)%fmap_Some.
  assert (∀ hs, (h, v) ∈ default [] (translateHeaders s hs) → h ∉ ts_IgnoreHeaders s) as Hh.
  { intros [hs|]; cbn; [|by intros ?%elem_of_nil]. intros ([h' b] & [= -> _] & [Hn _]%list_elem_of_filter)%list_elem_of_fmap. done. }
  destruct e0; cbn [translateHttpEvent headersOf]; apply Hh.
Qed.
End rate.

(** * Enabling tap *)
(** A pod that has been patched is not patched again. *)
Lemma Mutate_once svc pod nsAnnotations ops : Mutate svc (Ok pod) nsAnnotations = Ok (Some ops) →
  IsTapEnabled (pod_Annotations pod) = false ∧ IsTapDisabled (pod_Annotations pod) = false ∧ GetProxyContainerPath pod ≠ ""
  ∧ ops = tpl (GetProxyContainerPath pod) svc.
Proof.
  unfold Mutate. cbn [res_bind]. case_bool_decide; [done|]. destruct (IsTapEnabled _) eqn:He; [done|]. cbn [orb].
  destruct nsAnnotations as [nsa| |]; cbn [res_bind]; [|done..]. destruct (IsTapDisabled nsa), (IsTapDisabled _); try done. intros [= <-]. done.
Qed.

Definition ex_rateServer : GRPCTapServer := mkTapServer 4190 (mkAPI {[Node := []; PodRes := []]}) "linkerd" "cluster.local" {["authorization"]}.
Definition ex_orig : TapEvent (list Z) :=
  mkTapEvent (mkTcpAddress (Some (Ipv4 167772161)) 80) None (mkTcpAddress None 0) None None INBOUND
    (Some (RequestInit None None None "web" "/" (Some [("authorization", [115]); ("x", [255])]))).
Definition ex_windows : list window := [Observed [(ex_orig, true)] EOF 5; Observed [(ex_orig, true); (ex_orig, false)] EOF 5; ObserveError].
Lemma tap_rate_witness :
  match tapProxy (H0 := ex_tapWorld) ex_rateServer 0 ex_windows with Ok l => sentBefore (0 + 3) l ≤ 2 * windowsIn 3 ∧ l ≠ [] | _ => False end.
Proof.
  destruct (tapProxy (H0 := ex_tapWorld) ex_rateServer 0 ex_windows) as [l| |] eqn:Hl; [|by vm_compute in Hl..].
  split; [|intros ->; by vm_compute in Hl]. apply (tap_rate (H := ex_tapWorld) ex_rateServer 2 0 ex_windows l 3); [done| |exact Hl].
  intros events e d Hin. unfold ex_windows in Hin. rewrite !elem_of_cons, elem_of_nil in Hin.
  destruct Hin as [[= -> -> ->]|[[= -> -> ->]|[[=]|[]]]]; cbn; lia.
Defined.
