(* ===== verification/ProtoHttp.v ===== *)
(** Protocol buffers over HTTP ([pkg/protohttp/protohttp.go]): messages framed by their length,
    and errors as a header and a message.  The encoding of messages is a parameter. *)
From S2P Require Import Prelude GoStd.

#[local] Open Scope string_scope.
#[local] Open Scope list_scope.
#[local] Open Scope Z_scope.
#[local] Open Scope go_scope.

(** * Frames *)
(** [binary.LittleEndian] on 32 bits. *)
Definition PutUint32 (n : Z) : list Z := (λ i, Z.land (Z.shiftr n (8 * i)) 255) <$> [0; 1; 2; 3].
Definition Uint32 (bs : list Z) : Z :=
  match bs with
  | [a; b; c; d] => Z.lor a (Z.lor (Z.shiftl b 8) (Z.lor (Z.shiftl c 16) (Z.shiftl d 24)))
  | _ => 0
  end.
Definition numBytesForMessageLength : nat := 4.

Definition SerializeAsPayload (message : list Z) : list Z := PutUint32 (u32 (Z.of_nat (length message))) ++ message.

(** [io.ReadFull]: the bytes and the rest. *)
Definition ReadFull (bytes : list Z) (n : nat) : res (list Z * list Z) :=
  if (n <=? length bytes)%nat then Ok (take n bytes, drop n bytes)
  else if bool_decide (bytes = []) then Err "EOF" else Err "unexpected EOF".
Definition deserializePayloadFromReader (bytes : list Z) : res (list Z * list Z) :=
  let* header := ReadFull bytes numBytesForMessageLength in
  ReadFull header.2 (Z.to_nat (Uint32 header.1)).

(** Reading so many messages. *)
Fixpoint readMessages (n : nat) (bytes : list Z) : res (list (list Z) * list Z) :=
  match n with
  | O => Ok ([], bytes)
  | S n => let* r := deserializePayloadFromReader bytes in
           let* rs := readMessages n r.2 in Ok (r.1 :: rs.1, rs.2)
  end.

Lemma Uint32_PutUint32 n : 0 ≤ n < 2^32 → Uint32 (PutUint32 n) = n.
Proof.
  intros Hn. unfold PutUint32, Uint32. cbn [fmap list_fmap]. rewrite !Z.shiftr_div_pow2, !Z.shiftl_mul_pow2 by lia. change 255 with (Z.ones 8). rewrite !Z.land_ones by lia.
  apply Z.bits_inj'. intros i Hi. rewrite !Z.lor_spec.
  assert (∀ k, 0 ≤ k → Z.testbit ((n / 2 ^ k) mod 2 ^ 8 * 2 ^ k) i = Z.testbit n i && (k <=? i) && (i <? k + 8)) as Hb.
  { intros k Hk. rewrite <-Z.shiftl_mul_pow2, Z.shiftl_spec by lia. destruct (Z.leb_spec k i) as [Hki|Hki].
    - destruct (Z.ltb_spec i (k + 8)).
      + rewrite Z.mod_pow2_bits_low, Z.div_pow2_bits by lia. replace (i - k + k) with i by lia. by rewrite !andb_true_r.
      + rewrite Z.mod_pow2_bits_high by lia. by rewrite andb_false_r.
    - rewrite Z.testbit_neg_r by lia. by rewrite andb_false_r. }
  pose proof (Hb 0 ltac:(lia)) as H0. pose proof (Hb 8 ltac:(lia)) as H1. pose proof (Hb 16 ltac:(lia)) as H2. pose proof (Hb 24 ltac:(lia)) as H3.
  change (8 * 0) with 0; change (8 * 1) with 8; change (8 * 2) with 16; change (8 * 3) with 24. rewrite Z.mul_1_r in H0. rewrite H0, H1, H2, H3. clear H0 H1 H2 H3 Hb. destruct (Z.testbit n i) eqn:Ht; [|done].
  assert (i < 32) as Hi32. { destruct (Z.lt_ge_cases i 32); [done|]. rewrite (Z.bits_above_log2 n i) in Ht; [done|lia|].
    destruct (decide (n = 0)) as [->|]; [cbn; lia|]. apply Z.log2_lt_pow2; [lia|]. apply Z.lt_le_trans with (2^32); [lia|]. by apply Z.pow_le_mono_r. }
  cbn. lia.
Qed.

Lemma ReadFull_app a b : ReadFull (a ++ b) (length a) = Ok (a, b).
Proof. unfold ReadFull. rewrite length_app. destruct (Nat.leb_spec (length a) (length a + length b)); [|lia]. by rewrite take_app_length, drop_app_length. Qed.
Lemma deserialize_serialize message rest : Z.of_nat (length message) < 2^32 →
  deserializePayloadFromReader (SerializeAsPayload message ++ rest) = Ok (message, rest).
Proof.
  intros Hlen. unfold deserializePayloadFromReader, SerializeAsPayload. rewrite <-app_assoc.
  change numBytesForMessageLength with (length (PutUint32 (u32 (Z.of_nat (length message))))). rewrite ReadFull_app. cbn [res_bind fst snd].
  rewrite u32_id by (split; [lia|done]). rewrite Uint32_PutUint32, Nat2Z.id by lia. apply ReadFull_app.
Qed.

(** Messages written one after the other are read back as they were, whatever follows them. *)
Theorem frames_roundtrip messages rest :
  Forall (λ m, Z.of_nat (length m) < 2^32) messages →
  readMessages (length messages) (mjoin (SerializeAsPayload <$> messages) ++ rest) = Ok (messages, rest).
Proof.
  induction 1 as [|m messages Hm _ IH]; [done|]. rewrite fmap_cons. change (mjoin (?x :: ?l)) with (x ++ mjoin l). rewrite <-app_assoc. cbn [length readMessages].
  rewrite deserialize_serialize by done. cbn [res_bind fst snd]. by rewrite IH.
Qed.
Lemma frames_roundtrip_witness :
  readMessages 2 (mjoin (SerializeAsPayload <$> [[1; 2; 3]; []]) ++ [7]) = Ok ([[1; 2; 3]; []], [7]).
Proof. apply (frames_roundtrip [[1; 2; 3]; []] [7]). repeat constructor. Defined.

(** A message of 2^32 bytes or more is framed by its length modulo 2^32. *)
Lemma long_frame message : Uint32 (take 4 (SerializeAsPayload message)) = Z.of_nat (length message) mod 2^32.
Proof.
  unfold SerializeAsPayload. change 4%nat with (length (PutUint32 (u32 (Z.of_nat (length message))))). rewrite take_app_length.
  apply Uint32_PutUint32, Z.mod_pos_bound. lia.
Qed.

(** * Errors *)
Record Response := mkResponse { rsp_Status : Z; rsp_ErrorHeader : string; rsp_Body : list Z }.
(** An error with an HTTP status, and any other. *)
Inductive serverError := HTTPError (code : Z) (wrapped : string) | OtherError (message : string).

Class Codec := {
  MarshalApiError : string → option (list Z);
  UnmarshalApiError : list Z → option string;
  StatusText : Z → string;
  ToRuntimeObject : list Z → option string  (* the message of a status object *);
  textOf : list Z → string }.

Section errors.
Context `{!Codec}.
(** The header and what is written to the body; the status stays 200. *)
Definition WriteErrorToHTTPResponse (e : serverError) : Response :=
  let '(code, message) := match e with HTTPError c w => (c, w) | OtherError m => (500, m) end in
  match MarshalApiError message with
  | Some bytes => mkResponse 200 (StatusText code) (SerializeAsPayload bytes)
  | None => mkResponse 200 "proto: failed to marshal" []
  end.

Definition maxBody : Z := 100 * 1024 * 1024.
(** What the client makes of a response; [None] is no error. *)
Definition CheckIfResponseHasError (rsp : Response) : option string :=
  if bool_decide (rsp_ErrorHeader rsp ≠ "") then
    Some match deserializePayloadFromReader (rsp_Body rsp) with
         | Ok (bytes, _) => match UnmarshalApiError bytes with
                            | Some m => m
                            | None => "response has linkerd-error header [" +:+ rsp_ErrorHeader rsp +:+ "], but response body didn't contain protobuf error"
                            end
         | _ => "response has linkerd-error header [" +:+ rsp_ErrorHeader rsp +:+ "], but response body didn't contain protobuf error"
         end
  else if bool_decide (rsp_Status rsp ≠ 200) then
    let unexpected := if (Z.of_nat (length (rsp_Body rsp)) <? maxBody) && bool_decide (rsp_Body rsp ≠ [])
                      then match ToRuntimeObject (rsp_Body rsp) with
                           | Some m => m
                           | None => "unexpected API response: " +:+ textOf (rsp_Body rsp)
                           end
                      else "unexpected API response" in
    Some ("HTTP error, status Code [" +:+ strconv.Itoa (rsp_Status rsp) +:+ "] (" +:+ unexpected +:+ ")")
  else None.

(** An error that the server writes is the error the client reports, if messages of errors can
    be encoded and decoded and the status is a known one. *)
Lemma error_reaches_client e message bytes : (match e with HTTPError _ w => w | OtherError m => m end) = message →
  StatusText (match e with HTTPError c _ => c | OtherError _ => 500 end) ≠ "" →
  MarshalApiError message = Some bytes → UnmarshalApiError bytes = Some message → Z.of_nat (length bytes) < 2^32 →
  CheckIfResponseHasError (WriteErrorToHTTPResponse e) = Some message.
Proof.
  intros Hm Hs Hmar Hun Hlen. unfold CheckIfResponseHasError, WriteErrorToHTTPResponse. pose proof (deserialize_serialize bytes [] Hlen) as Hd.
  rewrite app_nil_r in Hd. destruct e; subst message; rewrite Hmar; cbn [rsp_ErrorHeader rsp_Body]; rewrite bool_decide_true by done;
    by rewrite Hd, Hun.
Qed.
End errors.
