(* ===== verification/Top.v ===== *)
(** The commands tap and top of the viz extension ([viz/cmd/tap.go], [viz/cmd/top.go]): the text
    of events, and the table of the requests that events make up.

    The names of methods, schemes and gRPC codes, the text of durations and percentages and the
    width of text on a terminal are parameters. *)
From S2P Require Import Prelude GoStd K8s Addr ProfileTranslator VizApi VizRoutes Tap.

#[local] Open Scope string_scope.
#[local] Open Scope list_scope.
#[local] Open Scope Z_scope.
#[local] Open Scope go_scope.

Class Rendering := {
  methodName : Z → string; schemeName : Z → string; codeName : Z → string;
  DurationString : Z → string; percentString : Z → Z → string; StringWidth : string → Z }.

(** * Durations *)
(** [durationpb.Duration]: seconds and nanoseconds. *)
Definition CheckValid (d : option (Z * Z)) : bool :=
  match d with
  | None => false
  | Some (secs, nanos) =>
      bool_decide (-315576000000 ≤ secs ≤ 315576000000 ∧ -1000000000 < nanos < 1000000000
                   ∧ ¬ (0 < secs ∧ nanos < 0) ∧ ¬ (secs < 0 ∧ 0 < nanos))
  end.
(** In nanoseconds, held to 64 bits. *)
Definition AsDuration (d : option (Z * Z)) : Z :=
  let '(secs, nanos) := default (0, 0) d in Z.max (-2^63) (Z.min (2^63 - 1) (secs * 1000000000 + nanos)).

Section tap.
Context `{!MapRange} `{!Rendering}.

(** * Events as text *)
Definition HTTPMethodToString (m : option HttpMethod) : string :=
  match m with
  | Some (Unregistered s) => if bool_decide (s ≠ "") then s else methodName 0
  | Some (Registered v) => methodName v
  | None => methodName 0
  end.

Record peer := mkPeer { p_address : TcpAddress; p_labels : strmap; p_direction : string }.
Definition src (ev : TapEvent HeaderValue) : peer := mkPeer (ev_Source ev) (default ∅ (ev_SourceMeta ev)) "src".
Definition dst (ev : TapEvent HeaderValue) : peer := mkPeer (ev_Destination ev) (default ∅ (ev_DestinationMeta ev)) "dst".
Definition formatAddr (p : peer) : string := p_direction p +:+ "=" +:+ PublicAddressToString (p_address p).
Definition formatResource (p : peer) : list string :=
  merge_sort String.le ((λ e, p_direction p +:+ "_" +:+ e.1 +:+ "=" +:+ e.2) <$> range (p_labels p)).
Definition tlsStatus (p : peer) : string := get (p_labels p) "tls".
Definition routeLabels (ev : TapEvent HeaderValue) : list string :=
  (λ e, "rt_" +:+ e.1 +:+ "=" +:+ e.2) <$> range (default ∅ (ev_RouteMeta ev)).

Definition idString (id : option StreamId) : string :=
  let i := default (mkStreamId 0 0) id in "id=" +:+ strconv.Itoa (si_Base i) +:+ ":" +:+ strconv.Itoa (si_Stream i).
Definition micros (d : option (Z * Z)) : string := strconv.Itoa (Z.quot (AsDuration d) 1000) +:+ "µs".
Definition renderTapEvent (ev : TapEvent HeaderValue) : string :=
  let '(proxy, tls) := match ev_Direction ev with
                       | INBOUND => ("in ", tlsStatus (src ev)) | OUTBOUND => ("out", tlsStatus (dst ev)) | UNKNOWN => ("???", "") end in
  let flow := "proxy=" +:+ proxy +:+ " " +:+ formatAddr (src ev) +:+ " " +:+ formatAddr (dst ev) +:+ " tls=" +:+ tls in
  match ev_Http ev with
  | Some (RequestInit id m _ authority path _) =>
      "req " +:+ idString id +:+ " " +:+ flow +:+ " :method=" +:+ HTTPMethodToString m +:+ " :authority=" +:+ authority +:+ " :path=" +:+ path
  | Some (ResponseInit id d status _) =>
      "rsp " +:+ idString id +:+ " " +:+ flow +:+ " :status=" +:+ strconv.Itoa status +:+ " latency=" +:+ micros d
  | Some (ResponseEnd id _ d bytes eos _) =>
      "end " +:+ idString id +:+ " " +:+ flow
      +:+ match eos with
          | Some (GrpcStatusCode c) => " grpc-status=" +:+ codeName c
          | Some (ResetErrorCode c) => " reset-error=" +:+ strconv.Itoa c
          | None => "" end
      +:+ " duration=" +:+ micros d +:+ " response-length=" +:+ strconv.Itoa bytes +:+ "B"
  | None => "unknown " +:+ flow
  end.
Definition renderTapEventWide (ev : TapEvent HeaderValue) : string :=
  strings.Join (renderTapEvent ev :: formatResource (src ev) ++ formatResource (dst ev) ++ routeLabels ev) " ".

(** ** For JSON *)
Record endpoint := mkEndpoint { ep_IP : string; ep_Port : Z; ep_Metadata : strmap }.
Inductive displayEvent :=
  | requestInitEvent (id : StreamId) (method scheme authority path : string) (headers : list (string * HeaderValue))
  | responseInitEvent (id : StreamId) (since : option (Z * Z)) (status : Z) (headers : list (string * HeaderValue))
  | responseEndEvent (id : StreamId) (sinceRequest sinceResponse : option (Z * Z)) (bytes : Z) (trailers : list (string * HeaderValue))
      (grpcStatusCode resetErrorCode : Z).
Definition formatMethod (m : option HttpMethod) : string :=
  match m with Some (Registered v) => methodName v | Some (Unregistered s) => s | None => "" end.
Definition formatScheme (s : option Scheme) : string :=
  match s with Some (SRegistered v) => schemeName v | Some (SUnregistered s) => s | None => "" end.
Definition displayHttp (e : HttpEvent HeaderValue) : displayEvent :=
  let sid i := default (mkStreamId 0 0) i in
  match e with
  | RequestInit i m s au p hs => requestInitEvent (sid i) (formatMethod m) (formatScheme s) au p (default [] hs)
  | ResponseInit i d st hs => responseInitEvent (sid i) d st (default [] hs)
  | ResponseEnd i d1 d2 n eos hs =>
      responseEndEvent (sid i) d1 d2 n (default [] hs) (match eos with Some (GrpcStatusCode c) => c | _ => 0 end)
        (match eos with Some (ResetErrorCode c) => c | _ => 0 end)
  end.
Record displayTapEvent := mkDisplay {
  d_Source : endpoint; d_Destination : endpoint; d_RouteMeta : strmap; d_Direction : string; d_Event : option displayEvent }.
Definition mapPublicToDisplayTapEvent (ev : TapEvent HeaderValue) : displayTapEvent :=
  let ep a m := mkEndpoint (PublicIPToString (Ip a)) (tcp_Port a) (default ∅ m) in
  mkDisplay (ep (ev_Source ev) (ev_SourceMeta ev)) (ep (ev_Destination ev) (ev_DestinationMeta ev)) (default ∅ (ev_RouteMeta ev))
    (match ev_Direction ev with INBOUND => "INBOUND" | OUTBOUND => "OUTBOUND" | UNKNOWN => "UNKNOWN" end) (displayHttp <$> ev_Http ev).

(** * Requests *)
Record topRequestID := mkRequestID { id_src : string; id_dst : string; id_stream : Z }.
#[export] Instance topRequestID_eq_dec : EqDecision topRequestID.
Proof. solve_decision. Defined.
#[export] Instance topRequestID_countable : Countable topRequestID.
Proof. refine (inj_countable' (λ i, (id_src i, id_dst i, id_stream i)) (λ t, mkRequestID t.1.1 t.1.2 t.2) _). by intros []. Defined.

(** Of the messages the parts the table uses: path and method, status, latency and end. *)
Record topRequest := mkTopRequest {
  tq_event : TapEvent HeaderValue; tq_path : string; tq_method : option HttpMethod; tq_rspInit : option Z;
  tq_rspEnd : option (option (Z * Z) * option Eos) }.

(** What an event does to the outstanding requests, and the request it completes, if any. *)
Definition processEvent (outstanding : gmap topRequestID topRequest) (ev : TapEvent HeaderValue)
    : res (gmap topRequestID topRequest * option topRequest) :=
  let key stream := mkRequestID (PublicAddressToString (ev_Source ev)) (PublicAddressToString (ev_Destination ev)) stream in
  match ev_Http ev with
  | Some (RequestInit None _ _ _ _ _) | Some (ResponseInit None _ _ _) | Some (ResponseEnd None _ _ _ _ _) => Panic
  | Some (RequestInit (Some i) m _ _ path _) =>
      Ok (<[key (si_Stream i) := mkTopRequest ev path m None None]> outstanding, None)
  | Some (ResponseInit (Some i) _ status _) =>
      match outstanding !! key (si_Stream i) with
      | Some r => Ok (<[key (si_Stream i) := mkTopRequest (tq_event r) (tq_path r) (tq_method r) (Some status) (tq_rspEnd r)]> outstanding, None)
      | None => Ok (outstanding, None)
      end
  | Some (ResponseEnd (Some i) d _ _ eos _) =>
      match outstanding !! key (si_Stream i) with
      | Some r => Ok (outstanding, Some (mkTopRequest (tq_event r) (tq_path r) (tq_method r) (tq_rspInit r) (Some (d, eos))))
      | None => Ok (outstanding, None)
      end
  | None => Ok (outstanding, None)
  end.
Fixpoint processEvents (outstanding : gmap topRequestID topRequest) (evs : list (TapEvent HeaderValue)) : res (list topRequest) :=
  match evs with
  | [] => Ok []
  | ev :: evs => let* r := processEvent outstanding ev in
                 let* rest := processEvents r.1 evs in Ok (option_list r.2 ++ rest)
  end.

(** * The table *)
Record tableRow := mkTableRow {
  t_path : string; t_method : string; t_route : string; t_source : string; t_destination : string; t_count : Z;
  t_best : Z; t_worst : Z; t_last : Z; t_successes : Z; t_failures : Z }.
#[export] Instance tableRow_eq_dec : EqDecision tableRow.
Proof. solve_decision. Defined.
Definition merge (r other : tableRow) : tableRow :=
  mkTableRow (t_path r) (t_method r) (t_route r) (t_source r) (t_destination r) (t_count r + t_count other)
    (if t_best other <? t_best r then t_best other else t_best r) (if t_worst r <? t_worst other then t_worst other else t_worst r)
    (t_last other) (t_successes r + t_successes other) (t_failures r + t_failures other).

Definition stripPort (address : string) : string := default "" (head (strings.Split address ":")).
(** A request succeeded if its status and its end say so. *)
Definition succeeded (status : option Z) (eos : option Eos) : bool :=
  (default 0 status <? 500)
  && match eos with
     | Some (GrpcStatusCode c) => negb (bool_decide (c ∈ [2; 4; 13; 14; 15]))
     | Some (ResetErrorCode _) => false
     | None => true
     end.
Definition newRow (req : topRequest) : res tableRow :=
  match ev_SourceMeta (tq_event req), ev_DestinationMeta (tq_event req) with
  | Some srcLabels, Some dstLabels =>
      let route := get (default ∅ (ev_RouteMeta (tq_event req))) "route" in
      let peerName labels a := if bool_decide (get labels "pod" ≠ "") then get labels "pod" else stripPort (PublicAddressToString a) in
      let end_ := default (None, None) (tq_rspEnd req) in
      if negb (CheckValid end_.1) then Err "error parsing duration"
      else
        let latency := AsDuration end_.1 in
        let success := succeeded (tq_rspInit req) end_.2 in
        Ok (mkTableRow (tq_path req) (HTTPMethodToString (tq_method req)) (if bool_decide (route = "") then DefaultRouteName else route)
              (peerName srcLabels (ev_Source (tq_event req))) (peerName dstLabels (ev_Destination (tq_event req))) 1 latency latency latency
              (if success then 1 else 0) (if success then 0 else 1))
  | _, _ => Panic
  end.

Definition formatDuration (d : Z) : string :=
  let round m := let r := Z.rem d m in
                 if d <? 0 then (if - r * 2 <? m then d - r else d - r - m) else (if r * 2 <? m then d - r else d - r + m) in
  DurationString (if d <? 1000000 then round 1000 else if d <? 1000000000 then round 1000000 else round 1000000000).

Record tableColumn := mkColumn {
  col_header : string; col_width : Z; col_key : bool; col_display : bool; col_flexible : bool; col_rightAlign : bool;
  col_value : tableRow → string }.
Definition newTopTable : list tableColumn :=
  [mkColumn "Source" 23 true true true false t_source;
   mkColumn "Destination" 23 true true true false t_destination;
   mkColumn "Method" 10 true true false false t_method;
   mkColumn "Path" 37 true true true false t_path;
   mkColumn "Route" 47 false false true false t_route;
   mkColumn "Count" 6 false true false true (λ r, strconv.Itoa (t_count r));
   mkColumn "Best" 6 false true false true (λ r, formatDuration (t_best r));
   mkColumn "Worst" 6 false true false true (λ r, formatDuration (t_worst r));
   mkColumn "Last" 6 false true false true (λ r, formatDuration (t_last r));
   mkColumn "Success Rate" 12 false true false true (λ r, percentString (t_successes r) (t_failures r))].
Definition setShown (b : bool) (c : tableColumn) : tableColumn :=
  mkColumn (col_header c) (col_width c) b b (col_flexible c) (col_rightAlign c) (col_value c).
(** The columns for the flags [--hide-sources] and [--routes]. *)
Definition columnsFor (hideSources routes : bool) : list tableColumn :=
  let cs := if hideSources then alter (setShown false) 0%nat newTopTable else newTopTable in
  if routes then alter (setShown true) 4%nat (alter (setShown false) 3%nat (alter (setShown false) 2%nat cs)) else cs.

Definition keyOf (columns : list tableColumn) (r : tableRow) : list string := (λ c, col_value c r) <$> filter (λ c, col_key c = true) columns.
Definition insertRow (columns : list tableColumn) (rows : list tableRow) (row : tableRow) : list tableRow :=
  match list_find (λ r, keyOf columns r = keyOf columns row) rows with
  | Some (i, _) => alter (λ r, merge r row) i rows
  | None => rows ++ [row]
  end.
Definition tableInsert (columns : list tableColumn) (rows : list tableRow) (req : topRequest) : res (list tableRow) :=
  match newRow req with Ok row => Ok (insertRow columns rows row) | Err _ => Ok rows | Panic => Panic end.

(** ** Rendering *)
Definition countDesc (a b : tableRow) : Prop := t_count b ≤ t_count a.
#[export] Instance countDesc_dec a b : Decision (countDesc a b).
Proof. unfold countDesc. apply _. Defined.
Definition sortRows (rows : list tableRow) : list tableRow := merge_sort countDesc rows.
Definition columnSpacing : Z := 2.
Definition tableWidthCalc (columns : list tableColumn) : Z :=
  foldl (λ w c, w + col_width c + columnSpacing) 0 columns - columnSpacing.
Definition adjustColumnWidths (columns : list tableColumn) (rows : list tableRow) : list tableColumn :=
  (λ c, if col_flexible c
        then mkColumn (col_header c) (foldl (λ w r, Z.max w (StringWidth (col_value c r))) (StringWidth (col_header c)) rows)
               (col_key c) (col_display c) (col_flexible c) (col_rightAlign c) (col_value c)
        else c) <$> columns.
(** The cells of a row: where each begins and its text. *)
Definition renderRow (scrollpos : Z) (columns : list tableColumn) (row : tableRow) : list (Z * string) :=
  (foldl (λ acc c, let v := col_value c row in
                   let padding := if col_rightAlign c then col_width c - StringWidth v else 0 in
                   (acc.1 + col_width c + columnSpacing, acc.2 ++ [(acc.1 + padding, v)]))
     (scrollpos, []) (filter (λ c, col_display c = true) columns)).2.
Definition renderBody (scrollpos : Z) (columns : list tableColumn) (rows : list tableRow) : list tableRow * list (list (Z * string)) :=
  (sortRows rows, renderRow scrollpos columns <$> sortRows rows).
(** The loop of the command: a request arrives, or ([None]) the table is drawn; the widths of
    columns, which drawing adjusts, have no part in the rows. *)
Definition renderTable (columns : list tableColumn) (steps : list (option topRequest)) : res (list tableRow) :=
  foldl (λ acc st, let* rows := acc in
                   match st with Some req => tableInsert columns rows req | None => Ok (renderBody 0 columns rows).1 end) (Ok []) steps.
End tap.
