(* ===== verification/TopProps.v ===== *)
(** Theorems on the table of the command top. *)
From S2P Require Import Prelude GoStd K8s Addr ProfileTranslator VizApi VizRoutes Tap Top.

#[local] Open Scope string_scope.
#[local] Open Scope list_scope.
#[local] Open Scope Z_scope.
#[local] Open Scope go_scope.

Section table.
Context `{!MapRange} `{!Rendering}.

(** The loop of [renderTable]: a request arrives, or the table is drawn, which sorts its rows. *)
Inductive action := Arrives (row : tableRow) | Draws.
Definition act (columns : list tableColumn) (rows : list tableRow) (a : action) : list tableRow :=
  match a with Arrives row => insertRow columns rows row | Draws => sortRows rows end.
Definition arrived (l : list action) : list tableRow := omap (λ a, match a with Arrives row => Some row | Draws => None end) l.

(** One row for several. *)
Definition mergeAll (l : list tableRow) : option tableRow := match l with [] => None | r :: l => Some (foldl merge r l) end.
Lemma mergeAll_snoc l r : mergeAll (l ++ [r]) = Some match mergeAll l with Some s => merge s r | None => r end.
Proof. destruct l as [|x l]; [done|]. cbn. by rewrite foldl_snoc. Qed.

Section invariant.
Context (columns : list tableColumn) (Hkey : ∀ a b, keyOf columns (merge a b) = keyOf columns a).
Let key := keyOf columns.

Lemma mergeAll_key l row k : mergeAll (filter (λ r, key r = k) l) = Some row → key row = k.
Proof.
  destruct (filter _ l) as [|x xs] eqn:Hf; [done|]. cbn. intros [= <-].
  assert (key x = k) as Hx. { assert (x ∈ filter (λ r, key r = k) l) as Hin by (rewrite Hf; apply list_elem_of_here). by apply list_elem_of_filter in Hin as [? _]. }
  clear Hf. revert x Hx. induction xs as [|y xs IH]; intros x Hx; [done|]. cbn. apply IH. unfold key in *. by rewrite Hkey.
Qed.

(** The table holds, for each key, the merge of the rows that arrived with it. *)
Definition holds (rows seen : list tableRow) : Prop :=
  NoDup (key <$> rows) ∧ ∀ row, row ∈ rows ↔ ∃ k, mergeAll (filter (λ r, key r = k) seen) = Some row.

Lemma holds_by_key rows seen row : holds rows seen → row ∈ rows ↔ mergeAll (filter (λ r, key r = key row) seen) = Some row.
Proof. intros [_ Hr]. rewrite Hr. split; [intros (k & Hk); by rewrite (mergeAll_key _ _ _ Hk)|eauto]. Qed.

Lemma filter_other seen row k : key row ≠ k → filter (λ r, key r = k) (seen ++ [row]) = filter (λ r, key r = k) seen.
Proof. intros Hk. rewrite filter_app, filter_cons_False, filter_nil by done. apply app_nil_r. Qed.
Lemma filter_same seen row : filter (λ r, key r = key row) (seen ++ [row]) = filter (λ r, key r = key row) seen ++ [row].
Proof. by rewrite filter_app, filter_cons_True, filter_nil. Qed.

Lemma insertRow_holds rows seen row : holds rows seen → holds (insertRow columns rows row) (seen ++ [row]).
Proof.
  intros Hh. pose proof Hh as [Hnd Hrows]. unfold insertRow. destruct (list_find _ rows) as [[i old]|] eqn:Hf.
  - apply list_find_Some in Hf as (Hi & Hold & _). fold key in Hold.
    pose proof (proj1 (holds_by_key _ _ old Hh) (list_elem_of_lookup_2 _ _ _ Hi)) as Hm. rewrite Hold in Hm. split.
    + assert (key <$> alter (λ r, merge r row) i rows = key <$> rows) as ->; [|done]. apply list_eq. intros j. rewrite !list_lookup_fmap.
      destruct (decide (i = j)) as [<-|]; [|by rewrite list_lookup_alter_ne]. rewrite list_lookup_alter_eq, Hi. cbn. f_equal. apply Hkey.
    + intros row'. split.
      * intros (j & Hj)%list_elem_of_lookup. destruct (decide (i = j)) as [<-|Hne].
        -- rewrite list_lookup_alter_eq, Hi in Hj. injection Hj as <-. exists (key row). rewrite filter_same, mergeAll_snoc. by rewrite Hm.
        -- rewrite list_lookup_alter_ne in Hj by done. exists (key row'). rewrite filter_other.
           ++ apply (holds_by_key _ _ row' Hh). by eapply list_elem_of_lookup_2.
           ++ intros Heq. apply Hne. apply (NoDup_lookup (key <$> rows) i j (key row) Hnd); rewrite list_lookup_fmap; [rewrite Hi|rewrite Hj]; cbn; congruence.
      * intros (k & Hk). destruct (decide (key row = k)) as [<-|Hne].
        -- rewrite filter_same, mergeAll_snoc in Hk. rewrite Hm in Hk. injection Hk as <-.
           apply list_elem_of_lookup. exists i. by rewrite list_lookup_alter_eq, Hi.
        -- rewrite filter_other in Hk by done. assert (row' ∈ rows) as (j & Hj)%list_elem_of_lookup by (apply Hrows; eauto).
           apply list_elem_of_lookup. exists j. rewrite list_lookup_alter_ne; [done|]. intros ->.
           rewrite Hi in Hj. injection Hj as <-. apply Hne. rewrite <-Hold. by eapply mergeAll_key.
  - apply list_find_None in Hf. rewrite Forall_forall in Hf. fold key in Hf.
    assert (filter (λ r, key r = key row) seen = []) as Hnone.
    { destruct (mergeAll (filter (λ r, key r = key row) seen)) as [s|] eqn:Hs; [|by destruct (filter _ _)].
      destruct (Hf s); [apply Hrows; eauto|by eapply mergeAll_key]. }
    split.
    + rewrite fmap_app. apply NoDup_app. split; [done|]. split; [|apply NoDup_singleton].
      intros k (r & Hk & Hr)%list_elem_of_fmap Hs%list_elem_of_singleton. apply (Hf r Hr). by rewrite <-Hk, Hs.
    + intros row'. rewrite elem_of_app, list_elem_of_singleton. split.
      * intros [Hr| ->]; [|exists (key row); by rewrite filter_same, Hnone]. exists (key row'). rewrite filter_other; [exact (proj1 (holds_by_key _ _ row' Hh) Hr)|].
        intros Heq. by apply (Hf row').
      * intros (k & Hk). destruct (decide (key row = k)) as [<-|Hne]; [rewrite filter_same, Hnone in Hk; injection Hk as <-; by right|].
        rewrite filter_other in Hk by done. left. apply Hrows. eauto.
Qed.
Lemma sortRows_holds rows seen : holds rows seen → holds (sortRows rows) seen.
Proof.
  intros [Hnd Hr]. assert (sortRows rows ≡ₚ rows) as Hp by apply merge_sort_Permutation. split; [by rewrite Hp|]. intros row. by rewrite Hp.
Qed.
Lemma act_holds l : holds (foldl (act columns) [] l) (arrived l).
Proof.
  induction l as [|a l IH] using rev_ind.
  - split; [apply NoDup_nil_2|]. intros row. rewrite elem_of_nil. split; [done|]. by intros (k & ?).
  - rewrite foldl_snoc. unfold arrived. rewrite omap_app. destruct a as [row|]; cbn.
    + by apply insertRow_holds.
    + rewrite app_nil_r. by apply sortRows_holds.
Qed.
End invariant.

(** ** What a merged row says *)
Definition single (r : tableRow) : Prop :=
  t_count r = 1 ∧ t_best r = t_last r ∧ t_worst r = t_last r
  ∧ (t_successes r = 1 ∧ t_failures r = 0 ∨ t_successes r = 0 ∧ t_failures r = 1).
(** The numbers of a row over the requests it stands for, whose latency is their last. *)
Definition summarises (l : list tableRow) (row : tableRow) : Prop :=
  t_count row = Z.of_nat (length l)
  ∧ ((∃ r, r ∈ l ∧ t_best row = t_last r) ∧ ∃ r, r ∈ l ∧ t_worst row = t_last r)
  ∧ (∀ r, r ∈ l → t_best row ≤ t_last r ≤ t_worst row)
  ∧ t_last <$> last l = Some (t_last row)
  ∧ t_successes row = Z.of_nat (length (filter (λ r, t_successes r = 1) l)) ∧ t_successes row + t_failures row = t_count row.

Lemma summarises_single r : single r → summarises [r] r.
Proof.
  intros (Hc & Hb & Hw & Hs). unfold summarises. setoid_rewrite list_elem_of_singleton.
  split_and!; [done|by exists r|by exists r|intros ? ->; lia|done| |lia].
  rewrite filter_cons, filter_nil. destruct Hs as [[-> _]|[-> _]]; by case_decide.
Qed.
Lemma summarises_merge l s r : summarises l s → single r → summarises (l ++ [r]) (merge s r).
Proof.
  intros (Hc & ((rb & Hrb & Hb) & rw & Hrw & Hw) & Hall & Hlast & Hs & Hsum) (Hc' & Hb' & Hw' & Hs'). unfold summarises, merge.
  cbn [t_count t_best t_worst t_last t_successes t_failures]. rewrite Hb', Hw'. setoid_rewrite elem_of_app. setoid_rewrite list_elem_of_singleton.
  pose proof (Hall rb Hrb) as Hbb. split_and!.
  - rewrite length_app. cbn. lia.
  - destruct (Z.ltb_spec (t_last r) (t_best s)); eauto.
  - destruct (Z.ltb_spec (t_worst s) (t_last r)); eauto.
  - intros r' [Hr'| ->]; [specialize (Hall r' Hr')|]; destruct (Z.ltb_spec (t_last r) (t_best s)), (Z.ltb_spec (t_worst s) (t_last r)); lia.
  - by rewrite last_snoc.
  - rewrite filter_app, length_app, filter_cons, filter_nil. case_decide; cbn; lia.
  - lia.
Qed.
Lemma mergeAll_summarises l row : Forall single l → mergeAll l = Some row → summarises l row.
Proof.
  revert row. induction l as [|r l IH] using rev_ind; [done|]. intros row [Hl [Hr _]%Forall_cons]%Forall_app. rewrite mergeAll_snoc. intros [= <-].
  destruct (mergeAll l) as [s|] eqn:Hs; [apply summarises_merge; [by apply IH|done]|]. destruct l; [by apply summarises_single|done].
Qed.

(** ** From requests to rows *)
Lemma newRow_single req row : newRow req = Ok row → single row.
Proof.
  unfold newRow. destruct (ev_SourceMeta (tq_event req)), (ev_DestinationMeta (tq_event req)); try done. destruct (negb _); [done|]. intros [= <-]. unfold single. cbn.
  destruct (succeeded _ _); auto 6.
Qed.
Definition rowsOf (steps : list (option topRequest)) : list tableRow := omap (λ st, st ≫= λ req, res_ok (newRow req)) steps.
Definition hasMeta (req : topRequest) : Prop := is_Some (ev_SourceMeta (tq_event req)) ∧ is_Some (ev_DestinationMeta (tq_event req)).
Definition actionOf (st : option topRequest) : option action := match st with Some req => Arrives <$> res_ok (newRow req) | None => Some Draws end.

Lemma newRow_no_panic req : hasMeta req → newRow req ≠ Panic.
Proof. intros [[m Hm] [m' Hm']]. unfold newRow. rewrite Hm, Hm'. by destruct (negb _). Qed.
Lemma renderTable_acts columns steps : Forall (λ st, match st with Some req => hasMeta req | None => True end) steps →
  renderTable columns steps = Ok (foldl (act columns) [] (omap actionOf steps)).
Proof.
  induction steps as [|st steps IH] using rev_ind; [done|]. intros [Hs [Hst _]%Forall_cons]%Forall_app. unfold renderTable. rewrite foldl_snoc.
  fold (renderTable columns steps). rewrite (IH Hs), omap_app, foldl_app. cbn [res_bind]. destruct st as [req|]; [|done].
  unfold tableInsert. cbn. pose proof (newRow_no_panic req Hst). by destruct (newRow req).
Qed.
Lemma arrived_rows steps : arrived (omap actionOf steps) = rowsOf steps.
Proof.
  unfold arrived, rowsOf. induction steps as [|st steps IH]; [done|]. cbn. destruct st as [req|]; cbn; [|done].
  destruct (newRow req); cbn; [by f_equal|done..].
Qed.
Lemma keyOf_merge hideSources routes a b : keyOf (columnsFor hideSources routes) (merge a b) = keyOf (columnsFor hideSources routes) a.
Proof. by destruct hideSources, routes. Qed.

(** C28: Whatever requests complete and however often the table is drawn in between, the table has one
    row for each combination of the key columns among the requests with a valid duration, and
    its numbers are those of the requests with that combination. *)
Theorem top_table_exact hideSources routes steps :
  let columns := columnsFor hideSources routes in
  Forall (λ st, match st with Some req => hasMeta req | None => True end) steps →
  ∃ rows, renderTable columns steps = Ok rows ∧ NoDup (keyOf columns <$> rows)
    ∧ (∀ row, row ∈ rows → summarises (filter (λ r, keyOf columns r = keyOf columns row) (rowsOf steps)) row)
    ∧ (∀ r, r ∈ rowsOf steps → keyOf columns r ∈ keyOf columns <$> rows).
Proof.
  intros columns Hmeta. eexists. split; [by apply renderTable_acts|].
  pose proof (act_holds columns (keyOf_merge hideSources routes) (omap actionOf steps)) as Hh. rewrite arrived_rows in Hh.
  set (rows := foldl (act columns) [] _) in *. pose proof Hh as [Hnd Hrows]. split; [done|]. split.
  - intros row Hrow. apply mergeAll_summarises.
    + apply Forall_forall. intros r [_ Hr]%list_elem_of_filter. unfold rowsOf in Hr.
      apply list_elem_of_omap in Hr as ([req|] & _ & Hr); [|done]. cbn in Hr. apply res_ok_Some in Hr. by eapply newRow_single.
    + exact (proj1 (holds_by_key columns (keyOf_merge hideSources routes) _ _ row Hh) Hrow).
  - intros r Hr. assert (∃ row, mergeAll (filter (λ r', keyOf columns r' = keyOf columns r) (rowsOf steps)) = Some row) as [row Hrow].
    { assert (r ∈ filter (λ r', keyOf columns r' = keyOf columns r) (rowsOf steps)) as Hin by (by apply list_elem_of_filter).
      destruct (filter _ _) as [|x xs]; [by apply elem_of_nil in Hin|]. by eexists. }
    apply list_elem_of_fmap. exists row. split; [symmetry; by eapply (mergeAll_key columns (keyOf_merge hideSources routes))|]. apply Hrows. eauto.
Qed.

(** * Limits *)
(** A request is never taken from the outstanding ones; a second end of its stream completes it
    again. *)
Lemma outstanding_kept out ev out' r : processEvent out ev = Ok (out', r) → dom out ⊆ dom out'.
Proof.
  unfold processEvent. destruct (ev_Http ev) as [[[i|]|[i|]|[i|]]|]; try done; repeat case_match; intros [= <- <-]; rewrite ?dom_insert; set_solver.
Qed.
Lemma end_counts_again out ev out' r : processEvent out ev = Ok (out', Some r) → processEvent out' ev = Ok (out', Some r).
Proof.
  unfold processEvent. destruct (ev_Http ev) as [[[i|]|[i|]|[i|]]|]; try done; repeat case_match; try done; intros [= <- <-]; by simplify_option_eq.
Qed.
(** The width of the table includes that of columns that are not shown. *)
Lemma hidden_columns_counted columns c : tableWidthCalc (columns ++ [c]) = tableWidthCalc columns + col_width c + columnSpacing.
Proof. unfold tableWidthCalc. rewrite foldl_snoc. unfold columnSpacing. lia. Qed.
End table.

(** Addresses of version 6 are cut at their first colon: all peers without a pod are one. *)
Lemma stripPort_v6 : stripPort (PublicAddressToString (mkTcpAddress (Some (Ipv6 0 1)) 80)) = "["
  ∧ stripPort (PublicAddressToString (mkTcpAddress (Some (Ipv6 1 7)) 80)) = "[".
Proof. split; reflexivity. Qed.

(** ** A concrete table *)
Definition ex_rendering : Rendering := {|
  methodName := λ z, if bool_decide (z = 0) then "GET" else "POST"; schemeName := λ _, "HTTP"; codeName := strconv.Itoa;
  DurationString := strconv.Itoa; percentString := λ a b, strconv.Itoa (100 * a / (a + b)); StringWidth := λ s, Z.of_nat (String.length s) |}.
Definition ex_topEvent (e : HttpEvent HeaderValue) : TapEvent HeaderValue :=
  mkTapEvent (mkTcpAddress (Some (Ipv4 167772161)) 4000) (Some ∅) (mkTcpAddress (Some (Ipv4 167772162)) 80) (Some {["pod" := "web-0"]}) (Some ∅) INBOUND
    (Some e).
Definition ex_stream (i : Z) (millis status : Z) : list (TapEvent HeaderValue) :=
  ex_topEvent <$> [RequestInit (Some (mkStreamId 0 i)) (Some (Registered 0)) None "web" "/" None;
                   ResponseInit (Some (mkStreamId 0 i)) (Some (0, 1000)) status None;
                   ResponseEnd (Some (mkStreamId 0 i)) (Some (0, millis * 1000000)) None 12 None None].
Definition ex_requests : list topRequest := default [] (res_ok (processEvents ∅ (ex_stream 1 7 200 ++ ex_stream 2 3 503 ++ ex_stream 3 5 200))).
Definition ex_steps : list (option topRequest) := None :: (Some <$> ex_requests) ++ [None].
Lemma top_table_exact_witness :
  length ex_requests = 3%nat
  ∧ ∃ rows, renderTable (H0 := ex_rendering) (columnsFor (H0 := ex_rendering) true false) ex_steps = Ok rows
    ∧ ∀ row, row ∈ rows → summarises (filter (λ r, keyOf (columnsFor (H0 := ex_rendering) true false) r = keyOf (columnsFor (H0 := ex_rendering) true false) row)
                                        (rowsOf (H0 := ex_rendering) ex_steps)) row.
Proof.
  split; [vm_compute; reflexivity|].
  destruct (top_table_exact (H0 := ex_rendering) true false ex_steps) as (rows & Hrows & _ & Hsum & _).
  - assert (ex_steps = [None] ++ (Some <$> ex_requests) ++ [None]) as -> by reflexivity. repeat constructor; eexists; vm_compute; reflexivity.
  - exists rows. split; [exact Hrows|exact Hsum].
Defined.
